(* ===== verification/_CoqProject ===== *)
-Q . S2P
Prelude.v
Json.v
JsonFacts.v
Pdu.v
DeviceId.v
DeviceIdTolerant.v
TcpAdu.v
RtuTiming.v
RtuAdu.v
PrivateFunction.v
RtuSession.v
RtuProduction.v
RtuProductionFacts.v
RtuSerial.v
TcpOwner.v
TcpOwnerFacts.v
TcpTimeline.v
TcpTimelineFacts.v
TcpOperation.v
TcpOperationFacts.v
TcpPool.v
Coalescing.v
CoalescingFacts.v
TcpTransport.v
TcpTransportFacts.v
TcpWriteFacts.v
TcpReadFacts.v
TcpRetry.v
TcpRetryFacts.v
RtuEndpoint.v
RtuEndpointSteps.v
RtuEndpointFacts.v
RtuEndpointProps.v
RuntimeAcquisition.v
RuntimeNormalization.v
RuntimeAcquisitionFacts.v
RuntimeAcquisitionProps.v
RuntimeNormalizationFacts.v
Scheduler.v
SchedulerOrder.v
SchedulerBooks.v
SchedulerFacts.v
TcpEndpoint.v
TcpEndpointWire.v
TcpEndpointRetry.v
TcpEndpointBooks.v
TcpEndpointMoves.v
TcpEndpointFacts.v
TcpEndpointDispatch.v
