(* ===== verification/Prelude.v ===== *)
(** Verification of helianthus-modbus, a read-only Modbus runtime in Go.

    * The program

    The package reads registers and device identifications from Modbus devices over
    TCP and over serial lines.  Its parts, from the wire up:

    - protocol data units (src/pdu.go, src/device_id.go, src/private_function.go) and
      the frames that carry them (src/tcp_adu.go, src/rtu_adu.go, src/rtu_timing.go);
    - the owner of a TCP connection (src/tcp_owner.go), which gives out transaction
      identifiers and correlates responses, and the pool of owners (src/tcp_pool.go);
    - the coalescing of logical reads into one physical request (src/tcp_coalescing.go),
      which drives an owner, and the scheduler of an endpoint (src/tcp_scheduler.go),
      which admits, orders and retries requests and groups, with the reconnect backoff;
    - the TCP transport (src/tcp_transport.go), which writes and reads sockets for an
      owner under deadlines, and the TCP endpoint (src/tcp_endpoint*.go), which drives
      pool, scheduler, groups, transports and backoff;
    - the RTU session (src/rtu_session.go), the RTU fixture endpoint
      (src/rtu_endpoint.go) and the RTU production endpoint (src/rtu_production*.go),
      each of which owns a half-duplex line;
    - runtime acquisition (src/runtime_acquisition.go, src/runtime_normalization.go),
      which turns a delivered view and a documentary record into a capability that can
      be claimed once.

    * Files

    Prelude           results, machine integers, record updates, tactics, byte lemmas
    Json, JsonFacts   what the program uses of encoding/json and unicode/utf8
    Pdu               src/pdu.go
    DeviceId          src/device_id.go, strict decoding and aggregation
    DeviceIdTolerant  src/device_id.go, tolerant pages and traversals
    TcpAdu            src/tcp_adu.go: MBAP frames and the stream decoder
    RtuTiming         src/rtu_timing.go
    RtuAdu            src/rtu_adu.go: CRC, frames, the timed frame decoder
    PrivateFunction   src/private_function.go
    RtuSession        src/rtu_session.go
    RtuProduction, RtuProductionFacts   src/rtu_production.go, rtu_production_private.go
                      and the stream of src/rtu_serial.go
    RtuSerial         src/rtu_serial_linux.go, rtu_serial_stub.go, rtu_capability.go
    TcpOwner, TcpOwnerFacts        src/tcp_owner.go and its invariant
    TcpPool           src/tcp_pool.go over a store of owners
    Coalescing, CoalescingFacts    src/tcp_coalescing.go
    TcpTimeline, TcpTimelineFacts, TcpOperation, TcpOperationFacts, TcpTransport,
    TcpTransportFacts, TcpWriteFacts, TcpReadFacts
                      src/tcp_transport.go: the event timeline, one operation and its
                      races, the transport over a link (owner, groups, claims); what
                      holds over any life of a link, of a write, of a read
    TcpRetry, TcpRetryFacts        src/tcp_endpoint_retry.go: the ledger of requests,
                      their retries and the reconnect they drive, one definition
                      for each critical section
    RtuEndpoint, RtuEndpointSteps, RtuEndpointFacts, RtuEndpointProps
                      src/rtu_endpoint.go: operations, their step relation, the
                      invariants over histories, the theorems
    RuntimeAcquisition, RuntimeAcquisitionFacts, RuntimeAcquisitionProps
                      src/runtime_acquisition.go
    RuntimeNormalization, RuntimeNormalizationFacts   src/runtime_normalization.go
    Scheduler, SchedulerOrder, SchedulerBooks, SchedulerFacts
                      src/tcp_scheduler.go and its reconnect backoff
    TcpEndpoint       src/tcp_endpoint.go, tcp_endpoint_read.go, tcp_endpoint_lifecycle.go:
                      state, connections, admission, dispatch, closing
    TcpEndpointWire   src/tcp_endpoint_write.go, tcp_endpoint_response.go
    TcpEndpointRetry  src/tcp_endpoint_retry.go: cancelling, retrying, waiting, snapshot
    TcpEndpointBooks, TcpEndpointMoves  the invariant of the endpoint and that each
                      operation keeps it
    TcpEndpointFacts, TcpEndpointDispatch  the theorems over its runs and the end of its
                      dispatch loop

    * How the code is modelled

    A struct is a [Record] whose fields carry a two-letter prefix, an enumeration an
    [Inductive], a method a function of the state that returns the state and its
    result under the Go name (a prefix is added where two types share a method name:
    [EndpointClose], [AttemptClose]).  Parts of a long method that are named here map to
    the lines they translate.  Errors are values: [result] where the Go function
    returns the zero value with an error, a pair where it does not.

    Integers are [Z] kept in the range of their Go type: conversions and unsigned
    arithmetic wrap ([wrap16], [wrap64], ...), signed sums are guarded as in the code.
    Byte slices are lists of [Z].  Maps are [gmap]; where the code ranges over a map and
    the order could matter, it sorts the keys, and so does the model.  Shared mutable
    objects are stores indexed by address (the owners of a pool, the tokens of runtime
    acquisition); a pointer that is only compared is its address.

    Injected code is a parameter or an input: a clock reading and the cancellation of a
    context are arguments of the operation that observes them, a byte stream or a
    socket is the script of its answers, an event sink says whether it panics, a jitter
    source is the fraction it returned.  An operation of the RTU endpoint, a source or a
    scheduler runs under its mutex and is one atomic step.  The operations of the TCP
    transport and of the TCP endpoint release their locks; what other threads do in such
    a gap is a function given to the operation, and the theorems quantify over the
    functions that are themselves runs ([runs]).  A run is made of whole operations, with
    runs of other threads in their gaps, and of single critical sections that belong to
    an operation begun or finished elsewhere (removing a request, dropping a connection,
    failing a group, recording an event, any section of the retry ledger), so these
    sections need not be nested.  One gap is restricted: while [Read] handles a response, no other
    thread gives the request that it answers another physical request
    ([leaves_transaction]); only an answer does that, and the owner delivers one answer a
    physical request (TcpOwnerFacts).

    The operations of the retry ledger are sequences of critical sections, with a [gap]
    between two of them.  In a gap other threads run any sections ([ledger_section]); the
    ledger carries them in [rl_others], one list a gap, and the theorems hold for every
    such schedule.  Within one gap of the endpoint the sections of the transport's
    cleanup after a failed write ([releasePreWrite]) and of the failing of the groups by a
    closing transport are taken together.  Mutexes, nil receivers, test hooks and
    accessors that copy a field are left out.

    Loops that are not structural take fuel, and the theorems show it suffices:
    [feed_loop] (one frame a turn, as many turns as bytes), the pages and objects of a
    device identification (bytes), [allocate_loop] (65536 identifiers), the rotations of
    the scheduler (length of the order), [expire_open_loop] (live capabilities), the members
    of a JSON object (bytes), the dispatch of the TCP endpoint (one more than the live
    requests and the queued entries).  A script that is too short for an exchange is a
    wait that has not ended ([None]); the theorems say which scripts suffice.

    * What the theorems show

    Framing and data: the TCP decoder delivers the same frames however a well-framed
    stream is cut, refuses a malformed one with the error of its first bad header in the
    fragment that completes it, and inverts the encoder; an error confined to two adjacent bytes of an RTU frame is
    detected, and an RTU frame is only delivered after well-paced bytes and silence;
    device identifications, strict and tolerant, are exact or name why they are not.

    Ownership: over any run a physical request satisfies its waiter at most once, and
    only by a response that matches it; an ambiguous write closes the connection and
    fails its siblings once; a group slices a response exactly and gives each dependent
    back once; the pool never reuses an identity.

    Transport: over any life of a link the owner keeps its invariant; the first limit an
    operation reaches decides it; a failed write leaves nothing in flight and a successful
    one sent the whole request in time and recorded its transmission; a read loses no
    byte; the events and the metrics are those of an independent log of what was recorded.  Two theorems exhibit runs in which the cleanup
    of a failed write cancels another request, and a forced close goes unreported.

    TCP endpoint: over any run of any threads its tables, identifiers and ledger agree; a
    response reaches only the request that was written as that physical request; a
    dispatch token is used once, also while it is being written; closing is final;
    dispatch returns; an admitted read is queued as planned on a connection that is still
    served; retries and deadlines are bounded under any interleaving of critical sections.
    Two theorems show a reconnect that nobody can drive any more and a Device
    Identification page that is lost when it is read before its write has ended.

    Scheduling: the books of the scheduler balance in every reachable state, protected
    capacity is never taken, dispatch is exact, scopes are served in turn, and backoff
    delays are bounded.

    Serial lines: the RTU endpoint admits a request only after silence (within a
    generation: Recover opens the next one without a wait), delivers only
    what answers the request in time, keeps a log that an abstract log accepts, leaves
    a quarantine exactly when it may, and stays closed while its clock does not run
    backwards (a reading that does reopens it, which a theorem shows).

    The production endpoint refines an abstract line, which is fenced after every failed
    exchange whose bytes do not hold a valid refusal, and a read of it succeeds exactly
    when the line answered in time; the serial port is raw, has the configured format,
    and is released by every failed opening.

    Acquisition: a view issues once, a capability is claimed once and its outcome is
    final, closing an attempt takes all members or cancels all, a restart is accepted by
    a successor; the normalization parser terminates, admits only valid records and
    reads every valid record back.

    * Not modelled

    System calls, sockets, files, clocks, timers and contexts are outside: their answers
    are arguments.  Of the TCP transport, the identity of a connection (the types and
    addresses behind net.Conn), the real clock and the interrupter of a socket are left
    out; of the endpoint, the parsing of the configured address, whose result is an
    argument, and a sink that calls the endpoint again; of coalescing, the source of
    runtime acquisitions that a group carries, and its deadline, which no code reads.
    Error texts, accessors and src/doc.go have no behaviour of their own.  The tools under
    src/scripts read and write files of the repository and are not part of the runtime. *)

From Stdlib Require Export ZArith Lia.
From stdpp Require Export base list strings gmap sorting fin_maps.

#[global] Open Scope Z_scope.

(** * Fallible computations

    A Go function that returns [(value, error)] and hands back the zero value
    together with every error is a [result]: its value or its error. *)

Inductive result (E A : Type) : Type :=
| Ok (a : A)
| Err (e : E).
Arguments Ok {E A} a.
Arguments Err {E A} e.

#[export] Instance result_ret E : MRet (result E) := fun A a => Ok a.
#[export] Instance result_bind E : MBind (result E) := fun A B f m =>
  match m with
  | Ok a => f a
  | Err e => Err e
  end.
#[export] Instance result_fmap E : FMap (result E) := fun A B f m =>
  match m with
  | Ok a => Ok (f a)
  | Err e => Err e
  end.

#[export] Instance result_eq_dec {E A} `{EqDecision E} `{EqDecision A} :
  EqDecision (result E A).
Proof. solve_decision. Defined.

(** * Machine integers

    A value of a Go unsigned type of width [w] is a [Z] below [2 ^ w]; a
    conversion to that type keeps the low bits. *)

Definition u8 (z : Z) : Prop := 0 <= z < 256.
Definition u16 (z : Z) : Prop := 0 <= z < 65536.
Definition u32 (z : Z) : Prop := 0 <= z < 4294967296.
Definition u64 (z : Z) : Prop := 0 <= z < 18446744073709551616.

Definition wrap8 (z : Z) : Z := z mod 256.
Definition wrap16 (z : Z) : Z := z mod 65536.
Definition wrap32 (z : Z) : Z := z mod 4294967296.
Definition wrap64 (z : Z) : Z := z mod 18446744073709551616.

Definition MaxInt64 : Z := 9223372036854775807.
Definition MaxInt : Z := MaxInt64.
Definition MaxUint64 : Z := 18446744073709551615.

(** A Go [int] or [int64] (time.Duration included). *)
Definition i64 (z : Z) : Prop := - 9223372036854775808 <= z <= MaxInt64.

Definition zlen {A} (l : list A) : Z := Z.of_nat (length l).

(** * Lists *)

Lemma zlen_nonneg {A} (l : list A) : 0 <= zlen l.
Proof. unfold zlen. lia. Qed.

Lemma zlen_app {A} (l k : list A) : zlen (l ++ k) = zlen l + zlen k.
Proof. unfold zlen. rewrite length_app. lia. Qed.

Lemma zlen_cons {A} (x : A) l : zlen (x :: l) = 1 + zlen l.
Proof. unfold zlen. simpl. lia. Qed.

Lemma zlen_nil {A} : zlen (@nil A) = 0.
Proof. reflexivity. Qed.

Lemma zlen_take {A} n (l : list A) : zlen (take n l) = Z.min (Z.of_nat n) (zlen l).
Proof. unfold zlen. rewrite length_take. lia. Qed.

Lemma zlen_drop {A} n (l : list A) : zlen (drop n l) = zlen l - Z.min (Z.of_nat n) (zlen l).
Proof. unfold zlen. rewrite length_drop. lia. Qed.

Create Rewrite HintDb zlen.
#[export] Hint Rewrite @zlen_app @zlen_cons @zlen_nil @zlen_take @zlen_drop : zlen.

Ltac zlen_simpl := autorewrite with zlen in *.

(** * Tactics *)

(** Case analysis on the boolean tests of a translated function. *)
Ltac case_test :=
  match goal with
  | H : context [if ?b then _ else _] |- _ =>
      lazymatch type of b with bool => destruct b eqn:? end
  | |- context [if ?b then _ else _] =>
      lazymatch type of b with bool => destruct b eqn:? end
  end.

Ltac simp_res :=
  repeat match goal with
  | H : Ok _ = Ok _ |- _ => injection H as H; try subst
  | H : Err _ = Err _ |- _ => injection H as H; try subst
  | H : Ok _ = Err _ |- _ => discriminate H
  | H : Err _ = Ok _ |- _ => discriminate H
  | H : Some _ = Some _ |- _ => injection H as H; try subst
  | H : Some _ = None |- _ => discriminate H
  | H : None = Some _ |- _ => discriminate H
  end.

(** Decide a boolean test from the linear facts in the context. *)
Ltac test_true b := replace b with true; [|symmetry; try (zlen_simpl; lia)].
Ltac test_false b := replace b with false; [|symmetry; try (zlen_simpl; lia)].

(** Take the [else] branch of the leading test; its falsity is the second goal. *)
Ltac else_branch :=
  match goal with
  | |- (if ?b then _ else _) = _ => replace b with false; [cbv iota|symmetry]
  end.

Ltac bool_hyps :=
  repeat match goal with
  | H : _ && _ = true |- _ => apply andb_prop in H as [? ?]
  | H : _ || _ = false |- _ => apply orb_false_elim in H as [? ?]
  | H : negb _ = true |- _ => apply negb_true_iff in H
  | H : negb _ = false |- _ => apply negb_false_iff in H
  | H : bool_decide _ = true |- _ => apply bool_decide_eq_true_1 in H
  | H : bool_decide _ = false |- _ => apply bool_decide_eq_false_1 in H
  | H : (_ >? _) = _ |- _ => rewrite Z.gtb_ltb in H
  | H : (_ >=? _) = _ |- _ => rewrite Z.geb_leb in H
  | H : (_ =? _) = true |- _ => apply Z.eqb_eq in H
  | H : (_ =? _) = false |- _ => apply Z.eqb_neq in H
  | H : (_ <? _) = true |- _ => apply Z.ltb_lt in H
  | H : (_ <? _) = false |- _ => apply Z.ltb_ge in H
  | H : (_ <=? _) = true |- _ => apply Z.leb_le in H
  | H : (_ <=? _) = false |- _ => apply Z.leb_gt in H
  end.

(** The same on a goal that states the outcome of a test. *)
Ltac bool_goal :=
  repeat match goal with
  | |- _ || _ = false => apply orb_false_intro
  | |- _ && _ = true => apply andb_true_intro; split
  | |- negb _ = true => apply negb_true_iff
  | |- negb _ = false => apply negb_false_iff
  | |- (_ >? _) = _ => rewrite Z.gtb_ltb
  | |- (_ >=? _) = _ => rewrite Z.geb_leb
  | |- (_ =? _) = true => apply Z.eqb_eq
  | |- (_ =? _) = false => apply Z.eqb_neq
  | |- (_ <? _) = true => apply Z.ltb_lt
  | |- (_ <? _) = false => apply Z.ltb_ge
  | |- (_ <=? _) = true => apply Z.leb_le
  | |- (_ <=? _) = false => apply Z.leb_gt
  end.

Create HintDb modbus.

(** * Record updates

    [r <| field := v |>] is [r] with [field] changed.  A record declares its
    fields once, by an instance of [Fields] that rebuilds a value from its
    projections; the update of a field is derived from it. *)

Class Fields (R : Type) := rebuild : R -> R.
Class FieldOf {R E : Type} (field : R -> E) := store : E -> R -> R.

Ltac derive_store R field :=
  let inst := constr:(_ : Fields R) in
  let body := eval red in inst in
  lazymatch eval pattern field in body with
  | ?build _ => let t := eval cbv beta in (fun v (r : R) => build (fun _ => v) r) in exact t
  end.

#[export] Hint Extern 1 (@FieldOf ?R _ ?field) => derive_store R field : typeclass_instances.

Notation "r <| field := v |>" := (store (field := field) v r)
  (at level 1, left associativity, field at level 1, v at level 99,
   format "r  <| field  :=  v |>").

(** * Bytes and words *)

Lemma wrap8_u8 z : u8 (wrap8 z).
Proof. unfold u8, wrap8. apply Z.mod_pos_bound; lia. Qed.

Lemma wrap16_u16 z : u16 (wrap16 z).
Proof. unfold u16, wrap16. apply Z.mod_pos_bound; lia. Qed.

Lemma wrap64_u64 z : u64 (wrap64 z).
Proof. unfold u64, wrap64. apply Z.mod_pos_bound; lia. Qed.

Lemma wrap8_id z : u8 z -> wrap8 z = z.
Proof. unfold u8, wrap8. intros; apply Z.mod_small; lia. Qed.

Lemma wrap16_id z : u16 z -> wrap16 z = z.
Proof. unfold u16, wrap16. intros; apply Z.mod_small; lia. Qed.

Lemma wrap32_id z : u32 z -> wrap32 z = z.
Proof. unfold u32, wrap32. intros; apply Z.mod_small; lia. Qed.

Lemma wrap64_id z : u64 z -> wrap64 z = z.
Proof. unfold u64, wrap64. intros; apply Z.mod_small; lia. Qed.

#[export] Hint Resolve wrap8_u8 wrap16_u16 wrap64_u64 : modbus.

(** Go's [uint16(hi)<<8 | uint16(lo)] on two bytes. *)
Definition be16 (hi lo : Z) : Z := Z.lor (wrap16 (Z.shiftl hi 8)) lo.

Lemma lor_shift_add a b n :
  0 <= n -> 0 <= b < 2 ^ n -> Z.lor (Z.shiftl a n) b = a * 2 ^ n + b.
Proof.
  intros Hn Hb. rewrite <- Z.shiftl_mul_pow2 by lia.
  symmetry. rewrite Z.add_nocarry_lxor.
  - apply Z.bits_inj'; intros i Hi.
    rewrite Z.lxor_spec, Z.lor_spec.
    destruct (Z.ltb_spec i n).
    + rewrite Z.shiftl_spec_low by lia. now destruct (Z.testbit b i).
    + replace (Z.testbit b i) with false; [now destruct (Z.testbit _ i)|].
      destruct (Z.eqb_spec b 0) as [->|]; [now rewrite Z.bits_0|].
      symmetry; apply Z.bits_above_log2; [lia|].
      apply Z.log2_lt_pow2; [lia|].
      apply Z.lt_le_trans with (2 ^ n); [lia|].
      apply Z.pow_le_mono_r; lia.
  - apply Z.bits_inj'; intros i Hi. rewrite Z.land_spec, Z.bits_0.
    destruct (Z.ltb_spec i n).
    + now rewrite Z.shiftl_spec_low by lia.
    + replace (Z.testbit b i) with false; [apply andb_false_r|].
      destruct (Z.eqb_spec b 0) as [->|]; [now rewrite Z.bits_0|].
      symmetry; apply Z.bits_above_log2; [lia|].
      apply Z.log2_lt_pow2; [lia|].
      apply Z.lt_le_trans with (2 ^ n); [lia|].
      apply Z.pow_le_mono_r; lia.
Qed.

Lemma be16_val hi lo : u8 hi -> u8 lo -> be16 hi lo = 256 * hi + lo.
Proof.
  unfold u8, be16. intros Hh Hl.
  rewrite wrap16_id.
  - rewrite lor_shift_add by (try lia; exact Hl). change (2 ^ 8) with 256. lia.
  - unfold u16. rewrite Z.shiftl_mul_pow2 by lia. change (2 ^ 8) with 256. lia.
Qed.

Lemma be16_u16 hi lo : u8 hi -> u8 lo -> u16 (be16 hi lo).
Proof. intros Hh Hl. rewrite be16_val by done. unfold u8, u16 in *. lia. Qed.

Lemma hi_byte w : u16 w -> wrap8 (Z.shiftr w 8) = w / 256.
Proof.
  unfold u16; intros. rewrite Z.shiftr_div_pow2 by lia. change (2 ^ 8) with 256.
  apply wrap8_id. unfold u8. split; [apply Z.div_pos; lia|].
  apply Z.div_lt_upper_bound; lia.
Qed.

Lemma be16_split w :
  u16 w -> be16 (wrap8 (Z.shiftr w 8)) (wrap8 w) = w.
Proof.
  intros Hw. rewrite be16_val by apply wrap8_u8. rewrite hi_byte by done.
  unfold wrap8. pose proof (Z.div_mod w 256). lia.
Qed.

Lemma be16_hi hi lo :
  u8 hi -> u8 lo -> wrap8 (Z.shiftr (be16 hi lo) 8) = hi.
Proof.
  intros Hh Hl. rewrite hi_byte by now apply be16_u16.
  rewrite be16_val by done. unfold u8 in *.
  rewrite Z.add_comm, Z.mul_comm, Z.div_add by lia.
  rewrite Z.div_small by lia. lia.
Qed.

Lemma be16_lo hi lo : u8 hi -> u8 lo -> wrap8 (be16 hi lo) = lo.
Proof.
  intros Hh Hl. rewrite be16_val by done. unfold u8, wrap8 in *.
  rewrite Z.add_comm, Z.mul_comm, Z.mod_add by lia. now apply Z.mod_small.
Qed.

Definition hex_digit (n : Z) : Ascii.ascii :=
  Ascii.ascii_of_nat (Z.to_nat (if n <? 10 then 48 + n else 87 + n)).

(** [hex.EncodeToString]. *)
Fixpoint hex_encode (bytes : list Z) : string :=
  match bytes with
  | [] => EmptyString
  | b :: bytes =>
      String (hex_digit (Z.shiftr b 4)) (String (hex_digit (Z.land b 15)) (hex_encode bytes))
  end.

Lemma StronglySorted_snoc {A} (R : A -> A -> Prop) l x :
  StronglySorted R l -> Forall (fun y => R y x) l -> StronglySorted R (l ++ [x]).
Proof.
  induction 1 as [|y l Hs IH Hy]; intros HF; cbn; [by repeat constructor|].
  apply Forall_cons in HF as [Hyx HF].
  constructor; [by apply IH|]. apply Forall_app. by repeat constructor.
Qed.

Lemma list_split7 (p : list Z) :
  7 <= zlen p ->
  p = [p !!! 0%nat; p !!! 1%nat; p !!! 2%nat; p !!! 3%nat; p !!! 4%nat; p !!! 5%nat;
       p !!! 6%nat] ++ drop 7 p.
Proof.
  unfold zlen. intros H. do 7 (destruct p as [|? p]; [simpl length in H; lia|]). done.
Qed.

(** Split conjunctions only (not records or universally quantified goals). *)
Ltac conj := repeat match goal with |- _ /\ _ => split end.

(** A concrete list of bytes is one. *)
Ltac solve_bytes :=
  repeat (apply Forall_cons; split; [unfold u8; lia|]); apply Forall_nil; exact I.
