(* ===== verification/Json.v ===== *)
(** The part of encoding/json and unicode/utf8 that runtime normalization uses: the
    scanner that finds the end of a value, the decoding of strings and of integers,
    and the token reading of one object.  A text is a list of bytes.

    The scanner is the pushdown automaton of the library: one step per byte, a stack
    of the open objects and arrays, and at most [maxNestingDepth] of them. *)

From S2P Require Import Prelude.

(** * UTF-8 *)

Definition continuation (low high b : Z) : bool := (low <=? b) && (b <=? high).

(** [utf8.Valid]. *)
Fixpoint utf8_valid (bytes : list Z) : bool :=
  match bytes with
  | [] => true
  | b0 :: r0 =>
      if b0 <? 0x80 then utf8_valid r0
      else
        match r0 with
        | [] => false
        | b1 :: r1 =>
            if (0xC2 <=? b0) && (b0 <=? 0xDF) then continuation 0x80 0xBF b1 && utf8_valid r1
            else
              match r1 with
              | [] => false
              | b2 :: r2 =>
                  let low := if b0 =? 0xE0 then 0xA0 else 0x80 in
                  let high := if b0 =? 0xED then 0x9F else 0xBF in
                  if (0xE0 <=? b0) && (b0 <=? 0xEF) then
                    continuation low high b1 && continuation 0x80 0xBF b2 && utf8_valid r2
                  else
                    match r2 with
                    | [] => false
                    | b3 :: r3 =>
                        let low := if b0 =? 0xF0 then 0x90 else 0x80 in
                        let high := if b0 =? 0xF4 then 0x8F else 0xBF in
                        (0xF0 <=? b0) && (b0 <=? 0xF4) && continuation low high b1
                        && continuation 0x80 0xBF b2 && continuation 0x80 0xBF b3
                        && utf8_valid r3
                    end
              end
        end
  end.

(** The width of the rune that starts a text, 0 where [utf8.DecodeRune] finds an
    incomplete or invalid one. *)
Definition rune_width (bytes : list Z) : nat :=
  match bytes with
  | [] => 0
  | b0 :: r0 =>
      if b0 <? 0x80 then 1
      else if (0xC2 <=? b0) && (b0 <=? 0xDF) then
        match r0 with
        | b1 :: _ => if utf8_valid [b0; b1] then 2 else 0
        | _ => 0
        end
      else if (0xE0 <=? b0) && (b0 <=? 0xEF) then
        match r0 with
        | b1 :: b2 :: _ => if utf8_valid [b0; b1; b2] then 3 else 0
        | _ => 0
        end
      else
        match r0 with
        | b1 :: b2 :: b3 :: _ => if utf8_valid [b0; b1; b2; b3] then 4 else 0
        | _ => 0
        end
  end.

(** [utf8.AppendRune] of a rune that is not a surrogate. *)
Definition encode_rune (r : Z) : list Z :=
  if r <? 0x80 then [r]
  else if r <? 0x800 then [0xC0 + r / 0x40; 0x80 + r mod 0x40]
  else if r <? 0x10000 then [0xE0 + r / 0x1000; 0x80 + (r / 0x40) mod 0x40; 0x80 + r mod 0x40]
  else [0xF0 + r / 0x40000; 0x80 + (r / 0x1000) mod 0x40; 0x80 + (r / 0x40) mod 0x40;
        0x80 + r mod 0x40].

(** U+FFFD. *)
Definition replacement : list Z := encode_rune 0xFFFD.

(** * The scanner *)

Definition is_space (c : Z) : bool := (c =? 32) || (c =? 9) || (c =? 13) || (c =? 10).
Definition is_digit (c : Z) : bool := (48 <=? c) && (c <=? 57).

Definition hex_value (c : Z) : option Z :=
  if is_digit c then Some (c - 48)
  else if (97 <=? c) && (c <=? 102) then Some (c - 87)
  else if (65 <=? c) && (c <=? 70) then Some (c - 55)
  else None.

Inductive parse_state : Type :=
| parseObjectKey
| parseObjectValue
| parseArrayValue.

(** The step functions of the scanner; [InStringEscU n] expects [n] more hexadecimal
    digits and [InLiteral l] the rest [l] of a literal name. *)
Inductive scan_state : Type :=
| BeginValue
| BeginValueOrEmpty
| BeginString
| BeginStringOrEmpty
| EndValue
| InString
| InStringEsc
| InStringEscU (n : nat)
| Neg
| Num1
| Num0
| Dot
| Dot0
| NumE
| NumESign
| NumE0
| InLiteral (l : list Z).

(** What a step reports: go on, the end of an object or array, the end of the value
    before this byte, or a syntax error. *)
Inductive scan_code : Type :=
| Continue (state : scan_state) (stack : list parse_state)
| EndComposite (stack : list parse_state)
| ScanEnd
| ScanError.

Definition maxNestingDepth : Z := 10000.

Definition push (p : parse_state) (next : scan_state) (stack : list parse_state) : scan_code :=
  if zlen (p :: stack) <=? maxNestingDepth then Continue next (p :: stack) else ScanError.

Definition end_value (stack : list parse_state) (c : Z) : scan_code :=
  match stack with
  | [] => ScanEnd
  | p :: outer =>
      if is_space c then Continue EndValue stack
      else
        match p with
        | parseObjectKey =>
            if c =? 58 then Continue BeginValue (parseObjectValue :: outer) else ScanError
        | parseObjectValue =>
            if c =? 44 then Continue BeginString (parseObjectKey :: outer)
            else if c =? 125 then EndComposite outer
            else ScanError
        | parseArrayValue =>
            if c =? 44 then Continue BeginValue stack
            else if c =? 93 then EndComposite outer
            else ScanError
        end
  end.

Definition begin_value (stack : list parse_state) (c : Z) : scan_code :=
  if is_space c then Continue BeginValue stack
  else if c =? 123 then push parseObjectKey BeginStringOrEmpty stack
  else if c =? 91 then push parseArrayValue BeginValueOrEmpty stack
  else if c =? 34 then Continue InString stack
  else if c =? 45 then Continue Neg stack
  else if c =? 48 then Continue Num0 stack
  else if c =? 116 then Continue (InLiteral [114; 117; 101]) stack
  else if c =? 102 then Continue (InLiteral [97; 108; 115; 101]) stack
  else if c =? 110 then Continue (InLiteral [117; 108; 108]) stack
  else if is_digit c then Continue Num1 stack
  else ScanError.

Definition begin_string (stack : list parse_state) (c : Z) : scan_code :=
  if is_space c then Continue BeginString stack
  else if c =? 34 then Continue InString stack
  else ScanError.

(** A space before the first member stays in the state, as in the library. *)
Definition stay (state : scan_state) (stack : list parse_state) (c : Z) (next : scan_code)
    : scan_code :=
  if is_space c then Continue state stack else next.

Definition step (state : scan_state) (stack : list parse_state) (c : Z) : scan_code :=
  match state with
  | BeginValue => begin_value stack c
  | BeginValueOrEmpty =>
      stay BeginValueOrEmpty stack c (if c =? 93 then end_value stack c else begin_value stack c)
  | BeginString => begin_string stack c
  | BeginStringOrEmpty =>
      stay BeginStringOrEmpty stack c
        (if c =? 125 then end_value (parseObjectValue :: tail stack) c else begin_string stack c)
  | EndValue => end_value stack c
  | InString =>
      if c =? 34 then Continue EndValue stack
      else if c =? 92 then Continue InStringEsc stack
      else if c <? 32 then ScanError
      else Continue InString stack
  | InStringEsc =>
      if bool_decide (c ∈ [98; 102; 110; 114; 116; 92; 47; 34]) then Continue InString stack
      else if c =? 117 then Continue (InStringEscU 4) stack
      else ScanError
  | InStringEscU n =>
      match hex_value c, n with
      | Some _, S (S n) => Continue (InStringEscU (S n)) stack
      | Some _, _ => Continue InString stack
      | None, _ => ScanError
      end
  | Neg =>
      if c =? 48 then Continue Num0 stack
      else if is_digit c then Continue Num1 stack
      else ScanError
  | Num1 =>
      if is_digit c then Continue Num1 stack
      else if c =? 46 then Continue Dot stack
      else if (c =? 101) || (c =? 69) then Continue NumE stack
      else end_value stack c
  | Num0 =>
      if c =? 46 then Continue Dot stack
      else if (c =? 101) || (c =? 69) then Continue NumE stack
      else end_value stack c
  | Dot => if is_digit c then Continue Dot0 stack else ScanError
  | Dot0 =>
      if is_digit c then Continue Dot0 stack
      else if (c =? 101) || (c =? 69) then Continue NumE stack
      else end_value stack c
  | NumE =>
      if (c =? 43) || (c =? 45) then Continue NumESign stack
      else if is_digit c then Continue NumE0 stack
      else ScanError
  | NumESign => if is_digit c then Continue NumE0 stack else ScanError
  | NumE0 => if is_digit c then Continue NumE0 stack else end_value stack c
  | InLiteral l =>
      match l with
      | [x] => if c =? x then Continue EndValue stack else ScanError
      | x :: l => if c =? x then Continue (InLiteral l) stack else ScanError
      | [] => ScanError
      end
  end.

(** [Decoder.readValue]: the bytes of the next value, spaces before it included, and
    the rest of the text.  At the end of the text the library steps on a space. *)
Fixpoint read_value (state : scan_state) (stack : list parse_state) (text : list Z)
    : option (list Z * list Z) :=
  match text with
  | [] => match step state stack 32 with ScanEnd => Some ([], []) | _ => None end
  | c :: rest =>
      match step state stack c with
      | ScanError => None
      | ScanEnd => Some ([], text)
      | EndComposite [] => Some ([c], rest)
      | EndComposite stack => prod_map (cons c) id <$> read_value EndValue stack rest
      | Continue state stack => prod_map (cons c) id <$> read_value state stack rest
      end
  end.

(** [Decoder.peek] and the library's reading of the spaces before a value. *)
Fixpoint skip_space (text : list Z) : list Z :=
  match text with
  | c :: rest => if is_space c then skip_space rest else text
  | [] => []
  end.

(** [Decode] into a [json.RawMessage]. *)
Definition decode_raw (text : list Z) : option (list Z * list Z) :=
  '(value, rest) ← read_value BeginValue [] text; Some (skip_space value, rest).

(** * Strings *)

Definition getu4 (h1 h2 h3 h4 : Z) : option Z :=
  a ← hex_value h1; b ← hex_value h2; c ← hex_value h3; d ← hex_value h4;
  Some (4096 * a + 256 * b + 16 * c + d).

Definition is_surrogate (r : Z) : bool := (0xD800 <=? r) && (r <? 0xE000).

(** [utf16.DecodeRune]. *)
Definition decode_pair (r1 r2 : Z) : option Z :=
  if (0xD800 <=? r1) && (r1 <? 0xDC00) && (0xDC00 <=? r2) && (r2 <? 0xE000) then
    Some ((r1 - 0xD800) * 0x400 + (r2 - 0xDC00) + 0x10000)
  else None.

Definition unescape (c : Z) : option Z :=
  if bool_decide (c ∈ [34; 92; 47; 39]) then Some c
  else if c =? 98 then Some 8
  else if c =? 102 then Some 12
  else if c =? 110 then Some 10
  else if c =? 114 then Some 13
  else if c =? 116 then Some 9
  else None.

(** The escape that follows a first half of a surrogate pair, if it completes it. *)
Definition low_half (rr : Z) (s : list Z) : option Z :=
  match s with
  | b :: u :: g1 :: g2 :: g3 :: g4 :: _ =>
      if (b =? 92) && (u =? 117) then rr1 ← getu4 g1 g2 g3 g4; decode_pair rr rr1 else None
  | _ => None
  end.

(** [unquoteBytes] between the quotes: escapes, surrogate pairs, and U+FFFD for a lone
    surrogate or an invalid byte. *)
Fixpoint unquote (s : list Z) : option (list Z) :=
  match s with
  | [] => Some []
  | c :: r =>
      if c =? 92 then
        match r with
        | [] => None
        | e :: r1 =>
            if e =? 117 then
              match r1 with
              | h1 :: h2 :: h3 :: h4 :: r5 =>
                  rr ← getu4 h1 h2 h3 h4;
                  if is_surrogate rr then
                    match low_half rr r5, r5 with
                    | Some x, _ :: _ :: _ :: _ :: _ :: _ :: r11 =>
                        app (encode_rune x) <$> unquote r11
                    | _, _ => app replacement <$> unquote r5
                    end
                  else app (encode_rune rr) <$> unquote r5
              | _ => None
              end
            else b ← unescape e; cons b <$> unquote r1
        end
      else if (c =? 34) || (c <? 32) then None
      else
        match rune_width s, r with
        | 1%nat, _ => cons c <$> unquote r
        | 2%nat, b1 :: r1 => app [c; b1] <$> unquote r1
        | 3%nat, b1 :: b2 :: r2 => app [c; b1; b2] <$> unquote r2
        | 4%nat, b1 :: b2 :: b3 :: r3 => app [c; b1; b2; b3] <$> unquote r3
        | _, _ => app replacement <$> unquote r
        end
  end.

(** [Decode] into a string: the value has to be a string literal. *)
Definition string_literal (value : list Z) : option (list Z) :=
  match value with
  | c :: body =>
      if (c =? 34) && bool_decide (last body = Some 34) then unquote (removelast body) else None
  | [] => None
  end.

(** [Decode] of the text of one value into a string, and the end of the text after it. *)
Definition decode_string (text : list Z) : option (list Z * list Z) :=
  '(value, rest) ← decode_raw text; s ← string_literal value; Some (s, rest).

(** * Integers *)

Definition digit (c : Z) : option Z := if is_digit c then Some (c - 48) else None.

Fixpoint parse_digits (acc : Z) (s : list Z) : option Z :=
  match s with
  | [] => Some acc
  | c :: s => d ← digit c; parse_digits (10 * acc + d) s
  end.

Definition parse_nonempty (s : list Z) : option Z :=
  match s with
  | [] => None
  | _ => parse_digits 0 s
  end.

(** [strconv.ParseUint(s, 10, 64)] and the overflow test of an unsigned type of
    maximum [max]. *)
Definition parse_uint (max : Z) (s : list Z) : option Z :=
  n ← parse_nonempty s; if n <=? max then Some n else None.

(** [strconv.ParseInt(s, 10, 64)] of a JSON number. *)
Definition parse_int (s : list Z) : option Z :=
  match s with
  | c :: r =>
      if c =? 45 then
        n ← parse_nonempty r; if n <=? MaxInt64 + 1 then Some (- n) else None
      else n ← parse_nonempty s; if n <=? MaxInt64 then Some n else None
  | [] => None
  end.

Definition decode_number (parse : list Z -> option Z) (text : list Z) : option (Z * list Z) :=
  '(value, rest) ← decode_raw text; n ← parse value; Some (n, rest).
