(* ===== verification/JsonFacts.v ===== *)
(** Facts about the JSON scanner and decoders: what they consume, that a value is
    delimited by itself, and that printed strings and integers are read back. *)

From S2P Require Import Prelude Json.

(** * What the scanner consumes *)

Lemma read_value_app text state stack value rest :
  read_value state stack text = Some (value, rest) -> text = value ++ rest.
Proof.
  revert state stack value rest. induction text as [|c text IH]; intros state stack value rest; cbn.
  - destruct (step state stack 32); try done. by intros [= <- <-].
  - assert (Hgo : forall st stk, prod_map (cons c) id <$> read_value st stk text = Some (value, rest) ->
      c :: text = value ++ rest).
    { intros st stk H. destruct (read_value st stk text) as [[v r]|] eqn:E; [|done].
      injection H as <- <-. cbn. f_equal. by eapply IH. }
    destruct (step state stack c) as [st stk|[|p stk]| |]; try done; eauto.
    + by intros [= <- <-].
    + by intros [= <- <-].
Qed.

Lemma begin_value_no_end stack c : begin_value stack c <> ScanEnd.
Proof. unfold begin_value, push. repeat case_test; done. Qed.

(** A value is not empty. *)
Lemma read_value_nonempty text value rest :
  read_value BeginValue [] text = Some (value, rest) -> value <> [].
Proof.
  destruct text as [|c text]; cbn [read_value step].
  - by pose proof (begin_value_no_end [] 32); destruct (begin_value [] 32).
  - destruct (begin_value [] c) as [st stk|[|p stk]| |] eqn:E; try done.
    + by destruct (read_value st stk text) as [[v r]|]; [intros [= <- <-]|].
    + by intros [= <- <-].
    + by destruct (read_value _ _ text) as [[v r]|]; [intros [= <- <-]|].
    + by apply begin_value_no_end in E.
Qed.

Lemma skip_space_length text : (length (skip_space text) <= length text)%nat.
Proof. induction text as [|c text IH]; cbn; [done|]. case_test; cbn; lia. Qed.

Lemma decode_raw_shorter text value rest :
  decode_raw text = Some (value, rest) -> (length rest < length text)%nat.
Proof.
  unfold decode_raw. destruct (read_value _ _ _) as [[v r]|] eqn:E; cbn; [|done].
  intros [= _ <-]. pose proof (read_value_nonempty _ _ _ E) as Hne.
  apply read_value_app in E as ->. rewrite length_app. destruct v; [done|]. cbn. lia.
Qed.

Lemma decode_string_shorter text value rest :
  decode_string text = Some (value, rest) -> (length rest < length text)%nat.
Proof.
  unfold decode_string. destruct (decode_raw text) as [[v r]|] eqn:E; cbn; [|done].
  destruct (string_literal v); cbn; [|done]. intros [= _ <-]. by eapply decode_raw_shorter.
Qed.

(** * A value is delimited by itself *)

(** A byte that cannot continue a value. *)
Definition delimiter (c : Z) : Prop := c = 44 \/ c = 125.

Lemma step_delimiter state stack c :
  delimiter c -> step state stack 32 = ScanEnd -> step state stack c = ScanEnd.
Proof.
  intros Hc. destruct state as [| | | | | | |n| | | | | | | | |l]; cbn; try done.
  all: try (destruct stack as [|[]]; cbn; try done; by destruct Hc as [-> | ->]).
  - destruct l as [|x [|]]; try done; by case_test.
Qed.

Lemma read_value_delimited text c rest state stack :
  delimiter c -> read_value state stack text = Some (text, []) ->
  read_value state stack (text ++ c :: rest) = Some (text, c :: rest).
Proof.
  intros Hc. revert state stack. induction text as [|b text IH]; intros state stack; cbn.
  - destruct (step state stack 32) eqn:E; try done. by rewrite (step_delimiter _ _ c).
  - assert (Hgo : forall st stk, prod_map (cons b) id <$> read_value st stk text = Some (b :: text, []) ->
      prod_map (cons b) id <$> read_value st stk (text ++ c :: rest) = Some (b :: text, c :: rest)).
    { intros st stk H. destruct (read_value st stk text) as [[v r]|] eqn:E; [|done].
      injection H as -> ->. by rewrite IH. }
    destruct (step state stack b) as [st stk|[|p stk]| |]; try done; eauto.
    intros H. injection H as _ ->. done.
Qed.

(** A text that is one value and nothing else. *)
Definition json_value (v : list Z) : Prop :=
  read_value BeginValue [] v = Some (v, []) /\ skip_space v = v.

Lemma json_value_raw v : json_value v -> decode_raw v = Some (v, []).
Proof. intros [H1 H2]. unfold decode_raw. rewrite H1. cbn. by rewrite H2. Qed.

Lemma json_value_member v c rest :
  json_value v -> delimiter c -> decode_raw (v ++ c :: rest) = Some (v, c :: rest).
Proof.
  intros [H1 H2] Hc. unfold decode_raw. rewrite (read_value_delimited v c rest) by done.
  cbn. by rewrite H2.
Qed.

(** * UTF-8 *)

Lemma utf8_app s t : utf8_valid s = true -> utf8_valid t = true -> utf8_valid (s ++ t) = true.
Proof.
  intros Hs Ht. revert Hs. remember (length s) as n eqn:Hn.
  revert s Hn. induction (lt_wf n) as [n _ IH]. intros s Hn.
  assert (Hgo : forall s', (length s' < n)%nat -> utf8_valid s' = true -> utf8_valid (s' ++ t) = true)
    by (intros s' Hl; by apply (IH (length s'))).
  destruct s as [|b0 s]; [done|]. cbn in *.
  case_test; [apply Hgo; lia|]. destruct s as [|b1 s]; [done|]. cbn in *.
  case_test; [intros [-> H]%andb_prop; cbn; apply Hgo; [lia|done]|].
  destruct s as [|b2 s]; [done|]. cbn in *.
  case_test; [intros [-> H]%andb_prop; cbn; apply Hgo; [lia|done]|].
  destruct s as [|b3 s]; [done|]. cbn in *.
  intros [-> H]%andb_prop; cbn; apply Hgo; [lia|done].
Qed.

(** A valid text, one rune at a time. *)
Lemma utf8_ind (P : list Z -> Prop) :
  P [] ->
  (forall c s, c < 128 -> utf8_valid s = true -> P s -> P (c :: s)) ->
  (forall r s, Forall (fun c => 128 <= c) r -> rune_width r = length r -> (2 <= length r <= 4)%nat ->
     utf8_valid r = true -> utf8_valid s = true -> P s -> P (r ++ s)) ->
  forall s, utf8_valid s = true -> P s.
Proof.
  intros P0 P1 P2 s. remember (length s) as n eqn:Hn.
  revert s Hn. induction (lt_wf n) as [n _ IH]. intros s Hn Hv.
  assert (Hgo : forall s', (length s' < n)%nat -> utf8_valid s' = true -> P s')
    by (intros s' Hl; by apply (IH (length s'))).
  destruct s as [|b0 s]; [done|]. cbn in *. case_test.
  { bool_hyps. apply P1; [done..|]. apply Hgo; [lia|done]. }
  destruct s as [|b1 s]; [done|]. cbn in *. case_test.
  { apply andb_prop in Hv as [H1 H2]. apply (P2 [b0; b1] s); [|cbn|cbn; lia|cbn|done|apply Hgo; [cbn; lia|done]].
    - unfold continuation in H1. bool_hyps. by repeat constructor.
    - by rewrite Heqb, Heqb0, H1.
    - by rewrite Heqb, Heqb0, H1. }
  destruct s as [|b2 s]; [done|]. cbn in *. case_test.
  { apply andb_prop in Hv as [H1 H2].
    apply (P2 [b0; b1; b2] s); [|cbn|cbn; lia|cbn|done|apply Hgo; [cbn; lia|done]].
    - unfold continuation in H1. bool_hyps. repeat constructor; try lia.
      destruct (b0 =? 224); lia.
    - by rewrite Heqb, Heqb0, Heqb1, H1.
    - by rewrite Heqb, Heqb0, Heqb1, H1. }
  destruct s as [|b3 s]; [done|]. cbn in *. apply andb_prop in Hv as [H1 H2].
  apply (P2 [b0; b1; b2; b3] s); [|cbn|cbn; lia|cbn|done|apply Hgo; [cbn; lia|done]].
  - unfold continuation in H1. bool_hyps. repeat constructor; try lia. destruct (b0 =? 240); lia.
  - by rewrite Heqb, Heqb0, Heqb1, H1.
  - by rewrite Heqb, Heqb0, Heqb1, H1.
Qed.

(** * Printing *)

Definition print_hex (n : Z) : Z := if n <? 10 then 48 + n else 87 + n.

(** A byte inside a string literal: quotes, backslashes and control characters are
    escaped. *)
Definition escape (c : Z) : list Z :=
  if (c =? 34) || (c =? 92) then [92; c]
  else if c <? 32 then [92; 117; 48; 48; print_hex (c / 16); print_hex (c mod 16)]
  else [c].

Fixpoint escape_all (s : list Z) : list Z :=
  match s with
  | [] => []
  | c :: s => escape c ++ escape_all s
  end.

Definition print_string (s : list Z) : list Z := 34 :: escape_all s ++ [34].

Fixpoint print_digits (fuel : nat) (n : Z) : list Z :=
  match fuel with
  | O => []
  | S fuel => if n <? 10 then [48 + n] else print_digits fuel (n / 10) ++ [48 + n mod 10]
  end.

(** Twenty digits are enough for a [uint64]. *)
Definition print_uint (n : Z) : list Z := print_digits 20 n.

(** * The scanner on printed text *)

(** Reading [t] leads from one state to another. *)
Definition scans (st : scan_state) (stk : list parse_state) (t : list Z) (st' : scan_state)
    (stk' : list parse_state) : Prop :=
  forall rest, read_value st stk (t ++ rest) = prod_map (app t) id <$> read_value st' stk' rest.

Lemma scans_nil st stk : scans st stk [] st stk.
Proof. intros rest. cbn. by destruct (read_value st stk rest) as [[]|]. Qed.

Lemma scans_cons st stk c st1 stk1 t st' stk' :
  step st stk c = Continue st1 stk1 -> scans st1 stk1 t st' stk' -> scans st stk (c :: t) st' stk'.
Proof.
  intros Hs Ht rest. cbn. rewrite Hs, Ht. by destruct (read_value st' stk' rest) as [[]|].
Qed.

Lemma scans_app st stk t st1 stk1 u st' stk' :
  scans st stk t st1 stk1 -> scans st1 stk1 u st' stk' -> scans st stk (t ++ u) st' stk'.
Proof.
  intros Ht Hu rest. rewrite <- (assoc_L (++)), Ht, Hu.
  destruct (read_value st' stk' rest) as [[v r]|]; cbn; [|done]. by rewrite <- (assoc_L (++)).
Qed.

(** A text that ends where a value may end. *)
Lemma scans_value st t st' :
  scans st [] t st' [] -> step st' [] 32 = ScanEnd -> read_value st [] t = Some (t, []).
Proof.
  intros Ht He. specialize (Ht []). cbn in Ht. rewrite He, (right_id_L [] (++)) in Ht.
  rewrite Ht. cbn. by rewrite (right_id_L [] (++)).
Qed.

Lemma hex_print n : 0 <= n < 16 -> hex_value (print_hex n) = Some n.
Proof.
  intros Hn. unfold hex_value, print_hex, is_digit. destruct (n <? 10) eqn:E; bool_hyps.
  - replace ((48 <=? 48 + n) && (48 + n <=? 57)) with true by (symmetry; bool_goal; lia). f_equal; lia.
  - replace ((48 <=? 87 + n) && (87 + n <=? 57)) with false
      by (symmetry; apply andb_false_iff; right; apply Z.leb_gt; lia).
    replace ((97 <=? 87 + n) && (87 + n <=? 102)) with true by (symmetry; bool_goal; lia). f_equal; lia.
Qed.

Lemma nibbles c : u8 c -> 0 <= c / 16 < 16 /\ 0 <= c mod 16 < 16 /\ 16 * (c / 16) + c mod 16 = c.
Proof.
  unfold u8. intros Hc. pose proof (Z.div_mod c 16). pose proof (Z.mod_pos_bound c 16).
  assert (0 <= c / 16) by (apply Z.div_pos; lia).
  assert (c / 16 < 16) by (apply Z.div_lt_upper_bound; lia). lia.
Qed.

Lemma scans_escape c stk : u8 c -> scans InString stk (escape c) InString stk.
Proof.
  intros Hc. unfold escape. case_test; [|case_test].
  - apply orb_true_iff in Heqb as [->%Z.eqb_eq| ->%Z.eqb_eq];
      (eapply scans_cons; [done|]; eapply scans_cons; [done|]; apply scans_nil).
  - destruct (nibbles c Hc) as (H1 & H2 & _). do 4 (eapply scans_cons; [done|]).
    eapply scans_cons; [cbn; by rewrite hex_print|].
    eapply scans_cons; [cbn; by rewrite hex_print|]. apply scans_nil.
  - bool_hyps. eapply scans_cons; [|apply scans_nil]. cbn.
    rewrite (proj2 (Z.eqb_neq c 34)), (proj2 (Z.eqb_neq c 92)), (proj2 (Z.ltb_ge c 32)) by lia. done.
Qed.

Lemma scans_escape_all s stk : Forall u8 s -> scans InString stk (escape_all s) InString stk.
Proof.
  induction 1 as [|c s Hc Hs IH]; cbn; [apply scans_nil|].
  eapply scans_app; [by apply scans_escape|done].
Qed.

Lemma print_string_value s : Forall u8 s -> json_value (print_string s).
Proof.
  intros Hs. split; [|done]. apply (scans_value _ _ EndValue); [|done].
  eapply scans_cons; [done|]. eapply scans_app; [by apply scans_escape_all|].
  eapply scans_cons; [done|]. apply scans_nil.
Qed.

(** * Strings are read back *)

Lemma escape_high c : 128 <= c -> escape c = [c].
Proof.
  intros Hc. unfold escape.
  by rewrite (proj2 (Z.eqb_neq c 34)), (proj2 (Z.eqb_neq c 92)), (proj2 (Z.ltb_ge c 32)) by lia.
Qed.

Lemma escape_all_app s t : escape_all (s ++ t) = escape_all s ++ escape_all t.
Proof. induction s as [|c s IH]; cbn; [done|]. by rewrite IH, (assoc_L (++)). Qed.

Lemma escape_all_high r : Forall (fun c => 128 <= c) r -> escape_all r = r.
Proof. induction 1 as [|c r Hc Hr IH]; cbn; [done|]. by rewrite escape_high, IH. Qed.

Lemma unquote_escape c t : u8 c -> c < 128 -> unquote (escape c ++ t) = cons c <$> unquote t.
Proof.
  intros Hc Hlt. unfold escape. case_test; [|case_test].
  - by apply orb_true_iff in Heqb as [->%Z.eqb_eq| ->%Z.eqb_eq].
  - bool_hyps. destruct (nibbles c Hc) as (H1 & H2 & H3). unfold u8 in Hc. cbn.
    unfold getu4. rewrite !hex_print by done. cbn -[Z.mul Z.add encode_rune is_surrogate].
    replace (4096 * (48 - 48) + 256 * (48 - 48) + 16 * (c / 16) + c mod 16) with c by lia.
    unfold is_surrogate. rewrite (proj2 (Z.leb_gt 55296 c)) by lia. cbn [andb].
    unfold encode_rune. by rewrite (proj2 (Z.ltb_lt c 128)).
  - bool_hyps. cbn [app unquote].
    rewrite (proj2 (Z.eqb_neq c 34)), (proj2 (Z.eqb_neq c 92)), (proj2 (Z.ltb_ge c 32)) by lia.
    cbn [orb]. unfold rune_width. by rewrite (proj2 (Z.ltb_lt c 128)).
Qed.

Lemma rune_width_app r t :
  rune_width r = length r -> (2 <= length r)%nat -> rune_width (r ++ t) = length r.
Proof.
  intros Hw Hl. unfold rune_width in *. destruct r as [|b0 r]; [cbn in Hl; lia|]. cbn in *.
  case_test; [lia|]. destruct r as [|b1 r]; [cbn in *; repeat case_test; lia|]. cbn in *.
  case_test; [done|]. destruct r as [|b2 r]; [cbn in *; repeat case_test; lia|]. cbn in *.
  case_test; [done|]. destruct r as [|b3 r]; [cbn in *; lia|]. done.
Qed.

Lemma unquote_rune r t :
  Forall (fun c => 128 <= c) r -> rune_width r = length r -> (2 <= length r <= 4)%nat ->
  unquote (r ++ t) = app r <$> unquote t.
Proof.
  intros Hr Hw Hl. pose proof (rune_width_app r t Hw ltac:(lia)) as Ha.
  destruct r as [|b0 r]; [cbn in Hl; lia|]. apply Forall_cons in Hr as [Hb Hr].
  cbn [app] in *. cbn [unquote].
  rewrite (proj2 (Z.eqb_neq b0 34)), (proj2 (Z.eqb_neq b0 92)), (proj2 (Z.ltb_ge b0 32)) by lia.
  cbn [orb]. rewrite Ha. destruct r as [|b1 [|b2 [|b3 [|b4 r]]]]; cbn in Hl; try lia; done.
Qed.

Lemma unquote_escape_all s :
  utf8_valid s = true -> Forall u8 s -> unquote (escape_all s) = Some s.
Proof.
  revert s. apply (utf8_ind (fun s => Forall u8 s -> unquote (escape_all s) = Some s)); [done|..].
  - intros c s Hc Hs IH [Hu Hus]%Forall_cons. cbn [escape_all]. by rewrite unquote_escape, IH.
  - intros r s Hr Hw Hl Hv Hs IH [_ Hus]%Forall_app.
    by rewrite escape_all_app, (escape_all_high r), unquote_rune, IH.
Qed.

Lemma string_literal_print s :
  utf8_valid s = true -> Forall u8 s -> string_literal (print_string s) = Some s.
Proof.
  intros Hv Hs. unfold string_literal, print_string. rewrite last_snoc.
  rewrite bool_decide_true by done. cbn [Z.eqb Pos.eqb andb].
  rewrite removelast_last. by apply unquote_escape_all.
Qed.

Lemma decode_string_raw text value rest s :
  decode_raw text = Some (value, rest) -> string_literal value = Some s ->
  decode_string text = Some (s, rest).
Proof. intros H1 H2. unfold decode_string. rewrite H1. cbn -[string_literal]. by rewrite H2. Qed.

(** A string literal also ends before the colon that follows a key. *)
Lemma decode_string_key s rest :
  utf8_valid s = true -> Forall u8 s ->
  decode_string (print_string s ++ 58 :: rest) = Some (s, 58 :: rest).
Proof.
  intros Hv Hs. apply (decode_string_raw _ (print_string s)); [|by apply string_literal_print].
  assert (H : scans BeginValue [] (print_string s) EndValue []).
  { eapply scans_cons; [done|]. eapply scans_app; [by apply scans_escape_all|].
    eapply scans_cons; [done|]. apply scans_nil. }
  unfold decode_raw. rewrite (H (58 :: rest)). cbn. by rewrite (right_id_L [] (++)).
Qed.

Lemma decode_string_whole s :
  utf8_valid s = true -> Forall u8 s -> decode_string (print_string s) = Some (s, []).
Proof.
  intros Hv Hs. apply (decode_string_raw _ (print_string s)); [|by apply string_literal_print].
  by apply json_value_raw, print_string_value.
Qed.

(** * Integers are read back *)

Lemma digit_test d : 0 <= d < 10 -> is_digit (48 + d) = true.
Proof. intros. unfold is_digit. bool_goal; lia. Qed.

Lemma parse_digits_snoc s d acc n :
  parse_digits acc s = Some n -> 0 <= d < 10 ->
  parse_digits acc (s ++ [48 + d]) = Some (10 * n + d).
Proof.
  revert acc. induction s as [|c s IH]; cbn; intros acc H Hd.
  - injection H as ->. unfold digit. rewrite digit_test by done. cbn. f_equal. lia.
  - destruct (digit c) as [e|]; [|done]. by apply IH.
Qed.

(** Digits, with a leading zero only for zero itself. *)
Record printed (n : Z) (s : list Z) : Prop := mkPrinted {
  pn_parse : parse_digits 0 s = Some n;
  pn_digits : Forall (fun c => is_digit c = true) s;
  pn_head : exists c, head s = Some c /\ (c = 48 -> s = [48])
}.

Lemma print_digits_ok fuel n :
  0 <= n < 10 ^ Z.of_nat (S fuel) -> printed n (print_digits (S fuel) n).
Proof.
  revert n. induction fuel as [|fuel IH]; intros n Hn.
  - change (10 ^ Z.of_nat 1) with 10 in Hn. cbn. rewrite (proj2 (Z.ltb_lt n 10)) by lia.
    constructor; [cbn; unfold digit; rewrite digit_test by lia; cbn; f_equal; lia| |].
    + constructor; [apply digit_test; lia|constructor].
    + eexists. split; [done|]. intros H. by replace n with 0 by lia.
  - remember (S fuel) as f. cbn [print_digits]. case_test; bool_hyps.
    + constructor; [cbn; unfold digit; rewrite digit_test by lia; cbn; f_equal; lia| |].
      * constructor; [apply digit_test; lia|constructor].
      * eexists. split; [done|]. intros H. by replace n with 0 by lia.
    + pose proof (Z.mod_pos_bound n 10 ltac:(lia)). pose proof (Z.div_mod n 10 ltac:(lia)).
      rewrite Nat2Z.inj_succ, Z.pow_succ_r in Hn by lia.
      assert (Hq : 0 <= n / 10 < 10 ^ Z.of_nat f)
        by (split; [apply Z.div_pos; lia|apply Z.div_lt_upper_bound; lia]).
      assert (1 <= n / 10) by (apply Z.div_le_lower_bound; lia).
      destruct (IH (n / 10) Hq) as [P D (c & Hc & Hz)]. constructor.
      * replace n with (10 * (n / 10) + n mod 10) at 3 by lia. by apply parse_digits_snoc.
      * apply Forall_app. split; [done|]. constructor; [by apply digit_test|constructor].
      * exists c. destruct (print_digits f (n / 10)) as [|d ds]; [done|]. injection Hc as ->.
        split; [done|]. intros ->. rewrite (Hz eq_refl) in P. cbn in P. injection P as P. lia.
Qed.

Lemma print_uint_ok n : u64 n -> printed n (print_uint n).
Proof. unfold u64. intros H. apply print_digits_ok. change (10 ^ Z.of_nat 20) with 100000000000000000000. lia. Qed.

Lemma scans_digits s : Forall (fun c => is_digit c = true) s -> scans Num1 [] s Num1 [].
Proof.
  induction 1 as [|c s Hc Hs IH]; [apply scans_nil|].
  eapply scans_cons; [|exact IH]. cbn. by rewrite Hc.
Qed.

Lemma digit_not_space c : is_digit c = true -> is_space c = false.
Proof.
  unfold is_digit, is_space. intros H. bool_hyps. bool_goal; lia.
Qed.

Lemma printed_value n s : printed n s -> json_value s.
Proof.
  intros [_ D (c & Hc & Hz)]. destruct s as [|x s]; [done|]. injection Hc as ->.
  apply Forall_cons in D as [Dc D]. pose proof (digit_not_space c Dc) as Hsp.
  split; [|cbn; by rewrite Hsp].
  destruct (Z.eq_dec c 48) as [->|Hne].
  - rewrite (Hz eq_refl). done.
  - apply (scans_value _ _ Num1); [|done]. eapply scans_cons; [|by apply scans_digits].
    unfold is_digit in Dc. bool_hyps. cbn. unfold begin_value. rewrite Hsp.
    repeat match goal with |- (if ?c =? ?k then _ else _) = _ =>
      rewrite (proj2 (Z.eqb_neq c k)) by lia end.
    unfold is_digit. rewrite (proj2 (Z.leb_le 48 c)), (proj2 (Z.leb_le c 57)) by lia. done.
Qed.

Lemma printed_number n s parse :
  printed n s -> parse s = Some n -> decode_number parse s = Some (n, []).
Proof.
  intros Hp Hs. unfold decode_number. rewrite json_value_raw by (by eapply printed_value). cbn.
  by rewrite Hs.
Qed.

Lemma printed_nonempty n s : printed n s -> parse_nonempty s = Some n.
Proof. intros [P _ (c & Hc & _)]. by destruct s. Qed.

Lemma parse_uint_print n max : u64 n -> n <= max -> parse_uint max (print_uint n) = Some n.
Proof.
  intros Hn Hm. unfold parse_uint. rewrite (printed_nonempty n) by (by apply print_uint_ok). cbn.
  by rewrite (proj2 (Z.leb_le n max)).
Qed.

(** * Printed text is valid UTF-8 *)

Lemma ascii_utf8 s : Forall (fun c => c < 128) s -> utf8_valid s = true.
Proof. induction 1 as [|c s Hc Hs IH]; cbn; [done|]. by rewrite (proj2 (Z.ltb_lt c 128)). Qed.

Lemma escape_utf8 c : u8 c -> c < 128 -> utf8_valid (escape c) = true.
Proof.
  intros Hc Hlt. apply ascii_utf8. destruct (nibbles c Hc) as (H1 & H2 & _).
  assert (Hh : forall n, 0 <= n < 16 -> print_hex n < 128) by (intros n ?; unfold print_hex; case_test; lia).
  unfold escape. repeat case_test; repeat constructor; auto; lia.
Qed.

Lemma escape_all_utf8 s : utf8_valid s = true -> Forall u8 s -> utf8_valid (escape_all s) = true.
Proof.
  revert s. apply (utf8_ind (fun s => Forall u8 s -> utf8_valid (escape_all s) = true)); [done|..].
  - intros c s Hc Hs IH [Hu Hus]%Forall_cons. apply utf8_app; [by apply escape_utf8|by apply IH].
  - intros r s Hr Hw Hl Hv Hs IH [_ Hus]%Forall_app.
    rewrite escape_all_app, (escape_all_high r) by done. apply utf8_app; [done|by apply IH].
Qed.

Lemma print_string_utf8 s : utf8_valid s = true -> Forall u8 s -> utf8_valid (print_string s) = true.
Proof.
  intros Hv Hs. unfold print_string. cbn. apply utf8_app; [by apply escape_all_utf8|done].
Qed.

Lemma printed_utf8 n s : printed n s -> utf8_valid s = true.
Proof.
  intros [_ D _]. apply ascii_utf8. eapply Forall_impl; [exact D|]. intros c H.
  unfold is_digit in H. bool_hyps. lia.
Qed.
