(* ===== verification/Pdu.v ===== *)
(** Read-register protocol data units (pdu.go): request construction and
    validation, request encoding, response decoding and the protocol error
    they report.  The last part relates the decoder to the wire format it
    reads: the byte image [read_response_pdu] of a list of words. *)

From S2P Require Import Prelude.

(** * Data *)

Definition MaxPDUSize : Z := 253.
Definition MaxReadRegisters : Z := 125.

(** [FunctionCode] is a Go byte: any value of the type may arrive on the wire. *)
Definition FunctionReadHoldingRegisters : Z := 0x03.
Definition FunctionReadInputRegisters : Z := 0x04.
Definition FunctionEncapsulatedInterface : Z := 0x2b.

(** [LogicalTable] with the zero value of the Go string type. *)
Inductive LogicalTable : Type :=
| NoTable
| HoldingRegisters
| InputRegisters.

#[export] Instance LogicalTable_eq_dec : EqDecision LogicalTable.
Proof. solve_decision. Defined.

Inductive ErrorKind : Type :=
| ErrorUnsupportedOperation
| ErrorInvalidRequest
| ErrorInvalidRange
| ErrorMalformedResponse
| ErrorExceptionResponse.

#[export] Instance ErrorKind_eq_dec : EqDecision ErrorKind.
Proof. solve_decision. Defined.

Record ProtocolError : Type := mkProtocolError {
  pe_Kind : ErrorKind;
  pe_RequestedFunction : Z;
  pe_ReceivedFunction : Z;
  pe_ExceptionCode : Z;
  pe_Field : string;
  pe_Offset : Z
}.

#[export] Instance ProtocolError_eq_dec : EqDecision ProtocolError.
Proof. solve_decision. Defined.

(** The constructor leaves [ExceptionCode] at its zero value. *)
Definition protocolError (kind : ErrorKind) (requested received : Z)
    (field : string) (offset : Z) : ProtocolError :=
  {| pe_Kind := kind; pe_RequestedFunction := requested;
     pe_ReceivedFunction := received; pe_ExceptionCode := 0;
     pe_Field := field; pe_Offset := offset |}.

(** [err.ExceptionCode = code]. *)
Definition with_exception_code (err : ProtocolError) (code : Z) : ProtocolError :=
  {| pe_Kind := pe_Kind err; pe_RequestedFunction := pe_RequestedFunction err;
     pe_ReceivedFunction := pe_ReceivedFunction err; pe_ExceptionCode := code;
     pe_Field := pe_Field err; pe_Offset := pe_Offset err |}.

Abbreviation presult := (result ProtocolError).

Record ReadRegistersRequest : Type := mkReadRegistersRequest {
  rr_function : Z;
  rr_table : LogicalTable;
  rr_offset : Z;
  rr_quantity : Z
}.

#[export] Instance ReadRegistersRequest_eq_dec : EqDecision ReadRegistersRequest.
Proof. solve_decision. Defined.

(** [ReadRegistersRequest{}]. *)
Definition zeroReadRegistersRequest : ReadRegistersRequest :=
  {| rr_function := 0; rr_table := NoTable; rr_offset := 0; rr_quantity := 0 |}.

Record ReadProvenance : Type := mkReadProvenance {
  rp_Function : Z;
  rp_Table : LogicalTable;
  rp_Offset : Z;
  rp_Quantity : Z
}.

Record ReadRegistersResponse : Type := mkReadRegistersResponse {
  rs_Words : list Z;
  rs_Provenance : ReadProvenance
}.

(** * Operations *)

Definition NewReadRegistersRequest (function offset quantity : Z)
    : presult ReadRegistersRequest :=
  let table :=
    if function =? FunctionReadHoldingRegisters then Some HoldingRegisters
    else if function =? FunctionReadInputRegisters then Some InputRegisters
    else None in
  match table with
  | None =>
      Err (protocolError ErrorUnsupportedOperation function 0 "function" 0)
  | Some table =>
      if (quantity =? 0) || (quantity >? MaxReadRegisters) then
        Err (protocolError ErrorInvalidRange function 0 "quantity" 3)
      else if wrap32 (offset + quantity - 1) >? 0xffff then
        Err (protocolError ErrorInvalidRange function 0 "range_wrap" 1)
      else
        Ok {| rr_function := function; rr_table := table;
              rr_offset := offset; rr_quantity := quantity |}
  end.

Definition validateReadRegistersRequest (request : ReadRegistersRequest)
    : option ProtocolError :=
  let function := rr_function request in
  let expectedTable :=
    if function =? FunctionReadHoldingRegisters then Some HoldingRegisters
    else if function =? FunctionReadInputRegisters then Some InputRegisters
    else None in
  match expectedTable with
  | None =>
      Some (protocolError ErrorUnsupportedOperation function 0 "function" 0)
  | Some expectedTable =>
      if negb (bool_decide (rr_table request = expectedTable)) then
        Some (protocolError ErrorInvalidRequest function 0 "logical_table" (-1))
      else if (rr_quantity request =? 0) || (rr_quantity request >? MaxReadRegisters) then
        Some (protocolError ErrorInvalidRange function 0 "quantity" 3)
      else if wrap32 (rr_offset request + rr_quantity request - 1) >? 0xffff then
        Some (protocolError ErrorInvalidRange function 0 "range_wrap" 1)
      else None
  end.

Definition EncodePDU (request : ReadRegistersRequest) : presult (list Z) :=
  match validateReadRegistersRequest request with
  | Some err => Err err
  | None =>
      Ok [ wrap8 (rr_function request);
           wrap8 (Z.shiftr (rr_offset request) 8);
           wrap8 (rr_offset request);
           wrap8 (Z.shiftr (rr_quantity request) 8);
           wrap8 (rr_quantity request) ]
  end.

(** The loop filling [words] from the bytes after the byte count. *)
Definition decode_words (pdu : list Z) (quantity : nat) : list Z :=
  (fun index : nat =>
     let offset := (2 + index * 2)%nat in
     be16 (pdu !!! offset) (pdu !!! (offset + 1)%nat)) <$> seq 0 quantity.

Definition DecodeReadRegistersResponse (request : ReadRegistersRequest)
    (pdu : list Z) : presult ReadRegistersResponse :=
  match validateReadRegistersRequest request with
  | Some err => Err err
  | None =>
      let function := rr_function request in
      if zlen pdu =? 0 then
        Err (protocolError ErrorMalformedResponse function 0 "function" 0)
      else
        let received := pdu !!! 0%nat in
        if received =? Z.lor function 0x80 then
          if negb (zlen pdu =? 2) then
            Err (protocolError ErrorMalformedResponse function received
                   "exception_length" (zlen pdu))
          else
            Err (with_exception_code
                   (protocolError ErrorExceptionResponse function received
                      "exception_code" 1)
                   (pdu !!! 1%nat))
        else if negb (received =? function) then
          Err (protocolError ErrorMalformedResponse function received
                 "function_mismatch" 0)
        else if zlen pdu <? 2 then
          Err (protocolError ErrorMalformedResponse function received "byte_count" 1)
        else
          let expectedBytes := rr_quantity request * 2 in
          if negb (pdu !!! 1%nat =? expectedBytes) then
            Err (protocolError ErrorMalformedResponse function received "byte_count" 1)
          else if negb (zlen pdu =? expectedBytes + 2) || (zlen pdu >? MaxPDUSize) then
            Err (protocolError ErrorMalformedResponse function received
                   "response_length" (zlen pdu))
          else
            Ok {| rs_Words := decode_words pdu (Z.to_nat (rr_quantity request));
                  rs_Provenance :=
                    {| rp_Function := function; rp_Table := rr_table request;
                       rp_Offset := rr_offset request;
                       rp_Quantity := rr_quantity request |} |}
  end.

(** * Specification *)

(** What the wire format allows to be requested. *)
Definition readable (function offset quantity : Z) : Prop :=
  (function = 3 \/ function = 4) /\ 1 <= quantity <= 125 /\
  0 <= offset /\ offset + quantity <= 65536.

Definition table_of (function : Z) : LogicalTable :=
  if function =? 3 then HoldingRegisters
  else if function =? 4 then InputRegisters else NoTable.

Definition read_request (function offset quantity : Z) : ReadRegistersRequest :=
  {| rr_function := function; rr_table := table_of function;
     rr_offset := offset; rr_quantity := quantity |}.

(** A request value the package can hold: one the constructor returned. *)
Definition valid_read (r : ReadRegistersRequest) : Prop :=
  readable (rr_function r) (rr_offset r) (rr_quantity r) /\
  rr_table r = table_of (rr_function r).

(** Words in wire order, high byte first. *)
Definition word_bytes (ws : list Z) : list Z :=
  concat ((fun w => [wrap8 (Z.shiftr w 8); wrap8 w]) <$> ws).

(** The normal response of a server holding the words [ws] of a request. *)
Definition read_response_pdu (r : ReadRegistersRequest) (ws : list Z) : list Z :=
  rr_function r :: 2 * zlen ws :: word_bytes ws.

Definition read_provenance (r : ReadRegistersRequest) : ReadProvenance :=
  {| rp_Function := rr_function r; rp_Table := rr_table r;
     rp_Offset := rr_offset r; rp_Quantity := rr_quantity r |}.

(** * Lemmas *)

Section requests.
Context (function offset quantity : Z).
Context (Ho : u16 offset) (Hq : u16 quantity).

Lemma readable_tests :
  readable function offset quantity <->
  (function = 3 \/ function = 4) /\
  (quantity =? 0) || (quantity >? MaxReadRegisters) = false /\
  (wrap32 (offset + quantity - 1) >? 0xffff) = false.
Proof.
  unfold readable, MaxReadRegisters, u16 in *. split.
  - intros (Hf & Hr & _ & Hw). split; [done|]. split; [lia|].
    rewrite wrap32_id by (unfold u32; lia). lia.
  - intros (Hf & Hn & Hw). split; [done|]. split; [lia|]. split; [lia|].
    rewrite wrap32_id in Hw by (unfold u32; lia). lia.
Qed.

End requests.

Lemma NewReadRegistersRequest_unfold function offset quantity :
  NewReadRegistersRequest function offset quantity =
  if (function =? 3) || (function =? 4) then
    if (quantity =? 0) || (quantity >? MaxReadRegisters) then
      Err (protocolError ErrorInvalidRange function 0 "quantity" 3)
    else if wrap32 (offset + quantity - 1) >? 0xffff then
      Err (protocolError ErrorInvalidRange function 0 "range_wrap" 1)
    else Ok (read_request function offset quantity)
  else Err (protocolError ErrorUnsupportedOperation function 0 "function" 0).
Proof.
  unfold NewReadRegistersRequest, read_request, table_of,
    FunctionReadHoldingRegisters, FunctionReadInputRegisters.
  destruct (function =? 3); [done|]. by destruct (function =? 4).
Qed.

Lemma validate_valid r :
  u16 (rr_offset r) -> u16 (rr_quantity r) ->
  validateReadRegistersRequest r = None <-> valid_read r.
Proof.
  intros Ho Hq. unfold valid_read. rewrite readable_tests by done.
  unfold validateReadRegistersRequest, table_of,
    FunctionReadHoldingRegisters, FunctionReadInputRegisters.
  destruct (rr_function r =? 3) eqn:E3; [|destruct (rr_function r =? 4) eqn:E4].
  3: { split; [done|]. intros [[[?|?] _] _]; lia. }
  all: repeat case_test; bool_hyps; split; intros; try discriminate;
    destruct_and?; try congruence; repeat split; auto with lia.
Qed.

Lemma valid_read_bounds r :
  valid_read r ->
  u16 (rr_offset r) /\ u16 (rr_quantity r) /\ u8 (rr_function r) /\
  1 <= rr_quantity r <= 125.
Proof.
  unfold valid_read, readable, u16, u8. intros ([Hf [Hr [H0 Hw]]] & _).
  destruct Hf as [->| ->]; lia.
Qed.

Lemma valid_validate r : valid_read r -> validateReadRegistersRequest r = None.
Proof. intros H. apply validate_valid; [apply valid_read_bounds in H; tauto..|done]. Qed.
#[export] Hint Resolve valid_validate : modbus.

Lemma NewReadRegistersRequest_valid function offset quantity r :
  u16 offset -> u16 quantity ->
  NewReadRegistersRequest function offset quantity = Ok r ->
  valid_read r /\ r = read_request function offset quantity.
Proof.
  intros Ho Hq. rewrite NewReadRegistersRequest_unfold.
  repeat case_test; intros H; simp_res. split; [|done]. split; [|done].
  apply readable_tests; [done..|]. simpl. split; [lia|]. done.
Qed.

Lemma NewReadRegistersRequest_readable function offset quantity :
  readable function offset quantity ->
  NewReadRegistersRequest function offset quantity =
    Ok (read_request function offset quantity).
Proof.
  intros H. rewrite NewReadRegistersRequest_unfold.
  assert (u16 offset /\ u16 quantity) as [Ho Hq]
    by (unfold readable, u16 in *; lia).
  apply readable_tests in H as (Hf & -> & ->); [|done..].
  test_true ((function =? 3) || (function =? 4)). done.
Qed.

(** Pairwise big-endian reading, the recursive form of [decode_words]. *)
Fixpoint be_words (l : list Z) : list Z :=
  match l with
  | hi :: lo :: rest => be16 hi lo :: be_words rest
  | _ => []
  end.

Lemma decode_words_from p n k :
  (k + n * 2 <= length p)%nat ->
  (fun i : nat => be16 (p !!! (k + i * 2)%nat) (p !!! (k + i * 2 + 1)%nat)) <$> seq 0 n
  = be_words (take (n * 2) (drop k p)).
Proof.
  revert k. induction n as [|n IH]; intros k Hk; [done|].
  assert (exists a b, drop k p = a :: b :: drop (k + 2) p) as (a & b & E).
  { destruct (drop k p) as [|a [|b t]] eqn:E.
    - apply (f_equal length) in E. rewrite length_drop in E. simpl in E. lia.
    - apply (f_equal length) in E. rewrite length_drop in E. simpl in E. lia.
    - exists a, b. rewrite <- drop_drop, E. done. }
  cbn [seq]. rewrite fmap_cons, <- fmap_S_seq, <- list_fmap_compose.
  assert (p !!! k = a) as Ha.
  { apply list_lookup_total_correct. rewrite <- (Nat.add_0_r k), <- lookup_drop, E. done. }
  assert (p !!! (k + 1)%nat = b) as Hb.
  { apply list_lookup_total_correct. rewrite <- lookup_drop, E. done. }
  rewrite E. cbn [Nat.mul Nat.add take be_words].
  rewrite Nat.add_0_r, Ha, Hb. f_equal. rewrite <- IH by lia.
  apply list_fmap_ext. intros i x _. unfold compose. f_equal; f_equal; lia.
Qed.

Lemma decode_words_be p n :
  (2 + n * 2 <= length p)%nat ->
  decode_words p n = be_words (take (n * 2) (drop 2 p)).
Proof. intros H. unfold decode_words. by rewrite decode_words_from. Qed.

Lemma length_word_bytes ws : length (word_bytes ws) = (length ws * 2)%nat.
Proof.
  unfold word_bytes. induction ws as [|w ws IH]; [done|].
  cbn. rewrite IH. lia.
Qed.

Lemma zlen_word_bytes ws : zlen (word_bytes ws) = 2 * zlen ws.
Proof. unfold zlen. rewrite length_word_bytes. lia. Qed.
#[export] Hint Rewrite zlen_word_bytes : zlen.

Lemma be_words_word_bytes ws : Forall u16 ws -> be_words (word_bytes ws) = ws.
Proof.
  unfold word_bytes. induction 1 as [|w ws Hw _ IH]; [done|].
  cbn. by rewrite be16_split, IH.
Qed.

Lemma word_bytes_be_words n l :
  length l = (n * 2)%nat -> Forall u8 l ->
  word_bytes (be_words l) = l /\ length (be_words l) = n /\ Forall u16 (be_words l).
Proof.
  unfold word_bytes. revert l.
  induction n as [|n IH]; intros [|hi [|lo l]] Hl HF; simpl in Hl; try lia.
  - repeat split; constructor.
  - inversion HF as [|? ? Hhi HF']; subst. inversion HF' as [|? ? Hlo HF'']; subst.
    destruct (IH l) as (E & E' & F); [lia|done|].
    cbn. rewrite be16_hi, be16_lo, E, E' by done.
    repeat split; [done..|]. constructor; [by apply be16_u16|done].
Qed.

Lemma word_bytes_u8 ws : Forall u8 (word_bytes ws).
Proof.
  unfold word_bytes. induction ws as [|w ws IH]; [constructor|].
  cbn. repeat constructor; solve [apply wrap8_u8 | done].
Qed.

(** No read function code has the exception bit, so a normal response is
    never mistaken for an exception. *)
Lemma exception_function_ne r :
  valid_read r -> rr_function r <> Z.lor (rr_function r) 0x80.
Proof. intros [[[->| ->] _] _]; vm_compute; discriminate. Qed.

(** The tests of the decoder, as one case analysis on a validated request. *)
Lemma DecodeReadRegistersResponse_unfold r pdu :
  valid_read r ->
  DecodeReadRegistersResponse r pdu =
  match pdu with
  | [] => Err (protocolError ErrorMalformedResponse (rr_function r) 0 "function" 0)
  | f :: rest =>
      if f =? Z.lor (rr_function r) 0x80 then
        match rest with
        | [code] => Err (with_exception_code
                      (protocolError ErrorExceptionResponse (rr_function r) f
                         "exception_code" 1) code)
        | _ => Err (protocolError ErrorMalformedResponse (rr_function r) f
                      "exception_length" (zlen pdu))
        end
      else if negb (f =? rr_function r) then
        Err (protocolError ErrorMalformedResponse (rr_function r) f "function_mismatch" 0)
      else
        match rest with
        | [] => Err (protocolError ErrorMalformedResponse (rr_function r) f "byte_count" 1)
        | n :: body =>
            if negb (n =? rr_quantity r * 2) then
              Err (protocolError ErrorMalformedResponse (rr_function r) f "byte_count" 1)
            else if negb (zlen body =? rr_quantity r * 2) then
              Err (protocolError ErrorMalformedResponse (rr_function r) f
                     "response_length" (zlen pdu))
            else Ok {| rs_Words := be_words body; rs_Provenance := read_provenance r |}
        end
  end.
Proof.
  intros Hr. unfold DecodeReadRegistersResponse.
  pose proof (valid_read_bounds r Hr) as (_ & _ & _ & Hq).
  rewrite valid_validate by done.
  destruct pdu as [|f rest]; [done|].
  pose proof (zlen_nonneg rest).
  test_false (zlen (f :: rest) =? 0).
  change ((f :: rest) !!! 0%nat) with f.
  destruct (f =? _).
  { destruct rest as [|c [|c' rest]]; [done..|].
    pose proof (zlen_nonneg rest).
    test_true (negb (zlen (f :: c :: c' :: rest) =? 2)). done. }
  destruct (f =? rr_function r); [|done]. cbn [negb].
  destruct rest as [|n body]; [done|].
  change ((f :: n :: body) !!! 1%nat) with n.
  pose proof (zlen_nonneg body).
  test_false (zlen (f :: n :: body) <? 2).
  destruct (n =? rr_quantity r * 2); [|done]. cbn [negb].
  destruct (zlen body =? rr_quantity r * 2) eqn:El.
  - test_false (negb (zlen (f :: n :: body) =? rr_quantity r * 2 + 2)
                || (zlen (f :: n :: body) >? MaxPDUSize)).
    2: { unfold MaxPDUSize. zlen_simpl. lia. }
    cbn [negb]. f_equal. unfold zlen in El, H0.
    rewrite decode_words_be by (cbn [length]; lia).
    change (drop 2 (f :: n :: body)) with body. rewrite take_ge by lia. done.
  - test_true (negb (zlen (f :: n :: body) =? rr_quantity r * 2 + 2)
                || (zlen (f :: n :: body) >? MaxPDUSize)). done.
Qed.

(** * Properties *)

(** the request constructor accepts exactly the ranges the protocol can
    address (function 3 or 4, 1 to 125 registers, no wrap past 65535), and
    what it returns carries the arguments and the table of the function. *)
Theorem new_read_request_iff function offset quantity r :
  u16 offset -> u16 quantity ->
  NewReadRegistersRequest function offset quantity = Ok r <->
  readable function offset quantity /\ r = read_request function offset quantity.
Proof.
  intros Ho Hq. split.
  - intros H. apply NewReadRegistersRequest_valid in H as [[Hv _] ->]; [|done..]. done.
  - intros [H ->]. by apply NewReadRegistersRequest_readable.
Qed.

Lemma new_read_request_iff_witness :
  NewReadRegistersRequest 3 65535 1 = Ok (read_request 3 65535 1).
Proof.
  apply new_read_request_iff; [unfold u16; lia..|].
  split; [|reflexivity]. unfold readable. lia.
Defined.

(** encoding is a faithful image of a request: a server that parses the
    five bytes back (two big-endian words through the request constructor)
    recovers the request, so distinct requests have distinct PDUs. *)
Theorem encode_read_request_roundtrip r :
  valid_read r ->
  exists f oh ol qh ql,
    EncodePDU r = Ok [f; oh; ol; qh; ql] /\ Forall u8 [f; oh; ol; qh; ql] /\
    NewReadRegistersRequest f (be16 oh ol) (be16 qh ql) = Ok r.
Proof.
  intros Hr. pose proof (valid_read_bounds r Hr) as (Ho & Hq & Hf & _).
  unfold EncodePDU. rewrite valid_validate by done.
  do 5 eexists. split; [reflexivity|]. split; [repeat constructor; apply wrap8_u8|].
  rewrite !be16_split, wrap8_id by done.
  destruct Hr as [Hr Ht].
  rewrite NewReadRegistersRequest_readable by done.
  f_equal. destruct r; simpl in *; subst. reflexivity.
Qed.

Lemma encode_read_request_roundtrip_witness :
  exists f oh ol qh ql,
    EncodePDU (read_request 4 0x1234 10) = Ok [f; oh; ol; qh; ql] /\
    Forall u8 [f; oh; ol; qh; ql] /\
    NewReadRegistersRequest f (be16 oh ol) (be16 qh ql) = Ok (read_request 4 0x1234 10).
Proof.
  apply encode_read_request_roundtrip. split; [|reflexivity].
  unfold readable; simpl; lia.
Defined.

(** response decoding is exact.  A PDU is decoded if and only if it is the
    byte image of one register word per requested register, and then the words
    and the provenance are those of the request; every other PDU is an error. *)
Theorem decode_read_response_iff r pdu resp :
  valid_read r -> Forall u8 pdu ->
  DecodeReadRegistersResponse r pdu = Ok resp <->
  exists ws, zlen ws = rr_quantity r /\ Forall u16 ws /\
    pdu = read_response_pdu r ws /\
    resp = {| rs_Words := ws; rs_Provenance := read_provenance r |}.
Proof.
  intros Hr HF. rewrite DecodeReadRegistersResponse_unfold by done.
  pose proof (exception_function_ne r Hr) as Hne.
  pose proof (valid_read_bounds r Hr) as (_ & _ & _ & Hq). split.
  - destruct pdu as [|f rest]; [done|].
    destruct (f =? Z.lor _ _); [by destruct rest as [|? [|? ?]]|].
    destruct (f =? rr_function r) eqn:Ef; [|done]. apply Z.eqb_eq in Ef as ->.
    destruct rest as [|n body]; [done|]. cbn [negb].
    do 2 (case_test; [done|]). bool_hyps. intros H; simp_res.
    apply Forall_cons in HF as [_ [_ HF]%Forall_cons].
    destruct (word_bytes_be_words (Z.to_nat (rr_quantity r)) body)
      as (E1 & E2 & E3); [unfold zlen in *; lia|done|].
    exists (be_words body). unfold read_response_pdu, zlen. rewrite E1, E2.
    repeat split; [lia|done|]. f_equal. f_equal. lia.
  - intros (ws & Hl & Hw & -> & ->). unfold read_response_pdu.
    test_false (rr_function r =? Z.lor (rr_function r) 0x80).
    test_false (negb (rr_function r =? rr_function r)).
    test_false (negb (2 * zlen ws =? rr_quantity r * 2)).
    test_false (negb (zlen (word_bytes ws) =? rr_quantity r * 2)).
    by rewrite be_words_word_bytes.
Qed.

Lemma decode_read_response_iff_witness :
  DecodeReadRegistersResponse (read_request 3 16 2) [3; 4; 0x12; 0x34; 0xff; 0xfe] =
  Ok {| rs_Words := [0x1234; 0xfffe]; rs_Provenance := read_provenance (read_request 3 16 2) |}.
Proof.
  apply decode_read_response_iff.
  - split; [unfold readable; simpl; lia|reflexivity].
  - repeat constructor; unfold u8; lia.
  - exists [0x1234; 0xfffe]. split; [reflexivity|].
    split; [repeat constructor; unfold u16; lia|]. split; reflexivity.
Defined.

(** an exception is reported exactly for the two-byte PDU whose function
    is the requested one with the exception bit, and the error carries the
    requested and received functions and the exact exception code. *)
Theorem decode_read_exception_iff r pdu err :
  valid_read r ->
  (DecodeReadRegistersResponse r pdu = Err err /\ pe_Kind err = ErrorExceptionResponse) <->
  exists code, pdu = [Z.lor (rr_function r) 0x80; code] /\
    err = {| pe_Kind := ErrorExceptionResponse;
             pe_RequestedFunction := rr_function r;
             pe_ReceivedFunction := Z.lor (rr_function r) 0x80;
             pe_ExceptionCode := code; pe_Field := "exception_code"; pe_Offset := 1 |}.
Proof.
  intros Hr. rewrite DecodeReadRegistersResponse_unfold by done. split.
  - intros [H Hk]. destruct pdu as [|f rest]; [by simp_res|].
    destruct (f =? Z.lor _ _) eqn:Ef.
    + apply Z.eqb_eq in Ef as ->.
      destruct rest as [|c [|? ?]]; simp_res; [done| |done]. eauto.
    + destruct rest as [|n body]; repeat case_test; by simp_res.
  - intros (code & -> & ->). by rewrite Z.eqb_refl.
Qed.

Lemma decode_read_exception_iff_witness :
  DecodeReadRegistersResponse (read_request 3 0 1) [0x83; 2] =
    Err {| pe_Kind := ErrorExceptionResponse; pe_RequestedFunction := 3;
           pe_ReceivedFunction := 0x83; pe_ExceptionCode := 2;
           pe_Field := "exception_code"; pe_Offset := 1 |}
  /\ ErrorExceptionResponse = ErrorExceptionResponse.
Proof.
  refine (proj2 (decode_read_exception_iff (read_request 3 0 1) [0x83; 2] _ _) _).
  - split; [unfold readable; simpl; lia|reflexivity].
  - exists 2. split; reflexivity.
Defined.
