(* ===== verification/DeviceId.v ===== *)
(** Read Device Identification, FC2B/MEI0E (device_id.go, strict part):
    requests and their continuations, segment validation and decoding, the
    arbitrary-start extended stream, and the bounded aggregation of a complete
    traversal.  The tolerant decoder of the same file is in DeviceIdTolerant. *)

From S2P Require Import Prelude Pdu.

(** * Data *)

Definition deviceIDMEIType : Z := 0x0e.
Definition maxDeviceIDSegments : Z := 256.
Definition maxDeviceIDObjects : Z := 256.
Definition maxDeviceIDObjectValueBytes : Z := 244.
Definition maxDeviceIDAggregateBytes : Z := 62464.

Definition DeviceIDBasic : Z := 0x01.
Definition DeviceIDRegular : Z := 0x02.
Definition DeviceIDExtended : Z := 0x03.
Definition DeviceIDIndividual : Z := 0x04.

Record DeviceIDRequest : Type := mkDeviceIDRequest {
  dr_access : Z;
  dr_objectID : Z;
  dr_continuation : bool;
  dr_extended : bool;
  dr_wrapped : bool
}.

#[export] Instance DeviceIDRequest_eq_dec : EqDecision DeviceIDRequest.
Proof. solve_decision. Defined.

(** [DeviceIDRequest{}]. *)
Definition zeroDeviceIDRequest : DeviceIDRequest :=
  {| dr_access := 0; dr_objectID := 0; dr_continuation := false;
     dr_extended := false; dr_wrapped := false |}.

Record DeviceIDObject : Type := mkDeviceIDObject {
  do_ID : Z;
  do_Value : list Z
}.

#[export] Instance DeviceIDObject_eq_dec : EqDecision DeviceIDObject.
Proof. solve_decision. Defined.

Record DeviceIDSegment : Type := mkDeviceIDSegment {
  sg_request : DeviceIDRequest;
  sg_conformity : Z;
  sg_moreFollows : bool;
  sg_nextObjectID : Z;
  sg_objects : list DeviceIDObject;
  sg_decoded : bool
}.

#[export] Instance DeviceIDSegment_eq_dec : EqDecision DeviceIDSegment.
Proof. solve_decision. Defined.

Record DeviceIDLimits : Type := mkDeviceIDLimits {
  dl_MaxSegments : Z;
  dl_MaxObjects : Z;
  dl_MaxValueBytes : Z
}.

Record DeviceIDResult : Type := mkDeviceIDResult {
  dres_Conformity : Z;
  dres_Objects : list DeviceIDObject;
  dres_Segments : list DeviceIDSegment
}.

Definition DefaultDeviceIDLimits : DeviceIDLimits :=
  {| dl_MaxSegments := maxDeviceIDSegments;
     dl_MaxObjects := maxDeviceIDObjects;
     dl_MaxValueBytes := maxDeviceIDAggregateBytes |}.

(** * Field tests *)

Definition malformedDeviceID (received : Z) (field : string) (offset : Z)
    : ProtocolError :=
  protocolError ErrorMalformedResponse FunctionEncapsulatedInterface received
    field offset.

(** The validation errors below all name the requested function and no
    received one. *)
Definition invalidDeviceID (field : string) (offset : Z) : ProtocolError :=
  protocolError ErrorInvalidRequest FunctionEncapsulatedInterface 0 field offset.

Definition validDeviceIDAccess (access : Z) : bool :=
  (access >=? DeviceIDBasic) && (access <=? DeviceIDIndividual).

Definition validDeviceIDConformity (conformity : Z) : bool :=
  bool_decide (conformity ∈ [0x01; 0x02; 0x03; 0x81; 0x82; 0x83]).

Definition decodeMoreFollows (value : Z) : bool * bool :=
  if value =? 0x00 then (false, true)
  else if value =? 0xff then (true, true)
  else (false, false).

Definition objectAllowedByAccess (objectID access : Z) : bool :=
  if access =? DeviceIDBasic then objectID <=? 0x02
  else if access =? DeviceIDRegular then objectID <=? 0x06
  else if access =? DeviceIDExtended then (objectID <=? 0x06) || (objectID >=? 0x80)
  else true.

Definition objectAllowedByConformity (objectID conformity : Z) : bool :=
  let level := Z.land conformity 0x7f in
  if level =? 0x01 then objectID <=? 0x02
  else if level =? 0x02 then objectID <=? 0x06
  else if level =? 0x03 then (objectID <=? 0x06) || (objectID >=? 0x80)
  else false.

Definition validateDeviceIDRequest (request : DeviceIDRequest)
    : option ProtocolError :=
  if negb (validDeviceIDAccess (dr_access request)) then
    Some (invalidDeviceID "read_device_id_code" 2)
  else if dr_access request =? DeviceIDIndividual then
    if dr_continuation request || dr_extended request || dr_wrapped request then
      Some (invalidDeviceID "individual_continuation" (-1))
    else None
  else if dr_extended request then
    if negb (dr_access request =? DeviceIDExtended)
       || (negb (dr_continuation request) && dr_wrapped request) then
      Some (invalidDeviceID "extended_stream_cursor" 3)
    else None
  else if (negb (dr_continuation request) && negb (dr_objectID request =? 0))
          || (dr_continuation request && (dr_objectID request =? 0)) then
    Some (invalidDeviceID "stream_cursor" 3)
  else None.

Definition NewDeviceIDRequest (access objectID : Z) : presult DeviceIDRequest :=
  if negb (validDeviceIDAccess access) then
    Err (invalidDeviceID "read_device_id_code" 2)
  else if negb (access =? DeviceIDIndividual) && negb (objectID =? 0) then
    Err (invalidDeviceID "initial_cursor" 3)
  else
    Ok {| dr_access := access; dr_objectID := objectID; dr_continuation := false;
          dr_extended := false; dr_wrapped := false |}.

Definition NewExtendedDeviceIDStreamRequest (objectID : Z) : presult DeviceIDRequest :=
  let request :=
    {| dr_access := DeviceIDExtended; dr_objectID := objectID;
       dr_continuation := false; dr_extended := true; dr_wrapped := false |} in
  match validateDeviceIDRequest request with
  | Some err => Err err
  | None => Ok request
  end.

Definition EncodeDeviceIDPDU (request : DeviceIDRequest) : presult (list Z) :=
  match validateDeviceIDRequest request with
  | Some err => Err err
  | None =>
      Ok [ FunctionEncapsulatedInterface; deviceIDMEIType;
           wrap8 (dr_access request); dr_objectID request ]
  end.

(** * Segments *)

(** The pair of results is (wrapped after the step, step allowed). *)
Definition advanceExtendedDeviceIDObject (previous next : Z) (wrapped : bool)
    : bool * bool :=
  if next >? previous then (wrapped, true)
  else if (previous =? 0xff) && (next =? 0) && negb wrapped then (true, true)
  else (wrapped, false).

(** The object loop of [validateExtendedDeviceIDProgress], from the current
    [previous], [haveObject], [encodedSize], [seen] and [wrapped]. *)
Fixpoint extended_objects (previous : Z) (haveObject : bool) (encodedSize : Z)
    (seen : gset Z) (wrapped : bool) (objects : list DeviceIDObject)
    : presult (Z * bool) :=
  match objects with
  | [] => Ok (previous, wrapped)
  | object :: rest =>
      if zlen (do_Value object) >? maxDeviceIDObjectValueBytes then
        Err (malformedDeviceID 0 "object_value_length" (-1))
      else
        let encodedSize := encodedSize + (2 + zlen (do_Value object)) in
        if encodedSize >? MaxPDUSize then
          Err (malformedDeviceID 0 "segment_pdu_length" (-1))
        else if bool_decide (do_ID object ∈ seen) then
          Err (malformedDeviceID 0 "object_progress" (-1))
        else
          let seen := {[do_ID object]} ∪ seen in
          if negb haveObject && (do_ID object =? previous) then
            extended_objects previous true encodedSize seen wrapped rest
          else
            match advanceExtendedDeviceIDObject previous (do_ID object) wrapped with
            | (_, false) => Err (malformedDeviceID 0 "object_progress" (-1))
            | (nextWrapped, true) =>
                extended_objects (do_ID object) true encodedSize seen nextWrapped rest
            end
  end.

(** The Go function also returns its current [wrapped] next to an error; both
    callers discard it. *)
Definition validateExtendedDeviceIDProgress (segment : DeviceIDSegment)
    (wrapped : bool) : presult bool :=
  let request := sg_request segment in
  if negb (dr_extended request)
     || negb (dr_access request =? DeviceIDExtended)
     || negb (Z.land (sg_conformity segment) 0x7f =? DeviceIDExtended) then
    Err (malformedDeviceID 0 "extended_stream_identity" (-1))
  else
    match extended_objects (dr_objectID request) false 7 ∅ wrapped
            (sg_objects segment) with
    | Err err => Err err
    | Ok (previous, wrapped) =>
        if sg_moreFollows segment then
          match advanceExtendedDeviceIDObject previous (sg_nextObjectID segment)
                  wrapped with
          | (_, false) => Err (malformedDeviceID 0 "next_object_id" 5)
          | (nextWrapped, true) => Ok nextWrapped
          end
        else Ok wrapped
    end.

(** The object loop of [validateDeviceIDSegment]; [first] is [index == 0]. *)
Fixpoint standard_objects (request : DeviceIDRequest) (conformity : Z)
    (first : bool) (previous encodedSize : Z) (objects : list DeviceIDObject)
    : option ProtocolError :=
  match objects with
  | [] => None
  | object :: rest =>
      let id := do_ID object in
      if zlen (do_Value object) >? maxDeviceIDObjectValueBytes then
        Some (malformedDeviceID 0 "object_value_length" (-1))
      else
        let encodedSize := encodedSize + (2 + zlen (do_Value object)) in
        if encodedSize >? MaxPDUSize then
          Some (malformedDeviceID 0 "segment_pdu_length" (-1))
        else if negb first && (id <=? previous) then
          Some (malformedDeviceID 0 "object_order" (-1))
        else if (id >=? 0x07) && (id <? 0x80) then
          Some (malformedDeviceID 0 "reserved_object_id" (-1))
        else if negb (dr_access request =? DeviceIDIndividual)
                && ((first && (id <? dr_objectID request))
                    || negb (objectAllowedByAccess id (dr_access request))) then
          Some (malformedDeviceID 0 "requested_category" (-1))
        else if negb (objectAllowedByConformity id conformity) then
          Some (malformedDeviceID 0 "conformity_category" (-1))
        else standard_objects request conformity false id encodedSize rest
  end.

(** [segment.objects[len(segment.objects)-1].ID], zero for an empty list. *)
Definition last_object_id (objects : list DeviceIDObject) : Z :=
  match last objects with
  | Some object => do_ID object
  | None => 0
  end.

Definition validateDeviceIDSegment (segment : DeviceIDSegment)
    : option ProtocolError :=
  let request := sg_request segment in
  let objects := sg_objects segment in
  let next := sg_nextObjectID segment in
  if negb (sg_decoded segment)
     || bool_decide (is_Some (validateDeviceIDRequest request))
     || negb (validDeviceIDConformity (sg_conformity segment)) then
    Some (malformedDeviceID 0 "segment_identity" (-1))
  else if zlen objects >? 0xff then
    Some (malformedDeviceID 0 "number_of_objects" 6)
  else if (negb (sg_moreFollows segment) && negb (next =? 0))
          || (sg_moreFollows segment && (next =? 0) && negb (dr_extended request))
          || (sg_moreFollows segment && (zlen objects =? 0)) then
    Some (malformedDeviceID 0 "continuation" (-1))
  else if (dr_access request =? DeviceIDIndividual)
          && ((Z.land (sg_conformity segment) 0x80 =? 0)
              || sg_moreFollows segment
              || negb (next =? 0)
              || negb (zlen objects =? 1)
              || negb (bool_decide
                         (do_ID <$> objects !! 0%nat = Some (dr_objectID request)))) then
    Some (malformedDeviceID 0 "individual_response" (-1))
  else if dr_extended request then
    match validateExtendedDeviceIDProgress segment (dr_wrapped request) with
    | Ok _ => None
    | Err err => Some err
    end
  else
    match standard_objects request (sg_conformity segment) true 0 7 objects with
    | Some err => Some err
    | None =>
        if sg_moreFollows segment then
          if (next <=? last_object_id objects)
             || ((next >=? 0x07) && (next <? 0x80))
             || negb (objectAllowedByAccess next (dr_access request))
             || negb (objectAllowedByConformity next (sg_conformity segment)) then
            Some (malformedDeviceID 0 "next_object_id" (-1))
          else None
        else None
    end.

Definition NextDeviceIDRequest (segment : DeviceIDSegment) : presult DeviceIDRequest :=
  match validateDeviceIDSegment segment with
  | Some err => Err err
  | None =>
      let request := sg_request segment in
      if (dr_access request =? DeviceIDIndividual) || negb (sg_moreFollows segment) then
        Err (invalidDeviceID "continuation_unavailable" (-1))
      else
        let next wrapped :=
          {| dr_access := dr_access request;
             dr_objectID := sg_nextObjectID segment;
             dr_continuation := true;
             dr_extended := dr_extended request;
             dr_wrapped := wrapped |} in
        if dr_extended request then
          match validateExtendedDeviceIDProgress segment (dr_wrapped request) with
          | Ok wrapped => Ok (next wrapped)
          | Err err => Err err
          end
        else Ok (next (dr_wrapped request))
  end.

(** The object loop of [DecodeDeviceIDSegment] from byte [cursor]. *)
Fixpoint decode_objects (received : Z) (pdu : list Z) (count cursor : nat)
    (objects : list DeviceIDObject) : presult (list DeviceIDObject * nat) :=
  match count with
  | O => Ok (objects, cursor)
  | S count =>
      if Z.of_nat cursor + 2 >? zlen pdu then
        Err (malformedDeviceID received "object_header" (Z.of_nat cursor))
      else
        let objectID := pdu !!! cursor in
        let valueLength := pdu !!! (cursor + 1)%nat in
        let cursor := (cursor + 2)%nat in
        if (valueLength >? maxDeviceIDObjectValueBytes)
           || (Z.of_nat cursor + valueLength >? zlen pdu) then
          Err (malformedDeviceID received "object_value" (Z.of_nat cursor))
        else
          let value := take (Z.to_nat valueLength) (drop cursor pdu) in
          decode_objects received pdu count (cursor + Z.to_nat valueLength)%nat
            (objects ++ [{| do_ID := objectID; do_Value := value |}])
  end.

Definition DecodeDeviceIDSegment (request : DeviceIDRequest) (pdu : list Z)
    : presult DeviceIDSegment :=
  match validateDeviceIDRequest request with
  | Some err => Err err
  | None =>
      if zlen pdu =? 0 then Err (malformedDeviceID 0 "function" 0)
      else
      let received := pdu !!! 0%nat in
      if received =? Z.lor FunctionEncapsulatedInterface 0x80 then
        if negb (zlen pdu =? 2) then
          Err (malformedDeviceID received "exception_length" (zlen pdu))
        else
          Err (with_exception_code
                 (protocolError ErrorExceptionResponse FunctionEncapsulatedInterface
                    received "exception_code" 1)
                 (pdu !!! 1%nat))
      else if (zlen pdu <? 7) || (zlen pdu >? MaxPDUSize) then
        Err (malformedDeviceID received "response_length" (zlen pdu))
      else if negb (received =? FunctionEncapsulatedInterface) then
        Err (malformedDeviceID received "function_mismatch" 0)
      else if negb (pdu !!! 1%nat =? deviceIDMEIType) then
        Err (malformedDeviceID received "mei_type" 1)
      else if negb (pdu !!! 2%nat =? dr_access request) then
        Err (malformedDeviceID received "read_device_id_code" 2)
      else
      let conformity := pdu !!! 3%nat in
      if negb (validDeviceIDConformity conformity) then
        Err (malformedDeviceID received "conformity_level" 3)
      else
      match decodeMoreFollows (pdu !!! 4%nat) with
      | (_, false) => Err (malformedDeviceID received "more_follows" 4)
      | (moreFollows, true) =>
          let nextObjectID := pdu !!! 5%nat in
          if (negb moreFollows && negb (nextObjectID =? 0))
             || (moreFollows && (nextObjectID =? 0) && negb (dr_extended request)) then
            Err (malformedDeviceID received "next_object_id" 5)
          else
          let objectCount := pdu !!! 6%nat in
          if moreFollows && (objectCount =? 0) then
            Err (malformedDeviceID received "number_of_objects" 6)
          else
          match decode_objects received pdu (Z.to_nat objectCount) 7 [] with
          | Err err => Err err
          | Ok (objects, cursor) =>
              if negb (Z.of_nat cursor =? zlen pdu) then
                Err (malformedDeviceID received "trailing_bytes" (Z.of_nat cursor))
              else
              let segment :=
                {| sg_request := request; sg_conformity := conformity;
                   sg_moreFollows := moreFollows; sg_nextObjectID := nextObjectID;
                   sg_objects := objects; sg_decoded := true |} in
              match validateDeviceIDSegment segment with
              | Some err => Err err
              | None => Ok segment
              end
          end
      end
  end.

(** * Aggregation *)

Definition validateDeviceIDLimits (limits : DeviceIDLimits) : option ProtocolError :=
  if (dl_MaxSegments limits <? 1)
     || (dl_MaxSegments limits >? maxDeviceIDSegments)
     || (dl_MaxObjects limits <? 1)
     || (dl_MaxObjects limits >? maxDeviceIDObjects)
     || (dl_MaxValueBytes limits <? 1)
     || (dl_MaxValueBytes limits >? maxDeviceIDAggregateBytes) then
    Some (invalidDeviceID "aggregation_limits" (-1))
  else None.

(** The variables of [aggregateDeviceID] that its object loop updates. *)
Record aggregation : Type := mkAggregation {
  ag_seen : gset Z;
  ag_objects : list DeviceIDObject;
  ag_valueBytes : Z;
  ag_previous : Z;
  ag_havePrevious : bool;
  ag_wrapped : bool
}.

Definition aggregation_start : aggregation :=
  {| ag_seen := ∅; ag_objects := []; ag_valueBytes := 0; ag_previous := 0;
     ag_havePrevious := false; ag_wrapped := false |}.

Fixpoint aggregate_objects (limits : DeviceIDLimits) (extended : bool)
    (st : aggregation) (objects : list DeviceIDObject) : presult aggregation :=
  match objects with
  | [] => Ok st
  | object :: rest =>
      let id := do_ID object in
      let duplicate := bool_decide (id ∈ ag_seen st) in
      let '(wrapped, progressValid) :=
        if ag_havePrevious st then
          if extended then
            advanceExtendedDeviceIDObject (ag_previous st) id (ag_wrapped st)
          else (ag_wrapped st, id >? ag_previous st)
        else (ag_wrapped st, true) in
      if duplicate || negb progressValid then
        Err (malformedDeviceID 0 "object_progress" (-1))
      else if (zlen (ag_objects st) =? dl_MaxObjects limits)
              || (zlen (do_Value object) >? dl_MaxValueBytes limits - ag_valueBytes st) then
        Err (malformedDeviceID 0 "aggregate_limit" (-1))
      else
        aggregate_objects limits extended
          {| ag_seen := {[id]} ∪ ag_seen st;
             ag_objects := ag_objects st ++ [object];
             ag_valueBytes := ag_valueBytes st + zlen (do_Value object);
             ag_previous := id;
             ag_havePrevious := true;
             ag_wrapped := wrapped |} rest
  end.

(** The segment loop; [conformity] is [None] before the first segment. *)
Fixpoint aggregate_segments (limits : DeviceIDLimits) (extended : bool)
    (expectedRequest : DeviceIDRequest) (conformity : option Z)
    (st : aggregation) (segments : list DeviceIDSegment)
    : presult (option Z * aggregation) :=
  match segments with
  | [] => Ok (conformity, st)
  | segment :: rest =>
      if negb (bool_decide (sg_request segment = expectedRequest)) then
        Err (malformedDeviceID 0 "continuation_request" (-1))
      else
      match validateDeviceIDSegment segment with
      | Some err => Err err
      | None =>
          if match conformity with
             | None => false
             | Some c => negb (sg_conformity segment =? c)
             end then
            Err (malformedDeviceID 0 "conformity_change" 3)
          else
          match aggregate_objects limits extended st (sg_objects segment) with
          | Err err => Err err
          | Ok st =>
              let last := bool_decide (rest = []) in
              if sg_moreFollows segment then
                if last then Err (malformedDeviceID 0 "missing_continuation" (-1))
                else
                match NextDeviceIDRequest segment with
                | Err err => Err err
                | Ok nextRequest =>
                    aggregate_segments limits extended nextRequest
                      (Some (sg_conformity segment)) st rest
                end
              else if negb last then
                Err (malformedDeviceID 0 "trailing_segment" (-1))
              else Ok (Some (sg_conformity segment), st)
          end
      end
  end.

Definition aggregateDeviceID (firstRequest : DeviceIDRequest)
    (segments : list DeviceIDSegment) (limits : DeviceIDLimits) (extended : bool)
    : presult DeviceIDResult :=
  match validateDeviceIDLimits limits with
  | Some err => Err err
  | None =>
      let standardInvalid :=
        (dr_access firstRequest =? DeviceIDIndividual)
        || negb (validDeviceIDAccess (dr_access firstRequest))
        || negb (dr_objectID firstRequest =? 0)
        || dr_extended firstRequest in
      let extendedInvalid :=
        negb (dr_access firstRequest =? DeviceIDExtended)
        || negb (dr_extended firstRequest)
        || dr_continuation firstRequest
        || dr_wrapped firstRequest in
      if (negb extended && standardInvalid) || (extended && extendedInvalid) then
        Err (invalidDeviceID "initial_cursor" 3)
      else if (zlen segments =? 0) || (zlen segments >? dl_MaxSegments limits) then
        Err (malformedDeviceID 0 "segment_count" (-1))
      else
      match aggregate_segments limits extended firstRequest None aggregation_start
              segments with
      | Err err => Err err
      | Ok (conformity, st) =>
          if negb extended
             && negb (forallb (fun id => bool_decide (id ∈ ag_seen st)) [0; 1; 2]) then
            Err (malformedDeviceID 0 "mandatory_basic_object" (-1))
          else
            Ok {| dres_Conformity := default 0 conformity;
                  dres_Objects := ag_objects st;
                  dres_Segments := segments |}
      end
  end.

Definition AggregateDeviceID (firstRequest : DeviceIDRequest)
    (segments : list DeviceIDSegment) (limits : DeviceIDLimits) : presult DeviceIDResult :=
  aggregateDeviceID firstRequest segments limits false.

Definition AggregateExtendedDeviceIDStream (firstRequest : DeviceIDRequest)
    (segments : list DeviceIDSegment) (limits : DeviceIDLimits) : presult DeviceIDResult :=
  aggregateDeviceID firstRequest segments limits true.

(** * Specification *)

(** The wire image of a list of objects and of a whole segment. *)
Definition object_bytes (object : DeviceIDObject) : list Z :=
  do_ID object :: zlen (do_Value object) :: do_Value object.

Definition objects_bytes (objects : list DeviceIDObject) : list Z :=
  concat (object_bytes <$> objects).

Definition segment_pdu (segment : DeviceIDSegment) : list Z :=
  [ 0x2b; 0x0e; dr_access (sg_request segment); sg_conformity segment;
    (if sg_moreFollows segment then 0xff else 0x00);
    sg_nextObjectID segment; zlen (sg_objects segment) ]
  ++ objects_bytes (sg_objects segment).

Definition object_u8 (object : DeviceIDObject) : Prop :=
  u8 (do_ID object) /\ Forall u8 (do_Value object).

Definition segment_u8 (segment : DeviceIDSegment) : Prop :=
  u8 (sg_conformity segment) /\ u8 (sg_nextObjectID segment) /\
  Forall object_u8 (sg_objects segment).

(** Position of a stream cursor: one lap before the wrap, one after. *)
Definition cursor_rank (request : DeviceIDRequest) : Z :=
  (if dr_wrapped request then 256 else 0) + dr_objectID request.

(** A sequence of segments each of which answers the continuation of the one
    before it, from [first] up to a segment without more-follows. *)
Inductive traversal : DeviceIDRequest -> list DeviceIDSegment -> Prop :=
| traversal_last segment :
    validateDeviceIDSegment segment = None ->
    sg_moreFollows segment = false ->
    traversal (sg_request segment) [segment]
| traversal_more segment next rest :
    sg_moreFollows segment = true ->
    NextDeviceIDRequest segment = Ok next ->
    traversal next rest ->
    traversal (sg_request segment) (segment :: rest).

(** * Lemmas *)

Lemma zlen_objects_bytes_cons o os :
  zlen (objects_bytes (o :: os)) = 2 + zlen (do_Value o) + zlen (objects_bytes os).
Proof. unfold objects_bytes. cbn. zlen_simpl. lia. Qed.

Lemma zlen_objects_bytes_nil : zlen (objects_bytes []) = 0.
Proof. reflexivity. Qed.

Lemma zlen_segment_pdu s :
  zlen (segment_pdu s) = 7 + zlen (objects_bytes (sg_objects s)).
Proof. unfold segment_pdu. by rewrite zlen_app. Qed.

Definition value_bounded (o : DeviceIDObject) : Prop :=
  zlen (do_Value o) <= maxDeviceIDObjectValueBytes.

Section object_loops.

Lemma standard_objects_size request conformity first previous size os :
  standard_objects request conformity first previous size os = None ->
  Forall value_bounded os /\
  (size <= MaxPDUSize -> size + zlen (objects_bytes os) <= MaxPDUSize).
Proof.
  revert first previous size. induction os as [|o os IH]; intros first previous size.
  - intros _. split; [constructor|]. rewrite zlen_objects_bytes_nil. lia.
  - cbn -[objects_bytes]. repeat case_test; try discriminate. intros H.
    apply IH in H as [HF Hs].
    split; [constructor; [unfold value_bounded; lia|done]|].
    rewrite zlen_objects_bytes_cons. lia.
Qed.

Lemma extended_objects_size previous have size seen wrapped os p w :
  extended_objects previous have size seen wrapped os = Ok (p, w) ->
  Forall value_bounded os /\
  (size <= MaxPDUSize -> size + zlen (objects_bytes os) <= MaxPDUSize).
Proof.
  revert previous have size seen wrapped.
  induction os as [|o os IH]; intros previous have size seen wrapped.
  - intros _. split; [constructor|]. rewrite zlen_objects_bytes_nil. lia.
  - cbn -[objects_bytes]. intros H. rewrite zlen_objects_bytes_cons.
    repeat case_test; try discriminate.
    + apply IH in H as [HF Hs].
      split; [constructor; [unfold value_bounded; lia|done]|lia].
    + destruct (advanceExtendedDeviceIDObject _ _ _) as [nw [|]]; [|discriminate].
      apply IH in H as [HF Hs].
      split; [constructor; [unfold value_bounded; lia|done]|lia].
Qed.

End object_loops.

(** The facts a successful segment validation establishes. *)
Lemma validate_segment_facts s :
  validateDeviceIDSegment s = None ->
  sg_decoded s = true /\
  validateDeviceIDRequest (sg_request s) = None /\
  validDeviceIDConformity (sg_conformity s) = true /\
  zlen (sg_objects s) <= 255 /\
  (sg_moreFollows s = false -> sg_nextObjectID s = 0) /\
  (sg_moreFollows s = true -> sg_objects s <> []) /\
  (sg_moreFollows s = true -> dr_extended (sg_request s) = false ->
     sg_nextObjectID s <> 0) /\
  (dr_access (sg_request s) = DeviceIDIndividual -> sg_moreFollows s = false).
Proof.
  unfold validateDeviceIDSegment. intros H.
  case_test; [discriminate|]. bool_hyps.
  case_test; [discriminate|]. case_test; [discriminate|].
  case_test; [discriminate|]. clear H.
  split; [done|]. split; [by apply eq_None_not_Some|]. split; [done|]. split; [lia|].
  bool_hyps. destruct (sg_moreFollows s); cbn [andb negb orb] in *.
  - split; [done|]. split.
    { intros _ E. rewrite E, zlen_nil in *. done. }
    split; [intros _ Hx; rewrite Hx in *; lia|].
    intros Ha. rewrite Ha in *. rewrite orb_true_r in *. done.
  - split; [lia|]. done.
Qed.

Lemma validate_segment_size s :
  validateDeviceIDSegment s = None ->
  Forall value_bounded (sg_objects s) /\ zlen (segment_pdu s) <= MaxPDUSize.
Proof.
  intros H. unfold segment_pdu. rewrite zlen_app.
  cut (Forall value_bounded (sg_objects s) /\
       7 + zlen (objects_bytes (sg_objects s)) <= MaxPDUSize); [done|].
  unfold validateDeviceIDSegment in H.
  do 4 (case_test; [discriminate|]). case_test.
  - unfold validateExtendedDeviceIDProgress in H. case_test; [discriminate|].
    destruct (extended_objects _ _ _ _ _ _) as [[p w]|] eqn:E; [|discriminate].
    apply extended_objects_size in E as [HF Hs]. split; [done|].
    apply Hs. unfold MaxPDUSize; lia.
  - destruct (standard_objects _ _ _ _ _ _) eqn:E; [discriminate|].
    apply standard_objects_size in E as [HF Hs]. split; [done|].
    apply Hs. unfold MaxPDUSize; lia.
Qed.

Lemma drop_split2 {A} `{Inhabited A} (p : list A) k :
  (k + 2 <= length p)%nat ->
  drop k p = (p !!! k) :: (p !!! (k + 1)%nat) :: drop (k + 2) p.
Proof.
  intros Hk. destruct (drop k p) as [|a [|b t]] eqn:E.
  1,2: apply (f_equal length) in E; rewrite length_drop in E; simpl in E; lia.
  rewrite <- drop_drop, E. f_equal.
  - symmetry. apply list_lookup_total_correct.
    rewrite <- (Nat.add_0_r k), <- lookup_drop, E. done.
  - f_equal. symmetry. apply list_lookup_total_correct. rewrite <- lookup_drop, E. done.
Qed.

Lemma decode_objects_sound received pdu count cursor acc os cur :
  Forall u8 pdu -> (cursor <= length pdu)%nat ->
  decode_objects received pdu count cursor acc = Ok (os, cur) ->
  exists os', os = acc ++ os' /\ length os' = count /\
    Forall object_u8 os' /\ (cur <= length pdu)%nat /\
    drop cursor pdu = objects_bytes os' ++ drop cur pdu.
Proof.
  intros HF. revert cursor acc.
  induction count as [|count IH]; intros cursor acc Hc H.
  - cbn in H. simp_res. exists []. rewrite app_nil_r. by repeat split.
  - cbn in H. case_test; [discriminate|]. case_test; [discriminate|]. bool_hyps.
    set (id := pdu !!! cursor) in *. set (len := pdu !!! (cursor + 1)%nat) in *.
    assert (cursor + 2 <= length pdu)%nat as Hc2 by (unfold zlen in *; lia).
    pose proof (drop_split2 pdu cursor Hc2) as Hsplit. fold id len in Hsplit.
    assert (Forall u8 (id :: len :: drop (cursor + 2) pdu)) as HF2
      by (rewrite <- Hsplit; by apply Forall_drop).
    apply Forall_cons in HF2 as [Hid [Hlen HF2]%Forall_cons].
    assert (cursor + 2 + Z.to_nat len <= length pdu)%nat as Hc3
      by (unfold zlen, u8 in *; lia).
    apply IH in H as (os' & -> & <- & Hos & Hcur & Hd); [|done].
    set (v := take (Z.to_nat len) (drop (cursor + 2) pdu)) in *.
    assert (zlen v = len) as Hv.
    { unfold v, zlen. rewrite length_take, length_drop. unfold u8 in *. lia. }
    exists ({| do_ID := id; do_Value := v |} :: os').
    split; [by rewrite <- app_assoc|]. split; [done|].
    split; [constructor; [split; [done|]; by apply Forall_take|done]|].
    split; [done|]. rewrite Hsplit. unfold objects_bytes. cbn. rewrite Hv.
    do 2 f_equal. rewrite <- app_assoc.
    rewrite <- (take_drop (Z.to_nat len) (drop (cursor + 2) pdu)) at 1.
    fold v. f_equal. by rewrite drop_drop.
Qed.

Lemma decode_objects_complete received pdu os cursor acc rest :
  Forall value_bounded os ->
  drop cursor pdu = objects_bytes os ++ rest ->
  (cursor <= length pdu)%nat ->
  decode_objects received pdu (length os) cursor acc =
    Ok (acc ++ os, (cursor + length (objects_bytes os))%nat).
Proof.
  intros HF. revert cursor acc.
  induction HF as [|o os Ho HF IH]; intros cursor acc Hd Hc.
  - cbn. by rewrite app_nil_r, Nat.add_0_r.
  - unfold objects_bytes in Hd. cbn in Hd. fold (objects_bytes os) in Hd.
    pose proof (f_equal length Hd) as Hl. rewrite length_drop in Hl. cbn in Hl.
    rewrite !length_app in Hl.
    rewrite (drop_split2 pdu cursor) in Hd by lia.
    injection Hd as Hid Hlen Hd.
    cbn [decode_objects length]. rewrite Hid, Hlen. unfold value_bounded in Ho.
    test_false (Z.of_nat cursor + 2 >? zlen pdu); [|unfold zlen; lia].
    match goal with |- (if ?b then _ else _) = _ => test_false b end;
      [|unfold zlen in *; bool_goal; lia].
    replace (Z.to_nat (zlen (do_Value o))) with (length (do_Value o))
      by (unfold zlen; lia).
    rewrite Hd. rewrite <- app_assoc, take_app_length.
    destruct o as [id v]; cbn in *.
    rewrite IH; [|rewrite <- drop_drop, Hd, <- app_assoc, drop_app_length; done|lia].
    f_equal. f_equal; [by rewrite <- app_assoc|].
    unfold objects_bytes. cbn. rewrite length_app. lia.
Qed.

Lemma decodeMoreFollows_true v b :
  decodeMoreFollows v = (b, true) -> v = if b then 0xff else 0x00.
Proof.
  unfold decodeMoreFollows. repeat case_test; intros H; simplify_eq; bool_hyps; done.
Qed.

Lemma conformity_u8 c : validDeviceIDConformity c = true -> u8 c.
Proof.
  unfold validDeviceIDConformity, u8. intros H. bool_hyps.
  rewrite !elem_of_cons, elem_of_nil in H. lia.
Qed.

(** An object stream moves its cursor strictly forward. *)
Lemma advance_rank previous next wrapped w :
  u8 previous -> u8 next ->
  advanceExtendedDeviceIDObject previous next wrapped = (w, true) ->
  (if wrapped then 256 else 0) + previous < (if w then 256 else 0) + next.
Proof.
  unfold advanceExtendedDeviceIDObject, u8. intros Hp Hn.
  destruct wrapped; cbn [negb]; rewrite ?andb_false_r, ?andb_true_r;
    repeat case_test; intros H; simplify_eq; bool_hyps; lia.
Qed.

Lemma extended_objects_rank previous have size seen wrapped os p w :
  u8 previous -> Forall object_u8 os ->
  extended_objects previous have size seen wrapped os = Ok (p, w) ->
  u8 p /\ (if wrapped then 256 else 0) + previous <= (if w then 256 else 0) + p.
Proof.
  revert previous have size seen wrapped.
  induction os as [|o os IH]; intros previous have size seen wrapped Hp HF H.
  - cbn in H. simp_res. split; [done|lia].
  - apply Forall_cons in HF as [[Ho _] HF]. cbn in H.
    do 3 (case_test; [discriminate|]). case_test.
    + by apply IH in H.
    + destruct (advanceExtendedDeviceIDObject _ _ _) as [nw [|]] eqn:E; [|discriminate].
      apply advance_rank in E; [|done..]. apply IH in H as [? ?]; [|done..].
      split; [done|lia].
Qed.

Lemma standard_objects_last request conformity first previous size os :
  standard_objects request conformity first previous size os = None -> os <> [] ->
  dr_access request <> DeviceIDIndividual ->
  if first then dr_objectID request <= last_object_id os
  else previous < last_object_id os.
Proof.
  intros H Hne Ha. revert first previous size H Hne.
  induction os as [|o os IH]; intros first previous size H Hne; [done|].
  cbn in H. repeat (case_test; [discriminate|]).
  destruct os as [|o' os].
  - unfold last_object_id. cbn. destruct first; cbn in *; lia.
  - apply IH in H; [|done]. cbn in H |- *. unfold last_object_id in *. cbn in *.
    destruct first; cbn in *; lia.
Qed.

(** The continuation of a validated segment is a valid request of the same
    stream, and its cursor is strictly ahead. *)
Lemma next_request_facts s r :
  segment_u8 s -> u8 (dr_objectID (sg_request s)) ->
  NextDeviceIDRequest s = Ok r ->
  validateDeviceIDSegment s = None /\ validateDeviceIDRequest r = None /\
  dr_extended r = dr_extended (sg_request s) /\
  u8 (dr_objectID r) /\ cursor_rank (sg_request s) < cursor_rank r.
Proof.
  intros (Hc & Hn & HF) Hu. unfold NextDeviceIDRequest.
  destruct (validateDeviceIDSegment s) eqn:Hv; [discriminate|].
  destruct (dr_access (sg_request s) =? DeviceIDIndividual) eqn:Ha; [discriminate|].
  destruct (sg_moreFollows s) eqn:Hm; [|discriminate]. cbn [orb negb].
  pose proof (validate_segment_facts s Hv) as (_ & Hr & _ & _ & _ & Hne & Hn0 & _).
  intros H. split; [done|].
  unfold validateDeviceIDRequest in *. unfold cursor_rank.
  destruct (validDeviceIDAccess _) eqn:Hacc; [|discriminate].
  rewrite Ha in Hr. cbn [negb] in Hr.
  destruct (dr_extended (sg_request s)) eqn:He.
  - destruct (validateExtendedDeviceIDProgress _ _) as [w|] eqn:E; [|discriminate].
    simp_res. cbn. rewrite Hacc, Ha. cbn [negb].
    unfold validateExtendedDeviceIDProgress in E. rewrite Hm in E.
    case_test; [discriminate|].
    destruct (extended_objects _ _ _ _ _ _) as [[p w']|] eqn:E'; [|discriminate].
    apply extended_objects_rank in E' as [Hp Hrank]; [|done..].
    destruct (advanceExtendedDeviceIDObject _ _ _) as [nw [|]] eqn:Eadv; [|discriminate].
    simp_res. apply advance_rank in Eadv; [|done..].
    destruct (dr_access (sg_request s) =? DeviceIDExtended); [|discriminate].
    repeat split; try done; try apply Hn. lia.
  - simp_res. cbn. rewrite Hacc, Ha. cbn [negb].
    rewrite (proj2 (Z.eqb_neq _ _)) by auto.
    split; [done|]. split; [done|]. split; [done|].
    clear Hr. unfold validateDeviceIDSegment in Hv. do 4 (case_test; [discriminate|]).
    rewrite He, Hm in Hv.
    destruct (standard_objects _ _ _ _ _ _) eqn:Eo; [discriminate|].
    apply standard_objects_last in Eo; [|by apply Hne|lia].
    case_test; [discriminate|]. bool_hyps. lia.
Qed.

(** Total value bytes of a list of objects. *)
Definition value_bytes (os : list DeviceIDObject) : Z :=
  foldr (fun o n => zlen (do_Value o) + n) 0 os.

Lemma value_bytes_app a b : value_bytes (a ++ b) = value_bytes a + value_bytes b.
Proof. unfold value_bytes. induction a; cbn; lia. Qed.

Definition object_ids (os : list DeviceIDObject) : list Z := do_ID <$> os.

Record aggregation_ok (limits : DeviceIDLimits) (extended : bool) (st : aggregation)
    : Prop := {
  ao_seen : ag_seen st = list_to_set (object_ids (ag_objects st));
  ao_nodup : NoDup (object_ids (ag_objects st));
  ao_bytes : ag_valueBytes st = value_bytes (ag_objects st);
  ao_objects : zlen (ag_objects st) <= dl_MaxObjects limits;
  ao_values : value_bytes (ag_objects st) <= dl_MaxValueBytes limits;
  ao_previous :
    if ag_havePrevious st
    then Forall (fun id => extended = false -> id <= ag_previous st)
           (object_ids (ag_objects st))
    else ag_objects st = [];
  ao_sorted : extended = false -> StronglySorted Z.lt (object_ids (ag_objects st))
}.

Section aggregation.
Context (limits : DeviceIDLimits) (extended : bool).

Lemma aggregation_start_ok :
  validateDeviceIDLimits limits = None ->
  aggregation_ok limits extended aggregation_start.
Proof.
  unfold validateDeviceIDLimits. case_test; [discriminate|]. intros _.
  split; cbn; rewrite ?zlen_nil; try done; try lia; intros; constructor.
Qed.

(** One accepted object extends the aggregate by exactly that object. *)
Lemma aggregate_object_ok st o wrapped :
  aggregation_ok limits extended st ->
  do_ID o ∉ ag_seen st ->
  (ag_havePrevious st = true -> extended = false -> ag_previous st < do_ID o) ->
  zlen (ag_objects st) <> dl_MaxObjects limits ->
  zlen (do_Value o) <= dl_MaxValueBytes limits - ag_valueBytes st ->
  aggregation_ok limits extended
    {| ag_seen := {[do_ID o]} ∪ ag_seen st;
       ag_objects := ag_objects st ++ [o];
       ag_valueBytes := ag_valueBytes st + zlen (do_Value o);
       ag_previous := do_ID o; ag_havePrevious := true; ag_wrapped := wrapped |}.
Proof.
  intros [Hseen Hnd Hbytes Hobj Hval Hprev Hsort] Hnew Hlt Hlen Hroom.
  assert (Forall (fun id => extended = false -> id < do_ID o)
            (object_ids (ag_objects st))) as Hall.
  { destruct (ag_havePrevious st); [|by rewrite Hprev].
    eapply Forall_impl; [exact Hprev|]. intros id H He. cbn in H.
    specialize (H He). specialize (Hlt eq_refl He). lia. }
  unfold object_ids in *. split; cbn; rewrite ?fmap_app, ?value_bytes_app; cbn.
  - rewrite list_to_set_app_L, Hseen. cbn.
    by rewrite union_empty_r_L, (union_comm_L {[_]}).
  - apply NoDup_app. split; [done|]. split; [|apply NoDup_singleton].
    intros id Hid ->%list_elem_of_singleton. apply Hnew. rewrite Hseen.
    by apply elem_of_list_to_set.
  - lia.
  - zlen_simpl. lia.
  - rewrite Hbytes in Hroom. lia.
  - apply Forall_app. split; [|repeat constructor; lia].
    eapply Forall_impl; [exact Hall|]. cbn. intros; specialize (H H0). lia.
  - intros He. apply StronglySorted_snoc; [by apply Hsort|].
    eapply Forall_impl; [exact Hall|]. auto.
Qed.

Lemma aggregate_objects_ok st os st' :
  aggregation_ok limits extended st ->
  aggregate_objects limits extended st os = Ok st' ->
  aggregation_ok limits extended st' /\ ag_objects st' = ag_objects st ++ os.
Proof.
  revert st. induction os as [|o os IH]; intros st Hst H.
  - cbn in H. simp_res. by rewrite app_nil_r.
  - cbn in H.
    match type of H with (let '(_, _) := ?p in _) = _ => destruct p as [w ok] eqn:Ep end.
    case_test; [discriminate|]. case_test; [discriminate|]. bool_hyps.
    apply IH in H as [Hok E].
    + split; [done|]. rewrite E. cbn. by rewrite <- app_assoc.
    + apply aggregate_object_ok; [done..| |done|lia].
      intros Hhave He. rewrite Hhave, He in Ep. simplify_eq. bool_hyps. lia.
Qed.

Lemma aggregate_segments_ok first conformity st segments c st' :
  aggregation_ok limits extended st -> segments <> [] ->
  aggregate_segments limits extended first conformity st segments = Ok (c, st') ->
  traversal first segments /\ aggregation_ok limits extended st' /\
  ag_objects st' = ag_objects st ++ concat (sg_objects <$> segments) /\
  exists v, c = Some v /\ Forall (fun s => sg_conformity s = v) segments /\
    (forall v', conformity = Some v' -> v = v').
Proof.
  revert first conformity st.
  induction segments as [|s segments IH]; intros first conformity st Hst Hne H; [done|].
  cbn in H. case_test; [discriminate|]. bool_hyps. subst first.
  destruct (validateDeviceIDSegment s) eqn:Hv; [discriminate|].
  destruct (match conformity with Some c => _ | None => _ end) eqn:Hc; [discriminate|].
  destruct (aggregate_objects _ _ _ _) as [st1|] eqn:Ho; [|discriminate].
  apply aggregate_objects_ok in Ho as [Hst1 Eo]; [|done].
  assert (forall v', conformity = Some v' -> sg_conformity s = v') as Hconf.
  { intros v' ->. bool_hyps. done. }
  destruct (sg_moreFollows s) eqn:Hm.
  - case_test; [discriminate|]. bool_hyps.
    destruct (NextDeviceIDRequest s) as [r|] eqn:En; [|discriminate].
    apply IH in H as (Ht & Hok & E & v & -> & HF & Hv'); [|done..].
    rewrite <- (Hv' _ eq_refl) in Hconf.
    split; [by eapply traversal_more|]. split; [done|].
    split; [rewrite E, Eo; cbn; by rewrite <- app_assoc|].
    exists v. split; [done|]. split; [constructor; [by rewrite (Hv' _ eq_refl)|done]|done].
  - case_test; [discriminate|]. bool_hyps. subst. simplify_eq.
    split; [by constructor|]. split; [done|].
    split; [rewrite Eo; cbn; by rewrite app_nil_r|].
    exists (sg_conformity s). split; [done|]. split; [by repeat constructor|done].
Qed.

End aggregation.

Lemma decode_segment_sound request pdu s :
  Forall u8 pdu ->
  DecodeDeviceIDSegment request pdu = Ok s ->
  sg_request s = request /\ validateDeviceIDSegment s = None /\ segment_u8 s /\
  pdu = segment_pdu s.
Proof.
  intros HF.
  unfold DecodeDeviceIDSegment. intros H.
  destruct (validateDeviceIDRequest request); [discriminate|].
  do 2 (case_test; [repeat case_test; discriminate|]).
  do 5 (case_test; [discriminate|]). bool_hyps.
  destruct (decodeMoreFollows _) as [more [|]] eqn:Em; [|discriminate].
  apply decodeMoreFollows_true in Em.
  do 2 (case_test; [discriminate|]).
  destruct (decode_objects _ _ _ _ _) as [[os cur]|] eqn:Eo; [|discriminate].
  case_test; [discriminate|]. bool_hyps.
  destruct (validateDeviceIDSegment _) eqn:Hv; [discriminate|]. simp_res.
  assert (7 <= length pdu)%nat as H7 by (unfold zlen in *; lia).
  apply decode_objects_sound in Eo as (os' & -> & Hcount & Hos & Hcur & Hd); [|done..].
  split; [done|]. split; [done|].
  assert (Forall u8 [pdu !!! 5%nat; pdu !!! 6%nat]) as [Hnext [Hn _]%Forall_cons]%Forall_cons.
  { rewrite (list_split7 pdu) in HF by (unfold zlen; lia).
    apply Forall_app in HF as [HF _]. rewrite !Forall_cons in HF.
    destruct HF as (_ & _ & _ & _ & _ & H5 & H6 & _).
    eauto using Forall_cons_2, Forall_nil_2. }
  split; [split; [by apply conformity_u8|]; by split|].
  rewrite (list_split7 pdu) at 1 by (unfold zlen; lia).
  unfold segment_pdu. cbn. repeat f_equal; try done.
  + unfold zlen. rewrite Hcount. unfold u8 in Hn. lia.
  + rewrite Hd, (drop_ge pdu cur) by (unfold zlen in *; lia). by rewrite app_nil_r.
Qed.

Lemma decode_segment_complete s :
  validateDeviceIDSegment s = None ->
  DecodeDeviceIDSegment (sg_request s) (segment_pdu s) = Ok s.
Proof.
  intros Hv.
  pose proof (validate_segment_facts s Hv) as (Hdec & Hr & Hconf & Hn & Hm0 & Hm1 & Hm2 & _).
  pose proof (validate_segment_size s Hv) as [Hb Hsz].
  assert (7 <= zlen (segment_pdu s)) as H7
    by (rewrite zlen_segment_pdu; pose proof (zlen_nonneg (objects_bytes (sg_objects s))); lia).
  unfold DecodeDeviceIDSegment. rewrite Hr.
  test_false (zlen (segment_pdu s) =? 0).
  change (segment_pdu s !!! 0%nat) with 0x2b.
  change (segment_pdu s !!! 1%nat) with 0x0e.
  change (segment_pdu s !!! 2%nat) with (dr_access (sg_request s)).
  change (segment_pdu s !!! 3%nat) with (sg_conformity s).
  change (segment_pdu s !!! 4%nat) with (if sg_moreFollows s then 0xff else 0x00).
  change (segment_pdu s !!! 5%nat) with (sg_nextObjectID s).
  change (segment_pdu s !!! 6%nat) with (zlen (sg_objects s)).
  test_false ((zlen (segment_pdu s) <? 7) || (zlen (segment_pdu s) >? MaxPDUSize)).
  change (0x2b =? Z.lor FunctionEncapsulatedInterface 0x80) with false.
  change (0x2b =? FunctionEncapsulatedInterface) with true.
  change (0x0e =? deviceIDMEIType) with true.
  rewrite Z.eqb_refl, Hconf. cbn [negb].
  replace (decodeMoreFollows (if sg_moreFollows s then 255 else 0))
    with (sg_moreFollows s, true) by by destruct (sg_moreFollows s).
  else_branch.
  2: { destruct (sg_moreFollows s), (dr_extended (sg_request s)); cbn;
       rewrite ?andb_true_r, ?andb_false_r, ?orb_false_r; bool_goal; auto. }
  else_branch.
  2: { destruct (sg_moreFollows s); cbn -[zlen]; [|done].
       specialize (Hm1 eq_refl). destruct (sg_objects s); [done|].
       zlen_simpl. pose proof (zlen_nonneg l). bool_goal. lia. }
  replace (Z.to_nat (zlen (sg_objects s))) with (length (sg_objects s))
    by (unfold zlen; lia).
  rewrite (decode_objects_complete _ _ (sg_objects s) 7 [] []); [|done| |unfold zlen in *; lia].
  2: { unfold segment_pdu. cbn -[objects_bytes]. by rewrite app_nil_r. }
  test_false (negb (Z.of_nat (7 + length (objects_bytes (sg_objects s))) =? zlen (segment_pdu s))).
  2: { rewrite zlen_segment_pdu. unfold zlen. bool_goal. lia. }
  replace {| sg_request := _ |} with s by (by destruct s; cbn in *; subst).
  by rewrite Hv.
Qed.

(** * Properties *)

(** segment decoding is exact.  A PDU decodes to a segment if and only if
    it is the wire image of that segment and the segment passes validation;
    so decoding loses nothing, invents nothing and never exceeds 253 bytes. *)
Theorem decode_segment_iff request pdu s :
  Forall u8 pdu ->
  DecodeDeviceIDSegment request pdu = Ok s <->
  sg_request s = request /\ validateDeviceIDSegment s = None /\ segment_u8 s /\
  pdu = segment_pdu s.
Proof.
  intros HF. split; [by apply decode_segment_sound|].
  intros (<- & Hv & _ & ->). by apply decode_segment_complete.
Qed.

Definition example_request : DeviceIDRequest :=
  {| dr_access := 1; dr_objectID := 0; dr_continuation := false;
     dr_extended := false; dr_wrapped := false |}.

Definition example_segment (more : bool) (request : DeviceIDRequest)
    (next : Z) (objects : list DeviceIDObject) : DeviceIDSegment :=
  {| sg_request := request; sg_conformity := 0x81; sg_moreFollows := more;
     sg_nextObjectID := next; sg_objects := objects; sg_decoded := true |}.

Lemma decode_segment_iff_witness :
  DecodeDeviceIDSegment example_request [0x2b; 0x0e; 1; 0x81; 0; 0; 1; 0; 2; 65; 66] =
  Ok (example_segment false example_request 0 [{| do_ID := 0; do_Value := [65; 66] |}]).
Proof.
  apply decode_segment_iff; [repeat constructor; lia|].
  split; [reflexivity|]. split; [vm_compute; reflexivity|].
  split; [repeat constructor; cbn; lia|reflexivity].
Defined.

(** every continuation a segment offers is a valid request of the same
    stream whose cursor is strictly ahead, so a chain of continuations from one
    request can have at most 512 segments: traversal terminates. *)
Theorem traversal_terminates first segments :
  traversal first segments ->
  Forall segment_u8 segments -> u8 (dr_objectID first) ->
  zlen segments <= 512 - cursor_rank first.
Proof.
  intros Ht. induction Ht as [s Hv Hm|s next rest Hm Hn Ht IH]; intros HF Hu.
  - cbn. unfold zlen, cursor_rank, u8 in *. cbn. destruct (dr_wrapped _); lia.
  - apply Forall_cons in HF as [Hs HF].
    apply next_request_facts in Hn as (_ & _ & _ & Hu' & Hrank); [|done..].
    specialize (IH HF Hu'). rewrite zlen_cons. lia.
Qed.

Definition example_next : DeviceIDRequest :=
  {| dr_access := 1; dr_objectID := 2; dr_continuation := true;
     dr_extended := false; dr_wrapped := false |}.

Definition example_traversal : list DeviceIDSegment :=
  [ example_segment true example_request 2
      [{| do_ID := 0; do_Value := [86] |}; {| do_ID := 1; do_Value := [80; 49] |}];
    example_segment false example_next 0 [{| do_ID := 2; do_Value := [50] |}] ].

Lemma traversal_terminates_witness : zlen example_traversal <= 512 - cursor_rank example_request.
Proof.
  apply traversal_terminates; [|repeat constructor; cbn; lia|cbn; unfold u8; lia].
  apply (traversal_more (example_segment true example_request 2 _) example_next);
    [reflexivity|vm_compute; reflexivity|].
  apply (traversal_last (example_segment false example_next 0 _));
    vm_compute; reflexivity.
Defined.

(** C39: a published aggregate is exactly a complete traversal.  Its segments
    answer each other's continuations from the first request to one without
    more-follows, under one conformity level; its objects are the objects of
    the segments in order, without repetition, within the three limits; and a
    standard stream lists them in increasing order, the mandatory objects
    0, 1 and 2 among them. *)
Theorem aggregate_complete first segments limits extended res :
  aggregateDeviceID first segments limits extended = Ok res ->
  traversal first segments /\
  dres_Segments res = segments /\
  dres_Objects res = concat (sg_objects <$> segments) /\
  Forall (fun s => sg_conformity s = dres_Conformity res) segments /\
  NoDup (object_ids (dres_Objects res)) /\
  zlen segments <= dl_MaxSegments limits /\
  zlen (dres_Objects res) <= dl_MaxObjects limits /\
  value_bytes (dres_Objects res) <= dl_MaxValueBytes limits /\
  (extended = false ->
     StronglySorted Z.lt (object_ids (dres_Objects res)) /\
     forall id, 0 <= id <= 2 -> id ∈ object_ids (dres_Objects res)).
Proof.
  unfold aggregateDeviceID.
  destruct (validateDeviceIDLimits limits) eqn:Hl; [discriminate|].
  do 2 (case_test; [discriminate|]). bool_hyps.
  destruct (aggregate_segments _ _ _ _ _ _) as [[c st]|] eqn:E; [|discriminate].
  apply aggregate_segments_ok in E as (Ht & Hok & Eo & v & -> & HF & _);
    [|by apply aggregation_start_ok|by intros ->].
  case_test; [discriminate|]. intros Hr; simp_res. cbn in Eo |- *. rewrite <- Eo.
  destruct Hok as [Hseen Hnd Hbytes Hobj Hval Hprev Hsort].
  repeat (split; [first [done|lia]|]). intros ->.
  split; [by apply Hsort|]. cbn [negb andb forallb] in *. bool_hyps.
  intros id Hid. apply (elem_of_list_to_set (C:=gset Z)).
  unfold object_ids in Hseen. rewrite <- Hseen.
  assert (id = 0 \/ id = 1 \/ id = 2) as [-> | [-> | ->]] by lia; done.
Qed.

Definition example_result : DeviceIDResult :=
  {| dres_Conformity := 0x81;
     dres_Objects := [ {| do_ID := 0; do_Value := [86] |};
                       {| do_ID := 1; do_Value := [80; 49] |};
                       {| do_ID := 2; do_Value := [50] |} ];
     dres_Segments := example_traversal |}.

Lemma aggregate_complete_witness :
  aggregateDeviceID example_request example_traversal DefaultDeviceIDLimits false
    = Ok example_result /\
  traversal example_request example_traversal.
Proof.
  assert (aggregateDeviceID example_request example_traversal DefaultDeviceIDLimits false
          = Ok example_result) as H by (vm_compute; reflexivity).
  split; [exact H|].
  exact (proj1 (aggregate_complete _ _ _ _ _ H)).
Defined.
