(* ===== verification/DeviceIdTolerant.v ===== *)
(** Tolerant Device Identification (device_id.go, tolerant part): pages that
    keep every received byte and name their deviations as anomalies, the
    continuation rule that makes a tolerant traversal terminate, and the
    bounded traversal that folds pages into a result. *)

From S2P Require Import Prelude Pdu DeviceId.

(** * Data *)

(** tcp_adu.go; the largest PDU tolerant framing delivers. *)
Definition MaxTolerantPDUSize : Z := 4096.

(** [DeviceIDDecoding] is a Go byte; values other than the two constants are
    rejected by [validDeviceIDDecoding]. *)
Definition DeviceIDDecodingStrict : Z := 0.
Definition DeviceIDDecodingTolerant : Z := 1.

Definition validDeviceIDDecoding (decoding : Z) : bool :=
  (decoding =? DeviceIDDecodingStrict) || (decoding =? DeviceIDDecodingTolerant).

Inductive DeviceIDAnomaly : Type :=
| DeviceIDAnomalyOversizePage
| DeviceIDAnomalyCountOnlyPage
| DeviceIDAnomalyObjectCountMismatch
| DeviceIDAnomalyObjectOutsideCategory
| DeviceIDAnomalyObjectOutsideConformity
| DeviceIDAnomalyReservedObjectID
| DeviceIDAnomalyOversizeObjectValue
| DeviceIDAnomalyObjectOrder
| DeviceIDAnomalyDuplicateObject
| DeviceIDAnomalyTruncatedObject
| DeviceIDAnomalyAccessCodeMismatch
| DeviceIDAnomalyConformityValue
| DeviceIDAnomalyMoreFollowsValue
| DeviceIDAnomalyNextObjectWithoutMoreFollows
| DeviceIDAnomalyMoreFollowsWithoutProgress
| DeviceIDAnomalyConformityChange
| DeviceIDAnomalyMandatoryObjectMissing
| DeviceIDAnomalyContinuationUnavailable
| DeviceIDAnomalyPageLimitReached
| DeviceIDAnomalyAggregateLimitReached.

#[export] Instance DeviceIDAnomaly_eq_dec : EqDecision DeviceIDAnomaly.
Proof. solve_decision. Defined.

Record DeviceIDPage : Type := mkDeviceIDPage {
  pg_Request : DeviceIDRequest;
  pg_PDU : list Z;
  pg_AccessCode : Z;
  pg_Conformity : Z;
  pg_MoreFollowsValue : Z;
  pg_NextObjectID : Z;
  pg_DeclaredObjects : Z;
  pg_Objects : list DeviceIDObject;
  pg_UndecodedOffset : Z;
  pg_Anomalies : list DeviceIDAnomaly
}.

(** [DeviceIDPage{Request: request, PDU: pdu}]. *)
Definition received_page (request : DeviceIDRequest) (pdu : list Z) : DeviceIDPage :=
  {| pg_Request := request; pg_PDU := pdu; pg_AccessCode := 0; pg_Conformity := 0;
     pg_MoreFollowsValue := 0; pg_NextObjectID := 0; pg_DeclaredObjects := 0;
     pg_Objects := []; pg_UndecodedOffset := 0; pg_Anomalies := [] |}.

Definition MoreFollows (page : DeviceIDPage) : bool :=
  negb (pg_MoreFollowsValue page =? 0).

Record DeviceIDTolerantResult : Type := mkDeviceIDTolerantResult {
  tr_Complete : bool;
  tr_Conformity : Z;
  tr_Objects : list DeviceIDObject;
  tr_Pages : list DeviceIDPage;
  tr_Anomalies : list DeviceIDAnomaly
}.

(** * Anomaly sets *)

Fixpoint containsDeviceIDAnomaly (anomalies : list DeviceIDAnomaly)
    (anomaly : DeviceIDAnomaly) : bool :=
  match anomalies with
  | [] => false
  | current :: rest =>
      if bool_decide (current = anomaly) then true
      else containsDeviceIDAnomaly rest anomaly
  end.

(** [deviceIDAnomalySet.add]. *)
Definition add_anomaly (set : list DeviceIDAnomaly) (anomaly : DeviceIDAnomaly)
    : list DeviceIDAnomaly :=
  if containsDeviceIDAnomaly set anomaly then set else set ++ [anomaly].

(** [if condition { anomalies.add(anomaly) }]. *)
Definition add_anomaly_if (condition : bool) (anomaly : DeviceIDAnomaly)
    (set : list DeviceIDAnomaly) : list DeviceIDAnomaly :=
  if condition then add_anomaly set anomaly else set.

(** * Pages *)

Definition deviceIDPageCursorAdvances (last next : Z) (extended : bool) : bool :=
  (next >? last) || (extended && (last =? 0xff) && (next =? 0x00)).

(** One iteration of the object loop on a complete object: the anomalies it
    adds, in the order of the code. *)
Definition object_anomalies (request : DeviceIDRequest) (conformityKnown : bool)
    (conformity objectID valueLength : Z) (seen : gset Z)
    (objects : list DeviceIDObject) (anomalies : list DeviceIDAnomaly)
    : list DeviceIDAnomaly :=
  let anomalies := add_anomaly_if (valueLength >? maxDeviceIDObjectValueBytes)
                     DeviceIDAnomalyOversizeObjectValue anomalies in
  let anomalies := add_anomaly_if (bool_decide (objectID ∈ seen))
                     DeviceIDAnomalyDuplicateObject anomalies in
  let anomalies := add_anomaly_if
                     ((zlen objects >? 0)
                      && negb (deviceIDPageCursorAdvances (last_object_id objects)
                                 objectID (dr_extended request)))
                     DeviceIDAnomalyObjectOrder anomalies in
  let anomalies := add_anomaly_if ((objectID >=? 0x07) && (objectID <? 0x80))
                     DeviceIDAnomalyReservedObjectID anomalies in
  let anomalies := add_anomaly_if
                     (((dr_access request =? DeviceIDIndividual)
                       && negb (objectID =? dr_objectID request))
                      || (negb (dr_access request =? DeviceIDIndividual)
                          && negb (objectAllowedByAccess objectID (dr_access request))))
                     DeviceIDAnomalyObjectOutsideCategory anomalies in
  add_anomaly_if (conformityKnown && negb (objectAllowedByConformity objectID conformity))
    DeviceIDAnomalyObjectOutsideConformity anomalies.

(** The loop [for cursor < len(pdu)].  Every complete object moves the cursor
    by at least two bytes, so [length pdu] iterations are enough; the loop
    returns its final cursor, objects and anomalies. *)
Fixpoint page_objects (fuel : nat) (request : DeviceIDRequest) (conformityKnown : bool)
    (conformity : Z) (pdu : list Z) (cursor : nat) (seen : gset Z)
    (objects : list DeviceIDObject) (anomalies : list DeviceIDAnomaly)
    : nat * list DeviceIDObject * list DeviceIDAnomaly :=
  match fuel with
  | O => (cursor, objects, anomalies)
  | S fuel =>
      if Z.of_nat cursor <? zlen pdu then
        if Z.of_nat cursor + 2 >? zlen pdu then
          (cursor, objects, add_anomaly anomalies DeviceIDAnomalyTruncatedObject)
        else
        let objectID := pdu !!! cursor in
        let valueLength := pdu !!! (cursor + 1)%nat in
        if Z.of_nat cursor + 2 + valueLength >? zlen pdu then
          (cursor, objects, add_anomaly anomalies DeviceIDAnomalyTruncatedObject)
        else
        let value := take (Z.to_nat valueLength) (drop (cursor + 2) pdu) in
        page_objects fuel request conformityKnown conformity pdu
          (cursor + 2 + Z.to_nat valueLength)%nat ({[objectID]} ∪ seen)
          (objects ++ [{| do_ID := objectID; do_Value := value |}])
          (object_anomalies request conformityKnown conformity objectID valueLength
             seen objects anomalies)
      else (cursor, objects, anomalies)
  end.

(** The page returned next to an error holds the received bytes. *)
Definition DecodeDeviceIDPage (request : DeviceIDRequest) (pdu : list Z)
    : DeviceIDPage * option ProtocolError :=
  match validateDeviceIDRequest request with
  | Some err => (received_page zeroDeviceIDRequest [], Some err)
  | None =>
      let page := received_page request pdu in
      if zlen pdu =? 0 then (page, Some (malformedDeviceID 0 "function" 0))
      else
      let received := pdu !!! 0%nat in
      if received =? Z.lor FunctionEncapsulatedInterface 0x80 then
        if negb (zlen pdu =? 2) then
          (page, Some (malformedDeviceID received "exception_length" (zlen pdu)))
        else
          (page, Some (with_exception_code
                   (protocolError ErrorExceptionResponse FunctionEncapsulatedInterface
                      received "exception_code" 1) (pdu !!! 1%nat)))
      else if negb (received =? FunctionEncapsulatedInterface) then
        (page, Some (malformedDeviceID received "function_mismatch" 0))
      else if (zlen pdu <? 7) || (zlen pdu >? MaxTolerantPDUSize) then
        (page, Some (malformedDeviceID received "response_length" (zlen pdu)))
      else if negb (pdu !!! 1%nat =? deviceIDMEIType) then
        (page, Some (malformedDeviceID received "mei_type" 1))
      else
      let accessCode := pdu !!! 2%nat in
      let conformity := pdu !!! 3%nat in
      let moreFollowsValue := pdu !!! 4%nat in
      let nextObjectID := pdu !!! 5%nat in
      let declaredObjects := pdu !!! 6%nat in
      let moreFollows := negb (moreFollowsValue =? 0) in
      let anomalies := add_anomaly_if (zlen pdu >? MaxPDUSize)
                         DeviceIDAnomalyOversizePage [] in
      let anomalies := add_anomaly_if (negb (accessCode =? dr_access request))
                         DeviceIDAnomalyAccessCodeMismatch anomalies in
      let conformityKnown := validDeviceIDConformity conformity in
      let anomalies := add_anomaly_if (negb conformityKnown)
                         DeviceIDAnomalyConformityValue anomalies in
      let anomalies := add_anomaly_if
                         (negb (moreFollowsValue =? 0x00) && negb (moreFollowsValue =? 0xff))
                         DeviceIDAnomalyMoreFollowsValue anomalies in
      let anomalies := add_anomaly_if (negb moreFollows && negb (nextObjectID =? 0))
                         DeviceIDAnomalyNextObjectWithoutMoreFollows anomalies in
      let '(cursor, objects, anomalies) :=
        page_objects (length pdu) request conformityKnown conformity pdu 7 ∅ []
          anomalies in
      let anomalies := add_anomaly_if (negb (declaredObjects =? zlen objects))
                         DeviceIDAnomalyObjectCountMismatch anomalies in
      let anomalies := add_anomaly_if
                         (match objects with
                          | [object] => zlen (do_Value object) =? 1
                          | _ => false
                          end && (declaredObjects >? zlen objects))
                         DeviceIDAnomalyCountOnlyPage anomalies in
      let anomalies := add_anomaly_if
                         (moreFollows
                          && ((zlen objects =? 0)
                              || negb (deviceIDPageCursorAdvances (last_object_id objects)
                                         nextObjectID (dr_extended request))))
                         DeviceIDAnomalyMoreFollowsWithoutProgress anomalies in
      ({| pg_Request := request; pg_PDU := pdu; pg_AccessCode := accessCode;
          pg_Conformity := conformity; pg_MoreFollowsValue := moreFollowsValue;
          pg_NextObjectID := nextObjectID; pg_DeclaredObjects := declaredObjects;
          pg_Objects := objects; pg_UndecodedOffset := Z.of_nat cursor;
          pg_Anomalies := anomalies |}, None)
  end.

(** [nextDeviceIDPageRequest], the continuation of a decoded page. *)
Definition nextDeviceIDPageRequest (page : DeviceIDPage) : presult DeviceIDRequest :=
  let request := pg_Request page in
  if (dr_access request =? DeviceIDIndividual) || negb (MoreFollows page) then
    Err (invalidDeviceID "continuation_unavailable" (-1))
  else
  let next wrapped :=
    {| dr_access := dr_access request; dr_objectID := pg_NextObjectID page;
       dr_continuation := true; dr_extended := dr_extended request;
       dr_wrapped := wrapped |} in
  let choice :=
    if pg_NextObjectID page >? dr_objectID request then
      Some (next (dr_wrapped request))
    else if dr_extended request && negb (dr_wrapped request)
            && (pg_NextObjectID page <? dr_objectID request) then
      Some (next true)
    else None in
  match choice with
  | None => Err (malformedDeviceID 0 "next_object_id" 5)
  | Some next =>
      match validateDeviceIDRequest next with
      | Some err => Err err
      | None => Ok next
      end
  end.

(** The exported variant decodes the received bytes again. *)
Definition NextDeviceIDPageRequest (page : DeviceIDPage) : presult DeviceIDRequest :=
  match DecodeDeviceIDPage (pg_Request page) (pg_PDU page) with
  | (_, Some err) => Err err
  | (decoded, None) => nextDeviceIDPageRequest decoded
  end.

(** * Traversal *)

Record deviceIDTolerantTraversal : Type := mkDeviceIDTolerantTraversal {
  tt_limits : DeviceIDLimits;
  tt_expected : DeviceIDRequest;
  tt_result : DeviceIDTolerantResult;
  tt_anomalies : list DeviceIDAnomaly;
  tt_seen : gset Z;
  tt_valueBytes : Z;
  tt_closed : bool
}.

Definition newDeviceIDTolerantTraversal (firstRequest : DeviceIDRequest)
    (limits : DeviceIDLimits) : presult deviceIDTolerantTraversal :=
  match validateDeviceIDLimits limits with
  | Some err => Err err
  | None =>
      if bool_decide (is_Some (validateDeviceIDRequest firstRequest))
         || dr_continuation firstRequest || dr_wrapped firstRequest then
        Err (invalidDeviceID "initial_cursor" 3)
      else
        Ok {| tt_limits := limits; tt_expected := firstRequest;
              tt_result := {| tr_Complete := false; tr_Conformity := 0;
                              tr_Objects := []; tr_Pages := []; tr_Anomalies := [] |};
              tt_anomalies := []; tt_seen := ∅; tt_valueBytes := 0;
              tt_closed := false |}
  end.

(** [traversal.close(complete)]; the traversal holds at least one page. *)
Definition close_traversal (t : deviceIDTolerantTraversal) (complete : bool)
    : deviceIDTolerantTraversal :=
  let result := tt_result t in
  let first := default zeroDeviceIDRequest (pg_Request <$> head (tr_Pages result)) in
  {| tt_limits := tt_limits t; tt_expected := tt_expected t;
     tt_result := {| tr_Complete := complete; tr_Conformity := tr_Conformity result;
                     tr_Objects := tr_Objects result; tr_Pages := tr_Pages result;
                     tr_Anomalies := tr_Anomalies result |};
     tt_anomalies :=
       add_anomaly_if
         (negb (dr_extended first) && negb (dr_access first =? DeviceIDIndividual)
          && negb (forallb (fun id => bool_decide (id ∈ tt_seen t)) [0; 1; 2]))
         DeviceIDAnomalyMandatoryObjectMissing (tt_anomalies t);
     tt_seen := tt_seen t; tt_valueBytes := tt_valueBytes t; tt_closed := true |}.

Definition with_anomaly (t : deviceIDTolerantTraversal) (anomaly : DeviceIDAnomaly)
    : deviceIDTolerantTraversal :=
  {| tt_limits := tt_limits t; tt_expected := tt_expected t; tt_result := tt_result t;
     tt_anomalies := add_anomaly (tt_anomalies t) anomaly; tt_seen := tt_seen t;
     tt_valueBytes := tt_valueBytes t; tt_closed := tt_closed t |}.

(** Recording one object: the [seen] set, the byte count and the objects. *)
Definition with_object (t : deviceIDTolerantTraversal) (object : DeviceIDObject)
    : deviceIDTolerantTraversal :=
  let result := tt_result t in
  {| tt_limits := tt_limits t; tt_expected := tt_expected t;
     tt_result := {| tr_Complete := tr_Complete result;
                     tr_Conformity := tr_Conformity result;
                     tr_Objects := tr_Objects result ++ [object];
                     tr_Pages := tr_Pages result;
                     tr_Anomalies := tr_Anomalies result |};
     tt_anomalies := tt_anomalies t; tt_seen := {[do_ID object]} ∪ tt_seen t;
     tt_valueBytes := tt_valueBytes t + zlen (do_Value object);
     tt_closed := tt_closed t |}.

(** The object loop of [add]; the boolean is false when a limit closed the
    traversal and [add] returned early. *)
Fixpoint add_objects (t : deviceIDTolerantTraversal) (objects : list DeviceIDObject)
    : deviceIDTolerantTraversal * bool :=
  match objects with
  | [] => (t, true)
  | object :: rest =>
      if bool_decide (do_ID object ∈ tt_seen t) then
        add_objects (with_anomaly t DeviceIDAnomalyDuplicateObject) rest
      else if (zlen (tr_Objects (tt_result t)) =? dl_MaxObjects (tt_limits t))
              || (zlen (do_Value object) >?
                    dl_MaxValueBytes (tt_limits t) - tt_valueBytes t) then
        (close_traversal (with_anomaly t DeviceIDAnomalyAggregateLimitReached) false,
         false)
      else add_objects (with_object t object) rest
  end.

(** The page bookkeeping of [add]: conformity, page list, page anomalies. *)
Definition with_page (t : deviceIDTolerantTraversal) (decoded : DeviceIDPage)
    : deviceIDTolerantTraversal :=
  let result := tt_result t in
  let first := zlen (tr_Pages result) =? 0 in
  let anomalies :=
    add_anomaly_if (negb first && negb (pg_Conformity decoded =? tr_Conformity result))
      DeviceIDAnomalyConformityChange (tt_anomalies t) in
  {| tt_limits := tt_limits t; tt_expected := tt_expected t;
     tt_result := {| tr_Complete := tr_Complete result;
                     tr_Conformity := if first then pg_Conformity decoded
                                      else tr_Conformity result;
                     tr_Objects := tr_Objects result;
                     tr_Pages := tr_Pages result ++ [decoded];
                     tr_Anomalies := tr_Anomalies result |};
     tt_anomalies := foldl add_anomaly anomalies (pg_Anomalies decoded);
     tt_seen := tt_seen t; tt_valueBytes := tt_valueBytes t;
     tt_closed := tt_closed t |}.

Definition with_expected (t : deviceIDTolerantTraversal) (next : DeviceIDRequest)
    : deviceIDTolerantTraversal :=
  {| tt_limits := tt_limits t; tt_expected := next; tt_result := tt_result t;
     tt_anomalies := tt_anomalies t; tt_seen := tt_seen t;
     tt_valueBytes := tt_valueBytes t; tt_closed := tt_closed t |}.

(** [traversal.add(page)]; an error leaves the traversal as it was. *)
Definition add_page (t : deviceIDTolerantTraversal) (page : DeviceIDPage)
    : presult deviceIDTolerantTraversal :=
  if tt_closed t then Err (malformedDeviceID 0 "trailing_segment" (-1))
  else if negb (bool_decide (pg_Request page = tt_expected t)) then
    Err (malformedDeviceID 0 "continuation_request" (-1))
  else
  match DecodeDeviceIDPage (pg_Request page) (pg_PDU page) with
  | (_, Some err) => Err err
  | (decoded, None) =>
      match add_objects (with_page t decoded) (pg_Objects decoded) with
      | (t, false) => Ok t
      | (t, true) =>
          if negb (MoreFollows decoded) then Ok (close_traversal t true)
          else
          match nextDeviceIDPageRequest decoded with
          | Err _ =>
              Ok (close_traversal
                    (with_anomaly t DeviceIDAnomalyContinuationUnavailable) false)
          | Ok next =>
              if zlen (tr_Pages (tt_result t)) =? dl_MaxSegments (tt_limits t) then
                Ok (close_traversal
                      (with_anomaly t DeviceIDAnomalyPageLimitReached) false)
              else Ok (with_expected t next)
          end
      end
  end.

Definition finish_traversal (t : deviceIDTolerantTraversal)
    : presult DeviceIDTolerantResult :=
  if negb (tt_closed t) then Err (malformedDeviceID 0 "missing_continuation" (-1))
  else
    let result := tt_result t in
    Ok {| tr_Complete := tr_Complete result; tr_Conformity := tr_Conformity result;
          tr_Objects := tr_Objects result; tr_Pages := tr_Pages result;
          tr_Anomalies := tt_anomalies t |}.

Fixpoint add_pages (t : deviceIDTolerantTraversal) (pages : list DeviceIDPage)
    : presult deviceIDTolerantTraversal :=
  match pages with
  | [] => Ok t
  | page :: rest =>
      match add_page t page with
      | Err err => Err err
      | Ok t => add_pages t rest
      end
  end.

Definition AggregateTolerantDeviceID (firstRequest : DeviceIDRequest)
    (pages : list DeviceIDPage) (limits : DeviceIDLimits)
    : presult DeviceIDTolerantResult :=
  match newDeviceIDTolerantTraversal firstRequest limits with
  | Err err => Err err
  | Ok traversal =>
      if (zlen pages =? 0) || (zlen pages >? dl_MaxSegments limits) then
        Err (malformedDeviceID 0 "segment_count" (-1))
      else
      match add_pages traversal pages with
      | Err err => Err err
      | Ok traversal => finish_traversal traversal
      end
  end.

(** * Lemmas on anomaly sets *)

Lemma containsDeviceIDAnomaly_spec set a :
  containsDeviceIDAnomaly set a = bool_decide (a ∈ set).
Proof.
  induction set as [|b set IH]; cbn.
  - rewrite bool_decide_eq_false_2; [done|]. apply not_elem_of_nil.
  - case_test; bool_hyps.
    + subst. symmetry. apply bool_decide_eq_true_2. by left.
    + rewrite IH. apply bool_decide_ext. rewrite elem_of_cons.
      split; [by right|]. by intros [-> | ?].
Qed.

Lemma add_anomaly_elem set a b : b ∈ add_anomaly set a <-> b ∈ set \/ b = a.
Proof.
  unfold add_anomaly. rewrite containsDeviceIDAnomaly_spec. case_test; bool_hyps.
  - split; [by left|]. by intros [? | ->].
  - by rewrite elem_of_app, list_elem_of_singleton.
Qed.

Lemma add_anomaly_nodup set a : NoDup set -> NoDup (add_anomaly set a).
Proof.
  unfold add_anomaly. rewrite containsDeviceIDAnomaly_spec. case_test; [done|].
  intros H. bool_hyps. apply NoDup_app. split; [done|]. split; [|apply NoDup_singleton].
  by intros b Hb ->%list_elem_of_singleton.
Qed.

Lemma add_anomaly_if_elem c a set b :
  b ∈ add_anomaly_if c a set <-> b ∈ set \/ (c = true /\ b = a).
Proof.
  unfold add_anomaly_if. destruct c; [rewrite add_anomaly_elem|]; intuition congruence.
Qed.

Lemma add_anomaly_if_nodup c a set : NoDup set -> NoDup (add_anomaly_if c a set).
Proof. unfold add_anomaly_if. destruct c; [apply add_anomaly_nodup|done]. Qed.

Lemma add_anomaly_if_false a set : add_anomaly_if false a set = set.
Proof. done. Qed.

#[export] Hint Resolve add_anomaly_nodup add_anomaly_if_nodup : modbus.

(** * Lemmas on pages *)

Lemma page_objects_spec fuel request known conformity pdu cursor seen acc an cur os an' :
  Forall u8 pdu -> (length pdu <= cursor + fuel)%nat -> (cursor <= length pdu)%nat ->
  page_objects fuel request known conformity pdu cursor seen acc an = (cur, os, an') ->
  exists os', os = acc ++ os' /\ drop cursor pdu = objects_bytes os' ++ drop cur pdu /\
    (cur <= length pdu)%nat /\
    (cur = length pdu \/ DeviceIDAnomalyTruncatedObject ∈ an').
Proof.
  intros HF. revert cursor seen acc an.
  induction fuel as [|fuel IH]; intros cursor seen acc an Hf Hc H; cbn in H.
  { simplify_eq. exists []. rewrite app_nil_r. repeat split; [done|]. left; lia. }
  case_test; [|simplify_eq; bool_hyps; exists []; rewrite app_nil_r;
               repeat split; [done|]; left; unfold zlen in *; lia].
  assert (forall t, page_objects 0 request known conformity pdu cursor seen acc
                      (add_anomaly an DeviceIDAnomalyTruncatedObject) = t ->
          t = (cur, os, an') ->
          exists os', os = acc ++ os' /\ drop cursor pdu = objects_bytes os' ++ drop cur pdu /\
            (cur <= length pdu)%nat /\
            (cur = length pdu \/ DeviceIDAnomalyTruncatedObject ∈ an')) as Hstop.
  { intros t <- Ht. cbn in Ht. simplify_eq. exists []. rewrite app_nil_r.
    repeat split; [done|]. right. apply add_anomaly_elem. by right. }
  case_test; [by eapply Hstop|]. case_test; [by eapply Hstop|]. clear Hstop. bool_hyps.
  assert (cursor + 2 <= length pdu)%nat as Hc2 by (unfold zlen in *; lia).
  pose proof (drop_split2 pdu cursor Hc2) as Hsplit.
  set (id := pdu !!! cursor) in *. set (len := pdu !!! (cursor + 1)%nat) in *.
  assert (u8 len) as Hlen.
  { apply (Forall_lookup_1 u8 pdu (cursor + 1)); [done|].
    apply list_lookup_lookup_total_lt. lia. }
  assert (cursor + 2 + Z.to_nat len <= length pdu)%nat as Hc3
    by (unfold zlen, u8 in *; lia).
  apply IH in H as (os' & -> & Hd & Hcur & Hend); [|lia..].
  set (v := take (Z.to_nat len) (drop (cursor + 2) pdu)) in *.
  exists ({| do_ID := id; do_Value := v |} :: os').
  split; [by rewrite <- app_assoc|]. split; [|done].
  rewrite Hsplit. unfold objects_bytes. cbn.
  assert (zlen v = len) as ->.
  { unfold v, zlen. rewrite length_take, length_drop. unfold u8 in *. lia. }
  do 2 f_equal. rewrite <- app_assoc.
  rewrite <- (take_drop (Z.to_nat len) (drop (cursor + 2) pdu)) at 1.
  fold v. f_equal. by rewrite drop_drop.
Qed.

(** What one accepted iteration of the strict object loop established. *)
Lemma standard_objects_cons request conformity first previous size o os :
  standard_objects request conformity first previous size (o :: os) = None ->
  zlen (do_Value o) <= maxDeviceIDObjectValueBytes /\
  (first = false -> previous < do_ID o) /\
  (do_ID o >=? 0x07) && (do_ID o <? 0x80) = false /\
  (dr_access request <> DeviceIDIndividual ->
     objectAllowedByAccess (do_ID o) (dr_access request) = true) /\
  objectAllowedByConformity (do_ID o) conformity = true /\
  standard_objects request conformity false (do_ID o)
    (size + (2 + zlen (do_Value o))) os = None.
Proof.
  cbn. do 3 (case_test; [discriminate|]).
  destruct (_ && (do_ID o <? 128)) eqn:Er; [discriminate|].
  case_test; [discriminate|]. destruct (objectAllowedByConformity _ _); [|discriminate].
  cbn [negb]. intros Hs. split; [lia|].
  split; [intros ->; cbn in *; lia|]. split; [done|]. split; [|done].
  intros Ha. rewrite (proj2 (Z.eqb_neq _ _) Ha) in *. cbn in *. bool_hyps. done.
Qed.

Section standard_objects.
Context (request : DeviceIDRequest) (conformity : Z).

(** The tolerant loop is at the same point as the strict one. *)
Definition loop_agrees (first : bool) (previous : Z) (seen : gset Z)
    (acc : list DeviceIDObject) : Prop :=
  if first then seen = ∅ /\ acc = []
  else (forall id, id ∈ seen -> id <= previous) /\ last_object_id acc = previous.

Lemma standard_object_no_anomaly first previous seen acc o :
  loop_agrees first previous seen acc ->
  zlen (do_Value o) <= maxDeviceIDObjectValueBytes ->
  (first = false -> previous < do_ID o) ->
  (do_ID o >=? 0x07) && (do_ID o <? 0x80) = false ->
  (dr_access request <> DeviceIDIndividual ->
     objectAllowedByAccess (do_ID o) (dr_access request) = true) ->
  (dr_access request = DeviceIDIndividual -> do_ID o = dr_objectID request) ->
  objectAllowedByConformity (do_ID o) conformity = true ->
  object_anomalies request true conformity (do_ID o) (zlen (do_Value o)) seen acc [] = [].
Proof.
  intros Hst Hv Hlt Hres Hacc Hind Hconf. unfold object_anomalies.
  test_false (zlen (do_Value o) >? maxDeviceIDObjectValueBytes).
  rewrite bool_decide_eq_false_2.
  2: { destruct first; [by destruct Hst as [-> _]|].
       intros Hin%(proj1 Hst). specialize (Hlt eq_refl). lia. }
  replace ((zlen acc >? 0) && _) with false.
  2: { symmetry. destruct first; [by destruct Hst as [_ ->]|].
       destruct Hst as [_ Hlast]. rewrite Hlast. unfold deviceIDPageCursorAdvances.
       specialize (Hlt eq_refl). test_true (do_ID o >? previous). apply andb_false_r. }
  rewrite Hres, Hconf, !add_anomaly_if_false.
  destruct (dr_access request =? DeviceIDIndividual) eqn:Ea; bool_hyps; cbn.
  - rewrite (Hind Ea), Z.eqb_refl. done.
  - rewrite (Hacc Ea). done.
Qed.

(** Objects the strict loop accepts raise no anomaly in the tolerant loop. *)
Lemma page_objects_standard os first previous size fuel pdu cursor seen acc :
  standard_objects request conformity first previous size os = None ->
  (dr_access request = DeviceIDIndividual ->
     Forall (fun o => do_ID o = dr_objectID request) os) ->
  loop_agrees first previous seen acc ->
  drop cursor pdu = objects_bytes os -> (cursor <= length pdu)%nat ->
  (length pdu <= cursor + fuel)%nat ->
  page_objects fuel request true conformity pdu cursor seen acc [] =
    (length pdu, acc ++ os, []).
Proof.
  revert first previous size fuel cursor seen acc.
  induction os as [|o os IH];
    intros first previous size fuel cursor seen acc Hs Hind Hst Hd Hc Hf.
  - assert (cursor = length pdu) as ->.
    { apply (f_equal length) in Hd. rewrite length_drop in Hd. cbn in Hd. lia. }
    rewrite app_nil_r. destruct fuel; [done|]. cbn.
    test_false (Z.of_nat (length pdu) <? zlen pdu); [done|unfold zlen; lia].
  - apply standard_objects_cons in Hs as (Hv & Hlt & Hres & Hacc & Hconf & Hs).
    unfold objects_bytes in Hd. cbn in Hd. fold (objects_bytes os) in Hd.
    pose proof (f_equal length Hd) as Hl. rewrite length_drop in Hl. cbn in Hl.
    rewrite length_app in Hl.
    rewrite (drop_split2 pdu cursor) in Hd by lia. injection Hd as Hid Hlen Hd.
    destruct fuel as [|fuel]; [lia|]. cbn [page_objects]. rewrite Hid, Hlen.
    test_true (Z.of_nat cursor <? zlen pdu); [|unfold zlen; lia].
    test_false (Z.of_nat cursor + 2 >? zlen pdu); [|unfold zlen; lia].
    else_branch; [|unfold zlen; bool_goal; lia].
    rewrite (standard_object_no_anomaly first previous); try done.
    2: { intros Ha. by apply Hind, Forall_cons in Ha as [? _]. }
    replace (Z.to_nat (zlen (do_Value o))) with (length (do_Value o))
      by (unfold zlen; lia).
    rewrite Hd, take_app_length. destruct o as [id v]; cbn in *.
    rewrite (IH false id (size + (2 + zlen v))); try done; try lia.
    + by rewrite <- app_assoc.
    + intros Ha. by apply Hind, Forall_cons in Ha as [_ ?].
    + split; [|unfold last_object_id; by rewrite last_snoc].
      intros x [->%elem_of_singleton | Hx]%elem_of_union; [done|].
      destruct first; [by destruct Hst as [-> _]|].
      apply (proj1 Hst) in Hx. specialize (Hlt eq_refl). lia.
    + by rewrite <- drop_drop, Hd, drop_app_length.
Qed.

End standard_objects.

(** The decoded page of a received PDU, once its seven header bytes are right. *)
Lemma decode_page_ok request pdu page :
  DecodeDeviceIDPage request pdu = (page, None) ->
  exists cursor objects an0 an1,
    validateDeviceIDRequest request = None /\ 7 <= zlen pdu /\
    pdu !!! 0%nat = 0x2b /\ pdu !!! 1%nat = 0x0e /\
    page_objects (length pdu) request (validDeviceIDConformity (pdu !!! 3%nat))
      (pdu !!! 3%nat) pdu 7 ∅ [] an0 = (cursor, objects, an1) /\
    (forall a, a ∈ an1 -> a ∈ pg_Anomalies page) /\
    pg_Request page = request /\ pg_PDU page = pdu /\
    pg_AccessCode page = pdu !!! 2%nat /\ pg_Conformity page = pdu !!! 3%nat /\
    pg_MoreFollowsValue page = pdu !!! 4%nat /\ pg_NextObjectID page = pdu !!! 5%nat /\
    pg_DeclaredObjects page = pdu !!! 6%nat /\ pg_Objects page = objects /\
    pg_UndecodedOffset page = Z.of_nat cursor.
Proof.
  unfold DecodeDeviceIDPage.
  destruct (validateDeviceIDRequest request); [discriminate|].
  do 2 (case_test; [repeat case_test; discriminate|]).
  do 3 (case_test; [discriminate|]). bool_hyps.
  destruct (page_objects _ _ _ _ _ _ _ _ _) as [[cursor objects] an1] eqn:E.
  intros [= <-]. do 4 eexists.
  split; [done|]. split; [done|]. split; [done|]. split; [done|].
  split; [exact E|]. cbn.
  split; [intros a Ha; rewrite !add_anomaly_if_elem; by do 3 left|].
  by repeat split.
Qed.

(** The standard part of a segment's validation. *)
Lemma validate_segment_standard s :
  validateDeviceIDSegment s = None -> dr_extended (sg_request s) = false ->
  standard_objects (sg_request s) (sg_conformity s) true 0 7 (sg_objects s) = None /\
  (sg_moreFollows s = true -> last_object_id (sg_objects s) < sg_nextObjectID s) /\
  (dr_access (sg_request s) = DeviceIDIndividual ->
     Forall (fun o => do_ID o = dr_objectID (sg_request s)) (sg_objects s)).
Proof.
  intros Hv He. unfold validateDeviceIDSegment in Hv.
  do 3 (case_test; [discriminate|]).
  destruct ((dr_access (sg_request s) =? DeviceIDIndividual) && _) eqn:Ei; [discriminate|].
  rewrite He in Hv.
  destruct (standard_objects _ _ _ _ _ _); [discriminate|]. split; [done|]. split.
  - intros Hm. rewrite Hm in Hv. case_test; [discriminate|]. bool_hyps. lia.
  - intros Ha. rewrite Ha, Z.eqb_refl in Ei. cbn in Ei. bool_hyps.
    destruct (sg_objects s) as [|o [|? os]]; cbn in *.
    + done.
    + simplify_eq. by repeat constructor.
    + unfold zlen in *. cbn in *. lia.
Qed.

(** The tolerant page of a strictly valid standard segment. *)
Lemma segment_page s :
  validateDeviceIDSegment s = None -> dr_extended (sg_request s) = false ->
  DecodeDeviceIDPage (sg_request s) (segment_pdu s) =
    ({| pg_Request := sg_request s; pg_PDU := segment_pdu s;
        pg_AccessCode := dr_access (sg_request s);
        pg_Conformity := sg_conformity s;
        pg_MoreFollowsValue := if sg_moreFollows s then 0xff else 0x00;
        pg_NextObjectID := sg_nextObjectID s;
        pg_DeclaredObjects := zlen (sg_objects s);
        pg_Objects := sg_objects s; pg_UndecodedOffset := zlen (segment_pdu s);
        pg_Anomalies := [] |}, None).
Proof.
  intros Hv He.
  pose proof (validate_segment_facts s Hv) as (_ & Hr & Hconf & Hn & Hm0 & Hm1 & _).
  pose proof (validate_segment_size s Hv) as [_ Hsz].
  pose proof (validate_segment_standard s Hv He) as (Hstd & Hnext & Hind).
  assert (7 <= zlen (segment_pdu s)) as H7
    by (rewrite zlen_segment_pdu; pose proof (zlen_nonneg (objects_bytes (sg_objects s))); lia).
  unfold MaxPDUSize in Hsz. unfold DecodeDeviceIDPage. rewrite Hr.
  test_false (zlen (segment_pdu s) =? 0).
  change (segment_pdu s !!! 0%nat) with 0x2b.
  change (segment_pdu s !!! 1%nat) with 0x0e.
  change (segment_pdu s !!! 2%nat) with (dr_access (sg_request s)).
  change (segment_pdu s !!! 3%nat) with (sg_conformity s).
  change (segment_pdu s !!! 4%nat) with (if sg_moreFollows s then 0xff else 0x00).
  change (segment_pdu s !!! 5%nat) with (sg_nextObjectID s).
  change (segment_pdu s !!! 6%nat) with (zlen (sg_objects s)).
  change (0x2b =? Z.lor FunctionEncapsulatedInterface 0x80) with false.
  change (0x2b =? FunctionEncapsulatedInterface) with true.
  change (0x0e =? deviceIDMEIType) with true.
  unfold MaxTolerantPDUSize, MaxPDUSize.
  test_false ((zlen (segment_pdu s) <? 7) || (zlen (segment_pdu s) >? 4096)).
  test_false (zlen (segment_pdu s) >? 253).
  rewrite !Z.eqb_refl, Hconf. cbn [negb].
  replace (negb ((if sg_moreFollows s then 255 else 0) =? 0)) with (sg_moreFollows s)
    by by destruct (sg_moreFollows s).
  replace (sg_moreFollows s && negb ((if sg_moreFollows s then 255 else 0) =? 255))
    with false by by destruct (sg_moreFollows s).
  replace (negb (sg_moreFollows s) && negb (sg_nextObjectID s =? 0)) with false.
  2: { destruct (sg_moreFollows s); [done|]. by rewrite Hm0. }
  rewrite !add_anomaly_if_false.
  rewrite (page_objects_standard (sg_request s) (sg_conformity s) (sg_objects s) true 0 7);
    try done; try (unfold zlen in H7; lia).
  cbn [app]. rewrite Z.eqb_refl. cbn [negb]. rewrite add_anomaly_if_false.
  replace (_ && (zlen (sg_objects s) >? zlen (sg_objects s))) with false
    by (test_false (zlen (sg_objects s) >? zlen (sg_objects s)); by rewrite andb_false_r).
  replace (sg_moreFollows s && _) with false; [done|].
  destruct (sg_moreFollows s); [|done]. cbn.
  specialize (Hm1 eq_refl). specialize (Hnext eq_refl).
  unfold deviceIDPageCursorAdvances.
  test_true (sg_nextObjectID s >? last_object_id (sg_objects s)).
  destruct (sg_objects s) as [|o os]; [done|]. pose proof (zlen_nonneg os).
  test_false (zlen (o :: os) =? 0). done.
Qed.

Lemma next_page_request_rank page next :
  nextDeviceIDPageRequest page = Ok next ->
  u8 (dr_objectID (pg_Request page)) -> u8 (pg_NextObjectID page) ->
  cursor_rank (pg_Request page) < cursor_rank next /\ u8 (dr_objectID next) /\
  validateDeviceIDRequest next = None.
Proof.
  unfold nextDeviceIDPageRequest, cursor_rank, u8. intros H Hr Hn.
  case_test; [discriminate|].
  destruct (pg_NextObjectID page >? dr_objectID (pg_Request page)) eqn:Eg.
  - destruct (validateDeviceIDRequest _) eqn:Ev; [discriminate|]. simp_res. cbn in *.
    repeat split; [lia..|]. done.
  - destruct (_ && (pg_NextObjectID page <? _)) eqn:Ew; [|discriminate].
    destruct (validateDeviceIDRequest _) eqn:Ev; [discriminate|]. simp_res. cbn in *.
    bool_hyps. destruct (dr_wrapped (pg_Request page)); [done|].
    repeat split; [lia..|]. done.
Qed.

(** * Lemmas on traversals *)

Definition traversal_ids (t : deviceIDTolerantTraversal) : list Z :=
  object_ids (tr_Objects (tt_result t)).

(** What holds of a traversal in every state [add] reaches. *)
Record traversal_ok (t : deviceIDTolerantTraversal) : Prop := {
  to_seen : tt_seen t = list_to_set (traversal_ids t);
  to_nodup : NoDup (traversal_ids t);
  to_bytes : tt_valueBytes t = value_bytes (tr_Objects (tt_result t));
  to_objects : zlen (tr_Objects (tt_result t)) <= dl_MaxObjects (tt_limits t);
  to_values : value_bytes (tr_Objects (tt_result t)) <= dl_MaxValueBytes (tt_limits t);
  to_anomalies : NoDup (tt_anomalies t)
}.

Lemma new_traversal_ok first limits t :
  newDeviceIDTolerantTraversal first limits = Ok t ->
  traversal_ok t /\ tt_limits t = limits /\ tt_expected t = first /\
  tt_closed t = false /\ tr_Pages (tt_result t) = [] /\
  validateDeviceIDLimits limits = None.
Proof.
  unfold newDeviceIDTolerantTraversal.
  destruct (validateDeviceIDLimits limits) eqn:Hl; [discriminate|].
  case_test; [discriminate|]. intros H; simp_res.
  unfold validateDeviceIDLimits in Hl. case_test; [discriminate|].
  split; [|done].
  split; unfold traversal_ids; cbn; rewrite ?zlen_nil; try done; try lia; constructor.
Qed.

Lemma with_anomaly_ok t a : traversal_ok t -> traversal_ok (with_anomaly t a).
Proof. intros []. split; cbn; auto with modbus. Qed.

Lemma close_traversal_ok t c : traversal_ok t -> traversal_ok (close_traversal t c).
Proof. intros []. split; cbn; auto with modbus. Qed.

Lemma foldl_add_anomaly_nodup set l : NoDup set -> NoDup (foldl add_anomaly set l).
Proof. revert set. induction l; cbn; auto with modbus. Qed.

Lemma with_page_ok t p : traversal_ok t -> traversal_ok (with_page t p).
Proof.
  intros []. split; cbn; auto. apply foldl_add_anomaly_nodup. auto with modbus.
Qed.

Lemma with_expected_ok t r : traversal_ok t -> traversal_ok (with_expected t r).
Proof. intros []. by split. Qed.

Lemma with_object_ok t o :
  traversal_ok t -> do_ID o ∉ tt_seen t ->
  zlen (tr_Objects (tt_result t)) <> dl_MaxObjects (tt_limits t) ->
  zlen (do_Value o) <= dl_MaxValueBytes (tt_limits t) - tt_valueBytes t ->
  traversal_ok (with_object t o).
Proof.
  unfold with_object.
  intros [Hseen Hnd Hb Ho Hv Ha] Hnew Hlen Hroom.
  unfold traversal_ids, object_ids in *.
  split; unfold traversal_ids, object_ids; cbn; rewrite ?fmap_app, ?value_bytes_app; cbn.
  - rewrite list_to_set_app_L, Hseen. cbn.
    by rewrite union_empty_r_L, (union_comm_L {[_]}).
  - apply NoDup_app. split; [done|]. split; [|apply NoDup_singleton].
    intros id Hid ->%list_elem_of_singleton. apply Hnew. rewrite Hseen.
    by apply elem_of_list_to_set.
  - lia.
  - zlen_simpl. lia.
  - lia.
  - done.
Qed.
#[export] Hint Resolve with_anomaly_ok close_traversal_ok with_page_ok with_expected_ok
  : modbus.

(** The object loop keeps the pages and the limits, and when it runs to the
    end every object of the page is in the aggregate. *)
Lemma add_objects_ok t os t' b :
  traversal_ok t -> add_objects t os = (t', b) ->
  traversal_ok t' /\ tt_limits t' = tt_limits t /\
  tr_Pages (tt_result t') = tr_Pages (tt_result t) /\
  (forall id, id ∈ tt_seen t -> id ∈ tt_seen t') /\
  if b then
    tt_closed t' = tt_closed t /\ tt_expected t' = tt_expected t /\
    Forall (fun o => do_ID o ∈ tt_seen t') os
  else
    tt_closed t' = true /\ tr_Complete (tt_result t') = false /\
    DeviceIDAnomalyAggregateLimitReached ∈ tt_anomalies t'.
Proof.
  revert t. induction os as [|o os IH]; intros t Hok H; cbn in H.
  - simplify_eq. split; [done|]. split; [done|]. split; [done|]. split; [done|].
    by repeat split.
  - case_test; [|case_test]; bool_hyps.
    + apply IH in H as (Hok' & Hl & Hp & Hs & Hb); [|by apply with_anomaly_ok].
      split; [done|]. split; [done|]. split; [done|]. split; [done|].
      destruct b; [|done]. destruct Hb as (? & ? & HF). split; [done|]. split; [done|].
      constructor; [by apply Hs|done].
    + simplify_eq. split; [auto with modbus|]. split; [done|]. split; [done|].
      split; [done|]. cbn. split; [done|]. split; [done|].
      apply add_anomaly_if_elem. left. apply add_anomaly_elem. by right.
    + apply IH in H as (Hok' & Hl & Hp & Hs & Hb); [|apply with_object_ok; auto; lia].
      split; [done|]. split; [done|]. split; [done|].
      split; [intros id Hid; apply Hs; cbn; by apply elem_of_union_r|].
      destruct b; [|done]. destruct Hb as (? & ? & HF). split; [done|]. split; [done|].
      constructor; [|done]. apply Hs. cbn. by apply elem_of_union_l, elem_of_singleton.
Qed.

(** Every object of every folded page is in the aggregate. *)
Definition all_pages_seen (t : deviceIDTolerantTraversal) : Prop :=
  forall d o, d ∈ tr_Pages (tt_result t) -> o ∈ pg_Objects d -> do_ID o ∈ tt_seen t.

(** The three reasons a traversal stops before a page without more-follows. *)
Definition stop_anomalies : list DeviceIDAnomaly :=
  [ DeviceIDAnomalyAggregateLimitReached; DeviceIDAnomalyContinuationUnavailable;
    DeviceIDAnomalyPageLimitReached ].

Definition outcome (t : deviceIDTolerantTraversal) (last : DeviceIDPage) : Prop :=
  (tr_Complete (tt_result t) = true /\ MoreFollows last = false /\ all_pages_seen t) \/
  (tr_Complete (tt_result t) = false /\
   exists a, a ∈ stop_anomalies /\ a ∈ tt_anomalies t).

Lemma stopped_outcome t a d :
  a ∈ stop_anomalies -> outcome (close_traversal (with_anomaly t a) false) d.
Proof.
  intros Ha. right. split; [done|]. exists a. split; [done|]. cbn.
  apply add_anomaly_if_elem. left. apply add_anomaly_elem. by right.
Qed.

Lemma add_page_ok t page t' :
  traversal_ok t -> all_pages_seen t -> add_page t page = Ok t' ->
  exists d,
    DecodeDeviceIDPage (pg_Request page) (pg_PDU page) = (d, None) /\
    pg_Request page = tt_expected t /\ tt_closed t = false /\
    tr_Pages (tt_result t') = tr_Pages (tt_result t) ++ [d] /\
    traversal_ok t' /\ tt_limits t' = tt_limits t /\
    if tt_closed t' then outcome t' d
    else all_pages_seen t' /\ nextDeviceIDPageRequest d = Ok (tt_expected t').
Proof.
  intros Hok Hall. unfold add_page.
  destruct (tt_closed t) eqn:Hc; [discriminate|].
  case_test; [discriminate|]. bool_hyps.
  destruct (DecodeDeviceIDPage _ _) as [d [?|]] eqn:Ed; [discriminate|].
  destruct (add_objects _ _) as [t1 b] eqn:Ea.
  apply add_objects_ok in Ea as (Hok1 & Hl & Hp & Hs & Hb); [|by apply with_page_ok].
  cbn in Hl, Hp, Hs, Hb.
  intros H. exists d. split; [done|]. split; [done|]. split; [done|].
  destruct b.
  2: { simp_res. split; [done|]. split; [done|]. split; [done|].
       destruct Hb as (-> & Hcomp & Hlim). right. split; [done|].
       exists DeviceIDAnomalyAggregateLimitReached. split; [by left|done]. }
  destruct Hb as (Hclosed & Hexp & HF). rewrite Hc in Hclosed.
  assert (all_pages_seen t1) as Hall1.
  { intros d' o. rewrite Hp, elem_of_app, list_elem_of_singleton.
    intros [Hd' | ->] Ho; [by eapply Hs, Hall|].
    eapply Forall_forall in HF; [exact HF|done]. }
  destruct (MoreFollows d) eqn:Em; cbn [negb] in H.
  2: { simp_res. split; [done|]. split; [auto with modbus|]. split; [done|].
       cbn. left. by repeat split. }
  destruct (nextDeviceIDPageRequest d) as [next|e] eqn:En.
  2: { simp_res. split; [done|]. split; [auto with modbus|]. split; [done|].
       cbn. apply stopped_outcome. by do 1 right; left. }
  case_test; simp_res.
  - split; [done|]. split; [auto with modbus|]. split; [done|].
    cbn. apply stopped_outcome. by do 2 right; left.
  - split; [done|]. split; [auto with modbus|]. split; [done|].
    cbn. by rewrite Hclosed.
Qed.

(** Decoded pages each of which answers the continuation of the one before. *)
Inductive tolerant_chain : DeviceIDRequest -> list DeviceIDPage -> Prop :=
| tolerant_chain_last d : tolerant_chain (pg_Request d) [d]
| tolerant_chain_more d next rest :
    nextDeviceIDPageRequest d = Ok next ->
    tolerant_chain next rest ->
    tolerant_chain (pg_Request d) (d :: rest).

Definition decodes_to (page d : DeviceIDPage) : Prop :=
  DecodeDeviceIDPage (pg_Request page) (pg_PDU page) = (d, None).

Lemma add_pages_ok t pages t' :
  traversal_ok t -> all_pages_seen t -> pages <> [] ->
  add_pages t pages = Ok t' -> tt_closed t' = true ->
  exists ds d,
    Forall2 decodes_to pages ds /\ tolerant_chain (tt_expected t) ds /\
    tr_Pages (tt_result t') = tr_Pages (tt_result t) ++ ds /\ last ds = Some d /\
    traversal_ok t' /\ tt_limits t' = tt_limits t /\ outcome t' d.
Proof.
  revert t. induction pages as [|page pages IH]; intros t Hok Hall Hne H Hclosed; [done|].
  cbn in H. destruct (add_page t page) as [t1|] eqn:Ep; [|discriminate].
  apply add_page_ok in Ep as (d & Hd & Hreq & Hc & Hp & Hok1 & Hl & Hout); [|done..].
  pose proof (decode_page_ok _ _ _ Hd) as (? & ? & ? & ? & _ & _ & _ & _ & _ & _ & Hr & _).
  rewrite <- Hreq, <- Hr.
  destruct pages as [|page' pages].
  - cbn in H. simp_res. rewrite Hclosed in Hout.
    exists [d], d. split; [by repeat constructor|]. split; [constructor|].
    by conj.
  - destruct (tt_closed t1) eqn:Hc1.
    + cbn in H. unfold add_page in H. rewrite Hc1 in H. discriminate.
    + destruct Hout as [Hall1 Hn].
      apply IH in H as (ds & d' & HF & Hch & Hp' & Hlast & Hok' & Hl' & Hout'); try done.
      exists (d :: ds), d'. split; [by constructor|]. split; [by econstructor|].
      split; [rewrite Hp', Hp; by rewrite <- app_assoc|].
      split; [destruct ds; [by inversion HF|done]|].
      split; [done|]. split; [by rewrite Hl'|done].
Qed.

(** * Properties *)

(** tolerant decoding loses no byte.  The page of a valid request always
    holds the received PDU; and a decoded page's header fields and objects,
    put back on the wire, are a prefix of it, followed by the bytes from
    [UndecodedOffset] on, which are none unless the page is marked truncated. *)
Theorem page_lossless request pdu page err :
  Forall u8 pdu -> validateDeviceIDRequest request = None ->
  DecodeDeviceIDPage request pdu = (page, err) ->
  pg_PDU page = pdu /\ pg_Request page = request /\
  (err = None ->
     pdu = [0x2b; 0x0e; pg_AccessCode page; pg_Conformity page;
            pg_MoreFollowsValue page; pg_NextObjectID page; pg_DeclaredObjects page]
           ++ objects_bytes (pg_Objects page)
           ++ drop (Z.to_nat (pg_UndecodedOffset page)) pdu /\
     (pg_UndecodedOffset page = zlen pdu \/
      DeviceIDAnomalyTruncatedObject ∈ pg_Anomalies page)).
Proof.
  intros HF Hv H. destruct err as [err|].
  - unfold DecodeDeviceIDPage in H. rewrite Hv in H.
    repeat case_test; simplify_eq; try (split; [done|]; split; [done|discriminate]).
    destruct (page_objects _ _ _ _ _ _ _ _ _) as [[? ?] ?]; discriminate.
  - apply decode_page_ok in H as (cursor & os & an0 & an1 & _ & H7 & E0 & E1 & Ep &
      Hsub & -> & -> & E2 & E3 & E4 & E5 & E6 & E7 & E8).
    split; [done|]. split; [done|]. intros _.
    apply page_objects_spec in Ep as (os' & -> & Hd & Hcur & Hend);
      [|done|lia|unfold zlen in H7; lia].
    rewrite E2, E3, E4, E5, E6, E7, E8, Nat2Z.id. split.
    + rewrite (list_split7 pdu) at 1 by done. rewrite E0, E1, Hd. done.
    + destruct Hend as [-> | Ht]; [by left|right; auto].
Qed.

Lemma page_lossless_witness :
  let pdu := [0x2b; 0x0e; 1; 0x81; 7; 9; 5; 0; 1; 65; 1; 9; 66] in
  pg_PDU (fst (DecodeDeviceIDPage example_request pdu)) = pdu.
Proof.
  refine (proj1 (page_lossless example_request _ _ _ _ _ (surjective_pairing _)));
    [repeat constructor; lia|reflexivity].
Defined.

(** tolerance is conservative.  Every standard response the strict decoder
    accepts decodes tolerantly to the same conformity, continuation and
    objects, completely and without a single anomaly. *)
Theorem strict_page_has_no_anomaly request pdu s :
  Forall u8 pdu -> dr_extended request = false ->
  DecodeDeviceIDSegment request pdu = Ok s ->
  DecodeDeviceIDPage request pdu =
    ({| pg_Request := request; pg_PDU := pdu; pg_AccessCode := dr_access request;
        pg_Conformity := sg_conformity s;
        pg_MoreFollowsValue := if sg_moreFollows s then 0xff else 0x00;
        pg_NextObjectID := sg_nextObjectID s;
        pg_DeclaredObjects := zlen (sg_objects s);
        pg_Objects := sg_objects s; pg_UndecodedOffset := zlen pdu;
        pg_Anomalies := [] |}, None).
Proof.
  intros HF He H. apply decode_segment_sound in H as (<- & Hv & _ & ->); [|done].
  by apply segment_page.
Qed.

Lemma strict_page_has_no_anomaly_witness :
  snd (DecodeDeviceIDPage example_request [0x2b; 0x0e; 1; 0x81; 0; 0; 1; 0; 2; 65; 66]) = None.
Proof.
  rewrite (strict_page_has_no_anomaly example_request _
    (example_segment false example_request 0 [{| do_ID := 0; do_Value := [65; 66] |}]));
    [reflexivity|repeat constructor; lia|reflexivity|vm_compute; reflexivity].
Defined.

(** tolerant paging terminates.  Each continuation moves the cursor
    strictly forward, with at most one backward wrap, so no chain of pages is
    longer than 512. *)
Theorem tolerant_paging_terminates first ds :
  tolerant_chain first ds -> Forall (fun d => u8 (pg_NextObjectID d)) ds ->
  u8 (dr_objectID first) -> zlen ds <= 512 - cursor_rank first.
Proof.
  intros Hch. induction Hch as [d|d next rest Hn Hch IH]; intros HF Hu.
  - unfold zlen, cursor_rank, u8 in *. cbn. destruct (dr_wrapped _); lia.
  - apply Forall_cons in HF as [Hd HF].
    apply next_page_request_rank in Hn as (Hrank & Hu' & _); [|done..].
    specialize (IH HF Hu'). rewrite zlen_cons. lia.
Qed.

Definition example_page (request : DeviceIDRequest) (more next : Z) : DeviceIDPage :=
  fst (DecodeDeviceIDPage request
         [0x2b; 0x0e; 1; 0x81; more; next; 1; dr_objectID request; 1; 65]).

Lemma tolerant_paging_terminates_witness :
  zlen [example_page example_request 1 2; example_page example_next 0 0] <=
  512 - cursor_rank example_request.
Proof.
  apply tolerant_paging_terminates;
    [|repeat constructor; vm_compute; discriminate|vm_compute; split; congruence].
  apply (tolerant_chain_more (example_page example_request 1 2) example_next);
    [vm_compute; reflexivity|].
  exact (tolerant_chain_last (example_page example_next 0 0)).
Defined.

(** a published tolerant result is honest.  Its pages are the decodings of
    the given pages and each answers the continuation of the one before; its
    objects have distinct ids and respect the limits; a complete result ends
    at a page without more-follows and has every object id any page carried;
    an incomplete one names the reason it stopped. *)
Theorem tolerant_aggregate_honest first pages limits res :
  AggregateTolerantDeviceID first pages limits = Ok res ->
  Forall2 decodes_to pages (tr_Pages res) /\
  tolerant_chain first (tr_Pages res) /\
  NoDup (object_ids (tr_Objects res)) /\
  zlen (tr_Objects res) <= dl_MaxObjects limits /\
  value_bytes (tr_Objects res) <= dl_MaxValueBytes limits /\
  zlen (tr_Pages res) <= dl_MaxSegments limits /\
  NoDup (tr_Anomalies res) /\
  (if tr_Complete res then
     (exists d, last (tr_Pages res) = Some d /\ MoreFollows d = false) /\
     (forall d o, d ∈ tr_Pages res -> o ∈ pg_Objects d ->
        do_ID o ∈ object_ids (tr_Objects res))
   else exists a, a ∈ stop_anomalies /\ a ∈ tr_Anomalies res).
Proof.
  unfold AggregateTolerantDeviceID.
  destruct (newDeviceIDTolerantTraversal first limits) as [t|] eqn:Et; [|discriminate].
  apply new_traversal_ok in Et as (Hok & <- & <- & Hc & Hp & _).
  case_test; [discriminate|]. bool_hyps.
  destruct (add_pages t pages) as [t'|] eqn:Ea; [|discriminate].
  unfold finish_traversal. destruct (tt_closed t') eqn:Hc'; [|discriminate].
  cbn [negb]. intros Hr; simp_res. cbn.
  apply add_pages_ok in Ea as (ds & d & HF & Hch & Hp' & Hlast & Hok' & Hl & Hout);
    [|done| |by intros ->|done].
  2: { intros d o. rewrite Hp. intros Hd. by apply not_elem_of_nil in Hd. }
  rewrite Hp in Hp'. cbn in Hp'. rewrite Hp'. rewrite <- Hl.
  destruct Hok' as [Hseen Hnd Hb Ho Hv Ha].
  conj; try done.
  - apply Forall2_length in HF. unfold zlen in *. rewrite <- HF, Hl. lia.
  - destruct Hout as [(-> & Hm & Hall) | (-> & Hstop)]; [|done].
    split; [by exists d|]. intros d' o Hd' Hobj. rewrite <- Hp' in Hd'.
    specialize (Hall d' o Hd' Hobj). rewrite Hseen in Hall.
    by apply elem_of_list_to_set in Hall.
Qed.

Definition example_pages : list DeviceIDPage :=
  [example_page example_request 1 2; example_page example_next 0 0].

Lemma tolerant_aggregate_honest_witness :
  match AggregateTolerantDeviceID example_request example_pages DefaultDeviceIDLimits with
  | Ok res => tolerant_chain example_request (tr_Pages res) /\ tr_Complete res = true
  | Err _ => False
  end.
Proof.
  destruct (AggregateTolerantDeviceID example_request example_pages DefaultDeviceIDLimits)
    as [res|e] eqn:E.
  - split; [exact (proj1 (proj2 (tolerant_aggregate_honest _ _ _ _ E)))|].
    vm_compute in E. injection E as <-. reflexivity.
  - vm_compute in E. discriminate.
Defined.
