(* ===== verification/TcpAdu.v ===== *)
(** Modbus TCP application data units (tcp_adu.go): MBAP encoding and the
    incremental stream decoder with its strict and tolerant framing.  The
    decoder is compared with [split_frames], which cuts a whole byte string
    into frames at once. *)

From S2P Require Import Prelude Pdu DeviceId DeviceIdTolerant.

(** * Data *)

Definition mbapHeaderSize : Z := 7.
Definition minMBAPLength : Z := 2.
Definition maxMBAPLength : Z := MaxPDUSize + 1.
Definition maxTCPADUSize : Z := mbapHeaderSize - 1 + maxMBAPLength.
Definition maxTCPDecoderBuffer : Z := 64 * 1024.
Definition maxTolerantMBAPLength : Z := MaxTolerantPDUSize + 1.
Definition maxTolerantTCPADUSize : Z := mbapHeaderSize - 1 + maxTolerantMBAPLength.

(** A Go byte: values other than the two constants are rejected by
    [validTCPFraming]. *)
Definition TCPFramingStrict : Z := 0.
Definition TCPFramingTolerant : Z := 1.

Definition validTCPFraming (framing : Z) : bool :=
  (framing =? TCPFramingStrict) || (framing =? TCPFramingTolerant).

Definition tcpFramingADUBound (framing : Z) : Z :=
  if framing =? TCPFramingTolerant then maxTolerantTCPADUSize else maxTCPADUSize.

(** The two concrete error types of the decoder. *)
Inductive TCPError : Type :=
| TCPProtocolError (err : ProtocolError)
| TCPFrameError (Cause : ProtocolError) (Raw : list Z).

Record TCPADU : Type := mkTCPADU {
  ta_transactionID : Z;
  ta_unitID : Z;
  ta_pdu : list Z;
  ta_raw : list Z
}.

#[export] Instance TCPADU_eq_dec : EqDecision TCPADU.
Proof. solve_decision. Defined.

Definition OversizePDU (adu : TCPADU) : bool := zlen (ta_pdu adu) >? MaxPDUSize.

(** * Encoding *)

Definition encodeTCPADU (transactionID unitID : Z) (pdu : list Z)
    : presult (list Z) :=
  if unitID >? 247 then
    Err (protocolError ErrorInvalidRequest 0 0 "unit_id" 6)
  else if (zlen pdu =? 0) || (zlen pdu >? MaxPDUSize) then
    Err (protocolError ErrorInvalidRange 0 0 "pdu_length" 7)
  else
    let length := zlen pdu + 1 in
    Ok ([ wrap8 (Z.shiftr transactionID 8); wrap8 transactionID; 0; 0;
          wrap8 (Z.shiftr length 8); wrap8 length; unitID ] ++ pdu).

Definition EncodeTCPReadADU (transactionID unitID : Z)
    (request : ReadRegistersRequest) : presult (list Z) :=
  match EncodePDU request with
  | Err err => Err err
  | Ok pdu => encodeTCPADU transactionID unitID pdu
  end.

Definition EncodeTCPDeviceIDAccessADU (transactionID unitID : Z)
    (request : DeviceIDRequest) : presult (list Z) :=
  match EncodeDeviceIDPDU request with
  | Err err => Err err
  | Ok pdu => encodeTCPADU transactionID unitID pdu
  end.

(** * Stream decoder *)

Record TCPStreamDecoder : Type := mkTCPStreamDecoder {
  td_maxBuffered : Z;
  td_framing : Z;
  td_buffer : list Z
}.

Definition with_buffer (decoder : TCPStreamDecoder) (buffer : list Z)
    : TCPStreamDecoder :=
  {| td_maxBuffered := td_maxBuffered decoder; td_framing := td_framing decoder;
     td_buffer := buffer |}.

Definition NewTCPStreamDecoderWithFraming (maxBuffered framing : Z)
    : presult TCPStreamDecoder :=
  if negb (validTCPFraming framing) then
    Err (protocolError ErrorInvalidRequest 0 0 "framing" (-1))
  else if (maxBuffered <? mbapHeaderSize)
          || (maxBuffered >? maxTCPDecoderBuffer)
          || ((framing =? TCPFramingTolerant) && (maxBuffered <? maxTolerantTCPADUSize)) then
    Err (protocolError ErrorInvalidRequest 0 0 "max_buffered" (-1))
  else
    Ok {| td_maxBuffered := maxBuffered; td_framing := framing; td_buffer := [] |}.

Definition NewTCPStreamDecoder (maxBuffered : Z) : presult TCPStreamDecoder :=
  NewTCPStreamDecoderWithFraming maxBuffered TCPFramingStrict.

Definition lengthBound (decoder : TCPStreamDecoder) : Z :=
  if td_framing decoder =? TCPFramingTolerant then maxTolerantMBAPLength
  else maxMBAPLength.

Definition failMalformed (decoder : TCPStreamDecoder) (field : string) (offset : Z)
    : TCPStreamDecoder * TCPError :=
  (with_buffer decoder [],
   TCPProtocolError (protocolError ErrorMalformedResponse 0 0 field offset)).

Definition failFrame (decoder : TCPStreamDecoder) (field : string) (offset : Z)
    (undelivered : list TCPADU) (remainder : list Z) : TCPStreamDecoder * TCPError :=
  if negb (td_framing decoder =? TCPFramingTolerant) then
    failMalformed decoder field offset
  else
    let raw := concat (ta_raw <$> undelivered) ++ td_buffer decoder ++ remainder in
    (with_buffer decoder [],
     TCPFrameError (protocolError ErrorMalformedResponse 0 0 field offset) raw).

Definition failBufferedBytes (decoder : TCPStreamDecoder) : TCPStreamDecoder * TCPError :=
  (with_buffer decoder [],
   TCPProtocolError (protocolError ErrorInvalidRange 0 0 "buffered_bytes" (-1))).

(** The bytes appended; the capacity of the Go slice is not observable. *)
Definition appendBounded (decoder : TCPStreamDecoder) (fragment : list Z)
    : TCPStreamDecoder :=
  with_buffer decoder (td_buffer decoder ++ fragment).

(** The value [Feed] returns, with the decoder it leaves. *)
Record FeedResult : Type := mkFeedResult {
  fr_frames : list TCPADU;
  fr_error : option TCPError;
  fr_decoder : TCPStreamDecoder
}.

Definition feed_error (frames : list TCPADU) (fail : TCPStreamDecoder * TCPError)
    : FeedResult :=
  {| fr_frames := frames; fr_error := Some (snd fail); fr_decoder := fst fail |}.

(** The [for] loop of [Feed]; [None] when the fuel runs out. *)
Fixpoint feed_loop (fuel : nat) (decoder : TCPStreamDecoder) (fragment : list Z)
    (frames : list TCPADU) : option FeedResult :=
  match fuel with
  | O => None
  | S fuel =>
      let buffer := td_buffer decoder in
      if zlen buffer <? mbapHeaderSize then
        if zlen fragment =? 0 then
          Some {| fr_frames := frames; fr_error := None; fr_decoder := decoder |}
        else
        let needed := mbapHeaderSize - zlen buffer in
        let needed := if needed >? zlen fragment then zlen fragment else needed in
        feed_loop fuel (appendBounded decoder (take (Z.to_nat needed) fragment))
          (drop (Z.to_nat needed) fragment) frames
      else if negb (buffer !!! 2%nat =? 0) || negb (buffer !!! 3%nat =? 0) then
        Some (feed_error [] (failFrame decoder "protocol_id" 2 frames fragment))
      else
      let length := be16 (buffer !!! 4%nat) (buffer !!! 5%nat) in
      if (length <? minMBAPLength) || (length >? lengthBound decoder) then
        Some (feed_error [] (failFrame decoder "length" 4 frames fragment))
      else
      let total := 6 + length in
      if total >? tcpFramingADUBound (td_framing decoder) then
        Some (feed_error [] (failFrame decoder "adu_length" 4 frames fragment))
      else if zlen buffer <? total then
        if zlen fragment =? 0 then
          Some {| fr_frames := frames; fr_error := None; fr_decoder := decoder |}
        else
        let available := td_maxBuffered decoder - zlen buffer in
        if available =? 0 then
          Some (feed_error frames (failBufferedBytes decoder))
        else
        let needed := total - zlen buffer in
        let needed := if needed >? zlen fragment then zlen fragment else needed in
        let needed := if needed >? available then available else needed in
        feed_loop fuel (appendBounded decoder (take (Z.to_nat needed) fragment))
          (drop (Z.to_nat needed) fragment) frames
      else
      let raw := take (Z.to_nat total) buffer in
      let frame := {| ta_transactionID := be16 (raw !!! 0%nat) (raw !!! 1%nat);
                      ta_unitID := raw !!! 6%nat;
                      ta_pdu := drop 7 raw; ta_raw := raw |} in
      feed_loop fuel (with_buffer decoder (drop (Z.to_nat total) buffer)) fragment
        (frames ++ [frame])
  end.

(** Every iteration moves at least one byte out of the fragment or cuts a
    frame off the buffer. *)
Definition feed_fuel (decoder : TCPStreamDecoder) (fragment : list Z) : nat :=
  S (2 * length fragment + length (td_buffer decoder)).

Definition Feed (decoder : TCPStreamDecoder) (fragment : list Z) : option FeedResult :=
  feed_loop (feed_fuel decoder fragment) decoder fragment [].

Definition Finish (decoder : TCPStreamDecoder) : TCPStreamDecoder * option TCPError :=
  if zlen (td_buffer decoder) =? 0 then (decoder, None)
  else
    let '(decoder, err) :=
      failFrame decoder "truncated_adu" (zlen (td_buffer decoder)) [] [] in
    (decoder, Some err).

(** * Specification *)

(** What the first bytes of a stream are. *)
Inductive FrameStep : Type :=
| Incomplete
| Malformed (field : string) (offset : Z)
| Frame (total : Z).

Definition frame_step (framing : Z) (bytes : list Z) : FrameStep :=
  if zlen bytes <? 7 then Incomplete
  else if negb (bytes !!! 2%nat =? 0) || negb (bytes !!! 3%nat =? 0) then
    Malformed "protocol_id" 2
  else
    let length := be16 (bytes !!! 4%nat) (bytes !!! 5%nat) in
    if (length <? 2) || (length >? tcpFramingADUBound framing - 6) then Malformed "length" 4
    else if zlen bytes <? 6 + length then Incomplete
    else Frame (6 + length).

Definition frame_of (raw : list Z) : TCPADU :=
  {| ta_transactionID := be16 (raw !!! 0%nat) (raw !!! 1%nat);
     ta_unitID := raw !!! 6%nat; ta_pdu := drop 7 raw; ta_raw := raw |}.

(** All the frames of a byte string and what is left, or the framing error. *)
Fixpoint split_frames (fuel : nat) (framing : Z) (bytes : list Z)
    : result (string * Z) (list TCPADU * list Z) :=
  match fuel with
  | O => Ok ([], bytes)
  | S fuel =>
      match frame_step framing bytes with
      | Incomplete => Ok ([], bytes)
      | Malformed field offset => Err (field, offset)
      | Frame total =>
          match split_frames fuel framing (drop (Z.to_nat total) bytes) with
          | Err e => Err e
          | Ok (frames, rest) => Ok (frame_of (take (Z.to_nat total) bytes) :: frames, rest)
          end
      end
  end.

Definition frames_of (framing : Z) (bytes : list Z)
    : result (string * Z) (list TCPADU * list Z) :=
  split_frames (length bytes) framing bytes.

(** The invariant of a decoder built by the constructor. *)
Definition decoder_ok (d : TCPStreamDecoder) : Prop :=
  validTCPFraming (td_framing d) = true /\
  7 <= td_maxBuffered d <= maxTCPDecoderBuffer /\
  (td_framing d = TCPFramingTolerant -> maxTolerantTCPADUSize <= td_maxBuffered d) /\
  zlen (td_buffer d) <= td_maxBuffered d /\
  Forall u8 (td_buffer d).

(** The buffer holds any frame the framing allows. *)
Definition roomy (d : TCPStreamDecoder) : Prop :=
  tcpFramingADUBound (td_framing d) <= td_maxBuffered d.

(** The error of a framing failure over the bytes received and not delivered. *)
Definition framing_error (framing : Z) (field : string) (offset : Z) (raw : list Z)
    : TCPError :=
  let cause := protocolError ErrorMalformedResponse 0 0 field offset in
  if framing =? TCPFramingTolerant then TCPFrameError cause raw else TCPProtocolError cause.

(** A caller that feeds fragments one by one and stops at the first error;
    [fr_frames] collects the frames of all calls. *)
Fixpoint feed_all (decoder : TCPStreamDecoder) (fragments : list (list Z))
    : option FeedResult :=
  match fragments with
  | [] => Some {| fr_frames := []; fr_error := None; fr_decoder := decoder |}
  | fragment :: fragments =>
      match Feed decoder fragment with
      | None => None
      | Some r =>
          match fr_error r with
          | Some _ => Some r
          | None =>
              match feed_all (fr_decoder r) fragments with
              | None => None
              | Some r' =>
                  Some {| fr_frames := fr_frames r ++ fr_frames r';
                          fr_error := fr_error r'; fr_decoder := fr_decoder r' |}
              end
          end
      end
  end.

(** * Lemmas on the specification *)

Lemma framing_cases framing :
  validTCPFraming framing = true ->
  (framing = 0 /\ tcpFramingADUBound framing = 260) \/
  (framing = 1 /\ tcpFramingADUBound framing = 4103).
Proof.
  unfold validTCPFraming, TCPFramingStrict, TCPFramingTolerant. intros H.
  apply orb_true_iff in H as [H|H]; apply Z.eqb_eq in H as ->; [left|right]; by vm_compute.
Qed.

Lemma frame_step_total framing bytes total :
  frame_step framing bytes = Frame total ->
  total = 6 + be16 (bytes !!! 4%nat) (bytes !!! 5%nat) /\
  8 <= total <= tcpFramingADUBound framing /\ total <= zlen bytes /\
  bytes !!! 2%nat = 0 /\ bytes !!! 3%nat = 0.
Proof.
  unfold frame_step. cbv zeta. repeat case_test; intros; try discriminate.
  injection H as <-. bool_hyps. conj; lia.
Qed.

Lemma frame_step_app framing a b :
  frame_step framing a <> Incomplete ->
  frame_step framing (a ++ b) = frame_step framing a.
Proof.
  unfold frame_step. cbv zeta. intros H. destruct (zlen a <? 7) eqn:E; [done|].
  assert (7 <= length a)%nat by (bool_hyps; unfold zlen in *; lia).
  test_false (zlen (a ++ b) <? 7); [|rewrite zlen_app; pose proof (zlen_nonneg b); lia].
  rewrite !lookup_total_app_l by lia.
  repeat case_test; try done.
  bool_hyps. rewrite zlen_app in *. pose proof (zlen_nonneg b). lia.
Qed.

Lemma split_frames_fuel n m framing bytes :
  (length bytes <= n)%nat -> (length bytes <= m)%nat ->
  split_frames n framing bytes = split_frames m framing bytes.
Proof.
  revert m bytes. induction n as [|n IH]; intros m bytes Hn Hm.
  - destruct bytes; [|simpl in Hn; lia]. by destruct m.
  - destruct m as [|m]; [by destruct bytes; [|simpl in Hm; lia]|]. cbn [split_frames].
    destruct (frame_step framing bytes) eqn:E; try done.
    apply frame_step_total in E. rewrite (IH m); [done|rewrite length_drop; lia..].
Qed.

(** The recursion equation of [frames_of]. *)
Lemma frames_of_eq framing bytes :
  frames_of framing bytes =
  match frame_step framing bytes with
  | Incomplete => Ok ([], bytes)
  | Malformed field offset => Err (field, offset)
  | Frame total =>
      match frames_of framing (drop (Z.to_nat total) bytes) with
      | Err e => Err e
      | Ok (frames, rest) => Ok (frame_of (take (Z.to_nat total) bytes) :: frames, rest)
      end
  end.
Proof.
  unfold frames_of at 1.
  rewrite (split_frames_fuel _ (S (length bytes))) by lia. cbn [split_frames].
  destruct (frame_step framing bytes) eqn:E; try done.
  unfold frames_of. apply frame_step_total in E.
  rewrite (split_frames_fuel _ (length (drop (Z.to_nat total) bytes)) framing);
    [done|rewrite length_drop; lia..].
Qed.

(** Induction over the frames of a byte string. *)
Lemma frames_of_ind framing (P : list Z -> Prop) :
  (forall bytes,
     (forall total, frame_step framing bytes = Frame total ->
                    P (drop (Z.to_nat total) bytes)) -> P bytes) ->
  forall bytes, P bytes.
Proof.
  intros H bytes. remember (length bytes) as n eqn:Hn. revert bytes Hn.
  induction n as [n IH] using lt_wf_ind. intros bytes ->. apply H. intros total Ht.
  apply frame_step_total in Ht as (_ & ? & ? & _).
  eapply IH; [|done]. unfold zlen in *. rewrite length_drop. lia.
Qed.

(** Framing a longer string resumes from what the shorter one left. *)
Lemma frames_of_app framing a b :
  frames_of framing (a ++ b) =
  match frames_of framing a with
  | Err e => Err e
  | Ok (fs, rest) =>
      match frames_of framing (rest ++ b) with
      | Err e => Err e
      | Ok (fs', rest') => Ok (fs ++ fs', rest')
      end
  end.
Proof.
  induction a as [a IH] using (frames_of_ind framing).
  rewrite (frames_of_eq framing a).
  destruct (frame_step framing a) eqn:E.
  - destruct (frames_of framing (a ++ b)) as [[]|]; done.
  - rewrite frames_of_eq, frame_step_app by congruence. by rewrite E.
  - pose proof (frame_step_total _ _ _ E) as (_ & ? & ? & _). unfold zlen in *.
    rewrite frames_of_eq, frame_step_app by congruence. rewrite E.
    rewrite take_app_le, drop_app_le, (IH _ eq_refl) by lia.
    destruct (frames_of framing (drop _ a)) as [[fs rest]|]; [|done].
    by destruct (frames_of framing (rest ++ b)) as [[]|].
Qed.

(** The frames and the rest are the bytes, in order. *)
Lemma frames_of_concat framing bytes fs rest :
  frames_of framing bytes = Ok (fs, rest) ->
  concat (ta_raw <$> fs) ++ rest = bytes /\
  frame_step framing rest = Incomplete.
Proof.
  revert fs. induction bytes as [bytes IH] using (frames_of_ind framing). intros fs.
  rewrite frames_of_eq. destruct (frame_step framing bytes) eqn:E; intros H; simp_res.
  - done.
  - destruct (frames_of framing (drop _ bytes)) as [[fs' rest']|] eqn:E'; simp_res.
    destruct (IH _ eq_refl _ E') as [H' ?]. split; [|done].
    cbn. rewrite <- app_assoc, H'. apply take_drop.
Qed.

(** * Lemmas on the loop of Feed *)

Lemma lengthBound_ADUBound d :
  validTCPFraming (td_framing d) = true ->
  lengthBound d = tcpFramingADUBound (td_framing d) - 6.
Proof.
  intros [[E E']|[E E']]%framing_cases; unfold lengthBound; rewrite E', E; done.
Qed.

Lemma failFrame_eq d field offset frames remainder :
  failFrame d field offset frames remainder =
  (with_buffer d [],
   framing_error (td_framing d) field offset
     (concat (ta_raw <$> frames) ++ td_buffer d ++ remainder)).
Proof. unfold failFrame, failMalformed, framing_error. by destruct (_ =? _). Qed.

(** One iteration of the loop, by what the buffered bytes are. *)
Lemma feed_loop_step fuel d fragment frames :
  validTCPFraming (td_framing d) = true ->
  feed_loop (S fuel) d fragment frames =
  match frame_step (td_framing d) (td_buffer d) with
  | Incomplete =>
      if zlen fragment =? 0 then
        Some {| fr_frames := frames; fr_error := None; fr_decoder := d |}
      else if (7 <=? zlen (td_buffer d)) && (td_maxBuffered d =? zlen (td_buffer d)) then
        Some (feed_error frames (failBufferedBytes d))
      else
      let missing :=
        if zlen (td_buffer d) <? 7 then 7 - zlen (td_buffer d)
        else Z.min (6 + be16 (td_buffer d !!! 4%nat) (td_buffer d !!! 5%nat)
                    - zlen (td_buffer d))
                   (td_maxBuffered d - zlen (td_buffer d)) in
      let needed := Z.to_nat (Z.min missing (zlen fragment)) in
      feed_loop fuel (with_buffer d (td_buffer d ++ take needed fragment))
        (drop needed fragment) frames
  | Malformed field offset =>
      Some (feed_error [] (failFrame d field offset frames fragment))
  | Frame total =>
      feed_loop fuel (with_buffer d (drop (Z.to_nat total) (td_buffer d))) fragment
        (frames ++ [frame_of (take (Z.to_nat total) (td_buffer d))])
  end.
Proof.
  intros Hv. cbn [feed_loop]. cbv zeta. unfold frame_step, appendBounded.
  change mbapHeaderSize with 7. change minMBAPLength with 2.
  rewrite lengthBound_ADUBound by done.
  set (length := be16 _ _). set (bound := tcpFramingADUBound _).
  destruct (zlen (td_buffer d) <? 7) eqn:E7.
  { destruct (_ =? 0); [done|]. test_false (7 <=? zlen (td_buffer d)).
    replace (if _ >? zlen fragment then _ else _)
      with (Z.min (7 - zlen (td_buffer d)) (zlen fragment)); [done|].
    destruct (_ >? _) eqn:?; bool_hyps; lia. }
  destruct (_ || _); [done|].
  destruct ((length <? 2) || (length >? bound - 6)) eqn:Eb; [done|].
  test_false (6 + length >? bound).
  destruct (zlen (td_buffer d) <? 6 + length) eqn:Et; [|done].
  destruct (zlen fragment =? 0); [done|].
  test_true (7 <=? zlen (td_buffer d)). cbn [andb].
  replace (td_maxBuffered d - zlen (td_buffer d) =? 0)
    with (td_maxBuffered d =? zlen (td_buffer d));
    [|apply eq_true_iff_eq; rewrite !Z.eqb_eq; lia].
  destruct (td_maxBuffered d =? zlen (td_buffer d)) eqn:Em; [done|].
  set (needed := if (if _ >? zlen fragment then _ else _) >? _ then _ else _).
  replace needed with (Z.min (Z.min (6 + length - zlen (td_buffer d))
                                (td_maxBuffered d - zlen (td_buffer d))) (zlen fragment));
    [done|].
  unfold needed. repeat case_test; bool_hyps; lia.
Qed.

Lemma with_buffer_id d : with_buffer d (td_buffer d) = d.
Proof. by destruct d. Qed.

Lemma with_buffer_ok d b :
  decoder_ok d -> zlen b <= td_maxBuffered d -> Forall u8 b -> decoder_ok (with_buffer d b).
Proof. unfold decoder_ok. cbn. tauto. Qed.

(** The bytes an incomplete buffer takes from a non-empty fragment. *)
Definition intake (d : TCPStreamDecoder) (fragment : list Z) : nat :=
  Z.to_nat (Z.min
    (if zlen (td_buffer d) <? 7 then 7 - zlen (td_buffer d)
     else Z.min (6 + be16 (td_buffer d !!! 4%nat) (td_buffer d !!! 5%nat)
                 - zlen (td_buffer d))
                (td_maxBuffered d - zlen (td_buffer d)))
    (zlen fragment)).

Lemma intake_bounds d fragment :
  decoder_ok d -> frame_step (td_framing d) (td_buffer d) = Incomplete ->
  zlen fragment <> 0 ->
  (7 <=? zlen (td_buffer d)) && (td_maxBuffered d =? zlen (td_buffer d)) = false ->
  (0 < intake d fragment <= length fragment)%nat /\
  zlen (td_buffer d) + Z.of_nat (intake d fragment) <= td_maxBuffered d.
Proof.
  intros (_ & [H7 _] & _ & Hmax & _) Hs Hf Hm. unfold intake.
  pose proof (zlen_nonneg fragment). pose proof (zlen_nonneg (td_buffer d)).
  unfold frame_step in Hs. cbv zeta in Hs.
  destruct (zlen (td_buffer d) <? 7) eqn:E.
  - bool_hyps. unfold zlen in *. lia.
  - repeat case_test; try discriminate.
    apply andb_false_iff in Hm as [Hm|Hm]; bool_hyps; [lia|].
    split; [|lia]. unfold zlen in *. lia.
Qed.

Lemma intake_ok d fragment :
  decoder_ok d -> Forall u8 fragment ->
  zlen (td_buffer d) + Z.of_nat (intake d fragment) <= td_maxBuffered d ->
  decoder_ok (with_buffer d (td_buffer d ++ take (intake d fragment) fragment)).
Proof.
  intros Hd Hf Hb. apply with_buffer_ok; [done| |].
  - rewrite zlen_app, zlen_take. lia.
  - apply Forall_app. split; [apply Hd|by apply Forall_take].
Qed.

Lemma cut_ok d total :
  decoder_ok d -> decoder_ok (with_buffer d (drop total (td_buffer d))).
Proof.
  intros Hd. apply with_buffer_ok; [done| |].
  - rewrite zlen_drop. destruct Hd as (_ & _ & _ & ? & _).
    pose proof (zlen_nonneg (td_buffer d)). lia.
  - apply Forall_drop, Hd.
Qed.

Lemma reset_ok d : decoder_ok d -> decoder_ok (with_buffer d []).
Proof. intros Hd. apply with_buffer_ok; [done| |done]. rewrite zlen_nil. destruct Hd. lia. Qed.

(** What a call on a roomy decoder returns, in terms of the whole byte string. *)
Definition feed_spec (d : TCPStreamDecoder) (frames : list TCPADU) (bytes : list Z)
    : FeedResult :=
  match frames_of (td_framing d) bytes with
  | Ok (fs, rest) =>
      {| fr_frames := frames ++ fs; fr_error := None; fr_decoder := with_buffer d rest |}
  | Err (field, offset) =>
      {| fr_frames := [];
         fr_error := Some (framing_error (td_framing d) field offset
                             (concat (ta_raw <$> frames) ++ bytes));
         fr_decoder := with_buffer d [] |}
  end.

Lemma feed_spec_cut d frames bytes total :
  frame_step (td_framing d) bytes = Frame total ->
  feed_spec d frames bytes =
  feed_spec d (frames ++ [frame_of (take (Z.to_nat total) bytes)])
    (drop (Z.to_nat total) bytes).
Proof.
  intros E. unfold feed_spec. rewrite (frames_of_eq _ bytes), E.
  destruct (frames_of _ (drop _ _)) as [[fs rest]|[field offset]].
  - by rewrite <- app_assoc.
  - rewrite fmap_app, concat_app. cbn. rewrite app_nil_r, <- app_assoc.
    by rewrite take_drop.
Qed.

Lemma feed_loop_roomy fuel d fragment frames :
  decoder_ok d -> roomy d -> Forall u8 fragment ->
  (2 * length fragment + length (td_buffer d) < fuel)%nat ->
  feed_loop fuel d fragment frames = Some (feed_spec d frames (td_buffer d ++ fragment)).
Proof.
  revert d fragment frames.
  induction fuel as [|fuel IH]; intros d fragment frames Hd Hr Hf Hfuel; [lia|].
  rewrite feed_loop_step by apply Hd.
  destruct (frame_step (td_framing d) (td_buffer d)) eqn:E.
  - destruct (zlen fragment =? 0) eqn:E0.
    { bool_hyps. destruct fragment; [|rewrite zlen_cons in *; pose proof (zlen_nonneg fragment); lia].
      rewrite app_nil_r. unfold feed_spec. rewrite frames_of_eq, E, app_nil_r, with_buffer_id.
      done. }
    destruct (_ && _) eqn:Em.
    { exfalso. clear IH. unfold frame_step, roomy in *. cbv zeta in E.
      bool_hyps. repeat case_test; bool_hyps; try discriminate; lia. }
    cbv zeta. fold (intake d fragment). bool_hyps.
    destruct (intake_bounds d fragment) as [Hi Hi']; [done..|].
    rewrite IH; [|by apply intake_ok|done|by apply Forall_drop|].
    + unfold feed_spec. cbn. by rewrite <- app_assoc, take_drop.
    + cbn. rewrite length_app, length_take, length_drop. lia.
  - rewrite failFrame_eq. unfold feed_spec.
    rewrite frames_of_eq, frame_step_app by congruence. by rewrite E.
  - pose proof (frame_step_total _ _ _ E) as (_ & ? & ? & _). unfold zlen in *.
    rewrite IH; [|by apply cut_ok|done|done|cbn; rewrite length_drop; lia].
    rewrite (feed_spec_cut d frames (td_buffer d ++ fragment) total)
      by (rewrite frame_step_app; congruence).
    rewrite take_app_le, drop_app_le by lia. done.
Qed.

(** A frame the decoder delivers under a framing. *)
Definition frame_ok (framing : Z) (f : TCPADU) : Prop :=
  f = frame_of (ta_raw f) /\ frame_step framing (ta_raw f) = Frame (zlen (ta_raw f)).

Lemma frame_of_ok framing bytes total :
  frame_step framing bytes = Frame total ->
  frame_ok framing (frame_of (take (Z.to_nat total) bytes)).
Proof.
  intros E. split; [done|]. cbn.
  pose proof (frame_step_total _ _ _ E) as (? & ? & ? & _).
  assert (El : zlen (take (Z.to_nat total) bytes) = total) by (rewrite zlen_take; lia).
  rewrite El. rewrite <- (take_drop (Z.to_nat total) bytes) in E.
  destruct (frame_step framing (take (Z.to_nat total) bytes)) eqn:E'.
  - exfalso. unfold frame_step in E'. rewrite El in E'. cbv zeta in E'.
    rewrite !lookup_total_take_lt in E' by lia.
    unfold zlen in *. repeat case_test; try discriminate; bool_hyps; lia.
  - rewrite frame_step_app in E by congruence. congruence.
  - rewrite frame_step_app in E by congruence. congruence.
Qed.

(** The loop returns, keeps the bound and delivers whole frames only,
    whatever the size of the buffer. *)
Lemma feed_loop_safe fuel d fragment frames :
  decoder_ok d -> Forall u8 fragment -> Forall (frame_ok (td_framing d)) frames ->
  (2 * length fragment + length (td_buffer d) < fuel)%nat ->
  exists r, feed_loop fuel d fragment frames = Some r /\
    decoder_ok (fr_decoder r) /\
    td_framing (fr_decoder r) = td_framing d /\
    Forall (frame_ok (td_framing d)) (fr_frames r) /\
    match fr_error r with
    | None =>
        concat (ta_raw <$> fr_frames r) ++ td_buffer (fr_decoder r)
        = concat (ta_raw <$> frames) ++ td_buffer d ++ fragment /\
        frame_step (td_framing d) (td_buffer (fr_decoder r)) = Incomplete
    | Some _ => td_buffer (fr_decoder r) = []
    end.
Proof.
  revert d fragment frames.
  induction fuel as [|fuel IH]; intros d fragment frames Hd Hf Hfs Hfuel; [lia|].
  rewrite feed_loop_step by apply Hd.
  destruct (frame_step (td_framing d) (td_buffer d)) eqn:E.
  - destruct (zlen fragment =? 0) eqn:E0.
    { bool_hyps. destruct fragment; [|rewrite zlen_cons in *; pose proof (zlen_nonneg fragment); lia].
      eexists. split; [done|]. cbn. rewrite app_nil_r. done. }
    destruct (_ && _) eqn:Em.
    { eexists. split; [done|]. cbn. conj; try done. by apply reset_ok. }
    cbv zeta. fold (intake d fragment). bool_hyps.
    destruct (intake_bounds d fragment) as [Hi Hi']; [done..|].
    destruct (IH (with_buffer d (td_buffer d ++ take (intake d fragment) fragment))
                (drop (intake d fragment) fragment) frames) as (r & -> & Hr);
      [by apply intake_ok|by apply Forall_drop|done| |].
    + cbn. rewrite length_app, length_take, length_drop. lia.
    + exists r. split; [done|]. cbn in Hr. by rewrite <- app_assoc, take_drop in Hr.
  - rewrite failFrame_eq. eexists. split; [done|]. cbn. conj; try done. by apply reset_ok.
  - pose proof (frame_step_total _ _ _ E) as (_ & ? & ? & _). unfold zlen in *.
    destruct (IH (with_buffer d (drop (Z.to_nat total) (td_buffer d))) fragment
                (frames ++ [frame_of (take (Z.to_nat total) (td_buffer d))]))
      as (r & -> & Hr);
      [by apply cut_ok|done| |cbn; rewrite length_drop; lia|].
    + apply Forall_app. split; [done|]. constructor; [|done]. by eapply frame_of_ok.
    + exists r. split; [done|]. cbn in Hr.
      rewrite fmap_app, concat_app in Hr. cbn in Hr.
      rewrite app_nil_r, <- app_assoc, (app_assoc (take _ _)), take_drop in Hr. done.
Qed.

(** Between two calls the buffer holds no whole frame. *)
Definition settled (d : TCPStreamDecoder) : Prop :=
  decoder_ok d /\ frame_step (td_framing d) (td_buffer d) = Incomplete.

Lemma new_decoder_settled maxBuffered framing d :
  NewTCPStreamDecoderWithFraming maxBuffered framing = Ok d ->
  settled d /\ td_buffer d = [] /\ td_framing d = framing /\ td_maxBuffered d = maxBuffered.
Proof.
  unfold NewTCPStreamDecoderWithFraming, settled, decoder_ok, mbapHeaderSize.
  destruct (validTCPFraming framing) eqn:Ev; cbn [negb]; [|done].
  case_test; intros; simp_res. apply orb_false_elim in Heqb as [? Ht]. bool_hyps.
  cbn. conj; try done; [|rewrite zlen_nil; lia].
  intros ->. cbn in Ht. bool_hyps. done.
Qed.

Lemma feed_roomy d fragment :
  decoder_ok d -> roomy d -> Forall u8 fragment ->
  Feed d fragment = Some (feed_spec d [] (td_buffer d ++ fragment)).
Proof. intros. unfold Feed, feed_fuel. apply feed_loop_roomy; try done. lia. Qed.

Lemma feed_safe d fragment :
  decoder_ok d -> Forall u8 fragment ->
  exists r, Feed d fragment = Some r /\
    decoder_ok (fr_decoder r) /\
    td_framing (fr_decoder r) = td_framing d /\
    Forall (frame_ok (td_framing d)) (fr_frames r) /\
    match fr_error r with
    | None =>
        concat (ta_raw <$> fr_frames r) ++ td_buffer (fr_decoder r)
        = td_buffer d ++ fragment /\
        frame_step (td_framing d) (td_buffer (fr_decoder r)) = Incomplete
    | Some _ => td_buffer (fr_decoder r) = []
    end.
Proof.
  intros Hd Hf.
  destruct (feed_loop_safe (feed_fuel d fragment) d fragment []) as (r & E & Hr);
    try done; [unfold feed_fuel; lia|by exists r].
Qed.

Lemma feed_roomy_settled d fragment fs rest :
  settled d -> roomy d -> Forall u8 fragment ->
  frames_of (td_framing d) (td_buffer d ++ fragment) = Ok (fs, rest) ->
  Feed d fragment = Some {| fr_frames := fs; fr_error := None; fr_decoder := with_buffer d rest |} /\
  settled (with_buffer d rest).
Proof.
  intros [Hd Hs] Hr Hf E.
  destruct (feed_safe d fragment) as (r & Er & Hok & Hfr & _ & Hc); [done..|].
  rewrite feed_roomy in Er |- * by done. unfold feed_spec in *. rewrite E in Er |- *.
  injection Er as <-. cbn in *. split; [done|]. split; [done|]. apply Hc.
Qed.

(** Feeding the fragments of a stream one by one, on a buffer that holds any
    frame of the framing. *)
Lemma feed_all_roomy fragments d :
  settled d -> roomy d -> Forall (Forall u8) fragments ->
  match frames_of (td_framing d) (td_buffer d ++ concat fragments) with
  | Ok (fs, rest) =>
      feed_all d fragments
      = Some {| fr_frames := fs; fr_error := None; fr_decoder := with_buffer d rest |}
  | Err (field, offset) =>
      exists k fragment fs rest,
        fragments !! k = Some fragment /\
        frames_of (td_framing d) (td_buffer d ++ concat (take k fragments)) = Ok (fs, rest) /\
        frames_of (td_framing d) (rest ++ fragment) = Err (field, offset) /\
        feed_all d fragments
        = Some {| fr_frames := fs;
                  fr_error := Some (framing_error (td_framing d) field offset (rest ++ fragment));
                  fr_decoder := with_buffer d [] |}
  end.
Proof.
  revert d. induction fragments as [|f fragments IH]; intros d Hs Hr Hf.
  { cbn. rewrite app_nil_r, frames_of_eq. destruct Hs as [_ ->]. by rewrite with_buffer_id. }
  apply Forall_cons in Hf as [Hf Hfs]. cbn [concat feed_all].
  rewrite app_assoc, frames_of_app.
  destruct (frames_of (td_framing d) (td_buffer d ++ f)) as [[fs rest]|[field offset]] eqn:E.
  - destruct (feed_roomy_settled d f fs rest) as [-> Hs']; [done..|]. cbn [fr_error fr_decoder].
    specialize (IH _ Hs' Hr Hfs). cbn [td_framing td_buffer with_buffer] in IH.
    destruct (frames_of (td_framing d) (rest ++ concat fragments))
      as [[fs' rest']|[field offset]].
    + rewrite IH. done.
    + destruct IH as (k & fragment & fs' & rest' & Hk & Hok & Herr & ->).
      exists (S k), fragment, (fs ++ fs'), rest'. conj; [done| |done|done].
      cbn. by rewrite app_assoc, frames_of_app, E, Hok.
  - rewrite feed_roomy by (done || apply Hs). unfold feed_spec. rewrite E. cbn.
    exists 0%nat, f, [], (td_buffer d). conj; [done| |done|done].
    cbn. rewrite app_nil_r, frames_of_eq. by destruct Hs as [_ ->].
Qed.

(** An ADU as its three fields, and what the decoder delivers for it. *)
Definition adu_bytes (adu : Z * Z * list Z) : presult (list Z) :=
  let '(transactionID, unitID, pdu) := adu in encodeTCPADU transactionID unitID pdu.

Definition adu_frame (adu : Z * Z * list Z) (raw : list Z) : TCPADU :=
  let '(transactionID, unitID, pdu) := adu in
  {| ta_transactionID := transactionID; ta_unitID := unitID; ta_pdu := pdu; ta_raw := raw |}.

Definition adu_ok (adu : Z * Z * list Z) : Prop :=
  let '(transactionID, unitID, pdu) := adu in
  u16 transactionID /\ u8 unitID /\ Forall u8 pdu.

Lemma frame_step_encoded framing adu raw :
  validTCPFraming framing = true -> adu_ok adu -> adu_bytes adu = Ok raw ->
  frame_step framing raw = Frame (zlen raw) /\ frame_of raw = adu_frame adu raw /\
  Forall u8 raw.
Proof.
  destruct adu as [[tid unit] pdu]. intros Hv (Ht & Hu & Hp).
  unfold adu_bytes, encodeTCPADU. repeat case_test; intros; simp_res. bool_hyps.
  change MaxPDUSize with 253 in *. pose proof (zlen_nonneg pdu).
  set (raw := _ :: _).
  assert (Hl : zlen raw = 7 + zlen pdu) by (unfold raw; zlen_simpl; lia).
  assert (Hw : u16 (zlen pdu + 1)) by (unfold u16; lia).
  conj.
  - unfold frame_step. rewrite Hl. unfold raw. cbn -[be16 wrap8 Z.shiftr Z.add].
    rewrite be16_split by done. cbv zeta.
    assert (260 <= tcpFramingADUBound framing).
    { destruct (framing_cases framing Hv) as [[_ ->]|[_ ->]]; lia. }
    test_false (7 + zlen pdu <? 7).
    test_false ((zlen pdu + 1 <? 2) || (zlen pdu + 1 >? tcpFramingADUBound framing - 6)).
    test_false (7 + zlen pdu <? 6 + (zlen pdu + 1)). f_equal. lia.
  - unfold frame_of, adu_frame. cbn. by rewrite be16_split.
  - unfold raw. repeat (constructor; [by try apply wrap8_u8|]). done.
Qed.

(** Cutting the concatenation of encoded ADUs gives them back. *)
Lemma frames_of_encoded framing adus raws :
  validTCPFraming framing = true -> Forall adu_ok adus ->
  Forall2 (fun adu raw => adu_bytes adu = Ok raw) adus raws ->
  frames_of framing (concat raws) = Ok (zip_with adu_frame adus raws, []) /\
  Forall u8 (concat raws).
Proof.
  intros Hv Ho H. induction H as [|adu raw adus raws Hraw H IH]; [done|].
  apply Forall_cons in Ho as [Ho Hos]. destruct (IH Hos) as [IH1 IH2].
  destruct (frame_step_encoded framing adu raw) as (Es & Ef & Eb); [done..|].
  split; [|by apply Forall_app]. cbn [concat zip_with].
  rewrite frames_of_eq, frame_step_app by congruence. rewrite Es.
  unfold zlen. rewrite Nat2Z.id, take_app_length, drop_app_length, IH1, Ef. done.
Qed.

Lemma Forall_concat_inv {A} (P : A -> Prop) (ls : list (list A)) :
  Forall P (concat ls) -> Forall (Forall P) ls.
Proof.
  induction ls as [|l ls IH]; [done|]. cbn. intros [? ?]%Forall_app. constructor; eauto.
Qed.

(** * Properties *)

(** On any decoder that satisfies the constructor's invariant, whatever the
    fragment, [Feed] returns; the decoder it leaves satisfies the invariant
    again (so the buffer never exceeds its bound); every delivered frame is a
    whole frame of the framing; without an error no byte is lost, duplicated or
    reordered, and the buffer holds no whole frame. *)
Theorem feed_preserves_invariant d fragment :
  decoder_ok d -> Forall u8 fragment ->
  exists r, Feed d fragment = Some r /\
    decoder_ok (fr_decoder r) /\
    Forall (frame_ok (td_framing d)) (fr_frames r) /\
    match fr_error r with
    | None =>
        concat (ta_raw <$> fr_frames r) ++ td_buffer (fr_decoder r)
        = td_buffer d ++ fragment /\
        frame_step (td_framing d) (td_buffer (fr_decoder r)) = Incomplete
    | Some _ => td_buffer (fr_decoder r) = []
    end.
Proof.
  intros Hd Hf. destruct (feed_safe d fragment) as (r & ? & ? & _ & ? & ?); eauto.
Qed.

Definition demo_decoder : TCPStreamDecoder :=
  {| td_maxBuffered := 300; td_framing := 0; td_buffer := [0; 7; 0] |}.

Lemma demo_decoder_settled : settled demo_decoder.
Proof. split; [|done]. unfold decoder_ok. conj; try done. solve_bytes. Qed.

Lemma feed_preserves_invariant_witness :
  exists r, Feed demo_decoder [0; 0; 2; 1; 3; 0; 8] = Some r /\
    decoder_ok (fr_decoder r) /\ length (fr_frames r) = 1%nat.
Proof.
  destruct (feed_preserves_invariant demo_decoder [0; 0; 2; 1; 3; 0; 8])
    as (r & E & Hr & _); [apply demo_decoder_settled| |].
  - solve_bytes.
  - exists r. split; [exact E|]. split; [exact Hr|].
    vm_compute in E. injection E as <-. reflexivity.
Defined.

(** C13: A stream decoder whose buffer holds any frame of its framing decodes the
    stream, not the fragments.  While the bytes received are well framed, feeding the
    fragments one after the other delivers exactly the frames, and keeps exactly the
    rest, of cutting the whole byte string at once.  A stream that is not well framed is
    refused however it is cut, with the field and offset of its first malformed header,
    by the fragment in which that header becomes complete: the frames delivered are those
    of the fragments before it, none of that fragment, and the error of a tolerant decoder
    retains every byte that was not delivered. *)
Theorem feed_partition_independent d fragments :
  settled d -> roomy d -> Forall (Forall u8) fragments ->
  match frames_of (td_framing d) (td_buffer d ++ concat fragments) with
  | Ok (fs, rest) =>
      feed_all d fragments
      = Some {| fr_frames := fs; fr_error := None; fr_decoder := with_buffer d rest |}
  | Err (field, offset) =>
      exists k fragment fs rest,
        fragments !! k = Some fragment /\
        frames_of (td_framing d) (td_buffer d ++ concat (take k fragments)) = Ok (fs, rest) /\
        frames_of (td_framing d) (rest ++ fragment) = Err (field, offset) /\
        feed_all d fragments
        = Some {| fr_frames := fs;
                  fr_error := Some (framing_error (td_framing d) field offset (rest ++ fragment));
                  fr_decoder := with_buffer d [] |}
  end.
Proof. apply feed_all_roomy. Qed.

Lemma feed_partition_independent_witness :
  feed_all demo_decoder [[0; 0]; [2; 1; 3]; [0; 8]]
  = Some {| fr_frames := [frame_of [0; 7; 0; 0; 0; 2; 1; 3]]; fr_error := None;
            fr_decoder := with_buffer demo_decoder [0; 8] |}.
Proof.
  refine (feed_partition_independent demo_decoder [[0; 0]; [2; 1; 3]; [0; 8]]
            demo_decoder_settled _ _).
  - by vm_compute.
  - repeat (constructor; [solve_bytes|]). constructor.
Defined.

(** C32: Encode-decode round trip over a fragmented stream: the concatenated
    encodings of any sequence of ADUs, cut into fragments at arbitrary places,
    decode on a fresh decoder (strict with room for a strict frame, or tolerant)
    to exactly those ADUs, in order and with their fields, and [Finish] then
    reports no truncation. *)
Theorem tcp_stream_roundtrip maxBuffered framing d adus raws fragments :
  NewTCPStreamDecoderWithFraming maxBuffered framing = Ok d ->
  maxTCPADUSize <= maxBuffered ->
  Forall adu_ok adus ->
  Forall2 (fun adu raw => adu_bytes adu = Ok raw) adus raws ->
  concat fragments = concat raws ->
  feed_all d fragments
  = Some {| fr_frames := zip_with adu_frame adus raws; fr_error := None; fr_decoder := d |} /\
  Finish d = (d, None).
Proof.
  intros Hd Hmax Ho H Hc.
  destruct (new_decoder_settled _ _ _ Hd) as (Hs & Eb & Ef & Em).
  pose proof (proj1 (proj1 Hs)) as Hv.
  destruct (frames_of_encoded (td_framing d) adus raws) as [Efr Hu]; [done..|].
  pose proof (feed_all_roomy fragments d Hs) as Hfeed.
  rewrite Eb, Hc in Hfeed. cbn [app] in Hfeed. rewrite Efr in Hfeed.
  rewrite Hfeed.
  - rewrite <- Eb, with_buffer_id. split; [done|]. unfold Finish. by rewrite Eb.
  - unfold roomy. rewrite Em.
    destruct (framing_cases _ Hv) as [[_ ->]|[E ->]]; [exact Hmax|].
    destruct Hs as [(_ & _ & Ht & _) _]. rewrite <- Em. apply Ht. exact E.
  - apply Forall_concat_inv. by rewrite Hc.
Qed.

Lemma tcp_stream_roundtrip_witness :
  exists d, NewTCPStreamDecoder 260 = Ok d /\
  feed_all d [[0]; [9; 0; 0; 0; 6; 17]; [3; 0; 1; 0; 1; 0]; [10; 0; 0; 0; 2; 5; 43]]
  = Some {| fr_frames := [adu_frame (9, 17, [3; 0; 1; 0; 1]) [0; 9; 0; 0; 0; 6; 17; 3; 0; 1; 0; 1];
                          adu_frame (10, 5, [43]) [0; 10; 0; 0; 0; 2; 5; 43]];
            fr_error := None; fr_decoder := d |}.
Proof.
  eexists. split; [reflexivity|].
  refine (proj1 (tcp_stream_roundtrip 260 0 _ [(9, 17, [3; 0; 1; 0; 1]); (10, 5, [43])]
    [[0; 9; 0; 0; 0; 6; 17; 3; 0; 1; 0; 1]; [0; 10; 0; 0; 0; 2; 5; 43]]
    [[0]; [9; 0; 0; 0; 6; 17]; [3; 0; 1; 0; 1; 0]; [10; 0; 0; 0; 2; 5; 43]]
    eq_refl _ _ _ eq_refl)).
  - by vm_compute.
  - repeat (constructor; [unfold adu_ok; conj; try (unfold u16, u8; lia); solve_bytes|]).
    constructor.
  - by repeat constructor.
Defined.
