(* ===== verification/RtuTiming.v ===== *)
(** RTU serial timing (rtu_timing.go): the validated t1.5 and t3.5 silent
    intervals and the transmit horizon of a frame.  Durations are nanoseconds
    in an [int64]; intermediate products are [uint64] with their wrap-around. *)

From S2P Require Import Prelude Pdu.

(** * Data *)

Definition Second : Z := 1000000000.
Definition rtuFixedInterCharacter : Z := 750000.
Definition rtuFixedInterFrame : Z := 1750000.
Definition rtuFixedTimerBaudFloor : Z := 19200.
Definition rtuHostInterCharacter : Z := 20000000.
Definition MaxRTUADUSize : Z := 256.

Definition RTUParityNone : string := "none".
Definition RTUParityEven : string := "even".
Definition RTUParityOdd : string := "odd".

Record RTUTimingConfig : Type := mkRTUTimingConfig {
  tc_Baud : Z;
  tc_DataBits : Z;
  tc_Parity : string;
  tc_StopBits : Z;
  tc_InterCharacterSafety : Z;
  tc_InterFrameSafety : Z;
  tc_MaxResponseLatency : Z;
  tc_MaxQuiescence : Z
}.

Record RTUTiming : Type := mkRTUTiming {
  rt_baud : Z;
  rt_bitsPerCharacter : Z;
  rt_characterTime : Z;
  rt_interCharacter : Z;
  rt_interFrame : Z;
  rt_readInterCharacter : Z;
  rt_maxResponseLatency : Z;
  rt_maxQuiescence : Z
}.

#[export] Instance RTUTiming_eq_dec : EqDecision RTUTiming.
Proof. solve_decision. Defined.

(** * Operations *)

(** The duration, or [None] for Go's [ok = false]. *)
Definition ceilRTUDuration (numerator denominator : Z) : option Z :=
  if (denominator =? 0) || (numerator >? MaxInt64) then None
  else
    let value := numerator / denominator in
    let value := if negb (numerator mod denominator =? 0) then wrap64 (value + 1) else value in
    if (value =? 0) || (value >? MaxInt64) then None else Some value.

Definition rtu_range_error (field : string) : ProtocolError :=
  protocolError ErrorInvalidRange 0 0 field (-1).

Definition invalid_timing_config (config : RTUTimingConfig) : bool :=
  (tc_Baud config =? 0) || negb (tc_DataBits config =? 8)
  || (negb (String.eqb (tc_Parity config) RTUParityNone)
      && negb (String.eqb (tc_Parity config) RTUParityEven)
      && negb (String.eqb (tc_Parity config) RTUParityOdd))
  || (negb (tc_StopBits config =? 1) && negb (tc_StopBits config =? 2))
  || (tc_MaxResponseLatency config <=? 0)
  || (tc_MaxQuiescence config <=? tc_MaxResponseLatency config).

Definition bits_per_character (config : RTUTimingConfig) : Z :=
  let parityBits := if negb (String.eqb (tc_Parity config) RTUParityNone) then 1 else 0 in
  wrap8 (1 + tc_DataBits config + parityBits + tc_StopBits config).

(** The two silent intervals before the configured safety increases. *)
Definition base_intervals (config : RTUTimingConfig) : presult (Z * Z) :=
  let bits := bits_per_character config in
  if tc_Baud config >? rtuFixedTimerBaudFloor then
    Ok (rtuFixedInterCharacter, rtuFixedInterFrame)
  else
    match ceilRTUDuration (wrap64 (bits * 3 * Second)) (wrap64 (tc_Baud config * 2)) with
    | None => Err (rtu_range_error "rtu_inter_character")
    | Some interCharacter =>
        match ceilRTUDuration (wrap64 (bits * 7 * Second)) (wrap64 (tc_Baud config * 2)) with
        | None => Err (rtu_range_error "rtu_inter_frame")
        | Some interFrame => Ok (interCharacter, interFrame)
        end
    end.

(** A non-zero safety interval replaces the base interval it must not undercut. *)
Definition safety_interval (safety base : Z) (field : string) : presult Z :=
  if negb (safety =? 0) then
    if safety <? base then Err (rtu_range_error field) else Ok safety
  else Ok base.

Definition NewRTUTiming (config : RTUTimingConfig) : presult RTUTiming :=
  if invalid_timing_config config then
    Err (protocolError ErrorInvalidRequest 0 0 "rtu_timing" (-1))
  else
  let bits := bits_per_character config in
  match ceilRTUDuration (wrap64 (bits * Second)) (tc_Baud config) with
  | None => Err (rtu_range_error "rtu_character_time")
  | Some character =>
  base ← base_intervals config;
  interCharacter ← safety_interval (tc_InterCharacterSafety config) (fst base)
                     "rtu_inter_character_safety";
  interFrame ← safety_interval (tc_InterFrameSafety config) (snd base)
                 "rtu_inter_frame_safety";
  if interCharacter >=? interFrame then
    Err (rtu_range_error "rtu_silent_interval_order")
  else
  let readInterCharacter :=
    if (tc_InterCharacterSafety config =? 0) && (interCharacter <? rtuHostInterCharacter)
    then rtuHostInterCharacter else interCharacter in
  Ok {| rt_baud := tc_Baud config; rt_bitsPerCharacter := bits;
        rt_characterTime := character; rt_interCharacter := interCharacter;
        rt_interFrame := interFrame; rt_readInterCharacter := readInterCharacter;
        rt_maxResponseLatency := tc_MaxResponseLatency config;
        rt_maxQuiescence := tc_MaxQuiescence config |}
  end.

Definition FrameTransmitHorizon (timing : RTUTiming) (frameBytes : Z) : presult Z :=
  if (frameBytes <=? 0) || (frameBytes >? MaxRTUADUSize)
     || (rt_characterTime timing <=? 0)
     || (frameBytes >? Z.quot MaxInt64 (rt_characterTime timing)) then
    Err (rtu_range_error "rtu_frame_horizon")
  else Ok (frameBytes * rt_characterTime timing).

(** * Specification *)

(** The smallest whole number of nanoseconds not below [numerator / denominator]. *)
Definition ceil_div (numerator denominator : Z) : Z := - ((- numerator) / denominator).

Definition config_ok (config : RTUTimingConfig) : Prop :=
  u32 (tc_Baud config) /\ u8 (tc_DataBits config) /\ u8 (tc_StopBits config).

Definition character_bits (config : RTUTimingConfig) : Z :=
  9 + (if String.eqb (tc_Parity config) "none" then 0 else 1) + tc_StopBits config.

(** The t1.5 and t3.5 intervals the standard prescribes, in nanoseconds. *)
Definition standard_t15 (config : RTUTimingConfig) : Z :=
  if tc_Baud config >? 19200 then 750000
  else ceil_div (3 * character_bits config * Second) (2 * tc_Baud config).

Definition standard_t35 (config : RTUTimingConfig) : Z :=
  if tc_Baud config >? 19200 then 1750000
  else ceil_div (7 * character_bits config * Second) (2 * tc_Baud config).

(** * Lemmas *)

Lemma ceil_div_spec n d :
  0 < d -> n <= ceil_div n d * d < n + d.
Proof.
  intros Hd. unfold ceil_div. pose proof (Z.div_mod (- n) d).
  pose proof (Z.mod_pos_bound (- n) d). nia.
Qed.

Lemma ceil_div_unique n d q : 0 < d -> n <= q * d < n + d -> q = ceil_div n d.
Proof. intros Hd Hq. pose proof (ceil_div_spec n d Hd). nia. Qed.

Lemma ceilRTUDuration_eq n d :
  0 < n < 2 ^ 62 -> 0 < d -> ceilRTUDuration n d = Some (ceil_div n d).
Proof.
  intros Hn Hd. unfold ceilRTUDuration, MaxInt64.
  pose proof (Z.div_mod n d ltac:(lia)). pose proof (Z.mod_pos_bound n d Hd).
  assert (0 <= n / d < 2 ^ 62) by (split; [apply Z.div_pos; lia|apply Z.div_lt_upper_bound; nia]).
  test_false ((d =? 0) || (n >? 9223372036854775807)). cbv iota zeta.
  destruct (n mod d =? 0) eqn:E; cbn [negb]; bool_hyps.
  - rewrite <- (ceil_div_unique n d (n / d)) by nia.
    else_branch; [done|]. bool_goal; nia.
  - rewrite wrap64_id by (unfold u64; lia).
    rewrite <- (ceil_div_unique n d (n / d + 1)) by nia.
    else_branch; [done|]. bool_goal; lia.
Qed.

(** The format the constructor accepts: 8 data bits, a known parity, one or two
    stop bits, and a positive latency below the quiescence bound. *)
Definition format_ok (config : RTUTimingConfig) : Prop :=
  tc_Baud config <> 0 /\ tc_DataBits config = 8 /\
  tc_Parity config ∈ [RTUParityNone; RTUParityEven; RTUParityOdd] /\
  (tc_StopBits config = 1 \/ tc_StopBits config = 2) /\
  0 < tc_MaxResponseLatency config < tc_MaxQuiescence config.

Lemma invalid_timing_config_iff config :
  invalid_timing_config config = false <-> format_ok config.
Proof.
  unfold invalid_timing_config, format_ok. rewrite !elem_of_cons, elem_of_nil.
  rewrite !orb_false_iff, !andb_false_iff, !negb_false_iff, !String.eqb_eq,
    !Z.eqb_eq, !Z.leb_gt, Z.eqb_neq.
  intuition lia.
Qed.

Lemma bits_per_character_eq config :
  format_ok config ->
  bits_per_character config = character_bits config /\ 10 <= character_bits config <= 12.
Proof.
  intros (_ & H8 & _ & Hs & _). unfold bits_per_character, character_bits.
  change RTUParityNone with "none". rewrite H8.
  destruct (String.eqb _ _); cbn [negb]; rewrite ?wrap8_id by (unfold u8; lia); lia.
Qed.

Lemma base_intervals_eq config :
  config_ok config -> format_ok config ->
  base_intervals config = Ok (standard_t15 config, standard_t35 config).
Proof.
  intros [Hb _] Hf. pose proof (bits_per_character_eq _ Hf) as [E ?].
  destruct Hf as [? _]. unfold u32 in Hb.
  unfold base_intervals, standard_t15, standard_t35. cbv zeta. rewrite E.
  change rtuFixedTimerBaudFloor with 19200. destruct (_ >? _); [done|].
  unfold Second. rewrite !wrap64_id by (unfold u64; lia).
  rewrite !ceilRTUDuration_eq by lia.
  f_equal; apply f_equal2; apply f_equal2; lia.
Qed.

Lemma standard_intervals config :
  config_ok config -> format_ok config ->
  0 < standard_t15 config < standard_t35 config /\ standard_t35 config <= 42000000000.
Proof.
  intros [Hb _] Hf. pose proof (bits_per_character_eq _ Hf) as [_ ?].
  destruct Hf as [? _]. unfold u32 in Hb. unfold standard_t15, standard_t35, Second.
  destruct (tc_Baud config >? 19200) eqn:E; bool_hyps; [lia|].
  pose proof (ceil_div_spec (3 * character_bits config * 1000000000) (2 * tc_Baud config)).
  pose proof (ceil_div_spec (7 * character_bits config * 1000000000) (2 * tc_Baud config)).
  nia.
Qed.

(** The interval a configured safety value selects. *)
Definition selected (safety base : Z) : Z := if safety =? 0 then base else safety.

Lemma safety_interval_ok safety base field v :
  safety_interval safety base field = Ok v <->
  v = selected safety base /\ (safety = 0 \/ base <= safety).
Proof.
  unfold safety_interval, selected. destruct (safety =? 0) eqn:E0; cbn [negb]; bool_hyps.
  - split; [intros; simp_res; auto|]. intros [-> _]. done.
  - destruct (safety <? base) eqn:E; bool_hyps;
      (split; [intros; simp_res|intros [-> ?]; try done]; [..|lia]); auto.
Qed.

(** The timing contract of an accepted configuration. *)
Definition timing_of (config : RTUTimingConfig) : RTUTiming :=
  let t15 := selected (tc_InterCharacterSafety config) (standard_t15 config) in
  {| rt_baud := tc_Baud config;
     rt_bitsPerCharacter := character_bits config;
     rt_characterTime := ceil_div (character_bits config * Second) (tc_Baud config);
     rt_interCharacter := t15;
     rt_interFrame := selected (tc_InterFrameSafety config) (standard_t35 config);
     rt_readInterCharacter :=
       if tc_InterCharacterSafety config =? 0 then Z.max t15 20000000 else t15;
     rt_maxResponseLatency := tc_MaxResponseLatency config;
     rt_maxQuiescence := tc_MaxQuiescence config |}.

Lemma new_rtu_timing_spec config t :
  config_ok config ->
  NewRTUTiming config = Ok t <->
  format_ok config /\
  (tc_InterCharacterSafety config = 0 \/
   standard_t15 config <= tc_InterCharacterSafety config) /\
  (tc_InterFrameSafety config = 0 \/ standard_t35 config <= tc_InterFrameSafety config) /\
  rt_interCharacter t < rt_interFrame t /\
  t = timing_of config.
Proof.
  intros Hc. unfold NewRTUTiming.
  destruct (invalid_timing_config config) eqn:Ei.
  { split; [done|]. intros [Hf%invalid_timing_config_iff _]. congruence. }
  apply invalid_timing_config_iff in Ei as Hf.
  pose proof (bits_per_character_eq _ Hf) as [Eb ?]. cbv zeta. rewrite Eb.
  pose proof Hc as [Hb _]. pose proof Hf as [? _]. unfold u32 in Hb.
  unfold Second. rewrite wrap64_id, ceilRTUDuration_eq by (unfold u64; lia).
  rewrite base_intervals_eq by done. cbn [mbind result_bind fst snd].
  destruct (safety_interval _ (standard_t15 config) _) as [ic|] eqn:E1; cbn [mbind result_bind].
  2: { split; [done|]. intros (_ & H1 & _). exfalso.
       pose proof (proj2 (safety_interval_ok _ _ "rtu_inter_character_safety" _) (conj eq_refl H1)).
       congruence. }
  destruct (safety_interval _ (standard_t35 config) _) as [jf|] eqn:E2; cbn [mbind result_bind].
  2: { split; [done|]. intros (_ & _ & H1 & _). exfalso.
       pose proof (proj2 (safety_interval_ok _ _ "rtu_inter_frame_safety" _) (conj eq_refl H1)).
       congruence. }
  apply safety_interval_ok in E1 as [-> ?], E2 as [-> ?].
  destruct (_ >=? _) eqn:E; bool_hyps.
  - split; [done|]. intros (_ & _ & _ & Hlt & ->). cbn in Hlt. lia.
  - set (r := if _ && _ then _ else _).
    replace r with (rt_readInterCharacter (timing_of config)).
    + split; [intros; simp_res; cbn; done|]. intros (_ & _ & _ & _ & ->). done.
    + unfold r, timing_of, rtuHostInterCharacter. cbn [rt_readInterCharacter].
      destruct (tc_InterCharacterSafety config =? 0); cbn [andb]; [|done].
      unfold rtuHostInterCharacter in *. destruct (_ <? _) eqn:?; bool_hyps; lia.
Qed.

(** * Properties *)

(** [NewRTUTiming] accepts exactly the valid serial formats whose safety
    intervals do not undercut the standard's t1.5 and t3.5 and keep t1.5 below
    t3.5; every duration of the contract is then the exact ceiling in
    nanoseconds (no 64-bit product wraps), the typed-read gap is at least 20 ms
    unless overridden. *)
Theorem new_rtu_timing_iff config t :
  config_ok config ->
  NewRTUTiming config = Ok t <->
  format_ok config /\
  (tc_InterCharacterSafety config = 0 \/
   standard_t15 config <= tc_InterCharacterSafety config) /\
  (tc_InterFrameSafety config = 0 \/ standard_t35 config <= tc_InterFrameSafety config) /\
  rt_interCharacter t < rt_interFrame t /\
  t = timing_of config.
Proof. apply new_rtu_timing_spec. Qed.

Definition demo_config : RTUTimingConfig :=
  {| tc_Baud := 9600; tc_DataBits := 8; tc_Parity := "even"; tc_StopBits := 1;
     tc_InterCharacterSafety := 0; tc_InterFrameSafety := 0;
     tc_MaxResponseLatency := 1000; tc_MaxQuiescence := 2000 |}.

Lemma demo_config_ok : config_ok demo_config /\ format_ok demo_config.
Proof.
  split; [unfold config_ok, u32, u8; cbn; lia|].
  unfold format_ok. cbn. conj; try lia. rewrite !elem_of_cons. auto.
Qed.

Lemma new_rtu_timing_iff_witness :
  exists t, NewRTUTiming demo_config = Ok t /\
    rt_interCharacter t = 1718750 /\ rt_interFrame t = 4010417.
Proof.
  exists (timing_of demo_config).
  split; [|by vm_compute]. apply new_rtu_timing_iff; [apply demo_config_ok|].
  split; [apply demo_config_ok|]. cbn [tc_InterCharacterSafety tc_InterFrameSafety demo_config].
  conj; try auto. by vm_compute.
Defined.

(** Every valid serial format without safety overrides is accepted: the two
    ceilings never violate the order of the silent intervals, at any baud rate;
    and every accepted contract gives every frame size of the protocol a
    transmit horizon that is at least the serialization time, and fits the
    64-bit duration. *)
Theorem rtu_timing_total config n :
  config_ok config -> format_ok config ->
  tc_InterCharacterSafety config = 0 -> tc_InterFrameSafety config = 0 ->
  1 <= n <= MaxRTUADUSize ->
  exists t h, NewRTUTiming config = Ok t /\ FrameTransmitHorizon t n = Ok h /\
    n * character_bits config * Second <= h * tc_Baud config /\ 0 < h <= MaxInt64.
Proof.
  intros Hc Hf H1 H2 Hn. pose proof (standard_intervals _ Hc Hf).
  pose proof (bits_per_character_eq _ Hf) as [_ ?].
  pose proof (proj1 Hc). pose proof (proj1 Hf). unfold u32, MaxRTUADUSize in *.
  pose proof (ceil_div_spec (character_bits config * Second) (tc_Baud config) ltac:(lia)).
  exists (timing_of config). eexists. split.
  { apply new_rtu_timing_spec; [done|]. conj; try done; try (left; done).
    cbn. rewrite H1, H2. cbn. lia. }
  unfold FrameTransmitHorizon. cbn [rt_characterTime timing_of]. unfold Second in *.
  set (c := ceil_div _ _) in *.
  assert (0 < c <= 12000000000) by nia.
  assert (Z.quot MaxInt64 12000000000 <= Z.quot MaxInt64 c)
    by (apply Z.quot_le_compat_l; unfold MaxInt64; lia).
  change (Z.quot MaxInt64 12000000000) with 768614336 in *.
  test_false ((n <=? 0) || (n >? MaxRTUADUSize) || (c <=? 0) || (n >? Z.quot MaxInt64 c)).
  2: { unfold MaxRTUADUSize. bool_goal; lia. }
  split; [done|]. unfold MaxInt64. nia.
Qed.

Lemma rtu_timing_total_witness :
  exists t h, NewRTUTiming demo_config = Ok t /\ FrameTransmitHorizon t 256 = Ok h /\
    256 * character_bits demo_config * Second <= h * tc_Baud demo_config /\ 0 < h <= MaxInt64.
Proof.
  apply rtu_timing_total; [apply demo_config_ok..|reflexivity|reflexivity|].
  unfold MaxRTUADUSize. lia.
Defined.
