(* ===== verification/RtuAdu.v ===== *)
(** Modbus RTU application data units (rtu_adu.go): CRC-16, frame encoding and
    decoding, typed responses, and the frame decoder driven by byte arrival
    offsets.  The CRC is analysed as a linear shift register: a frame is valid
    when the register ends at zero, and no error confined to two adjacent bytes
    keeps it there. *)

From S2P Require Import Prelude Pdu DeviceId RtuTiming.

(** * Data *)

Definition minRTUADUSize : Z := 4.

Record RTUADU : Type := mkRTUADU {
  ru_unitID : Z;
  ru_pdu : list Z;
  ru_raw : list Z
}.

#[export] Instance RTUADU_eq_dec : EqDecision RTUADU.
Proof. solve_decision. Defined.

(** Go's zero value. *)
Definition zeroRTUADU : RTUADU := {| ru_unitID := 0; ru_pdu := []; ru_raw := [] |}.

(** The decoded responses keep the frame on every error after decoding; the
    decoded value is absent then. *)
Record RTUReadResponseADU : Type := mkRTUReadResponseADU {
  rra_adu : RTUADU;
  rra_response : option ReadRegistersResponse
}.

Record RTUDeviceIDResponseADU : Type := mkRTUDeviceIDResponseADU {
  rda_adu : RTUADU;
  rda_segment : option DeviceIDSegment
}.

(** * CRC-16/Modbus *)

Definition crc_bit (crc : Z) : Z :=
  if negb (Z.land crc 1 =? 0) then Z.lxor (Z.shiftr crc 1) 0xa001 else Z.shiftr crc 1.

Definition crc_byte (crc value : Z) : Z := Nat.iter 8 crc_bit (Z.lxor crc value).

Definition rtuCRC16 (data : list Z) : Z := fold_left crc_byte data 0xffff.

(** * Encoding *)

Definition encodeRTUADU (unitID : Z) (pdu : list Z) : presult (list Z) :=
  if (unitID =? 0) || (unitID >? 247) then
    Err (protocolError ErrorInvalidRequest 0 0 "unit_id" 0)
  else if (zlen pdu =? 0) || (zlen pdu >? MaxPDUSize) then
    Err (protocolError ErrorInvalidRange 0 0 "pdu_length" 1)
  else
    let crc := rtuCRC16 (unitID :: pdu) in
    Ok (unitID :: pdu ++ [wrap8 crc; wrap8 (Z.shiftr crc 8)]).

Definition EncodeRTUReadADU (unitID : Z) (request : ReadRegistersRequest)
    : presult (list Z) :=
  match EncodePDU request with
  | Err err => Err err
  | Ok pdu => encodeRTUADU unitID pdu
  end.

Definition EncodeRTUDeviceIDAccessADU (unitID : Z) (request : DeviceIDRequest)
    : presult (list Z) :=
  match EncodeDeviceIDPDU request with
  | Err err => Err err
  | Ok pdu => encodeRTUADU unitID pdu
  end.

(** * Decoding *)

(** The frame is returned with the error too: [(adu, err)]. *)
Definition decodeRTUADU (frame : list Z) : RTUADU * option ProtocolError :=
  let adu := {| ru_unitID := 0; ru_pdu := []; ru_raw := frame |} in
  if (zlen frame <? minRTUADUSize) || (zlen frame >? MaxRTUADUSize) then
    (adu, Some (protocolError ErrorMalformedResponse 0 0 "rtu_adu_length" (zlen frame)))
  else
  let unitID := frame !!! 0%nat in
  if (unitID =? 0) || (unitID >? 247) then
    (adu, Some (protocolError ErrorMalformedResponse 0 0 "unit_id" 0))
  else
  let n := (length frame - 2)%nat in
  let want := rtuCRC16 (take n frame) in
  let got := Z.lor (frame !!! n) (wrap16 (Z.shiftl (frame !!! S n) 8)) in
  if negb (got =? want) then
    (adu, Some (protocolError ErrorMalformedResponse 0 0 "crc16" (zlen frame - 2)))
  else
    ({| ru_unitID := unitID; ru_pdu := drop 1 (take n frame); ru_raw := frame |}, None).

Definition DecodeRTUReadResponseADU (expectedUnitID : Z) (request : ReadRegistersRequest)
    (frame : list Z) : RTUReadResponseADU * option ProtocolError :=
  if (expectedUnitID =? 0) || (expectedUnitID >? 247) then
    ({| rra_adu := zeroRTUADU; rra_response := None |},
     Some (protocolError ErrorInvalidRequest (rr_function request) 0 "unit_id" 0))
  else
  let '(adu, err) := decodeRTUADU frame in
  match err with
  | Some err => ({| rra_adu := adu; rra_response := None |}, Some err)
  | None =>
  if negb (ru_unitID adu =? expectedUnitID) then
    ({| rra_adu := adu; rra_response := None |},
     Some (protocolError ErrorMalformedResponse (rr_function request) 0 "unit_id" 0))
  else
  match DecodeReadRegistersResponse request (ru_pdu adu) with
  | Err err => ({| rra_adu := adu; rra_response := None |}, Some err)
  | Ok response => ({| rra_adu := adu; rra_response := Some response |}, None)
  end
  end.

Definition DecodeRTUDeviceIDResponseADU (expectedUnitID : Z) (request : DeviceIDRequest)
    (frame : list Z) : RTUDeviceIDResponseADU * option ProtocolError :=
  if (expectedUnitID =? 0) || (expectedUnitID >? 247) then
    ({| rda_adu := zeroRTUADU; rda_segment := None |},
     Some (protocolError ErrorInvalidRequest FunctionEncapsulatedInterface 0 "unit_id" 0))
  else
  match validateDeviceIDRequest request with
  | Some err => ({| rda_adu := zeroRTUADU; rda_segment := None |}, Some err)
  | None =>
  let '(adu, err) := decodeRTUADU frame in
  match err with
  | Some err => ({| rda_adu := adu; rda_segment := None |}, Some err)
  | None =>
  if negb (ru_unitID adu =? expectedUnitID) then
    ({| rda_adu := adu; rda_segment := None |},
     Some (protocolError ErrorMalformedResponse FunctionEncapsulatedInterface 0 "unit_id" 0))
  else
  match DecodeDeviceIDSegment request (ru_pdu adu) with
  | Err err => ({| rda_adu := adu; rda_segment := None |}, Some err)
  | Ok segment => ({| rda_adu := adu; rda_segment := Some segment |}, None)
  end
  end
  end.

(** * Frame decoder *)

Record RTUFrameDecoder : Type := mkRTUFrameDecoder {
  rd_timing : RTUTiming;
  rd_buffer : list Z;
  rd_lastByte : Z;
  rd_haveByte : bool;
  rd_poisoned : bool
}.

Definition set_rd (decoder : RTUFrameDecoder) (buffer : list Z) (lastByte : Z)
    (haveByte poisoned : bool) : RTUFrameDecoder :=
  {| rd_timing := rd_timing decoder; rd_buffer := buffer; rd_lastByte := lastByte;
     rd_haveByte := haveByte; rd_poisoned := poisoned |}.

Definition NewRTUFrameDecoder (timing : RTUTiming) : presult RTUFrameDecoder :=
  if (rt_characterTime timing <=? 0) || (rt_interCharacter timing <=? 0)
     || (rt_interFrame timing <=? 0) then
    Err (protocolError ErrorInvalidRequest 0 0 "rtu_timing" (-1))
  else
    Ok {| rd_timing := timing; rd_buffer := []; rd_lastByte := 0; rd_haveByte := false;
          rd_poisoned := false |}.

(** The part of [FeedByte] after the resynchronization test. *)
Definition feed_unpoisoned (decoder : RTUFrameDecoder) (offset value : Z)
    : RTUFrameDecoder * option ProtocolError :=
  if rd_haveByte decoder && (offset <? rd_lastByte decoder) then
    (set_rd decoder [] (rd_lastByte decoder) false true,
     Some (protocolError ErrorMalformedResponse 0 0 "rtu_inter_character_gap" (-1)))
  else if rd_haveByte decoder
          && (offset - rd_lastByte decoder >? rt_interCharacter (rd_timing decoder)) then
    (set_rd decoder [] offset false true,
     Some (protocolError ErrorMalformedResponse 0 0 "rtu_inter_character_gap" (-1)))
  else if zlen (rd_buffer decoder) =? MaxRTUADUSize then
    (set_rd decoder [] offset false true,
     Some (protocolError ErrorInvalidRange 0 0 "rtu_buffer" (-1)))
  else
    (set_rd decoder (rd_buffer decoder ++ [value]) offset true (rd_poisoned decoder), None).

Definition FeedByte (decoder : RTUFrameDecoder) (offset value : Z)
    : RTUFrameDecoder * option ProtocolError :=
  if offset <? 0 then
    (decoder, Some (protocolError ErrorInvalidRequest 0 0 "rtu_decoder" (-1)))
  else if rd_poisoned decoder then
    if (offset <? rd_lastByte decoder)
       || (offset - rd_lastByte decoder <? rt_interFrame (rd_timing decoder)) then
      let lastByte := if offset >=? rd_lastByte decoder then offset else rd_lastByte decoder in
      (set_rd decoder (rd_buffer decoder) lastByte (rd_haveByte decoder) true,
       Some (protocolError ErrorMalformedResponse 0 0 "rtu_resynchronization_gap" (-1)))
    else
      feed_unpoisoned (set_rd decoder (rd_buffer decoder) 0 (rd_haveByte decoder) false)
        offset value
  else feed_unpoisoned decoder offset value.

Definition resetLocked (decoder : RTUFrameDecoder) : RTUFrameDecoder :=
  set_rd decoder [] 0 false false.

Definition EndFrame (decoder : RTUFrameDecoder) (offset : Z)
    : RTUFrameDecoder * (RTUADU * option ProtocolError) :=
  if rd_poisoned decoder || negb (rd_haveByte decoder)
     || (offset <? rd_lastByte decoder)
     || (offset - rd_lastByte decoder <? rt_interFrame (rd_timing decoder)) then
    (decoder,
     (zeroRTUADU,
      Some (protocolError ErrorMalformedResponse 0 0 "rtu_inter_frame_gap" (-1))))
  else (resetLocked decoder, decodeRTUADU (rd_buffer decoder)).

(** [reset] on a non-nil decoder. *)
Definition reset (decoder : RTUFrameDecoder) : RTUFrameDecoder := resetLocked decoder.

(** * Specification *)

(** Feeding a whole frame, one byte at each offset. *)
Fixpoint feed_bytes (decoder : RTUFrameDecoder) (input : list (Z * Z))
    : RTUFrameDecoder * option ProtocolError :=
  match input with
  | [] => (decoder, None)
  | (offset, value) :: input =>
      match FeedByte decoder offset value with
      | (decoder, Some err) => (decoder, Some err)
      | (decoder, None) => feed_bytes decoder input
      end
  end.

(** Consecutive offsets of one frame: not decreasing, at most [gap] apart. *)
Fixpoint paced (gap last : Z) (offsets : list Z) : Prop :=
  match offsets with
  | [] => True
  | offset :: offsets => last <= offset <= last + gap /\ paced gap offset offsets
  end.

(** * The CRC register is linear and invertible *)

Lemma land_one x : Z.land x 1 = if Z.testbit x 0 then 1 else 0.
Proof.
  change 1 with (Z.ones 1) at 1. rewrite Z.land_ones by lia.
  change (2 ^ 1) with 2. rewrite Z.bit0_odd, Zmod_odd. done.
Qed.

Lemma crc_bit_eq x :
  crc_bit x = Z.lxor (Z.shiftr x 1) (if Z.testbit x 0 then 0xa001 else 0).
Proof.
  unfold crc_bit. rewrite land_one. destruct (Z.testbit x 0); cbn [negb Z.eqb]; [done|].
  by rewrite Z.lxor_0_r.
Qed.

(** Equalities of exclusive ors, bit by bit. *)
Ltac xor_bits :=
  apply Z.bits_inj'; intros ? ?; rewrite ?Z.lxor_spec, ?Z.bits_0;
  repeat match goal with |- context [Z.testbit ?a ?b] => destruct (Z.testbit a b) end;
  reflexivity.

Lemma crc_bit_lxor x y : crc_bit (Z.lxor x y) = Z.lxor (crc_bit x) (crc_bit y).
Proof.
  rewrite !crc_bit_eq, Z.shiftr_lxor, Z.lxor_spec.
  destruct (Z.testbit x 0), (Z.testbit y 0); cbn [xorb]; xor_bits.
Qed.

Lemma crc_iter_lxor n x y :
  Nat.iter n crc_bit (Z.lxor x y) = Z.lxor (Nat.iter n crc_bit x) (Nat.iter n crc_bit y).
Proof. induction n as [|n IH]; [done|]. rewrite !Nat.iter_succ. by rewrite IH, crc_bit_lxor. Qed.

Lemma crc_bit_double y : crc_bit (Z.shiftl y 1) = y.
Proof.
  rewrite crc_bit_eq, Z.shiftl_spec_low by lia.
  rewrite Z.shiftr_shiftl_l, Z.lxor_0_r by lia. apply Z.shiftl_0_r.
Qed.

(** Shifting a byte through the register. *)
Lemma crc_iter_shiftl n y : Nat.iter n crc_bit (Z.shiftl y (Z.of_nat n)) = y.
Proof.
  revert y. induction n as [|n IH]; intros y; [apply Z.shiftl_0_r|].
  replace (Z.shiftl y (Z.of_nat (S n))) with (Z.shiftl (Z.shiftl y 1) (Z.of_nat n))
    by (rewrite Z.shiftl_shiftl by lia; f_equal; lia).
  rewrite Nat.iter_succ, IH. apply crc_bit_double.
Qed.

Lemma u16_bits x : u16 x <-> forall i, 16 <= i -> Z.testbit x i = false.
Proof.
  unfold u16. split.
  - intros Hx i Hi. destruct (Z.eqb_spec x 0) as [->|]; [apply Z.bits_0|].
    apply Z.bits_above_log2; [lia|]. apply Z.log2_lt_pow2; [lia|].
    apply Z.lt_le_trans with (2 ^ 16); [lia|apply Z.pow_le_mono_r; lia].
  - intros H. replace x with (x mod 2 ^ 16).
    + change 65536 with (2 ^ 16). apply Z.mod_pos_bound. lia.
    + apply Z.bits_inj'. intros i Hi. destruct (Z.ltb_spec i 16).
      * by rewrite Z.mod_pow2_bits_low by lia.
      * rewrite Z.mod_pow2_bits_high by lia. by rewrite H.
Qed.

Lemma u16_lxor x y : u16 x -> u16 y -> u16 (Z.lxor x y).
Proof.
  rewrite !u16_bits. intros Hx Hy i Hi. by rewrite Z.lxor_spec, Hx, Hy.
Qed.

Lemma u8_u16 x : u8 x -> u16 x.
Proof. unfold u8, u16. lia. Qed.

Lemma crc_bit_u16 x : u16 x -> u16 (crc_bit x).
Proof.
  intros Hx. rewrite crc_bit_eq. apply u16_lxor.
  - rewrite u16_bits in *. intros i Hi. rewrite Z.shiftr_spec by lia. apply Hx. lia.
  - unfold u16. destruct (Z.testbit x 0); lia.
Qed.

Lemma crc_iter_u16 n x : u16 x -> u16 (Nat.iter n crc_bit x).
Proof. intros Hx. induction n as [|n IH]; [done|]. by apply crc_bit_u16. Qed.

(** Only the zero register shifts to zero: bit 15 of the result is the bit
    shifted out. *)
Lemma crc_bit_zero x : u16 x -> crc_bit x = 0 -> x = 0.
Proof.
  intros Hx. rewrite crc_bit_eq. intros H%Z.lxor_eq.
  assert (H0 : Z.testbit x 0 = false).
  { destruct (Z.testbit x 0) eqn:E; [|done]. exfalso.
    assert (Hb : Z.testbit (Z.shiftr x 1) 15 = Z.testbit 0xa001 15) by by rewrite H.
    rewrite Z.shiftr_spec in Hb by lia. rewrite (proj1 (u16_bits x) Hx) in Hb by lia.
    discriminate. }
  rewrite H0 in H. apply Z.bits_inj'. intros i Hi. rewrite Z.bits_0.
  destruct (Z.eqb_spec i 0) as [->|]; [done|].
  replace i with ((i - 1) + 1) by lia. rewrite <- Z.shiftr_spec by lia.
  by rewrite H, Z.bits_0.
Qed.

Lemma crc_iter_zero n x : u16 x -> Nat.iter n crc_bit x = 0 -> x = 0.
Proof.
  intros Hx. induction n as [|n IH]; [done|]. intros H. apply IH.
  eapply crc_bit_zero; [by apply crc_iter_u16|done].
Qed.

Lemma crc_iter_inj n x y :
  u16 x -> u16 y -> Nat.iter n crc_bit x = Nat.iter n crc_bit y -> x = y.
Proof.
  intros Hx Hy H. apply Z.lxor_eq. apply (crc_iter_zero n); [by apply u16_lxor|].
  by rewrite crc_iter_lxor, H, Z.lxor_nilpotent.
Qed.

Lemma crc_byte_u16 crc value : u16 crc -> u8 value -> u16 (crc_byte crc value).
Proof. intros. by apply crc_iter_u16, u16_lxor; [|apply u8_u16]. Qed.

Lemma crc_fold_u16 data crc : u16 crc -> Forall u8 data -> u16 (fold_left crc_byte data crc).
Proof.
  intros Hc H. revert crc Hc. induction H; intros crc Hc; [done|].
  cbn. apply IHForall. by apply crc_byte_u16.
Qed.

Lemma rtuCRC16_u16 data : Forall u8 data -> u16 (rtuCRC16 data).
Proof. apply crc_fold_u16. by unfold u16. Qed.

(** Equal bytes take distinct registers to distinct registers. *)
Lemma crc_fold_inj data c c' :
  u16 c -> u16 c' -> Forall u8 data ->
  fold_left crc_byte data c = fold_left crc_byte data c' -> c = c'.
Proof.
  intros Hc Hc' H. revert c c' Hc Hc'. induction H as [|v data Hv H IH]; [done|].
  cbn [fold_left]. intros c c' Hc Hc' E. apply IH in E; [|by apply crc_byte_u16..].
  unfold crc_byte in E. apply crc_iter_inj in E; [|apply u16_lxor; [done|by apply u8_u16]..].
  rewrite <- (Z.lxor_0_r c), <- (Z.lxor_0_r c'), <- (Z.lxor_nilpotent v).
  by rewrite <- !Z.lxor_assoc, E.
Qed.

(** Two bytes enter the register as one 16-bit word, low byte first. *)
Definition le16 (lo hi : Z) : Z := Z.lor lo (wrap16 (Z.shiftl hi 8)).

Lemma le16_be16 lo hi : le16 lo hi = be16 hi lo.
Proof. apply Z.lor_comm. Qed.

Lemma le16_lxor lo hi : u8 lo -> u8 hi -> le16 lo hi = Z.lxor lo (Z.shiftl hi 8).
Proof.
  intros Hl Hh. unfold le16. rewrite wrap16_id.
  2: { unfold u8, u16 in *. rewrite Z.shiftl_mul_pow2 by lia. change (2 ^ 8) with 256. lia. }
  apply Z.bits_inj'. intros i Hi. rewrite Z.lor_spec, Z.lxor_spec.
  destruct (Z.ltb_spec i 8).
  - rewrite Z.shiftl_spec_low by lia. by destruct (Z.testbit lo i).
  - replace (Z.testbit lo i) with false; [by destruct (Z.testbit _ i)|].
    symmetry. destruct (Z.eqb_spec lo 0) as [->|]; [apply Z.bits_0|]. unfold u8 in *.
    apply Z.bits_above_log2; [lia|]. apply Z.log2_lt_pow2; [lia|].
    apply Z.lt_le_trans with (2 ^ 8); [lia|apply Z.pow_le_mono_r; lia].
Qed.

Lemma crc_two_bytes c a b :
  u8 a -> u8 b ->
  crc_byte (crc_byte c a) b = Nat.iter 16 crc_bit (Z.lxor c (le16 a b)).
Proof.
  intros Ha Hb. rewrite le16_lxor by done. unfold crc_byte.
  rewrite <- (crc_iter_shiftl 8 b) at 1. rewrite <- crc_iter_lxor, Z.lxor_assoc.
  change 16%nat with (8 + 8)%nat. rewrite Nat.iter_add. reflexivity.
Qed.

Lemma fold_left_two {A B} (f : A -> B -> A) earlier x y later a :
  fold_left f (earlier ++ [x; y] ++ later) a
  = fold_left f later (f (f (fold_left f earlier a) x) y).
Proof. by rewrite !fold_left_app. Qed.

(** Two bytes are determined by the registers before and after them. *)
Lemma crc_two_bytes_inj c a b a' b' :
  u16 c -> u8 a -> u8 b -> u8 a' -> u8 b' ->
  crc_byte (crc_byte c a) b = crc_byte (crc_byte c a') b' -> a = a' /\ b = b'.
Proof.
  intros Hc Ha Hb Ha' Hb' E. rewrite !crc_two_bytes in E by done.
  apply crc_iter_inj in E;
    [|apply u16_lxor; [done|rewrite le16_be16; by apply be16_u16]..].
  apply (f_equal (Z.lxor c)) in E.
  rewrite <- !Z.lxor_assoc, Z.lxor_nilpotent, !Z.lxor_0_l, !le16_be16 in E.
  rewrite !be16_val in E by done. unfold u8 in *. lia.
Qed.

(** * Valid frames *)

Lemma le16_split w : u16 w -> le16 (wrap8 w) (wrap8 (Z.shiftr w 8)) = w.
Proof. intros. rewrite le16_be16. by apply be16_split. Qed.

(** The register ends at zero exactly when the last two bytes are the CRC. *)
Lemma crc_residue data lo hi :
  Forall u8 data -> u8 lo -> u8 hi ->
  rtuCRC16 (data ++ [lo; hi]) = 0 <-> le16 lo hi = rtuCRC16 data.
Proof.
  intros Hd Hl Hh. unfold rtuCRC16. rewrite fold_left_app. cbn [fold_left].
  rewrite crc_two_bytes by done. split.
  - intros H%crc_iter_zero.
    + symmetry. by apply Z.lxor_eq.
    + apply u16_lxor; [by apply rtuCRC16_u16|]. rewrite le16_be16. by apply be16_u16.
  - intros ->. rewrite Z.lxor_nilpotent. reflexivity.
Qed.

Lemma snoc2 (frame : list Z) n :
  length frame = S (S n) -> frame = take n frame ++ [frame !!! n; frame !!! S n].
Proof.
  intros H. rewrite <- (take_drop n frame) at 1. f_equal.
  rewrite (drop_S frame (frame !!! n) n)
    by (apply list_lookup_lookup_total_lt; lia).
  rewrite (drop_S frame (frame !!! S n) (S n))
    by (apply list_lookup_lookup_total_lt; lia).
  by rewrite drop_ge by lia.
Qed.

(** What [decodeRTUADU] accepts and returns. *)
Lemma decode_rtu_ok frame adu :
  Forall u8 frame ->
  decodeRTUADU frame = (adu, None) <->
  4 <= zlen frame <= 256 /\ 1 <= frame !!! 0%nat <= 247 /\ rtuCRC16 frame = 0 /\
  adu = {| ru_unitID := frame !!! 0%nat;
           ru_pdu := drop 1 (take (length frame - 2) frame); ru_raw := frame |}.
Proof.
  intros Hb. unfold decodeRTUADU, minRTUADUSize, MaxRTUADUSize. cbv zeta.
  destruct ((zlen frame <? 4) || (zlen frame >? 256)) eqn:El.
  { split; [intros; discriminate|]. intros (? & _). apply orb_true_iff in El as [?|?]; bool_hyps; lia. }
  bool_hyps. set (n := (length frame - 2)%nat).
  assert (Hn : length frame = S (S n)) by (unfold n, zlen in *; lia).
  assert (Hu : u8 (frame !!! 0%nat)) by (apply Forall_lookup_total_1; [done|lia]).
  destruct ((frame !!! 0%nat =? 0) || (frame !!! 0%nat >? 247)) eqn:Eu.
  { split; [intros; discriminate|]. intros (_ & ? & _). apply orb_true_iff in Eu as [?|?]; bool_hyps; lia. }
  fold (le16 (frame !!! n) (frame !!! S n)).
  assert (Hr : rtuCRC16 frame = 0 <->
               le16 (frame !!! n) (frame !!! S n) = rtuCRC16 (take n frame)).
  { rewrite (snoc2 frame n) at 1 by done. apply crc_residue.
    - by apply Forall_take.
    - apply Forall_lookup_total_1; [done|lia].
    - apply Forall_lookup_total_1; [done|lia]. }
  unfold u8 in *. destruct (_ =? rtuCRC16 _) eqn:Ec; cbn [negb]; bool_hyps.
  - split; [intros [= <-]|intros (_ & _ & _ & ->); done]. conj; try lia; tauto.
  - split; [intros; discriminate|]. intros (_ & _ & ?%Hr & _). lia.
Qed.

Lemma decode_rtu_raw frame : ru_raw (fst (decodeRTUADU frame)) = frame.
Proof. unfold decodeRTUADU. cbv zeta. repeat case_test; done. Qed.

(** What [encodeRTUADU] produces. *)
Lemma encode_rtu_ok unit pdu frame :
  u8 unit -> Forall u8 pdu ->
  encodeRTUADU unit pdu = Ok frame ->
  Forall u8 frame /\
  decodeRTUADU frame
  = ({| ru_unitID := unit; ru_pdu := pdu; ru_raw := frame |}, None).
Proof.
  intros Hu Hp. unfold encodeRTUADU. repeat case_test; intros; simp_res. bool_hyps.
  change MaxPDUSize with 253 in *. unfold u8 in Hu. pose proof (zlen_nonneg pdu).
  set (crc := rtuCRC16 (unit :: pdu)).
  assert (Hd : Forall u8 (unit :: pdu)) by (constructor; [unfold u8; lia|done]).
  assert (Hf : Forall u8 (unit :: pdu ++ [wrap8 crc; wrap8 (Z.shiftr crc 8)])).
  { apply (Forall_app _ (unit :: pdu)). split; [done|].
    repeat (constructor; [apply wrap8_u8|]). done. }
  split; [done|]. apply decode_rtu_ok; [done|]. zlen_simpl. conj; try lia.
  - cbn. lia.
  - cbn. lia.
  - apply (crc_residue (unit :: pdu)); [done|apply wrap8_u8..|].
    apply le16_split. by apply rtuCRC16_u16.
  - f_equal. cbn [length]. rewrite length_app. cbn [length].
    replace (S (length pdu + 2) - 2)%nat with (S (length pdu)) by lia.
    cbn. by rewrite take_app_length, drop_0.
Qed.

(** A frame that decodes is the encoding of what it decodes to. *)
Lemma decode_rtu_encode frame adu :
  Forall u8 frame -> decodeRTUADU frame = (adu, None) ->
  encodeRTUADU (ru_unitID adu) (ru_pdu adu) = Ok frame.
Proof.
  intros Hb (Hl & Hu & Hc & ->)%decode_rtu_ok; [|done]. cbn [ru_unitID ru_pdu].
  set (n := (length frame - 2)%nat).
  assert (Hn : length frame = S (S n)) by (unfold n, zlen in *; lia).
  assert (Hn2 : (2 <= n)%nat) by (unfold n, zlen in *; lia).
  assert (E0 : frame !!! 0%nat :: drop 1 (take n frame) = take n frame).
  { destruct frame as [|f frame]; [done|]. destruct n; [lia|]. cbn. by rewrite drop_0. }
  rewrite (snoc2 frame n) in Hc by done.
  apply crc_residue in Hc; [|by apply Forall_take|apply Forall_lookup_total_1; [done|lia]..].
  unfold encodeRTUADU. rewrite E0, <- Hc, le16_be16.
  rewrite be16_hi, be16_lo by (apply Forall_lookup_total_1; [done|lia]).
  else_branch; [else_branch|].
  - f_equal. rewrite app_comm_cons, E0. symmetry. by apply snoc2.
  - rewrite zlen_drop, zlen_take. unfold MaxPDUSize. unfold zlen in *.
    bool_goal; lia.
  - bool_goal; lia.
Qed.

(** * Frame decoder *)

(** The invariant of the decoder's fields, for the bytes [fed] so far with their
    offsets: the buffer holds the last of them, paced within t1.5 and ending at
    [lastByte]; while poisoned it holds none. *)
Definition rd_inv (d : RTUFrameDecoder) (fed : list (Z * Z)) : Prop :=
  zlen (rd_buffer d) <= MaxRTUADUSize /\
  0 <= rd_lastByte d /\
  (rd_poisoned d = true -> rd_buffer d = [] /\ rd_haveByte d = false /\
     exists earlier latest, fed = earlier ++ [latest] /\ fst latest <= rd_lastByte d) /\
  (rd_haveByte d = false -> rd_buffer d = []) /\
  (rd_haveByte d = true ->
     exists earlier first burst,
       fed = earlier ++ first :: burst /\
       rd_buffer d = snd <$> first :: burst /\
       paced (rt_interCharacter (rd_timing d)) (fst first) (fst <$> burst) /\
       rd_lastByte d = List.last (fst <$> burst) (fst first)).

Lemma new_rd_inv timing d : NewRTUFrameDecoder timing = Ok d -> rd_inv d [].
Proof.
  unfold NewRTUFrameDecoder. case_test; intros; simp_res.
  unfold rd_inv. cbn. conj; try done.
Qed.

Lemma reset_rd_inv d fed : rd_inv (resetLocked d) fed.
Proof. unfold rd_inv. cbn. conj; try done. Qed.

Lemma last_default (l : list Z) x d : List.last (x :: l) d = List.last l x.
Proof.
  revert x d. induction l as [|z l IH]; [done|]. intros x d.
  change (List.last (x :: z :: l) d) with (List.last (z :: l) d). by rewrite !IH.
Qed.

Lemma paced_snoc gap l x last :
  paced gap last l -> List.last l last <= x <= List.last l last + gap ->
  paced gap last (l ++ [x]).
Proof.
  revert last. induction l as [|y l IH]; intros last; cbn [app paced]; [cbn; lia|].
  rewrite last_default. intros [? Hp] Hx. auto.
Qed.

Lemma feed_unpoisoned_inv d fed offset value :
  rd_inv d fed -> rd_poisoned d = false -> 0 <= offset ->
  rd_inv (fst (feed_unpoisoned d offset value)) (fed ++ [(offset, value)]).
Proof.
  intros (Hl & Ht & Hp & Hh & Hb) Ep Ho. unfold feed_unpoisoned.
  destruct (_ && (offset <? _)) eqn:E1;
    [bool_hyps; unfold rd_inv; cbn; conj; try done; intros _; conj; try done;
     exists fed, (offset, value); cbn; split; [done|lia]|].
  destruct (_ && (_ >? _)) eqn:E2;
    [unfold rd_inv; cbn; conj; try done; intros _; conj; try done; by exists fed, (offset, value)|].
  destruct (_ =? _) eqn:E3;
    [unfold rd_inv; cbn; conj; try done; intros _; conj; try done; by exists fed, (offset, value)|].
  bool_hyps. unfold rd_inv. cbn. rewrite zlen_app. conj; try done; try lia; try congruence.
  { unfold MaxRTUADUSize in *. rewrite zlen_cons, zlen_nil. lia. }
  intros _. destruct (rd_haveByte d) eqn:Eh; cbn [andb] in *; bool_hyps.
  - destruct Hb as (earlier & first & burst & -> & -> & Hpaced & El); [done|].
    exists earlier, first, (burst ++ [(offset, value)]).
    rewrite !fmap_app. cbn. rewrite List.last_last. conj; try done.
    + by rewrite <- app_assoc.
    + apply paced_snoc; [done|]. rewrite <- El. lia.
  - rewrite Hh by done. exists fed, (offset, value), []. done.
Qed.

Lemma feed_byte_inv d fed offset value :
  rd_inv d fed -> 0 <= offset ->
  rd_inv (fst (FeedByte d offset value)) (fed ++ [(offset, value)]).
Proof.
  intros Hi Ho. unfold FeedByte. test_false (offset <? 0).
  destruct (rd_poisoned d) eqn:Ep; [|by apply feed_unpoisoned_inv].
  pose proof Hi as (Hl & Ht & Hp & Hh & Hb). destruct (Hp Ep) as (Eb & Eh & _).
  case_test.
  - unfold rd_inv. cbn. rewrite Eb, Eh. conj; try done.
    + case_test; lia.
    + intros _. conj; try done. exists fed, (offset, value). cbn. split; [done|].
      case_test; bool_hyps; lia.
  - apply feed_unpoisoned_inv; [|done..]. unfold rd_inv. cbn. rewrite Eb, Eh. done.
Qed.

(** The states a decoder reaches through its methods, with the bytes fed. *)
Inductive rd_reach (timing : RTUTiming) : RTUFrameDecoder -> list (Z * Z) -> Prop :=
| rd_new d : NewRTUFrameDecoder timing = Ok d -> rd_reach timing d []
| rd_feed d fed offset value :
    rd_reach timing d fed -> 0 <= offset ->
    rd_reach timing (fst (FeedByte d offset value)) (fed ++ [(offset, value)])
| rd_feed_negative d fed offset value :
    rd_reach timing d fed -> offset < 0 ->
    rd_reach timing (fst (FeedByte d offset value)) fed
| rd_end d fed offset :
    rd_reach timing d fed -> rd_reach timing (fst (EndFrame d offset)) fed
| rd_reset d fed : rd_reach timing d fed -> rd_reach timing (reset d) fed.

Lemma feed_byte_timing d offset value :
  rd_timing (fst (FeedByte d offset value)) = rd_timing d.
Proof. unfold FeedByte, feed_unpoisoned. repeat case_test; done. Qed.

Lemma rd_reach_inv timing d fed :
  rd_reach timing d fed -> rd_inv d fed /\ rd_timing d = timing.
Proof.
  induction 1 as [d Hn|d fed offset value _ [IH <-] Ho|d fed offset value _ [IH <-] Ho
                 |d fed offset _ [IH <-]|d fed _ [IH <-]].
  - split; [by eapply new_rd_inv|]. revert Hn. unfold NewRTUFrameDecoder.
    case_test; intros; by simp_res.
  - split; [by apply feed_byte_inv|]. apply feed_byte_timing.
  - split; [|apply feed_byte_timing]. unfold FeedByte. by test_true (offset <? 0).
  - unfold EndFrame. case_test; cbn; [done|]. split; [apply reset_rd_inv|done].
  - split; [apply reset_rd_inv|done].
Qed.

(** Feeding paced bytes to a decoder that accepts them extends its buffer. *)
Lemma feed_bytes_paced d input :
  rd_poisoned d = false -> rd_haveByte d = true -> 0 <= rd_lastByte d ->
  zlen (rd_buffer d) + zlen input <= MaxRTUADUSize ->
  paced (rt_interCharacter (rd_timing d)) (rd_lastByte d) (fst <$> input) ->
  feed_bytes d input
  = (set_rd d (rd_buffer d ++ (snd <$> input)) (List.last (fst <$> input) (rd_lastByte d))
       true false, None).
Proof.
  revert d. induction input as [|[offset value] input IH]; intros d Ep Eh Ht Hl.
  { cbn. intros _. rewrite app_nil_r. destruct d. cbn in *. by subst. }
  rewrite !fmap_cons, last_default, zlen_cons in *. cbn [fst snd paced]. intros [Ho Hp].
  cbn [feed_bytes]. unfold FeedByte, feed_unpoisoned. pose proof (zlen_nonneg input).
  test_false (offset <? 0). rewrite Ep, Eh. cbn [andb].
  test_false (offset <? rd_lastByte d).
  test_false (offset - rd_lastByte d >? rt_interCharacter (rd_timing d)).
  test_false (zlen (rd_buffer d) =? MaxRTUADUSize).
  rewrite IH; [|done..| | |done]; cbn; [by rewrite <- app_assoc|lia|].
  rewrite zlen_app, zlen_cons, zlen_nil. lia.
Qed.

(** * Properties *)

(** C14: A transmission error confined to two adjacent bytes of a valid RTU frame
    (any burst of up to 9 bits, and every burst of 16 bits aligned to bytes,
    the CRC bytes included) is always detected: the altered frame never decodes. *)
Theorem rtu_burst_error_detected earlier later a b a' b' adu :
  Forall u8 (earlier ++ [a; b] ++ later) -> u8 a' -> u8 b' ->
  decodeRTUADU (earlier ++ [a; b] ++ later) = (adu, None) ->
  (a', b') <> (a, b) ->
  exists adu' err, decodeRTUADU (earlier ++ [a'; b'] ++ later) = (adu', Some err).
Proof.
  intros Hf Ha' Hb' Hd Hne.
  pose proof Hf as [He [Hab Hl]%Forall_app]%Forall_app.
  pose proof Hab as [Ha [Hb _]%Forall_cons]%Forall_cons.
  destruct (decodeRTUADU (earlier ++ [a'; b'] ++ later)) as [adu' [err|]] eqn:E; [by eauto|].
  exfalso. apply Hne. apply decode_rtu_ok in Hd as (_ & _ & Hd & _); [|done].
  apply decode_rtu_ok in E as (_ & _ & E & _).
  2: { apply Forall_app. split; [done|]. cbn [app].
       do 2 (apply Forall_cons; split; [done|]). done. }
  unfold rtuCRC16 in *. rewrite fold_left_two in E, Hd. rewrite <- Hd in E.
  pose proof (rtuCRC16_u16 earlier He) as Hc. unfold rtuCRC16 in Hc.
  apply crc_fold_inj in E; [|by repeat apply crc_byte_u16..|done].
  apply crc_two_bytes_inj in E as [-> ->]; done.
Qed.

Lemma rtu_burst_error_detected_witness :
  exists adu' err, decodeRTUADU ([17; 3] ++ [255; 7] ++ [0; 5; 103; 88]) = (adu', Some err).
Proof.
  eapply (rtu_burst_error_detected [17; 3] [0; 5; 103; 88] 0 6 255 7
            {| ru_unitID := 17; ru_pdu := [3; 0; 6; 0; 5];
               ru_raw := [17; 3; 0; 6; 0; 5; 103; 88] |});
    [solve_bytes|by unfold u8|by unfold u8| |discriminate].
  vm_compute. reflexivity.
Defined.

(** The typed read decoder accepts a frame exactly when it is the encoding,
    for the expected unit, of a response PDU the PDU decoder accepts for the
    request: the CRC, the unit and the shape are all checked, nothing else is
    accepted, and the decoded response is that of the PDU. *)
Theorem rtu_read_response_iff unit request frame adu response :
  1 <= unit <= 247 -> Forall u8 frame ->
  DecodeRTUReadResponseADU unit request frame
  = ({| rra_adu := adu; rra_response := Some response |}, None) <->
  exists pdu, Forall u8 pdu /\ encodeRTUADU unit pdu = Ok frame /\
    DecodeReadRegistersResponse request pdu = Ok response /\
    adu = {| ru_unitID := unit; ru_pdu := pdu; ru_raw := frame |}.
Proof.
  intros Hu Hf. unfold DecodeRTUReadResponseADU.
  test_false ((unit =? 0) || (unit >? 247)). split.
  - destruct (decodeRTUADU frame) as [adu' [err|]] eqn:E; [done|].
    destruct (ru_unitID adu' =? unit) eqn:Eu; cbn [negb]; [|done]. bool_hyps. subst unit.
    destruct (DecodeReadRegistersResponse _ _) eqn:Er; [|done]. intros [= <- <-].
    pose proof (decode_rtu_encode _ _ Hf E) as He.
    apply decode_rtu_ok in E as (_ & _ & _ & ->); [|done]. cbn in *.
    eexists. split; [|by eauto]. by apply Forall_drop, Forall_take.
  - intros (pdu & Hp & He & Hr & ->).
    apply encode_rtu_ok in He as [_ ->]; [|unfold u8; lia|done]. cbn.
    rewrite Z.eqb_refl. cbn [negb]. by rewrite Hr.
Qed.

(** An idle decoder assembles a frame: the bytes of an encoded frame fed at
    offsets no further apart than t1.5, followed by [EndFrame] after at least t3.5
    of silence, deliver exactly the unit and PDU that were encoded. *)
Lemma frame_assembled d unit pdu frame first offsets finish :
  rd_buffer d = [] -> rd_haveByte d = false -> rd_poisoned d = false ->
  0 <= rt_interFrame (rd_timing d) ->
  u8 unit -> Forall u8 pdu -> encodeRTUADU unit pdu = Ok frame ->
  length frame = S (length offsets) ->
  0 <= first -> paced (rt_interCharacter (rd_timing d)) first offsets ->
  List.last offsets first + rt_interFrame (rd_timing d) <= finish ->
  exists d', feed_bytes d (zip (first :: offsets) frame) = (d', None) /\
    EndFrame d' finish
    = (resetLocked d, ({| ru_unitID := unit; ru_pdu := pdu; ru_raw := frame |}, None)).
Proof.
  intros Hb Eh Ep Ht Hu Hp He Hl Hf Hpaced Hfin.
  apply encode_rtu_ok in He as [Hbytes Hd]; [|done..].
  pose proof (proj1 (decode_rtu_ok _ _ Hbytes) Hd) as (Hsize & _).
  destruct frame as [|b frame]; [done|]. injection Hl as Hl. rewrite zlen_cons in Hsize.
  cbn [zip zip_with feed_bytes]. unfold FeedByte at 1, feed_unpoisoned.
  test_false (first <? 0). rewrite Ep, Eh, Hb. cbn [andb app].
  replace (zlen (@nil Z) =? MaxRTUADUSize) with false by reflexivity.
  rewrite feed_bytes_paced;
    cbn [set_rd rd_timing rd_buffer rd_lastByte rd_haveByte rd_poisoned]; try done.
  - eexists. split; [done|]. unfold EndFrame. cbn.
    rewrite fst_zip, snd_zip by lia.
    else_branch; [|bool_goal; lia]. rewrite Hd. done.
  - rewrite !zlen_cons, zlen_nil. unfold zlen, MaxRTUADUSize in *. rewrite length_zip. lia.
  - by rewrite fst_zip by lia.
Qed.

Definition demo_timing : RTUTiming := timing_of demo_config.

Definition demo_rd : RTUFrameDecoder :=
  {| rd_timing := demo_timing; rd_buffer := []; rd_lastByte := 0; rd_haveByte := false;
     rd_poisoned := false |}.

Lemma demo_rd_reach : rd_reach demo_timing demo_rd [].
Proof. apply rd_new. reflexivity. Qed.

(** Safety of assembly from noise: in every state the decoder reaches, the
    buffer is within the ADU bound; a frame is only ever delivered from bytes
    received consecutively, no further apart than t1.5, and followed by at least
    t3.5 of silence, and it carries exactly those bytes; and after an error has
    poisoned the decoder, a byte is accepted only when it follows the latest
    received byte by at least t3.5. *)
Theorem rtu_frame_decoder_safe timing d fed :
  rd_reach timing d fed ->
  zlen (rd_buffer d) <= MaxRTUADUSize /\
  (forall finish d' adu, EndFrame d finish = (d', (adu, None)) ->
     exists earlier first burst,
       fed = earlier ++ first :: burst /\
       ru_raw adu = snd <$> first :: burst /\
       paced (rt_interCharacter timing) (fst first) (fst <$> burst) /\
       List.last (fst <$> burst) (fst first) + rt_interFrame timing <= finish) /\
  (rd_poisoned d = true -> forall offset value d',
     FeedByte d offset value = (d', None) ->
     exists earlier latest,
       fed = earlier ++ [latest] /\ fst latest + rt_interFrame timing <= offset).
Proof.
  intros Hr. apply rd_reach_inv in Hr as [(Hl & Ht & Hp & Hh & Hb) <-]. conj; [done|..].
  - intros finish d' adu. unfold EndFrame. case_test; [done|]. intros [= <- E]. bool_hyps.
    destruct Hb as (earlier & first & burst & -> & Eb & Hpaced & El); [done|].
    exists earlier, first, burst. conj; try done; [|lia].
    rewrite <- Eb, <- (decode_rtu_raw (rd_buffer d)). by rewrite E.
  - intros Ep offset value d'. unfold FeedByte. rewrite Ep.
    case_test; [done|]. case_test; [done|]. intros _. bool_hyps.
    destruct (Hp Ep) as (_ & _ & earlier & latest & -> & ?).
    exists earlier, latest. split; [done|]. lia.
Qed.

Lemma rtu_frame_decoder_safe_witness :
  zlen (rd_buffer (fst (FeedByte demo_rd 3 17))) <= MaxRTUADUSize.
Proof.
  refine (proj1 (rtu_frame_decoder_safe demo_timing (fst (FeedByte demo_rd 3 17))
                   ([] ++ [(3, 17)]) _)).
  apply rd_feed; [exact demo_rd_reach|lia].
Defined.
