(* ===== verification/PrivateFunction.v ===== *)
(** Private functions (private_function.go): bounded, uninterpreted requests and
    responses over RTU and TCP framing, the retry policy, and the single-flight
    RTU transaction. *)

From S2P Require Import Prelude Pdu TcpAdu RtuTiming RtuAdu.

(** * Requests *)

Definition NewPrivateFunctionCode (value : Z) : presult Z :=
  if (value =? 0) || negb (Z.land value 0x80 =? 0) then
    Err (protocolError ErrorUnsupportedOperation value 0 "private_function_code" 0)
  else Ok value.

Record PrivateFunctionRequest : Type := mkPrivateFunctionRequest {
  pf_function : Z;
  pf_payload : list Z
}.

Definition zeroPrivateFunctionRequest : PrivateFunctionRequest :=
  {| pf_function := 0; pf_payload := [] |}.

Definition NewPrivateFunctionRequest (function : Z) (payload : list Z)
    : presult PrivateFunctionRequest :=
  match NewPrivateFunctionCode function with
  | Err err => Err err
  | Ok _ =>
      if zlen payload >? MaxPDUSize - 1 then
        Err (protocolError ErrorInvalidRange function 0 "private_function_payload_length"
               (zlen payload))
      else Ok {| pf_function := function; pf_payload := payload |}
  end.

Definition EncodePrivatePDU (request : PrivateFunctionRequest) : presult (list Z) :=
  match NewPrivateFunctionRequest (pf_function request) (pf_payload request) with
  | Err err => Err err
  | Ok _ => Ok (pf_function request :: pf_payload request)
  end.

Definition EncodeRTUPrivateFunctionADU (unitID : Z) (request : PrivateFunctionRequest)
    : presult (list Z) :=
  match EncodePrivatePDU request with
  | Err err => Err err
  | Ok pdu => encodeRTUADU unitID pdu
  end.

Definition EncodeTCPPrivateFunctionADU (transactionID unitID : Z)
    (request : PrivateFunctionRequest) : presult (list Z) :=
  match EncodePrivatePDU request with
  | Err err => Err err
  | Ok pdu => encodeTCPADU transactionID unitID pdu
  end.

(** * Responses *)

Record RTUPrivateFunctionResponseADU : Type := mkRTUPrivateFunctionResponseADU {
  rp_adu : RTUADU;
  rp_payload : list Z
}.

Record TCPPrivateFunctionResponseADU : Type := mkTCPPrivateFunctionResponseADU {
  tp_adu : TCPADU;
  tp_payload : list Z
}.

Definition zeroTCPADU : TCPADU :=
  {| ta_transactionID := 0; ta_unitID := 0; ta_pdu := []; ta_raw := [] |}.

(** The checks both decoders make on a PDU; [base] is the offset of its first
    byte in the positions the errors report. *)
Definition private_payload (request : PrivateFunctionRequest) (base : Z) (pdu : list Z)
    : presult (list Z) :=
  let function := pf_function request in
  match pdu with
  | [] => Err (protocolError ErrorMalformedResponse function 0 "function" base)
  | received :: rest =>
      if received =? Z.lor function 0x80 then
        match rest with
        | [code] =>
            Err (with_exception_code
                   (protocolError ErrorExceptionResponse function received "exception_code"
                      (base + 1)) code)
        | _ =>
            Err (protocolError ErrorMalformedResponse function received "exception_length"
                   (zlen pdu))
        end
      else if negb (received =? function) then
        Err (protocolError ErrorMalformedResponse function received "function_mismatch" base)
      else Ok rest
  end.

Definition DecodeRTUPrivateFunctionResponseADU (expectedUnitID : Z)
    (request : PrivateFunctionRequest) (frame : list Z)
    : RTUPrivateFunctionResponseADU * option ProtocolError :=
  let function := pf_function request in
  if (expectedUnitID =? 0) || (expectedUnitID >? 247) then
    ({| rp_adu := zeroRTUADU; rp_payload := [] |},
     Some (protocolError ErrorInvalidRequest function 0 "unit_id" 0))
  else
  match NewPrivateFunctionRequest function (pf_payload request) with
  | Err err => ({| rp_adu := zeroRTUADU; rp_payload := [] |}, Some err)
  | Ok _ =>
  let '(adu, err) := decodeRTUADU frame in
  let response := {| rp_adu := adu; rp_payload := [] |} in
  match err with
  | Some err => (response, Some err)
  | None =>
  if negb (ru_unitID adu =? expectedUnitID) then
    (response, Some (protocolError ErrorMalformedResponse function 0 "unit_id" 0))
  else
  match private_payload request 0 (ru_pdu adu) with
  | Err err => (response, Some err)
  | Ok payload => ({| rp_adu := adu; rp_payload := payload |}, None)
  end
  end
  end.

Definition DecodeTCPPrivateFunctionResponseADU (expectedTransactionID expectedUnitID : Z)
    (request : PrivateFunctionRequest) (frame : list Z)
    : option (TCPPrivateFunctionResponseADU * option TCPError) :=
  let function := pf_function request in
  let none := {| tp_adu := zeroTCPADU; tp_payload := [] |} in
  if expectedUnitID >? 247 then
    Some (none, Some (TCPProtocolError
      (protocolError ErrorInvalidRequest function 0 "unit_id" 6)))
  else
  match NewPrivateFunctionRequest function (pf_payload request) with
  | Err err => Some (none, Some (TCPProtocolError err))
  | Ok _ =>
  match NewTCPStreamDecoder maxTCPADUSize with
  | Err err => Some (none, Some (TCPProtocolError err))
  | Ok decoder =>
  match Feed decoder frame with
  | None => None
  | Some fed =>
  match fr_error fed with
  | Some err => Some (none, Some err)
  | None =>
  match Finish (fr_decoder fed) with
  | (_, Some err) => Some (none, Some err)
  | (_, None) =>
  match fr_frames fed with
  | [adu] =>
      let response := {| tp_adu := adu; tp_payload := [] |} in
      if negb (ta_transactionID adu =? expectedTransactionID) then
        Some (response, Some (TCPProtocolError
          (protocolError ErrorMalformedResponse function 0 "transaction_id" 0)))
      else if negb (ta_unitID adu =? expectedUnitID) then
        Some (response, Some (TCPProtocolError
          (protocolError ErrorMalformedResponse function 0 "unit_id" 6)))
      else
      match private_payload request 7 (ta_pdu adu) with
      | Err err => Some (response, Some (TCPProtocolError err))
      | Ok payload => Some ({| tp_adu := adu; tp_payload := payload |}, None)
      end
  | frames =>
      Some (none, Some (TCPProtocolError
        (protocolError ErrorMalformedResponse function 0 "tcp_adu_count" (zlen frames))))
  end
  end
  end
  end
  end
  end.

(** * Retry policy *)

Record PrivateFunctionResponsePolicy : Type := mkPrivateFunctionResponsePolicy {
  pp_maxAttempts : Z;
  pp_replaySafe : bool
}.

Definition DefaultPrivateFunctionResponsePolicy : PrivateFunctionResponsePolicy :=
  {| pp_maxAttempts := 1; pp_replaySafe := false |}.

Definition invalid_policy (maxAttempts : Z) (replaySafe : bool) : bool :=
  (maxAttempts =? 0) || (maxAttempts >? 3) || ((maxAttempts >? 1) && negb replaySafe).

Definition NewPrivateFunctionResponsePolicy (maxAttempts : Z) (replaySafe : bool)
    : presult PrivateFunctionResponsePolicy :=
  if invalid_policy maxAttempts replaySafe then
    Err (protocolError ErrorInvalidRequest 0 0 "private_function_response_policy" (-1))
  else Ok {| pp_maxAttempts := maxAttempts; pp_replaySafe := replaySafe |}.

(** * Transactions *)

Inductive privateFunctionTransactionState : Type :=
| privateFunctionIdle
| privateFunctionWaiting
| privateFunctionQuarantine.

#[export] Instance private_state_eq_dec : EqDecision privateFunctionTransactionState.
Proof. solve_decision. Defined.

Record PrivateFunctionTransaction : Type := mkPrivateFunctionTransaction {
  pt_state : privateFunctionTransactionState;
  pt_unitID : Z;
  pt_request : PrivateFunctionRequest
}.

Definition idle_transaction : PrivateFunctionTransaction :=
  {| pt_state := privateFunctionIdle; pt_unitID := 0;
     pt_request := zeroPrivateFunctionRequest |}.

(** [errPrivateFunctionTransactionState], or the error of the framing. *)
Inductive transaction_error : Type :=
| TransactionState
| TransactionProtocol (err : ProtocolError).

Definition Begin (t : PrivateFunctionTransaction) (unitID : Z)
    (request : PrivateFunctionRequest)
    : PrivateFunctionTransaction * result transaction_error (list Z) :=
  match EncodeRTUPrivateFunctionADU unitID request with
  | Err err => (t, Err (TransactionProtocol err))
  | Ok frame =>
      if negb (bool_decide (pt_state t = privateFunctionIdle)) then (t, Err TransactionState)
      else
        ({| pt_state := privateFunctionWaiting; pt_unitID := unitID; pt_request := request |},
         Ok frame)
  end.

Definition Accept (t : PrivateFunctionTransaction) (frame : list Z)
    : RTUPrivateFunctionResponseADU * option transaction_error :=
  if negb (bool_decide (pt_state t = privateFunctionWaiting)) then
    ({| rp_adu := zeroRTUADU; rp_payload := [] |}, Some TransactionState)
  else
    let '(response, err) :=
      DecodeRTUPrivateFunctionResponseADU (pt_unitID t) (pt_request t) frame in
    (response, TransactionProtocol <$> err).

Definition CompleteTransaction (t : PrivateFunctionTransaction)
    : PrivateFunctionTransaction * option transaction_error :=
  if negb (bool_decide (pt_state t = privateFunctionWaiting)) then (t, Some TransactionState)
  else (idle_transaction, None).

Definition Timeout (t : PrivateFunctionTransaction)
    : PrivateFunctionTransaction * option transaction_error :=
  if negb (bool_decide (pt_state t = privateFunctionWaiting)) then (t, Some TransactionState)
  else
    ({| pt_state := privateFunctionQuarantine; pt_unitID := pt_unitID t;
        pt_request := pt_request t |}, None).

Definition ReleaseQuarantine (t : PrivateFunctionTransaction)
    : PrivateFunctionTransaction * option transaction_error :=
  if negb (bool_decide (pt_state t = privateFunctionQuarantine)) then (t, Some TransactionState)
  else (idle_transaction, None).

(** * Facts *)

Definition private_code (function : Z) : Prop := 1 <= function < 128.

Lemma land_high_bit z : u8 z -> Z.land z 0x80 = 0 <-> z < 128.
Proof.
  unfold u8. intros Hz. change 0x80 with (2 ^ 7). split.
  - intros H. destruct (Z_lt_le_dec z 128); [done|]. exfalso.
    assert (Ht : Z.testbit z 7 = true).
    { apply Z.testbit_true; [lia|]. change (2 ^ 7) with 128.
      assert (Hd : z / 128 = 1).
      { apply Z.le_antisymm; [apply Z.lt_succ_r, Z.div_lt_upper_bound; lia|].
        apply Z.div_le_lower_bound; lia. }
      by rewrite Hd. }
    apply (f_equal (fun x => Z.testbit x 7)) in H.
    rewrite Z.land_spec, Ht, Z.pow2_bits_true, Z.bits_0 in H by lia. done.
  - intros H. apply Z.bits_inj'. intros n Hn. rewrite Z.land_spec, Z.bits_0.
    destruct (Z.eq_dec n 7) as [->|Hne].
    + replace (Z.testbit z 7) with false; [done|]. symmetry.
      destruct (Z.eq_dec z 0) as [->|]; [done|]. apply Z.bits_above_log2; [lia|].
      apply Z.log2_lt_pow2; [lia|]. change (2 ^ 7) with 128. lia.
    + rewrite Z.pow2_bits_false by done. apply andb_false_r.
Qed.

(** Which requests [NewPrivateFunctionRequest] accepts. *)
Lemma private_request_iff function payload r :
  u8 function ->
  NewPrivateFunctionRequest function payload = Ok r <->
  private_code function /\ zlen payload <= 252 /\
  r = {| pf_function := function; pf_payload := payload |}.
Proof.
  intros Hu. unfold NewPrivateFunctionRequest, NewPrivateFunctionCode, private_code.
  change (MaxPDUSize - 1) with 252. pose proof (land_high_bit function Hu) as Hbit.
  unfold u8 in Hu. destruct ((function =? 0) || _) eqn:E.
  - split; [done|]. intros (Hc & _). apply orb_true_iff in E as [E|E]; bool_hyps; [lia|].
    destruct E. apply Hbit. lia.
  - bool_hyps. case_test; bool_hyps.
    + split; [done|]. lia.
    + split; [intros [= <-]|by intros (_ & _ & ->)]. conj; [|by apply Hbit|done|done]. lia.
Qed.

Lemma exception_code_differs function : private_code function -> function <> Z.lor function 0x80.
Proof.
  intros Hf Heq. assert (Hu : u8 function) by (unfold private_code, u8 in *; lia).
  assert (Hl : Z.land function 0x80 = 0) by (apply land_high_bit; [done|unfold private_code in Hf; lia]).
  rewrite Heq in Hl. rewrite Z.land_lor_distr_l, Z.land_diag in Hl.
  apply Z.lor_eq_0_iff in Hl as [_ Hl]. done.
Qed.

Lemma private_payload_iff request base pdu payload :
  private_code (pf_function request) ->
  private_payload request base pdu = Ok payload <-> pdu = pf_function request :: payload.
Proof.
  intros Hf. pose proof (exception_code_differs _ Hf) as Hne. unfold private_payload.
  destruct pdu as [|received rest]; [done|].
  destruct (received =? Z.lor _ _) eqn:E; bool_hyps.
  - split; [by destruct rest as [|? [|]]|]. intros [= -> ->]. done.
  - destruct (received =? pf_function request) eqn:E'; bool_hyps; cbn [negb].
    + subst. split; [by intros [= ->]|by intros [= ->]].
    + split; [done|]. by intros [= -> _].
Qed.

(** A whole strict frame is the encoding of its own fields. *)
Lemma frame_encoded f :
  frame_ok TCPFramingStrict f -> Forall u8 (ta_raw f) -> ta_unitID f <= 247 ->
  encodeTCPADU (ta_transactionID f) (ta_unitID f) (ta_pdu f) = Ok (ta_raw f).
Proof.
  intros [Ef Es] Hb Hu. set (raw := ta_raw f) in *. rewrite Ef in Hu |- *. cbn in *.
  revert Es. unfold frame_step. change (tcpFramingADUBound TCPFramingStrict - 6) with 254.
  cbv zeta. repeat (case_test; [done|]). bool_hyps. intros [= El].
  pose proof (list_split7 raw ltac:(lia)) as Hs.
  assert (Hat : forall i, (i < 7)%nat -> u8 (raw !!! i)).
  { intros i Hi. apply Forall_lookup_total_1; [done|]. unfold zlen in *. lia. }
  assert (Hp : zlen (drop 7 raw) = zlen raw - 7) by (rewrite zlen_drop; lia).
  unfold encodeTCPADU. test_false (raw !!! 6%nat >? 247).
  test_false ((zlen (drop 7 raw) =? 0) || (zlen (drop 7 raw) >? MaxPDUSize)).
  2: { change MaxPDUSize with 253. bool_goal; lia. }
  replace (zlen (drop 7 raw) + 1) with (be16 (raw !!! 4%nat) (raw !!! 5%nat)) by lia.
  rewrite !be16_hi, !be16_lo by (apply Hat; lia). f_equal.
  symmetry. etrans; [exact Hs|]. by repeat match goal with H : raw !!! _ = 0 |- _ => rewrite H end.
Qed.

Section decoding.
Context (request : PrivateFunctionRequest) (frame : list Z).
Hypothesis Hreq : NewPrivateFunctionRequest (pf_function request) (pf_payload request) = Ok request.
Hypothesis Hcode : private_code (pf_function request).
Hypothesis Hb : Forall u8 frame.

Lemma rtu_private_iff unit adu payload :
  1 <= unit <= 247 ->
  DecodeRTUPrivateFunctionResponseADU unit request frame
  = ({| rp_adu := adu; rp_payload := payload |}, None) <->
  encodeRTUADU unit (pf_function request :: payload) = Ok frame /\ Forall u8 payload /\
  adu = {| ru_unitID := unit; ru_pdu := pf_function request :: payload; ru_raw := frame |}.
Proof.
  intros Hunit. unfold DecodeRTUPrivateFunctionResponseADU.
  test_false ((unit =? 0) || (unit >? 247)). rewrite Hreq. split.
  - destruct (decodeRTUADU frame) as [adu' [err|]] eqn:Ed; [done|].
    destruct (ru_unitID adu' =? unit) eqn:Eu; cbn [negb]; bool_hyps; [|done].
    destruct (private_payload request 0 (ru_pdu adu')) as [p|] eqn:Ep; [|done].
    intros [= <- <-]. apply private_payload_iff in Ep; [|done].
    pose proof (decode_rtu_encode _ _ Hb Ed) as He. rewrite Ep, Eu in He.
    apply decode_rtu_ok in Ed as (_ & _ & _ & Eadu); [|done].
    split; [done|]. split; [|by rewrite Eadu in *; cbn in *; rewrite Ep, Eu].
    assert (Hp : Forall u8 (ru_pdu adu')).
    { rewrite Eadu. cbn. by apply Forall_drop, Forall_take. }
    rewrite Ep in Hp. by apply Forall_cons in Hp as [_ ?].
  - intros (He & Hp & ->). unfold private_code in Hcode.
    destruct (encode_rtu_ok unit (pf_function request :: payload) frame) as [_ Ed];
      [unfold u8; lia|constructor; [unfold u8; lia|done]|done|].
    rewrite Ed. cbn [ru_unitID ru_pdu]. rewrite Z.eqb_refl. cbn [negb].
    by rewrite (proj2 (private_payload_iff request 0 _ payload Hcode) eq_refl).
Qed.

(** The decoder of one TCP frame, and what it makes of the bytes. *)
Lemma tcp_private_decoder :
  exists d r, NewTCPStreamDecoder maxTCPADUSize = Ok d /\ settled d /\ roomy d /\
    td_buffer d = [] /\ td_framing d = TCPFramingStrict /\ Feed d frame = Some r /\
    Forall (frame_ok TCPFramingStrict) (fr_frames r) /\
    (fr_error r = None ->
       concat (ta_raw <$> fr_frames r) ++ td_buffer (fr_decoder r) = frame).
Proof.
  destruct (NewTCPStreamDecoder maxTCPADUSize) as [d|] eqn:En; [|by vm_compute in En].
  destruct (new_decoder_settled _ _ _ En) as (Hs & Ebuf & Efr & Emax).
  destruct (feed_safe d frame (proj1 Hs) Hb) as (r & Er & _ & _ & Hok & Hr).
  exists d, r. rewrite Efr in Hok. conj; try done; [unfold roomy; by rewrite Efr, Emax|].
  intros E. rewrite E, Ebuf in Hr. by destruct Hr.
Qed.

Lemma tcp_private_total transaction unit :
  DecodeTCPPrivateFunctionResponseADU transaction unit request frame <> None.
Proof.
  unfold DecodeTCPPrivateFunctionResponseADU. case_test; [done|]. rewrite Hreq.
  destruct tcp_private_decoder as (d & r & -> & _ & _ & _ & _ & -> & _).
  destruct (fr_error r); [done|]. destruct (Finish _) as [? [?|]]; [done|].
  destruct (fr_frames r) as [|f [|]]; try done. repeat (case_test; [done|]).
  by destruct (private_payload _ _ _).
Qed.

Lemma tcp_private_sound transaction unit adu payload :
  0 <= unit <= 247 ->
  DecodeTCPPrivateFunctionResponseADU transaction unit request frame
  = Some ({| tp_adu := adu; tp_payload := payload |}, None) ->
  encodeTCPADU transaction unit (pf_function request :: payload) = Ok frame /\
  Forall u8 payload /\ adu = adu_frame (transaction, unit, pf_function request :: payload) frame.
Proof.
  intros Hunit. unfold DecodeTCPPrivateFunctionResponseADU.
  test_false (unit >? 247). rewrite Hreq.
  destruct tcp_private_decoder as (d & r & -> & _ & _ & _ & _ & -> & Hok & Hr).
  destruct (fr_error r); [done|]. specialize (Hr eq_refl). unfold Finish.
  destruct (zlen (td_buffer (fr_decoder r)) =? 0) eqn:E0; [|by destruct (failFrame _ _ _ _ _)].
  bool_hyps. destruct (fr_frames r) as [|f [|]]; try done.
  destruct (ta_transactionID f =? transaction) eqn:E1; cbn [negb]; [|done].
  destruct (ta_unitID f =? unit) eqn:E2; cbn [negb]; [|done]. bool_hyps.
  destruct (private_payload request 7 (ta_pdu f)) as [p|] eqn:Ep; [|done].
  intros [= <- <-]. apply private_payload_iff in Ep; [|done].
  assert (Eraw : ta_raw f = frame).
  { rewrite <- Hr. cbn. destruct (td_buffer (fr_decoder r)) as [|x l]; [by rewrite !app_nil_r|].
    rewrite zlen_cons in E0. pose proof (zlen_nonneg l). lia. }
  apply Forall_cons in Hok as [Hf _].
  pose proof (frame_encoded f Hf ltac:(by rewrite Eraw) ltac:(lia)) as He.
  rewrite Ep, E1, E2, Eraw in He. split; [done|]. split.
  - destruct Hf as [Ef _]. rewrite Ef in Ep. cbn in Ep. rewrite Eraw in Ep.
    pose proof (Forall_drop _ 7 _ Hb) as Hd. rewrite Ep in Hd. by apply Forall_cons in Hd as [_ ?].
  - unfold adu_frame. rewrite <- Ep, <- E1, <- E2, <- Eraw. by destruct f.
Qed.

Lemma tcp_private_complete transaction unit payload :
  u16 transaction -> 0 <= unit <= 247 -> Forall u8 payload ->
  encodeTCPADU transaction unit (pf_function request :: payload) = Ok frame ->
  DecodeTCPPrivateFunctionResponseADU transaction unit request frame
  = Some ({| tp_adu := adu_frame (transaction, unit, pf_function request :: payload) frame;
             tp_payload := payload |}, None).
Proof.
  intros Ht Hunit Hp He. unfold DecodeTCPPrivateFunctionResponseADU.
  test_false (unit >? 247). rewrite Hreq.
  destruct tcp_private_decoder as (d & r & -> & Hs & Hroom & Ebuf & Efr & Er & _).
  destruct (frames_of_encoded TCPFramingStrict [(transaction, unit, pf_function request :: payload)]
    [frame]) as [Ef _]; [done| |by repeat constructor|].
  { unfold private_code in Hcode. apply Forall_singleton. cbn.
    conj; [done|unfold u8; lia|constructor; [unfold u8; lia|done]]. }
  cbn in Ef. rewrite app_nil_r in Ef.
  destruct (feed_roomy_settled d frame
    [adu_frame (transaction, unit, pf_function request :: payload) frame] []) as [Er' _];
    [done..|by rewrite Efr, Ebuf|].
  rewrite Er'. cbn [fr_error fr_decoder fr_frames].
  change (Finish (with_buffer d [])) with (with_buffer d [], @None TCPError). cbv iota.
  cbn [adu_frame ta_transactionID ta_unitID ta_pdu]. rewrite !Z.eqb_refl. cbn [negb].
  by rewrite (proj2 (private_payload_iff request 7 _ payload Hcode) eq_refl).
Qed.
End decoding.

(** * Properties *)

(** Private responses are matched exactly, on both transports: for a valid
    request, a frame is accepted with a payload if and only if it is the
    encoding, for the expected unit (and transaction), of the requested function
    followed by that payload; nothing else is ever returned as a payload. *)
Theorem private_response_exact transaction unit request frame :
  NewPrivateFunctionRequest (pf_function request) (pf_payload request) = Ok request ->
  u8 (pf_function request) -> u16 transaction -> Forall u8 frame ->
  (1 <= unit <= 247 -> forall adu payload,
     DecodeRTUPrivateFunctionResponseADU unit request frame
     = ({| rp_adu := adu; rp_payload := payload |}, None) <->
     encodeRTUADU unit (pf_function request :: payload) = Ok frame /\ Forall u8 payload /\
     adu = {| ru_unitID := unit; ru_pdu := pf_function request :: payload; ru_raw := frame |}) /\
  (0 <= unit <= 247 ->
     DecodeTCPPrivateFunctionResponseADU transaction unit request frame <> None /\
     forall adu payload,
     DecodeTCPPrivateFunctionResponseADU transaction unit request frame
     = Some ({| tp_adu := adu; tp_payload := payload |}, None) <->
     encodeTCPADU transaction unit (pf_function request :: payload) = Ok frame /\
     Forall u8 payload /\
     adu = adu_frame (transaction, unit, pf_function request :: payload) frame).
Proof.
  intros Hreq Hu Ht Hb. pose proof (proj1 (private_request_iff _ _ _ Hu) Hreq) as (Hc & _ & _).
  split; [intros; by apply rtu_private_iff|].
  intros Hunit. split; [by apply tcp_private_total|]. intros adu payload. split.
  - by apply tcp_private_sound.
  - intros (He & Hp & ->). by apply tcp_private_complete.
Qed.

Definition demo_private : PrivateFunctionRequest := {| pf_function := 0x41; pf_payload := [1; 2] |}.

Lemma private_response_exact_witness :
  exists frame,
    encodeRTUADU 17 [0x41; 9] = Ok frame /\
    DecodeRTUPrivateFunctionResponseADU 17 demo_private frame
    = ({| rp_adu := {| ru_unitID := 17; ru_pdu := [0x41; 9]; ru_raw := frame |};
          rp_payload := [9] |}, None).
Proof.
  destruct (encodeRTUADU 17 [0x41; 9]) as [frame|] eqn:E; [|vm_compute in E; discriminate E].
  exists frame. split; [reflexivity|].
  destruct (private_response_exact 7 17 demo_private frame) as [H _];
    [reflexivity|by unfold u8|by unfold u16| |].
  - vm_compute in E. injection E as <-. solve_bytes.
  - apply (H ltac:(lia)). split; [exact E|]. split; [solve_bytes|reflexivity].
Defined.
