(* ===== verification/RtuSession.v ===== *)
(** The RTU session (rtu_session.go): one bounded private-function exchange at a
    time over an injected byte stream, quarantine after contamination, and
    recovery after a proven quiet interval.

    The stream and the contexts are injected code: what they answer is a script,
    one event for every call of [WriteRTU] and [ReadRTUByte] with the clock and
    context values the code reads after it.  An operation that needs more events
    than the script has is still waiting, which is [None]. *)

From S2P Require Import Prelude Pdu TcpAdu RtuTiming RtuAdu PrivateFunction.

(** * Data *)

Definition defaultRTUSessionMaxResponseFrames : Z := 4.

(** [sc_Stream] tells whether a stream is given. *)
Record RTUSessionConfig : Type := mkRTUSessionConfig {
  sc_Stream : bool;
  sc_Timing : RTUTiming;
  sc_Enabled : bool;
  sc_MaxResponseFrames : Z
}.

Record RTUSession : Type := mkRTUSession {
  rs_timing : RTUTiming;
  rs_maxResponseFrames : Z;
  rs_quarantined : bool;
  rs_quarantineUntil : Z
}.

(** [errRTUSessionState], an error of this package, an error of the stream or of
    a context (opaque), or [io.ErrShortWrite]. *)
Inductive session_error : Type :=
| SessionState
| SessionProtocol (err : ProtocolError)
| SessionTransaction (err : transaction_error)
| SessionInjected (err : Z)
| SessionShortWrite.

Abbreviation sresult := (result session_error).

Definition NewRTUSession (config : RTUSessionConfig) : presult RTUSession :=
  let maxResponses :=
    if sc_MaxResponseFrames config =? 0 then defaultRTUSessionMaxResponseFrames
    else sc_MaxResponseFrames config in
  let timing := sc_Timing config in
  if negb (sc_Enabled config) || negb (sc_Stream config)
     || (rt_characterTime timing <=? 0) || (rt_interCharacter timing <=? 0)
     || (rt_interFrame timing <=? 0) || (rt_maxResponseLatency timing <=? 0)
     || (rt_maxQuiescence timing <=? rt_maxResponseLatency timing)
     || (maxResponses >? 8) then
    Err (protocolError ErrorInvalidRequest 0 0 "rtu_session_config" (-1))
  else
    Ok {| rs_timing := timing; rs_maxResponseFrames := maxResponses; rs_quarantined := false;
          rs_quarantineUntil := 0 |}.

(** One call of [ReadRTUByte]: a byte with its receipt offset; an error other
    than a passed deadline; or the deadline of the read.  [now] and [later] are
    the stream's clock where the code reads it, first for the frame and then for
    the quarantine; [cancelled] and [expired] are the errors of the caller's and
    of the bounded context. *)
Inductive read_event : Type :=
| GotByte (value offset later : Z)
| GotError (err later : Z)
| GotQuiet (now later : Z) (cancelled expired : option Z).

(** One round of the attempts: the caller's context before the write, the result
    of [WriteRTU], the clock and the context after it. *)
Record write_event : Type := mkWriteEvent {
  we_cancelled : option Z;
  we_written : Z;
  we_error : option Z;
  we_later : Z;
  we_cancelledAfter : option Z
}.

(** * Quarantine *)

(** A [time.Duration] computed in an [int64]. *)
Definition int64 (z : Z) : Z :=
  (z + 9223372036854775808) mod 18446744073709551616 - 9223372036854775808.

Definition enterQuarantineLocked (s : RTUSession) (offset : Z) : RTUSession :=
  let until := int64 (offset + rt_maxResponseLatency (rs_timing s)) in
  {| rs_timing := rs_timing s; rs_maxResponseFrames := rs_maxResponseFrames s;
     rs_quarantined := true;
     rs_quarantineUntil :=
       if until >? rs_quarantineUntil s then until else rs_quarantineUntil s |}.

(** * Receiving *)

Abbreviation responses_t := (list RTUPrivateFunctionResponseADU).

Fixpoint receive_loop (s : RTUSession) (request : PrivateFunctionRequest)
    (transaction : PrivateFunctionTransaction) (decoder : RTUFrameDecoder)
    (responses : responses_t) (haveBytes : bool) (events : list read_event)
    : option (RTUSession * sresult responses_t) :=
  match events with
  | [] => None
  | GotByte value offset later :: events =>
      match FeedByte decoder offset value with
      | (_, Some err) => Some (enterQuarantineLocked s later, Err (SessionProtocol err))
      | (decoder, None) => receive_loop s request transaction decoder responses true events
      end
  | GotError err later :: _ => Some (enterQuarantineLocked s later, Err (SessionInjected err))
  | GotQuiet now later cancelled expired :: events =>
      if haveBytes then
        match EndFrame decoder now with
        | (_, (_, Some err)) => Some (enterQuarantineLocked s later, Err (SessionProtocol err))
        | (decoder, (frame, None)) =>
            if zlen responses =? rs_maxResponseFrames s then
              Some (enterQuarantineLocked s later,
                    Err (SessionProtocol
                      (protocolError ErrorMalformedResponse (pf_function request) 0
                         "rtu_response_frame_count" (zlen responses))))
            else
              match Accept transaction (ru_raw frame) with
              | (_, Some err) =>
                  Some (enterQuarantineLocked s later, Err (SessionTransaction err))
              | (response, None) =>
                  receive_loop s request transaction decoder (responses ++ [response]) false
                    events
              end
        end
      else
        match cancelled with
        | Some err => Some (enterQuarantineLocked s later, Err (SessionInjected err))
        | None =>
            match expired with
            | None => receive_loop s request transaction decoder responses false events
            | Some err =>
                match responses with
                | [] => Some (enterQuarantineLocked s later, Err (SessionInjected err))
                | _ =>
                    match CompleteTransaction transaction with
                    | (_, Some err) => Some (s, Err (SessionTransaction err))
                    | (_, None) => Some (s, Ok responses)
                    end
                end
            end
        end
  end.

Definition receiveLocked (s : RTUSession) (unitID : Z) (request : PrivateFunctionRequest)
    (events : list read_event) : option (RTUSession * sresult responses_t) :=
  match NewRTUFrameDecoder (rs_timing s) with
  | Err err => Some (s, Err (SessionProtocol err))
  | Ok decoder =>
      match Begin idle_transaction unitID request with
      | (_, Err err) => Some (s, Err (SessionTransaction err))
      | (transaction, Ok _) => receive_loop s request transaction decoder [] false events
      end
  end.

(** * Exchange *)

(** The session after the call, its result, and the number of bytes each call of
    [WriteRTU] reported written. *)
Record ExchangeResult : Type := mkExchangeResult {
  xr_session : RTUSession;
  xr_result : sresult responses_t;
  xr_writes : list Z
}.

(** The attempts that [remaining] leaves; [writes] are those already made. *)
Fixpoint write_loop (s : RTUSession) (unitID : Z) (request : PrivateFunctionRequest)
    (policy : PrivateFunctionResponsePolicy) (frame : list Z) (remaining : nat)
    (script : list write_event) (reads : list read_event) (writes : list Z)
    : option ExchangeResult :=
  match remaining with
  | O => Some {| xr_session := s; xr_result := Err SessionState; xr_writes := writes |}
  | S remaining =>
      match script with
      | [] => None
      | w :: script =>
          match we_cancelled w with
          | Some err =>
              Some {| xr_session := s; xr_result := Err (SessionInjected err);
                      xr_writes := writes |}
          | None =>
              let writes := writes ++ [we_written w] in
              if (we_written w =? zlen frame) && bool_decide (we_error w = None) then
                '(s, r) ← receiveLocked s unitID request reads;
                Some {| xr_session := s; xr_result := r; xr_writes := writes |}
              else
                let s := if negb (we_written w =? 0) then enterQuarantineLocked s (we_later w)
                         else s in
                let err := match we_error w with
                           | Some err => SessionInjected err
                           | None => SessionShortWrite
                           end in
                if (we_written w =? 0) && pp_replaySafe policy && negb (Nat.eqb remaining 0)
                   && bool_decide (we_cancelledAfter w = None) then
                  write_loop s unitID request policy frame remaining script reads writes
                else Some {| xr_session := s; xr_result := Err err; xr_writes := writes |}
          end
      end
  end.

Definition Exchange (s : RTUSession) (unitID : Z) (request : PrivateFunctionRequest)
    (policy : PrivateFunctionResponsePolicy) (script : list write_event)
    (reads : list read_event) : option ExchangeResult :=
  match EncodeRTUPrivateFunctionADU unitID request with
  | Err err => Some {| xr_session := s; xr_result := Err (SessionProtocol err); xr_writes := [] |}
  | Ok frame =>
      if invalid_policy (pp_maxAttempts policy) (pp_replaySafe policy) then
        Some {| xr_session := s;
                xr_result := Err (SessionProtocol
                  (protocolError ErrorInvalidRequest (pf_function request) 0
                     "private_function_response_policy" (-1)));
                xr_writes := [] |}
      else if rs_quarantined s then
        Some {| xr_session := s; xr_result := Err SessionState; xr_writes := [] |}
      else
        write_loop s unitID request policy frame (Z.to_nat (pp_maxAttempts policy)) script
          reads []
  end.

(** * Recovery *)

(** [None] in the result is success. *)
Fixpoint recover_loop (s : RTUSession) (quietAfter : Z) (events : list read_event)
    : option (RTUSession * option session_error) :=
  match events with
  | [] => None
  | GotByte _ offset _ :: events => recover_loop s offset events
  | GotError err _ :: _ => Some (s, Some (SessionInjected err))
  | GotQuiet now _ cancelled expired :: events =>
      match cancelled, expired with
      | Some err, _ => Some (s, Some (SessionInjected err))
      | None, Some err => Some (s, Some (SessionInjected err))
      | None, None =>
          if (now <? quietAfter) || (int64 (now - quietAfter) <? rt_interFrame (rs_timing s)) then
            Some (s, Some SessionState)
          else if now <? rs_quarantineUntil s then recover_loop s quietAfter events
          else if int64 (now - rs_quarantineUntil s) <? rt_interFrame (rs_timing s) then
            recover_loop s quietAfter events
          else
            Some ({| rs_timing := rs_timing s; rs_maxResponseFrames := rs_maxResponseFrames s;
                     rs_quarantined := false; rs_quarantineUntil := 0 |}, None)
      end
  end.

(** [start] is the stream's clock when recovery begins. *)
Definition Recover (s : RTUSession) (start : Z) (events : list read_event)
    : option (RTUSession * option session_error) :=
  if negb (rs_quarantined s) then Some (s, Some SessionState)
  else recover_loop s start events.

(** * Facts *)

Lemma int64_id z : i64 z -> int64 z = z.
Proof. unfold i64, int64, MaxInt64. intros H. rewrite Z.mod_small; lia. Qed.

Lemma int64_le z : 0 <= z -> int64 z <= z.
Proof.
  unfold int64. intros H.
  pose proof (Z.mod_le (z + 9223372036854775808) 18446744073709551616). lia.
Qed.

(** The bytes a script delivers. *)
Definition bytes_of (events : list read_event) : list Z :=
  omap (fun event => match event with GotByte value _ _ => Some value | _ => None end) events.

(** The clock readings a script offers for the start of a quarantine. *)
Definition later_of (event : read_event) : Z :=
  match event with
  | GotByte _ _ later | GotError _ later | GotQuiet _ later _ _ => later
  end.

(** A response is the encoding, for the unit, of the function requested and the
    payload it reports. *)
Definition response_ok (unit : Z) (request : PrivateFunctionRequest)
    (response : RTUPrivateFunctionResponseADU) : Prop :=
  encodeRTUADU unit (pf_function request :: rp_payload response) = Ok (ru_raw (rp_adu response)).

Definition waiting (unit : Z) (request : PrivateFunctionRequest) : PrivateFunctionTransaction :=
  {| pt_state := privateFunctionWaiting; pt_unitID := unit; pt_request := request |}.

Lemma feed_byte_ok d offset value d' :
  rd_poisoned d = false -> FeedByte d offset value = (d', None) ->
  rd_poisoned d' = false /\ rd_buffer d' = rd_buffer d ++ [value].
Proof.
  intros Hp. unfold FeedByte, feed_unpoisoned. rewrite Hp.
  repeat case_test; intros [= <-]; done.
Qed.

Lemma end_frame_ok d now d' frame :
  EndFrame d now = (d', (frame, None)) ->
  ru_raw frame = rd_buffer d /\ rd_buffer d' = [] /\ rd_poisoned d' = false.
Proof.
  unfold EndFrame. case_test; [done|]. intros [= <- E].
  pose proof (decode_rtu_raw (rd_buffer d)) as Hr. rewrite E in Hr. done.
Qed.

Lemma encoded_request unit request frame :
  u8 unit -> u8 (pf_function request) ->
  EncodeRTUPrivateFunctionADU unit request = Ok frame ->
  NewPrivateFunctionRequest (pf_function request) (pf_payload request) = Ok request /\
  private_code (pf_function request) /\ 1 <= unit <= 247 /\ 0 < zlen frame.
Proof.
  intros Hun Hu. unfold EncodeRTUPrivateFunctionADU, EncodePrivatePDU.
  destruct (NewPrivateFunctionRequest _ _) as [r|] eqn:E; [|done].
  apply private_request_iff in E as (Hc & Hl & ->); [|done].
  unfold encodeRTUADU, u8 in *. repeat case_test; [done..|]. intros [= <-]. bool_hyps.
  conj; [by destruct request|done|lia|lia|].
  rewrite zlen_cons. match goal with |- 0 < 1 + zlen ?l => pose proof (zlen_nonneg l) end. lia.
Qed.

Section receiving.
Context (s : RTUSession) (unit : Z) (request : PrivateFunctionRequest).
Hypothesis Hreq : NewPrivateFunctionRequest (pf_function request) (pf_payload request) = Ok request.
Hypothesis Hcode : private_code (pf_function request).
Hypothesis Hunit : 1 <= unit <= 247.

Lemma accept_ok frame response :
  Forall u8 frame -> Accept (waiting unit request) frame = (response, None) ->
  response_ok unit request response /\ ru_raw (rp_adu response) = frame.
Proof.
  intros Hb. unfold Accept. cbn.
  destruct (DecodeRTUPrivateFunctionResponseADU unit request frame) as [[adu payload] [err|]] eqn:E;
    [done|]. intros [= <-]. apply rtu_private_iff in E as (He & _ & ->); try done.
Qed.

Definition raws (responses : responses_t) : list Z :=
  concat ((fun x => ru_raw (rp_adu x)) <$> responses).

(** What a call of the loop may end with, after [received] bytes: sound responses
    that account for every byte, or an error that leaves the session in
    quarantine. *)
Definition receive_post (received : list Z) (events : list read_event) (s' : RTUSession)
    (r : sresult responses_t) : Prop :=
  match r with
  | Ok rs =>
      s' = s /\ rs <> [] /\ zlen rs <= rs_maxResponseFrames s /\
      Forall (response_ok unit request) rs /\
      exists used rest, events = used ++ rest /\ raws rs = received ++ bytes_of used
  | Err _ => exists later, later ∈ later_of <$> events /\ s' = enterQuarantineLocked s later
  end.

Lemma post_event received event events s' r :
  receive_post (received ++ bytes_of [event]) events s' r ->
  receive_post received (event :: events) s' r.
Proof.
  destruct r as [rs|]; cbn.
  2: { intros (later & Hin & ->). exists later. split; [|done]. apply elem_of_cons. by right. }
  intros (? & ? & ? & ? & used & rest & -> & Hc). conj; try done. exists (event :: used), rest. split; [done|]. rewrite Hc, <- app_assoc.
  by destruct event.
Qed.

(** The loop with [responses] accepted and the decoder holding the bytes since. *)
Lemma receive_loop_spec events decoder responses haveBytes received s' r :
  Forall u8 (bytes_of events) -> Forall u8 received ->
  rd_poisoned decoder = false -> (haveBytes = false -> rd_buffer decoder = []) ->
  raws responses ++ rd_buffer decoder = received ->
  Forall (response_ok unit request) responses -> zlen responses <= rs_maxResponseFrames s ->
  receive_loop s request (waiting unit request) decoder responses haveBytes events = Some (s', r) ->
  receive_post received events s' r.
Proof.
  revert decoder responses haveBytes received.
  induction events as [|event events IH]; intros decoder responses haveBytes received
    Hev Hrec Hp Hbuf Hsum Hok Hmax E; [done|]. cbn in E.
  assert (Hq : s' = enterQuarantineLocked s (later_of event) -> (forall rs, r <> Ok rs) ->
            receive_post received (event :: events) s' r).
  { intros -> Hr. destruct r as [rs|]; [by destruct (Hr rs)|]. exists (later_of event).
    split; [|done]. apply elem_of_cons. by left. }
  destruct event as [value offset later|err later|now later cancelled expired]; cbn in Hev.
  - apply Forall_cons in Hev as [Hv Hev].
    destruct (FeedByte decoder offset value) as [d' [err|]] eqn:Ef.
    { injection E as <- <-. by apply Hq. }
    destruct (feed_byte_ok _ _ _ _ Hp Ef) as [Hp' Hb'].
    apply post_event. eapply (IH d' responses true); try done.
    + apply Forall_app. split; [done|by constructor].
    + by rewrite Hb', app_assoc, Hsum.
  - injection E as <- <-. by apply Hq.
  - destruct haveBytes.
    + destruct (EndFrame decoder now) as [d' [frame [err|]]] eqn:Ee.
      { injection E as <- <-. by apply Hq. }
      destruct (end_frame_ok _ _ _ _ Ee) as (Hraw & Hb' & Hp').
      destruct (zlen responses =? _) eqn:En; bool_hyps.
      { injection E as <- <-. by apply Hq. }
      destruct (Accept _ _) as [response [err|]] eqn:Ea.
      { injection E as <- <-. by apply Hq. }
      assert (Hb : Forall u8 (rd_buffer decoder))
        by (rewrite <- Hsum in Hrec; by apply Forall_app in Hrec as [_ ?]).
      apply accept_ok in Ea as [Hresp Eraw]; [|by rewrite Hraw].
      apply post_event. cbn. rewrite app_nil_r.
      eapply (IH d' (responses ++ [response]) false); try done.
      * rewrite Hb', app_nil_r. unfold raws in *. rewrite fmap_app, concat_app. cbn.
        by rewrite app_nil_r, Eraw, Hraw.
      * apply Forall_app. split; [done|by constructor].
      * rewrite zlen_app, zlen_cons, zlen_nil. lia.
    + destruct cancelled as [err|]; [injection E as <- <-; by apply Hq|].
      destruct expired as [err|]; 
        [|apply post_event; cbn; rewrite app_nil_r; by eapply (IH decoder responses false)].
      destruct responses as [|resp responses']; [injection E as <- <-; by apply Hq|].
      injection E as <- <-. cbn. conj; try done.
      eexists [], _. split; [done|]. rewrite (Hbuf eq_refl), app_nil_r in Hsum. by rewrite app_nil_r.
Qed.
End receiving.

Record session_ok (s : RTUSession) : Prop := {
  ss_character : 0 < rt_characterTime (rs_timing s);
  ss_interCharacter : 0 < rt_interCharacter (rs_timing s);
  ss_interFrame : 0 < rt_interFrame (rs_timing s);
  ss_frames : 0 <= rs_maxResponseFrames s <= 8
}.

Lemma new_session_ok config s :
  u8 (sc_MaxResponseFrames config) -> NewRTUSession config = Ok s -> session_ok s.
Proof.
  unfold NewRTUSession, u8. intros Hu.
  set (n := if sc_MaxResponseFrames config =? 0 then _ else _).
  assert (0 <= n) by (unfold n, defaultRTUSessionMaxResponseFrames; destruct (_ =? 0); lia).
  cbv zeta. destruct (_ || (n >? 8)) eqn:E; [done|]. intros [= <-]. bool_hyps.
  constructor; cbn; lia.
Qed.

Lemma receive_spec s unit request frame events s' r :
  session_ok s -> u8 unit -> u8 (pf_function request) ->
  EncodeRTUPrivateFunctionADU unit request = Ok frame -> Forall u8 (bytes_of events) ->
  receiveLocked s unit request events = Some (s', r) ->
  receive_post s unit request [] events s' r.
Proof.
  intros [] Hun Hu He Hev. destruct (encoded_request _ _ _ Hun Hu He) as (Hr & Hc & Hb & _).
  unfold receiveLocked, NewRTUFrameDecoder, Begin. rewrite He. cbn.
  test_false ((rt_characterTime (rs_timing s) <=? 0) || (rt_interCharacter (rs_timing s) <=? 0)
     || (rt_interFrame (rs_timing s) <=? 0)).
  apply receive_loop_spec; try done. unfold zlen. cbn. lia.
Qed.

Definition some_sent (writes : list Z) : Prop := Exists (fun n => n <> 0) writes.

(** What an exchange leaves, given the calls of [WriteRTU] it made. *)
Definition exchange_post (s : RTUSession) (unit : Z) (request : PrivateFunctionRequest)
    (frame : list Z) (clocks : list Z) (reads : list read_event) (xr : ExchangeResult) : Prop :=
  match xr_result xr with
  | Ok rs =>
      receive_post s unit request [] reads (xr_session xr) (Ok rs) /\
      exists zeros, xr_writes xr = zeros ++ [zlen frame] /\ Forall (eq 0) zeros
  | Err _ =>
      (some_sent (xr_writes xr) ->
         exists later, later ∈ clocks ++ (later_of <$> reads) /\
           xr_session xr = enterQuarantineLocked s later) /\
      (Forall (eq 0) (xr_writes xr) -> xr_session xr = s) /\
      exists zeros final, xr_writes xr = zeros ++ final /\ Forall (eq 0) zeros /\ zlen final <= 1
  end.

Lemma zeros_not_sent writes : Forall (eq 0) writes -> ~ some_sent writes.
Proof.
  intros HF HE. rewrite Forall_forall in HF. unfold some_sent in HE. rewrite Exists_exists in HE.
  destruct HE as (n & Hin & Hn). apply Hn. symmetry. by apply HF.
Qed.

Section writing.
Context (s : RTUSession) (unit : Z) (request : PrivateFunctionRequest) (frame : list Z)
  (policy : PrivateFunctionResponsePolicy) (reads : list read_event).
Hypothesis Hs : session_ok s.
Hypothesis Hun : u8 unit.
Hypothesis Hu : u8 (pf_function request).
Hypothesis He : EncodeRTUPrivateFunctionADU unit request = Ok frame.
Hypothesis Hev : Forall u8 (bytes_of reads).

Lemma silent_stop err writes clocks :
  Forall (eq 0) writes ->
  exchange_post s unit request frame clocks reads
    {| xr_session := s; xr_result := Err err; xr_writes := writes |}.
Proof.
  intros HF. cbn. split; [intros H; by destruct (zeros_not_sent _ HF)|]. split; [done|].
  exists writes, []. by rewrite app_nil_r.
Qed.

(** The attempts, after some that put nothing on the line. *)
Lemma write_loop_spec remaining script writes xr :
  Forall (eq 0) writes ->
  write_loop s unit request policy frame remaining script reads writes = Some xr ->
  exchange_post s unit request frame (we_later <$> script) reads xr /\
  zlen (xr_writes xr) <= zlen writes + (if pp_replaySafe policy then Z.of_nat remaining else 1).
Proof.
  destruct (encoded_request _ _ _ Hun Hu He) as (_ & _ & _ & Hlen).
  revert script writes. induction remaining as [|remaining IH]; intros script writes HF E; cbn in E.
  { injection E as <-. split; [by apply silent_stop|]. cbn. destruct (pp_replaySafe policy); lia. }
  destruct script as [|w script]; [done|].
  destruct (we_cancelled w) as [err|].
  { injection E as <-. split; [by apply silent_stop|]. cbn. destruct (pp_replaySafe policy); lia. }
  destruct ((we_written w =? zlen frame) && _) eqn:Ew; bool_hyps.
  { destruct (receiveLocked s unit request reads) as [[s' r]|] eqn:Er; [|done]. injection E as <-.
    pose proof (receive_spec _ _ _ _ _ _ _ Hs Hun Hu He Hev Er) as Hpost.
    split; [|cbn; rewrite zlen_app, zlen_cons, zlen_nil; destruct (pp_replaySafe policy); lia].
    match goal with H : we_written w = zlen frame |- _ => rename H into Ewr end.
    unfold exchange_post. cbn [xr_result xr_session xr_writes]. destruct r as [rs|err].
    - split; [done|]. exists writes. by rewrite Ewr.
    - destruct Hpost as (later & Hin & ->). split; [|split].
      + intros _. exists later. split; [|done]. apply elem_of_app. by right.
      + intros HF'. exfalso. apply Forall_app in HF' as [_ HF']. apply Forall_cons in HF' as [Hz _]. lia.
      + exists writes, [we_written w]. split; [done|]. split; [done|]. by vm_compute. }
  clear Ew. destruct (we_written w =? 0) eqn:E0; bool_hyps; cbn [negb andb] in E.
  - assert (HF' : Forall (eq 0) (writes ++ [we_written w])).
    { apply Forall_app. split; [done|]. constructor; [done|constructor]. }
    destruct (pp_replaySafe policy && negb (Nat.eqb remaining 0) && _) eqn:Ec; bool_hyps.
    + match goal with H : pp_replaySafe policy = true |- _ => rename H into Hrs end.
      destruct (IH _ _ HF' E) as [Hpost Hlen']. rewrite Hrs in *.
      rewrite zlen_app, zlen_cons, zlen_nil in Hlen'. split; [|lia].
      unfold exchange_post in *. destruct (xr_result xr); [done|].
      destruct Hpost as [Hq Hrest]. split; [|done]. intros Hsent.
      destruct (Hq Hsent) as (later & Hin & ->). exists later. split; [|done].
      cbn. apply elem_of_cons. by right.
    + injection E as <-. split; [by apply silent_stop|]. cbn. rewrite zlen_app, zlen_cons, zlen_nil.
      destruct (pp_replaySafe policy); lia.
  - injection E as <-. split.
    2: { cbn [xr_writes]. rewrite zlen_app, zlen_cons, zlen_nil. destruct (pp_replaySafe policy); lia. }
    unfold exchange_post. cbn [xr_result xr_session xr_writes]. split; [|split].
    + intros _. exists (we_later w). split; [apply elem_of_cons; by left|done].
    + intros HF'. exfalso. apply Forall_app in HF' as [_ HF']. apply Forall_cons in HF' as [Hz _]. lia.
    + exists writes, [we_written w]. split; [done|]. split; [done|]. by vm_compute.
Qed.
End writing.

(** The receipt offset of the last byte of a script, or [start]. *)
Fixpoint last_byte (start : Z) (events : list read_event) : Z :=
  match events with
  | [] => start
  | GotByte _ offset _ :: events => last_byte offset events
  | _ :: events => last_byte start events
  end.

Lemma recover_loop_spec events s quiet s' err :
  recover_loop s quiet events = Some (s', err) ->
  match err with
  | Some _ => s' = s
  | None =>
      rs_quarantined s' = false /\ rs_quarantineUntil s' = 0 /\
      exists used now later rest,
        events = used ++ GotQuiet now later None None :: rest /\
        rs_quarantineUntil s + rt_interFrame (rs_timing s) <= now /\
        last_byte quiet used + rt_interFrame (rs_timing s) <= now
  end.
Proof.
  revert quiet. induction events as [|event events IH]; intros quiet E; cbn in E; [done|].
  destruct event as [value offset later|e later|now later cancelled expired].
  - specialize (IH _ E). destruct err; [done|].
    destruct IH as (? & ? & used & now & l & rest & -> & ? & ?). conj; try done.
    by exists (GotByte value offset later :: used), now, l, rest.
  - by injection E as <- <-.
  - destruct cancelled as [c|]; [by injection E as <- <-|].
    destruct expired as [c|]; [by injection E as <- <-|].
    destruct ((now <? quiet) || _) eqn:E1; [by injection E as <- <-|]. bool_hyps.
    assert (Hnext : recover_loop s quiet events = Some (s', err) ->
      match err with
      | Some _ => s' = s
      | None => rs_quarantined s' = false /\ rs_quarantineUntil s' = 0 /\
          exists used now0 later0 rest,
            GotQuiet now later None None :: events
            = used ++ GotQuiet now0 later0 None None :: rest /\
            rs_quarantineUntil s + rt_interFrame (rs_timing s) <= now0 /\
            last_byte quiet used + rt_interFrame (rs_timing s) <= now0
      end).
    { intros E'. specialize (IH _ E'). destruct err; [done|].
      destruct IH as (? & ? & used & n & l & rest & -> & ? & ?). conj; try done.
      by exists (GotQuiet now later None None :: used), n, l, rest. }
    destruct (now <? rs_quarantineUntil s) eqn:E2; [by apply Hnext|].
    destruct (int64 (now - rs_quarantineUntil s) <? _) eqn:E3; [by apply Hnext|]. bool_hyps.
    injection E as <- <-.
    pose proof (int64_le (now - quiet)). pose proof (int64_le (now - rs_quarantineUntil s)).
    cbn [rs_quarantined rs_quarantineUntil]. conj; try done. exists [], now, later, events.
    cbn [last_byte app]. conj; [done|lia|lia].
Qed.

Lemma quarantine_until s later :
  int64 (later + rt_maxResponseLatency (rs_timing s))
    <= rs_quarantineUntil (enterQuarantineLocked s later).
Proof. cbn. destruct (_ >? _) eqn:E; bool_hyps; lia. Qed.

(** An exchange ends before any write, or in the attempts. *)
Lemma exchange_cases s unit request policy script reads xr :
  session_ok s -> u8 unit -> u8 (pf_function request) -> u8 (pp_maxAttempts policy) ->
  Forall u8 (bytes_of reads) ->
  Exchange s unit request policy script reads = Some xr ->
  (xr_session xr = s /\ xr_writes xr = [] /\ exists err, xr_result xr = Err err) \/
  (rs_quarantined s = false /\ exists frame, EncodeRTUPrivateFunctionADU unit request = Ok frame /\
     exchange_post s unit request frame (we_later <$> script) reads xr /\
     zlen (xr_writes xr) <= (if pp_replaySafe policy then 3 else 1)).
Proof.
  intros Hs Hun Hu Hpol Hev. unfold Exchange.
  destruct (EncodeRTUPrivateFunctionADU unit request) as [frame|err] eqn:He.
  2: { intros [= <-]. left. by eauto. }
  destruct (invalid_policy _ _) eqn:Ei; [intros [= <-]; left; by eauto|].
  destruct (rs_quarantined s) eqn:Eq; [intros [= <-]; left; by eauto|].
  intros E. right. split; [done|]. exists frame. split; [done|].
  destruct (write_loop_spec _ _ _ _ _ _ Hs Hun Hu He Hev _ _ _ _ (Forall_nil_2 _) E) as [Hp Hl].
  split; [done|]. unfold invalid_policy in Ei. bool_hyps. rewrite zlen_nil in Hl.
  destruct (pp_replaySafe policy); lia.
Qed.

Lemma quarantined_exchange s unit request policy script reads :
  rs_quarantined s = true ->
  exists xr, Exchange s unit request policy script reads = Some xr /\ xr_writes xr = [].
Proof.
  intros Hq. unfold Exchange. rewrite Hq.
  destruct (EncodeRTUPrivateFunctionADU unit request); [destruct (invalid_policy _ _)|];
    eexists; split; done.
Qed.

(** The response bound has passed: the read times out and so has its parent. *)
Definition bound_passed (event : read_event) : Prop :=
  match event with
  | GotQuiet _ _ _ (Some _) => True
  | _ => False
  end.

Lemma receive_returns reads a b s request transaction decoder responses haveBytes :
  bound_passed a -> bound_passed b ->
  is_Some (receive_loop s request transaction decoder responses haveBytes (reads ++ [a; b])).
Proof.
  intros Ha Hb. revert decoder responses haveBytes.
  induction reads as [|event reads IH]; intros decoder responses haveBytes.
  - destruct a as [| |na la ca [ea|]]; try done. destruct b as [| |nb lb cb [eb|]]; try done.
    assert (Hlast : forall decoder responses n l c e rest,
      is_Some (receive_loop s request transaction decoder responses false
                 (GotQuiet n l c (Some e) :: rest))).
    { intros. cbn [receive_loop]. destruct c, responses0; try by eexists.
      destruct (CompleteTransaction _) as [? [|]]; by eexists. }
    destruct haveBytes; [|exact (Hlast decoder responses na la ca ea _)]. cbn [app]. cbn [receive_loop].
    destruct (EndFrame _ _) as [? [? [|]]]; [by eexists|]. case_test; [by eexists|].
    destruct (Accept _ _) as [response [|]]; [by eexists|].
    exact (Hlast decoder (responses ++ [response]) nb lb cb eb []).
  - destruct event as [v o l|e l|n l c e]; cbn [app receive_loop]; [|by eexists|].
    + destruct (FeedByte _ _ _) as [? [|]]; [by eexists|apply IH].
    + destruct haveBytes.
      * destruct (EndFrame _ _) as [? [? [|]]]; [by eexists|]. case_test; [by eexists|].
        destruct (Accept _ _) as [? [|]]; [by eexists|]. apply IH.
      * destruct c; [by eexists|]. destruct e; [|apply IH].
        destruct responses; [by eexists|]. destruct (CompleteTransaction transaction) as [? [|]]; by eexists.
Qed.

Lemma exchange_returns reads a b s unit request policy script :
  bound_passed a -> bound_passed b -> u8 (pp_maxAttempts policy) ->
  pp_maxAttempts policy <= zlen script ->
  is_Some (Exchange s unit request policy script (reads ++ [a; b])).
Proof.
  intros Ha Hb Hu Hl. unfold Exchange. destruct (EncodeRTUPrivateFunctionADU _ _) as [frame|]; [|by eexists].
  destruct (invalid_policy _ _); [by eexists|]. destruct (rs_quarantined s); [by eexists|].
  assert (Hn : (Z.to_nat (pp_maxAttempts policy) <= length script)%nat) by (unfold zlen, u8 in *; lia).
  clear Hl Hu. revert Hn. generalize (@nil Z) as writes.
  generalize (Z.to_nat (pp_maxAttempts policy)) as n. intros n. revert s script.
  induction n as [|n IH]; intros s script writes Hn; [by eexists|].
  destruct script as [|w script]; [cbn in Hn; lia|]. cbn in Hn. cbn [write_loop].
  destruct (we_cancelled w); [by eexists|]. case_test.
  - unfold receiveLocked. destruct (NewRTUFrameDecoder _); [|by eexists].
    destruct (Begin _ _ _) as [? [|]]; [|by eexists].
    edestruct receive_returns as [[? ?] ->]; [exact Ha|exact Hb|by eexists].
  - destruct (_ && bool_decide (we_cancelledAfter w = None)); [apply IH; lia|by eexists].
Qed.

(** A read that waited in vain, at least [gap] after [start]. *)
Definition quiet_since (start gap : Z) (event : read_event) : Prop :=
  match event with
  | GotQuiet now _ None None => start + gap <= now <= MaxInt64
  | _ => False
  end.

Lemma recover_quiet used s start now clock rest :
  rs_quarantined s = true -> 0 <= start -> 0 <= rs_quarantineUntil s ->
  Forall (quiet_since start (rt_interFrame (rs_timing s))) (GotQuiet now clock None None :: used) ->
  rs_quarantineUntil s + rt_interFrame (rs_timing s) <= now -> 0 <= rt_interFrame (rs_timing s) ->
  exists s', Recover s start (used ++ GotQuiet now clock None None :: rest) = Some (s', None).
Proof.
  intros Hq Hst Hun HF Hn Hg. unfold Recover. rewrite Hq. cbn [negb].
  apply Forall_cons in HF as [Hnow HF]. cbn in Hnow.
  assert (Hid : forall x y, 0 <= y <= x -> x <= MaxInt64 -> int64 (x - y) = x - y).
  { intros x y ? ?. apply int64_id. unfold i64, MaxInt64 in *. lia. }
  induction used as [|event used IH]; cbn [app recover_loop].
  - rewrite !Hid by lia. test_false ((now <? start) || (now - start <? rt_interFrame (rs_timing s))).
    test_false (now <? rs_quarantineUntil s).
    test_false (now - rs_quarantineUntil s <? rt_interFrame (rs_timing s)). by eauto.
  - apply Forall_cons in HF as [He HF]. specialize (IH HF).
    destruct event as [| |n l [|] [|]]; try done. cbn in He. rewrite (Hid n start) by lia.
    test_false ((n <? start) || (n - start <? rt_interFrame (rs_timing s))).
    destruct (n <? _); [done|]. destruct (_ <? _); [done|]. by eauto.
Qed.

(** * Properties *)

(** A session, a request and a script for the witnesses. *)
Definition demo_session : RTUSession :=
  {| rs_timing := {| rt_baud := 9600; rt_bitsPerCharacter := 10; rt_characterTime := 1041667;
                     rt_interCharacter := 1562500; rt_interFrame := 3645834;
                     rt_readInterCharacter := 1562500; rt_maxResponseLatency := 100000000;
                     rt_maxQuiescence := 1000000000 |};
     rs_maxResponseFrames := 4; rs_quarantined := false; rs_quarantineUntil := 0 |}.

Definition demo_policy : PrivateFunctionResponsePolicy :=
  {| pp_maxAttempts := 2; pp_replaySafe := true |}.

Definition demo_writes : list write_event :=
  [ {| we_cancelled := None; we_written := 0; we_error := Some 1; we_later := 10;
       we_cancelledAfter := None |};
    {| we_cancelled := None; we_written := 6; we_error := None; we_later := 20;
       we_cancelledAfter := None |} ].

(** One response, byte by byte, then silence until the response bound. *)
Definition demo_reads : list read_event :=
  match encodeRTUADU 17 [0x41; 9] with
  | Ok frame => (fun value => GotByte value 5000000 5000000) <$> frame
  | Err _ => []
  end ++ [GotQuiet 9000000 9000000 None None; GotQuiet 200000000 200000000 None (Some 2)].

(** An exchange on a sound session is safe whatever the stream and the
    contexts do.  A session in quarantine writes nothing.  Otherwise the request
    is passed to the stream at most three times, at most once without a replay-safe
    policy, and never again after a call that put bytes on the line.  A success
    means the whole frame was written and returns between one and the configured
    number of responses, each the encoding for the unit of the requested function,
    which together are exactly the bytes received; the session is unchanged.  An
    error after any byte was sent leaves the session in quarantine for the whole
    response latency from a clock reading of the exchange, and an error before
    leaves it unchanged.  And it returns: a stream that answers every attempted
    write and whose reads come to time out past the response bound is enough. *)
Theorem session_exchange_safe s unit request policy script reads :
  session_ok s -> u8 unit -> u8 (pf_function request) -> u8 (pp_maxAttempts policy) ->
  Forall u8 (bytes_of reads) ->
  (pp_maxAttempts policy <= zlen script ->
   (exists before a b, reads = before ++ [a; b] /\ bound_passed a /\ bound_passed b) ->
   is_Some (Exchange s unit request policy script reads)) /\
  forall xr, Exchange s unit request policy script reads = Some xr ->
  zlen (xr_writes xr) <= (if pp_replaySafe policy then 3 else 1) /\
  (rs_quarantined s = true -> xr_writes xr = [] /\ xr_session xr = s) /\
  match xr_result xr with
  | Ok rs =>
      xr_session xr = s /\ 1 <= zlen rs <= rs_maxResponseFrames s /\
      Forall (response_ok unit request) rs /\
      (exists used rest, reads = used ++ rest /\ raws rs = bytes_of used) /\
      exists frame zeros, EncodeRTUPrivateFunctionADU unit request = Ok frame /\
        xr_writes xr = zeros ++ [zlen frame] /\ Forall (eq 0) zeros
  | Err _ =>
      (some_sent (xr_writes xr) ->
         rs_quarantined (xr_session xr) = true /\
         exists later, later ∈ (we_later <$> script) ++ (later_of <$> reads) /\
           int64 (later + rt_maxResponseLatency (rs_timing s))
             <= rs_quarantineUntil (xr_session xr)) /\
      (Forall (eq 0) (xr_writes xr) -> xr_session xr = s) /\
      exists zeros final, xr_writes xr = zeros ++ final /\ Forall (eq 0) zeros /\ zlen final <= 1
  end.
Proof.
  intros Hs Hun Hu Hpol Hev. split.
  { intros Hn (before & a & b & -> & Ha & Hb). by apply exchange_returns. }
  intros xr E. destruct (exchange_cases _ _ _ _ _ _ _ Hs Hun Hu Hpol Hev E)
    as [(Hse & Hw & err & Hr)|(Hq & frame & He & Hpost & Hlen)].
  - rewrite Hse, Hw, Hr. conj; [destruct (pp_replaySafe policy); by vm_compute|done| |done|].
    + intros Hsent. by inversion Hsent.
    + exists [], []. conj; [done|constructor|by vm_compute].
  - conj; [done|by rewrite Hq|]. unfold exchange_post in Hpost.
    destruct (xr_result xr) as [rs|].
    + destruct Hpost as [(-> & Hne & Hn & Hok & Hrec) (zeros & Hw & Hz)].
      conj; [done| |done|done|done|by exists frame, zeros].
      destruct rs; [done|]. rewrite zlen_cons. pose proof (zlen_nonneg rs). lia.
    + destruct Hpost as (Hsent & Hrest). split; [|done]. intros H.
      destruct (Hsent H) as (later & Hin & ->). split; [done|]. exists later. split; [done|].
      apply quarantine_until.
Qed.

Lemma session_exchange_safe_witness :
  exists xr,
    Exchange demo_session 17 demo_private demo_policy demo_writes demo_reads = Some xr /\
    xr_writes xr = [0; 6] /\ xr_session xr = demo_session.
Proof.
  eexists. split; [vm_compute; reflexivity|]. split; [reflexivity|].
  destruct (session_exchange_safe demo_session 17 demo_private demo_policy demo_writes demo_reads)
    as [_ H];
    [constructor; cbn; lia|unfold u8; lia|unfold u8; cbn; lia|unfold u8; cbn; lia
    |let l := eval vm_compute in (bytes_of demo_reads) in change (Forall u8 l); solve_bytes|].
  edestruct H as (_ & _ & Hr); [vm_compute; reflexivity|]. exact (proj1 Hr).
Defined.

(** Recovery is the only way out of quarantine and proves silence.  After a
    quarantine entered when the clock read [later], [Recover] lifts it only at a
    clock reading past the whole response latency counted from [later] plus one
    inter-frame gap, at least one inter-frame gap after the last byte it read, and
    with neither context done; every error leaves the session in quarantine as it
    was, so that an exchange on it writes nothing.  And it does lift it: a stream
    that stays silent is recovered from at the first reading past both. *)
Theorem session_recovery_quiet s later start events :
  i64 (later + rt_maxResponseLatency (rs_timing s)) ->
  (forall s' err, Recover (enterQuarantineLocked s later) start events = Some (s', err) ->
     match err with
     | Some _ =>
         s' = enterQuarantineLocked s later /\
         forall unit request policy script reads,
           exists xr, Exchange s' unit request policy script reads = Some xr /\ xr_writes xr = []
     | None =>
         rs_quarantined s' = false /\ rs_quarantineUntil s' = 0 /\
         exists used now clock rest,
           events = used ++ GotQuiet now clock None None :: rest /\
           later + rt_maxResponseLatency (rs_timing s) + rt_interFrame (rs_timing s) <= now /\
           last_byte start used + rt_interFrame (rs_timing s) <= now
     end) /\
  (forall used now clock rest,
     events = used ++ GotQuiet now clock None None :: rest ->
     Forall (quiet_since start (rt_interFrame (rs_timing s))) (GotQuiet now clock None None :: used) ->
     session_ok s -> 0 <= start -> 0 <= rs_quarantineUntil s ->
     rs_quarantineUntil (enterQuarantineLocked s later) + rt_interFrame (rs_timing s) <= now ->
     exists s', Recover (enterQuarantineLocked s later) start events = Some (s', None)).
Proof.
  intros Hi. pose proof (quarantine_until s later) as Hu. rewrite int64_id in Hu by done. split.
  - intros s' err E. apply recover_loop_spec in E. destruct err.
    + subst s'. split; [done|]. intros. by apply quarantined_exchange.
    + destruct E as (? & ? & used & now & clock & rest & -> & Hn & Hl). conj; try done.
      exists used, now, clock, rest. cbn [enterQuarantineLocked rs_timing] in *. conj; [done|lia|done].
  - intros used now clock rest -> Hq [] Hst H0 Hn. apply (recover_quiet used); try done.
    + cbn [enterQuarantineLocked rs_quarantineUntil]. destruct (_ >? _) eqn:E; [|done]. bool_hyps. lia.
    + cbn. lia.
Qed.

Lemma session_recovery_quiet_witness :
  exists s', Recover (enterQuarantineLocked demo_session 0) 0
    [GotByte 7 500 0; GotQuiet 2000000000 0 None None] = Some (s', None) /\
    rs_quarantined s' = false.
Proof.
  eexists. split; [vm_compute; reflexivity|].
  edestruct (session_recovery_quiet demo_session 0 0
    [GotByte 7 500 0; GotQuiet 2000000000 0 None None]) as [H _];
    [unfold i64, MaxInt64; vm_compute; split; discriminate|].
  eapply (H _ None). vm_compute. reflexivity.
Defined.
