(* ===== verification/RtuProduction.v ===== *)
(** The RTU production endpoint (rtu_production.go, rtu_production_private.go) and the
    serial stream it owns (rtu_serial.go): one typed read or private-function exchange at
    a time over an injected byte stream, admitted by an upstream decision, with a fence
    after every fault and one quiet recovery.

    The stream, the contexts, the clock and the callbacks are injected code: what they
    answer is an argument.  While an exchange is in flight every other operation is
    refused except [Close], so what other threads do meanwhile is whether they close. *)

From S2P Require Import Prelude Pdu DeviceId DeviceIdTolerant TcpAdu RtuTiming RtuAdu PrivateFunction RtuSession.

(** * The serial stream *)

Record RTUSerialConfig : Type := mkRTUSerialConfig {
  sg_Path : string;
  sg_Baud : Z;
  sg_DataBits : Z;
  sg_Parity : string;
  sg_StopBits : Z
}.

Definition supportedRTUSerialBaud (baud : Z) : bool :=
  bool_decide (baud ∈ [9600; 19200; 38400; 57600; 115200; 230400]).

Definition Validate (config : RTUSerialConfig) : option ProtocolError :=
  if String.eqb (sg_Path config) "" || negb (supportedRTUSerialBaud (sg_Baud config))
     || negb (sg_DataBits config =? 8)
     || (negb (String.eqb (sg_Parity config) RTUParityNone)
         && negb (String.eqb (sg_Parity config) RTUParityEven)
         && negb (String.eqb (sg_Parity config) RTUParityOdd))
     || (negb (sg_StopBits config =? 1) && negb (sg_StopBits config =? 2)) then
    Some (protocolError ErrorInvalidRequest 0 0 "rtu_serial_config" (-1))
  else None.

(** [errRTUSessionState], an error of this package, an error of the stream, a context or
    a callback, [io.ErrShortWrite], [io.ErrClosedPipe] or
    [context.DeadlineExceeded]. *)
Inductive production_error : Type :=
| ProductionState
| ProductionProtocol (err : ProtocolError)
| ProductionInjected (err : Z)
| ProductionShortWrite
| ProductionClosedPipe
| ProductionDeadline.

Record RTUSerialStream : Type := mkRTUSerialStream {
  ss_started : Z;
  ss_closed : bool;
  ss_closeErr : option Z
}.

Definition RTUOffset (stream : RTUSerialStream) (now : Z) : Z :=
  if now - ss_started stream <? 0 then 0 else now - ss_started stream.

(** What the backend answers is [received]; its error, like the context's, is opaque. *)
Definition ReadRTUByte (stream : RTUSerialStream) (contextErr : option Z) (received : Z + Z) (now : Z)
    : Z * Z * option production_error :=
  match contextErr with
  | Some err => (0, RTUOffset stream now, Some (ProductionInjected err))
  | None =>
      if ss_closed stream then (0, RTUOffset stream now, Some ProductionClosedPipe)
      else
        match received with
        | inl value => (value, RTUOffset stream now, None)
        | inr err => (0, RTUOffset stream now, Some (ProductionInjected err))
        end
  end.

Definition WriteRTU (stream : RTUSerialStream) (contextErr : option Z) (written : Z)
    (writeErr : option Z) : Z * option production_error :=
  match contextErr with
  | Some err => (0, Some (ProductionInjected err))
  | None =>
      if ss_closed stream then (0, Some ProductionClosedPipe)
      else (written, ProductionInjected <$> writeErr)
  end.

Definition StreamClose (stream : RTUSerialStream) (closeErr : option Z)
    : RTUSerialStream * option Z :=
  if ss_closed stream then (stream, ss_closeErr stream)
  else
    ({| ss_started := ss_started stream; ss_closed := true; ss_closeErr := closeErr |}, closeErr).

(** * Configuration *)

Record RTUReadAdmissionRequest : Type := mkRTUReadAdmissionRequest {
  aq_Endpoint : string;
  aq_Generation : Z;
  aq_UnitID : Z;
  aq_Function : Z;
  aq_Offset : Z;
  aq_Quantity : Z
}.

Record RTUPrivateFunctionAdmissionRequest : Type := mkRTUPrivateFunctionAdmissionRequest {
  pq_Endpoint : string;
  pq_Generation : Z;
  pq_UnitID : Z;
  pq_Function : Z;
  pq_Payload : list Z
}.

Definition maxRTUProductionPrivateResponses : Z := 8.

Record RTUPrivateFunctionConfig : Type := mkRTUPrivateFunctionConfig {
  pg_Admission : option (RTUPrivateFunctionAdmissionRequest -> bool);
  pg_MaxResponses : Z
}.

Definition validateRTUPrivateFunctionConfig (config : RTUPrivateFunctionConfig) : option ProtocolError :=
  match pg_Admission config with
  | None =>
      if pg_MaxResponses config =? 0 then None
      else Some (protocolError ErrorInvalidRequest 0 0 "rtu_private_function_config" (-1))
  | Some _ =>
      if (pg_MaxResponses config <? 1) || (pg_MaxResponses config >? maxRTUProductionPrivateResponses) then
        Some (protocolError ErrorInvalidRequest 0 0 "rtu_private_function_config" (-1))
      else None
  end.

Record RTUProductionConfig : Type := mkRTUProductionConfig {
  xg_Endpoint : string;
  xg_Serial : RTUSerialConfig;
  xg_Timing : RTUTiming;
  xg_ResponseTimeout : Z;
  xg_Enabled : bool;
  xg_Admission : option (RTUReadAdmissionRequest -> bool);
  xg_PrivateFunction : RTUPrivateFunctionConfig
}.

Definition character_bits_of (serial : RTUSerialConfig) : Z :=
  let bits := wrap8 (1 + sg_DataBits serial + sg_StopBits serial) in
  if String.eqb (sg_Parity serial) RTUParityNone then bits else wrap8 (bits + 1).

Definition production_config_error : ProtocolError :=
  protocolError ErrorInvalidRequest 0 0 "rtu_production_config" (-1).

Definition validateRTUProductionConfig (config : RTUProductionConfig) : option ProtocolError :=
  let timing := xg_Timing config in
  let timeout := xg_ResponseTimeout config in
  let limit := int64 (timeout + rt_interFrame timing) in
  if (limit <? timeout) || negb (xg_Enabled config) || String.eqb (xg_Endpoint config) ""
     || negb (bool_decide (is_Some (xg_Admission config)))
     || bool_decide (is_Some (Validate (xg_Serial config)))
     || negb (sg_Baud (xg_Serial config) =? rt_baud timing)
     || negb (character_bits_of (xg_Serial config) =? rt_bitsPerCharacter timing)
     || (timeout <=? 0) || (timeout >? 30 * 1000000000)
     || (rt_maxResponseLatency timing <=? 0) || (rt_maxResponseLatency timing >? timeout)
     || (rt_maxQuiescence timing <=? rt_maxResponseLatency timing)
     || (rt_maxQuiescence timing >? limit) || (rt_maxQuiescence timing >? 60 * 1000000000)
     || bool_decide (is_Some (validateRTUPrivateFunctionConfig (xg_PrivateFunction config))) then
    Some production_config_error
  else None.

(** * The endpoint *)

(** A wall-clock receipt is absent where the code leaves it zero. *)
Record RTUReadEvidence : Type := mkRTUReadEvidence {
  rv_Endpoint : string;
  rv_Generation : Z;
  rv_RequestID : Z;
  rv_UnitID : Z;
  rv_Function : Z;
  rv_Offset : Z;
  rv_Quantity : Z;
  rv_RequestADU : list Z;
  rv_ResponseADU : list Z;
  rv_SentAt : Z;
  rv_ReceivedAt : Z;
  rv_IntegrityValid : bool;
  rv_TerminalOutcome : string;
  rv_Current : bool;
  rv_Words : list Z;
  rv_ReceiptWall : option Z
}.

#[export] Instance read_evidence_fields : Fields RTUReadEvidence := fun v =>
  mkRTUReadEvidence (rv_Endpoint v) (rv_Generation v) (rv_RequestID v) (rv_UnitID v) (rv_Function v)
    (rv_Offset v) (rv_Quantity v) (rv_RequestADU v) (rv_ResponseADU v) (rv_SentAt v) (rv_ReceivedAt v)
    (rv_IntegrityValid v) (rv_TerminalOutcome v) (rv_Current v) (rv_Words v) (rv_ReceiptWall v).

Record RTUPrivateFunctionEvidence : Type := mkRTUPrivateFunctionEvidence {
  pv_Endpoint : string;
  pv_Generation : Z;
  pv_RequestID : Z;
  pv_UnitID : Z;
  pv_Function : Z;
  pv_RequestADU : list Z;
  pv_ResponseADUs : list (list Z);
  pv_SentAt : Z;
  pv_ReceivedAt : Z;
  pv_IntegrityValid : bool;
  pv_TerminalOutcome : string;
  pv_Current : bool;
  pv_ReceiptWall : option Z
}.

#[export] Instance private_evidence_fields : Fields RTUPrivateFunctionEvidence := fun v =>
  mkRTUPrivateFunctionEvidence (pv_Endpoint v) (pv_Generation v) (pv_RequestID v) (pv_UnitID v)
    (pv_Function v) (pv_RequestADU v) (pv_ResponseADUs v) (pv_SentAt v) (pv_ReceivedAt v)
    (pv_IntegrityValid v) (pv_TerminalOutcome v) (pv_Current v) (pv_ReceiptWall v).

(** [rx_last] and [rx_lastPrivate] are absent until there is one. *)
Record RTUProductionEndpoint : Type := mkRTUProductionEndpoint {
  rx_endpoint : string;
  rx_timing : RTUTiming;
  rx_timeout : Z;
  rx_generation : Z;
  rx_nextID : Z;
  rx_inflight : bool;
  rx_fenced : bool;
  rx_closed : bool;
  rx_recoveryAttempted : bool;
  rx_admission : RTUReadAdmissionRequest -> bool;
  rx_quarantineUntil : Z;
  rx_last : option RTUReadEvidence;
  rx_private : RTUPrivateFunctionConfig;
  rx_lastPrivate : option RTUPrivateFunctionEvidence
}.

#[export] Instance production_fields : Fields RTUProductionEndpoint := fun e =>
  mkRTUProductionEndpoint (rx_endpoint e) (rx_timing e) (rx_timeout e) (rx_generation e) (rx_nextID e)
    (rx_inflight e) (rx_fenced e) (rx_closed e) (rx_recoveryAttempted e) (rx_admission e)
    (rx_quarantineUntil e) (rx_last e) (rx_private e) (rx_lastPrivate e).

Definition newRTUProductionEndpoint (config : RTUProductionConfig) : presult RTUProductionEndpoint :=
  match validateRTUProductionConfig config, xg_Admission config with
  | None, Some admission =>
      Ok {| rx_endpoint := xg_Endpoint config; rx_timing := xg_Timing config;
            rx_timeout := xg_ResponseTimeout config; rx_generation := 1; rx_nextID := 0;
            rx_inflight := false; rx_fenced := false; rx_closed := false;
            rx_recoveryAttempted := false; rx_admission := admission; rx_quarantineUntil := 0;
            rx_last := None; rx_private := xg_PrivateFunction config; rx_lastPrivate := None |}
  | _, _ => Err production_config_error
  end.

(** [Close]; the stream is closed when this returns [true]. *)
Definition ProductionClose (e : RTUProductionEndpoint) : RTUProductionEndpoint * bool :=
  if rx_closed e then (e, false)
  else
    (e <| rx_closed := true |> <| rx_fenced := true |> <| rx_generation := wrap64 (rx_generation e + 1) |>,
     true).

(** What other threads do while an exchange is in flight. *)
Definition closed_meanwhile (closes : bool) (e : RTUProductionEndpoint) : RTUProductionEndpoint :=
  if closes then fst (ProductionClose e) else e.

Definition fenceLocked (e : RTUProductionEndpoint) (now : Z) : RTUProductionEndpoint :=
  let e := e <| rx_fenced := true |> in
  let until := int64 (now + rt_maxResponseLatency (rx_timing e)) in
  if until <? now then e <| rx_closed := true |> else e <| rx_quarantineUntil := until |>.

(** * Receiving a read response *)

(** One call of [ReadRTUByte]: a byte with its offset and the wall clock; an error other
    than a passed deadline; or the deadline of the read, with the stream's clock and the
    error of the exchange's own deadline. *)
Inductive line_event : Type :=
| LineByte (value offset wall : Z)
| LineError (err : Z)
| LineQuiet (offset : Z) (expired : option Z).

Definition malformed (request : ReadRegistersRequest) (field : string) (offset : Z) : ProtocolError :=
  protocolError ErrorMalformedResponse (rr_function request) 0 field offset.

(** [Ok 0] while the header is incomplete. *)
Definition rtuReadResponseLength (request : ReadRegistersRequest) (raw : list Z) : presult Z :=
  let over (length : Z) :=
    if zlen raw >? length then Err (malformed request "rtu_read_response_length" (zlen raw))
    else Ok length in
  if zlen raw <? 2 then Ok 0
  else if raw !!! 1%nat =? Z.lor (wrap8 (rr_function request)) 0x80 then over 5
  else if raw !!! 1%nat =? wrap8 (rr_function request) then
    if zlen raw <? 3 then Ok 0
    else if negb (raw !!! 2%nat =? 2 * rr_quantity request) then Err (malformed request "byte_count" 2)
    else over (5 + raw !!! 2%nat)
  else Err (malformed request "function_code" 1).

Definition read_decoder_timing (timing : RTUTiming) : RTUTiming :=
  {| rt_baud := rt_baud timing; rt_bitsPerCharacter := rt_bitsPerCharacter timing;
     rt_characterTime := rt_characterTime timing; rt_interCharacter := rt_readInterCharacter timing;
     rt_interFrame := rt_interFrame timing; rt_readInterCharacter := rt_readInterCharacter timing;
     rt_maxResponseLatency := rt_maxResponseLatency timing; rt_maxQuiescence := rt_maxQuiescence timing |}.

(** The bytes received, the wall clock of the first and the response. *)
Record received : Type := mkReceived {
  rc_raw : list Z;
  rc_wall : option Z;
  rc_response : result production_error (option ReadRegistersResponse)
}.

Definition first_wall (receiptWall : option Z) (wall : Z) : option Z :=
  match receiptWall with Some _ => receiptWall | None => Some wall end.

Fixpoint production_receive_loop (unit : Z) (request : ReadRegistersRequest) (decoder : RTUFrameDecoder)
    (raw : list Z) (receiptWall : option Z) (expectedLength : Z) (events : list line_event)
    : option received :=
  let fail err := Some {| rc_raw := raw; rc_wall := receiptWall; rc_response := Err err |} in
  match events with
  | [] => None
  | LineByte value offset wall :: events =>
      let raw := raw ++ [value] in
      let receiptWall := first_wall receiptWall wall in
      let fail err := Some {| rc_raw := raw; rc_wall := receiptWall; rc_response := Err err |} in
      match rtuReadResponseLength request raw with
      | Err err => fail (ProductionProtocol err)
      | Ok expectedLength =>
          match FeedByte decoder offset value with
          | (_, Some err) => fail (ProductionProtocol err)
          | (decoder, None) =>
              production_receive_loop unit request decoder raw receiptWall expectedLength events
          end
      end
  | LineError err :: _ => fail (ProductionInjected err)
  | LineQuiet offset expired :: events =>
      match expired with
      | Some err => fail (ProductionInjected err)
      | None =>
          if zlen raw =? 0 then
            production_receive_loop unit request decoder raw receiptWall expectedLength events
          else if (expectedLength =? 0) || negb (zlen raw =? expectedLength) then
            fail (ProductionProtocol (malformed request "rtu_read_response_length" (zlen raw)))
          else
            match EndFrame decoder offset with
            | (_, (_, Some err)) => fail (ProductionProtocol err)
            | (_, (frame, None)) =>
                let raw := ru_raw frame in
                match DecodeRTUReadResponseADU unit request raw with
                | (_, Some err) =>
                    Some {| rc_raw := raw; rc_wall := receiptWall;
                            rc_response := Err (ProductionProtocol err) |}
                | (decoded, None) =>
                    Some {| rc_raw := raw; rc_wall := receiptWall;
                            rc_response := Ok (rra_response decoded) |}
                end
            end
      end
  end.

Definition production_receive (e : RTUProductionEndpoint) (unit : Z) (request : ReadRegistersRequest)
    (events : list line_event) : option received :=
  match NewRTUFrameDecoder (read_decoder_timing (rx_timing e)) with
  | Err err => Some {| rc_raw := []; rc_wall := None; rc_response := Err (ProductionProtocol err) |}
  | Ok decoder => production_receive_loop unit request decoder [] None 0 events
  end.

(** * A read *)

(** The surroundings of an exchange: whether the endpoint is closed while the admission
    decides and while the line is used, the clock at the send, the result of the write,
    what the line answers, and the clock for the receipt and for the fence. *)
Record exchange_env : Type := mkExchangeEnv {
  xe_closesAdmitting : bool;
  xe_sentAt : Z;
  xe_written : Z;
  xe_writeErr : option Z;
  xe_events : list line_event;
  xe_closesSending : bool;
  xe_receivedAt : Z;
  xe_fencedAt : Z
}.

Definition busy (e : RTUProductionEndpoint) : bool := rx_closed e || rx_fenced e || rx_inflight e.

Definition finish (e : RTUProductionEndpoint) (ev : RTUReadEvidence) (response : list Z)
    (receiptWall : option Z) (integrity : bool) (outcome : string) (fence : bool) (receivedAt fencedAt : Z)
    : RTUProductionEndpoint * RTUReadEvidence :=
  let ev := ev <| rv_ResponseADU := response |> in
  let ev := if negb (zlen response =? 0) then ev <| rv_ReceiptWall := receiptWall |> else ev in
  let ev := ev <| rv_IntegrityValid := integrity |> <| rv_TerminalOutcome := outcome |>
              <| rv_ReceivedAt := receivedAt |> in
  let ev := ev <| rv_Current :=
    String.eqb outcome "success" && negb fence && negb (rx_closed e) && negb (rx_fenced e) |> in
  let e := if fence then fenceLocked e fencedAt else e in
  (e <| rx_last := Some ev |>, ev).

Record read_outcome : Type := mkReadOutcome {
  ro_response : option ReadRegistersResponse;
  ro_evidence : option RTUReadEvidence;
  ro_error : option production_error;
  ro_sent : option (list Z)
}.

Definition refused (err : production_error) : read_outcome :=
  {| ro_response := None; ro_evidence := None; ro_error := Some err; ro_sent := None |}.

Definition admission_request (e : RTUProductionEndpoint) (unit : Z) (request : ReadRegistersRequest)
    : RTUReadAdmissionRequest :=
  {| aq_Endpoint := rx_endpoint e; aq_Generation := rx_generation e; aq_UnitID := unit;
     aq_Function := rr_function request; aq_Offset := rr_offset request; aq_Quantity := rr_quantity request |}.

Definition new_evidence (e : RTUProductionEndpoint) (unit : Z) (request : ReadRegistersRequest)
    (frame : list Z) (sentAt : Z) : RTUReadEvidence :=
  {| rv_Endpoint := rx_endpoint e; rv_Generation := rx_generation e; rv_RequestID := rx_nextID e;
     rv_UnitID := unit; rv_Function := rr_function request; rv_Offset := rr_offset request;
     rv_Quantity := rr_quantity request; rv_RequestADU := frame; rv_ResponseADU := []; rv_SentAt := sentAt;
     rv_ReceivedAt := 0; rv_IntegrityValid := false; rv_TerminalOutcome := ""; rv_Current := false;
     rv_Words := []; rv_ReceiptWall := None |}.

Definition is_exception (err : production_error) : bool :=
  match err with
  | ProductionProtocol err => bool_decide (pe_Kind err = ErrorExceptionResponse)
  | _ => false
  end.

Definition release_flight (e : RTUProductionEndpoint) : RTUProductionEndpoint := e <| rx_inflight := false |>.

(** From the write on. *)
Definition read_sent (e : RTUProductionEndpoint) (unit : Z) (request : ReadRegistersRequest)
    (frame : list Z) (ev : RTUReadEvidence) (env : exchange_env)
    : option (RTUProductionEndpoint * read_outcome) :=
  let finish e ev raw wall integrity outcome fence :=
    finish (closed_meanwhile (xe_closesSending env) e) ev raw wall integrity outcome fence
      (xe_receivedAt env) (xe_fencedAt env) in
  let ended ev raw wall integrity outcome fence response err :=
    let '(e, ev) := finish e ev raw wall integrity outcome fence in
    Some (release_flight e,
          {| ro_response := response; ro_evidence := Some ev; ro_error := err; ro_sent := Some frame |}) in
  if bool_decide (is_Some (xe_writeErr env)) || negb (xe_written env =? zlen frame) then
    ended ev [] None false "write_fault" true None
      (Some (match xe_writeErr env with Some err => ProductionInjected err | None => ProductionShortWrite end))
  else
  match production_receive e unit request (xe_events env) with
  | None => None
  | Some r =>
      match rc_response r with
      | Err err =>
          if is_exception err then ended ev (rc_raw r) (rc_wall r) true "exception" false None (Some err)
          else ended ev (rc_raw r) (rc_wall r) false "transport_fault" true None (Some err)
      | Ok response =>
          ended (ev <| rv_Words := default [] (rs_Words <$> response) |>) (rc_raw r) (rc_wall r) true
            "success" false response None
      end
  end.

Definition ProductionRead (e : RTUProductionEndpoint) (unit : Z) (request : ReadRegistersRequest)
    (env : exchange_env) : option (RTUProductionEndpoint * read_outcome) :=
  match EncodeRTUReadADU unit request with
  | Err err => Some (e, refused (ProductionProtocol err))
  | Ok frame =>
  if busy e then Some (e, refused ProductionState)
  else
  let candidate := admission_request e unit request in
  let e := closed_meanwhile (xe_closesAdmitting env) (e <| rx_inflight := true |>) in
  if negb (rx_admission e candidate) then
    Some (release_flight e,
          refused (ProductionProtocol
            (protocolError ErrorInvalidRequest (rr_function request) 0 "rtu_read_admission" (-1))))
  else if rx_closed e || rx_fenced e || negb (rx_generation e =? aq_Generation candidate) then
    Some (release_flight e, refused ProductionState)
  else
  let e := e <| rx_nextID := wrap64 (rx_nextID e + 1) |> in
  read_sent e unit request frame (new_evidence e unit request frame (xe_sentAt env)) env
  end.

Definition LastEvidence (e : RTUProductionEndpoint) : option RTUReadEvidence :=
  (fun ev => ev <| rv_Current :=
     rv_Current ev && (rv_Generation ev =? rx_generation e) && negb (rx_closed e) && negb (rx_fenced e) |>)
  <$> rx_last e.

(** * Recovery *)

(** One quiet wait of the recovery: a byte; an error; or the quiet interval, with the
    error of the recovery's own deadline and the stream's clock. *)
Inductive recovery_event : Type :=
| RecoveryByte
| RecoveryError (err : Z)
| RecoveryQuiet (expired : bool) (offset : Z).

(** The loop of [Recover]; [None] while the script has not ended it. *)
Fixpoint recovery_loop (until : Z) (events : list recovery_event) : option (option production_error) :=
  match events with
  | [] => None
  | RecoveryByte :: events => recovery_loop until events
  | RecoveryError err :: _ => Some (Some (ProductionInjected err))
  | RecoveryQuiet expired offset :: events =>
      if expired then Some (Some ProductionDeadline)
      else if offset <? until then recovery_loop until events
      else Some None
  end.

(** [closes]: the endpoint is closed while the recovery waits. *)
Definition ProductionRecover (e : RTUProductionEndpoint) (closes : bool) (events : list recovery_event)
    : option (RTUProductionEndpoint * option production_error) :=
  if rx_closed e || negb (rx_fenced e) || rx_inflight e || rx_recoveryAttempted e then
    Some (e, Some ProductionState)
  else
  let e := e <| rx_recoveryAttempted := true |> in
  match recovery_loop (rx_quarantineUntil e) events with
  | None => None
  | Some (Some err) => Some (closed_meanwhile closes e, Some err)
  | Some None =>
      let e := closed_meanwhile closes e in
      Some (e <| rx_generation := wrap64 (rx_generation e + 1) |> <| rx_fenced := false |>
              <| rx_recoveryAttempted := false |>, None)
  end.

(** * Private functions *)

Definition productionPrivateFunctionCode (code : Z) : bool :=
  ((code >=? 65) && (code <=? 72)) || ((code >=? 100) && (code <=? 110)).

(** The dispositions a classifier may give, and what else it may do. *)
Inductive classification : Type :=
| ClassifyContinue
| ClassifyTerminal
| ClassifyInvalid (disposition : Z)
| ClassifyError (err : Z).

(** A frame read: the raw bytes, the complete frame or the error, the wall clock of the
    first byte, and the events left. *)
Record private_frame : Type := mkPrivateFrame {
  pm_raw : list Z;
  pm_complete : result production_error (list Z);
  pm_wall : option Z;
  pm_rest : list line_event
}.

Fixpoint private_frame_loop (decoder : RTUFrameDecoder) (raw : list Z) (receiptWall : option Z)
    (events : list line_event) : option private_frame :=
  match events with
  | [] => None
  | LineByte value offset wall :: events =>
      let raw := raw ++ [value] in
      let receiptWall := first_wall receiptWall wall in
      match FeedByte decoder offset value with
      | (_, Some err) =>
          Some {| pm_raw := raw; pm_complete := Err (ProductionProtocol err); pm_wall := receiptWall;
                  pm_rest := events |}
      | (decoder, None) => private_frame_loop decoder raw receiptWall events
      end
  | LineError err :: events =>
      Some {| pm_raw := raw; pm_complete := Err (ProductionInjected err); pm_wall := receiptWall;
              pm_rest := events |}
  | LineQuiet offset (Some err) :: events =>
      Some {| pm_raw := raw; pm_complete := Err (ProductionInjected err); pm_wall := receiptWall;
              pm_rest := events |}
  | LineQuiet offset None :: events =>
      if zlen raw =? 0 then private_frame_loop decoder raw receiptWall events
      else
        match EndFrame decoder offset with
        | (_, (_, Some err)) =>
            Some {| pm_raw := raw; pm_complete := Err (ProductionProtocol err); pm_wall := receiptWall;
                    pm_rest := events |}
        | (_, (adu, None)) =>
            Some {| pm_raw := ru_raw adu; pm_complete := Ok (ru_raw adu); pm_wall := receiptWall;
                    pm_rest := events |}
        end
  end.

Definition readPrivateFrame (e : RTUProductionEndpoint) (events : list line_event) : option private_frame :=
  match NewRTUFrameDecoder (rx_timing e) with
  | Err err =>
      Some {| pm_raw := []; pm_complete := Err (ProductionProtocol err); pm_wall := None; pm_rest := events |}
  | Ok decoder => private_frame_loop decoder [] None events
  end.

Definition finishPrivate (e : RTUProductionEndpoint) (ev : RTUPrivateFunctionEvidence)
    (receiptWall : option Z) (integrity : bool) (outcome : string) (fence : bool) (receivedAt fencedAt : Z)
    : RTUProductionEndpoint * RTUPrivateFunctionEvidence :=
  let ev :=
    if negb (zlen (pv_ResponseADUs ev) =? 0) then ev <| pv_ReceiptWall := receiptWall |> else ev in
  let ev := ev <| pv_IntegrityValid := integrity |> <| pv_TerminalOutcome := outcome |>
              <| pv_ReceivedAt := receivedAt |> in
  let ev := ev <| pv_Current :=
    String.eqb outcome "success" && negb fence && negb (rx_closed e) && negb (rx_fenced e) |> in
  let e := if fence then fenceLocked e fencedAt else e in
  (e <| rx_lastPrivate := Some ev |>, ev).

Record private_outcome : Type := mkPrivateOutcome {
  po_responses : list RTUPrivateFunctionResponseADU;
  po_evidence : option RTUPrivateFunctionEvidence;
  po_error : option production_error;
  po_sent : option (list Z)
}.

Definition private_refused (err : production_error) : private_outcome :=
  {| po_responses := []; po_evidence := None; po_error := Some err; po_sent := None |}.

(** How the collection of frames ends: the outcome recorded, whether it fences, the
    integrity and the error; the responses count on success only. *)
Record private_end : Type := mkPrivateEnd {
  pn_responses : list RTUPrivateFunctionResponseADU;
  pn_frames : list (list Z);
  pn_wall : option Z;
  pn_integrity : bool;
  pn_outcome : string;
  pn_fence : bool;
  pn_error : option production_error
}.

(** The loop of [ExchangePrivateFunction], [turns] of them; [classify] is the classifier,
    if any, which may depend on the frames before, and [cancelled] the error of the
    caller's context after the terminal frame. *)
Fixpoint private_loop (turns : nat) (e : RTUProductionEndpoint) (unit : Z) (request : PrivateFunctionRequest)
    (maxResponses : Z)
    (classify : option (list RTUPrivateFunctionResponseADU -> RTUPrivateFunctionResponseADU -> classification))
    (cancelled : option Z) (responses : list RTUPrivateFunctionResponseADU) (frames : list (list Z))
    (receiptWall : option Z) (events : list line_event) : option private_end :=
  match turns with
  | O => None
  | S turns =>
  match readPrivateFrame e events with
  | None => None
  | Some f =>
  let receiptWall := match receiptWall with Some _ => receiptWall | None => pm_wall f end in
  let frames := if negb (zlen (pm_raw f) =? 0) then frames ++ [pm_raw f] else frames in
  let ends responses integrity outcome fence err :=
    Some {| pn_responses := responses; pn_frames := frames; pn_wall := receiptWall;
            pn_integrity := integrity; pn_outcome := outcome; pn_fence := fence; pn_error := err |} in
  match pm_complete f with
  | Err err =>
      ends [] ((zlen (pm_raw f) =? 0) && negb (zlen frames =? 0)) "transport_fault" true (Some err)
  | Ok complete =>
  match DecodeRTUPrivateFunctionResponseADU unit request complete with
  | (_, Some err) =>
      if bool_decide (pe_Kind err = ErrorExceptionResponse) then
        ends [] true "exception" false (Some (ProductionProtocol err))
      else ends [] false "transport_fault" true (Some (ProductionProtocol err))
  | (response, None) =>
  let disposition :=
    match classify with Some classify => classify responses response | None => ClassifyTerminal end in
  let responses := responses ++ [response] in
  match disposition with
  | ClassifyError err => ends [] true "classifier_fault" true (Some (ProductionInjected err))
  | ClassifyInvalid value =>
      ends [] true "classifier_fault" true
        (Some (ProductionProtocol
           (protocolError ErrorInvalidRequest (pf_function request) 0 "rtu_private_function_disposition" value)))
  | ClassifyTerminal =>
      match cancelled with
      | Some err => ends [] true "transport_fault" true (Some (ProductionInjected err))
      | None => ends responses true "success" false None
      end
  | ClassifyContinue =>
      if zlen responses >=? maxResponses then
        ends [] true "response_bound" true
          (Some (ProductionProtocol
             (protocolError ErrorMalformedResponse (pf_function request) 0
                "rtu_private_function_response_count" (zlen responses))))
      else
        private_loop turns e unit request maxResponses classify cancelled responses frames receiptWall
          (pm_rest f)
  end
  end
  end
  end
  end.

Definition private_admission_error (request : PrivateFunctionRequest) : ProtocolError :=
  protocolError ErrorInvalidRequest (pf_function request) 0 "rtu_private_function_admission" (-1).

Definition private_candidate (e : RTUProductionEndpoint) (unit : Z) (request : PrivateFunctionRequest)
    : RTUPrivateFunctionAdmissionRequest :=
  {| pq_Endpoint := rx_endpoint e; pq_Generation := rx_generation e; pq_UnitID := unit;
     pq_Function := pf_function request; pq_Payload := pf_payload request |}.

Definition private_sent (e : RTUProductionEndpoint) (unit : Z) (request : PrivateFunctionRequest)
    (maxResponses : Z)
    (classify : option (list RTUPrivateFunctionResponseADU -> RTUPrivateFunctionResponseADU -> classification))
    (cancelled : option Z) (frame : list Z) (env : exchange_env)
    : option (RTUProductionEndpoint * private_outcome) :=
  let ev :=
    {| pv_Endpoint := rx_endpoint e; pv_Generation := rx_generation e; pv_RequestID := rx_nextID e;
       pv_UnitID := unit; pv_Function := pf_function request; pv_RequestADU := frame; pv_ResponseADUs := [];
       pv_SentAt := xe_sentAt env; pv_ReceivedAt := 0; pv_IntegrityValid := false;
       pv_TerminalOutcome := ""; pv_Current := false; pv_ReceiptWall := None |} in
  let ended n :=
    let '(e, ev) :=
      finishPrivate (closed_meanwhile (xe_closesSending env) e) (ev <| pv_ResponseADUs := pn_frames n |>)
        (pn_wall n) (pn_integrity n) (pn_outcome n) (pn_fence n) (xe_receivedAt env) (xe_fencedAt env) in
    Some (release_flight e,
          {| po_responses := pn_responses n; po_evidence := Some ev; po_error := pn_error n;
             po_sent := Some frame |}) in
  if bool_decide (is_Some (xe_writeErr env)) || negb (xe_written env =? zlen frame) then
    ended {| pn_responses := []; pn_frames := []; pn_wall := None; pn_integrity := false;
             pn_outcome := "write_fault"; pn_fence := true;
             pn_error :=
               Some (match xe_writeErr env with
                     | Some err => ProductionInjected err
                     | None => ProductionShortWrite
                     end) |}
  else
  match private_loop (S (Z.to_nat maxResponses)) e unit request maxResponses classify cancelled [] [] None
          (xe_events env) with
  | None => None
  | Some n => ended n
  end.

Definition ExchangePrivateFunction (e : RTUProductionEndpoint) (unit : Z) (request : PrivateFunctionRequest)
    (policy : PrivateFunctionResponsePolicy)
    (classify : option (list RTUPrivateFunctionResponseADU -> RTUPrivateFunctionResponseADU -> classification))
    (cancelled : option Z) (env : exchange_env) : option (RTUProductionEndpoint * private_outcome) :=
  if negb (productionPrivateFunctionCode (pf_function request)) || negb (pp_maxAttempts policy =? 1) then
    Some (e, private_refused (ProductionProtocol (private_admission_error request)))
  else
  match EncodeRTUPrivateFunctionADU unit request with
  | Err err => Some (e, private_refused (ProductionProtocol err))
  | Ok frame =>
  if busy e then Some (e, private_refused ProductionState)
  else
  match pg_Admission (rx_private e) with
  | None => Some (e, private_refused (ProductionProtocol (private_admission_error request)))
  | Some admission =>
  let maxResponses := pg_MaxResponses (rx_private e) in
  let candidate := private_candidate e unit request in
  let e := closed_meanwhile (xe_closesAdmitting env) (e <| rx_inflight := true |>) in
  if negb (admission candidate) then
    Some (release_flight e, private_refused (ProductionProtocol (private_admission_error request)))
  else if rx_closed e || rx_fenced e || negb (rx_generation e =? pq_Generation candidate) then
    Some (release_flight e, private_refused ProductionState)
  else
  let e := e <| rx_nextID := wrap64 (rx_nextID e + 1) |> in
  private_sent e unit request maxResponses classify cancelled frame env
  end
  end.

Definition LastPrivateFunctionEvidence (e : RTUProductionEndpoint) : option RTUPrivateFunctionEvidence :=
  (fun ev => ev <| pv_Current :=
     pv_Current ev && (pv_Generation ev =? rx_generation e) && negb (rx_closed e) && negb (rx_fenced e) |>)
  <$> rx_lastPrivate e.
