(* ===== verification/RtuProductionFacts.v ===== *)
(** The RTU production endpoint refines an abstract line: what it sends, when it fences
    and how it recovers; a successful read is exactly what the line answered; a response
    that is paced and in time is delivered. *)

From S2P Require Import Prelude Pdu DeviceId DeviceIdTolerant TcpAdu RtuTiming RtuAdu PrivateFunction RtuSession RtuProduction.

(** * The abstract line *)

(** A line sends only while it is open.  A fault fences it until a time, a recovery that
    saw the line quiet past that time opens the next generation, a recovery that fails
    leaves it dead, and a close is final. *)
Inductive line_status : Type :=
| LineOpen
| LineFenced (until : Z)
| LineDead
| LineClosed.

Record line : Type := mkLine { ln_generation : Z; ln_status : line_status }.

Inductive line_label : Type :=
| Sent (generation : Z) (frame : list Z)
| Faulted (until : Z)
| FaultedForGood
| Recovered (quietAt : Z)
| RecoveryFailed
| ClosedLine.

Definition line_step (l : line) (label : line_label) : option line :=
  match label, ln_status l with
  | Sent generation _, LineOpen => if generation =? ln_generation l then Some l else None
  | Faulted until, LineOpen => Some {| ln_generation := ln_generation l; ln_status := LineFenced until |}
  | Faulted _, LineClosed | FaultedForGood, LineClosed | RecoveryFailed, LineClosed => Some l
  | FaultedForGood, LineOpen => Some {| ln_generation := ln_generation l; ln_status := LineClosed |}
  | Recovered quietAt, LineFenced until =>
      if until <=? quietAt then
        Some {| ln_generation := wrap64 (ln_generation l + 1); ln_status := LineOpen |}
      else None
  | Recovered _, LineClosed =>
      Some {| ln_generation := wrap64 (ln_generation l + 1); ln_status := LineClosed |}
  | RecoveryFailed, LineFenced _ => Some {| ln_generation := ln_generation l; ln_status := LineDead |}
  | ClosedLine, LineClosed => None
  | ClosedLine, _ => Some {| ln_generation := wrap64 (ln_generation l + 1); ln_status := LineClosed |}
  | _, _ => None
  end.

Fixpoint line_run (l : line) (labels : list line_label) : option line :=
  match labels with
  | [] => Some l
  | label :: labels => match line_step l label with Some l => line_run l labels | None => None end
  end.

Lemma line_run_app l labels labels' l1 :
  line_run l labels = Some l1 -> line_run l (labels ++ labels') = line_run l1 labels'.
Proof.
  revert l. induction labels as [|a labels IH]; intros l; cbn; [by intros [= ->]|].
  destruct (line_step l a); [apply IH|done].
Qed.

(** * What the line carried *)

(** The bytes that were heard between two silences, in order, until the stream failed or
    the deadline of the exchange passed. *)
Fixpoint bursts (raw : list Z) (events : list line_event) : list (list Z) :=
  match events with
  | LineByte value _ _ :: events => bursts (raw ++ [value]) events
  | LineQuiet _ None :: events => if zlen raw =? 0 then bursts [] events else raw :: bursts [] events
  | _ => []
  end.

(** A frame with which [unit] refuses [function]: its address, the function with the high
    bit set, a code, and the checksum of these, low byte first. *)
Definition exception_frame (unit function : Z) (frame : list Z) : bool :=
  match frame with
  | [address; refusal; code; low; high] =>
      (address =? unit) && (refusal =? Z.lor function 0x80)
      && (Z.lor low (wrap16 (Z.shiftl high 8)) =? rtuCRC16 [address; refusal; code])
  | _ => false
  end.

(** What a caller may take for a fault of the line: an error, unless it reports an
    exception and the line carried an exception of that unit for that function. *)
Definition exchange_fault (unit function : Z) (events : list line_event) (error : option production_error) : bool :=
  match error with
  | None => false
  | Some (ProductionProtocol err) =>
      negb (bool_decide (pe_Kind err = ErrorExceptionResponse)
            && existsb (exception_frame unit function) (bursts [] events))
  | Some _ => true
  end.

(** A decoder that has buffered the bytes read since it was new. *)
Definition assembling (d : RTUFrameDecoder) (raw : list Z) : Prop :=
  rd_poisoned d = false /\ rd_buffer d = raw /\ (rd_haveByte d = true <-> raw <> []) /\ 0 <= rd_lastByte d.

Lemma feed_assembles d raw offset value d' :
  assembling d raw ->
  FeedByte d offset value = (d', None) <->
  d' = set_rd d (raw ++ [value]) offset true false /\ 0 <= offset /\ zlen raw <> MaxRTUADUSize /\
  (raw <> [] -> rd_lastByte d <= offset <= rd_lastByte d + rt_interCharacter (rd_timing d)).
Proof.
  intros (Hp & Hb & Hh & Hl). unfold FeedByte, feed_unpoisoned. rewrite Hp, Hb.
  destruct (offset <? 0) eqn:E1; [split; [done|]; bool_hyps; lia|]. bool_hyps.
  destruct (rd_haveByte d) eqn:Eh; cbn [andb].
  - assert (raw <> []) by tauto.
    destruct (offset <? rd_lastByte d) eqn:E2; [split; [done|]; bool_hyps; intros (? & ? & ? & H0); specialize (H0 ltac:(done)); lia|].
    destruct (offset - _ >? _) eqn:E3; [split; [done|]; bool_hyps; intros (? & ? & ? & H0); specialize (H0 ltac:(done)); lia|].
    destruct (zlen raw =? _) eqn:E4; bool_hyps; [split; [done|]; tauto|].
    split; [intros [= <-]; conj; try done; lia|by intros (-> & _)].
  - assert (raw = []) as -> by (destruct raw; [done|]; destruct Hh as [_ Hh]; by discriminate Hh).
    cbn. split; [intros [= <-]; conj; try done; lia|by intros (-> & _)].
Qed.

Lemma assembling_snoc d raw offset value :
  assembling d raw -> 0 <= offset -> assembling (set_rd d (raw ++ [value]) offset true false) (raw ++ [value]).
Proof. intros (_ & _ & _ & _) Ho. unfold assembling. cbn. conj; try done. split; [|done]. by destruct raw. Qed.

Lemma end_frame_assembled d raw finish d' adu :
  assembling d raw -> raw <> [] ->
  EndFrame d finish = (d', (adu, None)) ->
  rd_lastByte d <= finish /\ rd_lastByte d + rt_interFrame (rd_timing d) <= finish /\
  decodeRTUADU raw = (adu, None) /\ ru_raw adu = raw.
Proof.
  intros (Hp & Hb & Hh & Hl) Hne. unfold EndFrame. rewrite Hp, Hb.
  case_test; [done|]. intros [= _ E]. bool_hyps. conj; try lia; [done|].
  by rewrite <- (decode_rtu_raw raw), E.
Qed.

Lemma bursts_done raw offset events : raw <> [] -> bursts raw (LineQuiet offset None :: events) = raw :: bursts [] events.
Proof. intros Hne. cbn. case_test; [|done]. bool_hyps. by destruct raw. Qed.

Lemma new_decoder_assembling timing d : NewRTUFrameDecoder timing = Ok d -> assembling d [].
Proof. unfold NewRTUFrameDecoder. case_test; [done|]. intros [= <-]. unfold assembling. cbn. by conj. Qed.

(** ** Who reports an exception *)

Definition exceptional (err : ProtocolError) : Prop := pe_Kind err = ErrorExceptionResponse.

Lemma decode_not_exceptional frame adu err : decodeRTUADU frame = (adu, Some err) -> ~ exceptional err.
Proof. unfold decodeRTUADU. cbv zeta. repeat case_test; by intros [= _ <-]. Qed.

Lemma feed_not_exceptional d offset value d' err : FeedByte d offset value = (d', Some err) -> ~ exceptional err.
Proof. unfold FeedByte, feed_unpoisoned. repeat case_test; by intros [= _ <-]. Qed.

Lemma end_not_exceptional d offset d' adu err : EndFrame d offset = (d', (adu, Some err)) -> ~ exceptional err.
Proof. unfold EndFrame. case_test; [by intros [= _ _ <-]|]. intros [= _ E]. by eapply decode_not_exceptional. Qed.

Lemma length_not_exceptional request raw err : rtuReadResponseLength request raw = Err err -> ~ exceptional err.
Proof. unfold rtuReadResponseLength. cbv zeta. repeat case_test; by intros [= <-]. Qed.

Lemma decoder_not_exceptional timing err : NewRTUFrameDecoder timing = Err err -> ~ exceptional err.
Proof. unfold NewRTUFrameDecoder. case_test; by intros [= <-]. Qed.

Lemma decoded_exception unit function frame adu code :
  decodeRTUADU frame = (adu, None) -> ru_unitID adu = unit -> ru_pdu adu = [Z.lor function 0x80; code] ->
  exception_frame unit function frame = true.
Proof.
  unfold decodeRTUADU. cbv zeta. repeat (case_test; [done|]). intros [= <-]. cbn [ru_unitID ru_pdu]. intros Hu Hp.
  bool_hyps. unfold zlen, minRTUADUSize in *.
  destruct frame as [|a [|b [|c [|lo [|hi [|x frame]]]]]]; cbn -[rtuCRC16 wrap16] in *; try lia; try done.
  injection Hp as -> ->. subst a. rewrite !Z.eqb_refl. cbn -[rtuCRC16 wrap16]. lia.
Qed.

Lemma read_exception unit request frame decoded err :
  DecodeRTUReadResponseADU unit request frame = (decoded, Some err) -> exceptional err ->
  exception_frame unit (rr_function request) frame = true.
Proof.
  unfold DecodeRTUReadResponseADU. case_test; [by intros [= _ <-]|].
  destruct (decodeRTUADU frame) as [adu [err'|]] eqn:E.
  { intros [= _ <-] He. by apply decode_not_exceptional in E. }
  case_test; [by intros [= _ <-]|]. bool_hyps. unfold DecodeReadRegistersResponse.
  destruct (validateReadRegistersRequest request) as [invalid|] eqn:Ev.
  { intros [= _ <-] He. exfalso. revert Ev He. unfold validateReadRegistersRequest, exceptional. repeat case_test; by intros [= <-]. }
  cbv zeta. case_test; [by intros [= _ <-]|]. case_test; [case_test; [by intros [= _ <-]|]|repeat (case_test; [by intros [= _ <-]|]); done].
  bool_hyps. intros _ _. destruct (ru_pdu adu) as [|received [|code [|x pdu]]] eqn:Ep; unfold zlen in *; cbn in *; try lia; try done.
  subst received. by eapply decoded_exception.
Qed.

Lemma private_exception unit request frame decoded err :
  DecodeRTUPrivateFunctionResponseADU unit request frame = (decoded, Some err) -> exceptional err ->
  exception_frame unit (pf_function request) frame = true.
Proof.
  unfold DecodeRTUPrivateFunctionResponseADU. case_test; [by intros [= _ <-]|].
  destruct (NewPrivateFunctionRequest _ _) as [valid|invalid] eqn:Ev.
  2: { intros [= _ <-] He. exfalso. revert Ev He. unfold NewPrivateFunctionRequest, NewPrivateFunctionCode, exceptional.
       repeat case_test; cbn; by intros [= <-]. }
  destruct (decodeRTUADU frame) as [adu [err'|]] eqn:E.
  { intros [= _ <-] He. by apply decode_not_exceptional in E. }
  case_test; [by intros [= _ <-]|]. bool_hyps. unfold private_payload.
  destruct (ru_pdu adu) as [|received rest] eqn:Ep; [by intros [= _ <-]|]. case_test; [|case_test; by intros [= _ <-]].
  bool_hyps. destruct rest as [|code [|x rest]]; [by intros [= _ <-]| |by intros [= _ <-]]. intros _ _. subst received.
  by eapply decoded_exception.
Qed.

(** ** Exceptions of an exchange *)

Section exceptions.
Context (unit : Z) (request : ReadRegistersRequest).

Lemma receive_exception events d raw wall expected r err :
  assembling d raw -> production_receive_loop unit request d raw wall expected events = Some r ->
  rc_response r = Err (ProductionProtocol err) -> exceptional err ->
  existsb (exception_frame unit (rr_function request)) (bursts raw events) = true.
Proof.
  revert d raw wall expected. induction events as [|[value offset now|error|offset [error|]] events IH];
    intros d raw wall expected Ha; cbn [production_receive_loop]; try done; try (by intros [= <-]).
  - destruct (rtuReadResponseLength _ _) as [n|e1] eqn:El.
    2: { intros [= <-]. cbn. intros [= <-] He. by apply length_not_exceptional in El. }
    destruct (FeedByte d offset value) as [d1 [e1|]] eqn:E.
    { intros [= <-]. cbn. intros [= <-] He. by apply feed_not_exceptional in E. }
    apply (feed_assembles d raw) in E as (-> & Ho & _); [|done]. cbn [bursts]. apply IH. by apply assembling_snoc.
  - destruct (zlen raw =? 0) eqn:Ez; bool_hyps.
    { assert (raw = []) as -> by (destruct raw; [done|rewrite zlen_cons in Ez; pose proof (zlen_nonneg raw); lia]).
      cbn. by apply IH. }
    assert (Hne : raw <> []) by (by intros ->).
    case_test; [intros [= <-]; cbn; by intros [= <-]|]. destruct (EndFrame d offset) as [d' [adu [e1|]]] eqn:E.
    { intros [= <-]. cbn. intros [= <-] He. by apply end_not_exceptional in E. }
    apply (end_frame_assembled d raw) in E as (_ & _ & _ & ->); [|done..].
    destruct (DecodeRTUReadResponseADU unit request raw) as [decoded [e1|]] eqn:Ed; intros [= <-]; cbn [rc_response]; [|done].
    intros [= <-] He. rewrite bursts_done by done. cbn [existsb]. by rewrite (read_exception _ _ _ _ _ Ed He).
Qed.

End exceptions.

(** A complete private frame is a burst of the line, and the rest of the line follows it. *)
Lemma frame_heard events d raw wall f :
  assembling d raw -> private_frame_loop d raw wall events = Some f ->
  match pm_complete f with
  | Ok complete => complete ∈ bursts raw events /\ bursts [] (pm_rest f) ⊆ bursts raw events
  | Err (ProductionProtocol err) => ~ exceptional err
  | Err _ => True
  end.
Proof.
  revert d raw wall. induction events as [|[value offset now|error|offset [error|]] events IH];
    intros d raw wall Ha; cbn [private_frame_loop]; try done; try (by intros [= <-]).
  - destruct (FeedByte d offset value) as [d1 [e1|]] eqn:E.
    { intros [= <-]. cbn. by eapply feed_not_exceptional. }
    apply (feed_assembles d raw) in E as (-> & Ho & _); [|done]. cbn [bursts]. apply IH. by apply assembling_snoc.
  - destruct (zlen raw =? 0) eqn:Ez; bool_hyps.
    { assert (raw = []) as -> by (destruct raw; [done|rewrite zlen_cons in Ez; pose proof (zlen_nonneg raw); lia]).
      cbn. by apply IH. }
    assert (Hne : raw <> []) by (by intros ->). destruct (EndFrame d offset) as [d' [adu [e1|]]] eqn:E.
    { intros [= <-]. cbn. by eapply end_not_exceptional. }
    apply (end_frame_assembled d raw) in E as (_ & _ & _ & Hraw); [|done..]. intros [= <-]. cbn [pm_complete pm_rest].
    rewrite bursts_done by done. rewrite Hraw. split; [by left|]. intros x Hx. by right.
Qed.

(** * Executions of the endpoint *)

Inductive production_op : Type :=
| OpRead (unit : Z) (request : ReadRegistersRequest) (env : exchange_env)
| OpPrivate (unit : Z) (request : PrivateFunctionRequest) (policy : PrivateFunctionResponsePolicy)
    (classify : option (list RTUPrivateFunctionResponseADU -> RTUPrivateFunctionResponseADU -> classification))
    (cancelled : option Z) (env : exchange_env)
| OpRecover (closes : bool) (events : list recovery_event)
| OpCloseEndpoint.

(** What the world sees of an exchange: its frame if it was sent, a close by another
    thread, and, by what the line carried and what the caller was told, a fault. *)
Definition fence_label (timing : RTUTiming) (now : Z) : line_label :=
  let until := int64 (now + rt_maxResponseLatency timing) in
  if until <? now then FaultedForGood else Faulted until.

Definition exchange_labels (e : RTUProductionEndpoint) (env : exchange_env) (reached : bool)
    (sent : option (Z * list Z * bool)) : list line_label :=
  match sent with
  | Some (generation, frame, fault) =>
      Sent generation frame :: (if xe_closesSending env then [ClosedLine] else [])
      ++ (if fault then [fence_label (rx_timing e) (xe_fencedAt env)] else [])
  | None => if reached && xe_closesAdmitting env then [ClosedLine] else []
  end.

(** The clock at the quiet interval that ended a recovery. *)
Fixpoint quiet_at (until : Z) (events : list recovery_event) : Z :=
  match events with
  | RecoveryQuiet false offset :: events => if offset <? until then quiet_at until events else offset
  | _ :: events => quiet_at until events
  | [] => 0
  end.

Definition read_reached (e : RTUProductionEndpoint) (unit : Z) (request : ReadRegistersRequest) : bool :=
  match EncodeRTUReadADU unit request with Ok _ => negb (busy e) | Err _ => false end.

Definition private_reached (e : RTUProductionEndpoint) (unit : Z) (request : PrivateFunctionRequest)
    (policy : PrivateFunctionResponsePolicy) : bool :=
  productionPrivateFunctionCode (pf_function request) && (pp_maxAttempts policy =? 1)
  && match EncodeRTUPrivateFunctionADU unit request with Ok _ => negb (busy e) | Err _ => false end
  && bool_decide (is_Some (pg_Admission (rx_private e))).

(** One operation: the endpoint after it and the labels; [None] while it waits. *)
Definition production_step (e : RTUProductionEndpoint) (op : production_op)
    : option (RTUProductionEndpoint * list line_label) :=
  match op with
  | OpRead unit request env =>
      match ProductionRead e unit request env with
      | None => None
      | Some (e', out) =>
          Some (e', exchange_labels e env (read_reached e unit request)
                      (frame ← ro_sent out; ev ← ro_evidence out;
                       Some (rv_Generation ev, frame,
                             exchange_fault unit (rr_function request) (xe_events env) (ro_error out))))
      end
  | OpPrivate unit request policy classify cancelled env =>
      match ExchangePrivateFunction e unit request policy classify cancelled env with
      | None => None
      | Some (e', out) =>
          Some (e', exchange_labels e env (private_reached e unit request policy)
                      (frame ← po_sent out; ev ← po_evidence out;
                       Some (pv_Generation ev, frame,
                             exchange_fault unit (pf_function request) (xe_events env) (po_error out))))
      end
  | OpRecover closes events =>
      match ProductionRecover e closes events with
      | None => None
      | Some (e', Some ProductionState) => Some (e', [])
      | Some (e', Some _) => Some (e', RecoveryFailed :: if closes then [ClosedLine] else [])
      | Some (e', None) =>
          Some (e', (if closes then [ClosedLine] else []) ++ [Recovered (quiet_at (rx_quarantineUntil e) events)])
      end
  | OpCloseEndpoint =>
      Some (fst (ProductionClose e), if snd (ProductionClose e) then [ClosedLine] else [])
  end.

Fixpoint production_run (e : RTUProductionEndpoint) (ops : list production_op)
    : option (RTUProductionEndpoint * list line_label) :=
  match ops with
  | [] => Some (e, [])
  | op :: ops =>
      match production_step e op with
      | None => None
      | Some (e, labels) =>
          match production_run e ops with
          | None => None
          | Some (e, labels') => Some (e, labels ++ labels')
          end
      end
  end.

(** The abstract line of an endpoint. *)
Definition line_of (e : RTUProductionEndpoint) : line :=
  {| ln_generation := rx_generation e;
     ln_status :=
       if rx_closed e then LineClosed
       else if negb (rx_fenced e) then LineOpen
       else if rx_recoveryAttempted e then LineDead
       else LineFenced (rx_quarantineUntil e) |}.

(** Between operations nothing is in flight, and an attempt is pending only behind a fence. *)
Definition at_rest (e : RTUProductionEndpoint) : Prop :=
  rx_inflight e = false /\
  (rx_fenced e = false -> rx_closed e = false -> rx_recoveryAttempted e = false).

(** ** Refinement of an exchange *)

(** The end of an exchange: the endpoint that sent, closed meanwhile or not, and fenced
    when the outcome is a fault. *)
Definition concluded (e : RTUProductionEndpoint) (env : exchange_env) (fence : bool) : RTUProductionEndpoint :=
  let e := closed_meanwhile (xe_closesSending env) e in
  if fence then fenceLocked e (xe_fencedAt env) else e.

Lemma closed_meanwhile_line (closes : bool) e :
  rx_closed e = false ->
  line_run (line_of e) (if closes then [ClosedLine] else []) = Some (line_of (closed_meanwhile closes e)).
Proof.
  intros Hc. unfold closed_meanwhile, ProductionClose. destruct closes; [|done]. rewrite Hc. cbn.
  unfold line_step, line_of. cbn. rewrite Hc. by repeat case_match.
Qed.

Lemma fence_line e now :
  (rx_closed e = false -> rx_fenced e = false /\ rx_recoveryAttempted e = false) ->
  line_step (line_of e) (fence_label (rx_timing e) now) = Some (line_of (fenceLocked e now)).
Proof.
  intros H. unfold fence_label, fenceLocked, line_of, line_step. cbn.
  destruct (rx_closed e) eqn:Hc; cbn.
  - case_test; cbn; by rewrite ?Hc.
  - destruct H as [Hf Ha]; [done|]. rewrite Hf. cbn. case_test; cbn; [done|]. by rewrite Hc, Ha.
Qed.

Lemma concluded_line e env fence :
  rx_closed e = false -> rx_fenced e = false -> rx_recoveryAttempted e = false ->
  line_run (line_of e)
    ((if xe_closesSending env then [ClosedLine] else [])
     ++ (if (fence : bool) then [fence_label (rx_timing e) (xe_fencedAt env)] else []))
  = Some (line_of (concluded e env fence)).
Proof.
  intros Hc Hf Ha. erewrite line_run_app by (by apply closed_meanwhile_line).
  unfold concluded. destruct fence; [|done]. set (e1 := closed_meanwhile _ e).
  assert (Ht : rx_timing e1 = rx_timing e).
  { subst e1. unfold closed_meanwhile, ProductionClose. rewrite Hc. by case_test. }
  cbn [line_run]. rewrite <- Ht, fence_line; [done|].
  subst e1. unfold closed_meanwhile, ProductionClose. rewrite Hc. case_test; cbn; [done|]. by rewrite Hf, Ha.
Qed.

Lemma concluded_rest e env fence :
  rx_closed e = false -> rx_fenced e = false -> rx_recoveryAttempted e = false ->
  at_rest (release_flight (concluded e env fence)).
Proof.
  intros Hc Hf Ha. unfold at_rest, concluded, closed_meanwhile, fenceLocked, ProductionClose.
  rewrite Hc. destruct (xe_closesSending env), fence; cbn; repeat case_test; cbn; done.
Qed.

Definition reserved (e : RTUProductionEndpoint) : RTUProductionEndpoint := e <| rx_inflight := true |>.

(** The endpoint as an exchange sends: in flight, with its request counted. *)
Definition sending (e : RTUProductionEndpoint) : RTUProductionEndpoint :=
  e <| rx_inflight := true |> <| rx_nextID := wrap64 (rx_nextID e + 1) |>.

Lemma open_line e :
  at_rest e -> busy e = false ->
  rx_closed e = false /\ rx_fenced e = false /\ rx_recoveryAttempted e = false /\ rx_inflight e = false.
Proof. unfold busy, at_rest. intros [_ H] Hb. bool_hyps. conj; try done. by apply H. Qed.

(** What the two exchanges have in common: either nothing was sent, and at most a close
    happened, or the frame went out in the open generation and the exchange concluded. *)
Lemma exchange_refines e env frame (fence : bool) e' :
  at_rest e -> busy e = false -> line_of e' = line_of (concluded (sending e) env fence) ->
  line_run (line_of e)
    (exchange_labels e env true (Some (rx_generation e, frame, fence))) = Some (line_of e').
Proof.
  intros Hr Hb ->. destruct (open_line e Hr Hb) as (Hc & Hf & Ha & _).
  unfold exchange_labels. cbn [line_run]. unfold line_step at 1. unfold line_of at 1. cbn [ln_status].
  rewrite Hc, Hf. cbn [negb ln_generation]. rewrite Z.eqb_refl.
  exact (concluded_line (sending e) env fence Hc Hf Ha).
Qed.

Lemma finish_state e ev raw wall integrity outcome fence at1 at2 :
  fst (finish e ev raw wall integrity outcome fence at1 at2)
  = (if fence then fenceLocked e at2 else e)
      <| rx_last := Some (snd (finish e ev raw wall integrity outcome fence at1 at2)) |>.
Proof. done. Qed.

Lemma finish_evidence e ev raw wall integrity outcome fence at1 at2 :
  rv_Generation (snd (finish e ev raw wall integrity outcome fence at1 at2)) = rv_Generation ev.
Proof. unfold finish. cbn. case_test; done. Qed.

(** The endpoint fences exactly the faults of the line. *)
Lemma receive_fault e unit request events r err :
  production_receive e unit request events = Some r -> rc_response r = Err err ->
  exchange_fault unit (rr_function request) events (Some err) = negb (is_exception err).
Proof.
  unfold production_receive. intros Hr He. destruct err as [|err| | | |]; try done. cbn. f_equal.
  destruct (bool_decide (pe_Kind err = ErrorExceptionResponse)) eqn:Ek; [|done]. bool_hyps. cbn.
  destruct (NewRTUFrameDecoder _) as [d|e1] eqn:En.
  - eapply receive_exception; [by eapply new_decoder_assembling|exact Hr|exact He|exact Ek].
  - injection Hr as <-. cbn in He. injection He as ->. by apply decoder_not_exceptional in En.
Qed.

Lemma read_sent_concludes e unit request frame ev env e' out :
  read_sent e unit request frame ev env = Some (e', out) ->
  exists ev',
    e' = release_flight ((concluded e env (exchange_fault unit (rr_function request) (xe_events env) (ro_error out)))
           <| rx_last := Some ev' |>) /\
    ro_sent out = Some frame /\ ro_evidence out = Some ev' /\ rv_Generation ev' = rv_Generation ev.
Proof.
  unfold read_sent. cbv zeta.
  assert (Hend : forall ev0 raw wall integrity outcome fence response err,
    rv_Generation ev0 = rv_Generation ev -> fence = exchange_fault unit (rr_function request) (xe_events env) err ->
    (let '(e, ev) := finish (closed_meanwhile (xe_closesSending env) e) ev0 raw wall integrity outcome fence
                       (xe_receivedAt env) (xe_fencedAt env) in
     Some (release_flight e,
       {| ro_response := response; ro_evidence := Some ev; ro_error := err; ro_sent := Some frame |}))
    = Some (e', out) ->
    exists ev',
      e' = release_flight ((concluded e env (exchange_fault unit (rr_function request) (xe_events env) (ro_error out)))
             <| rx_last := Some ev' |>) /\
      ro_sent out = Some frame /\ ro_evidence out = Some ev' /\ rv_Generation ev' = rv_Generation ev).
  { intros ev0 raw wall integrity outcome fence response err Hg -> E. set (fence := exchange_fault _ _ _ _) in E.
    pose proof (finish_evidence (closed_meanwhile (xe_closesSending env) e) ev0 raw wall integrity outcome
      fence (xe_receivedAt env) (xe_fencedAt env)) as H1.
    pose proof (finish_state (closed_meanwhile (xe_closesSending env) e) ev0 raw wall integrity outcome
      fence (xe_receivedAt env) (xe_fencedAt env)) as H3.
    destruct (finish _ _ _ _ _ _ _ _ _) as [e1 ev1]. cbn [fst snd] in *.
    injection E as <- <-. exists ev1. rewrite H1, Hg. subst e1. done. }
  case_test; [apply Hend; [done|]; by destruct (xe_writeErr env)|].
  destruct (production_receive _ _ _ _) as [r|] eqn:Er; [|done].
  destruct (rc_response r) as [response|err] eqn:Ec; [by apply Hend|].
  pose proof (receive_fault _ _ _ _ _ _ Er Ec) as Hf. destruct (is_exception err) eqn:Hx; apply Hend; try done; by rewrite Hf.
Qed.

Lemma read_refines e unit request env e' labels :
  at_rest e -> production_step e (OpRead unit request env) = Some (e', labels) ->
  at_rest e' /\ line_run (line_of e) labels = Some (line_of e').
Proof.
  intros Hr. cbn. destruct (ProductionRead e unit request env) as [[e1 out]|] eqn:E; [|done].
  intros [= -> <-]. revert E. unfold ProductionRead, read_reached.
  destruct (EncodeRTUReadADU unit request) as [frame|err]; [|intros [= <- <-]; done].
  destruct (busy e) eqn:Hb; [intros [= <- <-]; done|]. cbv zeta.
  destruct (open_line e Hr Hb) as (Hc & Hf & Ha & Hi).
  set (e1 := closed_meanwhile (xe_closesAdmitting env) _).
  assert (Hclosed : forall out, ro_sent out = None ->
    at_rest (release_flight e1) /\
    line_run (line_of e) (exchange_labels e env true
      (frame ← ro_sent out; ev ← ro_evidence out;
       Some (rv_Generation ev, frame, exchange_fault unit (rr_function request) (xe_events env) (ro_error out))))
    = Some (line_of (release_flight e1))).
  { intros out0 ->. split; [by apply (concluded_rest _ (mkExchangeEnv false 0 0 None [] (xe_closesAdmitting env) 0 0) false)|].
    exact (closed_meanwhile_line (xe_closesAdmitting env) (reserved e) Hc). }
  destruct (negb (rx_admission e1 _)); [intros [= <- <-]; by apply Hclosed|].
  destruct (rx_closed e1 || rx_fenced e1 || _) eqn:Hg; [intros [= <- <-]; by apply Hclosed|].
  assert (He1 : e1 = e <| rx_inflight := true |>).
  { subst e1. unfold closed_meanwhile, ProductionClose in *. destruct (xe_closesAdmitting env); [|done].
    cbn in Hg. rewrite Hc in Hg. done. }
  rewrite He1. intros E. apply read_sent_concludes in E as (ev & -> & Hs & Hev & Hgen).
  rewrite Hs, Hev. cbn. rewrite Hgen. split.
  - by apply (concluded_rest (sending e) env (exchange_fault unit (rr_function request) (xe_events env) (ro_error out))).
  - by apply (exchange_refines e env frame).
Qed.

Lemma existsb_subseteq {A} (p : A -> bool) (xs ys : list A) : xs ⊆ ys -> existsb p xs = true -> existsb p ys = true.
Proof. rewrite !existsb_exists. intros Hs (x & Hx%list_elem_of_In & Hp). exists x. split; [by apply list_elem_of_In, Hs|done]. Qed.

(** A fault stays one while more of the line is taken into account, unless an exception
    was reported. *)
Lemma fault_subseteq unit function events events' error :
  bursts [] events ⊆ bursts [] events' ->
  (forall err, error = Some (ProductionProtocol err) -> exceptional err ->
     existsb (exception_frame unit function) (bursts [] events) = true) ->
  exchange_fault unit function events' error = exchange_fault unit function events error.
Proof.
  intros Hs He. unfold exchange_fault. destruct error as [[|err| | | |]|]; try done. f_equal.
  destruct (bool_decide _) eqn:Ek; [|done]. bool_hyps. specialize (He err eq_refl Ek). cbn. rewrite He.
  by apply (existsb_subseteq _ (bursts [] events)).
Qed.

Lemma private_loop_ends turns e unit request maxResponses classify cancelled responses frames wall events n :
  private_loop turns e unit request maxResponses classify cancelled responses frames wall events = Some n ->
  (pn_fence n = exchange_fault unit (pf_function request) events (pn_error n) /\
   forall err, pn_error n = Some (ProductionProtocol err) -> exceptional err ->
     existsb (exception_frame unit (pf_function request)) (bursts [] events) = true) /\
  (pn_error n = None <-> pn_outcome n = "success"%string) /\
  (pn_error n = None -> zlen (pn_responses n) <= zlen responses + Z.of_nat turns).
Proof.
  revert responses frames wall events. induction turns as [|turns IH]; intros responses frames wall events; [done|].
  cbn [private_loop]. unfold readPrivateFrame.
  destruct (NewRTUFrameDecoder (rx_timing e)) as [d|e1] eqn:En.
  2: { cbn. intros [= <-]. cbn. apply decoder_not_exceptional in En. rewrite bool_decide_false by done. conj; try done.
       by intros err [= <-]. }
  destruct (private_frame_loop d [] None events) as [f|] eqn:Ef; [|done]. cbv zeta.
  apply frame_heard in Ef; [|by eapply new_decoder_assembling].
  destruct (pm_complete f) as [complete|err].
  2: { intros [= <-]. cbn. conj; try done; [|by intros err' [= ->]]. destruct err; try done. by rewrite bool_decide_false. }
  destruct Ef as [Hin Hrest].
  destruct (DecodeRTUPrivateFunctionResponseADU _ _ _) as [response [err|]] eqn:Ed.
  { destruct (bool_decide _) eqn:Ek; bool_hyps; intros [= <-]; cbn.
    - assert (Hx : existsb (exception_frame unit (pf_function request)) (bursts [] events) = true).
      { apply existsb_exists. exists complete. split; [by apply list_elem_of_In|]. by eapply private_exception. }
      rewrite bool_decide_true, Hx by done. by conj.
    - rewrite bool_decide_false by done. conj; try done. by intros err' [= <-]. }
  destruct (match classify with Some _ => _ | None => _ end); try (intros [= <-]; cbn; conj; try done; by intros err [= <-]).
  - case_test; [intros [= <-]; cbn; conj; try done; by intros err [= <-]|].
    intros E. apply IH in E as ((H1 & H1') & H2 & H3). conj; try done.
    + rewrite H1. symmetry. by apply fault_subseteq.
    + intros err He Hx. eapply existsb_subseteq; [exact Hrest|by eapply H1'].
    + intros Hn. specialize (H3 Hn). rewrite zlen_app, zlen_cons, zlen_nil in H3. lia.
  - destruct cancelled; intros [= <-]; cbn; [conj; try done; by intros err [= <-]|]. conj; try done. intros _.
    rewrite zlen_app, zlen_cons, zlen_nil. lia.
Qed.

Lemma private_sent_concludes e unit request maxResponses classify cancelled frame env e' out :
  private_sent e unit request maxResponses classify cancelled frame env = Some (e', out) ->
  exists ev',
    e' = release_flight ((concluded e env (exchange_fault unit (pf_function request) (xe_events env) (po_error out)))
           <| rx_lastPrivate := Some ev' |>) /\
    po_sent out = Some frame /\ po_evidence out = Some ev' /\ pv_Generation ev' = rx_generation e.
Proof.
  unfold private_sent. cbv zeta.
  assert (Hend : forall n, pn_fence n = exchange_fault unit (pf_function request) (xe_events env) (pn_error n) ->
    forall ev0, pv_Generation ev0 = rx_generation e ->
    (let '(e, ev) := finishPrivate (closed_meanwhile (xe_closesSending env) e) ev0 (pn_wall n) (pn_integrity n)
                       (pn_outcome n) (pn_fence n) (xe_receivedAt env) (xe_fencedAt env) in
     Some (release_flight e,
       {| po_responses := pn_responses n; po_evidence := Some ev; po_error := pn_error n; po_sent := Some frame |}))
    = Some (e', out) ->
    exists ev',
      e' = release_flight ((concluded e env (exchange_fault unit (pf_function request) (xe_events env) (po_error out)))
             <| rx_lastPrivate := Some ev' |>) /\
      po_sent out = Some frame /\ po_evidence out = Some ev' /\ pv_Generation ev' = rx_generation e).
  { intros n Hn ev0 Hg. unfold finishPrivate. cbv zeta. rewrite Hn. intros [= <- <-]. eexists.
    split; [|split; [done|split; [done|]]].
    - unfold concluded. by case_test.
    - by case_test. }
  case_test; [apply Hend; [cbn; by destruct (xe_writeErr env)|done]|].
  destruct (private_loop _ _ _ _ _ _ _ _ _ _ _) as [n|] eqn:E; [|done].
  apply private_loop_ends in E as [[Hn _] _]. by apply Hend.
Qed.

Lemma private_refines e unit request policy classify cancelled env e' labels :
  at_rest e -> production_step e (OpPrivate unit request policy classify cancelled env) = Some (e', labels) ->
  at_rest e' /\ line_run (line_of e) labels = Some (line_of e').
Proof.
  intros Hr. cbn. destruct (ExchangePrivateFunction e unit request policy classify cancelled env)
    as [[e1 out]|] eqn:E; [|done].
  intros [= -> <-]. revert E. unfold ExchangePrivateFunction, private_reached.
  destruct (productionPrivateFunctionCode _), (pp_maxAttempts policy =? 1); cbn [negb orb andb];
    try (intros [= <- <-]; done).
  destruct (EncodeRTUPrivateFunctionADU unit request) as [frame|err]; [|intros [= <- <-]; done].
  destruct (busy e) eqn:Hb; [intros [= <- <-]; done|].
  destruct (pg_Admission (rx_private e)) as [admission|]; [|intros [= <- <-]; done]. cbv zeta.
  destruct (open_line e Hr Hb) as (Hc & Hf & Ha & Hi).
  set (e1 := closed_meanwhile (xe_closesAdmitting env) _).
  assert (Hclosed : forall out, po_sent out = None ->
    at_rest (release_flight e1) /\
    line_run (line_of e) (exchange_labels e env true
      (frame ← po_sent out; ev ← po_evidence out;
       Some (pv_Generation ev, frame, exchange_fault unit (pf_function request) (xe_events env) (po_error out))))
    = Some (line_of (release_flight e1))).
  { intros out0 ->. split; [by apply (concluded_rest _ (mkExchangeEnv false 0 0 None [] (xe_closesAdmitting env) 0 0) false)|].
    exact (closed_meanwhile_line (xe_closesAdmitting env) (reserved e) Hc). }
  destruct (negb (admission _)); [intros [= <- <-]; by apply Hclosed|].
  destruct (rx_closed e1 || rx_fenced e1 || _) eqn:Hg; [intros [= <- <-]; by apply Hclosed|].
  assert (He1 : e1 = e <| rx_inflight := true |>).
  { subst e1. unfold closed_meanwhile, ProductionClose in *. destruct (xe_closesAdmitting env); [|done].
    cbn in Hg. rewrite Hc in Hg. done. }
  rewrite He1. intros E. apply private_sent_concludes in E as (ev & -> & Hs & Hev & Hgen).
  rewrite Hs, Hev. cbn. rewrite Hgen. split.
  - by apply (concluded_rest (sending e) env (exchange_fault unit (pf_function request) (xe_events env) (po_error out))).
  - by apply (exchange_refines e env frame).
Qed.

(** ** Recovery *)

Lemma recovery_loop_quiet until events :
  recovery_loop until events = Some None -> until <= quiet_at until events.
Proof.
  induction events as [|[|err|expired offset] events IH]; cbn; try done.
  destruct expired; [done|]. case_test; [apply IH|]. intros _. bool_hyps. lia.
Qed.

Lemma recovery_loop_state until events : recovery_loop until events <> Some (Some ProductionState).
Proof.
  induction events as [|[|err|expired offset] events IH]; cbn; try done.
  destruct expired; [done|]. case_test; [apply IH|done].
Qed.

Lemma recover_refines e closes events e' labels :
  at_rest e -> production_step e (OpRecover closes events) = Some (e', labels) ->
  at_rest e' /\ line_run (line_of e) labels = Some (line_of e').
Proof.
  intros [Hi Hr]. cbn. unfold ProductionRecover. case_test; [intros [= <- <-]; done|]. bool_hyps. cbv zeta.
  destruct (recovery_loop _ events) as [[err|]|] eqn:E; [| |done].
  - assert (err <> ProductionState) by (intros ->; by apply recovery_loop_state in E).
    intros Hs. assert (Hs' : e' = closed_meanwhile closes (e <| rx_recoveryAttempted := true |>) /\
      labels = RecoveryFailed :: (if closes then [ClosedLine] else [])) by (by destruct err; simplify_eq).
    destruct Hs' as [-> ->]. unfold closed_meanwhile, ProductionClose, at_rest, line_of, line_run, line_step.
    destruct e; cbn in *; subst. by destruct closes.
  - intros [= <- <-]. apply recovery_loop_quiet in E. cbn in E.
    unfold closed_meanwhile, ProductionClose, at_rest, line_of, line_run, line_step.
    destruct e; cbn in *; subst. destruct closes; cbn; [done|]. split; [done|].
    by test_true (rx_quarantineUntil <=? quiet_at rx_quarantineUntil events).
Qed.

Lemma production_run_refines ops e e' labels :
  at_rest e -> production_run e ops = Some (e', labels) ->
  at_rest e' /\ line_run (line_of e) labels = Some (line_of e').
Proof.
  revert e e' labels. induction ops as [|op ops IH]; intros e e' labels Hr; cbn [production_run].
  { intros [= <- <-]. done. }
  destruct (production_step e op) as [[e1 labels1]|] eqn:E1; [|done].
  destruct (production_run e1 ops) as [[e2 labels2]|] eqn:E2; [|done]. intros [= <- <-].
  assert (H1 : at_rest e1 /\ line_run (line_of e) labels1 = Some (line_of e1)).
  { destruct op.
    - by eapply read_refines.
    - by eapply private_refines.
    - by eapply recover_refines.
    - cbn in E1. injection E1 as <- <-. clear IH E2. destruct Hr as [Hi Hr].
      unfold ProductionClose, at_rest, line_of. destruct e; cbn in *. destruct rx_closed; cbn; [done|].
      split; [done|]. by destruct rx_fenced, rx_recoveryAttempted. }
  destruct H1 as [Hr1 H1]. apply IH in E2 as [Hr2 H2]; [|done]. split; [done|].
  by erewrite line_run_app.
Qed.

(** C18: The production endpoint refines its line.  Over any run of reads, private-function
    exchanges, recoveries and closes, whatever the stream, the callbacks and other
    threads do: a frame is sent only in the open generation it is stamped with; a sent
    exchange fences the generation exactly when it is a fault, that is when it returns an
    error, unless the error reports an exception and the line carried, between two
    silences, a frame with a valid checksum in which the unit refuses the function; a fenced endpoint sends nothing until a recovery has seen the line quiet
    past the response latency after the fault, which opens the next generation; a
    recovery that fails leaves the endpoint without one; and a close is final.  The
    state of the endpoint after the run is that of the line. *)
Theorem production_refines_line config e ops e' labels :
  newRTUProductionEndpoint config = Ok e -> production_run e ops = Some (e', labels) ->
  line_run {| ln_generation := 1; ln_status := LineOpen |} labels = Some (line_of e').
Proof.
  intros Hn Hr. unfold newRTUProductionEndpoint in Hn.
  destruct (validateRTUProductionConfig config), (xg_Admission config); try done. injection Hn as <-.
  eapply production_run_refines in Hr as [_ Hr]; [exact Hr|done].
Qed.

Definition demo_production_config : RTUProductionConfig :=
  {| xg_Endpoint := "line";
     xg_Serial := {| sg_Path := "/dev/ttyUSB0"; sg_Baud := 9600; sg_DataBits := 8; sg_Parity := RTUParityEven;
                     sg_StopBits := 1 |};
     xg_Timing := demo_timing; xg_ResponseTimeout := 1000000000; xg_Enabled := true;
     xg_Admission := Some (fun request => aq_Quantity request <=? 4);
     xg_PrivateFunction := {| pg_Admission := None; pg_MaxResponses := 0 |} |}.

Definition demo_production : RTUProductionEndpoint :=
  default (mkRTUProductionEndpoint "" demo_timing 0 0 0 false false false false (fun _ => false) 0 None
             {| pg_Admission := None; pg_MaxResponses := 0 |} None)
    (match newRTUProductionEndpoint demo_production_config with Ok e => Some e | Err _ => None end).

(** A read that hears nothing before its deadline, and a recovery that hears a late byte. *)
Definition demo_silence : exchange_env :=
  {| xe_closesAdmitting := false; xe_sentAt := 1000; xe_written := 8; xe_writeErr := None;
     xe_events := [LineQuiet 900000 None; LineQuiet 2000000 (Some 7)]; xe_closesSending := false;
     xe_receivedAt := 2000000; xe_fencedAt := 2000000 |}.

Definition demo_recovery : list recovery_event :=
  [RecoveryQuiet false 3000000; RecoveryByte; RecoveryQuiet false 1003000000].

Lemma production_refines_line_witness :
  let until := int64 (2000000 + rt_maxResponseLatency demo_timing) in
  line_run {| ln_generation := 1; ln_status := LineOpen |}
    [Sent 1 [17; 3; 0; 6; 0; 1; 102; 155]; Faulted until; Recovered 1003000000]
  = Some {| ln_generation := 2; ln_status := LineOpen |}.
Proof.
  pose proof (production_refines_line demo_production_config demo_production
    [OpRead 17 (read_request 3 6 1) demo_silence; OpRecover false demo_recovery]
    _ _ ltac:(vm_compute; reflexivity) ltac:(vm_compute; reflexivity)) as H.
  vm_compute in H |- *. exact H.
Defined.

(** * What a successful read heard *)

(** The calls of [ReadRTUByte] that heard a burst of bytes, with their offsets and wall
    clocks. *)
Definition hears (burst : list (Z * Z * Z)) : list line_event :=
  (fun b => LineByte b.1.1 b.1.2 b.2) <$> burst.

Definition values (burst : list (Z * Z * Z)) : list Z := (fun b => b.1.1) <$> burst.
Definition offsets (burst : list (Z * Z * Z)) : list Z := (fun b => b.1.2) <$> burst.

Definition idle (event : line_event) : Prop := exists offset, event = LineQuiet offset None.

(** The line carries bytes. *)
Definition event_bytes (event : line_event) : Prop :=
  match event with LineByte value _ _ => u8 value | _ => True end.

Definition timing_positive (t : RTUTiming) : Prop :=
  0 < rt_characterTime t /\ 0 < rt_readInterCharacter t /\ 0 < rt_interFrame t.

Section heard.
Context (unit : Z) (request : ReadRegistersRequest).

Lemma receive_heard events d raw wall expected r response :
  assembling d raw -> raw <> [] ->
  production_receive_loop unit request d raw wall expected events = Some r -> rc_response r = Ok response ->
  exists burst finish rest dec,
    events = hears burst ++ LineQuiet finish None :: rest /\
    paced (rt_interCharacter (rd_timing d)) (rd_lastByte d) (offsets burst) /\
    List.last (offsets burst) (rd_lastByte d) + rt_interFrame (rd_timing d) <= finish /\
    DecodeRTUReadResponseADU unit request (raw ++ values burst) = (dec, None) /\ rra_response dec = response.
Proof.
  revert d raw wall expected. induction events as [|[value offset now|err|offset [err|]] events IH];
    intros d raw wall expected Ha Hne; cbn [production_receive_loop]; try done; try (by intros [= <-]).
  - destruct (rtuReadResponseLength _ _); [|by intros [= <-]].
    destruct (FeedByte d offset value) as [d1 [err|]] eqn:E; [by intros [= <-]|].
    apply (feed_assembles d raw) in E as (-> & Ho & _ & Hpace); [|done].
    intros H1 H2. destruct (IH _ _ _ _ (assembling_snoc d raw offset value Ha Ho) ltac:(by destruct raw) H1 H2)
      as (burst & finish & rest & dec & -> & Hp & Hs & Hd & Hr).
    exists ((value, offset, now) :: burst), finish, rest, dec.
    unfold offsets, values, hears in *. rewrite !fmap_cons, last_default.
    cbn [set_rd rd_timing rd_lastByte paced fst snd] in *. conj; try done; try (by apply Hpace).
    by rewrite <- app_assoc in Hd.
  - case_test; [bool_hyps; by destruct raw|]. case_test; [by intros [= <-]|].
    destruct (EndFrame d offset) as [d' [adu [err|]]] eqn:E; [by intros [= <-]|].
    apply (end_frame_assembled d raw) in E as (_ & Hs & _ & Hraw); [|done..]. rewrite Hraw.
    destruct (DecodeRTUReadResponseADU unit request raw) as [dec [err|]] eqn:Ed; intros [= <-]; [done|].
    cbn. intros [= <-]. exists [], offset, events, dec. cbn. by rewrite app_nil_r.
Qed.

Lemma receive_heard_first events d wall expected r response :
  assembling d [] ->
  production_receive_loop unit request d [] wall expected events = Some r -> rc_response r = Ok response ->
  exists quiets first burst finish rest dec,
    events = quiets ++ hears (first :: burst) ++ LineQuiet finish None :: rest /\ Forall idle quiets /\
    0 <= first.1.2 /\ paced (rt_interCharacter (rd_timing d)) (first.1.2) (offsets burst) /\
    List.last (offsets burst) (first.1.2) + rt_interFrame (rd_timing d) <= finish /\
    DecodeRTUReadResponseADU unit request (values (first :: burst)) = (dec, None) /\ rra_response dec = response.
Proof.
  intros Ha. revert expected. induction events as [|[value offset now|err|offset [err|]] events IH];
    intros expected; cbn [production_receive_loop]; try done; try (by intros [= <-]).
  - destruct (rtuReadResponseLength _ _); [|by intros [= <-]].
    destruct (FeedByte d offset value) as [d1 [err|]] eqn:E; [by intros [= <-]|].
    apply (feed_assembles d []) in E as (-> & Ho & _ & _); [|done].
    intros H1 H2. destruct (receive_heard _ _ _ _ _ _ _ (assembling_snoc d [] offset value Ha Ho) ltac:(done) H1 H2)
      as (burst & finish & rest & dec & -> & Hp & Hs & Hd & Hr).
    by exists [], (value, offset, now), burst, finish, rest, dec.
  - cbn. intros H1 H2. destruct (IH _ H1 H2) as (quiets & first & burst & finish & rest & dec & -> & Hq & Hrest).
    exists (LineQuiet offset None :: quiets), first, burst, finish, rest, dec. split; [done|].
    split; [constructor; [by exists offset|done]|done].
Qed.

(** The shape every byte of a response is checked against. *)
Definition response_shape (frame : list Z) : Prop :=
  exists unit tail, frame = unit :: rr_function request :: 2 * rr_quantity request :: tail /\
    zlen frame = 5 + 2 * rr_quantity request.

Lemma prefix_length raw rest :
  valid_read request -> response_shape (raw ++ rest) ->
  rtuReadResponseLength request raw = Ok (if zlen raw <? 3 then 0 else 5 + 2 * rr_quantity request).
Proof.
  intros Hv (u & tail & E & Hl). pose proof (valid_read_bounds _ Hv) as (_ & _ & Hf & Hq).
  pose proof (exception_function_ne _ Hv). rewrite zlen_app in Hl. pose proof (zlen_nonneg rest).
  unfold rtuReadResponseLength. rewrite wrap8_id by done.
  destruct raw as [|u' [|f [|q raw]]]; try done; cbn in E; cbn [lookup_total list_lookup_total].
  - injection E as _ -> _. test_false (rr_function request =? Z.lor (rr_function request) 0x80). by rewrite Z.eqb_refl.
  - injection E as _ -> -> _. rewrite !zlen_cons in *. pose proof (zlen_nonneg raw).
    test_false (1 + (1 + (1 + zlen raw)) <? 2). test_false (1 + (1 + (1 + zlen raw)) <? 3).
    test_false (rr_function request =? Z.lor (rr_function request) 0x80). rewrite !Z.eqb_refl. cbn [negb].
    by test_false (1 + (1 + (1 + zlen raw)) >? 5 + 2 * rr_quantity request).
Qed.

Lemma receive_delivers burst d raw wall finish rest dec :
  valid_read request -> assembling d raw -> raw <> [] -> response_shape (raw ++ values burst) ->
  0 <= rt_interFrame (rd_timing d) ->
  paced (rt_interCharacter (rd_timing d)) (rd_lastByte d) (offsets burst) ->
  List.last (offsets burst) (rd_lastByte d) + rt_interFrame (rd_timing d) <= finish ->
  DecodeRTUReadResponseADU unit request (raw ++ values burst) = (dec, None) ->
  production_receive_loop unit request d raw (Some wall) (if zlen raw <? 3 then 0 else 5 + 2 * rr_quantity request)
    (hears burst ++ LineQuiet finish None :: rest)
  = Some {| rc_raw := raw ++ values burst; rc_wall := Some wall; rc_response := Ok (rra_response dec) |}.
Proof.
  intros Hv. pose proof (valid_read_bounds _ Hv) as (_ & _ & _ & Hq).
  revert d raw. induction burst as [|[[value offset] now] burst IH]; intros d raw Ha Hne Hs Ht Hp Hf Hd.
  - cbn in *. rewrite app_nil_r in *. destruct Hs as (u & tail & -> & Hl). rewrite Hl.
    test_false (5 + 2 * rr_quantity request <? 3). test_false (5 + 2 * rr_quantity request =? 0).
    rewrite Z.eqb_refl. cbn [negb orb].
    assert (Hadu : exists adu, decodeRTUADU (u :: rr_function request :: 2 * rr_quantity request :: tail) = (adu, None)).
    { revert Hd. unfold DecodeRTUReadResponseADU. case_test; [done|].
      destruct (decodeRTUADU _) as [adu [err|]]; [done|]. by eexists. }
    destruct Hadu as [adu Hadu]. destruct Ha as (Hpo & Hb & Hh & Hlb). unfold EndFrame. rewrite Hpo, Hb.
    rewrite (proj2 Hh) by done. cbn [negb orb]. test_false (finish <? rd_lastByte d).
    test_false (finish - rd_lastByte d <? rt_interFrame (rd_timing d)). rewrite Hadu.
    pose proof (decode_rtu_raw (u :: rr_function request :: 2 * rr_quantity request :: tail)) as Hraw.
    rewrite Hadu in Hraw. cbn [fst orb] in Hraw |- *. by rewrite Hraw, Hd.
  - unfold offsets, values, hears in *. rewrite !fmap_cons, ?last_default in *. cbn [app fst snd paced] in *.
    destruct Hp as [Hp1 Hp2]. destruct Ha as (Hpo & Hb & Hh & Hlb) eqn:EHa. clear EHa.
    assert (Ho : 0 <= offset) by lia. rewrite (cons_middle value raw), (app_assoc raw [value]) in Hs, Hd |- *.
    cbn [production_receive_loop].
    rewrite (prefix_length (raw ++ [value]) _ Hv Hs).
    rewrite (proj2 (feed_assembles d raw offset value _ ltac:(done))) by
      (conj; try done; destruct Hs as (u & tail & _ & Hl); rewrite zlen_app, zlen_app, zlen_cons in Hl;
       unfold MaxRTUADUSize; pose proof (zlen_nonneg ((λ b : Z * Z * Z, b.1.1) <$> burst)); change (zlen []) with 0 in Hl; lia).
    cbn [first_wall]. apply IH; try done; [by apply assembling_snoc|by destruct raw].
Qed.

Lemma receive_delivers_first quiets first burst d finish rest dec :
  valid_read request -> assembling d [] -> Forall idle quiets -> response_shape (values (first :: burst)) ->
  0 <= rt_interFrame (rd_timing d) -> 0 <= first.1.2 ->
  paced (rt_interCharacter (rd_timing d)) first.1.2 (offsets burst) ->
  List.last (offsets burst) first.1.2 + rt_interFrame (rd_timing d) <= finish ->
  DecodeRTUReadResponseADU unit request (values (first :: burst)) = (dec, None) ->
  production_receive_loop unit request d [] None 0
    (quiets ++ hears (first :: burst) ++ LineQuiet finish None :: rest)
  = Some {| rc_raw := values (first :: burst); rc_wall := Some first.2; rc_response := Ok (rra_response dec) |}.
Proof.
  intros Hv Ha Hq Hs Ht Ho Hp Hf Hd. induction Hq as [|event quiets [offset ->] _ IH]; [|exact IH].
  destruct first as [[value offset] now]. cbn [fst snd] in *.
  change (values ((value, offset, now) :: burst)) with ([value] ++ values burst) in *.
  cbn [hears fmap list_fmap app production_receive_loop fst snd]. rewrite (prefix_length [value] _ Hv Hs).
  rewrite (proj2 (feed_assembles d [] offset value _ Ha)) by (conj; try done).
  cbn [first_wall]. apply (receive_delivers burst _ [value] now finish rest dec); try done.
Qed.

End heard.

(** A decoded read response, by the words it carries. *)
Lemma decode_read_frame unit request frame dec response :
  1 <= unit <= 247 -> valid_read request -> Forall u8 frame ->
  (DecodeRTUReadResponseADU unit request frame = (dec, None) /\ rra_response dec = Some response) <->
  exists words, zlen words = rr_quantity request /\ Forall u16 words /\
    encodeRTUADU unit (read_response_pdu request words) = Ok frame /\
    response = {| rs_Words := words; rs_Provenance := read_provenance request |} /\
    dec = {| rra_adu := {| ru_unitID := unit; ru_pdu := read_response_pdu request words; ru_raw := frame |};
             rra_response := Some response |}.
Proof.
  intros Hu Hv Hb. split.
  - intros [Hd Hr]. destruct dec as [adu resp]. cbn in Hr. subst resp.
    apply rtu_read_response_iff in Hd as (pdu & Hp & He & Hd & ->); [|done..].
    apply decode_read_response_iff in Hd as (ws & Hl & Hw & -> & ->); [|done..]. by exists ws.
  - intros (ws & Hl & Hw & He & -> & ->). split; [|done].
    apply rtu_read_response_iff; [done..|].
    assert (Hp : Forall u8 (read_response_pdu request ws)).
    { pose proof (valid_read_bounds _ Hv) as (_ & _ & Hf & Hq). unfold read_response_pdu.
      constructor; [done|]. constructor; [unfold u8; lia|apply word_bytes_u8]. }
    exists (read_response_pdu request ws). conj; try done.
    apply decode_read_response_iff; [done..|]. by exists ws.
Qed.

Lemma encoded_response_shape unit request words frame :
  zlen words = rr_quantity request ->
  encodeRTUADU unit (read_response_pdu request words) = Ok frame -> response_shape request frame.
Proof.
  intros Hl. unfold encodeRTUADU. repeat case_test; intros H; simp_res. unfold read_response_pdu.
  cbn [app]. exists unit. eexists. rewrite Hl. split; [reflexivity|].
  rewrite !zlen_cons, zlen_app, zlen_word_bytes, !zlen_cons, zlen_nil. lia.
Qed.

Lemma hears_bytes burst rest : Forall event_bytes (hears burst ++ rest) -> Forall u8 (values burst).
Proof.
  intros [H _]%Forall_app. induction burst as [|b burst IH]; [constructor|].
  apply Forall_cons in H as [H1 H2]. constructor; [exact H1|by apply IH].
Qed.

(** A read whose frame is sent receives what [production_receive] makes of the line. *)
Definition admitted (e : RTUProductionEndpoint) (unit : Z) (request : ReadRegistersRequest)
    (env : exchange_env) (frame : list Z) : Prop :=
  EncodeRTUReadADU unit request = Ok frame /\ busy e = false /\ xe_closesAdmitting env = false /\
  rx_admission e (admission_request e unit request) = true /\
  xe_writeErr env = None /\ xe_written env = zlen frame.

Lemma read_success e unit request env response :
  (exists e' out, ProductionRead e unit request env = Some (e', out) /\ ro_error out = None /\
     ro_response out = Some response) <->
  exists frame r, admitted e unit request env frame /\
    production_receive (sending e) unit request (xe_events env) = Some r /\ rc_response r = Ok (Some response).
Proof.
  unfold ProductionRead, admitted.
  destruct (EncodeRTUReadADU unit request) as [frame|err];
    [|split; [intros (e' & out & [= <- <-] & ? & _); done|by intros (? & ? & (? & _) & _)]].
  destruct (busy e) eqn:Hb;
    [split; [intros (e' & out & [= <- <-] & ? & _); done|by intros (? & ? & (_ & ? & _) & _)]|].
  unfold busy in Hb. bool_hyps. cbv zeta. unfold closed_meanwhile.
  destruct (xe_closesAdmitting env).
  { split; [|by intros (? & ? & (_ & _ & ? & _) & _)]. intros (e' & out & E & He & _). revert E.
    case_test; [by intros [= <- <-]|]. unfold ProductionClose. cbn. rewrite H. cbn. by intros [= <- <-]. }
  cbn. destruct (rx_admission e _) eqn:Ha; cbn [negb];
    [|split; [intros (e' & out & [= <- <-] & ? & _); done|by intros (? & ? & (_ & _ & _ & ? & _) & _)]].
  rewrite Z.eqb_refl. replace (rx_closed e || rx_fenced e || negb true) with false by (by rewrite H, H1).
  unfold read_sent. cbv zeta.
  destruct (xe_writeErr env) as [werr|] eqn:Hw.
  { split; [intros (e' & out & [= <- <-] & ? & _); done|by intros (? & ? & (_ & _ & _ & _ & ? & _) & _)]. }
  cbn. destruct (xe_written env =? zlen frame) eqn:Hn; cbn [negb]; bool_hyps.
  2: { split; [intros (e' & out & [= <- <-] & ? & _); done|].
       intros (? & ? & ([= ->] & _ & _ & _ & _ & ?) & _). done. }
  fold (sending e). destruct (production_receive (sending e) unit request (xe_events env)) as [r|] eqn:Hr.
  2: { split; [by intros (? & ? & ? & _)|by intros (? & ? & _ & ? & _)]. }
  split.
  - intros (e' & out & E & He & Ho). exists frame, r. conj; try done. revert E.
    destruct (rc_response r) as [resp|err]; [|case_test; by intros [= <- <-]].
    intros [= <- <-]. cbn in Ho. by rewrite Ho.
  - intros (frame' & r' & ([= <-] & _) & [= <-] & ->). by eexists _, _.
Qed.

(** C19: A read of the production endpoint succeeds exactly when it is encodable, the
    endpoint is open and idle, the admission grants it and nobody closes the endpoint
    meanwhile, the whole frame is written, and the line then carries, after any silence
    within the timeout, the encoding for the unit of a response of one word per register,
    byte after byte within the read gap, followed by an inter-frame silence.  The
    response returned carries those words and the provenance of the request. *)
Theorem production_read_success_iff e unit request env response :
  timing_positive (rx_timing e) -> u8 unit -> u16 (rr_offset request) -> u16 (rr_quantity request) ->
  Forall event_bytes (xe_events env) ->
  (exists e' out, ProductionRead e unit request env = Some (e', out) /\ ro_error out = None /\
     ro_response out = Some response) <->
  (exists frame, admitted e unit request env frame) /\
  exists quiets first burst finish rest words,
    xe_events env = quiets ++ hears (first :: burst) ++ LineQuiet finish None :: rest /\ Forall idle quiets /\
    0 <= first.1.2 /\ paced (rt_readInterCharacter (rx_timing e)) (first.1.2) (offsets burst) /\
    List.last (offsets burst) (first.1.2) + rt_interFrame (rx_timing e) <= finish /\
    zlen words = rr_quantity request /\ Forall u16 words /\
    encodeRTUADU unit (read_response_pdu request words) = Ok (values (first :: burst)) /\
    response = {| rs_Words := words; rs_Provenance := read_provenance request |}.
Proof.
  intros (Ht1 & Ht2 & Ht3) Hu Ho Hq Hev. rewrite read_success. unfold production_receive.
  replace (NewRTUFrameDecoder (read_decoder_timing (rx_timing (sending e))))
    with (@Ok ProtocolError _ (mkRTUFrameDecoder (read_decoder_timing (rx_timing e)) [] 0 false false)).
  2: { unfold NewRTUFrameDecoder. cbn. symmetry. else_branch; [done|bool_goal; lia]. }
  set (d := mkRTUFrameDecoder _ _ _ _ _).
  assert (Hd : assembling d []) by (unfold assembling; cbn; conj; try done).
  assert (Henc : forall frame, EncodeRTUReadADU unit request = Ok frame -> valid_read request /\ 1 <= unit <= 247).
  { intros frame. unfold EncodeRTUReadADU, EncodePDU.
    destruct (validateReadRegistersRequest request) eqn:Ev; [done|]. apply validate_valid in Ev; [|done..].
    unfold encodeRTUADU. cbn. case_test; [done|]. intros _. unfold u8 in Hu. bool_hyps. split; [done|lia]. }
  split.
  - intros (frame & r & Ha & Hr & Hresp). split; [by exists frame|].
    destruct (Henc frame (proj1 Ha)) as [Hv Hun].
    destruct (receive_heard_first _ _ _ _ _ _ _ _ Hd Hr Hresp)
      as (quiets & first & burst & finish & rest & dec & E & Hqs & H0 & Hp & Hs & Hdec & Hrd).
    rewrite E in Hev. apply Forall_app in Hev as [_ Hev]. apply (hears_bytes (first :: burst)) in Hev.
    destruct (proj1 (decode_read_frame unit request _ dec response Hun Hv Hev) (conj Hdec Hrd))
      as (words & Hl & Hw & He & -> & _).
    by exists quiets, first, burst, finish, rest, words.
  - intros [[frame Ha] (quiets & first & burst & finish & rest & words & E & Hqs & H0 & Hp & Hs & Hl & Hw & He & ->)].
    destruct (Henc frame (proj1 Ha)) as [Hv Hun]. rewrite E in Hev |- *.
    apply Forall_app in Hev as [_ Hev]. apply (hears_bytes (first :: burst)) in Hev.
    destruct (proj2 (decode_read_frame unit request (values (first :: burst)) _ _ Hun Hv Hev)
      (ex_intro _ words (conj Hl (conj Hw (conj He (conj eq_refl eq_refl)))))) as [Hdec Hrd].
    exists frame. eexists. split; [done|].
    split; [apply (receive_delivers_first unit request) with (7 := Hp) (8 := Hs) (9 := Hdec)|done]; try done;
      [by eapply encoded_response_shape|cbn; lia].
Qed.

(** The read of one register answered after a silence. *)
Definition demo_answered : exchange_env :=
  {| xe_closesAdmitting := false; xe_sentAt := 1000; xe_written := 8; xe_writeErr := None;
     xe_events := [LineQuiet 900000 None; LineByte 17 1000000 5; LineByte 3 1100000 6; LineByte 2 1200000 6;
                   LineByte 1 1300000 7; LineByte 2 1400000 7; LineByte 249 1500000 8; LineByte 214 1600000 9;
                   LineQuiet 9000000 None];
     xe_closesSending := false; xe_receivedAt := 9000000; xe_fencedAt := 0 |}.

Lemma production_read_success_iff_witness :
  exists e' out, ProductionRead demo_production 17 (read_request 3 6 1) demo_answered = Some (e', out) /\
    ro_error out = None /\
    ro_response out = Some {| rs_Words := [0x0102]; rs_Provenance := read_provenance (read_request 3 6 1) |}.
Proof.
  refine (proj2 (production_read_success_iff demo_production 17 (read_request 3 6 1) demo_answered _ _ _ _ _ _) _).
  1: vm_compute; conj; done.
  1-3: vm_compute; split; done.
  1: repeat (constructor; [vm_compute; done || (split; done)|]); constructor.
  split; [by eexists; vm_compute; conj|].
  exists [LineQuiet 900000 None], (17, 1000000, 5),
    [(3, 1100000, 6); (2, 1200000, 6); (1, 1300000, 7); (2, 1400000, 7); (249, 1500000, 8); (214, 1600000, 9)],
    9000000, [], [0x0102].
  split; [reflexivity|]. split; [constructor; [by exists 900000|constructor]|].
  cbn [fst snd offsets fmap list_fmap paced List.last]. conj; try lia; try (vm_compute; reflexivity || discriminate).
  constructor; [unfold u16; lia|constructor].
Defined.
