(* ===== verification/RtuSerial.v ===== *)
(** The serial port of Linux and the stub of other systems (rtu_serial_linux.go,
    rtu_serial_stub.go), the opening of a production endpoint over it
    (rtu_production.go), and the capability statement of the RTU slice
    (rtu_capability.go).

    System calls, the file and the contexts are outside: what they answer is an argument.
    The constants of termios are those of the generic Linux ABI (amd64, arm64). *)

From S2P Require Import Prelude Pdu DeviceId DeviceIdTolerant TcpAdu RtuTiming RtuAdu PrivateFunction RtuSession RtuProduction RtuProductionFacts.

(** * Termios *)

Definition IGNBRK : Z := 0x1.
Definition BRKINT : Z := 0x2.
Definition PARMRK : Z := 0x8.
Definition ISTRIP : Z := 0x20.
Definition INLCR : Z := 0x40.
Definition IGNCR : Z := 0x80.
Definition ICRNL : Z := 0x100.
Definition IXON : Z := 0x400.
Definition OPOST : Z := 0x1.
Definition ISIG : Z := 0x1.
Definition ICANON : Z := 0x2.
Definition ECHO : Z := 0x8.
Definition ECHONL : Z := 0x40.
Definition IEXTEN : Z := 0x8000.
Definition CSIZE : Z := 0x30.
Definition CS8 : Z := 0x30.
Definition CSTOPB : Z := 0x40.
Definition CREAD : Z := 0x80.
Definition PARENB : Z := 0x100.
Definition PARODD : Z := 0x200.
Definition CLOCAL : Z := 0x800.
Definition VTIME : nat := 5.
Definition VMIN : nat := 6.

Definition rtuSerialLinuxBaudMask : Z := 0x100f.
Definition rtuSerialLinuxInputBaudMask : Z := Z.shiftl rtuSerialLinuxBaudMask 16.

Record Termios : Type := mkTermios {
  tm_Iflag : Z;
  tm_Oflag : Z;
  tm_Cflag : Z;
  tm_Lflag : Z;
  tm_Cc : list Z
}.

Definition rtuSerialLinuxSpeed (baud : Z) : option Z :=
  if baud =? 9600 then Some 0xd
  else if baud =? 19200 then Some 0xe
  else if baud =? 38400 then Some 0xf
  else if baud =? 57600 then Some 0x1001
  else if baud =? 115200 then Some 0x1002
  else if baud =? 230400 then Some 0x1003
  else None.

(** [a | b | ...]. *)
Definition flags (l : list Z) : Z := foldr Z.lor 0 l.

Definition input_cleared : Z := flags [IGNBRK; BRKINT; PARMRK; ISTRIP; INLCR; IGNCR; ICRNL; IXON].
Definition local_cleared : Z := flags [ECHO; ECHONL; ICANON; ISIG; IEXTEN].
Definition control_cleared : Z :=
  flags [CSIZE; PARENB; PARODD; CSTOPB; rtuSerialLinuxBaudMask; rtuSerialLinuxInputBaudMask].

Definition parity_flags (parity : string) : Z :=
  if String.eqb parity RTUParityNone then 0
  else if String.eqb parity RTUParityOdd then Z.lor PARENB PARODD
  else PARENB.

Definition stop_flags (stopBits : Z) : Z := if stopBits =? 2 then CSTOPB else 0.

Definition raw_termios (t : Termios) (config : RTUSerialConfig) (speed : Z) : Termios :=
  {| tm_Iflag := Z.ldiff (tm_Iflag t) input_cleared;
     tm_Oflag := Z.ldiff (tm_Oflag t) OPOST;
     tm_Cflag :=
       Z.lor (Z.lor (Z.lor (Z.ldiff (tm_Cflag t) control_cleared) (flags [CREAD; CLOCAL; CS8; speed]))
                    (parity_flags (sg_Parity config)))
             (stop_flags (sg_StopBits config));
     tm_Lflag := Z.ldiff (tm_Lflag t) local_cleared;
     tm_Cc := <[VTIME := 0]> (<[VMIN := 1]> (tm_Cc t)) |}.

(** [tcgets] and [tcsets] are what the two system calls answer.  The line as it was set,
    if it was, and the error. *)
Definition configureRTUSerialFD (config : RTUSerialConfig) (tcgets : Termios + Z) (tcsets : option Z)
    : option Termios * option production_error :=
  match tcgets with
  | inr errno => (None, Some (ProductionInjected errno))
  | inl t =>
      match rtuSerialLinuxSpeed (sg_Baud config) with
      | None => (None, Some (ProductionProtocol (protocolError ErrorInvalidRequest 0 0 "rtu_serial_baud" (-1))))
      | Some speed =>
          match tcsets with
          | Some errno => (None, Some (ProductionInjected errno))
          | None => (Some (raw_termios t config speed), None)
          end
      end
  end.

(** * Opening *)

(** What the system answers: whether the path could be opened, the two calls on the
    terminal, and the time. *)
Record serial_system : Type := mkSerialSystem {
  sy_openErr : option Z;
  sy_tcgets : Termios + Z;
  sy_tcsets : option Z;
  sy_now : Z
}.

(** The stream with the line it runs on, or the error and whether a descriptor was opened
    and closed again. *)
Inductive serial_opened : Type :=
| SerialOpen (stream : RTUSerialStream) (line : Termios)
| SerialFailed (err : production_error) (opened closed : bool).

Definition newRTUSerialStream (now : Z) : RTUSerialStream :=
  {| ss_started := now; ss_closed := false; ss_closeErr := None |}.

Definition OpenRTUSerial (config : RTUSerialConfig) (system : serial_system) : serial_opened :=
  match Validate config with
  | Some err => SerialFailed (ProductionProtocol err) false false
  | None =>
      match sy_openErr system with
      | Some errno => SerialFailed (ProductionInjected errno) false false
      | None =>
          match configureRTUSerialFD config (sy_tcgets system) (sy_tcsets system) with
          | (Some line, None) => SerialOpen (newRTUSerialStream (sy_now system)) line
          | (_, Some err) => SerialFailed err true true
          | (None, None) => SerialFailed ProductionState true true
          end
      end
  end.

(** Other systems; [unsupported] is the package's error. *)
Definition OpenRTUSerialStub (config : RTUSerialConfig) (unsupported : Z) : production_error :=
  match Validate config with
  | Some err => ProductionProtocol err
  | None => ProductionInjected unsupported
  end.

(** The endpoint with its stream, or the error and the stream that was opened for it and
    closed again, if there was one. *)
Definition OpenRTUProductionEndpoint (config : RTUProductionConfig) (system : serial_system) (closeErr : option Z)
    : (RTUProductionEndpoint * RTUSerialStream) + (production_error * option RTUSerialStream) :=
  match validateRTUProductionConfig config with
  | Some err => inr (ProductionProtocol err, None)
  | None =>
      match OpenRTUSerial (xg_Serial config) system with
      | SerialFailed err _ _ => inr (err, None)
      | SerialOpen stream _ =>
          match newRTUProductionEndpoint config with
          | Err err => inr (ProductionProtocol err, Some (fst (StreamClose stream closeErr)))
          | Ok endpoint => inl (endpoint, stream)
          end
      end
  end.

(** * Bytes *)

Definition rtuSerialPollInterval : Z := 10000000.

(** The deadline given to the file, if the context is still alive. *)
Definition setRTUSerialDeadline (contextErr : option Z) (now : Z) (contextDeadline setErr : option Z)
    : option Z * option Z :=
  match contextErr with
  | Some err => (None, Some err)
  | None =>
      let deadline := now + rtuSerialPollInterval in
      let deadline :=
        match contextDeadline with
        | Some limit => if limit <? deadline then limit else deadline
        | None => deadline
        end in
      (Some deadline, setErr)
  end.

Inductive serial_read : Type :=
| ReadByte (value : Z)
| ReadNothing
| ReadDeadlineExceeded
| ReadError (err : Z).

(** One turn of the loop of [ReceiveByte]: the context before it, the file's answers, and
    the context at the end of the idle wait or of the deadline. *)
Record serial_poll : Type := mkSerialPoll {
  so_context : option Z;
  so_now : Z;
  so_setErr : option Z;
  so_read : serial_read;
  so_after : option Z
}.

(** The byte or the error; [None] when the turns given are not enough. *)
Fixpoint ReceiveByte (contextDeadline : option Z) (polls : list serial_poll) : option (Z + Z) :=
  match polls with
  | [] => None
  | poll :: polls =>
      match setRTUSerialDeadline (so_context poll) (so_now poll) contextDeadline (so_setErr poll) with
      | (_, Some err) => Some (inr err)
      | (_, None) =>
          match so_read poll with
          | ReadByte value => Some (inl value)
          | ReadNothing | ReadDeadlineExceeded =>
              match so_after poll with
              | Some err => Some (inr err)
              | None => ReceiveByte contextDeadline polls
              end
          | ReadError err => Some (inr err)
          end
      end
  end.

Definition BackendWrite (contextErr : option Z) (now : Z) (contextDeadline setErr : option Z) (frame : list Z)
    (written : Z) (writeErr : option Z) : Z * option production_error :=
  match setRTUSerialDeadline contextErr now contextDeadline setErr with
  | (_, Some err) => (0, Some (ProductionInjected err))
  | (_, None) =>
      match writeErr with
      | Some err => (written, Some (ProductionInjected err))
      | None => if negb (written =? zlen frame) then (written, Some ProductionShortWrite) else (written, None)
      end
  end.

(** The file is closed once; [lb_closed] is what that answered. *)
Record linuxRTUSerialBackend : Type := mkLinuxRTUSerialBackend {
  lb_closed : option (option Z)
}.

Definition BackendClose (backend : linuxRTUSerialBackend) (closeErr : option Z)
    : linuxRTUSerialBackend * option Z :=
  match lb_closed backend with
  | Some err => (backend, err)
  | None => ({| lb_closed := Some closeErr |}, closeErr)
  end.

(** * The capability statement *)

Definition RTUFixtureOnlyNoHardware : string := "FIXTURE_ONLY_NO_HARDWARE".
Definition RTUMaturityExperimental : string := "experimental".

Record RTUCapability : Type := mkRTUCapability {
  cy_fixtureOptIn : bool
}.

Definition CurrentRTUCapability : RTUCapability := {| cy_fixtureOptIn := false |}.
Definition WithFixtureOptIn (capability : RTUCapability) : RTUCapability := {| cy_fixtureOptIn := true |}.
Definition Disposition (capability : RTUCapability) : string := RTUFixtureOnlyNoHardware.
Definition Maturity (capability : RTUCapability) : string := RTUMaturityExperimental.
Definition DefaultEnabled (capability : RTUCapability) : bool := false.
Definition Supported (capability : RTUCapability) : bool := false.
Definition HardwareQualified (capability : RTUCapability) : bool := false.
Definition FixtureOptedIn (capability : RTUCapability) : bool := cy_fixtureOptIn capability.

(** * Facts *)

Lemma mask_bit m M n : Z.ldiff m M = 0 -> Z.testbit m n = true -> Z.testbit M n = true.
Proof.
  intros H Hm. assert (E : Z.testbit (Z.ldiff m M) n = false) by (rewrite H; apply Z.bits_0).
  rewrite Z.ldiff_spec, Hm in E. by destruct (Z.testbit M n).
Qed.

(** Below a mask that is cleared only what is set there is left. *)
Lemma masked c M K m : Z.ldiff m M = 0 -> Z.land (Z.lor (Z.ldiff c M) K) m = Z.land K m.
Proof.
  intros H. apply Z.bits_inj'. intros n _. rewrite !Z.land_spec, Z.lor_spec, Z.ldiff_spec.
  destruct (Z.testbit m n) eqn:E; [|by rewrite !andb_false_r]. rewrite (mask_bit _ _ _ H E).
  by rewrite andb_false_r.
Qed.

(** A cleared mask holds nothing. *)
Lemma cleared c M m : Z.ldiff m M = 0 -> Z.land (Z.ldiff c M) m = 0.
Proof. intros H. rewrite <- (Z.lor_0_r (Z.ldiff c M)), masked by done. apply Z.land_0_l. Qed.

(** Outside the masks nothing changes. *)
Lemma kept_outside c M K T : Z.ldiff M T = 0 -> Z.ldiff K T = 0 -> Z.ldiff (Z.lor (Z.ldiff c M) K) T = Z.ldiff c T.
Proof.
  intros H1 H2. apply Z.bits_inj'. intros n _. rewrite !Z.ldiff_spec, Z.lor_spec, Z.ldiff_spec.
  destruct (Z.testbit T n) eqn:E; [by rewrite !andb_false_r|]. rewrite !andb_true_r.
  destruct (Z.testbit M n) eqn:EM; [by rewrite (mask_bit _ _ _ H1 EM) in E|].
  destruct (Z.testbit K n) eqn:EK; [by rewrite (mask_bit _ _ _ H2 EK) in E|].
  by rewrite andb_true_r, orb_false_r.
Qed.

Lemma set_on c K m : Z.ldiff m K = 0 -> Z.land (Z.lor c K) m = m.
Proof.
  intros H. apply Z.bits_inj'. intros n _. rewrite Z.land_spec, Z.lor_spec.
  destruct (Z.testbit m n) eqn:E; [|by rewrite andb_false_r]. by rewrite (mask_bit _ _ _ H E), orb_true_r.
Qed.

(** The bits of the control flags the port decides. *)
Definition control_touched : Z := flags [control_cleared; CREAD; CLOCAL].

(** A raw line of eight data bits with the configured speed, parity and stop bits, and
    whatever else was set on it. *)
Record line_set (t : Termios) (config : RTUSerialConfig) (line : Termios) : Prop := mk_line_set {
  ls_raw : Z.land (tm_Iflag line) input_cleared = 0 /\ Z.land (tm_Oflag line) OPOST = 0 /\
    Z.land (tm_Lflag line) local_cleared = 0;
  ls_size : Z.land (tm_Cflag line) CSIZE = CS8;
  ls_parity : Z.land (tm_Cflag line) (Z.lor PARENB PARODD) = parity_flags (sg_Parity config);
  ls_stop : Z.land (tm_Cflag line) CSTOPB = stop_flags (sg_StopBits config);
  ls_speed : rtuSerialLinuxSpeed (sg_Baud config) = Some (Z.land (tm_Cflag line) rtuSerialLinuxBaudMask) /\
    Z.land (tm_Cflag line) rtuSerialLinuxInputBaudMask = 0;
  ls_on : Z.land (tm_Cflag line) (Z.lor CREAD CLOCAL) = Z.lor CREAD CLOCAL;
  ls_kept : Z.ldiff (tm_Iflag line) input_cleared = Z.ldiff (tm_Iflag t) input_cleared /\
    Z.ldiff (tm_Oflag line) OPOST = Z.ldiff (tm_Oflag t) OPOST /\
    Z.ldiff (tm_Lflag line) local_cleared = Z.ldiff (tm_Lflag t) local_cleared /\
    Z.ldiff (tm_Cflag line) control_touched = Z.ldiff (tm_Cflag t) control_touched;
  ls_blocking : length (tm_Cc t) = 32%nat -> tm_Cc line !! VMIN = Some 1 /\ tm_Cc line !! VTIME = Some 0
}.

Lemma validated_speed config :
  Validate config = None -> rtuSerialLinuxSpeed (sg_Baud config) ∈ Some <$> [0xd; 0xe; 0xf; 0x1001; 0x1002; 0x1003].
Proof.
  unfold Validate, supportedRTUSerialBaud. destruct (bool_decide _) eqn:E; cbn [negb]; [|by rewrite orb_true_r].
  apply bool_decide_eq_true in E. intros _. unfold rtuSerialLinuxSpeed.
  rewrite !elem_of_cons, elem_of_nil in E. destruct E as [->|[->|[->|[->|[->|[->|[]]]]]]]; cbn; set_solver.
Qed.

Lemma parity_cases parity :
  parity_flags parity = 0 \/ parity_flags parity = PARENB \/ parity_flags parity = Z.lor PARENB PARODD.
Proof. unfold parity_flags. repeat case_test; auto. Qed.

Lemma stop_cases stopBits : stop_flags stopBits = 0 \/ stop_flags stopBits = CSTOPB.
Proof. unfold stop_flags. case_test; auto. Qed.

Lemma ldiff_twice c M : Z.ldiff (Z.ldiff c M) M = Z.ldiff c M.
Proof. rewrite <- (Z.lor_0_r (Z.ldiff c M)) at 1. apply kept_outside; [apply Z.ldiff_diag|apply Z.ldiff_0_l]. Qed.

Lemma raw_line t config speed :
  rtuSerialLinuxSpeed (sg_Baud config) = Some speed -> speed ∈ [0xd; 0xe; 0xf; 0x1001; 0x1002; 0x1003] ->
  line_set t config (raw_termios t config speed).
Proof.
  intros Hs Hin. unfold raw_termios. rewrite <- !Z.lor_assoc.
  set (K := Z.lor (flags [CREAD; CLOCAL; CS8; speed]) _).
  assert (HK : Z.land K CSIZE = CS8 /\ Z.land K (Z.lor PARENB PARODD) = parity_flags (sg_Parity config) /\
    Z.land K CSTOPB = stop_flags (sg_StopBits config) /\ Z.land K rtuSerialLinuxBaudMask = speed /\
    Z.land K rtuSerialLinuxInputBaudMask = 0 /\ Z.ldiff (Z.lor CREAD CLOCAL) K = 0 /\ Z.ldiff K control_touched = 0).
  { subst K. rewrite !elem_of_cons, elem_of_nil in Hin.
    destruct (parity_cases (sg_Parity config)) as [->|[->| ->]], (stop_cases (sg_StopBits config)) as [->| ->],
      Hin as [->|[->|[->|[->|[->|[->|[]]]]]]]; by vm_compute. }
  destruct HK as (H1 & H2 & H3 & H4 & H5 & H6 & H7). split; cbn.
  - by rewrite !cleared.
  - by rewrite masked.
  - by rewrite masked.
  - by rewrite masked.
  - rewrite !masked by done. by rewrite H4.
  - by apply set_on.
  - rewrite !ldiff_twice. by rewrite kept_outside.
  - intros Hl. unfold VMIN, VTIME. rewrite list_lookup_insert_ne, list_lookup_insert_eq by (rewrite ?length_insert, ?Hl; lia).
    by rewrite list_lookup_insert_eq by (rewrite length_insert, Hl; lia).
Qed.

(** A port that is open runs on the line its configuration describes. *)
Theorem serial_line_configured config system stream line :
  OpenRTUSerial config system = SerialOpen stream line ->
  exists t, sy_tcgets system = inl t /\ line_set t config line.
Proof.
  unfold OpenRTUSerial. destruct (Validate config) eqn:Ev; [done|]. apply validated_speed in Ev.
  destruct (sy_openErr system); [done|]. unfold configureRTUSerialFD. destruct (sy_tcgets system) as [t|]; [|done].
  destruct (rtuSerialLinuxSpeed (sg_Baud config)) as [speed|] eqn:Es; [|done]. destruct (sy_tcsets system); [done|].
  intros [= _ <-]. exists t. split; [done|]. apply raw_line; [done|].
  by apply list_elem_of_fmap in Ev as (x & [= ->] & Hx).
Qed.

(** Opening never leaks: a descriptor that was opened is closed again unless the endpoint
    gets it, and the two checks of the configuration agree. *)
Theorem open_production_releases config system closeErr :
  match OpenRTUProductionEndpoint config system closeErr with
  | inl (_, stream) => ss_closed stream = false
  | inr (_, Some stream) => ss_closed stream = true
  | inr (_, None) =>
      match OpenRTUSerial (xg_Serial config) system with
      | SerialFailed _ opened closed => opened = closed
      | SerialOpen _ _ => is_Some (validateRTUProductionConfig config)
      end
  end.
Proof.
  unfold OpenRTUProductionEndpoint. destruct (validateRTUProductionConfig config) as [err|] eqn:Ev.
  - destruct (OpenRTUSerial _ _) as [|? opened closed] eqn:Eo; [by eexists|]. revert Eo. unfold OpenRTUSerial.
    destruct (Validate _); [by intros [= _ <- <-]|]. destruct (sy_openErr system); [by intros [= _ <- <-]|].
    destruct (configureRTUSerialFD _ _ _) as [[line|] [err'|]]; by intros [= _ <- <-].
  - destruct (OpenRTUSerial _ _) as [stream line|? opened closed] eqn:Eo.
    + destruct (newRTUProductionEndpoint config).
      * revert Eo. unfold OpenRTUSerial. destruct (Validate _); [done|]. destruct (sy_openErr system); [done|].
        destruct (configureRTUSerialFD _ _ _) as [[l|] [err'|]]; intros [= <- _]; done.
      * unfold StreamClose. by destruct (ss_closed stream) eqn:Ec.
    + revert Eo. unfold OpenRTUSerial.
      destruct (Validate _); [by intros [= _ <- <-]|]. destruct (sy_openErr system); [by intros [= _ <- <-]|].
      destruct (configureRTUSerialFD _ _ _) as [[line|] [err'|]]; by intros [= _ <- <-].
Qed.

(** A turn that decides nothing: the file was idle until its deadline. *)
Definition idle (poll : serial_poll) : Prop :=
  so_context poll = None /\ so_setErr poll = None /\ so_after poll = None /\
  (so_read poll = ReadNothing \/ so_read poll = ReadDeadlineExceeded).

(** The first turn that is not idle reads [value] while the context is alive. *)
Inductive hears (value : Z) : list serial_poll -> Prop :=
| hears_now poll polls :
    so_context poll = None -> so_setErr poll = None -> so_read poll = ReadByte value -> hears value (poll :: polls)
| hears_later poll polls : idle poll -> hears value polls -> hears value (poll :: polls).

(** A byte is returned exactly when the first turn that is not idle reads it while the
    context is alive: no byte is skipped or invented, and no error is swallowed. *)
Theorem receive_byte_iff contextDeadline polls value :
  ReceiveByte contextDeadline polls = Some (inl value) <-> hears value polls.
Proof.
  split.
  - induction polls as [|poll polls IH]; cbn [ReceiveByte]; [done|]. unfold setRTUSerialDeadline.
    destruct (so_context poll) eqn:Ec; [done|]. destruct (so_setErr poll) eqn:Es; [done|].
    destruct (so_read poll) eqn:Er; [by intros [= ->]; apply hears_now|..|done].
    all: destruct (so_after poll) eqn:Ea; [done|]; intros H; apply hears_later; [unfold idle|by apply IH]; auto.
  - induction 1 as [poll polls Hc Hs Hr|poll polls (Hc & Hs & Ha & Hr) H IH]; cbn [ReceiveByte]; unfold setRTUSerialDeadline;
      rewrite Hc, Hs; [by rewrite Hr|]. by destruct Hr as [-> | ->]; rewrite Ha.
Qed.

(** The file never waits past the next poll or the context's deadline. *)
Theorem serial_deadline_bounded contextErr now contextDeadline setErr deadline err :
  setRTUSerialDeadline contextErr now contextDeadline setErr = (Some deadline, err) ->
  deadline <= now + rtuSerialPollInterval /\ (forall limit, contextDeadline = Some limit -> deadline <= limit).
Proof.
  unfold setRTUSerialDeadline. destruct contextErr; [done|]. intros [= <- _]. destruct contextDeadline as [limit|]; [|by split].
  destruct (limit <? _) eqn:E; (split; [lia|]); intros ? [= <-]; lia.
Qed.

(** No opt-in turns the capability into a claim about hardware. *)
Theorem capability_claims_nothing capability :
  let opted := WithFixtureOptIn capability in
  FixtureOptedIn CurrentRTUCapability = false /\ FixtureOptedIn opted = true /\
  Disposition opted = Disposition CurrentRTUCapability /\ Maturity opted = Maturity CurrentRTUCapability /\
  DefaultEnabled opted = false /\ Supported opted = false /\ HardwareQualified opted = false.
Proof. done. Qed.

(** A port of demonstration: a cooked terminal becomes a raw 9600 8E1 line. *)
Definition demo_terminal : Termios :=
  {| tm_Iflag := 0x500; tm_Oflag := 0x5; tm_Cflag := 0xbf; tm_Lflag := 0x8a3b; tm_Cc := replicate 32 7 |}.

Example demo_open :
  OpenRTUSerial (xg_Serial demo_production_config) (mkSerialSystem None (inl demo_terminal) None 5)
  = SerialOpen (newRTUSerialStream 5)
      {| tm_Iflag := 0; tm_Oflag := 4; tm_Cflag := 0x9bd; tm_Lflag := 0xa30;
         tm_Cc := replicate 5 7 ++ [0; 1] ++ replicate 25 7 |}.
Proof. vm_compute. reflexivity. Qed.
