(* ===== verification/TcpOwner.v ===== *)
(** The owner of one TCP socket (tcp_owner.go): transaction and physical
    request identifiers, the life of a request from reservation to response,
    abandonment with tombstones, and correlation of received ADUs.

    Go pointers are addresses: an owner knows its own ([ow_self]), a
    reservation the one that issued it, and the bound transport and the pool
    are addresses too.  The requests of [inFlight] are only reached through the
    map, so updating one through its pointer is updating the map. *)

From S2P Require Import Prelude Pdu DeviceId DeviceIdTolerant TcpAdu.

(** * Data *)

Record ConnectionLimits : Type := mkConnectionLimits {
  cl_MaxInFlight : Z;
  cl_MaxTombstones : Z
}.

Inductive requestKind : Type :=
| requestRead
| requestDeviceID.

#[export] Instance requestKind_eq_dec : EqDecision requestKind.
Proof. solve_decision. Defined.

Inductive requestState : Type :=
| requestReserved
| requestWriteInvoked
| requestWaiting.

#[export] Instance requestState_eq_dec : EqDecision requestState.
Proof. solve_decision. Defined.

Record ownedRequest : Type := mkOwnedRequest {
  or_transactionID : Z;
  or_physicalRequestID : Z;
  or_generation : Z;
  or_unitID : Z;
  or_kind : requestKind;
  or_function : Z;
  or_read : ReadRegistersRequest;
  or_deviceID : DeviceIDRequest;
  or_deviceIDDecoding : Z;
  or_state : requestState;
  or_deadlineOffset : Z
}.

Record TCPReservation : Type := mkTCPReservation {
  tv_owner : Z;
  tv_transactionID : Z;
  tv_physicalRequestID : Z;
  tv_generation : Z;
  tv_deadlineOffset : Z
}.

#[export] Instance TCPReservation_eq_dec : EqDecision TCPReservation.
Proof. solve_decision. Defined.

Record reservationWireIdentity : Type := mkReservationWireIdentity {
  wi_function : Z;
  wi_table : LogicalTable;
  wi_offset : Z;
  wi_quantity : Z;
  wi_unitID : Z
}.

(** A Go byte: the six named results and any other value. *)
Inductive TransmitResult : Type :=
| TransmitProvableZero
| TransmitPartial
| TransmitIndeterminate
| TransmitCancellationRace
| TransmitAmbiguous
| TransmitComplete
| TransmitOther (value : Z).

#[export] Instance TransmitResult_eq_dec : EqDecision TransmitResult.
Proof. solve_decision. Defined.

Inductive AbandonReason : Type :=
| AbandonTimeout
| AbandonCancellation
| AbandonOther (value : Z).

#[export] Instance AbandonReason_eq_dec : EqDecision AbandonReason.
Proof. solve_decision. Defined.

Record OwnerTransition : Type := mkOwnerTransition {
  ot_closeConnection : bool;
  ot_failed : list TCPReservation
}.

Definition no_transition : OwnerTransition :=
  {| ot_closeConnection := false; ot_failed := [] |}.

Inductive WireOutcome : Type :=
| WireSuccessfulData
| WireProtocolException
| WireMalformedResponse
| WireLateAfterAbandonment
| WireDroppedUncorrelated.

#[export] Instance WireOutcome_eq_dec : EqDecision WireOutcome.
Proof. solve_decision. Defined.

Record DiagnosticFrameProvenance : Type := mkDiagnosticFrameProvenance {
  dp_Endpoint : string;
  dp_ConnectionID : Z;
  dp_ReceivedTransportGeneration : Z;
  dp_ActiveTransportGeneration : Z;
  dp_UnitID : Z;
  dp_ReceivedFunction : Z
}.

Definition TransportTCP : string := "tcp".

Record WireProvenance : Type := mkWireProvenance {
  wp_Endpoint : string;
  wp_ConnectionID : Z;
  wp_Transport : string;
  wp_TransportGeneration : Z;
  wp_UnitID : Z;
  wp_RequestedFunction : Z;
  wp_ReceivedFunction : Z;
  wp_Table : LogicalTable;
  wp_Offset : Z;
  wp_Quantity : Z;
  wp_DeviceIDAccess : Z;
  wp_DeviceIDObjectID : Z
}.

Record decodedOwnedResponse : Type := mkDecodedOwnedResponse {
  do_words : list Z;
  do_segment : option DeviceIDSegment;
  do_page : option DeviceIDPage
}.

Definition no_decoded : decodedOwnedResponse :=
  {| do_words := []; do_segment := None; do_page := None |}.

(** The provenance records are absent where the code leaves them zero. *)
Record WireResponse : Type := mkWireResponse {
  wr_owner : option Z;
  wr_outcome : WireOutcome;
  wr_deliverable : bool;
  wr_wireResponseID : Z;
  wr_diagnosticFrameID : Z;
  wr_physicalRequestID : Z;
  wr_provenance : option WireProvenance;
  wr_diagnostic : option DiagnosticFrameProvenance;
  wr_decoded : decodedOwnedResponse;
  wr_bytes : list Z
}.

Record TCPConnectionOwner : Type := mkTCPConnectionOwner {
  ow_self : Z;
  ow_endpoint : string;
  ow_connectionID : Z;
  ow_generation : Z;
  ow_limits : ConnectionLimits;
  ow_closed : bool;
  ow_retired : bool;
  ow_nextTransactionID : Z;
  ow_nextPhysicalRequestID : Z;
  ow_nextWireResponseID : Z;
  ow_nextDiagnosticFrameID : Z;
  ow_inFlight : gmap Z ownedRequest;
  ow_tombstones : gmap Z ownedRequest;
  ow_closingTombstone : option ownedRequest;
  ow_earlyCompletions : gmap Z Z;
  ow_pendingFailures : list TCPReservation;
  ow_hasGenerationAllocator : bool;
  ow_boundTransport : option Z;
  ow_pool : option Z
}.

Abbreviation owner := TCPConnectionOwner.

(** * Assignments to one field *)

Definition set_closed (v : bool) (o : owner) : owner :=
  {| ow_self := ow_self o; ow_endpoint := ow_endpoint o;
     ow_connectionID := ow_connectionID o; ow_generation := ow_generation o;
     ow_limits := ow_limits o; ow_closed := v; ow_retired := ow_retired o;
     ow_nextTransactionID := ow_nextTransactionID o;
     ow_nextPhysicalRequestID := ow_nextPhysicalRequestID o;
     ow_nextWireResponseID := ow_nextWireResponseID o;
     ow_nextDiagnosticFrameID := ow_nextDiagnosticFrameID o; ow_inFlight := ow_inFlight o;
     ow_tombstones := ow_tombstones o; ow_closingTombstone := ow_closingTombstone o;
     ow_earlyCompletions := ow_earlyCompletions o;
     ow_pendingFailures := ow_pendingFailures o;
     ow_hasGenerationAllocator := ow_hasGenerationAllocator o;
     ow_boundTransport := ow_boundTransport o; ow_pool := ow_pool o |}.

Definition set_retired (v : bool) (o : owner) : owner :=
  {| ow_self := ow_self o; ow_endpoint := ow_endpoint o;
     ow_connectionID := ow_connectionID o; ow_generation := ow_generation o;
     ow_limits := ow_limits o; ow_closed := ow_closed o; ow_retired := v;
     ow_nextTransactionID := ow_nextTransactionID o;
     ow_nextPhysicalRequestID := ow_nextPhysicalRequestID o;
     ow_nextWireResponseID := ow_nextWireResponseID o;
     ow_nextDiagnosticFrameID := ow_nextDiagnosticFrameID o; ow_inFlight := ow_inFlight o;
     ow_tombstones := ow_tombstones o; ow_closingTombstone := ow_closingTombstone o;
     ow_earlyCompletions := ow_earlyCompletions o;
     ow_pendingFailures := ow_pendingFailures o;
     ow_hasGenerationAllocator := ow_hasGenerationAllocator o;
     ow_boundTransport := ow_boundTransport o; ow_pool := ow_pool o |}.

Definition set_generation (v : Z) (o : owner) : owner :=
  {| ow_self := ow_self o; ow_endpoint := ow_endpoint o;
     ow_connectionID := ow_connectionID o; ow_generation := v; ow_limits := ow_limits o;
     ow_closed := ow_closed o; ow_retired := ow_retired o;
     ow_nextTransactionID := ow_nextTransactionID o;
     ow_nextPhysicalRequestID := ow_nextPhysicalRequestID o;
     ow_nextWireResponseID := ow_nextWireResponseID o;
     ow_nextDiagnosticFrameID := ow_nextDiagnosticFrameID o; ow_inFlight := ow_inFlight o;
     ow_tombstones := ow_tombstones o; ow_closingTombstone := ow_closingTombstone o;
     ow_earlyCompletions := ow_earlyCompletions o;
     ow_pendingFailures := ow_pendingFailures o;
     ow_hasGenerationAllocator := ow_hasGenerationAllocator o;
     ow_boundTransport := ow_boundTransport o; ow_pool := ow_pool o |}.

Definition set_nextTransactionID (v : Z) (o : owner) : owner :=
  {| ow_self := ow_self o; ow_endpoint := ow_endpoint o;
     ow_connectionID := ow_connectionID o; ow_generation := ow_generation o;
     ow_limits := ow_limits o; ow_closed := ow_closed o; ow_retired := ow_retired o;
     ow_nextTransactionID := v; ow_nextPhysicalRequestID := ow_nextPhysicalRequestID o;
     ow_nextWireResponseID := ow_nextWireResponseID o;
     ow_nextDiagnosticFrameID := ow_nextDiagnosticFrameID o; ow_inFlight := ow_inFlight o;
     ow_tombstones := ow_tombstones o; ow_closingTombstone := ow_closingTombstone o;
     ow_earlyCompletions := ow_earlyCompletions o;
     ow_pendingFailures := ow_pendingFailures o;
     ow_hasGenerationAllocator := ow_hasGenerationAllocator o;
     ow_boundTransport := ow_boundTransport o; ow_pool := ow_pool o |}.

Definition set_nextPhysicalRequestID (v : Z) (o : owner) : owner :=
  {| ow_self := ow_self o; ow_endpoint := ow_endpoint o;
     ow_connectionID := ow_connectionID o; ow_generation := ow_generation o;
     ow_limits := ow_limits o; ow_closed := ow_closed o; ow_retired := ow_retired o;
     ow_nextTransactionID := ow_nextTransactionID o; ow_nextPhysicalRequestID := v;
     ow_nextWireResponseID := ow_nextWireResponseID o;
     ow_nextDiagnosticFrameID := ow_nextDiagnosticFrameID o; ow_inFlight := ow_inFlight o;
     ow_tombstones := ow_tombstones o; ow_closingTombstone := ow_closingTombstone o;
     ow_earlyCompletions := ow_earlyCompletions o;
     ow_pendingFailures := ow_pendingFailures o;
     ow_hasGenerationAllocator := ow_hasGenerationAllocator o;
     ow_boundTransport := ow_boundTransport o; ow_pool := ow_pool o |}.

Definition set_nextWireResponseID (v : Z) (o : owner) : owner :=
  {| ow_self := ow_self o; ow_endpoint := ow_endpoint o;
     ow_connectionID := ow_connectionID o; ow_generation := ow_generation o;
     ow_limits := ow_limits o; ow_closed := ow_closed o; ow_retired := ow_retired o;
     ow_nextTransactionID := ow_nextTransactionID o;
     ow_nextPhysicalRequestID := ow_nextPhysicalRequestID o; ow_nextWireResponseID := v;
     ow_nextDiagnosticFrameID := ow_nextDiagnosticFrameID o; ow_inFlight := ow_inFlight o;
     ow_tombstones := ow_tombstones o; ow_closingTombstone := ow_closingTombstone o;
     ow_earlyCompletions := ow_earlyCompletions o;
     ow_pendingFailures := ow_pendingFailures o;
     ow_hasGenerationAllocator := ow_hasGenerationAllocator o;
     ow_boundTransport := ow_boundTransport o; ow_pool := ow_pool o |}.

Definition set_nextDiagnosticFrameID (v : Z) (o : owner) : owner :=
  {| ow_self := ow_self o; ow_endpoint := ow_endpoint o;
     ow_connectionID := ow_connectionID o; ow_generation := ow_generation o;
     ow_limits := ow_limits o; ow_closed := ow_closed o; ow_retired := ow_retired o;
     ow_nextTransactionID := ow_nextTransactionID o;
     ow_nextPhysicalRequestID := ow_nextPhysicalRequestID o;
     ow_nextWireResponseID := ow_nextWireResponseID o; ow_nextDiagnosticFrameID := v;
     ow_inFlight := ow_inFlight o; ow_tombstones := ow_tombstones o;
     ow_closingTombstone := ow_closingTombstone o;
     ow_earlyCompletions := ow_earlyCompletions o;
     ow_pendingFailures := ow_pendingFailures o;
     ow_hasGenerationAllocator := ow_hasGenerationAllocator o;
     ow_boundTransport := ow_boundTransport o; ow_pool := ow_pool o |}.

Definition set_inFlight (v : gmap Z ownedRequest) (o : owner) : owner :=
  {| ow_self := ow_self o; ow_endpoint := ow_endpoint o;
     ow_connectionID := ow_connectionID o; ow_generation := ow_generation o;
     ow_limits := ow_limits o; ow_closed := ow_closed o; ow_retired := ow_retired o;
     ow_nextTransactionID := ow_nextTransactionID o;
     ow_nextPhysicalRequestID := ow_nextPhysicalRequestID o;
     ow_nextWireResponseID := ow_nextWireResponseID o;
     ow_nextDiagnosticFrameID := ow_nextDiagnosticFrameID o; ow_inFlight := v;
     ow_tombstones := ow_tombstones o; ow_closingTombstone := ow_closingTombstone o;
     ow_earlyCompletions := ow_earlyCompletions o;
     ow_pendingFailures := ow_pendingFailures o;
     ow_hasGenerationAllocator := ow_hasGenerationAllocator o;
     ow_boundTransport := ow_boundTransport o; ow_pool := ow_pool o |}.

Definition set_tombstones (v : gmap Z ownedRequest) (o : owner) : owner :=
  {| ow_self := ow_self o; ow_endpoint := ow_endpoint o;
     ow_connectionID := ow_connectionID o; ow_generation := ow_generation o;
     ow_limits := ow_limits o; ow_closed := ow_closed o; ow_retired := ow_retired o;
     ow_nextTransactionID := ow_nextTransactionID o;
     ow_nextPhysicalRequestID := ow_nextPhysicalRequestID o;
     ow_nextWireResponseID := ow_nextWireResponseID o;
     ow_nextDiagnosticFrameID := ow_nextDiagnosticFrameID o; ow_inFlight := ow_inFlight o;
     ow_tombstones := v; ow_closingTombstone := ow_closingTombstone o;
     ow_earlyCompletions := ow_earlyCompletions o;
     ow_pendingFailures := ow_pendingFailures o;
     ow_hasGenerationAllocator := ow_hasGenerationAllocator o;
     ow_boundTransport := ow_boundTransport o; ow_pool := ow_pool o |}.

Definition set_closingTombstone (v : option ownedRequest) (o : owner) : owner :=
  {| ow_self := ow_self o; ow_endpoint := ow_endpoint o;
     ow_connectionID := ow_connectionID o; ow_generation := ow_generation o;
     ow_limits := ow_limits o; ow_closed := ow_closed o; ow_retired := ow_retired o;
     ow_nextTransactionID := ow_nextTransactionID o;
     ow_nextPhysicalRequestID := ow_nextPhysicalRequestID o;
     ow_nextWireResponseID := ow_nextWireResponseID o;
     ow_nextDiagnosticFrameID := ow_nextDiagnosticFrameID o; ow_inFlight := ow_inFlight o;
     ow_tombstones := ow_tombstones o; ow_closingTombstone := v;
     ow_earlyCompletions := ow_earlyCompletions o;
     ow_pendingFailures := ow_pendingFailures o;
     ow_hasGenerationAllocator := ow_hasGenerationAllocator o;
     ow_boundTransport := ow_boundTransport o; ow_pool := ow_pool o |}.

Definition set_earlyCompletions (v : gmap Z Z) (o : owner) : owner :=
  {| ow_self := ow_self o; ow_endpoint := ow_endpoint o;
     ow_connectionID := ow_connectionID o; ow_generation := ow_generation o;
     ow_limits := ow_limits o; ow_closed := ow_closed o; ow_retired := ow_retired o;
     ow_nextTransactionID := ow_nextTransactionID o;
     ow_nextPhysicalRequestID := ow_nextPhysicalRequestID o;
     ow_nextWireResponseID := ow_nextWireResponseID o;
     ow_nextDiagnosticFrameID := ow_nextDiagnosticFrameID o; ow_inFlight := ow_inFlight o;
     ow_tombstones := ow_tombstones o; ow_closingTombstone := ow_closingTombstone o;
     ow_earlyCompletions := v; ow_pendingFailures := ow_pendingFailures o;
     ow_hasGenerationAllocator := ow_hasGenerationAllocator o;
     ow_boundTransport := ow_boundTransport o; ow_pool := ow_pool o |}.

Definition set_pendingFailures (v : list TCPReservation) (o : owner) : owner :=
  {| ow_self := ow_self o; ow_endpoint := ow_endpoint o;
     ow_connectionID := ow_connectionID o; ow_generation := ow_generation o;
     ow_limits := ow_limits o; ow_closed := ow_closed o; ow_retired := ow_retired o;
     ow_nextTransactionID := ow_nextTransactionID o;
     ow_nextPhysicalRequestID := ow_nextPhysicalRequestID o;
     ow_nextWireResponseID := ow_nextWireResponseID o;
     ow_nextDiagnosticFrameID := ow_nextDiagnosticFrameID o; ow_inFlight := ow_inFlight o;
     ow_tombstones := ow_tombstones o; ow_closingTombstone := ow_closingTombstone o;
     ow_earlyCompletions := ow_earlyCompletions o; ow_pendingFailures := v;
     ow_hasGenerationAllocator := ow_hasGenerationAllocator o;
     ow_boundTransport := ow_boundTransport o; ow_pool := ow_pool o |}.

Definition set_boundTransport (v : option Z) (o : owner) : owner :=
  {| ow_self := ow_self o; ow_endpoint := ow_endpoint o;
     ow_connectionID := ow_connectionID o; ow_generation := ow_generation o;
     ow_limits := ow_limits o; ow_closed := ow_closed o; ow_retired := ow_retired o;
     ow_nextTransactionID := ow_nextTransactionID o;
     ow_nextPhysicalRequestID := ow_nextPhysicalRequestID o;
     ow_nextWireResponseID := ow_nextWireResponseID o;
     ow_nextDiagnosticFrameID := ow_nextDiagnosticFrameID o; ow_inFlight := ow_inFlight o;
     ow_tombstones := ow_tombstones o; ow_closingTombstone := ow_closingTombstone o;
     ow_earlyCompletions := ow_earlyCompletions o;
     ow_pendingFailures := ow_pendingFailures o;
     ow_hasGenerationAllocator := ow_hasGenerationAllocator o; ow_boundTransport := v;
     ow_pool := ow_pool o |}.

Definition set_pool (v : option Z) (o : owner) : owner :=
  {| ow_self := ow_self o; ow_endpoint := ow_endpoint o;
     ow_connectionID := ow_connectionID o; ow_generation := ow_generation o;
     ow_limits := ow_limits o; ow_closed := ow_closed o; ow_retired := ow_retired o;
     ow_nextTransactionID := ow_nextTransactionID o;
     ow_nextPhysicalRequestID := ow_nextPhysicalRequestID o;
     ow_nextWireResponseID := ow_nextWireResponseID o;
     ow_nextDiagnosticFrameID := ow_nextDiagnosticFrameID o; ow_inFlight := ow_inFlight o;
     ow_tombstones := ow_tombstones o; ow_closingTombstone := ow_closingTombstone o;
     ow_earlyCompletions := ow_earlyCompletions o;
     ow_pendingFailures := ow_pendingFailures o;
     ow_hasGenerationAllocator := ow_hasGenerationAllocator o;
     ow_boundTransport := ow_boundTransport o; ow_pool := v |}.

Definition with_state (state : requestState) (r : ownedRequest) : ownedRequest :=
  {| or_transactionID := or_transactionID r; or_physicalRequestID := or_physicalRequestID r;
     or_generation := or_generation r; or_unitID := or_unitID r; or_kind := or_kind r;
     or_function := or_function r; or_read := or_read r; or_deviceID := or_deviceID r;
     or_deviceIDDecoding := or_deviceIDDecoding r; or_state := state;
     or_deadlineOffset := or_deadlineOffset r |}.

Definition with_read (read : ReadRegistersRequest) (r : ownedRequest) : ownedRequest :=
  {| or_transactionID := or_transactionID r; or_physicalRequestID := or_physicalRequestID r;
     or_generation := or_generation r; or_unitID := or_unitID r; or_kind := or_kind r;
     or_function := or_function r; or_read := read; or_deviceID := or_deviceID r;
     or_deviceIDDecoding := or_deviceIDDecoding r; or_state := or_state r;
     or_deadlineOffset := or_deadlineOffset r |}.

Definition with_deadline (deadline : Z) (r : ownedRequest) : ownedRequest :=
  {| or_transactionID := or_transactionID r; or_physicalRequestID := or_physicalRequestID r;
     or_generation := or_generation r; or_unitID := or_unitID r; or_kind := or_kind r;
     or_function := or_function r; or_read := or_read r; or_deviceID := or_deviceID r;
     or_deviceIDDecoding := or_deviceIDDecoding r; or_state := or_state r;
     or_deadlineOffset := deadline |}.

(** Writing through the pointer [inFlight] holds for the request. *)
Definition store_request (r : ownedRequest) (o : owner) : owner :=
  set_inFlight (<[or_transactionID r := r]> (ow_inFlight o)) o.

(** [delete(owner.inFlight, id)]. *)
Definition drop_request (id : Z) (o : owner) : owner :=
  set_inFlight (delete id (ow_inFlight o)) o.

Definition msize {A} (m : gmap Z A) : Z := Z.of_nat (size m).

(** The reservation of the request stored under a transaction identifier. *)
Definition reservation_as (o : owner) (transactionID : Z) (r : ownedRequest)
    : TCPReservation :=
  {| tv_owner := ow_self o; tv_transactionID := transactionID;
     tv_physicalRequestID := or_physicalRequestID r; tv_generation := or_generation r;
     tv_deadlineOffset := or_deadlineOffset r |}.

Definition reservation_of (o : owner) (r : ownedRequest) : TCPReservation :=
  reservation_as o (or_transactionID r) r.

(** * Construction and reservation *)

Definition owner_range (field : string) : ProtocolError :=
  protocolError ErrorInvalidRange 0 0 field (-1).

Definition owner_request_error (field : string) : ProtocolError :=
  protocolError ErrorInvalidRequest 0 0 field (-1).

Definition invalid_limits (limits : ConnectionLimits) : bool :=
  (cl_MaxInFlight limits <=? 0) || (cl_MaxInFlight limits >? 65536)
  || (cl_MaxTombstones limits <=? 0) || (cl_MaxTombstones limits >? 65536).

(** [self] is the address of the new owner. *)
Definition newTCPConnectionOwner (self : Z) (endpoint : string) (generation : Z)
    (limits : ConnectionLimits) : presult owner :=
  if String.eqb endpoint "" || (generation =? 0) || invalid_limits limits then
    Err (owner_request_error "connection_limits")
  else
    Ok {| ow_self := self; ow_endpoint := endpoint; ow_connectionID := 0;
          ow_generation := generation; ow_limits := limits; ow_closed := false;
          ow_retired := false; ow_nextTransactionID := 0; ow_nextPhysicalRequestID := 1;
          ow_nextWireResponseID := 1; ow_nextDiagnosticFrameID := 1; ow_inFlight := ∅;
          ow_tombstones := ∅; ow_closingTombstone := None; ow_earlyCompletions := ∅;
          ow_pendingFailures := []; ow_hasGenerationAllocator := false;
          ow_boundTransport := None; ow_pool := None |}.

(** The loop of [allocateTransactionID]: the allocator's next value and the
    identifier found within [attempts] tries. *)
Fixpoint allocate_loop (attempts : nat) (next : Z) (inFlight tombstones : gmap Z ownedRequest)
    : Z * option Z :=
  match attempts with
  | O => (next, None)
  | S attempts =>
      let candidate := next in
      let next := wrap16 (next + 1) in
      if bool_decide (is_Some (inFlight !! candidate)) then
        allocate_loop attempts next inFlight tombstones
      else if bool_decide (is_Some (tombstones !! candidate)) then
        allocate_loop attempts next inFlight tombstones
      else (next, Some candidate)
  end.

Definition allocateTransactionID (o : owner) : owner * option Z :=
  let '(next, found) :=
    allocate_loop (Z.to_nat 65536) (ow_nextTransactionID o) (ow_inFlight o)
      (ow_tombstones o) in
  (set_nextTransactionID next o, found).

Definition reserve (o : owner) (unitID : Z) (kind : requestKind)
    (read : ReadRegistersRequest) (deviceID : DeviceIDRequest) (deviceIDDecoding : Z)
    (deadlineOffset : Z) : owner * presult TCPReservation :=
  if ow_closed o || ow_retired o then (o, Err (owner_range "connection_closed"))
  else if unitID >? 247 then (o, Err (owner_request_error "unit_id"))
  else if msize (ow_inFlight o) + msize (ow_earlyCompletions o)
          >=? cl_MaxInFlight (ow_limits o) then
    (o, Err (owner_range "in_flight"))
  else
  let '(o, found) := allocateTransactionID o in
  match found with
  | None => (set_closed true o, Err (owner_range "transaction_identifiers"))
  | Some transactionID =>
  if ow_nextPhysicalRequestID o =? 0 then
    (set_closed true o, Err (owner_range "physical_request_id"))
  else
  let physicalRequestID := ow_nextPhysicalRequestID o in
  let o := set_nextPhysicalRequestID (wrap64 (physicalRequestID + 1)) o in
  let function :=
    match kind with
    | requestDeviceID => FunctionEncapsulatedInterface
    | requestRead => rr_function read
    end in
  let owned :=
    {| or_transactionID := transactionID; or_physicalRequestID := physicalRequestID;
       or_generation := ow_generation o; or_unitID := unitID; or_kind := kind;
       or_function := function; or_read := read; or_deviceID := deviceID;
       or_deviceIDDecoding := deviceIDDecoding; or_state := requestReserved;
       or_deadlineOffset := deadlineOffset |} in
  (store_request owned o, Ok (reservation_of o owned))
  end.

Definition reserveReadUntil (o : owner) (unitID : Z) (request : ReadRegistersRequest)
    (deadlineOffset : Z) : owner * presult TCPReservation :=
  match validateReadRegistersRequest request with
  | Some err => (o, Err err)
  | None =>
      reserve o unitID requestRead request zeroDeviceIDRequest DeviceIDDecodingStrict
        deadlineOffset
  end.

Definition ReserveRead (o : owner) (unitID : Z) (request : ReadRegistersRequest)
    : owner * presult TCPReservation := reserveReadUntil o unitID request 0.

Definition reserveDeviceIDUntil (o : owner) (unitID : Z) (request : DeviceIDRequest)
    (decoding deadlineOffset : Z) : owner * presult TCPReservation :=
  match validateDeviceIDRequest request with
  | Some err => (o, Err err)
  | None =>
      if negb (validDeviceIDDecoding decoding) then
        (o, Err (protocolError ErrorInvalidRequest FunctionEncapsulatedInterface 0
                   "device_id_decoding" (-1)))
      else
        reserve o unitID requestDeviceID zeroReadRegistersRequest request decoding
          deadlineOffset
  end.

Definition ReserveDeviceID (o : owner) (unitID : Z) (request : DeviceIDRequest)
    : owner * presult TCPReservation :=
  reserveDeviceIDUntil o unitID request DeviceIDDecodingStrict 0.

(** * The life of a reservation *)

Definition requestFor (o : owner) (reservation : TCPReservation) (state : requestState)
    : presult ownedRequest :=
  if negb (tv_owner reservation =? ow_self o)
     || negb (tv_generation reservation =? ow_generation o) then
    Err (owner_request_error "reservation_owner")
  else
  match ow_inFlight o !! tv_transactionID reservation with
  | None => Err (owner_request_error "reservation_state")
  | Some request =>
      if negb (or_physicalRequestID request =? tv_physicalRequestID reservation)
         || negb (bool_decide (or_state request = state)) then
        Err (owner_request_error "reservation_state")
      else Ok request
  end.

Definition rewindAllocator (transactionID : Z) (o : owner) : owner :=
  if wrap16 (ow_nextTransactionID o - 1) =? transactionID then
    set_nextTransactionID transactionID o
  else o.

Definition CancelBeforeWrite (o : owner) (reservation : TCPReservation)
    : owner * option ProtocolError :=
  match requestFor o reservation requestReserved with
  | Err err => (o, Some err)
  | Ok request =>
      (rewindAllocator (or_transactionID request) (drop_request (or_transactionID request) o),
       None)
  end.

Definition replaceReservedRead (o : owner) (reservation : TCPReservation)
    (request : ReadRegistersRequest) : owner * option ProtocolError :=
  match validateReadRegistersRequest request with
  | Some err => (o, Some err)
  | None =>
  match requestFor o reservation requestReserved with
  | Err err => (o, Some err)
  | Ok owned =>
      if negb (bool_decide (or_kind owned = requestRead))
         || negb (rr_function (or_read owned) =? rr_function request) then
        (o, Some (protocolError ErrorInvalidRequest (rr_function request) 0
                    "reserved_read_identity" (-1)))
      else (store_request (with_read request owned) o, None)
  end
  end.

Definition MarkWriteInvoked (o : owner) (reservation : TCPReservation)
    : owner * option ProtocolError :=
  match requestFor o reservation requestReserved with
  | Err err => (o, Some err)
  | Ok request => (store_request (with_state requestWriteInvoked request) o, None)
  end.

(** The order of [sort.Slice] on identifiers: physical identifier of the request
    in flight, then transaction identifier. *)
Definition in_flight_le (a b : Z * ownedRequest) : Prop :=
  or_physicalRequestID (snd a) < or_physicalRequestID (snd b) \/
  (or_physicalRequestID (snd a) = or_physicalRequestID (snd b) /\ fst a <= fst b).

#[export] Instance in_flight_le_dec a b : Decision (in_flight_le a b).
Proof. unfold in_flight_le. apply _. Defined.

Definition sortedInFlightTransactionIDs (o : owner) : list Z :=
  fst <$> merge_sort in_flight_le (map_to_list (ow_inFlight o)).

(** The loop of [failAllExcept] and [failAll] over sorted identifiers, each of
    which is in flight. *)
Fixpoint fail_loop (o : owner) (excluded : option Z) (ids : list Z)
    (failed : list TCPReservation) : owner * list TCPReservation :=
  match ids with
  | [] => (o, failed)
  | id :: ids =>
      if bool_decide (excluded = Some id) then fail_loop o excluded ids failed
      else
      match ow_inFlight o !! id with
      | None => fail_loop o excluded ids failed
      | Some request =>
          fail_loop (drop_request id o) excluded ids (failed ++ [reservation_as o id request])
      end
  end.

Definition failAllExcept (o : owner) (excludedTransactionID : Z)
    : owner * list TCPReservation :=
  fail_loop o (Some excludedTransactionID) (sortedInFlightTransactionIDs o) [].

Definition failAll (o : owner) : owner * list TCPReservation :=
  fail_loop o None (sortedInFlightTransactionIDs o) [].

Definition addTombstone (o : owner) (request : ownedRequest) : owner * bool :=
  if msize (ow_tombstones o) <? cl_MaxTombstones (ow_limits o) then
    (set_tombstones (<[or_transactionID request := request]> (ow_tombstones o)) o, true)
  else (o, false).

(** Tombstone the request, or keep it as the closing tombstone when full. *)
Definition tombstone_or_closing (o : owner) (request : ownedRequest) : owner :=
  let '(o, added) := addTombstone o request in
  if added then o else set_closingTombstone (Some request) o.

(** The results that leave the bytes on the wire unknown. *)
Definition ambiguous_transmit (result : TransmitResult) : bool :=
  match result with
  | TransmitPartial | TransmitIndeterminate | TransmitCancellationRace
  | TransmitAmbiguous => true
  | _ => false
  end.

(** The transition of a write of unknown extent: the request is tombstoned, its
    siblings fail and the socket closes. *)
Definition close_ambiguous (o : owner) (request : ownedRequest) : owner * OwnerTransition :=
  let o := tombstone_or_closing o request in
  let '(o, failed) := failAllExcept o (or_transactionID request) in
  (set_closed true (drop_request (or_transactionID request) o),
   {| ot_closeConnection := true; ot_failed := failed |}).

Definition recordTransmitUntil (o : owner) (reservation : TCPReservation)
    (result : TransmitResult) (responseDeadlineOffset : Z)
    : owner * (OwnerTransition * option ProtocolError) :=
  match ow_earlyCompletions o !! tv_physicalRequestID reservation with
  | Some transactionID =>
      if negb (tv_owner reservation =? ow_self o)
         || negb (tv_generation reservation =? ow_generation o)
         || negb (tv_transactionID reservation =? transactionID)
         || negb (bool_decide (result = TransmitComplete)) then
        (set_closed true o,
         ({| ot_closeConnection := true; ot_failed := [] |},
          Some (owner_request_error "early_response_transmit_result")))
      else
        (set_earlyCompletions
           (delete (tv_physicalRequestID reservation) (ow_earlyCompletions o)) o,
         (no_transition, None))
  | None =>
  match requestFor o reservation requestWriteInvoked with
  | Err err => (o, (no_transition, Some err))
  | Ok request =>
  match result with
  | TransmitProvableZero =>
      (rewindAllocator (or_transactionID request) (drop_request (or_transactionID request) o),
       (no_transition, None))
  | TransmitComplete =>
      let request :=
        if responseDeadlineOffset >? 0 then with_deadline responseDeadlineOffset request
        else request in
      (store_request (with_state requestWaiting request) o, (no_transition, None))
  | TransmitPartial | TransmitIndeterminate | TransmitCancellationRace
  | TransmitAmbiguous =>
      let '(o, transition) := close_ambiguous o request in (o, (transition, None))
  | TransmitOther _ =>
      (o, (no_transition,
           Some (protocolError ErrorInvalidRequest (or_function request) 0
                   "transmit_result" (-1))))
  end
  end
  end.

Definition RecordTransmit (o : owner) (reservation : TCPReservation)
    (result : TransmitResult) : owner * (OwnerTransition * option ProtocolError) :=
  recordTransmitUntil o reservation result (tv_deadlineOffset reservation).

(** * Abandonment *)

Definition expiry_le (a b : ownedRequest) : Prop :=
  or_deadlineOffset a < or_deadlineOffset b \/
  (or_deadlineOffset a = or_deadlineOffset b /\
   (or_physicalRequestID a < or_physicalRequestID b \/
    (or_physicalRequestID a = or_physicalRequestID b /\
     or_transactionID a <= or_transactionID b))).

#[export] Instance expiry_le_dec a b : Decision (expiry_le a b).
Proof. unfold expiry_le. apply _. Defined.

Definition expired_at (nowOffset : Z) (request : ownedRequest) : bool :=
  negb (negb (bool_decide (or_state request = requestWaiting))
        || (or_deadlineOffset request <=? 0)
        || (or_deadlineOffset request >? nowOffset)).

Definition requests (m : gmap Z ownedRequest) : list ownedRequest := snd <$> map_to_list m.

Definition expiry_candidates (o : owner) (nowOffset : Z) : list ownedRequest :=
  merge_sort expiry_le
    (base.filter (fun r => expired_at nowOffset r = true) (requests (ow_inFlight o))).

Fixpoint expire_loop (o : owner) (candidates : list ownedRequest)
    (expired : list TCPReservation)
    : owner * (list TCPReservation * OwnerTransition * option ProtocolError) :=
  match candidates with
  | [] => (o, (expired, no_transition, None))
  | request :: candidates =>
      let transactionID := or_transactionID request in
      let expired := expired ++ [reservation_of o request] in
      if msize (ow_tombstones o) >=? cl_MaxTombstones (ow_limits o) then
        let o := drop_request transactionID (set_closingTombstone (Some request) o) in
        let '(o, failed) := failAll o in
        (set_closed true (set_pendingFailures (ow_pendingFailures o ++ failed) o),
         (expired, {| ot_closeConnection := true; ot_failed := failed |},
          Some (protocolError ErrorInvalidRange (or_function request) 0 "tombstones" (-1))))
      else
        let o := fst (addTombstone o request) in
        expire_loop (drop_request transactionID o) candidates expired
  end.

Definition invalidOwner : ProtocolError := owner_request_error "connection_owner".

Definition abandonExpired (o : owner) (nowOffset : Z)
    : owner * (list TCPReservation * OwnerTransition * option ProtocolError) :=
  if nowOffset <? 0 then (o, ([], no_transition, Some invalidOwner))
  else expire_loop o (expiry_candidates o nowOffset) [].

Definition responseDeadline (o : owner) (reservation : TCPReservation) : option Z :=
  if negb (tv_owner reservation =? ow_self o) then None
  else
  match ow_inFlight o !! tv_transactionID reservation with
  | None => None
  | Some request =>
      if negb (or_physicalRequestID request =? tv_physicalRequestID reservation)
         || negb (or_generation request =? tv_generation reservation)
         || negb (bool_decide (or_state request = requestWaiting))
         || (or_deadlineOffset request <=? 0) then None
      else Some (or_deadlineOffset request)
  end.

Definition AbandonAfterWrite (o : owner) (reservation : TCPReservation)
    (reason : AbandonReason) : owner * (OwnerTransition * option ProtocolError) :=
  if negb (bool_decide (reason = AbandonTimeout))
     && negb (bool_decide (reason = AbandonCancellation)) then
    (o, (no_transition, Some (owner_request_error "abandon_reason")))
  else
  match requestFor o reservation requestWaiting with
  | Ok request =>
      if msize (ow_tombstones o) >=? cl_MaxTombstones (ow_limits o) then
        let o := set_closingTombstone (Some request) o in
        let '(o, failed) := failAllExcept o (or_transactionID request) in
        let o := set_pendingFailures (ow_pendingFailures o ++ failed) o in
        (set_closed true (drop_request (or_transactionID request) o),
         ({| ot_closeConnection := true; ot_failed := [] |},
          Some (protocolError ErrorInvalidRange (or_function request) 0 "tombstones" (-1))))
      else
        (drop_request (or_transactionID request) (fst (addTombstone o request)),
         (no_transition, None))
  | Err _ =>
  match requestFor o reservation requestWriteInvoked with
  | Err err => (o, (no_transition, Some err))
  | Ok request =>
      let '(o, transition) := close_ambiguous o request in (o, (transition, None))
  end
  end.

Definition DrainFailedReservations (o : owner) : owner * list TCPReservation :=
  (set_pendingFailures [] o, ow_pendingFailures o).

(** * Encoding a reservation *)

Definition wireIdentityFor (request : ownedRequest) : reservationWireIdentity :=
  match or_kind request with
  | requestRead =>
      {| wi_function := or_function request; wi_table := rr_table (or_read request);
         wi_offset := rr_offset (or_read request);
         wi_quantity := rr_quantity (or_read request); wi_unitID := or_unitID request |}
  | requestDeviceID =>
      {| wi_function := or_function request; wi_table := NoTable; wi_offset := 0;
         wi_quantity := 0; wi_unitID := or_unitID request |}
  end.

(** The method [reservationWireIdentity]. *)
Definition reservation_identity (o : owner) (reservation : TCPReservation)
    : presult reservationWireIdentity :=
  match requestFor o reservation requestReserved with
  | Err err => Err err
  | Ok request => Ok (wireIdentityFor request)
  end.

(** The ADU, or the encoder's error, with the identity of the request. *)
Definition encodeReservation (o : owner) (reservation : TCPReservation)
    : presult (presult (list Z) * reservationWireIdentity) :=
  match requestFor o reservation requestReserved with
  | Err err => Err err
  | Ok request =>
      let identity := wireIdentityFor request in
      match or_kind request with
      | requestRead =>
          Ok (EncodeTCPReadADU (or_transactionID request) (or_unitID request)
                (or_read request), identity)
      | requestDeviceID =>
          Ok (EncodeTCPDeviceIDAccessADU (or_transactionID request) (or_unitID request)
                (or_deviceID request), identity)
      end
  end.

Definition matchesReadReservation (o : owner) (reservation : TCPReservation)
    (endpoint : string) (generation unitID : Z) (request : ReadRegistersRequest) : bool :=
  match requestFor o reservation requestReserved with
  | Err _ => false
  | Ok owned =>
      String.eqb (ow_endpoint o) endpoint && (ow_generation o =? generation)
      && (or_unitID owned =? unitID) && bool_decide (or_kind owned = requestRead)
      && bool_decide (or_read owned = request)
  end.

(** * Correlation *)

Definition candidateMatches (request : ownedRequest) (adu : TCPADU) : bool :=
  if negb (ta_unitID adu =? or_unitID request) || (zlen (ta_pdu adu) =? 0) then false
  else
    let received := ta_pdu adu !!! 0%nat in
    (received =? or_function request) || (received =? Z.lor (or_function request) 0x80).

(** Every decoder hands back the zero value with an error.  The third [default]
    of the source is for a kind no request has. *)
Definition validateOwnedResponse (request : ownedRequest) (pdu : list Z)
    : presult decodedOwnedResponse :=
  match or_kind request with
  | requestRead =>
      match DecodeReadRegistersResponse (or_read request) pdu with
      | Err err => Err err
      | Ok response =>
          Ok {| do_words := rs_Words response; do_segment := None; do_page := None |}
      end
  | requestDeviceID =>
      if or_deviceIDDecoding request =? DeviceIDDecodingTolerant then
        match DecodeDeviceIDPage (or_deviceID request) pdu with
        | (_, Some err) => Err err
        | (page, None) =>
            Ok {| do_words := []; do_segment := None; do_page := Some page |}
        end
      else
        match DecodeDeviceIDSegment (or_deviceID request) pdu with
        | Err err => Err err
        | Ok segment =>
            Ok {| do_words := []; do_segment := Some segment; do_page := None |}
        end
  end.

Definition received_function (adu : TCPADU) : Z :=
  if zlen (ta_pdu adu) >? 0 then ta_pdu adu !!! 0%nat else 0.

Definition wireProvenance (o : owner) (request : ownedRequest) (adu : TCPADU)
    : WireProvenance :=
  match or_kind request with
  | requestRead =>
      {| wp_Endpoint := ow_endpoint o; wp_ConnectionID := ow_connectionID o;
         wp_Transport := TransportTCP; wp_TransportGeneration := or_generation request;
         wp_UnitID := or_unitID request; wp_RequestedFunction := or_function request;
         wp_ReceivedFunction := received_function adu;
         wp_Table := rr_table (or_read request); wp_Offset := rr_offset (or_read request);
         wp_Quantity := rr_quantity (or_read request);
         wp_DeviceIDAccess := 0; wp_DeviceIDObjectID := 0 |}
  | requestDeviceID =>
      {| wp_Endpoint := ow_endpoint o; wp_ConnectionID := ow_connectionID o;
         wp_Transport := TransportTCP; wp_TransportGeneration := or_generation request;
         wp_UnitID := or_unitID request; wp_RequestedFunction := or_function request;
         wp_ReceivedFunction := received_function adu;
         wp_Table := NoTable; wp_Offset := 0; wp_Quantity := 0;
         wp_DeviceIDAccess := dr_access (or_deviceID request);
         wp_DeviceIDObjectID := dr_objectID (or_deviceID request) |}
  end.

Definition newWireResponse (o : owner) (outcome : WireOutcome) (deliverable : bool)
    (request : ownedRequest) (adu : TCPADU) (decoded : decodedOwnedResponse)
    : owner * WireResponse :=
  (set_nextWireResponseID (wrap64 (ow_nextWireResponseID o + 1)) o,
   {| wr_owner := Some (ow_self o); wr_outcome := outcome; wr_deliverable := deliverable;
      wr_wireResponseID := ow_nextWireResponseID o; wr_diagnosticFrameID := 0;
      wr_physicalRequestID := or_physicalRequestID request;
      wr_provenance := Some (wireProvenance o request adu); wr_diagnostic := None;
      wr_decoded := decoded; wr_bytes := ta_raw adu |}).

Definition newDiagnosticFrame (o : owner) (receivedGeneration : Z) (adu : TCPADU)
    : owner * (WireResponse * list ProtocolError) :=
  if ow_nextDiagnosticFrameID o =? 0 then
    (set_closed true o,
     ({| wr_owner := None; wr_outcome := WireDroppedUncorrelated; wr_deliverable := false;
         wr_wireResponseID := 0; wr_diagnosticFrameID := 0; wr_physicalRequestID := 0;
         wr_provenance := None; wr_diagnostic := None; wr_decoded := no_decoded;
         wr_bytes := [] |}, [owner_range "diagnostic_frame_id"]))
  else
    (set_nextDiagnosticFrameID (wrap64 (ow_nextDiagnosticFrameID o + 1)) o,
     ({| wr_owner := Some (ow_self o); wr_outcome := WireDroppedUncorrelated;
         wr_deliverable := false; wr_wireResponseID := 0;
         wr_diagnosticFrameID := ow_nextDiagnosticFrameID o; wr_physicalRequestID := 0;
         wr_provenance := None;
         wr_diagnostic :=
           Some {| dp_Endpoint := ow_endpoint o; dp_ConnectionID := ow_connectionID o;
                   dp_ReceivedTransportGeneration := receivedGeneration;
                   dp_ActiveTransportGeneration := ow_generation o;
                   dp_UnitID := ta_unitID adu;
                   dp_ReceivedFunction := received_function adu |};
         wr_decoded := no_decoded; wr_bytes := ta_raw adu |}, [])).

Definition correlateActive (o : owner) (request : ownedRequest) (adu : TCPADU)
    : owner * (WireResponse * list ProtocolError) :=
  let decoded := validateOwnedResponse request (ta_pdu adu) in
  let o := drop_request (or_transactionID request) o in
  match decoded with
  | Ok decoded =>
      let '(o, response) := newWireResponse o WireSuccessfulData true request adu decoded in
      (o, (response, []))
  | Err err =>
      let outcome :=
        if bool_decide (pe_Kind err = ErrorExceptionResponse) then WireProtocolException
        else WireMalformedResponse in
      let '(o, response) := newWireResponse o outcome false request adu no_decoded in
      (o, (response, [err]))
  end.

(** The tombstone an ADU may answer: an abandoned request or the closing one. *)
Definition tombstone_for (o : owner) (transactionID : Z) : option ownedRequest :=
  match ow_tombstones o !! transactionID with
  | Some tombstone => Some tombstone
  | None =>
      match ow_closingTombstone o with
      | Some closing =>
          if or_transactionID closing =? transactionID then Some closing else None
      | None => None
      end
  end.

Definition correlate_tombstone (o : owner) (generation : Z) (adu : TCPADU)
    : owner * (WireResponse * list ProtocolError) :=
  match tombstone_for o (ta_transactionID adu) with
  | None => newDiagnosticFrame o generation adu
  | Some tombstone =>
      if negb (candidateMatches tombstone adu) then newDiagnosticFrame o generation adu
      else
      match validateOwnedResponse tombstone (ta_pdu adu) with
      | Ok decoded =>
          let '(o, response) :=
            newWireResponse o WireLateAfterAbandonment false tombstone adu decoded in
          (o, (response, []))
      | Err err =>
          if bool_decide (pe_Kind err = ErrorMalformedResponse) then
            let '(o, response) :=
              newWireResponse o WireMalformedResponse false tombstone adu no_decoded in
            (o, (response, [err]))
          else
            let '(o, response) :=
              newWireResponse o WireLateAfterAbandonment false tombstone adu no_decoded in
            (o, (response, []))
      end
  end.

(** The errors are those [errors.Join] keeps. *)
Definition Correlate (o : owner) (generation : Z) (adu : TCPADU)
    : owner * (WireResponse * list ProtocolError) :=
  if negb (generation =? ow_generation o) then newDiagnosticFrame o generation adu
  else if ow_nextWireResponseID o =? 0 then
    let '(o, (response, errs)) := newDiagnosticFrame (set_closed true o) generation adu in
    (o, (response, errs ++ [owner_range "wire_response_id"]))
  else
  match ow_inFlight o !! ta_transactionID adu with
  | Some request =>
      if negb (ow_closed o) then
        if (negb (bool_decide (or_state request = requestWaiting))
            && negb (bool_decide (or_state request = requestWriteInvoked)))
           || negb (candidateMatches request adu) then
          newDiagnosticFrame o generation adu
        else
          let '(o, result) := correlateActive o request adu in
          if bool_decide (or_state request = requestWriteInvoked) then
            (set_earlyCompletions
               (<[or_physicalRequestID request := or_transactionID request]>
                  (ow_earlyCompletions o)) o, result)
          else (o, result)
      else correlate_tombstone o generation adu
  | None => correlate_tombstone o generation adu
  end.

(** * Transport binding and closing *)

Definition bindTransport (o : owner) (transport : Z) : owner * presult Z :=
  if ow_closed o || ow_retired o || bool_decide (is_Some (ow_boundTransport o)) then
    (o, Err (owner_request_error "transport_binding"))
  else (set_boundTransport (Some transport) o, Ok (ow_generation o)).

(** The tombstones and the early completions are made anew. *)
Definition clear_socket_state (o : owner) : owner :=
  set_earlyCompletions ∅ (set_closingTombstone None (set_tombstones ∅ o)).

Definition loseTransport (o : owner) (transport : Z) : owner * OwnerTransition :=
  if negb (bool_decide (ow_boundTransport o = Some transport)) then (o, no_transition)
  else
    let o := set_boundTransport None o in
    let '(o, failed) := failAll o in
    let o := set_closed true o in
    let o := if bool_decide (is_Some (ow_pool o)) then set_retired true o else o in
    (clear_socket_state o, {| ot_closeConnection := true; ot_failed := failed |}).

Definition transportCurrent (o : owner) (transport generation : Z) : bool :=
  negb (ow_closed o) && negb (ow_retired o)
  && bool_decide (ow_boundTransport o = Some transport) && (ow_generation o =? generation).

(** [Close] and [retire] also return the transport the caller closes. *)
Definition Close (o : owner) : owner * option Z :=
  let transport := ow_boundTransport o in
  let '(o, failed) := failAll o in
  let o := set_closed true o in
  let o := set_pendingFailures (ow_pendingFailures o ++ failed) o in
  (set_boundTransport None (clear_socket_state o), transport).

Definition retire (o : owner) : owner * option Z :=
  let transport := ow_boundTransport o in
  let o := set_closed true (set_retired true (set_pool None (set_boundTransport None o))) in
  let '(o, failed) := failAll o in
  let o := set_pendingFailures (ow_pendingFailures o ++ failed) o in
  (clear_socket_state o, transport).

(** [allocated] is what the pool's allocator returns; it is used when the owner
    has one. *)
Definition Reconnect (o : owner) (allocated : Z) : owner * Z :=
  if negb (ow_closed o) || ow_retired o || bool_decide (is_Some (ow_boundTransport o)) then
    (o, ow_generation o)
  else
    let nextGeneration :=
      if ow_hasGenerationAllocator o then allocated else wrap64 (ow_generation o + 1) in
    if nextGeneration =? 0 then (o, ow_generation o)
    else
      let o := set_closed false (set_generation nextGeneration o) in
      let o := set_inFlight ∅ (set_nextTransactionID 0 o) in
      (clear_socket_state o, nextGeneration).

Definition hasTombstones (o : owner) : bool :=
  (msize (ow_tombstones o) >? 0) || bool_decide (is_Some (ow_closingTombstone o)).
