(* ===== verification/TcpOwnerFacts.v ===== *)
(** Correctness of the connection owner (tcp_owner.go): identifiers are fresh
    and never clash, the bounds on requests and tombstones hold in every
    reachable state, a request is delivered at most once and only to the
    generation that sent it, and closing fails every sibling exactly once, in
    order. *)

From S2P Require Import Prelude Pdu DeviceId DeviceIdTolerant TcpAdu TcpOwner.

(** * Sorting and failing *)

#[export] Instance in_flight_le_total : Total in_flight_le.
Proof. intros a b. unfold in_flight_le. lia. Qed.

#[export] Instance in_flight_le_trans : Transitive in_flight_le.
Proof. intros a b c. unfold in_flight_le. lia. Qed.

(** The pairs of [inFlight] in the order the code visits them. *)
Definition sorted_in_flight (o : owner) : list (Z * ownedRequest) :=
  merge_sort in_flight_le (map_to_list (ow_inFlight o)).

Lemma sorted_in_flight_elem o id r :
  (id, r) ∈ sorted_in_flight o <-> ow_inFlight o !! id = Some r.
Proof.
  unfold sorted_in_flight. rewrite merge_sort_Permutation. apply elem_of_map_to_list.
Qed.

Lemma sorted_in_flight_NoDup o : NoDup (fst <$> sorted_in_flight o).
Proof.
  unfold sorted_in_flight. rewrite merge_sort_Permutation. apply NoDup_fst_map_to_list.
Qed.

(** The reservations of the pairs not excluded. *)
Definition failures (o : owner) (excluded : option Z) (l : list (Z * ownedRequest))
    : list TCPReservation :=
  (fun p => reservation_as o (fst p) (snd p)) <$>
    base.filter (fun p => Some (fst p) <> excluded) l.

Lemma fail_loop_pairs excluded l o failed :
  (forall id r, (id, r) ∈ l -> ow_inFlight o !! id = Some r) ->
  NoDup (fst <$> l) ->
  exists m, fail_loop o excluded (fst <$> l) failed
            = (set_inFlight m o, failed ++ failures o excluded l) /\
    forall i, m !! i = if decide (i ∈ fst <$> l /\ Some i <> excluded) then None
                       else ow_inFlight o !! i.
Proof.
  revert o failed. induction l as [|[id r] l IH]; intros o failed Hl Hd.
  { exists (ow_inFlight o). cbn. rewrite app_nil_r. split; [by destruct o|].
    intros i. case_decide as H; [|done]. destruct H as [H _]. by apply elem_of_nil in H. }
  rewrite fmap_cons in Hd |- *. apply NoDup_cons in Hd as [Hid Hd].
  cbn [fail_loop fst]. unfold failures. rewrite filter_cons. cbn [fst].
  destruct (bool_decide (excluded = Some id)) eqn:Ee; bool_hyps.
  - destruct (IH o failed) as (m & -> & Hm); [intros; apply Hl; by right|done|].
    exists m. rewrite decide_False by (intros H; by apply H). split; [done|].
    intros i. rewrite Hm. destruct (decide (i = id)) as [->|].
    + rewrite !decide_False; [done|by intros [? []]|by intros [? []]].
    + apply decide_ext. rewrite elem_of_cons. tauto.
  - rewrite (Hl id r) by left.
    destruct (IH (drop_request id o) (failed ++ [reservation_as o id r])) as (m & -> & Hm).
    + intros id' r' Hin. cbn. rewrite lookup_delete_ne; [apply Hl; by right|].
      intros <-. apply Hid, list_elem_of_fmap. by exists (id, r').
    + done.
    + exists m. rewrite decide_True by congruence. split.
      { by rewrite <- app_assoc. }
      intros i. rewrite Hm. cbn. destruct (decide (i = id)) as [->|].
      * rewrite lookup_delete_eq. rewrite decide_False by (intros [? _]; by apply Hid).
        rewrite decide_True; [done|]. split; [left|congruence].
      * rewrite lookup_delete_ne by done.
        apply decide_ext. rewrite elem_of_cons. tauto.
Qed.

Lemma failAll_spec o :
  failAll o = (set_inFlight ∅ o, failures o None (sorted_in_flight o)).
Proof.
  unfold failAll, sortedInFlightTransactionIDs. fold (sorted_in_flight o).
  destruct (fail_loop_pairs None (sorted_in_flight o) o []) as (m & -> & Hm).
  - intros id r. apply sorted_in_flight_elem.
  - apply sorted_in_flight_NoDup.
  - f_equal. f_equal. apply map_eq. intros i. rewrite Hm, lookup_empty.
    case_decide as Hd; [done|]. destruct (ow_inFlight o !! i) as [r|] eqn:E; [|done].
    destruct Hd. split; [|done]. apply list_elem_of_fmap. exists (i, r).
    split; [done|]. by apply sorted_in_flight_elem.
Qed.

Lemma failAllExcept_spec o id r :
  ow_inFlight o !! id = Some r ->
  failAllExcept o id
  = (set_inFlight {[id := r]} o, failures o (Some id) (sorted_in_flight o)).
Proof.
  intros Hr. unfold failAllExcept, sortedInFlightTransactionIDs. fold (sorted_in_flight o).
  destruct (fail_loop_pairs (Some id) (sorted_in_flight o) o []) as (m & -> & Hm).
  - intros id' r'. apply sorted_in_flight_elem.
  - apply sorted_in_flight_NoDup.
  - f_equal. f_equal. apply map_eq. intros i. rewrite Hm.
    destruct (decide (i = id)) as [->|Hne].
    + rewrite lookup_singleton_eq, decide_False; [done|]. by intros [_ []].
    + rewrite lookup_singleton_ne by done.
      case_decide as Hd; [done|]. destruct (ow_inFlight o !! i) as [r'|] eqn:E; [|done].
      destruct Hd. split; [|congruence]. apply list_elem_of_fmap. exists (i, r').
      split; [done|]. by apply sorted_in_flight_elem.
Qed.

(** * The invariant *)

(** Physical identifiers below this have been handed out; the counter stops at
    zero after the last one. *)
Definition physical_bound (o : owner) : Z :=
  if ow_nextPhysicalRequestID o =? 0 then 2 ^ 64 else ow_nextPhysicalRequestID o.

Definition request_ok (o : owner) (id : Z) (r : ownedRequest) : Prop :=
  or_transactionID r = id /\ u16 id /\ or_generation r = ow_generation o /\
  1 <= or_physicalRequestID r < physical_bound o.

Record owner_ok (o : owner) : Prop := mk_owner_ok {
  ok_limits : invalid_limits (ow_limits o) = false;
  ok_next_tid : u16 (ow_nextTransactionID o);
  ok_next_phys : u64 (ow_nextPhysicalRequestID o);
  ok_inFlight : map_Forall (request_ok o) (ow_inFlight o);
  ok_tombstones : map_Forall (request_ok o) (ow_tombstones o);
  ok_disjoint : ow_inFlight o ##ₘ ow_tombstones o;
  ok_phys : forall i j r s,
    ow_inFlight o !! i = Some r -> ow_inFlight o !! j = Some s ->
    or_physicalRequestID r = or_physicalRequestID s -> i = j;
  ok_early : forall p t i r,
    ow_earlyCompletions o !! p = Some t -> ow_inFlight o !! i = Some r ->
    or_physicalRequestID r <> p;
  ok_early_bound : forall p t,
    ow_earlyCompletions o !! p = Some t -> 1 <= p < physical_bound o;
  ok_room : msize (ow_inFlight o) + msize (ow_earlyCompletions o)
            <= cl_MaxInFlight (ow_limits o);
  ok_tomb_room : msize (ow_tombstones o) <= cl_MaxTombstones (ow_limits o)
}.

(** Owners that agree on every field the invariant mentions. *)
Definition same_core (o o' : owner) : Prop :=
  ow_limits o' = ow_limits o /\ ow_generation o' = ow_generation o /\
  ow_nextPhysicalRequestID o' = ow_nextPhysicalRequestID o /\
  ow_inFlight o' = ow_inFlight o /\ ow_tombstones o' = ow_tombstones o /\
  ow_earlyCompletions o' = ow_earlyCompletions o /\
  u16 (ow_nextTransactionID o').

Lemma same_core_ok o o' : same_core o o' -> owner_ok o -> owner_ok o'.
Proof.
  intros (El & Eg & Ep & Ei & Et & Ee & Hn) [].
  assert (Eb : physical_bound o' = physical_bound o) by (unfold physical_bound; by rewrite Ep).
  assert (Er : forall id r, request_ok o id r -> request_ok o' id r)
    by (unfold request_ok; intros ? ?; by rewrite Eb, Eg).
  split; rewrite ?El, ?Eg, ?Ep, ?Ei, ?Et, ?Ee, ?Eb; try done;
    eapply map_Forall_impl; eauto.
Qed.

(** Fields outside the core. *)
Ltac core :=
  eapply same_core_ok; [|eassumption];
  unfold same_core; cbn; conj; try done; try (by eapply ok_next_tid).

Lemma msize_delete {A} (m : gmap Z A) i : msize (delete i m) <= msize m.
Proof.
  unfold msize. destruct (m !! i) eqn:E.
  - rewrite map_size_delete_Some by eauto. lia.
  - by rewrite delete_id.
Qed.

Lemma msize_delete_Some {A} (m : gmap Z A) i x :
  m !! i = Some x -> msize (delete i m) = msize m - 1.
Proof.
  unfold msize. intros E.
  assert (size m <> 0%nat).
  { intros H. apply map_size_empty_inv in H as ->. by rewrite lookup_empty in E. }
  rewrite map_size_delete_Some by eauto. lia.
Qed.

Lemma msize_insert_None {A} (m : gmap Z A) i x :
  m !! i = None -> msize (<[i := x]> m) = msize m + 1.
Proof. unfold msize. intros E. rewrite map_size_insert_None by done. lia. Qed.

Lemma msize_insert_Some {A} (m : gmap Z A) i x y :
  m !! i = Some y -> msize (<[i := x]> m) = msize m.
Proof. unfold msize. intros E. rewrite map_size_insert_Some by eauto. done. Qed.

Lemma msize_nonneg {A} (m : gmap Z A) : 0 <= msize m.
Proof. unfold msize. lia. Qed.

(** A smaller set of requests in flight keeps the invariant. *)
Lemma ok_fewer o m :
  owner_ok o -> m ⊆ ow_inFlight o -> owner_ok (set_inFlight m o).
Proof.
  intros [] Hm. split; cbn; try done.
  - intros i r Hi. apply ok_inFlight0. by eapply lookup_weaken.
  - by eapply map_disjoint_weaken_l.
  - intros. eapply ok_phys0; eauto using lookup_weaken.
  - intros. eapply ok_early0; eauto using lookup_weaken.
  - unfold msize in *. apply map_subseteq_size in Hm. lia.
Qed.

Lemma ok_drop o id : owner_ok o -> owner_ok (drop_request id o).
Proof. intros. apply ok_fewer; [done|]. apply delete_subseteq. Qed.

(** Rewriting a request in flight in place. *)
Lemma ok_store o r r' :
  owner_ok o -> ow_inFlight o !! or_transactionID r = Some r ->
  or_transactionID r' = or_transactionID r ->
  or_physicalRequestID r' = or_physicalRequestID r ->
  or_generation r' = or_generation r ->
  owner_ok (store_request r' o).
Proof.
  intros [] Hr Et Ep Eg. unfold store_request. rewrite Et.
  assert (Hl : forall i s, <[or_transactionID r := r']> (ow_inFlight o) !! i = Some s ->
    exists s', ow_inFlight o !! i = Some s' /\
               or_physicalRequestID s = or_physicalRequestID s').
  { intros i s. rewrite lookup_insert_Some. intros [[<- <-]|[_ ?]]; eauto. }
  split; cbn; try done.
  - apply map_Forall_insert_2; [|done].
    pose proof (ok_inFlight0 _ _ Hr). unfold request_ok in *. by rewrite Et, Ep, Eg.
  - apply map_disjoint_insert_l_2; [|done].
    by eapply map_disjoint_Some_l.
  - intros i j s t Hi Hj. destruct (Hl _ _ Hi) as (s' & ? & ->), (Hl _ _ Hj) as (t' & ? & ->).
    eauto.
  - intros p t i s Hp Hi. destruct (Hl _ _ Hi) as (s' & ? & ->). eauto.
  - by erewrite msize_insert_Some.
Qed.

(** Abandoning a request in flight into a free tombstone. *)
Lemma ok_tombstone o r :
  owner_ok o -> ow_inFlight o !! or_transactionID r = Some r ->
  msize (ow_tombstones o) < cl_MaxTombstones (ow_limits o) ->
  owner_ok (drop_request (or_transactionID r)
              (set_tombstones (<[or_transactionID r := r]> (ow_tombstones o)) o)).
Proof.
  intros Ho Hr Ht. pose proof (ok_drop o (or_transactionID r) Ho) as [].
  unfold drop_request in *. cbn in *. pose proof (ok_inFlight o Ho _ _ Hr) as Hrok.
  split; cbn; try done.
  - by apply map_Forall_insert_2.
  - apply map_disjoint_insert_r_2; [by apply lookup_delete_eq|done].
  - rewrite msize_insert_None; [lia|].
    eapply map_disjoint_Some_l; [by apply ok_disjoint|done].
Qed.

Lemma requestFor_ok o v state r :
  requestFor o v state = Ok r ->
  ow_inFlight o !! tv_transactionID v = Some r /\
  or_physicalRequestID r = tv_physicalRequestID v /\ or_state r = state /\
  tv_owner v = ow_self o /\ tv_generation v = ow_generation o.
Proof.
  unfold requestFor. case_test; [done|]. bool_hyps.
  destruct (_ !! _) as [r'|] eqn:E; [|done]. case_test; [done|]. bool_hyps.
  intros [= ->]. done.
Qed.

Lemma requestFor_lookup o v state r :
  owner_ok o -> requestFor o v state = Ok r ->
  ow_inFlight o !! or_transactionID r = Some r /\ or_transactionID r = tv_transactionID v.
Proof.
  intros Ho (Hl & _)%requestFor_ok. pose proof (ok_inFlight o Ho _ _ Hl) as [E _].
  by rewrite E.
Qed.

(** * Identifier allocation *)

Lemma wrap16_add a b : wrap16 (wrap16 a + b) = wrap16 (a + b).
Proof. unfold wrap16. by rewrite Zplus_mod_idemp_l. Qed.

Definition taken (m t : gmap Z ownedRequest) (id : Z) : Prop :=
  is_Some (m !! id) \/ is_Some (t !! id).

Lemma allocate_loop_spec n next m t :
  u16 next ->
  u16 (fst (allocate_loop n next m t)) /\
  match snd (allocate_loop n next m t) with
  | Some id => u16 id /\ ~ taken m t id
  | None => forall k, 0 <= k < Z.of_nat n -> taken m t (wrap16 (next + k))
  end.
Proof.
  revert next. induction n as [|n IH]; intros next Hn; [cbn; split; [done|lia]|].
  cbn [allocate_loop]. cbv zeta.
  destruct (IH (wrap16 (next + 1)) (wrap16_u16 _)) as [IH1 IH2].
  assert (Hnone : taken m t next ->
    (forall k, 0 <= k < Z.of_nat n -> taken m t (wrap16 (wrap16 (next + 1) + k))) ->
    forall k, 0 <= k < Z.of_nat (S n) -> taken m t (wrap16 (next + k))).
  { intros H0 Hk k ?. destruct (Z.eqb_spec k 0) as [->|].
    - by rewrite Z.add_0_r, wrap16_id.
    - replace (next + k) with ((next + 1) + (k - 1)) by lia.
      rewrite <- wrap16_add. apply Hk. lia. }
  destruct (bool_decide (is_Some (m !! next))) eqn:E1; bool_hyps.
  { split; [done|]. destruct (snd _); [done|]. apply Hnone; [by left|done]. }
  destruct (bool_decide (is_Some (t !! next))) eqn:E2; bool_hyps.
  { split; [done|]. destruct (snd _); [done|]. apply Hnone; [by right|done]. }
  cbn. split; [apply wrap16_u16|]. split; [done|]. by intros [|].
Qed.

(** The allocator advances its own counter only, and finds a free identifier
    unless all 65536 are taken. *)
Lemma allocate_spec o :
  owner_ok o ->
  exists next found, allocateTransactionID o = (set_nextTransactionID next o, found) /\
    u16 next /\
    match found with
    | Some id => u16 id /\ ~ taken (ow_inFlight o) (ow_tombstones o) id
    | None => forall id, u16 id -> taken (ow_inFlight o) (ow_tombstones o) id
    end.
Proof.
  intros Ho. unfold allocateTransactionID.
  pose proof (allocate_loop_spec (Z.to_nat 65536) (ow_nextTransactionID o) (ow_inFlight o)
                (ow_tombstones o) (ok_next_tid o Ho)) as [Hn Hs].
  destruct (allocate_loop _ _ _ _) as [next found]. cbn [fst snd] in *.
  exists next, found. conj; [done..|]. destruct found as [id|]; [done|].
  intros id Hid. specialize (Hs (wrap16 (id - ow_nextTransactionID o))).
  rewrite Z.add_comm, wrap16_add, Z.sub_add, (wrap16_id id) in Hs by done. apply Hs.
  pose proof (wrap16_u16 (id - ow_nextTransactionID o)). unfold u16 in *. lia.
Qed.

Lemma wrap64_next p : u64 p -> p <> 0 ->
  (if wrap64 (p + 1) =? 0 then 2 ^ 64 else wrap64 (p + 1)) = p + 1.
Proof.
  unfold u64. intros Hp Hne. destruct (Z.eqb_spec p MaxUint64) as [->|]; [done|].
  unfold MaxUint64 in *. rewrite wrap64_id by (unfold u64; lia).
  destruct (_ =? _) eqn:E; bool_hyps; lia.
Qed.

(** What a successful reservation is. *)
Lemma reserve_ok o unit kind read dev dec deadline o' v :
  owner_ok o -> reserve o unit kind read dev dec deadline = (o', Ok v) ->
  ~ taken (ow_inFlight o) (ow_tombstones o) (tv_transactionID v) /\
  u16 (tv_transactionID v) /\
  tv_physicalRequestID v = physical_bound o /\ physical_bound o' = physical_bound o + 1 /\
  tv_deadlineOffset v = deadline /\
  exists r, ow_inFlight o' = <[tv_transactionID v := r]> (ow_inFlight o) /\
    requestFor o' v requestReserved = Ok r /\
    or_unitID r = unit /\ or_kind r = kind /\ or_read r = read /\ or_deviceID r = dev /\
    or_physicalRequestID r = tv_physicalRequestID v.
Proof.
  intros Ho. unfold reserve. repeat (case_test; [done|]). bool_hyps.
  destruct (allocate_spec o Ho) as (next & [id|] & -> & _ & Hs); [|done].
  cbn [ow_nextPhysicalRequestID set_nextTransactionID].
  destruct (_ =? 0) eqn:E0; [done|]. bool_hyps. intros [= <- <-]. cbn.
  unfold physical_bound. cbn. rewrite wrap64_next by (apply Ho || done).
  rewrite (proj2 (Z.eqb_neq _ _) E0).
  conj; try done; [apply Hs..|]. eexists. split; [done|]. split; [|done].
  unfold requestFor. cbn. by rewrite !Z.eqb_refl, lookup_insert_eq, !Z.eqb_refl.
Qed.

Lemma reserve_succeeds o unit kind read dev dec deadline :
  owner_ok o ->
  (exists v, snd (reserve o unit kind read dev dec deadline) = Ok v) <->
  ow_closed o = false /\ ow_retired o = false /\ unit <= 247 /\
  msize (ow_inFlight o) + msize (ow_earlyCompletions o) < cl_MaxInFlight (ow_limits o) /\
  (exists id, u16 id /\ ~ taken (ow_inFlight o) (ow_tombstones o) id) /\
  ow_nextPhysicalRequestID o <> 0.
Proof.
  intros Ho. unfold reserve.
  destruct (allocate_spec o Ho) as (next & found & -> & _ & Hs). split.
  - do 3 (case_test; [intros [? [=]]|]). bool_hyps.
    destruct found as [id|]; [|intros [? [=]]].
    cbn [ow_nextPhysicalRequestID set_nextTransactionID].
    case_test; [intros [? [=]]|]. bool_hyps. intros _. conj; try done. by exists id.
  - intros (-> & -> & Hu & Hroom & (id & Hid & Hfree) & Hp). cbn [orb].
    test_false (unit >? 247).
    replace (_ >=? cl_MaxInFlight (ow_limits o)) with false; [|symmetry; bool_goal; lia].
    destruct found as [id'|]; [|by destruct Hfree; apply Hs].
    cbn [ow_nextPhysicalRequestID set_nextTransactionID].
    rewrite (proj2 (Z.eqb_neq _ _) Hp). eexists. reflexivity.
Qed.

Lemma reserve_inv o unit kind read dev dec deadline :
  owner_ok o -> owner_ok (fst (reserve o unit kind read dev dec deadline)).
Proof.
  intros Ho. unfold reserve. repeat (case_test; [done|]). bool_hyps.
  destruct (allocate_spec o Ho) as (next & [id|] & -> & Hn & Hs); [|cbn [fst]; core].
  cbn [ow_nextPhysicalRequestID set_nextTransactionID].
  destruct (_ =? 0) eqn:E0; bool_hyps; cbn [fst]; [core|].
  destruct Hs as [Hid Hfree]. unfold taken in Hfree.
  assert (Hi : ow_inFlight o !! id = None) by (apply eq_None_not_Some; tauto).
  assert (Ht : ow_tombstones o !! id = None) by (apply eq_None_not_Some; tauto).
  set (r := {| or_transactionID := id |}). set (o' := store_request _ _).
  destruct Ho. pose proof (wrap64_next _ ok_next_phys0 E0) as Ew.
  assert (Eb : physical_bound o' = physical_bound o + 1).
  { unfold physical_bound, o'. cbn. by rewrite Ew, (proj2 (Z.eqb_neq _ _) E0). }
  assert (Ep : or_physicalRequestID r = physical_bound o).
  { unfold physical_bound. cbn. by rewrite (proj2 (Z.eqb_neq _ _) E0). }
  assert (Hup : forall i s, request_ok o i s -> request_ok o' i s).
  { unfold request_ok. rewrite Eb. cbn. intros i s ?. intuition lia. }
  assert (Hold : forall i s, ow_inFlight o !! i = Some s ->
            or_physicalRequestID s < physical_bound o).
  { intros i s Hs. apply ok_inFlight0 in Hs. unfold request_ok in Hs. lia. }
  split; cbn -[physical_bound]; try done.
  - apply wrap64_u64.
  - apply map_Forall_insert_2; [|by eapply map_Forall_impl].
    unfold request_ok. rewrite Eb, Ep. cbn. conj; try done; [|lia].
    rewrite <- Ep. cbn. unfold u64 in *. lia.
  - by eapply map_Forall_impl.
  - by apply map_disjoint_insert_l_2.
  - intros i j s s' Hs Hs' Eq. apply lookup_insert_Some in Hs as [[<- <-]|[? Hs]];
      apply lookup_insert_Some in Hs' as [[<- <-]|[? Hs']]; try done.
    + apply Hold in Hs'. lia.
    + apply Hold in Hs. lia.
    + eauto.
  - intros p t i s Hp [[<- <-]|[? Hs]]%lookup_insert_Some; [|eauto].
    apply ok_early_bound0 in Hp. lia.
  - intros p t Hp. rewrite Eb. apply ok_early_bound0 in Hp. lia.
  - rewrite msize_insert_None by done. lia.
Qed.

(** * Every operation preserves the invariant *)

Lemma rewind_inv o id : owner_ok o -> u16 id -> owner_ok (rewindAllocator id o).
Proof. intros Ho Hid. unfold rewindAllocator. case_test; [core|done]. Qed.

Lemma requestFor_u16 o v state r :
  owner_ok o -> requestFor o v state = Ok r -> u16 (or_transactionID r).
Proof.
  intros Ho Hr. destruct (requestFor_lookup _ _ _ _ Ho Hr) as [Hl _].
  apply (ok_inFlight o Ho) in Hl. apply Hl.
Qed.

Lemma cancel_inv o v : owner_ok o -> owner_ok (fst (CancelBeforeWrite o v)).
Proof.
  intros Ho. unfold CancelBeforeWrite. destruct (requestFor _ _ _) eqn:E; [|done].
  apply rewind_inv; [by apply ok_drop|by eapply requestFor_u16].
Qed.

Lemma replace_inv o v request : owner_ok o -> owner_ok (fst (replaceReservedRead o v request)).
Proof.
  intros Ho. unfold replaceReservedRead. destruct (validateReadRegistersRequest _); [done|].
  destruct (requestFor _ _ _) eqn:E; [|done]. case_test; [done|].
  apply requestFor_lookup in E as [E _]; [|done]. by eapply ok_store.
Qed.

Lemma mark_inv o v : owner_ok o -> owner_ok (fst (MarkWriteInvoked o v)).
Proof.
  intros Ho. unfold MarkWriteInvoked. destruct (requestFor _ _ _) eqn:E; [|done].
  apply requestFor_lookup in E as [E _]; [|done]. by eapply ok_store.
Qed.

(** The state and the failures an ambiguous write leaves. *)
Lemma close_ambiguous_spec o r :
  ow_inFlight o !! or_transactionID r = Some r ->
  let full := cl_MaxTombstones (ow_limits o) <=? msize (ow_tombstones o) in
  close_ambiguous o r =
  (set_closed true
     (set_closingTombstone (if full then Some r else ow_closingTombstone o)
        (set_tombstones (if full then ow_tombstones o
                         else <[or_transactionID r := r]> (ow_tombstones o))
           (set_inFlight ∅ o))),
   {| ot_closeConnection := true;
      ot_failed := failures o (Some (or_transactionID r)) (sorted_in_flight o) |}).
Proof.
  intros Hr. cbv zeta. unfold close_ambiguous, tombstone_or_closing, addTombstone.
  rewrite Z.ltb_antisym.
  destruct (cl_MaxTombstones (ow_limits o) <=? msize (ow_tombstones o)); cbn [negb];
    rewrite (failAllExcept_spec _ _ r) by done; cbn;
    unfold drop_request; cbn; by rewrite delete_singleton_eq.
Qed.

Lemma close_ambiguous_inv o r :
  owner_ok o -> ow_inFlight o !! or_transactionID r = Some r ->
  owner_ok (fst (close_ambiguous o r)).
Proof.
  intros Ho Hr. rewrite close_ambiguous_spec by done. cbn [fst].
  destruct (_ <=? _) eqn:E; bool_hyps.
  - assert (owner_ok (set_inFlight ∅ o)) by (apply ok_fewer; [done|apply map_empty_subseteq]).
    core.
  - assert (owner_ok (set_inFlight ∅
              (set_tombstones (<[or_transactionID r := r]> (ow_tombstones o)) o))).
    { pose proof (ok_tombstone o r Ho Hr E) as Hok.
      apply (ok_fewer _ ∅ Hok). apply map_empty_subseteq. }
    core.
Qed.

Lemma transmit_inv o v result deadline :
  owner_ok o -> owner_ok (fst (recordTransmitUntil o v result deadline)).
Proof.
  intros Ho. unfold recordTransmitUntil.
  destruct (ow_earlyCompletions o !! _) as [t|] eqn:Ee.
  { case_test; [core|]. destruct Ho. split; cbn; try done.
    - intros p t' i r [_ Hp]%lookup_delete_Some. eauto.
    - intros p t' [_ Hp]%lookup_delete_Some. eauto.
    - pose proof (msize_delete (ow_earlyCompletions o) (tv_physicalRequestID v)). lia. }
  destruct (requestFor _ _ _) as [r|] eqn:E; [|done].
  pose proof (requestFor_u16 _ _ _ _ Ho E) as Hu.
  apply requestFor_lookup in E as [E _]; [|done].
  destruct result; try done;
    try (pose proof (close_ambiguous_inv o r Ho E); by destruct (close_ambiguous o r)).
  - apply rewind_inv; [by apply ok_drop|done].
  - eapply ok_store; try done; by case_test.
Qed.

(** What expiry leaves of one request. *)
Lemma addTombstone_eq o r :
  msize (ow_tombstones o) < cl_MaxTombstones (ow_limits o) ->
  addTombstone o r
  = (set_tombstones (<[or_transactionID r := r]> (ow_tombstones o)) o, true).
Proof. intros H. unfold addTombstone. by test_true (msize (ow_tombstones o) <? cl_MaxTombstones (ow_limits o)). Qed.

Lemma expire_inv o candidates expired :
  owner_ok o ->
  (forall r, r ∈ candidates -> ow_inFlight o !! or_transactionID r = Some r) ->
  NoDup (or_transactionID <$> candidates) ->
  owner_ok (fst (expire_loop o candidates expired)).
Proof.
  revert o expired. induction candidates as [|r candidates IH]; intros o expired Ho Hc Hd;
    [done|].
  rewrite fmap_cons in Hd. apply NoDup_cons in Hd as [Hid Hd].
  assert (Hr : ow_inFlight o !! or_transactionID r = Some r) by (apply Hc; left).
  cbn [expire_loop]. cbv zeta. case_test; bool_hyps.
  - rewrite failAll_spec. cbn [fst].
    assert (owner_ok (set_inFlight ∅ o)) by (apply ok_fewer; [done|apply map_empty_subseteq]).
    core.
  - rewrite addTombstone_eq by done. apply IH; [by apply ok_tombstone| |done].
    intros r' Hr'. cbn. rewrite lookup_delete_ne; [apply Hc; by right|].
    intros E. apply Hid. rewrite E. by apply list_elem_of_fmap_2.
Qed.

#[export] Instance expiry_le_total : Total expiry_le.
Proof. intros a b. unfold expiry_le. lia. Qed.

#[export] Instance expiry_le_trans : Transitive expiry_le.
Proof. intros a b c. unfold expiry_le. lia. Qed.

Lemma requests_lookup o r :
  owner_ok o -> r ∈ requests (ow_inFlight o) -> ow_inFlight o !! or_transactionID r = Some r.
Proof.
  intros Ho. unfold requests. rewrite list_elem_of_fmap.
  intros ([id r'] & -> & Hin%elem_of_map_to_list).
  pose proof (ok_inFlight o Ho _ _ Hin) as [E _]. cbn. by rewrite E.
Qed.

Lemma requests_NoDup o :
  owner_ok o -> NoDup (or_transactionID <$> requests (ow_inFlight o)).
Proof.
  intros Ho. unfold requests. rewrite <- list_fmap_compose.
  replace ((or_transactionID ∘ snd) <$> map_to_list (ow_inFlight o))
    with (fst <$> map_to_list (ow_inFlight o)); [apply NoDup_fst_map_to_list|].
  apply list_fmap_ext. intros i [id r] Hin%list_elem_of_lookup_2. cbn.
  apply elem_of_map_to_list in Hin. by apply (ok_inFlight o Ho) in Hin as [-> _].
Qed.

Lemma candidates_facts o now :
  owner_ok o ->
  (forall r, r ∈ expiry_candidates o now <->
     ow_inFlight o !! or_transactionID r = Some r /\ expired_at now r = true) /\
  NoDup (or_transactionID <$> expiry_candidates o now).
Proof.
  intros Ho. unfold expiry_candidates. split.
  - intros r. rewrite merge_sort_Permutation, list_elem_of_filter. split.
    + intros [? Hin]. split; [by apply requests_lookup|done].
    + intros [Hin ?]. split; [done|]. unfold requests. apply list_elem_of_fmap.
      exists (or_transactionID r, r). split; [done|]. by apply elem_of_map_to_list.
  - rewrite merge_sort_Permutation. pose proof (requests_NoDup o Ho) as Hd.
    eapply sublist_NoDup; [exact Hd|]. apply fmap_sublist, sublist_filter.
Qed.

Lemma abandon_expired_inv o now : owner_ok o -> owner_ok (fst (abandonExpired o now)).
Proof.
  intros Ho. unfold abandonExpired. case_test; [done|].
  destruct (candidates_facts o now Ho) as [Hc Hd].
  apply expire_inv; [done| |done]. intros r Hr. by apply Hc.
Qed.

Lemma abandon_inv o v reason : owner_ok o -> owner_ok (fst (AbandonAfterWrite o v reason)).
Proof.
  intros Ho. unfold AbandonAfterWrite. case_test; [done|].
  destruct (requestFor o v requestWaiting) as [r|] eqn:E.
  - apply requestFor_lookup in E as [E _]; [|done]. case_test; bool_hyps.
    + rewrite (failAllExcept_spec _ _ r) by done. cbn [fst].
      assert (owner_ok (set_inFlight ∅ o)) by (apply ok_fewer; [done|apply map_empty_subseteq]).
      core. apply delete_singleton_eq.
    + rewrite addTombstone_eq by done. by apply ok_tombstone.
  - destruct (requestFor o v requestWriteInvoked) as [r|] eqn:E'; [|done].
    apply requestFor_lookup in E' as [E' _]; [|done].
    pose proof (close_ambiguous_inv o r Ho E'). by destruct (close_ambiguous o r).
Qed.

Lemma diagnostic_inv o generation adu :
  owner_ok o -> owner_ok (fst (newDiagnosticFrame o generation adu)).
Proof. intros Ho. unfold newDiagnosticFrame. case_test; cbn [fst]; core. Qed.

Lemma correlate_tombstone_inv o generation adu :
  owner_ok o -> owner_ok (fst (correlate_tombstone o generation adu)).
Proof.
  intros Ho. unfold correlate_tombstone. destruct (tombstone_for _ _) as [r|];
    [|by apply diagnostic_inv].
  case_test; [by apply diagnostic_inv|].
  destruct (validateOwnedResponse _ _); [|case_test]; cbn; core.
Qed.

(** The response to an active request, whatever it decodes to. *)
Lemma correlateActive_owner o r adu :
  fst (correlateActive o r adu)
  = set_nextWireResponseID (wrap64 (ow_nextWireResponseID o + 1))
      (drop_request (or_transactionID r) o).
Proof. unfold correlateActive. by destruct (validateOwnedResponse _ _). Qed.

Lemma correlate_inv o generation adu :
  owner_ok o -> owner_ok (fst (Correlate o generation adu)).
Proof.
  intros Ho. unfold Correlate. case_test; [by apply diagnostic_inv|]. case_test.
  { assert (Hc : owner_ok (set_closed true o)) by core.
    pose proof (diagnostic_inv _ generation adu Hc).
    by destruct (newDiagnosticFrame _ _ _) as [? []]. }
  destruct (ow_inFlight o !! _) as [r|] eqn:Er; [|by apply correlate_tombstone_inv].
  case_test; [|by apply correlate_tombstone_inv].
  case_test; [by apply diagnostic_inv|].
  pose proof (correlateActive_owner o r adu) as Ea.
  destruct (correlateActive o r adu) as [o' result]. cbn [fst] in Ea. subst o'.
  pose proof (ok_drop o (or_transactionID r) Ho) as Hd.
  case_test; cbn [fst]; [|core].
  pose proof (ok_inFlight o Ho _ _ Er) as (Et & _ & _ & Hp).
  rewrite Et in *. destruct Hd. unfold drop_request in *. cbn in *. split; cbn; try done.
  - intros p t i s [[<- <-]|[? Hp']]%lookup_insert_Some Hs; [|eauto].
    apply lookup_delete_Some in Hs as [Hne Hs]. intros Eq. apply Hne.
    symmetry. eapply (ok_phys o Ho); eauto.
  - intros p t [[<- <-]|[? Hp']]%lookup_insert_Some; eauto.
  - rewrite (msize_delete_Some _ _ r) by done.
    rewrite msize_insert_None.
    + pose proof (ok_room o Ho). lia.
    + destruct (ow_earlyCompletions o !! _) eqn:Ee; [|done].
      exfalso. eapply (ok_early o Ho); eauto.
Qed.

Lemma cleared_inv o :
  owner_ok o -> ow_inFlight o = ∅ -> owner_ok (clear_socket_state o).
Proof.
  intros [] Ei. unfold clear_socket_state. split; cbn; try done.
  - apply map_disjoint_empty_r.
  - unfold msize in *. rewrite map_size_empty. lia.
  - unfold msize. rewrite map_size_empty. unfold invalid_limits in *. bool_hyps. lia.
Qed.

Lemma lose_inv o transport : owner_ok o -> owner_ok (fst (loseTransport o transport)).
Proof.
  intros Ho. unfold loseTransport. case_test; [done|]. rewrite failAll_spec. cbn [fst].
  assert (owner_ok (set_inFlight ∅ o)) by (apply ok_fewer; [done|apply map_empty_subseteq]).
  apply cleared_inv; case_test; try done; core.
Qed.

Lemma close_inv o : owner_ok o -> owner_ok (fst (Close o)).
Proof.
  intros Ho. unfold Close. rewrite failAll_spec. cbn [fst].
  assert (Hf : owner_ok (set_inFlight ∅ o))
    by (apply ok_fewer; [done|apply map_empty_subseteq]).
  pose proof (cleared_inv _ Hf eq_refl). core.
Qed.

Lemma retire_inv o : owner_ok o -> owner_ok (fst (retire o)).
Proof.
  intros Ho. unfold retire. rewrite failAll_spec. cbn [fst].
  assert (Hf : owner_ok (set_inFlight ∅ o))
    by (apply ok_fewer; [done|apply map_empty_subseteq]).
  apply cleared_inv; [core|done].
Qed.

Lemma reconnect_inv o allocated : owner_ok o -> owner_ok (fst (Reconnect o allocated)).
Proof.
  intros []. unfold Reconnect. case_test; [by split|].
  match goal with |- context [if ?b =? 0 then _ else _] => destruct (b =? 0) end; [by split|].
  unfold clear_socket_state. split; cbn; try done.
  all: try (by unfold u16, u64; lia).
  - unfold msize. rewrite !map_size_empty. unfold invalid_limits in *. bool_hyps. lia.
  - unfold msize. rewrite map_size_empty. unfold invalid_limits in *. bool_hyps. lia.
Qed.

Lemma bind_inv o transport : owner_ok o -> owner_ok (fst (bindTransport o transport)).
Proof. intros Ho. unfold bindTransport. case_test; [done|]. cbn [fst]. core. Qed.

Lemma new_owner_inv self endpoint generation limits o :
  newTCPConnectionOwner self endpoint generation limits = Ok o -> owner_ok o.
Proof.
  unfold newTCPConnectionOwner. case_test; intros; simp_res. bool_hyps.
  split; cbn; try done.
  all: try (by unfold u16, u64; lia).
  - unfold msize. rewrite !map_size_empty. unfold invalid_limits in *. bool_hyps. lia.
  - unfold msize. rewrite map_size_empty. unfold invalid_limits in *. bool_hyps. lia.
Qed.

(** * Executions *)

(** One call on the owner, with its arguments. *)
Inductive owner_op : Type :=
| OpReserveRead (unitID : Z) (request : ReadRegistersRequest) (deadline : Z)
| OpReserveDeviceID (unitID : Z) (request : DeviceIDRequest) (decoding deadline : Z)
| OpCancel (v : TCPReservation)
| OpReplaceRead (v : TCPReservation) (request : ReadRegistersRequest)
| OpMarkWriteInvoked (v : TCPReservation)
| OpTransmit (v : TCPReservation) (result : TransmitResult) (deadline : Z)
| OpAbandonExpired (now : Z)
| OpAbandon (v : TCPReservation) (reason : AbandonReason)
| OpDrain
| OpCorrelate (generation : Z) (adu : TCPADU)
| OpBind (transport : Z)
| OpLose (transport : Z)
| OpClose
| OpRetire
| OpReconnect (allocated : Z)
| OpReleaseSlot.

(** The owner after the call, and the wire response of a correlation. *)
Definition run_op (o : owner) (op : owner_op) : owner * list WireResponse :=
  match op with
  | OpReserveRead u q d => (fst (reserveReadUntil o u q d), [])
  | OpReserveDeviceID u q k d => (fst (reserveDeviceIDUntil o u q k d), [])
  | OpCancel v => (fst (CancelBeforeWrite o v), [])
  | OpReplaceRead v q => (fst (replaceReservedRead o v q), [])
  | OpMarkWriteInvoked v => (fst (MarkWriteInvoked o v), [])
  | OpTransmit v result d => (fst (recordTransmitUntil o v result d), [])
  | OpAbandonExpired now => (fst (abandonExpired o now), [])
  | OpAbandon v reason => (fst (AbandonAfterWrite o v reason), [])
  | OpDrain => (fst (DrainFailedReservations o), [])
  | OpCorrelate g adu => (fst (Correlate o g adu), [fst (snd (Correlate o g adu))])
  | OpBind t => (fst (bindTransport o t), [])
  | OpLose t => (fst (loseTransport o t), [])
  | OpClose => (fst (Close o), [])
  | OpRetire => (fst (retire o), [])
  | OpReconnect g => (fst (Reconnect o g), [])
  | OpReleaseSlot => (set_pool None o, [])
  end.

Fixpoint run_ops (o : owner) (ops : list owner_op) : owner * list WireResponse :=
  match ops with
  | [] => (o, [])
  | op :: ops =>
      let '(o, responses) := run_op o op in
      let '(o, responses') := run_ops o ops in
      (o, responses ++ responses')
  end.

Lemma run_op_inv o op : owner_ok o -> owner_ok (fst (run_op o op)).
Proof.
  intros Ho. destruct op; cbn [run_op fst];
    eauto using cancel_inv, replace_inv, mark_inv, transmit_inv, abandon_expired_inv,
      abandon_inv, correlate_inv, bind_inv, lose_inv, close_inv, retire_inv, reconnect_inv.
  - unfold reserveReadUntil. destruct (validateReadRegistersRequest _); [done|].
    by apply reserve_inv.
  - unfold reserveDeviceIDUntil. destruct (validateDeviceIDRequest _); [done|].
    case_test; [done|]. by apply reserve_inv.
  - cbn. core.
  - cbn. core.
Qed.

Lemma run_ops_inv ops o : owner_ok o -> owner_ok (fst (run_ops o ops)).
Proof.
  revert o. induction ops as [|op ops IH]; intros o Ho; [done|]. cbn.
  pose proof (run_op_inv o op Ho) as H. destruct (run_op o op) as [o' rs]. cbn in H.
  specialize (IH _ H). by destruct (run_ops o' ops).
Qed.

(** * Delivery *)

(** A response that satisfies an active waiter, and the request it answers. *)
Lemma correlate_delivers o generation adu o' response errs :
  Correlate o generation adu = (o', (response, errs)) -> wr_deliverable response = true ->
  exists r decoded,
    generation = ow_generation o /\ ow_closed o = false /\
    ow_inFlight o !! ta_transactionID adu = Some r /\
    (or_state r = requestWaiting \/ or_state r = requestWriteInvoked) /\
    candidateMatches r adu = true /\
    validateOwnedResponse r (ta_pdu adu) = Ok decoded /\
    wr_outcome response = WireSuccessfulData /\
    wr_physicalRequestID response = or_physicalRequestID r /\
    wr_decoded response = decoded /\ wr_bytes response = ta_raw adu /\
    wr_provenance response = Some (wireProvenance o r adu) /\
    ow_inFlight o' = delete (or_transactionID r) (ow_inFlight o) /\
    ow_nextPhysicalRequestID o' = ow_nextPhysicalRequestID o /\ errs = [].
Proof.
  assert (Hdiag : forall o, wr_deliverable (fst (snd (newDiagnosticFrame o generation adu))) = false).
  { intros o1. unfold newDiagnosticFrame. by case_test. }
  assert (Htomb : wr_deliverable (fst (snd (correlate_tombstone o generation adu))) = false).
  { unfold correlate_tombstone. destruct (tombstone_for _ _); [|done]. case_test; [done|].
    destruct (validateOwnedResponse _ _); [done|]. by case_test. }
  unfold Correlate. case_test; 
    [intros E; specialize (Hdiag o); rewrite E in Hdiag; cbn in Hdiag; congruence|].
  bool_hyps.
  case_test.
  { specialize (Hdiag (set_closed true o)).
    destruct (newDiagnosticFrame _ _ _) as [? [resp ?]]. cbn in *. intros [= <- <- <-].
    congruence. }
  destruct (ow_inFlight o !! _) as [r|] eqn:Er;
    [|intros E; rewrite E in Htomb; cbn in Htomb; congruence].
  destruct (ow_closed o) eqn:Ec; cbn [negb];
    [intros E; rewrite E in Htomb; cbn in Htomb; congruence|].
  case_test; [intros E; specialize (Hdiag o); rewrite E in Hdiag; cbn in Hdiag; congruence|].
  apply orb_false_elim in Heqb1 as [Hst Hm]. apply negb_false_iff in Hm.
  assert (Hstate : or_state r = requestWaiting \/ or_state r = requestWriteInvoked).
  { apply andb_false_iff in Hst as [Hst|Hst]; bool_hyps; auto. }
  unfold correlateActive.
  destruct (validateOwnedResponse r (ta_pdu adu)) as [decoded|err] eqn:Ev.
  - cbn. case_test; intros [= <- <- <-] _; exists r, decoded; cbn; conj; done.
  - cbn. case_test; intros [= <- <- <-] Hd; cbn in Hd; done.
Qed.

(** No call but a reservation adds a physical identifier in flight. *)
Definition shrinks (o o' : owner) : Prop :=
  ow_nextPhysicalRequestID o' = ow_nextPhysicalRequestID o /\
  forall i s, ow_inFlight o' !! i = Some s ->
    exists r, ow_inFlight o !! i = Some r /\ or_physicalRequestID s = or_physicalRequestID r.

Lemma shrinks_sub o o' :
  ow_nextPhysicalRequestID o' = ow_nextPhysicalRequestID o ->
  ow_inFlight o' ⊆ ow_inFlight o -> shrinks o o'.
Proof. intros E H. split; [done|]. intros i s Hs. exists s. eauto using lookup_weaken. Qed.

Lemma shrinks_refl o : shrinks o o.
Proof. by apply shrinks_sub. Qed.

Lemma shrinks_empty o o' :
  ow_nextPhysicalRequestID o' = ow_nextPhysicalRequestID o -> ow_inFlight o' = ∅ ->
  shrinks o o'.
Proof. intros E Ei. apply shrinks_sub; [done|]. rewrite Ei. apply map_empty_subseteq. Qed.

Lemma shrinks_store o r r' :
  ow_inFlight o !! or_transactionID r' = Some r ->
  or_physicalRequestID r' = or_physicalRequestID r -> shrinks o (store_request r' o).
Proof.
  intros Hr Ep. split; [done|]. cbn.
  intros i s [[<- <-]|[_ Hs]]%lookup_insert_Some; eauto.
Qed.

#[export] Hint Resolve shrinks_refl : modbus.

Ltac shrink :=
  first [ apply shrinks_refl
        | apply shrinks_empty; reflexivity
        | apply shrinks_sub; [reflexivity|cbn; apply delete_subseteq]
        | apply shrinks_sub; [reflexivity|cbn; reflexivity] ].

Lemma transmit_shrinks o v result deadline :
  owner_ok o -> shrinks o (fst (recordTransmitUntil o v result deadline)).
Proof.
  intros Ho. unfold recordTransmitUntil.
  destruct (ow_earlyCompletions o !! _); [case_test; shrink|].
  destruct (requestFor _ _ _) as [r|] eqn:E; [|shrink].
  apply requestFor_lookup in E as [E _]; [|done].
  destruct result; try rewrite (close_ambiguous_spec o r E); try shrink.
  - unfold rewindAllocator. case_test; shrink.
  - apply (shrinks_store _ r); by case_test.
Qed.

Lemma expire_shrinks o0 o candidates expired :
  shrinks o0 o -> shrinks o0 (fst (expire_loop o candidates expired)).
Proof.
  revert o expired. induction candidates as [|r candidates IH]; intros o expired Hs; [done|].
  cbn [expire_loop]. cbv zeta. case_test.
  - rewrite failAll_spec. apply shrinks_empty; [apply Hs|done].
  - apply IH. destruct Hs as [En Hs]. unfold addTombstone.
    case_test; (split; [done|]); cbn; intros i s [_ H]%lookup_delete_Some; eauto.
Qed.

Lemma abandon_shrinks o v reason :
  owner_ok o -> shrinks o (fst (AbandonAfterWrite o v reason)).
Proof.
  intros Ho. unfold AbandonAfterWrite. case_test; [shrink|].
  destruct (requestFor o v requestWaiting) as [r|] eqn:E.
  - apply requestFor_lookup in E as [E _]; [|done]. case_test.
    + rewrite (failAllExcept_spec _ _ r) by done. apply shrinks_empty; [done|].
      apply delete_singleton_eq.
    + unfold addTombstone. case_test; shrink.
  - destruct (requestFor o v requestWriteInvoked) as [r|] eqn:E'; [|shrink].
    apply requestFor_lookup in E' as [E' _]; [|done].
    rewrite (close_ambiguous_spec o r E'). shrink.
Qed.

Lemma correlate_shrinks o generation adu :
  shrinks o (fst (Correlate o generation adu)).
Proof.
  assert (Hdiag : forall b : bool,
    shrinks o (fst (newDiagnosticFrame (if b then set_closed true o else o) generation adu))).
  { intros b. unfold newDiagnosticFrame. destruct b; case_test; shrink. }
  assert (Htomb : shrinks o (fst (correlate_tombstone o generation adu))).
  { unfold correlate_tombstone. destruct (tombstone_for _ _); [|apply (Hdiag false)].
    case_test; [apply (Hdiag false)|].
    destruct (validateOwnedResponse _ _); [shrink|]. case_test; shrink. }
  unfold Correlate. case_test; [apply (Hdiag false)|]. case_test.
  { specialize (Hdiag true). cbn in Hdiag. by destruct (newDiagnosticFrame _ _ _) as [? []]. }
  destruct (ow_inFlight o !! _) as [r|]; [|done]. case_test; [|done].
  case_test; [apply (Hdiag false)|].
  pose proof (correlateActive_owner o r adu) as Ea.
  destruct (correlateActive o r adu) as [o' result]. cbn [fst] in Ea. subst o'.
  case_test; shrink.
Qed.

(** Physical identifiers in flight. *)
Definition live (o : owner) (p : Z) : Prop :=
  exists i r, ow_inFlight o !! i = Some r /\ or_physicalRequestID r = p.

Definition advances (o o' : owner) : Prop :=
  physical_bound o <= physical_bound o' /\
  forall p, live o' p -> live o p \/ physical_bound o <= p.

Lemma shrinks_advances o o' : shrinks o o' -> advances o o'.
Proof.
  intros [E Hs]. unfold advances, physical_bound. rewrite E. split; [lia|].
  intros p (i & s & Hi & <-). left. destruct (Hs _ _ Hi) as (r & ? & ->). by exists i, r.
Qed.

Lemma reserve_advances o unit kind read dev dec deadline :
  owner_ok o -> advances o (fst (reserve o unit kind read dev dec deadline)).
Proof.
  intros Ho. destruct (reserve o unit kind read dev dec deadline) as [o' [v|err]] eqn:E.
  - apply reserve_ok in E as (_&_&Ep&Eb&_&r&Ei&_&_&_&_&_&Er); [|done]. cbn.
    split; [lia|]. intros p (i & s & Hi & <-). rewrite Ei in Hi.
    apply lookup_insert_Some in Hi as [[<- <-]|[_ Hi]]; [right; lia|].
    left. by exists i, s.
  - apply shrinks_advances. revert E. unfold reserve.
    repeat (case_test; [intros [= <- ?]; shrink|]).
    destruct (allocate_spec o Ho) as (next & [id|] & -> & _); [|intros [= <- ?]; shrink].
    case_test; [intros [= <- ?]; shrink|done].
Qed.

Lemma run_op_advances o op : owner_ok o -> advances o (fst (run_op o op)).
Proof.
  intros Ho. destruct op; cbn [run_op fst].
  - unfold reserveReadUntil. destruct (validateReadRegistersRequest _);
      [apply shrinks_advances; shrink|by apply reserve_advances].
  - unfold reserveDeviceIDUntil. destruct (validateDeviceIDRequest _);
      [apply shrinks_advances; shrink|].
    case_test; [apply shrinks_advances; shrink|by apply reserve_advances].
  - apply shrinks_advances. unfold CancelBeforeWrite, rewindAllocator.
    destruct (requestFor _ _ _); [|shrink]. case_test; shrink.
  - apply shrinks_advances. unfold replaceReservedRead.
    destruct (validateReadRegistersRequest _); [shrink|].
    destruct (requestFor _ _ _) as [r|] eqn:E; [|shrink]. case_test; [shrink|].
    apply requestFor_lookup in E as [E _]; [|done]. by apply (shrinks_store _ r).
  - apply shrinks_advances. unfold MarkWriteInvoked.
    destruct (requestFor _ _ _) as [r|] eqn:E; [|shrink].
    apply requestFor_lookup in E as [E _]; [|done]. by apply (shrinks_store _ r).
  - by apply shrinks_advances, transmit_shrinks.
  - apply shrinks_advances. unfold abandonExpired. case_test; [shrink|].
    apply expire_shrinks, shrinks_refl.
  - by apply shrinks_advances, abandon_shrinks.
  - apply shrinks_advances. shrink.
  - apply shrinks_advances, correlate_shrinks.
  - apply shrinks_advances. unfold bindTransport. case_test; shrink.
  - apply shrinks_advances. unfold loseTransport. case_test; [shrink|].
    rewrite failAll_spec. case_test; shrink.
  - apply shrinks_advances. unfold Close. rewrite failAll_spec. shrink.
  - apply shrinks_advances. unfold retire. rewrite failAll_spec. shrink.
  - apply shrinks_advances. unfold Reconnect. case_test; [shrink|].
    match goal with |- context [if ?b =? 0 then _ else _] => destruct (b =? 0) end; shrink.
  - apply shrinks_advances. shrink.
Qed.

(** Physical identifiers of the responses that satisfied a waiter. *)
Definition delivered (responses : list WireResponse) : list Z :=
  wr_physicalRequestID <$> base.filter (fun r => wr_deliverable r = true) responses.

Lemma run_op_delivered o op :
  owner_ok o ->
  (delivered (snd (run_op o op)) = []) \/
  (exists p, delivered (snd (run_op o op)) = [p] /\ live o p /\ ~ live (fst (run_op o op)) p).
Proof.
  intros Ho. destruct op; try (by left). cbn [run_op fst snd].
  destruct (Correlate o generation adu) as [o' [response errs]] eqn:E. cbn [fst snd].
  destruct (wr_deliverable response) eqn:Ed.
  - right. destruct (correlate_delivers _ _ _ _ _ _ E Ed)
      as (r & decoded & _ & _ & Hr & _ & _ & _ & _ & Ep & _ & _ & _ & Ei & _ & _).
    exists (wr_physicalRequestID response). unfold delivered.
    rewrite filter_cons_True by done. split; [done|]. rewrite Ep. split; [by eexists _, r|].
    intros (i & s & Hs & Eq). rewrite Ei in Hs. apply lookup_delete_Some in Hs as [Hne Hs].
    apply Hne. pose proof (ok_inFlight o Ho _ _ Hr) as [-> _].
    symmetry. by eapply (ok_phys o Ho).
  - left. unfold delivered. rewrite filter_cons_False by congruence. done.
Qed.

Lemma run_ops_delivered ops o :
  owner_ok o ->
  NoDup (delivered (snd (run_ops o ops))) /\
  forall p, p ∈ delivered (snd (run_ops o ops)) -> live o p \/ physical_bound o <= p.
Proof.
  revert o. induction ops as [|op ops IH]; intros o Ho; [split; [constructor|by intros p ?%elem_of_nil]|].
  cbn [run_ops].
  pose proof (run_op_inv o op Ho) as Ho'. pose proof (run_op_advances o op Ho) as [Hb Hl].
  pose proof (run_op_delivered o op Ho) as Hd.
  destruct (run_op o op) as [o' rs]. cbn [fst snd] in *.
  destruct (IH o' Ho') as [IHn IHl]. destruct (run_ops o' ops) as [o'' rs']. cbn [snd] in *.
  unfold delivered in *. rewrite filter_app, fmap_app.
  assert (Hin : forall p, p ∈ wr_physicalRequestID <$> base.filter (fun r => wr_deliverable r = true) rs' ->
                live o p \/ physical_bound o <= p).
  { intros p [Hp|Hp]%IHl; [by apply Hl|right; lia]. }
  destruct Hd as [->|(p & -> & Hlive & Hnot)]; [by rewrite app_nil_l|].
  cbn [app]. split.
  - constructor; [|done]. intros [H|H]%IHl; [done|].
    destruct Hlive as (i & r & Hr & <-). apply (ok_inFlight o Ho) in Hr.
    unfold request_ok in Hr. lia.
  - intros q [->|Hq]%elem_of_cons; [by left|by apply Hin].
Qed.

(** The failures of a sorted list are in strictly increasing physical order. *)
Lemma failures_sorted o excluded l :
  owner_ok o -> (forall id r, (id, r) ∈ l -> ow_inFlight o !! id = Some r) ->
  NoDup (fst <$> l) -> StronglySorted in_flight_le l ->
  StronglySorted Z.lt (tv_physicalRequestID <$> failures o excluded l).
Proof.
  intros Ho Hl Hd Hs. unfold failures.
  induction Hs as [|[id r] l Hs IH Hr]; [constructor|].
  rewrite fmap_cons in Hd. apply NoDup_cons in Hd as [Hid Hd].
  rewrite filter_cons. case_decide; [|apply IH; [|done]; intros; apply Hl; by right].
  rewrite !fmap_cons. constructor; [apply IH; [|done]; intros; apply Hl; by right|].
  rewrite !Forall_fmap, Forall_forall. intros [id' r'] [_ Hin]%list_elem_of_filter.
  rewrite Forall_forall in Hr. specialize (Hr _ Hin).
  unfold in_flight_le in Hr. cbn in *.
  assert (or_physicalRequestID r <> or_physicalRequestID r'); [|lia].
  intros E. apply Hid. assert (id = id') as ->.
  { eapply (ok_phys o Ho); [apply Hl; left|apply Hl; right; exact Hin|done]. }
  apply list_elem_of_fmap. by exists (id', r').
Qed.

Lemma failures_elem o excluded w :
  w ∈ failures o excluded (sorted_in_flight o) <->
  exists id s, ow_inFlight o !! id = Some s /\ Some id <> excluded /\
               w = reservation_as o id s.
Proof.
  unfold failures. rewrite list_elem_of_fmap. split.
  - intros ([id s] & -> & [Hx Hin]%list_elem_of_filter). exists id, s.
    split; [by apply sorted_in_flight_elem|done].
  - intros (id & s & Hin & Hx & ->). exists (id, s). split; [done|].
    apply list_elem_of_filter. split; [done|]. by apply sorted_in_flight_elem.
Qed.

Lemma sorted_failures o excluded :
  owner_ok o ->
  StronglySorted Z.lt
    (tv_physicalRequestID <$> failures o excluded (sorted_in_flight o)).
Proof.
  intros Ho. apply failures_sorted; [done| | |].
  - intros id r. apply sorted_in_flight_elem.
  - apply sorted_in_flight_NoDup.
  - apply StronglySorted_merge_sort; apply _.
Qed.

(** * Properties *)

Definition demo_read : ReadRegistersRequest :=
  {| rr_function := 3; rr_table := HoldingRegisters; rr_offset := 6; rr_quantity := 1 |}.

Definition demo_owner : owner :=
  {| ow_self := 100; ow_endpoint := "plc"; ow_connectionID := 0; ow_generation := 1;
     ow_limits := {| cl_MaxInFlight := 4; cl_MaxTombstones := 2 |}; ow_closed := false;
     ow_retired := false; ow_nextTransactionID := 0; ow_nextPhysicalRequestID := 1;
     ow_nextWireResponseID := 1; ow_nextDiagnosticFrameID := 1; ow_inFlight := ∅;
     ow_tombstones := ∅; ow_closingTombstone := None; ow_earlyCompletions := ∅;
     ow_pendingFailures := []; ow_hasGenerationAllocator := false;
     ow_boundTransport := None; ow_pool := None |}.

Lemma demo_owner_ok : owner_ok demo_owner.
Proof.
  eapply (new_owner_inv 100 "plc" 1 {| cl_MaxInFlight := 4; cl_MaxTombstones := 2 |}).
  reflexivity.
Qed.

(** In every state an owner reaches from its constructor through any
    sequence of calls, the number of requests in flight (early completions
    included) and of tombstones stays within the limits, no transaction
    identifier is both in flight and tombstoned, every stored request carries
    its own identifier and the current generation, and the physical
    identifiers in flight are distinct and already handed out. *)
Theorem owner_invariant self endpoint generation limits o ops :
  newTCPConnectionOwner self endpoint generation limits = Ok o ->
  owner_ok (fst (run_ops o ops)).
Proof. intros H. eapply run_ops_inv, new_owner_inv, H. Qed.

Definition demo_reservation : TCPReservation :=
  {| tv_owner := 100; tv_transactionID := 0; tv_physicalRequestID := 1; tv_generation := 1;
     tv_deadlineOffset := 0 |}.

Definition demo_adu : TCPADU :=
  {| ta_transactionID := 0; ta_unitID := 17; ta_pdu := [3; 2; 1; 2];
     ta_raw := [0; 0; 0; 0; 0; 5; 17; 3; 2; 1; 2] |}.

(** A read, answered twice. *)
Definition demo_ops : list owner_op :=
  [OpReserveRead 17 demo_read 0; OpMarkWriteInvoked demo_reservation;
   OpTransmit demo_reservation TransmitComplete 0; OpCorrelate 1 demo_adu;
   OpCorrelate 1 demo_adu].

Lemma owner_invariant_witness :
  owner_ok (fst (run_ops demo_owner demo_ops)).
Proof.
  apply (owner_invariant 100 "plc" 1 {| cl_MaxInFlight := 4; cl_MaxTombstones := 2 |}).
  reflexivity.
Defined.

(** C1: Whatever the calls and whatever the peer sends (duplicates, late or
    foreign frames, frames after a reconnection), a physical request satisfies
    its waiter at most once over the life of the owner. *)
Theorem delivered_at_most_once self endpoint generation limits o ops :
  newTCPConnectionOwner self endpoint generation limits = Ok o ->
  NoDup (delivered (snd (run_ops o ops))).
Proof. intros H. eapply run_ops_delivered, new_owner_inv, H. Qed.

Lemma delivered_at_most_once_witness :
  delivered (snd (run_ops demo_owner demo_ops)) = [1] /\
  NoDup (delivered (snd (run_ops demo_owner demo_ops))).
Proof.
  split; [vm_compute; reflexivity|].
  apply (delivered_at_most_once 100 "plc" 1 {| cl_MaxInFlight := 4; cl_MaxTombstones := 2 |}).
  reflexivity.
Defined.

(** A write whose extent on the wire is unknown (partial, indeterminate,
    cancelled in flight or ambiguous) closes the socket: nothing stays in flight,
    every sibling is reported failed exactly once, in increasing physical order
    and no other, and the request itself is remembered so that a late answer to
    it is recognised. *)
Theorem ambiguous_write_closes o v result deadline r :
  owner_ok o -> requestFor o v requestWriteInvoked = Ok r ->
  ambiguous_transmit result = true ->
  exists o' failed,
    recordTransmitUntil o v result deadline
    = (o', ({| ot_closeConnection := true; ot_failed := failed |}, None)) /\
    ow_closed o' = true /\ ow_inFlight o' = ∅ /\
    tombstone_for o' (tv_transactionID v) = Some r /\
    StronglySorted Z.lt (tv_physicalRequestID <$> failed) /\
    (forall w, w ∈ failed <->
       exists id s, ow_inFlight o !! id = Some s /\ id <> tv_transactionID v /\
                    w = reservation_as o id s).
Proof.
  intros Ho Hr Ha. unfold recordTransmitUntil.
  pose proof (requestFor_ok _ _ _ _ Hr) as (Hl & Ep & _).
  destruct (requestFor_lookup _ _ _ _ Ho Hr) as [Hr' Et].
  destruct (ow_earlyCompletions o !! _) as [t|] eqn:Ee.
  { exfalso. by eapply (ok_early o Ho). }
  rewrite Hr. eexists _, (failures o (Some (tv_transactionID v)) (sorted_in_flight o)).
  split.
  { rewrite <- Et.
    destruct result; try discriminate Ha; rewrite (close_ambiguous_spec o r Hr'); reflexivity. }
  cbn. conj; try done.
  - unfold tombstone_for. cbn. rewrite Et.
    assert (Hn : ow_tombstones o !! tv_transactionID v = None).
    { eapply map_disjoint_Some_l; [apply Ho|done]. }
    destruct (_ <=? _).
    + by rewrite Hn, Et, Z.eqb_refl.
    + by rewrite lookup_insert_eq.
  - by apply sorted_failures.
  - intros w. rewrite failures_elem.
    split; intros (id & s & ? & Hne & ?); exists id, s; conj; congruence.
Qed.

Lemma ambiguous_write_closes_witness :
  exists o' failed,
    recordTransmitUntil
      (fst (run_ops demo_owner
              [OpReserveRead 17 demo_read 0; OpReserveRead 18 demo_read 0;
               OpMarkWriteInvoked demo_reservation]))
      demo_reservation TransmitPartial 0
    = (o', ({| ot_closeConnection := true; ot_failed := failed |}, None)) /\
    tv_physicalRequestID <$> failed = [2].
Proof.
  set (o := fst _).
  destruct (ambiguous_write_closes o demo_reservation TransmitPartial 0
    {| or_transactionID := 0; or_physicalRequestID := 1; or_generation := 1; or_unitID := 17;
       or_kind := requestRead; or_function := 3; or_read := demo_read;
       or_deviceID := zeroDeviceIDRequest; or_deviceIDDecoding := 0;
       or_state := requestWriteInvoked; or_deadlineOffset := 0 |})
    as (o' & failed & E & _).
  - apply run_ops_inv, demo_owner_ok.
  - vm_compute. reflexivity.
  - reflexivity.
  - exists o', failed. split; [exact E|]. vm_compute in E. injection E as <- <-. reflexivity.
Defined.

(** The ADU comes from the unit addressed and its first byte is the function
    requested, with or without the exception bit. *)
Definition answers (r : ownedRequest) (adu : TCPADU) : Prop :=
  ta_unitID adu = or_unitID r /\
  exists received rest, ta_pdu adu = received :: rest /\
    (received = or_function r \/ received = Z.lor (or_function r) 0x80).

Lemma candidate_matches_iff r adu : candidateMatches r adu = true <-> answers r adu.
Proof.
  unfold candidateMatches, answers. destruct (ta_pdu adu) as [|received rest].
  - rewrite zlen_nil, Z.eqb_refl, orb_true_r. split; [done|]. by intros (_ & ? & ? & ? & _).
  - test_false (zlen (received :: rest) =? 0); [|pose proof (zlen_nonneg rest); zlen_simpl; lia].
    rewrite orb_false_r. cbn [lookup_total list_lookup_total].
    destruct (ta_unitID adu =? or_unitID r) eqn:Eu; cbn [negb]; bool_hyps.
    + rewrite orb_true_iff, !Z.eqb_eq. split.
      * intros H. split; [done|]. by exists received, rest.
      * by intros (_ & ? & ? & [= <- <-] & ?).
    + split; [done|]. by intros [? _].
Qed.

(** C2: A received ADU satisfies a waiter exactly when it arrives in the current
    generation of an open owner (whose response counter is not exhausted),
    carries the transaction identifier of a request whose write was invoked,
    comes from the unit addressed with the function requested, and decodes as
    the answer to that very request; the delivered response then carries the
    decoded data, the exact bytes and the physical identity of the request, and
    the request is no longer in flight.  In particular a frame of an older
    socket generation is never delivered. *)
Theorem correlate_deliverable_iff o generation adu :
  let '(o', (response, errs)) := Correlate o generation adu in
  wr_deliverable response = true <->
  exists r decoded,
    generation = ow_generation o /\ ow_nextWireResponseID o <> 0 /\ ow_closed o = false /\
    ow_inFlight o !! ta_transactionID adu = Some r /\
    (or_state r = requestWaiting \/ or_state r = requestWriteInvoked) /\
    answers r adu /\
    validateOwnedResponse r (ta_pdu adu) = Ok decoded /\
    wr_physicalRequestID response = or_physicalRequestID r /\
    wr_decoded response = decoded /\ wr_bytes response = ta_raw adu /\
    wr_provenance response = Some (wireProvenance o r adu) /\
    ow_inFlight o' = delete (or_transactionID r) (ow_inFlight o) /\ errs = [].
Proof.
  destruct (Correlate o generation adu) as [o' [response errs]] eqn:E. split.
  - intros Hd. destruct (correlate_delivers _ _ _ _ _ _ E Hd)
      as (r & decoded & -> & ? & ? & ? & ? & ? & ? & ? & ? & ? & ? & ? & _ & ?).
    exists r, decoded. conj; try done; [|by apply candidate_matches_iff]. intros Hz. revert E. unfold Correlate.
    rewrite Z.eqb_refl, Hz. cbn [negb]. cbv iota. rewrite Z.eqb_refl. cbv iota.
    unfold newDiagnosticFrame. case_test; intros [= <- <- <-]; done.
  - intros (r & decoded & -> & Hz & Hc & Hr & Hst & Hm%candidate_matches_iff & Hv & _).
    revert E. unfold Correlate.
    rewrite Z.eqb_refl, (proj2 (Z.eqb_neq _ _) Hz), Hr, Hc, Hm. cbn [negb].
    rewrite orb_false_r.
    unfold correlateActive. rewrite Hv.
    destruct Hst as [-> | ->]; cbn; by intros [= <- <- <-].
Qed.

(** Reservation on a sound owner succeeds exactly when the owner is neither
    closed nor retired, the unit is addressable, there is room in flight, some
    of the 65536 transaction identifiers is free and the physical counter is not
    exhausted; a successful one returns a transaction identifier that is neither
    in flight nor tombstoned and a physical identifier never handed out before,
    and the request is in flight under it in the reserved state. *)
Theorem reserve_fresh_iff o unit kind read dev dec deadline :
  owner_ok o ->
  let '(o', result) := reserve o unit kind read dev dec deadline in
  ((exists v, result = Ok v) <->
   ow_closed o = false /\ ow_retired o = false /\ unit <= 247 /\
   msize (ow_inFlight o) + msize (ow_earlyCompletions o) < cl_MaxInFlight (ow_limits o) /\
   (exists id, u16 id /\ ~ taken (ow_inFlight o) (ow_tombstones o) id) /\
   ow_nextPhysicalRequestID o <> 0) /\
  (forall v, result = Ok v ->
     ~ taken (ow_inFlight o) (ow_tombstones o) (tv_transactionID v) /\
     tv_physicalRequestID v = physical_bound o /\ physical_bound o' = physical_bound o + 1 /\
     exists r, ow_inFlight o' = <[tv_transactionID v := r]> (ow_inFlight o) /\
               requestFor o' v requestReserved = Ok r /\ or_unitID r = unit /\
               or_kind r = kind /\ or_read r = read /\ or_deviceID r = dev).
Proof.
  intros Ho. pose proof (reserve_succeeds o unit kind read dev dec deadline Ho) as Hiff.
  destruct (reserve o unit kind read dev dec deadline) as [o' result] eqn:E.
  split; [exact Hiff|]. intros v ->.
  pose proof (reserve_ok _ _ _ _ _ _ _ _ _ Ho E)
    as (? & _ & ? & ? & _ & r & ? & ? & ? & ? & ? & ? & _).
  conj; try done. by exists r.
Qed.

Lemma reserve_fresh_iff_witness :
  exists v, snd (reserve demo_owner 17 requestRead demo_read zeroDeviceIDRequest 0 0) = Ok v.
Proof.
  pose proof (reserve_fresh_iff demo_owner 17 requestRead demo_read zeroDeviceIDRequest 0 0
                demo_owner_ok) as H.
  destruct (reserve demo_owner 17 requestRead demo_read zeroDeviceIDRequest 0 0) as [o' result].
  apply H. conj; try done.
  exists 0. split; [by unfold u16|]. intros [[r Hr]|[r Hr]]; discriminate Hr.
Defined.

(** Abandoning a request that was fully transmitted, while a tombstone is
    free, keeps the socket open and its siblings untouched; a valid answer that
    arrives later in the same generation is recognised as late, carries the
    identity of the abandoned request and its exact bytes, and does not satisfy
    any waiter. *)
Theorem abandoned_answer_is_late o v reason r adu decoded :
  owner_ok o -> requestFor o v requestWaiting = Ok r ->
  reason = AbandonTimeout \/ reason = AbandonCancellation ->
  msize (ow_tombstones o) < cl_MaxTombstones (ow_limits o) ->
  ta_transactionID adu = tv_transactionID v -> answers r adu ->
  validateOwnedResponse r (ta_pdu adu) = Ok decoded ->
  ow_nextWireResponseID o <> 0 ->
  exists o' o'' response,
    AbandonAfterWrite o v reason = (o', (no_transition, None)) /\
    ow_closed o' = ow_closed o /\
    ow_inFlight o' = delete (tv_transactionID v) (ow_inFlight o) /\
    Correlate o' (ow_generation o) adu = (o'', (response, [])) /\
    wr_outcome response = WireLateAfterAbandonment /\ wr_deliverable response = false /\
    wr_physicalRequestID response = tv_physicalRequestID v /\
    wr_bytes response = ta_raw adu /\ ow_inFlight o'' = ow_inFlight o'.
Proof.
  intros Ho Hr Hreason Hroom Eadu Hm%candidate_matches_iff Hv Hw.
  pose proof (requestFor_ok _ _ _ _ Hr) as (_ & Ep & _).
  destruct (requestFor_lookup _ _ _ _ Ho Hr) as [Hl Et].
  set (o' := drop_request (or_transactionID r) (fst (addTombstone o r))).
  assert (Ha : AbandonAfterWrite o v reason = (o', (no_transition, None))).
  { unfold AbandonAfterWrite. rewrite Hr.
    replace (msize (ow_tombstones o) >=? _) with false; [|symmetry; bool_goal; lia].
    by destruct Hreason as [-> | ->]. }
  unfold o' in *. clear o'. rewrite addTombstone_eq in * by done. cbn [fst] in *.
  eexists _, _, _. split; [exact Ha|]. cbn. rewrite Et. split; [done|]. split; [done|].
  unfold Correlate, drop_request. cbn.
  rewrite Z.eqb_refl, (proj2 (Z.eqb_neq _ _) Hw), Eadu. cbn [negb].
  rewrite lookup_delete_eq.
  unfold correlate_tombstone, tombstone_for. cbn. rewrite Eadu, lookup_insert_eq, Hm.
  cbn [negb]. rewrite Hv. done.
Qed.

Definition demo_waiting : owner :=
  fst (run_ops demo_owner
         [OpReserveRead 17 demo_read 0; OpMarkWriteInvoked demo_reservation;
          OpTransmit demo_reservation TransmitComplete 0]).

Definition demo_waiting_request : ownedRequest :=
  {| or_transactionID := 0; or_physicalRequestID := 1; or_generation := 1; or_unitID := 17;
     or_kind := requestRead; or_function := 3; or_read := demo_read;
     or_deviceID := zeroDeviceIDRequest; or_deviceIDDecoding := 0;
     or_state := requestWaiting; or_deadlineOffset := 0 |}.

Lemma abandoned_answer_is_late_witness :
  exists o' o'' response,
    AbandonAfterWrite demo_waiting demo_reservation AbandonTimeout
    = (o', (no_transition, None)) /\
    Correlate o' 1 demo_adu = (o'', (response, [])) /\
    wr_outcome response = WireLateAfterAbandonment.
Proof.
  destruct (abandoned_answer_is_late demo_waiting demo_reservation AbandonTimeout
              demo_waiting_request demo_adu
              {| do_words := [0x0102]; do_segment := None; do_page := None |})
    as (o' & o'' & response & Ha & _ & _ & Hc & Ho & _);
    [apply run_ops_inv, demo_owner_ok|vm_compute; reflexivity|by left|by vm_compute
    |reflexivity|apply candidate_matches_iff; reflexivity|vm_compute; reflexivity|by vm_compute|].
  exists o', o'', response. split; [exact Ha|]. split; [exact Hc|exact Ho].
Defined.
