(* ===== verification/TcpTimeline.v ===== *)
(** The event timeline of a TCP endpoint (tcp_transport.go): events with one sequence
    number each, the metrics drawn from them, and the end of the sequence.

    The clock and the sink are injected code: the reading of the clock at an event is
    the argument [now], and the sink says of each event whether it panics.  [record]
    returns the event it made; an event is handed to the sink exactly when it carries a
    sequence number. *)

From S2P Require Import Prelude Pdu DeviceId DeviceIdTolerant TcpAdu TcpOwner.

(** * Events *)

Inductive TCPTransportEventKind : Type :=
| TCPEventEnqueue
| TCPEventAdmission
| TCPEventQueueService
| TCPEventCoalescing
| TCPEventReconnect
| TCPEventRequestTimerArm
| TCPEventRequestTimerFire
| TCPEventResponseTimerArm
| TCPEventResponseTimerFire
| TCPEventCallerCancellation
| TCPEventWritePrepared
| TCPEventWriteInvocation
| TCPEventWriteReturn
| TCPEventReadInvocation
| TCPEventReadReturn
| TCPEventTransmitResult
| TCPEventResponseReceive
| TCPEventQuarantineTransition
| TCPEventJitterBackoff.

#[export] Instance event_kind_eq_dec : EqDecision TCPTransportEventKind.
Proof. solve_decision. Defined.

(** A transmit result and a wire outcome are absent where the code leaves them zero. *)
Record tcpEventFields : Type := mkTcpEventFields {
  ef_ConnectionID : Z;
  ef_TransportGeneration : Z;
  ef_RequestID : Z;
  ef_LogicalViewID : Z;
  ef_LogicalViewCount : Z;
  ef_PhysicalRequestID : Z;
  ef_WireResponseID : Z;
  ef_DiagnosticFrameID : Z;
  ef_TransactionID : Z;
  ef_UnitID : Z;
  ef_AuthorizationScope : string;
  ef_PollGeneration : Z;
  ef_DeadlineIdentity : Z;
  ef_DeadlineOffset : Z;
  ef_Delay : Z;
  ef_RequestedFunction : Z;
  ef_ReceivedFunction : Z;
  ef_LogicalTable : LogicalTable;
  ef_PhysicalOffset : Z;
  ef_PhysicalQuantity : Z;
  ef_RawADUHex : string;
  ef_TransmitResult : option TransmitResult;
  ef_WireOutcome : option WireOutcome;
  ef_Detail : string
}.

#[export] Instance event_fields_fields : Fields tcpEventFields := fun f =>
  mkTcpEventFields (ef_ConnectionID f) (ef_TransportGeneration f) (ef_RequestID f)
    (ef_LogicalViewID f) (ef_LogicalViewCount f) (ef_PhysicalRequestID f)
    (ef_WireResponseID f) (ef_DiagnosticFrameID f) (ef_TransactionID f) (ef_UnitID f)
    (ef_AuthorizationScope f) (ef_PollGeneration f) (ef_DeadlineIdentity f)
    (ef_DeadlineOffset f) (ef_Delay f) (ef_RequestedFunction f) (ef_ReceivedFunction f)
    (ef_LogicalTable f) (ef_PhysicalOffset f) (ef_PhysicalQuantity f) (ef_RawADUHex f)
    (ef_TransmitResult f) (ef_WireOutcome f) (ef_Detail f).

Definition no_fields : tcpEventFields :=
  {| ef_ConnectionID := 0; ef_TransportGeneration := 0; ef_RequestID := 0;
     ef_LogicalViewID := 0; ef_LogicalViewCount := 0; ef_PhysicalRequestID := 0;
     ef_WireResponseID := 0; ef_DiagnosticFrameID := 0; ef_TransactionID := 0;
     ef_UnitID := 0; ef_AuthorizationScope := ""; ef_PollGeneration := 0;
     ef_DeadlineIdentity := 0; ef_DeadlineOffset := 0; ef_Delay := 0;
     ef_RequestedFunction := 0; ef_ReceivedFunction := 0; ef_LogicalTable := NoTable;
     ef_PhysicalOffset := 0; ef_PhysicalQuantity := 0; ef_RawADUHex := "";
     ef_TransmitResult := None; ef_WireOutcome := None; ef_Detail := "" |}.

(** The fields the event shares with [tcpEventFields] are [te_fields]. *)
Record TCPTransportEvent : Type := mkTCPTransportEvent {
  te_ClockContractVersion : string;
  te_Endpoint : string;
  te_Kind : TCPTransportEventKind;
  te_MonotonicOffset : Z;
  te_Sequence : Z;
  te_fields : tcpEventFields
}.

(** * Metrics *)

Record TCPResponseClassMetrics : Type := mkTCPResponseClassMetrics {
  rm_SuccessfulData : Z;
  rm_ProtocolException : Z;
  rm_MalformedResponse : Z;
  rm_LateAfterAbandonment : Z;
  rm_DroppedUncorrelated : Z
}.

Record TCPEndpointMetrics : Type := mkTCPEndpointMetrics {
  em_QueueServices : Z;
  em_TotalQueueWait : Z;
  em_MaxQueueWait : Z;
  em_CoalescedPhysicalReads : Z;
  em_CoalescedLogicalViews : Z;
  em_CoalescedWireReadSavings : Z;
  em_Retries : Z;
  em_RequestTimeouts : Z;
  em_ResponseTimeouts : Z;
  em_Reconnects : Z;
  em_Cancellations : Z;
  em_SourceObservationGaps : Z;
  em_EventSinkPanics : Z;
  em_Responses : TCPResponseClassMetrics;
  em_OversizePDUResponses : Z
}.

#[export] Instance response_metrics_fields : Fields TCPResponseClassMetrics := fun m =>
  mkTCPResponseClassMetrics (rm_SuccessfulData m) (rm_ProtocolException m)
    (rm_MalformedResponse m) (rm_LateAfterAbandonment m) (rm_DroppedUncorrelated m).
#[export] Instance endpoint_metrics_fields : Fields TCPEndpointMetrics := fun m =>
  mkTCPEndpointMetrics (em_QueueServices m) (em_TotalQueueWait m) (em_MaxQueueWait m)
    (em_CoalescedPhysicalReads m) (em_CoalescedLogicalViews m)
    (em_CoalescedWireReadSavings m) (em_Retries m) (em_RequestTimeouts m)
    (em_ResponseTimeouts m) (em_Reconnects m) (em_Cancellations m)
    (em_SourceObservationGaps m) (em_EventSinkPanics m) (em_Responses m)
    (em_OversizePDUResponses m).

Definition no_metrics : TCPEndpointMetrics :=
  {| em_QueueServices := 0; em_TotalQueueWait := 0; em_MaxQueueWait := 0;
     em_CoalescedPhysicalReads := 0; em_CoalescedLogicalViews := 0;
     em_CoalescedWireReadSavings := 0; em_Retries := 0; em_RequestTimeouts := 0;
     em_ResponseTimeouts := 0; em_Reconnects := 0; em_Cancellations := 0;
     em_SourceObservationGaps := 0; em_EventSinkPanics := 0;
     em_Responses :=
       {| rm_SuccessfulData := 0; rm_ProtocolException := 0; rm_MalformedResponse := 0;
          rm_LateAfterAbandonment := 0; rm_DroppedUncorrelated := 0 |};
     em_OversizePDUResponses := 0 |}.

(** Addition to a [uint64] counter that stays at its maximum. *)
Definition saturatingAdd (value delta : Z) : Z :=
  if delta =? 0 then value
  else if value >? MaxUint64 - delta then MaxUint64
  else value + delta.

Definition saturatingIncrement (value : Z) : Z := saturatingAdd value 1.

Definition saturatingDurationAdd (current delta : Z) : Z :=
  if delta <=? 0 then current
  else if current >? MaxInt64 - delta then MaxInt64
  else current + delta.

(** * The timeline *)

Record tcpEndpointTimeline : Type := mkTcpEndpointTimeline {
  tl_endpoint : string;
  tl_contract : string;
  tl_sink : option (TCPTransportEvent -> bool);
  tl_sequence : Z;
  tl_exhausted : bool;
  tl_metrics : TCPEndpointMetrics;
  tl_enqueued : gmap Z Z
}.

#[export] Instance timeline_fields : Fields tcpEndpointTimeline := fun t =>
  mkTcpEndpointTimeline (tl_endpoint t) (tl_contract t) (tl_sink t) (tl_sequence t)
    (tl_exhausted t) (tl_metrics t) (tl_enqueued t).

Definition newTCPEndpointTimeline (endpoint contract : string)
    (sink : option (TCPTransportEvent -> bool)) : tcpEndpointTimeline :=
  {| tl_endpoint := endpoint; tl_contract := contract; tl_sink := sink; tl_sequence := 0;
     tl_exhausted := false; tl_metrics := no_metrics; tl_enqueued := ∅ |}.

Definition tcpOversizePDUDetail : string := "oversize_pdu".

Definition exhausted_detail : string := "event_sequence_exhausted".

(** The service of a request that waited since [enqueuedAt]. *)
Definition observe_wait (m : TCPEndpointMetrics) (wait : Z) : TCPEndpointMetrics :=
  let m := m <| em_TotalQueueWait := saturatingDurationAdd (em_TotalQueueWait m) wait |> in
  if wait >? em_MaxQueueWait m then m <| em_MaxQueueWait := wait |> else m.

Definition observe_response (r : TCPResponseClassMetrics) (outcome : option WireOutcome)
    : TCPResponseClassMetrics :=
  match outcome with
  | Some WireSuccessfulData => r <| rm_SuccessfulData := saturatingIncrement (rm_SuccessfulData r) |>
  | Some WireProtocolException =>
      r <| rm_ProtocolException := saturatingIncrement (rm_ProtocolException r) |>
  | Some WireMalformedResponse =>
      r <| rm_MalformedResponse := saturatingIncrement (rm_MalformedResponse r) |>
  | Some WireLateAfterAbandonment =>
      r <| rm_LateAfterAbandonment := saturatingIncrement (rm_LateAfterAbandonment r) |>
  | Some WireDroppedUncorrelated =>
      r <| rm_DroppedUncorrelated := saturatingIncrement (rm_DroppedUncorrelated r) |>
  | None => r
  end.

Definition observeMetricsLocked (t : tcpEndpointTimeline) (event : TCPTransportEvent)
    : tcpEndpointTimeline :=
  let f := te_fields event in
  let m := tl_metrics t in
  let id := ef_RequestID f in
  match te_Kind event with
  | TCPEventEnqueue =>
      if id =? 0 then t
      else t <| tl_enqueued := <[id := te_MonotonicOffset event]> (tl_enqueued t) |>
  | TCPEventAdmission =>
      let retried := String.eqb (ef_Detail f) "retry_admitted" in
      let t := if retried then t <| tl_metrics := m <| em_Retries := saturatingIncrement (em_Retries m) |> |> else t in
      if negb (String.eqb (ef_Detail f) "admitted") && negb retried then
        t <| tl_enqueued := delete id (tl_enqueued t) |>
      else t
  | TCPEventQueueService =>
      let m := m <| em_QueueServices := saturatingIncrement (em_QueueServices m) |> in
      let m :=
        match tl_enqueued t !! id with
        | Some enqueuedAt =>
            if te_MonotonicOffset event >=? enqueuedAt then
              observe_wait m (te_MonotonicOffset event - enqueuedAt)
            else m
        | None => m
        end in
      t <| tl_metrics := m |> <| tl_enqueued := delete id (tl_enqueued t) |>
  | TCPEventCoalescing =>
      let views := ef_LogicalViewCount f in
      if views >=? 2 then
        t <| tl_metrics :=
               m <| em_CoalescedPhysicalReads := saturatingIncrement (em_CoalescedPhysicalReads m) |>
                 <| em_CoalescedLogicalViews := saturatingAdd (em_CoalescedLogicalViews m) views |>
                 <| em_CoalescedWireReadSavings :=
                      saturatingAdd (em_CoalescedWireReadSavings m) (views - 1) |> |>
      else t
  | TCPEventReconnect =>
      t <| tl_metrics := m <| em_Reconnects := saturatingIncrement (em_Reconnects m) |> |>
  | TCPEventRequestTimerFire =>
      t <| tl_metrics :=
             m <| em_RequestTimeouts := saturatingIncrement (em_RequestTimeouts m) |>
               <| em_SourceObservationGaps := saturatingIncrement (em_SourceObservationGaps m) |> |>
  | TCPEventResponseTimerFire =>
      t <| tl_metrics :=
             m <| em_ResponseTimeouts := saturatingIncrement (em_ResponseTimeouts m) |>
               <| em_SourceObservationGaps := saturatingIncrement (em_SourceObservationGaps m) |> |>
  | TCPEventCallerCancellation =>
      t <| tl_metrics := m <| em_Cancellations := saturatingIncrement (em_Cancellations m) |> |>
  | TCPEventResponseReceive =>
      let m :=
        if String.eqb (ef_Detail f) tcpOversizePDUDetail then
          m <| em_OversizePDUResponses := saturatingIncrement (em_OversizePDUResponses m) |>
        else m in
      t <| tl_metrics := m <| em_Responses := observe_response (em_Responses m) (ef_WireOutcome f) |> |>
  | _ => t
  end.

(** The call of the sink, with the panic it may raise contained and counted. *)
Definition call_sink (t : tcpEndpointTimeline) (event : TCPTransportEvent) : tcpEndpointTimeline :=
  match tl_sink t with
  | Some panics =>
      if panics event then
        let m := tl_metrics t in
        t <| tl_metrics := m <| em_EventSinkPanics := saturatingIncrement (em_EventSinkPanics m) |> |>
      else t
  | None => t
  end.

Definition record (t : tcpEndpointTimeline) (kind : TCPTransportEventKind)
    (fields : tcpEventFields) (now : Z) : tcpEndpointTimeline * TCPTransportEvent :=
  if tl_exhausted t || (tl_sequence t =? MaxUint64) then
    (t <| tl_exhausted := true |>,
     {| te_ClockContractVersion := tl_contract t; te_Endpoint := tl_endpoint t; te_Kind := kind;
        te_MonotonicOffset := now; te_Sequence := 0;
        te_fields := no_fields <| ef_Detail := exhausted_detail |> |})
  else
    let t := t <| tl_sequence := tl_sequence t + 1 |> in
    let exhaustedNow := tl_sequence t =? MaxUint64 in
    let t := if exhaustedNow then t <| tl_exhausted := true |> else t in
    let fields :=
      if exhaustedNow then
        let detail := ef_Detail fields in
        let detail := if String.eqb detail "" then detail else (detail ++ ";")%string in
        fields <| ef_Detail := (detail ++ exhausted_detail)%string |>
      else fields in
    let event :=
      {| te_ClockContractVersion := tl_contract t; te_Endpoint := tl_endpoint t; te_Kind := kind;
         te_MonotonicOffset := now; te_Sequence := tl_sequence t; te_fields := fields |} in
    (call_sink (observeMetricsLocked t event) event, event).

Definition recordCoalescing (t : tcpEndpointTimeline) (fields : tcpEventFields)
    (logicalViews now : Z) : tcpEndpointTimeline :=
  if logicalViews <? 2 then t
  else fst (record t TCPEventCoalescing (fields <| ef_LogicalViewCount := logicalViews |>) now).

Definition recordReconnect (t : tcpEndpointTimeline) (fields : tcpEventFields) (now : Z)
    : tcpEndpointTimeline :=
  fst (record t TCPEventReconnect (fields <| ef_Detail := "connected"%string |>) now).

Definition metricsSnapshot (t : tcpEndpointTimeline) : TCPEndpointMetrics := tl_metrics t.

Definition forgetEnqueue (t : tcpEndpointTimeline) (requestID : Z) : tcpEndpointTimeline :=
  if requestID =? 0 then t else t <| tl_enqueued := delete requestID (tl_enqueued t) |>.

Definition Exhausted (t : tcpEndpointTimeline) : bool := tl_exhausted t.
