(* ===== verification/TcpTimelineFacts.v ===== *)
(** The timeline of a TCP endpoint as a refinement of a log: over any run the events
    handed to the sink are numbered from one without a gap, nothing follows the last
    number, and every metric is the (saturated) tally of the log. *)

From S2P Require Import Prelude Pdu DeviceId DeviceIdTolerant TcpAdu TcpOwner TcpTimeline.

(** * Runs *)

Inductive timeline_op : Type :=
| OpRecord (kind : TCPTransportEventKind) (fields : tcpEventFields) (now : Z)
| OpForget (requestID : Z).

(** The events with a number, in order. *)
Fixpoint timeline_run (t : tcpEndpointTimeline) (ops : list timeline_op)
    : tcpEndpointTimeline * list TCPTransportEvent :=
  match ops with
  | [] => (t, [])
  | OpRecord kind fields now :: ops =>
      let '(t, event) := record t kind fields now in
      let '(t, log) := timeline_run t ops in
      (t, if te_Sequence event =? 0 then log else event :: log)
  | OpForget requestID :: ops => timeline_run (forgetEnqueue t requestID) ops
  end.

(** * Tallies *)

Definition tally (weight : TCPTransportEvent -> Z) (log : list TCPTransportEvent) : Z :=
  foldr (fun e n => weight e + n) 0 log.

Definition saturated (n : Z) : Z := Z.min n MaxUint64.

Lemma tally_snoc weight log e : tally weight (log ++ [e]) = tally weight log + weight e.
Proof. induction log as [|x log IH]; cbn; [lia|]. unfold tally in *. lia. Qed.

Lemma tally_nonneg weight log : (forall e, 0 <= weight e) -> 0 <= tally weight log.
Proof. intros H. induction log as [|x log IH]; cbn; [lia|]. unfold tally in *. specialize (H x). lia. Qed.

Lemma saturating_add_saturated n d : 0 <= n -> 0 <= d -> saturatingAdd (saturated n) d = saturated (n + d).
Proof.
  intros Hn Hd. unfold saturatingAdd, saturated, MaxUint64. destruct (d =? 0) eqn:E; bool_hyps; [f_equal; lia|].
  case_test; bool_hyps; lia.
Qed.

(** * What each event counts for *)

Definition of_kind (k : TCPTransportEventKind) (e : TCPTransportEvent) : bool := bool_decide (te_Kind e = k).

Definition one (b : bool) : Z := if b then 1 else 0.

Definition retry_weight (e : TCPTransportEvent) : Z :=
  one (of_kind TCPEventAdmission e && String.eqb (ef_Detail (te_fields e)) "retry_admitted").
Definition coalesced (e : TCPTransportEvent) : bool :=
  of_kind TCPEventCoalescing e && (ef_LogicalViewCount (te_fields e) >=? 2).
Definition views_weight (e : TCPTransportEvent) : Z :=
  if coalesced e then ef_LogicalViewCount (te_fields e) else 0.
Definition savings_weight (e : TCPTransportEvent) : Z :=
  if coalesced e then ef_LogicalViewCount (te_fields e) - 1 else 0.
Definition gap_weight (e : TCPTransportEvent) : Z :=
  one (of_kind TCPEventRequestTimerFire e || of_kind TCPEventResponseTimerFire e).
Definition oversize_weight (e : TCPTransportEvent) : Z :=
  one (of_kind TCPEventResponseReceive e && String.eqb (ef_Detail (te_fields e)) tcpOversizePDUDetail).
Definition outcome_weight (o : WireOutcome) (e : TCPTransportEvent) : Z :=
  one (of_kind TCPEventResponseReceive e && bool_decide (ef_WireOutcome (te_fields e) = Some o)).
Definition panic_weight (sink : option (TCPTransportEvent -> bool)) (e : TCPTransportEvent) : Z :=
  match sink with Some panics => one (panics e) | None => 0 end.

(** The counters are the tallies of the log. *)
Record tallied (sink : option (TCPTransportEvent -> bool)) (log : list TCPTransportEvent)
    (m : TCPEndpointMetrics) : Prop := mkTallied {
  ta_services : em_QueueServices m = saturated (tally (fun e => one (of_kind TCPEventQueueService e)) log);
  ta_physical : em_CoalescedPhysicalReads m = saturated (tally (fun e => one (coalesced e)) log);
  ta_views : em_CoalescedLogicalViews m = saturated (tally views_weight log);
  ta_savings : em_CoalescedWireReadSavings m = saturated (tally savings_weight log);
  ta_retries : em_Retries m = saturated (tally retry_weight log);
  ta_request : em_RequestTimeouts m = saturated (tally (fun e => one (of_kind TCPEventRequestTimerFire e)) log);
  ta_response : em_ResponseTimeouts m = saturated (tally (fun e => one (of_kind TCPEventResponseTimerFire e)) log);
  ta_reconnects : em_Reconnects m = saturated (tally (fun e => one (of_kind TCPEventReconnect e)) log);
  ta_cancellations : em_Cancellations m = saturated (tally (fun e => one (of_kind TCPEventCallerCancellation e)) log);
  ta_gaps : em_SourceObservationGaps m = saturated (tally gap_weight log);
  ta_panics : em_EventSinkPanics m = saturated (tally (panic_weight sink) log);
  ta_success : rm_SuccessfulData (em_Responses m) = saturated (tally (outcome_weight WireSuccessfulData) log);
  ta_exception : rm_ProtocolException (em_Responses m) = saturated (tally (outcome_weight WireProtocolException) log);
  ta_malformed : rm_MalformedResponse (em_Responses m) = saturated (tally (outcome_weight WireMalformedResponse) log);
  ta_late : rm_LateAfterAbandonment (em_Responses m) = saturated (tally (outcome_weight WireLateAfterAbandonment) log);
  ta_dropped : rm_DroppedUncorrelated (em_Responses m) = saturated (tally (outcome_weight WireDroppedUncorrelated) log);
  ta_oversize : em_OversizePDUResponses m = saturated (tally oversize_weight log)
}.

(** What observing one event adds to each counter, the panics of the sink apart. *)
Record counts (e : TCPTransportEvent) (m m' : TCPEndpointMetrics) : Prop := mkCounts {
  co_services : em_QueueServices m' = saturatingAdd (em_QueueServices m) (one (of_kind TCPEventQueueService e));
  co_physical : em_CoalescedPhysicalReads m' = saturatingAdd (em_CoalescedPhysicalReads m) (one (coalesced e));
  co_views : em_CoalescedLogicalViews m' = saturatingAdd (em_CoalescedLogicalViews m) (views_weight e);
  co_savings : em_CoalescedWireReadSavings m' = saturatingAdd (em_CoalescedWireReadSavings m) (savings_weight e);
  co_retries : em_Retries m' = saturatingAdd (em_Retries m) (retry_weight e);
  co_request : em_RequestTimeouts m' = saturatingAdd (em_RequestTimeouts m) (one (of_kind TCPEventRequestTimerFire e));
  co_response : em_ResponseTimeouts m' = saturatingAdd (em_ResponseTimeouts m) (one (of_kind TCPEventResponseTimerFire e));
  co_reconnects : em_Reconnects m' = saturatingAdd (em_Reconnects m) (one (of_kind TCPEventReconnect e));
  co_cancellations : em_Cancellations m' = saturatingAdd (em_Cancellations m) (one (of_kind TCPEventCallerCancellation e));
  co_gaps : em_SourceObservationGaps m' = saturatingAdd (em_SourceObservationGaps m) (gap_weight e);
  co_panics : em_EventSinkPanics m' = em_EventSinkPanics m;
  co_success : rm_SuccessfulData (em_Responses m') = saturatingAdd (rm_SuccessfulData (em_Responses m)) (outcome_weight WireSuccessfulData e);
  co_exception : rm_ProtocolException (em_Responses m') = saturatingAdd (rm_ProtocolException (em_Responses m)) (outcome_weight WireProtocolException e);
  co_malformed : rm_MalformedResponse (em_Responses m') = saturatingAdd (rm_MalformedResponse (em_Responses m)) (outcome_weight WireMalformedResponse e);
  co_late : rm_LateAfterAbandonment (em_Responses m') = saturatingAdd (rm_LateAfterAbandonment (em_Responses m)) (outcome_weight WireLateAfterAbandonment e);
  co_dropped : rm_DroppedUncorrelated (em_Responses m') = saturatingAdd (rm_DroppedUncorrelated (em_Responses m)) (outcome_weight WireDroppedUncorrelated e);
  co_oversize : em_OversizePDUResponses m' = saturatingAdd (em_OversizePDUResponses m) (oversize_weight e)
}.

Lemma observe_counts t e : counts e (tl_metrics t) (tl_metrics (observeMetricsLocked t e)).
Proof.
  destruct e as [v ep k now sq f]. unfold observeMetricsLocked. cbn [te_Kind te_fields te_MonotonicOffset].
  destruct k.
  all: try (constructor; reflexivity).
  - case_test; constructor; reflexivity.
  - cbv zeta. destruct (String.eqb (ef_Detail f) "retry_admitted") eqn:E; cbn [negb].
    + rewrite andb_false_r. constructor; try reflexivity. unfold retry_weight. cbn. by rewrite E.
    + case_test; (constructor; try reflexivity; unfold retry_weight; cbn; by rewrite E).
  - cbv zeta. destruct (tl_enqueued t !! ef_RequestID f) as [at_|]; [case_test|];
      try (constructor; reflexivity). unfold observe_wait. case_test; constructor; reflexivity.
  - cbv zeta. destruct (ef_LogicalViewCount f >=? 2) eqn:E;
      (constructor; try reflexivity; unfold coalesced, views_weight, savings_weight, coalesced; cbn; by rewrite E).
  - cbv zeta. destruct (String.eqb (ef_Detail f) tcpOversizePDUDetail) eqn:E, (ef_WireOutcome f) as [[]|] eqn:Ef;
      (constructor; try reflexivity; unfold oversize_weight, outcome_weight; cbn; by rewrite ?E, ?Ef).
Qed.

Lemma one_nonneg b : 0 <= one b.
Proof. by destruct b. Qed.

#[export] Hint Resolve one_nonneg tally_nonneg : modbus.

Lemma counter_snoc weight log e value value' :
  (forall e, 0 <= weight e) -> value = saturated (tally weight log) ->
  value' = saturatingAdd value (weight e) -> value' = saturated (tally weight (log ++ [e])).
Proof.
  intros Hw -> ->. rewrite tally_snoc. apply saturating_add_saturated; [|done]. by apply tally_nonneg.
Qed.

Lemma coalesced_weights e : 0 <= views_weight e /\ 0 <= savings_weight e.
Proof.
  unfold views_weight, savings_weight. destruct (coalesced e) eqn:E; [|done].
  unfold coalesced in E. bool_hyps. lia.
Qed.

Lemma tallied_snoc t log e :
  tallied (tl_sink t) log (tl_metrics t) ->
  tallied (tl_sink t) (log ++ [e]) (tl_metrics (call_sink (observeMetricsLocked t e) e)).
Proof.
  intros T. pose proof (observe_counts t e) as C.
  set (m' := tl_metrics (observeMetricsLocked t e)) in *.
  assert (Hs : tl_sink (observeMetricsLocked t e) = tl_sink t)
    by (unfold observeMetricsLocked; destruct (te_Kind e); cbv zeta; repeat case_test; done).
  assert (Hm : exists p, tl_metrics (call_sink (observeMetricsLocked t e) e) = m' <| em_EventSinkPanics := p |> /\
    p = saturatingAdd (em_EventSinkPanics m') (panic_weight (tl_sink t) e)).
  { unfold call_sink. rewrite Hs. fold m'. unfold panic_weight.
    destruct (tl_sink t) as [panics|]; [destruct (panics e)|]; cbn;
      eexists; (split; [|reflexivity]); fold m'; by destruct m'. }
  destruct Hm as (p & -> & Hp). rewrite (co_panics _ _ _ C) in Hp.
  assert (Hc := coalesced_weights).
  destruct T, C. constructor; cbn;
    (eapply counter_snoc; [|eassumption|eassumption]); intros x;
    unfold retry_weight, gap_weight, oversize_weight, outcome_weight, panic_weight;
    try apply one_nonneg; try apply Hc.
  destruct (tl_sink t); [apply one_nonneg|done].
Qed.

(** * The invariant of a run *)

Record timeline_ok (sink : option (TCPTransportEvent -> bool)) (log : list TCPTransportEvent)
    (t : tcpEndpointTimeline) : Prop := mkTimelineOk {
  to_sink : tl_sink t = sink;
  to_metrics : tallied sink log (tl_metrics t);
  to_numbers : te_Sequence <$> log = seqZ 1 (zlen log);
  to_sequence : tl_sequence t = zlen log;
  to_bound : zlen log <= MaxUint64;
  to_exhausted : tl_exhausted t = true <-> zlen log = MaxUint64
}.

Lemma observe_same t e :
  let t' := call_sink (observeMetricsLocked t e) e in
  tl_sink t' = tl_sink t /\ tl_sequence t' = tl_sequence t /\ tl_exhausted t' = tl_exhausted t.
Proof.
  assert (H : forall t, tl_sink (call_sink t e) = tl_sink t /\ tl_sequence (call_sink t e) = tl_sequence t /\
    tl_exhausted (call_sink t e) = tl_exhausted t).
  { intros u. unfold call_sink. destruct (tl_sink u) as [p|] eqn:E; [|done]. by case_test. }
  cbv zeta. destruct (H (observeMetricsLocked t e)) as (-> & -> & ->).
  unfold observeMetricsLocked; destruct (te_Kind e); cbv zeta; repeat case_test; done.
Qed.

Lemma record_ok sink log t kind fields now t' e :
  timeline_ok sink log t -> record t kind fields now = (t', e) ->
  timeline_ok sink (if te_Sequence e =? 0 then log else log ++ [e]) t'.
Proof.
  intros [Hs Hm Hn Hq Hb Hx]. unfold record. pose proof (zlen_nonneg log).
  destruct (tl_exhausted t || (tl_sequence t =? MaxUint64)) eqn:E.
  { intros [= <- <-]. cbn. constructor; cbn; auto. split; [|done]. intros _.
    apply orb_true_iff in E as [E|E]; [by apply Hx|]. bool_hyps. congruence. }
  bool_hyps. set (t1 := t <| tl_sequence := tl_sequence t + 1 |>).
  set (t2 := if tl_sequence t1 =? MaxUint64 then t1 <| tl_exhausted := true |> else t1).
  cbv zeta. fold t1. fold t2. set (ev := {| te_ClockContractVersion := _ |}). intros [= <- <-].
  assert (H2 : tl_sink t2 = sink /\ tl_sequence t2 = zlen log + 1 /\ tl_metrics t2 = tl_metrics t /\
    (tl_exhausted t2 = true <-> zlen log + 1 = MaxUint64) /\ tl_enqueued t2 = tl_enqueued t).
  { unfold t2. destruct (tl_sequence t1 =? MaxUint64) eqn:Em; cbn in *; rewrite <- Hq; bool_hyps; conj; try done.
    split; [congruence|done]. }
  destruct H2 as (S2 & Q2 & M2 & X2 & E2).
  assert (Hev : te_Sequence ev = zlen log + 1) by done.
  rewrite Hev. rewrite (proj2 (Z.eqb_neq _ _)) by lia.
  destruct (observe_same t2 ev) as (S3 & Q3 & X3).
  constructor.
  - congruence.
  - rewrite <- S2. apply tallied_snoc. by rewrite S2, M2.
  - rewrite fmap_app, Hn. change (te_Sequence <$> [ev]) with [te_Sequence ev]. rewrite Hev. zlen_simpl.
    rewrite seqZ_app by lia. f_equal. cbn. by rewrite Z.add_comm.
  - rewrite Q3, Q2. zlen_simpl. lia.
  - zlen_simpl. lia.
  - rewrite X3, X2. zlen_simpl. by rewrite Z.add_0_r.
Qed.

Lemma timeline_run_ok sink ops log t t' log' :
  timeline_ok sink log t -> timeline_run t ops = (t', log') ->
  timeline_ok sink (log ++ log') t'.
Proof.
  revert log t log'. induction ops as [|op ops IH]; intros log t log' Hok.
  { cbn. intros [= <- <-]. by rewrite (right_id_L [] (++)). }
  destruct op as [kind fields now|id]; cbn [timeline_run].
  - destruct (record t kind fields now) as [t1 e] eqn:Er. destruct (timeline_run t1 ops) as [t2 l] eqn:Eu.
    intros [= <- <-]. pose proof (record_ok _ _ _ _ _ _ _ _ Hok Er) as H1.
    specialize (IH _ _ _ H1 Eu). destruct (te_Sequence e =? 0); [done|].
    by rewrite <- (assoc_L (++)) in IH.
  - apply IH. destruct Hok. unfold forgetEnqueue. by case_test.
Qed.

Lemma new_timeline_ok endpoint contract sink :
  timeline_ok sink [] (newTCPEndpointTimeline endpoint contract sink).
Proof.
  by constructor.
Qed.

(** * The log of what was recorded *)

(** The event that recording [kind] and [fields] at [now] as number [n] is. *)
Definition numbered_event (endpoint contract : string) (n : Z) (kind : TCPTransportEventKind)
    (fields : tcpEventFields) (now : Z) : TCPTransportEvent :=
  let mark := if String.eqb (ef_Detail fields) "" then exhausted_detail
              else ((ef_Detail fields ++ ";") ++ exhausted_detail)%string in
  {| te_ClockContractVersion := contract; te_Endpoint := endpoint; te_Kind := kind;
     te_MonotonicOffset := now; te_Sequence := n;
     te_fields := if n =? MaxUint64 then fields <| ef_Detail := mark |> else fields |}.

(** The records in order, numbered from [n], up to the last number. *)
Fixpoint numbered (endpoint contract : string) (n : Z) (ops : list timeline_op) : list TCPTransportEvent :=
  match ops with
  | [] => []
  | OpForget _ :: ops => numbered endpoint contract n ops
  | OpRecord kind fields now :: ops =>
      if n >? MaxUint64 then []
      else numbered_event endpoint contract n kind fields now :: numbered endpoint contract (n + 1) ops
  end.

(** When the request [id] was put in the queue it is still in, by what was recorded, the
    most recent first: it leaves the queue when it is served, refused or forgotten. *)
Fixpoint waiting_since (past : list timeline_op) (id : Z) : option Z :=
  match past with
  | [] => None
  | OpForget forgotten :: past => if forgotten =? id then None else waiting_since past id
  | OpRecord kind fields now :: past =>
      if negb (ef_RequestID fields =? id) || (id =? 0) then waiting_since past id
      else
      match kind with
      | TCPEventEnqueue => Some now
      | TCPEventQueueService => None
      | TCPEventAdmission =>
          if String.eqb (ef_Detail fields) "admitted" || String.eqb (ef_Detail fields) "retry_admitted" then
            waiting_since past id
          else None
      | _ => waiting_since past id
      end
  end.

Definition wait_of (past : list timeline_op) (kind : TCPTransportEventKind) (id now : Z) : list Z :=
  match kind, waiting_since past id with
  | TCPEventQueueService, Some since => if now >=? since then [now - since] else []
  | _, _ => []
  end.

(** The waits of the requests that were served, up to the last number. *)
Fixpoint queue_waits (n : Z) (past ops : list timeline_op) : list Z :=
  match ops with
  | [] => []
  | OpForget id :: ops => queue_waits n (OpForget id :: past) ops
  | OpRecord kind fields now :: ops =>
      if n >? MaxUint64 then []
      else wait_of past kind (ef_RequestID fields) now
           ++ queue_waits (n + 1) (OpRecord kind fields now :: past) ops
  end.

Definition total_of (waits : list Z) : Z := Z.min (foldr Z.add 0 waits) MaxInt64.
Definition longest_of (waits : list Z) : Z := foldr Z.max 0 waits.

Lemma waiting_zero past : waiting_since past 0 = None.
Proof.
  induction past as [|[kind fields now|id] past IH]; [done|..]; cbn; [by rewrite orb_true_r|]. by case_test.
Qed.

(** A timeline that has recorded [past] and still has numbers to give. *)
Record recorded_so_far (endpoint contract : string) (past : list timeline_op) (t : tcpEndpointTimeline) : Prop :=
  mkRecordedSoFar {
  rs_endpoint : tl_endpoint t = endpoint;
  rs_contract : tl_contract t = contract;
  rs_exhausted : tl_exhausted t = false;
  rs_sequence : 0 <= tl_sequence t < MaxUint64;
  rs_enqueued : forall id, tl_enqueued t !! id = waiting_since past id
}.

Lemma observe_enqueued t e past :
  (forall id, tl_enqueued t !! id = waiting_since past id) ->
  forall id, tl_enqueued (call_sink (observeMetricsLocked t e) e) !! id
    = waiting_since (OpRecord (te_Kind e) (te_fields e) (te_MonotonicOffset e) :: past) id.
Proof.
  intros H id. assert (Hc : forall u, tl_enqueued (call_sink u e) = tl_enqueued u).
  { intros u. unfold call_sink. destruct (tl_sink u) as [p|]; [|done]. by case_test. }
  rewrite Hc. clear Hc. destruct e as [v ep k now sq f]. unfold observeMetricsLocked.
  cbn [te_Kind te_fields te_MonotonicOffset waiting_since].
  assert (Hskip : forall m : gmap Z Z, (forall j, j <> ef_RequestID f -> m !! j = tl_enqueued t !! j) ->
    negb (ef_RequestID f =? id) || (id =? 0) = true -> m !! 0 = None -> m !! id = waiting_since past id).
  { intros m Hm Hj H0. destruct (decide (id = 0)) as [->|Hid]; [by rewrite waiting_zero|].
    destruct (decide (id = ef_RequestID f)) as [->|]; [|by rewrite Hm, H].
    rewrite Z.eqb_refl in Hj. cbn in Hj. bool_hyps. done. }
  assert (H00 : tl_enqueued t !! 0 = None) by (by rewrite H, waiting_zero).
  destruct (negb (ef_RequestID f =? id) || (id =? 0)) eqn:Ej.
  - destruct k; try apply H.
    + case_test; [apply H|]. cbn. apply Hskip; [|done|].
      * intros j Hne. by rewrite lookup_insert_ne.
      * bool_hyps. by rewrite lookup_insert_ne.
    + cbv zeta. destruct (String.eqb _ "retry_admitted"); case_test; cbn; try apply H;
        (apply Hskip; [|done|]; [intros j Hne; by rewrite lookup_delete_ne|by apply lookup_delete_None; right]).
    + cbn. apply Hskip; [|done|]; [intros j Hne; by rewrite lookup_delete_ne|by apply lookup_delete_None; right].
    + cbv zeta. case_test; apply H.
  - bool_hyps. subst id. destruct k; try apply H.
    + test_false (ef_RequestID f =? 0). cbn. by rewrite lookup_insert_eq.
    + cbv zeta. destruct (String.eqb (ef_Detail f) "admitted") eqn:E1, (String.eqb (ef_Detail f) "retry_admitted") eqn:E2;
        cbn; try apply H. by rewrite lookup_delete_eq.
    + cbn. by rewrite lookup_delete_eq.
    + cbv zeta. case_test; apply H.
Qed.

(** What observing an event does to the two waits. *)
Lemma observe_queue_waits t e past :
  (forall id, tl_enqueued t !! id = waiting_since past id) ->
  let t' := call_sink (observeMetricsLocked t e) e in
  let waits := wait_of past (te_Kind e) (ef_RequestID (te_fields e)) (te_MonotonicOffset e) in
  em_TotalQueueWait (tl_metrics t') = foldl saturatingDurationAdd (em_TotalQueueWait (tl_metrics t)) waits /\
  em_MaxQueueWait (tl_metrics t') = foldl Z.max (em_MaxQueueWait (tl_metrics t)) waits.
Proof.
  intros H. cbv zeta. assert (Hc : forall u, em_TotalQueueWait (tl_metrics (call_sink u e)) = em_TotalQueueWait (tl_metrics u) /\
    em_MaxQueueWait (tl_metrics (call_sink u e)) = em_MaxQueueWait (tl_metrics u)).
  { intros u. unfold call_sink. destruct (tl_sink u) as [p|]; [|done]. by case_test. }
  destruct (Hc (observeMetricsLocked t e)) as [-> ->]. clear Hc.
  destruct e as [v ep k now sq f]. unfold observeMetricsLocked, wait_of. cbn [te_Kind te_fields te_MonotonicOffset].
  rewrite <- (H (ef_RequestID f)).
  destruct k; cbv zeta; cbn; repeat case_test; try done; destruct (tl_enqueued t !! ef_RequestID f) as [since|]; try done.
  all: destruct (now >=? since); [|done]; unfold observe_wait; cbn; case_test; cbn; (split; [done|]); bool_hyps; lia.
Qed.

(** An exhausted timeline records nothing. *)
Lemma run_exhausted ops t t' log :
  tl_exhausted t = true -> timeline_run t ops = (t', log) -> log = [] /\ tl_metrics t' = tl_metrics t.
Proof.
  revert t log. induction ops as [|[kind fields now|id] ops IH]; intros t log Ht; cbn [timeline_run].
  - by intros [= <- <-].
  - unfold record. rewrite Ht. cbn [orb]. destruct (timeline_run _ ops) as [t1 log1] eqn:E. intros [= <- <-].
    by apply IH in E as [-> ->].
  - intros E. apply IH in E as [-> ->]; unfold forgetEnqueue; by case_test.
Qed.

Lemma numbered_none endpoint contract n ops : n > MaxUint64 -> numbered endpoint contract n ops = [].
Proof. intros Hn. induction ops as [|[kind fields now|id] ops IH]; [done| |done]. cbn. by test_true (n >? MaxUint64). Qed.

Lemma queue_waits_none n past ops : n > MaxUint64 -> queue_waits n past ops = [].
Proof.
  intros Hn. revert past. induction ops as [|[kind fields now|id] ops IH]; intros past; [done| |apply IH].
  cbn. by test_true (n >? MaxUint64).
Qed.

(** One record of a timeline that still has a number for it. *)
Lemma record_numbered endpoint contract past t kind fields now t' e :
  recorded_so_far endpoint contract past t -> record t kind fields now = (t', e) ->
  let waits := wait_of past kind (ef_RequestID fields) now in
  e = numbered_event endpoint contract (tl_sequence t + 1) kind fields now /\
  tl_sequence t' = tl_sequence t + 1 /\
  em_TotalQueueWait (tl_metrics t') = foldl saturatingDurationAdd (em_TotalQueueWait (tl_metrics t)) waits /\
  em_MaxQueueWait (tl_metrics t') = foldl Z.max (em_MaxQueueWait (tl_metrics t)) waits /\
  (if tl_sequence t + 1 =? MaxUint64 then tl_exhausted t' = true
   else recorded_so_far endpoint contract (OpRecord kind fields now :: past) t').
Proof.
  intros [He Hc Hx Hs Hq]. unfold record. rewrite Hx. test_false (false || (tl_sequence t =? MaxUint64)).
  set (t1 := t <| tl_sequence := tl_sequence t + 1 |>).
  set (u := if tl_sequence t1 =? MaxUint64 then t1 <| tl_exhausted := true |> else t1).
  cbv zeta. fold t1. fold u. set (ev := {| te_ClockContractVersion := _ |}). intros [= <- <-].
  set (n := tl_sequence t + 1).
  assert (Hu : tl_sequence u = n /\ tl_endpoint u = endpoint /\ tl_contract u = contract /\
    tl_enqueued u = tl_enqueued t /\ tl_metrics u = tl_metrics t /\ tl_exhausted u = (n =? MaxUint64)).
  { subst u. change (tl_sequence t1) with n. destruct (n =? MaxUint64); cbn; conj; try done; congruence. }
  destruct Hu as (U1 & U2 & U3 & U4 & U5 & U6).
  assert (Hev : ev = numbered_event endpoint contract n kind fields now).
  { subst ev. unfold numbered_event. rewrite U2, U3, U1. change (tl_sequence t1) with n. f_equal.
    destruct (n =? MaxUint64); [|done]. destruct (String.eqb (ef_Detail fields) "") eqn:E0.
    - apply String.eqb_eq in E0. by rewrite E0.
    - done. }
  assert (Hid : ef_RequestID (te_fields ev) = ef_RequestID fields) by (rewrite Hev; cbn; by destruct (n =? MaxUint64)).
  assert (Hq' : forall id, tl_enqueued u !! id = waiting_since past id) by (by rewrite U4).
  destruct (observe_queue_waits u ev past Hq') as [W1 W2]. rewrite Hid, U5 in W1, W2.
  destruct (observe_same u ev) as (_ & Q & X). conj; [done|by rewrite Q|exact W1|exact W2|].
  destruct (n =? MaxUint64) eqn:En; [by rewrite X, U6|]. bool_hyps.
  pose proof (observe_enqueued u ev past Hq') as Hobs.
  assert (Hkeep : tl_endpoint (call_sink (observeMetricsLocked u ev) ev) = tl_endpoint u /\
    tl_contract (call_sink (observeMetricsLocked u ev) ev) = tl_contract u).
  { assert (Hcs : forall w, tl_endpoint (call_sink w ev) = tl_endpoint w /\ tl_contract (call_sink w ev) = tl_contract w).
    { intros w. unfold call_sink. destruct (tl_sink w) as [p|]; [|done]. by case_test. }
    destruct (Hcs (observeMetricsLocked u ev)) as [-> ->].
    unfold observeMetricsLocked; destruct (te_Kind ev); cbv zeta; repeat case_test; done. }
  destruct Hkeep as [K1 K2]. split; [by rewrite K1|by rewrite K2|by rewrite X, U6|rewrite Q, U1; lia|].
  assert (Hf : te_fields ev = fields) by (rewrite Hev; cbn; by rewrite (proj2 (Z.eqb_neq _ _) En)).
  rewrite Hf in Hobs. exact Hobs.
Qed.

Lemma forget_so_far endpoint contract past t id :
  recorded_so_far endpoint contract past t ->
  recorded_so_far endpoint contract (OpForget id :: past) (forgetEnqueue t id).
Proof.
  intros [He Hc Hx Hs Hq]. unfold forgetEnqueue. destruct (id =? 0) eqn:E0; split; try done; intros j; cbn; rewrite ?Hq.
  - bool_hyps. subst id. destruct (0 =? j) eqn:Ej; [|done]. bool_hyps. subst j. apply waiting_zero.
  - destruct (id =? j) eqn:Ej; bool_hyps; [subst; apply lookup_delete_eq|]. by rewrite lookup_delete_ne.
Qed.

Lemma run_numbered endpoint contract ops past t t' log :
  recorded_so_far endpoint contract past t -> timeline_run t ops = (t', log) ->
  let waits := queue_waits (tl_sequence t + 1) past ops in
  log = numbered endpoint contract (tl_sequence t + 1) ops /\
  em_TotalQueueWait (tl_metrics t') = foldl saturatingDurationAdd (em_TotalQueueWait (tl_metrics t)) waits /\
  em_MaxQueueWait (tl_metrics t') = foldl Z.max (em_MaxQueueWait (tl_metrics t)) waits.
Proof.
  revert past t log. induction ops as [|[kind fields now|id] ops IH]; intros past t log Ht; cbn [timeline_run numbered queue_waits].
  - by intros [= <- <-].
  - destruct (record t kind fields now) as [t1 e] eqn:Er. destruct (timeline_run t1 ops) as [t2 log2] eqn:E2. intros [= <- <-].
    destruct (record_numbered _ _ _ _ _ _ _ _ _ Ht Er) as (-> & Hs & W1 & W2 & Hnext). pose proof (rs_sequence _ _ _ _ Ht).
    test_false (tl_sequence t + 1 >? MaxUint64). cbn [te_Sequence numbered_event]. test_false (tl_sequence t + 1 =? 0).
    rewrite !foldl_app, <- W1, <- W2. destruct (tl_sequence t + 1 =? MaxUint64) eqn:El.
    + bool_hyps. destruct (run_exhausted _ _ _ _ Hnext E2) as [-> ->]. rewrite numbered_none, queue_waits_none by lia. done.
    + destruct (IH _ _ _ Hnext E2) as (-> & -> & ->). rewrite Hs. done.
  - intros E. destruct (IH _ _ _ (forget_so_far _ _ _ _ id Ht) E) as (-> & -> & ->).
    replace (tl_sequence (forgetEnqueue t id)) with (tl_sequence t) by (unfold forgetEnqueue; by case_test).
    replace (tl_metrics (forgetEnqueue t id)) with (tl_metrics t) by (unfold forgetEnqueue; by case_test). done.
Qed.

Lemma waits_nonneg ops n past : Forall (Z.le 0) (queue_waits n past ops).
Proof.
  revert n past. induction ops as [|[kind fields now|id] ops IH]; intros n past; [constructor| |apply IH]. cbn.
  case_test; [constructor|]. apply Forall_app. split; [|apply IH]. unfold wait_of.
  destruct (waiting_since past (ef_RequestID fields)) as [since|], kind; try constructor.
  case_test; bool_hyps; repeat constructor. lia.
Qed.

Lemma saturating_sum waits total :
  Forall (Z.le 0) waits -> 0 <= total <= MaxInt64 ->
  foldl saturatingDurationAdd total waits = Z.min (total + foldr Z.add 0 waits) MaxInt64.
Proof.
  intros Hw. revert total. induction Hw as [|w waits Hw Hws IH]; intros total Ht; cbn; [lia|].
  assert (Hs : 0 <= foldr Z.add 0 waits).
  { clear IH. induction Hws; cbn; [done|]. lia. }
  rewrite IH; unfold saturatingDurationAdd; repeat case_test; bool_hyps; lia.
Qed.

Lemma longest_fold waits longest : foldl Z.max longest waits = Z.max longest (foldr Z.max longest waits).
Proof.
  revert longest. induction waits as [|w waits IH]; intros longest; cbn; [lia|]. rewrite IH.
  clear IH. induction waits as [|v waits IH]; cbn; lia.
Qed.

(** C21: The timeline refines the log of what was recorded.  Over any run of an endpoint
    the events handed to the sink are exactly the records made, in order, with their
    kinds, fields and clock readings, numbered 1, 2, 3, ... up to the last number, whose
    event says that it is the last; every counter of the metrics is the tally of those
    events, saturated at the maximum of its type, whatever the sink does; the total and
    the longest queue wait are those of the requests served, each counted from the
    recording of its entry into the queue unless it was refused or forgotten since; and
    the timeline is exhausted exactly when it has given out its last number. *)
Theorem timeline_refines_log endpoint contract sink ops t log :
  timeline_run (newTCPEndpointTimeline endpoint contract sink) ops = (t, log) ->
  log = numbered endpoint contract 1 ops /\ tallied sink log (metricsSnapshot t) /\
  em_TotalQueueWait (metricsSnapshot t) = total_of (queue_waits 1 [] ops) /\
  em_MaxQueueWait (metricsSnapshot t) = longest_of (queue_waits 1 [] ops) /\
  (Exhausted t = true <-> zlen log = MaxUint64).
Proof.
  intros Hr.
  destruct (timeline_run_ok sink ops [] _ _ _ (new_timeline_ok endpoint contract sink) Hr)
    as [Hs Hm Hn Hq Hb Hx].
  assert (H0 : recorded_so_far endpoint contract [] (newTCPEndpointTimeline endpoint contract sink)).
  { by split. }
  destruct (run_numbered _ _ _ _ _ _ _ H0 Hr) as (Hlog & Ht & Hl). cbn in Hlog, Ht, Hl.
  unfold metricsSnapshot. conj; [done|done| | |done].
  - rewrite Ht, saturating_sum by (done || apply waits_nonneg). done.
  - rewrite Hl, longest_fold. unfold longest_of.
    change (0 + 1) with 1. generalize (queue_waits 1 [] ops). intros waits. induction waits; cbn; lia.
Qed.

Definition demo_events : list timeline_op :=
  [ OpRecord TCPEventEnqueue (no_fields <| ef_RequestID := 7 |>) 10;
    OpRecord TCPEventQueueService (no_fields <| ef_RequestID := 7 |>) 25;
    OpRecord TCPEventResponseReceive (no_fields <| ef_WireOutcome := Some WireSuccessfulData |>) 30;
    OpRecord TCPEventRequestTimerFire no_fields 40 ].

Lemma timeline_refines_log_witness :
  let '(t, log) := timeline_run (newTCPEndpointTimeline "e" "c" (Some (fun e => te_Sequence e =? 3))) demo_events in
  em_TotalQueueWait (metricsSnapshot t) = 15 /\ em_EventSinkPanics (metricsSnapshot t) = 1 /\
  log = numbered "e" "c" 1 demo_events.
Proof.
  destruct (timeline_run _ demo_events) as [t log] eqn:E.
  pose proof (proj1 (timeline_refines_log "e" "c" (Some (fun e => te_Sequence e =? 3)) demo_events t log E)) as H.
  vm_compute in E. injection E as <- <-. conj; [by vm_compute|by vm_compute|exact H].
Defined.
