(* ===== verification/TcpOperation.v ===== *)
(** The operation of a TCP transport (tcp_transport.go): one write or read with its
    deadline timer and the cancellation of its caller.  The timer, the cancellation and
    the thread that performs the operation run concurrently and meet in the state of
    the operation, which changes under its mutex: every function here that stands for a
    locked section is one atomic step, and the callbacks that run between two steps of
    the thread are inputs.

    An error is the list of what [errors.Join] and wrapping keep, in the order in which
    [errors.Is] and [errors.As] look at it; the empty list is nil. *)

From S2P Require Import Prelude Pdu DeviceId DeviceIdTolerant TcpAdu TcpOwner TcpTimeline.

(** * Errors *)

(** An error of the socket: whether it is a timeout, whether it is the end of the stream,
    and what it answers as a [ProvableZeroWriteError], where it is one. *)
Inductive transport_error : Type :=
| ErrCanceled
| ErrDeadlineExceeded
| ErrProtocol (err : ProtocolError)
| ErrFrame (cause : ProtocolError) (raw : list Z)
| ErrSocket (timeout eof : bool) (provablyZero : option bool)
| ErrWrite (result : TransmitResult)
| ErrReadDeadlineRearmed.

#[export] Instance transport_error_eq_dec : EqDecision transport_error.
Proof. solve_decision. Defined.

Abbreviation errors := (list transport_error).

Definition protocol_error (err : option ProtocolError) : errors :=
  match err with Some err => [ErrProtocol err] | None => [] end.

Definition is_nil (errs : errors) : bool := bool_decide (errs = []).

Definition joined_is (err : transport_error) (errs : errors) : bool := bool_decide (err ∈ errs).

(** [isTimeoutError]: the first network error of the chain. *)
Fixpoint isTimeoutError (errs : errors) : bool :=
  match errs with
  | [] => false
  | ErrSocket timeout _ _ :: _ => timeout
  | _ :: errs => isTimeoutError errs
  end.

Fixpoint as_write_error (errs : errors) : option TransmitResult :=
  match errs with
  | [] => None
  | ErrWrite result :: _ => Some result
  | _ :: errs => as_write_error errs
  end.

Fixpoint as_protocol_error (errs : errors) : option ProtocolError :=
  match errs with
  | [] => None
  | ErrProtocol err :: _ | ErrFrame err _ :: _ => Some err
  | _ :: errs => as_protocol_error errs
  end.

(** * State *)

Inductive transportOperationState : Type :=
| operationPending
| operationInvoked
| operationReturned
| operationCancelledBeforeInvocation
| operationTimedOutBeforeInvocation
| operationCancelledDuringIO
| operationTimedOutDuringIO
| operationReturnedThenCancelled
| operationReturnedThenTimedOut
| operationInvocationFailed.

#[export] Instance operation_state_eq_dec : EqDecision transportOperationState.
Proof. solve_decision. Defined.

Inductive transportCancellationSource : Type :=
| transportCallerCancellation
| transportInternalDeadline.

#[export] Instance cancellation_source_eq_dec : EqDecision transportCancellationSource.
Proof. solve_decision. Defined.

(** [op_cancelRan] and [op_deadlineRan] are the two [sync.Once] of the callbacks, and
    [op_done] says that the channel is closed.  [op_connectionID] and [op_generation]
    are those of the transport. *)
Record tcpTransportOperation : Type := mkTcpTransportOperation {
  op_connectionID : Z;
  op_generation : Z;
  op_deadline : Z;
  op_fireKind : TCPTransportEventKind;
  op_invocationKind : TCPTransportEventKind;
  op_returnKind : TCPTransportEventKind;
  op_fields : tcpEventFields;
  op_state : transportOperationState;
  op_cause : option transport_error;
  op_done : bool;
  op_cancelRan : bool;
  op_deadlineRan : bool;
  op_interrupt : bool;
  op_interruptDue : bool;
  op_interrupted : bool
}.

#[export] Instance operation_fields : Fields tcpTransportOperation := fun o =>
  mkTcpTransportOperation (op_connectionID o) (op_generation o) (op_deadline o) (op_fireKind o)
    (op_invocationKind o) (op_returnKind o) (op_fields o) (op_state o) (op_cause o) (op_done o)
    (op_cancelRan o) (op_deadlineRan o) (op_interrupt o) (op_interruptDue o) (op_interrupted o).

(** * Events *)

Definition recordEventFields (connectionID generation : Z) (t : tcpEndpointTimeline)
    (kind : TCPTransportEventKind) (fields : tcpEventFields) (now : Z)
    : tcpEndpointTimeline * TCPTransportEvent :=
  let fields :=
    if ef_ConnectionID fields =? 0 then fields <| ef_ConnectionID := connectionID |> else fields in
  let fields :=
    if ef_TransportGeneration fields =? 0 then fields <| ef_TransportGeneration := generation |>
    else fields in
  record t kind fields now.

Definition recordOnly (t : tcpEndpointTimeline) (op : tcpTransportOperation)
    (kind : TCPTransportEventKind) (now : Z) : tcpEndpointTimeline :=
  fst (recordEventFields (op_connectionID op) (op_generation op) t kind (op_fields op) now).

(** * Interruption of the socket *)

Definition requestInterrupt (op : tcpTransportOperation) : tcpTransportOperation :=
  let op := op <| op_interruptDue := true |> in
  if op_interrupt op && negb (op_interrupted op) then op <| op_interrupted := true |> else op.

Definition setInterrupt (op : tcpTransportOperation) : tcpTransportOperation :=
  let op := op <| op_interrupt := true |> in
  if op_interruptDue op && negb (op_interrupted op) then op <| op_interrupted := true |> else op.

(** * Cancellation *)

(** The state a cancellation leads to, whether it closes the channel and whether it
    interrupts the socket. *)
Definition cancel_target (state : transportOperationState) (source : transportCancellationSource)
    : transportOperationState * bool * bool :=
  let deadline := bool_decide (source = transportInternalDeadline) in
  match state with
  | operationPending =>
      (if deadline then operationTimedOutBeforeInvocation else operationCancelledBeforeInvocation,
       true, false)
  | operationInvoked =>
      (if deadline then operationTimedOutDuringIO else operationCancelledDuringIO, true, true)
  | operationReturned =>
      (if deadline then operationReturnedThenTimedOut else operationReturnedThenCancelled,
       false, false)
  | _ => (state, false, false)
  end.

Definition cancel (t : tcpEndpointTimeline) (op : tcpTransportOperation)
    (source : transportCancellationSource) (eventKind : TCPTransportEventKind)
    (cause : transport_error) (now : Z) : tcpEndpointTimeline * tcpTransportOperation :=
  let '(target, closeDone, interrupt) := cancel_target (op_state op) source in
  let changed := negb (bool_decide (target = op_state op)) in
  let op := if changed then op <| op_state := target |> <| op_cause := Some cause |> else op in
  let t := recordOnly t op eventKind now in
  let op := if changed && closeDone then op <| op_done := true |> else op in
  let op := if changed && interrupt then requestInterrupt op else op in
  (t, op).

Definition runDeadline (t : tcpEndpointTimeline) (op : tcpTransportOperation) (now : Z)
    : tcpEndpointTimeline * tcpTransportOperation :=
  if op_deadlineRan op then (t, op)
  else
    cancel t (op <| op_deadlineRan := true |>) transportInternalDeadline (op_fireKind op)
      ErrDeadlineExceeded now.

(** [cause] is the error of the caller's context. *)
Definition runCancellation (t : tcpEndpointTimeline) (op : tcpTransportOperation)
    (cause : transport_error) (now : Z) : tcpEndpointTimeline * tcpTransportOperation :=
  if op_cancelRan op then (t, op)
  else
    cancel t (op <| op_cancelRan := true |>) transportCallerCancellation
      TCPEventCallerCancellation cause now.

(** A callback that ran: the timer, or the cancellation with the context's error. *)
Inductive callback : Type :=
| TimerFired
| CallerCancelled (cause : transport_error).

Definition run_callback (now : Z) (s : tcpEndpointTimeline * tcpTransportOperation) (c : callback)
    : tcpEndpointTimeline * tcpTransportOperation :=
  match c with
  | TimerFired => runDeadline (fst s) (snd s) now
  | CallerCancelled cause => runCancellation (fst s) (snd s) cause now
  end.

(** A point of the thread at which it looks at its limits: the callbacks that have run
    since the last one, the error of the context and the reading of the clock, and the
    callbacks that run after the look and before the thread has the lock. *)
Record point : Type := mkPoint {
  pt_callbacks : list callback;
  pt_context : option transport_error;
  pt_now : Z;
  pt_late : list callback
}.

Definition observeLimits (t : tcpEndpointTimeline) (op : tcpTransportOperation) (p : point)
    : tcpEndpointTimeline * tcpTransportOperation :=
  let '(t, op) := foldl (run_callback (pt_now p)) (t, op) (pt_callbacks p) in
  let '(t, op) :=
    match pt_context p with
    | Some cause => runCancellation t op cause (pt_now p)
    | None => (t, op)
    end in
  let '(t, op) := if pt_now p >=? op_deadline op then runDeadline t op (pt_now p) else (t, op) in
  foldl (run_callback (pt_now p)) (t, op) (pt_late p).

(** * The thread of the operation *)

Definition newTCPTransportOperation (connectionID generation : Z) (t : tcpEndpointTimeline)
    (deadlineOffset : Z) (armKind fireKind invocationKind returnKind : TCPTransportEventKind)
    (fields : tcpEventFields) (armedAt : Z) (p : point)
    : tcpEndpointTimeline * tcpTransportOperation :=
  let op :=
    {| op_connectionID := connectionID; op_generation := generation; op_deadline := deadlineOffset;
       op_fireKind := fireKind; op_invocationKind := invocationKind; op_returnKind := returnKind;
       op_fields := fields <| ef_DeadlineOffset := deadlineOffset |>; op_state := operationPending;
       op_cause := None; op_done := false; op_cancelRan := false; op_deadlineRan := false;
       op_interrupt := false; op_interruptDue := false; op_interrupted := false |} in
  observeLimits (recordOnly t op armKind armedAt) op p.

Definition operation_error (field : string) : ProtocolError :=
  protocolError ErrorInvalidRequest 0 0 field (-1).

(** The locked section of [beginInvocation]; [mark] is what the mark function returns,
    [S] the state it changes, and [identify] what it writes into the operation's event
    fields when it succeeds ([setRequestIdentity]). *)
Definition begin_locked {S : Type} (t : tcpEndpointTimeline) (op : tcpTransportOperation)
    (mark : S -> S * errors) (identify : S -> tcpEventFields -> tcpEventFields) (s : S) (now : Z)
    : tcpEndpointTimeline * tcpTransportOperation * S * errors :=
  if negb (bool_decide (op_state op = operationPending)) then
    (t, op, s,
     match op_cause op with
     | Some cause => [cause]
     | None => [ErrProtocol (operation_error "transport_operation_state")]
     end)
  else
    let '(s, errs) := mark s in
    if negb (is_nil errs) then (t, op <| op_state := operationInvocationFailed |>, s, errs)
    else
      let op := op <| op_fields := identify s (op_fields op) |> <| op_state := operationInvoked |> in
      (recordOnly t op (op_invocationKind op) now, op, s, []).

Definition beginInvocation {S : Type} (t : tcpEndpointTimeline) (op : tcpTransportOperation)
    (mark : S -> S * errors) (identify : S -> tcpEventFields -> tcpEventFields) (s : S) (p : point)
    : tcpEndpointTimeline * tcpTransportOperation * S * errors :=
  let '(t, op) := observeLimits t op p in
  begin_locked t op mark identify s (pt_now p).

Definition mutateEventFields (op : tcpTransportOperation) (mutate : tcpEventFields -> tcpEventFields)
    : tcpTransportOperation := op <| op_fields := mutate (op_fields op) |>.

Definition setRequestIdentity (physicalRequestID transactionID : Z) (fields : tcpEventFields)
    : tcpEventFields :=
  fields <| ef_PhysicalRequestID := physicalRequestID |> <| ef_TransactionID := transactionID |>.

(** The mark of an operation that has none. *)
Definition no_mark {S : Type} (s : S) : S * errors := (s, []).

Definition no_identity {S : Type} (s : S) (fields : tcpEventFields) : tcpEventFields := fields.

Definition return_locked (t : tcpEndpointTimeline) (op : tcpTransportOperation) (now : Z)
    : tcpEndpointTimeline * tcpTransportOperation :=
  let op :=
    if bool_decide (op_state op = operationInvoked) then op <| op_state := operationReturned |>
    else op in
  (recordOnly t op (op_returnKind op) now, op).

Definition markReturn (t : tcpEndpointTimeline) (op : tcpTransportOperation) (p : point)
    : tcpEndpointTimeline * tcpTransportOperation :=
  let '(t, op) := observeLimits t op p in
  return_locked t op (pt_now p).

(** Stopping and joining the callbacks looks at the limits several times; only the last
    look matters, as what ran before it is in the callbacks of the point. *)
Definition stopAndJoin (t : tcpEndpointTimeline) (op : tcpTransportOperation) (p : point)
    : tcpEndpointTimeline * tcpTransportOperation := observeLimits t op p.

Definition preInvocationError (t : tcpEndpointTimeline) (op : tcpTransportOperation) (p : point)
    : tcpEndpointTimeline * tcpTransportOperation * errors :=
  let '(t, op) := observeLimits t op p in
  (t, op,
   match op_state op with
   | operationCancelledBeforeInvocation | operationTimedOutBeforeInvocation =>
       match op_cause op with Some cause => [cause] | None => [] end
   | _ => []
   end).

(** Both branches of the select end with the cause of an operation that has been
    cancelled; otherwise the gate is acquired. *)
Definition acquireOperationGate (t : tcpEndpointTimeline) (op : tcpTransportOperation) (p : point)
    : tcpEndpointTimeline * tcpTransportOperation * errors := preInvocationError t op p.

Definition cause_errors (op : tcpTransportOperation) : errors :=
  match op_cause op with Some cause => [cause] | None => [] end.

Definition cancellationWonDuringIO (op : tcpTransportOperation) : bool :=
  bool_decide (op_state op = operationCancelledDuringIO)
  || bool_decide (op_state op = operationTimedOutDuringIO).

Definition callerCancellationWonDuringIO (op : tcpTransportOperation) : bool :=
  bool_decide (op_state op = operationCancelledDuringIO).

Definition deadlineWonDuringIO (op : tcpTransportOperation) : bool :=
  bool_decide (op_state op = operationTimedOutDuringIO).

(** * Classification of a write *)

(** [errors.As] to [ProvableZeroWriteError]: the answer of the first one of the chain. *)
Fixpoint provably_zero (errs : errors) : bool :=
  match errs with
  | [] => false
  | ErrSocket _ _ (Some provablyZero) :: _ => provablyZero
  | _ :: errs => provably_zero errs
  end.

Definition classifyNetWrite (expected written : Z) (writeErr : errors) (cancellationWon : bool)
    : TransmitResult :=
  if cancellationWon then TransmitCancellationRace
  else if (written =? expected) && is_nil writeErr then TransmitComplete
  else if (written >? 0) && (written <? expected) then TransmitPartial
  else if (written =? 0) && negb (is_nil writeErr) then
    if provably_zero writeErr then TransmitProvableZero else TransmitIndeterminate
  else TransmitAmbiguous.

Definition retryableTransportFailure (errs : errors) : bool :=
  if is_nil errs || joined_is ErrCanceled errs || joined_is ErrDeadlineExceeded errs then false
  else
    match as_write_error errs with
    | Some result => negb (bool_decide (result = TransmitComplete))
    | None => false
    end.

Definition fullTransmitAbandonment (errs : errors) : bool :=
  match as_write_error errs with
  | None => false
  | Some result =>
      if negb (bool_decide (result = TransmitComplete))
         && negb (bool_decide (result = TransmitCancellationRace)) then false
      else if joined_is ErrCanceled errs || joined_is ErrDeadlineExceeded errs then true
      else
        match as_protocol_error errs with
        | Some err => String.eqb (pe_Field err) "operation_deadline"
        | None => false
        end
  end.

Definition mergeOwnerTransitions (first second : OwnerTransition) : OwnerTransition :=
  {| ot_closeConnection := ot_closeConnection first || ot_closeConnection second;
     ot_failed := ot_failed first ++ ot_failed second |}.
