(* ===== verification/TcpOperationFacts.v ===== *)
(** The races of a transport operation: whatever the interleaving of the timer, the
    caller's cancellation and the thread, the first limit that is reached decides, and
    it decides by where it falls: before the invocation, during the I/O, or after it. *)

From S2P Require Import Prelude Pdu DeviceId DeviceIdTolerant TcpAdu TcpOwner TcpTimeline TcpOperation.

(** * Limits in order *)

(** The limits a point of the thread sees, in the order in which they act. *)
Definition limits_of (deadline : Z) (p : point) : list callback :=
  pt_callbacks p ++ (match pt_context p with Some cause => [CallerCancelled cause] | None => [] end)
  ++ (if pt_now p >=? deadline then [TimerFired] else []) ++ pt_late p.

Definition source_of (c : callback) : transportCancellationSource :=
  match c with
  | TimerFired => transportInternalDeadline
  | CallerCancelled _ => transportCallerCancellation
  end.

Definition cause_of (c : callback) : transport_error :=
  match c with
  | TimerFired => ErrDeadlineExceeded
  | CallerCancelled cause => cause
  end.

Lemma run_callback_deadline now s c : op_deadline (snd (run_callback now s c)) = op_deadline (snd s).
Proof.
  assert (H : forall t o src k cause, op_deadline (snd (cancel t o src k cause now)) = op_deadline o).
  { intros t o src k cause. unfold cancel. destruct (cancel_target _ _) as [[tg cd] int]. cbn.
    unfold requestInterrupt. repeat case_test; done. }
  destruct s as [t o], c as [|cause]; cbn; unfold runDeadline, runCancellation; case_test; try done; by rewrite H.
Qed.

Lemma foldl_deadline now s l : op_deadline (snd (foldl (run_callback now) s l)) = op_deadline (snd s).
Proof. revert s. induction l as [|c l IH]; intros s; cbn; [done|]. by rewrite IH, run_callback_deadline. Qed.

Lemma observe_limits_eq t op p :
  observeLimits t op p = foldl (run_callback (pt_now p)) (t, op) (limits_of (op_deadline op) p).
Proof.
  unfold observeLimits, limits_of. rewrite !foldl_app.
  pose proof (foldl_deadline (pt_now p) (t, op) (pt_callbacks p)) as Hd.
  destruct (foldl _ _ (pt_callbacks p)) as [t1 op1]. cbn [snd] in Hd.
  assert (H : forall cause, op_deadline (snd (runCancellation t1 op1 cause (pt_now p))) = op_deadline op).
  { intros cause. rewrite <- Hd. exact (run_callback_deadline (pt_now p) (t1, op1) (CallerCancelled cause)). }
  destruct (pt_context p) as [cause|]; cbn [foldl run_callback fst snd].
  - specialize (H cause). destruct (runCancellation _ _ _ _) as [t2 op2]. cbn [snd] in H. rewrite H.
    case_test; cbn [foldl run_callback fst snd]; [|done]. by destruct (runDeadline _ _ _).
  - rewrite Hd. case_test; cbn [foldl run_callback fst snd]; [|done]. by destruct (runDeadline _ _ _).
Qed.

(** * The first limit decides *)

Definition open_state (s : transportOperationState) : bool :=
  match s with operationPending | operationInvoked | operationReturned => true | _ => false end.

Definition target_of (s : transportOperationState) (c : callback) : transportOperationState :=
  (cancel_target s (source_of c)).1.1.

(** What a run of limits leaves of the state and of the cause. *)
Definition decided (s : transportOperationState) (l : list callback)
    : transportOperationState * option transport_error :=
  match l with
  | [] => (s, None)
  | c :: _ => (target_of s c, Some (cause_of c))
  end.

Lemma cancel_state t op src k cause now :
  let op' := snd (cancel t op src k cause now) in
  op_state op' = (cancel_target (op_state op) src).1.1 /\
  op_cause op' = (if open_state (op_state op) then Some cause else op_cause op).
Proof.
  unfold cancel, requestInterrupt. destruct op; cbn in *.
  destruct op_state, src, op_interrupt, op_interrupted; vm_compute; done.
Qed.

Lemma settled_stays now l t op :
  open_state (op_state op) = false ->
  let op' := snd (foldl (run_callback now) (t, op) l) in
  op_state op' = op_state op /\ op_cause op' = op_cause op.
Proof.
  revert t op. induction l as [|c l IH]; intros t op Hs; cbn; [done|].
  assert (H : let op1 := snd (run_callback now (t, op) c) in
    op_state op1 = op_state op /\ op_cause op1 = op_cause op).
  { destruct c as [|cause]; cbn; unfold runDeadline, runCancellation; case_test; try done;
      (edestruct cancel_state as [H1 H2]; cbv zeta; rewrite H1, H2; cbn; by destruct (op_state op)). }
  destruct H as [H1 H2]. destruct (run_callback now (t, op) c) as [t1 op1]. cbn [snd] in *.
  destruct (IH t1 op1) as [H3 H4]; [by rewrite H1|]. by rewrite H3, H4.
Qed.

(** An operation none of whose callbacks has run. *)
Definition fresh (op : tcpTransportOperation) : Prop :=
  op_cancelRan op = false /\ op_deadlineRan op = false /\ op_cause op = None.

Lemma limits_decide now l t op :
  fresh op -> open_state (op_state op) = true ->
  let op' := snd (foldl (run_callback now) (t, op) l) in
  (op_state op', op_cause op') = decided (op_state op) l /\ (l = [] -> op' = op).
Proof.
  intros (Hc & Hd & Hn) Ho. destruct l as [|c l]; cbn; [by rewrite Hn|]. split; [|done].
  assert (H : let op1 := snd (run_callback now (t, op) c) in
    op_state op1 = target_of (op_state op) c /\ op_cause op1 = Some (cause_of c)).
  { destruct c as [|cause]; cbn; unfold runDeadline, runCancellation; rewrite ?Hc, ?Hd;
      (edestruct cancel_state as [H1 H2]; cbv zeta; rewrite H1, H2; cbn; by rewrite Ho). }
  destruct H as [H1 H2]. destruct (run_callback now (t, op) c) as [t1 op1]. cbn [snd] in *.
  destruct (settled_stays now l t1 op1) as [H3 H4].
  { rewrite H1. unfold target_of. by destruct (op_state op), c. }
  by rewrite H3, H4, H1, H2.
Qed.

Lemma observe_decides t op p :
  fresh op -> open_state (op_state op) = true ->
  let op' := snd (observeLimits t op p) in
  (op_state op', op_cause op') = decided (op_state op) (limits_of (op_deadline op) p) /\
  (limits_of (op_deadline op) p = [] -> op' = op).
Proof. intros Hf Ho. rewrite observe_limits_eq. by apply limits_decide. Qed.

(** * One operation from its start to its cutoff *)

(** The thread as [performInvokedWrite] and [readResponsesUntil] compose it: the
    invocation with its mark, the I/O, the return and the join of the callbacks. *)
Definition operation_thread {S : Type} (t : tcpEndpointTimeline) (op : tcpTransportOperation)
    (mark : S -> S * errors) (identify : S -> tcpEventFields -> tcpEventFields) (s : S)
    (before during after : point) : tcpTransportOperation * S * errors :=
  let '(t, op, s, errs) := beginInvocation t op mark identify s before in
  if is_nil errs then
    let '(t, op) := markReturn t op during in
    let '(t, op) := stopAndJoin t op after in
    (op, s, [])
  else
    let '(t, op) := stopAndJoin t op after in
    (op, s, errs).

Lemma begin_unlimited {S : Type} t op (mark : S -> S * errors) identify s p :
  fresh op -> op_state op = operationPending -> limits_of (op_deadline op) p = [] ->
  let '(_, op', s', errs) := beginInvocation t op mark identify s p in
  s' = fst (mark s) /\ errs = snd (mark s) /\
  op' = (if is_nil (snd (mark s))
    then op <| op_fields := identify s' (op_fields op) |> <| op_state := operationInvoked |>
    else op <| op_state := operationInvocationFailed |>).
Proof.
  intros Hf Hs Hl. unfold beginInvocation.
  destruct (observe_decides t op p Hf) as [_ He]; [by rewrite Hs|]. specialize (He Hl).
  destruct (observeLimits t op p) as [t1 op1]. cbn [snd] in He. subst op1.
  unfold begin_locked. rewrite Hs. destruct (mark s) as [s1 errs]. cbn. by destruct errs.
Qed.

Lemma begin_limited {S : Type} t op (mark : S -> S * errors) identify s p c l :
  fresh op -> op_state op = operationPending -> limits_of (op_deadline op) p = c :: l ->
  let '(_, op', s', errs) := beginInvocation t op mark identify s p in
  s' = s /\ errs = [cause_of c] /\
  op_state op' = target_of operationPending c /\ op_cause op' = Some (cause_of c).
Proof.
  intros Hf Hs Hl. unfold beginInvocation.
  destruct (observe_decides t op p Hf) as [Hd _]; [by rewrite Hs|].
  destruct (observeLimits t op p) as [t1 op1]. cbn [snd] in Hd. rewrite Hl, Hs in Hd.
  injection Hd as H1 H2. unfold begin_locked. rewrite H1, H2. by destruct c.
Qed.

Lemma join_decides t op p :
  fresh op -> open_state (op_state op) = true ->
  let op' := snd (stopAndJoin t op p) in
  (op_state op', op_cause op') = decided (op_state op) (limits_of (op_deadline op) p).
Proof. intros Hf Ho. by apply observe_decides. Qed.

Lemma join_settled t op p :
  open_state (op_state op) = false ->
  let op' := snd (stopAndJoin t op p) in op_state op' = op_state op /\ op_cause op' = op_cause op.
Proof. intros Ho. unfold stopAndJoin. rewrite observe_limits_eq. by apply settled_stays. Qed.

Lemma return_unlimited t op p :
  fresh op -> op_state op = operationInvoked -> limits_of (op_deadline op) p = [] ->
  snd (markReturn t op p) = (op <| op_state := operationReturned |>).
Proof.
  intros Hf Hs Hl. unfold markReturn. destruct (observe_decides t op p Hf) as [_ He]; [by rewrite Hs|].
  specialize (He Hl). destruct (observeLimits t op p) as [t1 op1]. cbn [snd] in He. subst op1.
  unfold return_locked. by rewrite Hs.
Qed.

Lemma return_limited t op p c l :
  fresh op -> op_state op = operationInvoked -> limits_of (op_deadline op) p = c :: l ->
  let op' := snd (markReturn t op p) in
  op_state op' = target_of operationInvoked c /\ op_cause op' = Some (cause_of c).
Proof.
  intros Hf Hs Hl. unfold markReturn. destruct (observe_decides t op p Hf) as [Hd _]; [by rewrite Hs|].
  destruct (observeLimits t op p) as [t1 op1]. cbn [snd] in Hd. rewrite Hl, Hs in Hd.
  injection Hd as H1 H2. unfold return_locked. rewrite H1. by destruct c.
Qed.

(** ** The channel and the socket follow the state *)

Definition signalled (op : tcpTransportOperation) : Prop :=
  op_done op = negb (open_state (op_state op)
    || bool_decide (op_state op ∈ [operationReturnedThenCancelled; operationReturnedThenTimedOut;
                                   operationInvocationFailed])) /\
  op_interruptDue op = cancellationWonDuringIO op.

Lemma cancel_signalled t op src k cause now :
  signalled op -> signalled (snd (cancel t op src k cause now)).
Proof.
  unfold signalled, cancel, requestInterrupt. destruct op; cbn in *. intros [-> ->].
  destruct op_state, src, op_interrupt, op_interrupted; vm_compute; done.
Qed.

Lemma callbacks_signalled now l t op :
  signalled op -> signalled (snd (foldl (run_callback now) (t, op) l)).
Proof.
  revert t op. induction l as [|c l IH]; intros t op H; cbn; [done|].
  assert (H1 : signalled (snd (run_callback now (t, op) c))).
  { destruct c as [|cause]; cbn; unfold runDeadline, runCancellation; case_test; try done;
      by apply cancel_signalled. }
  destruct (run_callback now (t, op) c) as [t1 op1]. by apply IH.
Qed.

Lemma observe_signalled t op p : signalled op -> signalled (snd (observeLimits t op p)).
Proof. rewrite observe_limits_eq. apply callbacks_signalled. Qed.

Lemma begin_signalled {S : Type} t op (mark : S -> S * errors) identify s p :
  signalled op -> signalled (beginInvocation t op mark identify s p).1.1.2.
Proof.
  intros H. unfold beginInvocation. pose proof (observe_signalled t op p H) as H1.
  destruct (observeLimits t op p) as [t1 op1]. cbn [snd] in H1. unfold begin_locked.
  destruct (bool_decide (op_state op1 = operationPending)) eqn:E; cbn; [|done].
  apply bool_decide_eq_true in E. destruct (mark s) as [s1 errs]. unfold signalled in *.
  unfold cancellationWonDuringIO in *. rewrite E in H1. by destruct errs.
Qed.

Lemma return_signalled t op p : signalled op -> signalled (snd (markReturn t op p)).
Proof.
  intros H. unfold markReturn. pose proof (observe_signalled t op p H) as H1.
  destruct (observeLimits t op p) as [t1 op1]. cbn [snd] in *. unfold return_locked. cbn.
  destruct (bool_decide (op_state op1 = operationInvoked)) eqn:E; [|done]. apply bool_decide_eq_true in E.
  unfold signalled, cancellationWonDuringIO in *. by rewrite E in H1.
Qed.

Lemma thread_signalled {S : Type} t op (mark : S -> S * errors) identify s before during after :
  signalled op -> signalled (operation_thread t op mark identify s before during after).1.1.
Proof.
  intros H. unfold operation_thread. pose proof (begin_signalled t op mark identify s before H) as H1.
  destruct (beginInvocation t op mark identify s before) as [[[t1 op1] s1] errs]. cbn in H1.
  pose proof (return_signalled t1 op1 during H1) as H2.
  destruct (is_nil errs).
  - destruct (markReturn t1 op1 during) as [t2 op2]. pose proof (observe_signalled t2 op2 after H2) as H3.
    unfold stopAndJoin. by destruct (observeLimits t2 op2 after).
  - unfold stopAndJoin. pose proof (observe_signalled t1 op1 after H1) as H3.
    by destruct (observeLimits t1 op1 after).
Qed.

(** * Linearization *)

(** What the thread must come to, by the limits of its three stretches: the first limit
    reached decides. *)
Definition outcome {S : Type} (mark : S -> S * errors) (s : S) (before during after : list callback)
    : transportOperationState * option transport_error * S * errors :=
  match before with
  | c :: _ => (target_of operationPending c, Some (cause_of c), s, [cause_of c])
  | [] =>
      let '(s, errs) := mark s in
      if is_nil errs then
        let '(state, cause) :=
          match during with
          | c :: _ => (target_of operationInvoked c, Some (cause_of c))
          | [] => decided operationReturned after
          end in
        (state, cause, s, [])
      else (operationInvocationFailed, None, s, errs)
  end.

Lemma thread_outcome {S : Type} t op (mark : S -> S * errors) identify s before during after :
  fresh op -> op_state op = operationPending ->
  let d := op_deadline op in
  let '(op', s', errs) := operation_thread t op mark identify s before during after in
  (op_state op', op_cause op', s', errs) =
    outcome mark s (limits_of d before) (limits_of d during) (limits_of d after).
Proof.
  intros Hf Hs d. unfold operation_thread, outcome. subst d.
  destruct (limits_of (op_deadline op) before) as [|c l] eqn:El.
  2:{ pose proof (begin_limited t op mark identify s before c l Hf Hs El) as H.
      destruct (beginInvocation t op mark identify s before) as [[[t1 op1] s1] errs].
      destruct H as (-> & -> & H1 & H2). cbn -[stopAndJoin].
      destruct (join_settled t1 op1 after) as [H3 H4]; [rewrite H1; by destruct c|].
      destruct (stopAndJoin t1 op1 after) as [t2 op2]. cbn [snd] in *. by rewrite H3, H4, H1, H2. }
  pose proof (begin_unlimited t op mark identify s before Hf Hs El) as H.
  destruct (beginInvocation t op mark identify s before) as [[[t1 op1] s1] errs].
  destruct H as (Hs1 & -> & Ho). destruct (mark s) as [s' errs]. cbn [fst snd] in *. subst s1.
  destruct (is_nil errs) eqn:En.
  2:{ destruct (join_settled t1 op1 after) as [H3 H4]; [by subst op1|].
      destruct (stopAndJoin t1 op1 after) as [t2 op2]. cbn [snd] in *.
      rewrite H3, H4. subst op1. destruct Hf as (_ & _ & Hf). cbn. by rewrite Hf. }
  assert (Hf1 : fresh op1) by (by subst op1).
  assert (Hs1 : op_state op1 = operationInvoked) by (by subst op1).
  assert (Hd : op_deadline op1 = op_deadline op) by (by subst op1).
  destruct (limits_of (op_deadline op) during) as [|c l] eqn:Em; rewrite <- Hd in Em.
  - pose proof (return_unlimited t1 op1 during Hf1 Hs1 Em) as H.
    destruct (markReturn t1 op1 during) as [t2 op2]. cbn [snd] in H.
    pose proof (join_decides t2 op2 after) as Hj. cbv zeta in Hj.
    rewrite H in Hj. specialize (Hj Hf1 eq_refl).
    subst op2. destruct (stopAndJoin t2 _ after) as [t3 op3]. cbn [snd] in Hj.
    cbn -[decided] in Hj. rewrite Hd in Hj. destruct (decided _ _) as [st ca]. by injection Hj as -> ->.
  - destruct (return_limited t1 op1 during c l Hf1 Hs1 Em) as [H1 H2].
    destruct (markReturn t1 op1 during) as [t2 op2]. cbn [snd] in *.
    destruct (join_settled t2 op2 after) as [H3 H4]; [rewrite H1; by destruct c|].
    destruct (stopAndJoin t2 op2 after) as [t3 op3]. cbn [snd] in *. by rewrite H3, H4, H1, H2.
Qed.

Lemma thread_settled {S : Type} t op (mark : S -> S * errors) identify s before during after c :
  op_state op = target_of operationPending c -> op_cause op = Some (cause_of c) ->
  let '(op', s', errs) := operation_thread t op mark identify s before during after in
  (op_state op', op_cause op', s', errs) =
    (target_of operationPending c, Some (cause_of c), s, [cause_of c]).
Proof.
  intros Hs Hc. unfold operation_thread, beginInvocation.
  assert (Ho : open_state (op_state op) = false) by (rewrite Hs; by destruct c).
  destruct (join_settled t op before Ho) as [H1 H2]. unfold stopAndJoin in H1, H2.
  destruct (observeLimits t op before) as [t1 op1]. cbn [snd] in *. unfold begin_locked.
  rewrite H1, H2, Hs, Hc.
  replace (bool_decide (target_of operationPending c = operationPending)) with false by (by destruct c).
  cbn -[stopAndJoin]. destruct (join_settled t1 op1 after) as [H3 H4]; [by rewrite H1|].
  destruct (stopAndJoin t1 op1 after) as [t2 op2]. cbn [snd] in *. by rewrite H3, H4, H1, H2, Hs, Hc.
Qed.

(** C20: An operation of the transport is linearized, however its deadline timer, its
    caller's cancellation and the thread that performs it interleave: of all the limits
    that are reached, only the first one has an effect, and which effect depends only on
    where it falls.  Before the invocation, the mark is not applied and the caller gets
    the limit's cause; a failing mark settles the operation with its own error; during
    the I/O, the operation ends cancelled or timed out during I/O; after the return and
    before the cutoff, the completion has won and the limit is only noted; and with no
    limit at all, the operation returned without a cause.  The socket is interrupted
    exactly when the limit fell during the I/O. *)
Theorem operation_linearizes {S : Type} connectionID generation t deadline arm fire invoke return_ fields
    armedAt created (mark : S -> S * errors) identify s before during after :
  let l := limits_of deadline in
  let '(t1, op) :=
    newTCPTransportOperation connectionID generation t deadline arm fire invoke return_ fields armedAt created in
  let '(op', s', errs) := operation_thread t1 op mark identify s before during after in
  (op_state op', op_cause op', s', errs) = outcome mark s (l created ++ l before) (l during) (l after) /\
  op_interruptDue op' = cancellationWonDuringIO op'.
Proof.
  cbv zeta. unfold newTCPTransportOperation. set (op0 := mkTcpTransportOperation _ _ _ _ _ _ _ _ _ _ _ _ _ _ _).
  set (t0 := recordOnly _ _ _ _).
  destruct (observe_decides t0 op0 created) as [Hd He]; [done..|].
  pose proof (observe_signalled t0 op0 created ltac:(done)) as Hg.
  destruct (observeLimits t0 op0 created) as [t1 op]. cbn [snd] in *.
  pose proof (thread_signalled t1 op mark identify s before during after Hg) as Hg'.
  change (op_deadline op0) with deadline in *. destruct (limits_of deadline created) as [|c l].
  - rewrite (He eq_refl) in *. pose proof (thread_outcome t1 op0 mark identify s before during after) as H.
    destruct (operation_thread _ _ _ _ _ _ _) as [[op' s'] errs]. split; [by apply H|apply Hg'].
  - injection Hd as H1 H2. pose proof (thread_settled t1 op mark identify s before during after c H1 H2) as H.
    destruct (operation_thread _ _ _ _ _ _ _) as [[op' s'] errs]. split; [exact H|apply Hg'].
Qed.
