(* ===== verification/TcpPool.v ===== *)
(** The pool of socket owners of one endpoint (tcp_pool.go).  Owners live in a
    store addressed by pointers, so that a lease, the pool's table and the pool's
    generation allocator all refer to the same objects. *)

From S2P Require Import Prelude Pdu DeviceId DeviceIdTolerant TcpAdu TcpOwner TcpOwnerFacts.

(** * Data *)

Record EndpointPoolLimits : Type := mkEndpointPoolLimits {
  pl_MaxConnections : Z;
  pl_Connection : ConnectionLimits
}.

Record TCPEndpointPool : Type := mkTCPEndpointPool {
  po_self : Z;
  po_endpoint : string;
  po_limits : EndpointPoolLimits;
  po_nextConnectionID : Z;
  po_nextGeneration : Z;
  po_connections : gmap Z Z
}.

Record TCPConnectionLease : Type := mkTCPConnectionLease {
  le_pool : Z;
  le_connectionID : Z;
  le_owner : Z
}.

(** The pool and the owners allocated so far. *)
Record PoolStore : Type := mkPoolStore {
  ps_pool : TCPEndpointPool;
  ps_owners : gmap Z owner;
  ps_nextAddress : Z
}.

Definition set_pool_counters (connectionID generation : Z) (pool : TCPEndpointPool)
    : TCPEndpointPool :=
  {| po_self := po_self pool; po_endpoint := po_endpoint pool; po_limits := po_limits pool;
     po_nextConnectionID := connectionID; po_nextGeneration := generation;
     po_connections := po_connections pool |}.

Definition set_connections (connections : gmap Z Z) (pool : TCPEndpointPool)
    : TCPEndpointPool :=
  {| po_self := po_self pool; po_endpoint := po_endpoint pool; po_limits := po_limits pool;
     po_nextConnectionID := po_nextConnectionID pool;
     po_nextGeneration := po_nextGeneration pool; po_connections := connections |}.

Definition with_pool (pool : TCPEndpointPool) (s : PoolStore) : PoolStore :=
  {| ps_pool := pool; ps_owners := ps_owners s; ps_nextAddress := ps_nextAddress s |}.

Definition store_owner (address : Z) (o : owner) (s : PoolStore) : PoolStore :=
  {| ps_pool := ps_pool s; ps_owners := <[address := o]> (ps_owners s);
     ps_nextAddress := ps_nextAddress s |}.

(** * Operations *)

Definition newTCPEndpointPool (self : Z) (endpoint : string) (limits : EndpointPoolLimits)
    : presult TCPEndpointPool :=
  if String.eqb endpoint "" || (pl_MaxConnections limits <=? 0)
     || (pl_MaxConnections limits >? 65536) || invalid_limits (pl_Connection limits) then
    Err (owner_request_error "endpoint_pool_limits")
  else
    Ok {| po_self := self; po_endpoint := endpoint; po_limits := limits;
          po_nextConnectionID := 1; po_nextGeneration := 0; po_connections := ∅ |}.

(** The next generation, or zero when they are exhausted. *)
Definition allocateGeneration (pool : TCPEndpointPool) : TCPEndpointPool * Z :=
  let current := po_nextGeneration pool in
  if current =? MaxUint64 then (pool, 0)
  else (set_pool_counters (po_nextConnectionID pool) (current + 1) pool, current + 1).

(** The assignments to a new owner that bind it to its pool. *)
Definition adopt (pool connectionID : Z) (o : owner) : owner :=
  {| ow_self := ow_self o; ow_endpoint := ow_endpoint o; ow_connectionID := connectionID;
     ow_generation := ow_generation o; ow_limits := ow_limits o; ow_closed := ow_closed o;
     ow_retired := ow_retired o; ow_nextTransactionID := ow_nextTransactionID o;
     ow_nextPhysicalRequestID := ow_nextPhysicalRequestID o;
     ow_nextWireResponseID := ow_nextWireResponseID o;
     ow_nextDiagnosticFrameID := ow_nextDiagnosticFrameID o; ow_inFlight := ow_inFlight o;
     ow_tombstones := ow_tombstones o; ow_closingTombstone := ow_closingTombstone o;
     ow_earlyCompletions := ow_earlyCompletions o; ow_pendingFailures := ow_pendingFailures o;
     ow_hasGenerationAllocator := true; ow_boundTransport := ow_boundTransport o;
     ow_pool := Some pool |}.

Definition openConnection (s : PoolStore) : PoolStore * presult TCPConnectionLease :=
  let pool := ps_pool s in
  if msize (po_connections pool) >=? pl_MaxConnections (po_limits pool) then
    (s, Err (owner_range "connections"))
  else if po_nextConnectionID pool =? 0 then (s, Err (owner_range "connection_identity"))
  else
  let connectionID := po_nextConnectionID pool in
  let '(pool, generation) := allocateGeneration pool in
  if generation =? 0 then (with_pool pool s, Err (owner_range "transport_generation"))
  else
  let pool := set_pool_counters (wrap64 (connectionID + 1)) (po_nextGeneration pool) pool in
  let address := ps_nextAddress s in
  match newTCPConnectionOwner address (po_endpoint pool) generation
          (pl_Connection (po_limits pool)) with
  | Err err => (with_pool pool s, Err err)
  | Ok o =>
      let pool := set_connections (<[connectionID := address]> (po_connections pool)) pool in
      ({| ps_pool := pool;
          ps_owners := <[address := adopt (po_self pool) connectionID o]> (ps_owners s);
          ps_nextAddress := address + 1 |},
       Ok {| le_pool := po_self pool; le_connectionID := connectionID;
             le_owner := address |})
  end.

Definition ownerForEndpoint (s : PoolStore) (lease : TCPConnectionLease) : option Z :=
  if negb (le_pool lease =? po_self (ps_pool s)) then None
  else if negb (bool_decide (po_connections (ps_pool s) !! le_connectionID lease
                             = Some (le_owner lease))) then None
  else Some (le_owner lease).

Definition closeConnection (s : PoolStore) (lease : TCPConnectionLease)
    : PoolStore * option ProtocolError :=
  let pool := ps_pool s in
  if negb (le_pool lease =? po_self pool) || (le_connectionID lease =? 0)
     || negb (bool_decide (po_connections pool !! le_connectionID lease
                           = Some (le_owner lease))) then
    (s, Some (owner_request_error "connection_lease"))
  else
    let s :=
      match ps_owners s !! le_owner lease with
      | None => s
      | Some o => store_owner (le_owner lease) (fst (retire o)) s
      end in
    (with_pool (set_connections (delete (le_connectionID lease) (po_connections pool)) pool) s,
     None).

Definition releaseLostConnection (s : PoolStore) (connectionID address : Z) : PoolStore :=
  let pool := ps_pool s in
  if bool_decide (po_connections pool !! connectionID = Some address) then
    with_pool (set_connections (delete connectionID (po_connections pool)) pool) s
  else s.

(** tcp_owner.go, [releasePoolSlot]: the owner gives its place back. *)
Definition releasePoolSlot (s : PoolStore) (address : Z) : PoolStore :=
  match ps_owners s !! address with
  | None => s
  | Some o =>
      let s' := store_owner address (set_pool None o) s in
      match ow_pool o with
      | None => s'
      | Some _ => releaseLostConnection s' (ow_connectionID o) address
      end
  end.

(** [Reconnect] on an owner of the store, with the pool's allocator: a
    generation is only drawn when the owner may reconnect. *)
Definition reconnectOwner (s : PoolStore) (address : Z) : PoolStore :=
  match ps_owners s !! address with
  | None => s
  | Some o =>
      if negb (ow_closed o) || ow_retired o || bool_decide (is_Some (ow_boundTransport o)) then s
      else
        let '(pool, generation) :=
          if ow_hasGenerationAllocator o then allocateGeneration (ps_pool s)
          else (ps_pool s, 0) in
        store_owner address (fst (Reconnect o generation)) (with_pool pool s)
  end.

Definition ActiveConnections (s : PoolStore) : Z := msize (po_connections (ps_pool s)).

(** * Executions *)

(** Calls on an owner that neither the pool nor a reconnection makes. *)
Definition owner_local (op : owner_op) : Prop :=
  match op with
  | OpReconnect _ | OpRetire | OpReleaseSlot => False
  | _ => True
  end.

Inductive pool_step : PoolStore -> PoolStore -> Prop :=
| step_open s : pool_step s (fst (openConnection s))
| step_close s lease : pool_step s (fst (closeConnection s lease))
| step_lost s address : pool_step s (releasePoolSlot s address)
| step_reconnect s address : pool_step s (reconnectOwner s address)
| step_owner s address o op :
    ps_owners s !! address = Some o -> owner_local op ->
    pool_step s (store_owner address (fst (run_op o op)) s).

(** * What an owner keeps through its own calls *)

Definition same_identity (o o' : owner) : Prop :=
  ow_connectionID o' = ow_connectionID o /\ ow_generation o' = ow_generation o /\
  ow_hasGenerationAllocator o' = ow_hasGenerationAllocator o.

Lemma transmit_identity o v result deadline :
  owner_ok o -> same_identity o (fst (recordTransmitUntil o v result deadline)).
Proof.
  intros Ho. unfold recordTransmitUntil.
  destruct (ow_earlyCompletions o !! _); [by case_test|].
  destruct (requestFor _ _ _) as [r|] eqn:E; [|done].
  apply requestFor_lookup in E as [E _]; [|done].
  destruct result; try rewrite (close_ambiguous_spec o r E); try done.
  unfold rewindAllocator. by case_test.
Qed.

Lemma expire_identity o0 o candidates expired :
  same_identity o0 o -> same_identity o0 (fst (expire_loop o candidates expired)).
Proof.
  revert o expired. induction candidates as [|r candidates IH]; intros o expired Hs; [done|].
  cbn [expire_loop]. cbv zeta. case_test; [by rewrite failAll_spec|].
  apply IH. unfold addTombstone. by case_test.
Qed.

Lemma abandon_identity o v reason :
  owner_ok o -> same_identity o (fst (AbandonAfterWrite o v reason)).
Proof.
  intros Ho. unfold AbandonAfterWrite. case_test; [done|].
  destruct (requestFor o v requestWaiting) as [r|] eqn:E.
  - apply requestFor_lookup in E as [E _]; [|done]. case_test.
    + by rewrite (failAllExcept_spec _ _ r).
    + unfold addTombstone. by case_test.
  - destruct (requestFor o v requestWriteInvoked) as [r|] eqn:E'; [|done].
    apply requestFor_lookup in E' as [E' _]; [|done]. by rewrite (close_ambiguous_spec o r E').
Qed.

Lemma correlate_identity o generation adu :
  same_identity o (fst (Correlate o generation adu)).
Proof.
  assert (Hdiag : forall b : bool, same_identity o
    (fst (newDiagnosticFrame (if b then set_closed true o else o) generation adu))).
  { intros b. unfold newDiagnosticFrame. destruct b; by case_test. }
  assert (Htomb : same_identity o (fst (correlate_tombstone o generation adu))).
  { unfold correlate_tombstone. destruct (tombstone_for _ _); [|apply (Hdiag false)].
    case_test; [apply (Hdiag false)|].
    destruct (validateOwnedResponse _ _); [done|]. by case_test. }
  unfold Correlate. case_test; [apply (Hdiag false)|]. case_test.
  { specialize (Hdiag true). cbn in Hdiag. by destruct (newDiagnosticFrame _ _ _) as [? []]. }
  destruct (ow_inFlight o !! _) as [r|]; [|done]. case_test; [|done].
  case_test; [apply (Hdiag false)|].
  pose proof (correlateActive_owner o r adu) as Ea.
  destruct (correlateActive o r adu) as [o' result]. cbn [fst] in Ea. subst o'. by case_test.
Qed.

Lemma reserve_identity o unit kind read dev dec deadline :
  owner_ok o -> same_identity o (fst (reserve o unit kind read dev dec deadline)).
Proof.
  intros Ho. unfold reserve. do 3 (case_test; [done|]).
  destruct (allocate_spec o Ho) as (next & [id|] & -> & _); [|done]. by case_test.
Qed.

Lemma run_op_identity o op :
  owner_ok o -> owner_local op -> same_identity o (fst (run_op o op)).
Proof.
  intros Ho Hl. destruct op; cbn [run_op fst]; try done;
    eauto using transmit_identity, abandon_identity, correlate_identity.
  - unfold reserveReadUntil. destruct (validateReadRegistersRequest _); [done|].
    by apply reserve_identity.
  - unfold reserveDeviceIDUntil. destruct (validateDeviceIDRequest _); [done|].
    case_test; [done|]. by apply reserve_identity.
  - unfold CancelBeforeWrite, rewindAllocator. destruct (requestFor _ _ _); [|done].
    by case_test.
  - unfold replaceReservedRead. destruct (validateReadRegistersRequest _); [done|].
    destruct (requestFor _ _ _); [|done]. by case_test.
  - unfold MarkWriteInvoked. by destruct (requestFor _ _ _).
  - unfold abandonExpired. case_test; [done|]. by apply expire_identity.
  - unfold bindTransport. by case_test.
  - unfold loseTransport. case_test; [done|]. rewrite failAll_spec. by case_test.
  - unfold Close. by rewrite failAll_spec.
Qed.

(** * Invariant *)

Definition connection_bound (pool : TCPEndpointPool) : Z :=
  if po_nextConnectionID pool =? 0 then 2 ^ 64 else po_nextConnectionID pool.

Record pool_ok (s : PoolStore) : Prop := mk_pool_ok {
  pk_counters : u64 (po_nextConnectionID (ps_pool s)) /\ u64 (po_nextGeneration (ps_pool s));
  pk_room : msize (po_connections (ps_pool s)) <= pl_MaxConnections (po_limits (ps_pool s));
  pk_connections : forall k a, po_connections (ps_pool s) !! k = Some a ->
    exists o, ps_owners s !! a = Some o /\ ow_connectionID o = k;
  pk_owners : forall a o, ps_owners s !! a = Some o ->
    a < ps_nextAddress s /\ owner_ok o /\ ow_hasGenerationAllocator o = true /\
    1 <= ow_connectionID o < connection_bound (ps_pool s) /\
    1 <= ow_generation o <= po_nextGeneration (ps_pool s);
  pk_unique : forall a b o p, ps_owners s !! a = Some o -> ps_owners s !! b = Some p ->
    ow_connectionID o = ow_connectionID p \/ ow_generation o = ow_generation p -> a = b
}.

Lemma new_pool_ok self endpoint limits pool address :
  newTCPEndpointPool self endpoint limits = Ok pool ->
  pool_ok {| ps_pool := pool; ps_owners := ∅; ps_nextAddress := address |}.
Proof.
  unfold newTCPEndpointPool. case_test; intros; simp_res. bool_hyps.
  split; cbn; try done.
  - unfold msize. rewrite map_size_empty. lia.
Qed.

(** An owner changed in place, with its identity. *)
Lemma store_owner_ok s a o o' :
  pool_ok s -> ps_owners s !! a = Some o -> same_identity o o' -> owner_ok o' ->
  pool_ok (store_owner a o' s).
Proof.
  intros [] Ha (Ec & Eg & Eh) Ho'. split; cbn; try done.
  - intros k b Hk. destruct (pk_connections0 _ _ Hk) as (p & Hp & Ep).
    destruct (decide (a = b)) as [->|].
    + exists o'. rewrite lookup_insert_eq. split; [done|]. congruence.
    + exists p. by rewrite lookup_insert_ne.
  - intros b p [[<- <-]|[_ Hb]]%lookup_insert_Some; [|by apply pk_owners0].
    rewrite Ec, Eg, Eh. pose proof (pk_owners0 _ _ Ha). tauto.
  - intros b c p q Hb Hc. apply lookup_insert_Some in Hb as [[<- <-]|[Hne Hb]];
      apply lookup_insert_Some in Hc as [[<- <-]|[Hne' Hc]]; try done.
    + rewrite Ec, Eg. eauto.
    + rewrite Ec, Eg. eauto.
    + eauto.
Qed.

Lemma fewer_connections_ok s k :
  pool_ok s ->
  pool_ok (with_pool (set_connections (delete k (po_connections (ps_pool s))) (ps_pool s)) s).
Proof.
  intros []. split; cbn; try done.
  - pose proof (msize_delete (po_connections (ps_pool s)) k). lia.
  - intros k' a [_ Hk]%lookup_delete_Some. eauto.
Qed.

Lemma allocate_generation_spec pool :
  u64 (po_nextGeneration pool) ->
  let '(pool', generation) := allocateGeneration pool in
  (generation = 0 /\ pool' = pool) \/
  (generation = po_nextGeneration pool + 1 /\ u64 generation /\
   pool' = set_pool_counters (po_nextConnectionID pool) generation pool).
Proof.
  intros Hu. unfold allocateGeneration. unfold u64, MaxUint64 in *.
  case_test; bool_hyps; [by left|right]. conj; done || lia.
Qed.

Lemma retire_identity o : same_identity o (fst (retire o)).
Proof. unfold retire. by rewrite failAll_spec. Qed.

Lemma adopt_ok o pool k : owner_ok o -> owner_ok (adopt pool k o).
Proof. intros Ho. core. Qed.

Lemma connection_bound_set m pool :
  connection_bound (set_connections m pool) = connection_bound pool.
Proof. done. Qed.

Lemma open_ok s : pool_ok s -> pool_ok (fst (openConnection s)).
Proof.
  intros Hs. unfold openConnection. case_test; [done|]. case_test; [done|]. bool_hyps.
  pose proof Hs as [[Huc Hug] _ _ _ _].
  pose proof (allocate_generation_spec (ps_pool s) Hug) as Ha.
  destruct (allocateGeneration (ps_pool s)) as [pool generation].
  destruct Ha as [[-> ->]|(Eg & Hg & ->)].
  { cbn. by destruct s. }
  assert (generation <> 0) by (unfold u64 in *; lia).
  rewrite (proj2 (Z.eqb_neq _ _) H). cbv zeta.
  set (pool' := set_pool_counters (wrap64 _) _ _).
  assert (Eb : connection_bound pool' = connection_bound (ps_pool s) + 1).
  { unfold connection_bound, pool'. cbn. by rewrite wrap64_next, (proj2 (Z.eqb_neq _ _) Heqb0). }
  assert (Ec : po_nextConnectionID (ps_pool s) = connection_bound (ps_pool s)).
  { unfold connection_bound. by rewrite (proj2 (Z.eqb_neq _ _) Heqb0). }
  assert (Hcount : u64 (po_nextConnectionID pool') /\ u64 (po_nextGeneration pool')).
  { split; [apply wrap64_u64|done]. }
  destruct Hs as [_ Hroom Hconn Hown Huniq].
  destruct (newTCPConnectionOwner _ _ _ _) as [o|err] eqn:En; cbn [fst].
  2: { split; cbn -[pool']; try done.
       intros a o Ho. destruct (Hown a o Ho) as (? & ? & ? & ? & ?). rewrite Eb. cbn.
       conj; try done; lia. }
  assert (Eo : ow_generation o = generation).
  { revert En. unfold newTCPConnectionOwner. case_test; intros; by simp_res. }
  assert (Hfresh : ps_owners s !! ps_nextAddress s = None).
  { destruct (ps_owners s !! _) as [p|] eqn:E; [|done]. apply Hown in E as [E _]. lia. }
  assert (Hold : forall a p, ps_owners s !! a = Some p ->
    ow_connectionID p < po_nextConnectionID (ps_pool s) /\ ow_generation p < generation).
  { intros a p (_ & _ & _ & ? & ?)%Hown. lia. }
  split; cbn [ps_pool ps_owners ps_nextAddress]; rewrite ?connection_bound_set, ?Eb; try done.
  - cbn. destruct (po_connections (ps_pool s) !! po_nextConnectionID (ps_pool s)) eqn:E.
    + by erewrite msize_insert_Some.
    + rewrite msize_insert_None by done. lia.
  - cbn [po_connections set_connections]. intros k a [[<- <-]|[Hne Hk]]%lookup_insert_Some.
    + eexists. by rewrite lookup_insert_eq.
    + destruct (Hconn _ _ Hk) as (p & Hp & Ep). exists p.
      rewrite lookup_insert_ne; [done|]. intros <-. congruence.
  - intros a p [[<- <-]|[Hne Hp]]%lookup_insert_Some.
    + cbn [adopt ow_connectionID ow_generation ow_hasGenerationAllocator].
      pose proof (new_owner_inv _ _ _ _ _ En). unfold u64 in *. cbn in Hcount.
      conj; try done; try lia; [by apply adopt_ok|cbn; lia].
    + destruct (Hown _ _ Hp) as (? & ? & ? & ? & ?). cbn. conj; try done; lia.
  - intros a b p q Hp Hq. apply lookup_insert_Some in Hp as [[<- <-]|[Hne Hp]];
      apply lookup_insert_Some in Hq as [[<- <-]|[Hne' Hq]]; try done; cbn.
    + apply Hold in Hq. lia.
    + apply Hold in Hp. lia.
    + eauto.
Qed.

Lemma close_ok s lease : pool_ok s -> pool_ok (fst (closeConnection s lease)).
Proof.
  intros Hs. unfold closeConnection. case_test; [done|]. cbn [fst].
  destruct (ps_owners s !! le_owner lease) as [o|] eqn:Eo; [|by apply fewer_connections_ok].
  apply (fewer_connections_ok (store_owner (le_owner lease) (fst (retire o)) s)).
  eapply store_owner_ok; [done..|apply retire_identity|].
  apply retire_inv, (pk_owners s Hs _ _ Eo).
Qed.

Lemma lost_ok s a : pool_ok s -> pool_ok (releasePoolSlot s a).
Proof.
  intros Hs. unfold releasePoolSlot. destruct (ps_owners s !! a) as [o|] eqn:Eo; [|done].
  assert (Hok : pool_ok (store_owner a (set_pool None o) s)).
  { apply (pk_owners s Hs) in Eo as Ho. destruct Ho as (_ & Ho & _).
    eapply store_owner_ok; [done..|]. core. }
  destruct (ow_pool o); [|done]. unfold releaseLostConnection. case_test; [|done].
  by apply fewer_connections_ok.
Qed.

(** A reconnection takes a generation no owner has had. *)
Lemma reconnect_ok s a : pool_ok s -> pool_ok (reconnectOwner s a).
Proof.
  intros Hs. unfold reconnectOwner. destruct (ps_owners s !! a) as [o|] eqn:Eo; [|done].
  case_test; [done|]. pose proof (pk_owners s Hs _ _ Eo) as (Ha & Ho & Hal & Hc & Hg).
  rewrite Hal. pose proof (pk_counters s Hs) as [Huc Hug].
  pose proof (allocate_generation_spec (ps_pool s) Hug) as Hs'.
  destruct (allocateGeneration (ps_pool s)) as [pool generation].
  pose proof (reconnect_inv o generation Ho) as Hr.
  destruct Hs' as [[-> ->]|(Eg & Hu & ->)].
  { assert (E : fst (Reconnect o 0) = o) by (unfold Reconnect; rewrite Heqb, Hal; done).
    rewrite E. eapply store_owner_ok; try done; by destruct s. }
  assert (generation <> 0) by (unfold u64 in *; lia).
  assert (Ei : ow_connectionID (fst (Reconnect o generation)) = ow_connectionID o /\
               ow_generation (fst (Reconnect o generation)) = generation /\
               ow_hasGenerationAllocator (fst (Reconnect o generation)) = true).
  { unfold Reconnect. by rewrite Heqb, Hal, (proj2 (Z.eqb_neq _ _) H). }
  destruct Ei as (Ec' & Eg' & Eh'). destruct Hs as [_ Hroom Hconn Hown Huniq].
  assert (Hold : forall b p, ps_owners s !! b = Some p -> ow_generation p < generation).
  { intros b p (_ & _ & _ & ? & ?)%Hown. lia. }
  split; cbn [ps_pool ps_owners ps_nextAddress store_owner with_pool]; try done.
  - intros k b Hk. destruct (Hconn _ _ Hk) as (p & Hp & Ep). destruct (decide (a = b)) as [->|].
    + eexists. rewrite lookup_insert_eq. split; [done|]. congruence.
    + exists p. by rewrite lookup_insert_ne.
  - intros b p [[<- <-]|[_ Hp]]%lookup_insert_Some.
    + rewrite Ec', Eg', Eh'. unfold u64 in *. cbn. conj; try done; try lia; apply Hc.
    + destruct (Hown _ _ Hp) as (? & ? & ? & Hcp & ?). cbn. conj; try done; try lia; apply Hcp.
  - intros b c p q Hp Hq. apply lookup_insert_Some in Hp as [[<- <-]|[Hne Hp]];
      apply lookup_insert_Some in Hq as [[<- <-]|[Hne' Hq]]; try done; [| |eauto].
    + rewrite Ec', Eg'. pose proof (Hold _ _ Hq). intros [E|E]; [eauto|lia].
    + rewrite Ec', Eg'. pose proof (Hold _ _ Hp). intros [E|E]; [eauto|lia].
Qed.

Lemma pool_step_ok s s' : pool_ok s -> pool_step s s' -> pool_ok s'.
Proof.
  intros Hs Hstep. revert Hs.
  destruct Hstep as [s|s lease|s a|s a|s a o op Ha Hl];
    eauto using open_ok, close_ok, lost_ok, reconnect_ok.
  intros Hs. destruct (pk_owners s Hs _ _ Ha) as (_ & Ho & _).
  eapply store_owner_ok; [done..|by apply run_op_identity|by apply run_op_inv].
Qed.

(** * Properties *)

(** Identity and capacity of the pool, over any interleaving of opening,
    closing, losing and reconnecting connections and of calls on the owners: the
    number of live connections never exceeds its limit, every live connection is
    an owner that carries its connection identifier, and no two owners the pool
    ever created share a connection identifier or a socket generation, so a
    reservation or a frame of one socket is never taken for another's. *)
Theorem pool_identities_unique self endpoint limits pool address s :
  newTCPEndpointPool self endpoint limits = Ok pool ->
  rtc pool_step {| ps_pool := pool; ps_owners := ∅; ps_nextAddress := address |} s ->
  pool_ok s.
Proof.
  intros Hp Hs. apply (new_pool_ok _ _ _ _ address) in Hp as Hok. revert Hok.
  induction Hs as [|s1 s2 s3 Hstep _ IH]; [done|].
  intros Hok. apply IH. by eapply pool_step_ok.
Qed.

Definition demo_pool : TCPEndpointPool :=
  {| po_self := 7; po_endpoint := "plc";
     po_limits := {| pl_MaxConnections := 2;
                     pl_Connection := {| cl_MaxInFlight := 4; cl_MaxTombstones := 2 |} |};
     po_nextConnectionID := 1; po_nextGeneration := 0; po_connections := ∅ |}.

Definition demo_store : PoolStore :=
  {| ps_pool := demo_pool; ps_owners := ∅; ps_nextAddress := 100 |}.

Lemma pool_identities_unique_witness :
  pool_ok (fst (openConnection (fst (openConnection demo_store)))) /\
  ActiveConnections (fst (openConnection (fst (openConnection demo_store)))) = 2.
Proof.
  split; [|vm_compute; reflexivity].
  apply (pool_identities_unique 7 "plc" (po_limits demo_pool) demo_pool 100); [reflexivity|].
  eapply rtc_l; [apply step_open|]. eapply rtc_l; [apply step_open|]. apply rtc_refl.
Defined.

(** Closing a lease that is current retires its owner for good: the lease no
    longer resolves, its place in the pool is free, the owner refuses every
    further reservation, and everything it had in flight is pending as failed;
    closing it again, or closing a lease that is not current, changes nothing. *)
Theorem closed_lease_is_dead s lease o :
  pool_ok s -> ownerForEndpoint s lease = Some (le_owner lease) ->
  ps_owners s !! le_owner lease = Some o -> le_connectionID lease <> 0 ->
  exists s' o',
    closeConnection s lease = (s', None) /\
    ActiveConnections s' = ActiveConnections s - 1 /\
    ownerForEndpoint s' lease = None /\
    closeConnection s' lease = (s', Some (owner_request_error "connection_lease")) /\
    ps_owners s' !! le_owner lease = Some o' /\ ow_inFlight o' = ∅ /\
    (forall id r, ow_inFlight o !! id = Some r -> reservation_as o id r ∈ ow_pendingFailures o') /\
    (forall unit kind read dev dec deadline,
       snd (reserve o' unit kind read dev dec deadline)
       = Err (owner_range "connection_closed")).
Proof.
  intros Hs. unfold ownerForEndpoint at 1. do 2 (case_test; [done|]). bool_hyps.
  intros _ Eo Hne. unfold closeConnection at 1.
  rewrite Heqb, Z.eqb_refl, (proj2 (Z.eqb_neq _ _) Hne), bool_decide_eq_true_2, Eo by done.
  cbn [negb orb]. eexists _, _. split; [reflexivity|].
  assert (Hgone : forall m : gmap Z Z, delete (le_connectionID lease) m !! le_connectionID lease
                  <> Some (le_owner lease)) by (intros m; by rewrite lookup_delete_eq).
  conj.
  - unfold ActiveConnections. cbn. by apply msize_delete_Some in Heqb0.
  - unfold ownerForEndpoint. cbn. rewrite (bool_decide_eq_false_2 _ (Hgone _)).
    by case_test.
  - unfold closeConnection. cbn. rewrite (bool_decide_eq_false_2 _ (Hgone _)).
    by rewrite orb_true_r.
  - cbn. by rewrite lookup_insert_eq.
  - unfold retire. by rewrite failAll_spec.
  - intros id r Hr. unfold retire. rewrite failAll_spec. cbn.
    apply elem_of_app. right. apply (failures_elem o None). by exists id, r.
  - intros. unfold retire. by rewrite failAll_spec.
Qed.

Lemma closed_lease_is_dead_witness :
  exists s', closeConnection (fst (openConnection demo_store))
               {| le_pool := 7; le_connectionID := 1; le_owner := 100 |} = (s', None) /\
             ActiveConnections s' = 0.
Proof.
  destruct (closed_lease_is_dead (fst (openConnection demo_store))
              {| le_pool := 7; le_connectionID := 1; le_owner := 100 |}
              (adopt 7 1 demo_owner)) as (s' & o' & E & Ea & _);
    [|vm_compute; reflexivity|vm_compute; reflexivity|discriminate|].
  - apply open_ok. apply (new_pool_ok 7 "plc" (po_limits demo_pool)). reflexivity.
  - exists s'. split; [exact E|]. rewrite Ea. vm_compute. reflexivity.
Defined.
