(* ===== verification/Coalescing.v ===== *)
(** Coalesced reads (tcp_coalescing.go): several logical reads of one device
    become one physical request over the union of their ranges; its response is
    sliced back, cancellation narrows or releases it, and failures terminate
    every dependent once.

    A group calls its connection owner, so the operations that do take and
    return the owner.  The scheduler and the transport are notified of what a
    group releases; these notifications are results here: [released] is the
    number of dependents given back to the scheduler. *)

From S2P Require Import Prelude Pdu DeviceId DeviceIdTolerant TcpAdu TcpOwner.

(** * Data *)

Definition maxCoalescedDependents : Z := 4096.

Definition TransportRTU : string := "rtu".

Record ReadIntentSpec : Type := mkReadIntentSpec {
  is_LogicalViewID : Z;
  is_Endpoint : string;
  is_Transport : string;
  is_TransportGeneration : Z;
  is_UnitID : Z;
  is_AuthorizationScope : string;
  is_PollGeneration : Z;
  is_DeadlineIdentity : Z;
  is_Request : ReadRegistersRequest
}.

Inductive dependentState : Type :=
| dependentQueued
| dependentAttached
| dependentCancelled
| dependentDelivered
| dependentFailed.

#[export] Instance dependentState_eq_dec : EqDecision dependentState.
Proof. solve_decision. Defined.

Record CoalescedSlice : Type := mkCoalescedSlice {
  sl_logicalViewID : Z;
  sl_logicalOffset : Z;
  sl_logicalWords : Z;
  sl_sliceOffset : Z;
  sl_sliceWordCount : Z
}.

#[export] Instance CoalescedSlice_eq_dec : EqDecision CoalescedSlice.
Proof. solve_decision. Defined.

Record coalescedDependent : Type := mkCoalescedDependent {
  cd_slice : CoalescedSlice;
  cd_state : dependentState
}.

#[export] Instance coalescedDependent_eq_dec : EqDecision coalescedDependent.
Proof. solve_decision. Defined.

(** The fields the operations below read or write; a group is bound when it has
    an owner, whose reservation it then holds. *)
Record CoalescedRead : Type := mkCoalescedRead {
  cr_physical : ReadRegistersRequest;
  cr_dependents : list coalescedDependent;
  cr_endpoint : string;
  cr_transport : string;
  cr_intentGeneration : Z;
  cr_unitID : Z;
  cr_authorizationScope : string;
  cr_pollGeneration : Z;
  cr_deadlineIdentity : Z;
  cr_owner : option Z;
  cr_reservation : option TCPReservation;
  cr_physicalRequestID : Z;
  cr_generation : Z;
  cr_writeBegun : bool;
  cr_completed : bool;
  cr_tcpTransport : option Z
}.

Record CoalescedTransition : Type := mkCoalescedTransition {
  ct_transmitPhysical : bool;
  ct_abandonTransport : bool;
  ct_ownerTransition : OwnerTransition
}.

Definition no_coalesced_transition : CoalescedTransition :=
  {| ct_transmitPhysical := false; ct_abandonTransport := false;
     ct_ownerTransition := no_transition |}.

Record LogicalViewProvenance : Type := mkLogicalViewProvenance {
  lp_PhysicalRequestID : Z;
  lp_Wire : WireProvenance;
  lp_AuthorizationScope : string;
  lp_PollGeneration : Z;
  lp_DeadlineIdentity : Z;
  lp_LogicalOffset : Z;
  lp_LogicalWordCount : Z;
  lp_SliceOffset : Z;
  lp_SliceWordCount : Z
}.

(** Without the runtime eligibility, which belongs to the acquisition layer. *)
Record LogicalReadView : Type := mkLogicalReadView {
  lv_logicalViewID : Z;
  lv_wireResponseID : Z;
  lv_logicalOffset : Z;
  lv_logicalWords : Z;
  lv_sliceOffset : Z;
  lv_sliceWordCount : Z;
  lv_words : list Z;
  lv_wireBytes : list Z;
  lv_provenance : LogicalViewProvenance
}.

Abbreviation group := CoalescedRead.

(** * Intents and their union *)

Definition read_error (kind : ErrorKind) (function : Z) (field : string) : ProtocolError :=
  protocolError kind function 0 field (-1).

Definition NewReadIntent (spec : ReadIntentSpec) : presult ReadIntentSpec :=
  if (is_LogicalViewID spec =? 0) || String.eqb (is_Endpoint spec) ""
     || (negb (String.eqb (is_Transport spec) TransportTCP)
         && negb (String.eqb (is_Transport spec) TransportRTU))
     || (is_TransportGeneration spec =? 0) || (is_UnitID spec >? 247)
     || ((is_UnitID spec =? 0) && negb (String.eqb (is_Transport spec) TransportTCP))
     || String.eqb (is_AuthorizationScope spec) ""
     || (is_PollGeneration spec =? 0) || (is_DeadlineIdentity spec =? 0) then
    Err (read_error ErrorInvalidRequest (rr_function (is_Request spec)) "read_intent")
  else
  match validateReadRegistersRequest (is_Request spec) with
  | Some err => Err err
  | None => Ok spec
  end.

Definition sameCoalescingIdentity (first second : ReadIntentSpec) : bool :=
  String.eqb (is_Endpoint first) (is_Endpoint second)
  && String.eqb (is_Transport first) (is_Transport second)
  && (is_TransportGeneration first =? is_TransportGeneration second)
  && (is_UnitID first =? is_UnitID second)
  && (rr_function (is_Request first) =? rr_function (is_Request second))
  && bool_decide (rr_table (is_Request first) = rr_table (is_Request second))
  && String.eqb (is_AuthorizationScope first) (is_AuthorizationScope second)
  && (is_PollGeneration first =? is_PollGeneration second)
  && (is_DeadlineIdentity first =? is_DeadlineIdentity second).

(** The running bounds of the loop of [coalesceReads]. *)
Record UnionBounds : Type := mkUnionBounds {
  ub_minOffset : Z;
  ub_maxEnd : Z;
  ub_maxStart : Z;
  ub_minEnd : Z
}.

Definition request_end (request : ReadRegistersRequest) : Z :=
  wrap32 (rr_offset request + rr_quantity request).

Definition widen (b : UnionBounds) (request : ReadRegistersRequest) : UnionBounds :=
  let start := rr_offset request in
  let end_ := request_end request in
  {| ub_minOffset := if start <? ub_minOffset b then start else ub_minOffset b;
     ub_maxEnd := if end_ >? ub_maxEnd b then end_ else ub_maxEnd b;
     ub_maxStart := if start >? ub_maxStart b then start else ub_maxStart b;
     ub_minEnd := if end_ <? ub_minEnd b then end_ else ub_minEnd b |}.

Fixpoint union_loop (base : ReadIntentSpec) (intents : list ReadIntentSpec)
    (seenIDs : gset Z) (bounds : UnionBounds) : presult UnionBounds :=
  match intents with
  | [] => Ok bounds
  | spec :: intents =>
      match NewReadIntent spec with
      | Err err => Err err
      | Ok _ =>
          let function := rr_function (is_Request spec) in
          if bool_decide (is_LogicalViewID spec ∈ seenIDs) then
            Err (read_error ErrorInvalidRequest function "logical_view_id")
          else if negb (sameCoalescingIdentity base spec) then
            Err (read_error ErrorInvalidRequest function "coalescing_identity")
          else
            union_loop base intents ({[is_LogicalViewID spec]} ∪ seenIDs)
              (widen bounds (is_Request spec))
      end
  end.

Definition dependent_of (minOffset : Z) (spec : ReadIntentSpec) : coalescedDependent :=
  {| cd_slice :=
       {| sl_logicalViewID := is_LogicalViewID spec;
          sl_logicalOffset := rr_offset (is_Request spec);
          sl_logicalWords := rr_quantity (is_Request spec);
          sl_sliceOffset := wrap16 (rr_offset (is_Request spec) - wrap16 minOffset);
          sl_sliceWordCount := rr_quantity (is_Request spec) |};
     cd_state := dependentQueued |}.

Definition coalesceReads (intents : list ReadIntentSpec) (maxDependents : Z) : presult group :=
  if (maxDependents <=? 0) || (maxDependents >? maxCoalescedDependents) then
    Err (read_error ErrorInvalidRequest 0 "max_coalesced_dependents")
  else if (zlen intents =? 0) || (zlen intents >? maxDependents) then
    let kind :=
      if zlen intents >? maxDependents then ErrorInvalidRange else ErrorInvalidRequest in
    Err (read_error kind 0 "read_intents")
  else
  match intents with
  | [] => Err (read_error ErrorInvalidRequest 0 "read_intents")
  | base :: _ =>
  match NewReadIntent base with
  | Err err => Err err
  | Ok _ =>
  let function := rr_function (is_Request base) in
  let minOffset := rr_offset (is_Request base) in
  let maxEnd := request_end (is_Request base) in
  match union_loop base intents ∅
          {| ub_minOffset := minOffset; ub_maxEnd := maxEnd; ub_maxStart := minOffset;
             ub_minEnd := maxEnd |} with
  | Err err => Err err
  | Ok b =>
  if (zlen intents >? 1) && (ub_maxStart b >=? ub_minEnd b) then
    Err (read_error ErrorInvalidRange function "non_overlapping_ranges")
  else
  let union := wrap32 (ub_maxEnd b - ub_minOffset b) in
  if (union =? 0) || (union >? MaxReadRegisters) then
    Err (read_error ErrorInvalidRange function "physical_union")
  else
  match NewReadRegistersRequest function (wrap16 (ub_minOffset b)) (wrap16 union) with
  | Err err => Err err
  | Ok physical =>
      Ok {| cr_physical := physical;
            cr_dependents := dependent_of (ub_minOffset b) <$> intents;
            cr_endpoint := is_Endpoint base; cr_transport := is_Transport base;
            cr_intentGeneration := is_TransportGeneration base;
            cr_unitID := is_UnitID base;
            cr_authorizationScope := is_AuthorizationScope base;
            cr_pollGeneration := is_PollGeneration base;
            cr_deadlineIdentity := is_DeadlineIdentity base;
            cr_owner := None; cr_reservation := None; cr_physicalRequestID := 0;
            cr_generation := 0; cr_writeBegun := false; cr_completed := false;
            cr_tcpTransport := None |}
  end
  end
  end
  end.

(** * Group state *)

(** Assignments to the fields the lifecycle changes. *)
Definition set_lifecycle (g : group) (physical : ReadRegistersRequest)
    (dependents : list coalescedDependent) (writeBegun completed : bool)
    (transport : option Z) : group :=
  {| cr_physical := physical; cr_dependents := dependents; cr_endpoint := cr_endpoint g;
     cr_transport := cr_transport g; cr_intentGeneration := cr_intentGeneration g;
     cr_unitID := cr_unitID g; cr_authorizationScope := cr_authorizationScope g;
     cr_pollGeneration := cr_pollGeneration g; cr_deadlineIdentity := cr_deadlineIdentity g;
     cr_owner := cr_owner g; cr_reservation := cr_reservation g;
     cr_physicalRequestID := cr_physicalRequestID g; cr_generation := cr_generation g;
     cr_writeBegun := writeBegun; cr_completed := completed; cr_tcpTransport := transport |}.

Definition set_binding (g : group) (reservation : TCPReservation) : group :=
  {| cr_physical := cr_physical g; cr_dependents := cr_dependents g;
     cr_endpoint := cr_endpoint g; cr_transport := cr_transport g;
     cr_intentGeneration := cr_intentGeneration g; cr_unitID := cr_unitID g;
     cr_authorizationScope := cr_authorizationScope g;
     cr_pollGeneration := cr_pollGeneration g; cr_deadlineIdentity := cr_deadlineIdentity g;
     cr_owner := Some (tv_owner reservation); cr_reservation := Some reservation;
     cr_physicalRequestID := tv_physicalRequestID reservation;
     cr_generation := tv_generation reservation; cr_writeBegun := cr_writeBegun g;
     cr_completed := cr_completed g; cr_tcpTransport := cr_tcpTransport g |}.

Definition with_dependent_state (state : dependentState) (d : coalescedDependent)
    : coalescedDependent := {| cd_slice := cd_slice d; cd_state := state |}.

Definition active_state (state : dependentState) : bool :=
  match state with
  | dependentQueued | dependentAttached => true
  | _ => false
  end.

Definition is_active (d : coalescedDependent) : bool := active_state (cd_state d).

Definition activeDependentCountLocked (g : group) : Z :=
  zlen (base.filter (fun d => is_active d = true) (cr_dependents g)).

(** * Binding and writing *)

(** [o] is the owner the reservation points to. *)
Definition BindReservation (g : group) (o : owner) (reservation : TCPReservation)
    : group * option ProtocolError :=
  let function := rr_function (cr_physical g) in
  if cr_completed g || cr_writeBegun g || negb (cr_physicalRequestID g =? 0)
     || (tv_physicalRequestID reservation =? 0) || (tv_generation reservation =? 0) then
    (g, Some (read_error ErrorInvalidRequest function "physical_reservation"))
  else if negb (String.eqb (cr_transport g) TransportTCP)
          || negb (matchesReadReservation o reservation (cr_endpoint g)
                     (cr_intentGeneration g) (cr_unitID g) (cr_physical g)) then
    (g, Some (read_error ErrorInvalidRequest function "reservation_identity"))
  else (set_binding g reservation, None).

(** A transport as the group sees it: its address, owner and generation. *)
Record TransportRef : Type := mkTransportRef {
  tf_self : Z;
  tf_owner : Z;
  tf_generation : Z
}.

Definition attach_queued (d : coalescedDependent) : coalescedDependent :=
  if bool_decide (cd_state d = dependentQueued) then with_dependent_state dependentAttached d
  else d.

(** [dispatch] is the scheduler's answer to [RequireCoalescedDispatch] and
    [register] the transport's to [registerCoalescedLocked]; either is [None]
    when it consents or is absent. *)
Definition beginWriteLocked (g : group) (o : owner) (transport : option TransportRef)
    (dispatch register : option ProtocolError)
    : group * owner * presult TCPReservation :=
  if cr_writeBegun g || cr_completed g || (cr_physicalRequestID g =? 0)
     || (activeDependentCountLocked g =? 0) then
    (g, o, Err (read_error ErrorInvalidRequest 0 "coalesced_state"))
  else
  let foreign :=
    match transport with
    | Some t => negb (bool_decide (cr_owner g = Some (tf_owner t)))
                || negb (tf_generation t =? cr_generation g)
    | None => false
    end in
  if foreign then (g, o, Err (read_error ErrorInvalidRequest 0 "coalesced_transport"))
  else
  match dispatch with
  | Some err => (g, o, Err err)
  | None =>
  match register with
  | Some err => (g, o, Err err)
  | None =>
  match cr_reservation g with
  | None => (g, o, Err (read_error ErrorInvalidRequest 0 "coalesced_state"))
  | Some reservation =>
  match MarkWriteInvoked o reservation with
  | (o, Some err) => (g, o, Err err)
  | (o, None) =>
      (set_lifecycle g (cr_physical g) (attach_queued <$> cr_dependents g) true
         (cr_completed g) (tf_self <$> transport), o, Ok reservation)
  end
  end
  end
  end.

(** * Cancellation *)

(** The loop of [physicalWithoutLogicalLocked]: the hull of the active
    dependents other than the excluded one. *)
Fixpoint hull_loop (excluded : Z) (dependents : list coalescedDependent)
    (hull : option (Z * Z)) : option (Z * Z) :=
  match dependents with
  | [] => hull
  | d :: dependents =>
      if negb (is_active d) then hull_loop excluded dependents hull
      else if sl_logicalViewID (cd_slice d) =? excluded then hull_loop excluded dependents hull
      else
        let start := sl_logicalOffset (cd_slice d) in
        let end_ := wrap32 (start + sl_logicalWords (cd_slice d)) in
        let hull :=
          match hull with
          | None => (start, end_)
          | Some (minOffset, maxEnd) =>
              (if start <? minOffset then start else minOffset,
               if end_ >? maxEnd then end_ else maxEnd)
          end in
        hull_loop excluded dependents (Some hull)
  end.

Definition physicalWithoutLogicalLocked (g : group) (excludedLogicalViewID : Z)
    : presult ReadRegistersRequest :=
  let function := rr_function (cr_physical g) in
  let fail := Err (read_error ErrorInvalidRequest function "physical_union") in
  match hull_loop excludedLogicalViewID (cr_dependents g) None with
  | None => fail
  | Some (minOffset, maxEnd) =>
      if maxEnd <=? minOffset then fail
      else
        NewReadRegistersRequest function (wrap16 minOffset)
          (wrap16 (wrap32 (maxEnd - minOffset)))
  end.

Definition reslice (physical : ReadRegistersRequest) (d : coalescedDependent)
    : coalescedDependent :=
  if is_active d then
    {| cd_slice :=
         {| sl_logicalViewID := sl_logicalViewID (cd_slice d);
            sl_logicalOffset := sl_logicalOffset (cd_slice d);
            sl_logicalWords := sl_logicalWords (cd_slice d);
            sl_sliceOffset := wrap16 (sl_logicalOffset (cd_slice d) - rr_offset physical);
            sl_sliceWordCount := sl_sliceWordCount (cd_slice d) |};
       cd_state := cd_state d |}
  else d.

Definition applyPhysicalLocked (g : group) (physical : ReadRegistersRequest) : group :=
  set_lifecycle g physical (reslice physical <$> cr_dependents g) (cr_writeBegun g)
    (cr_completed g) (cr_tcpTransport g).

(** The first dependent with the view identifier: [group.dependents[index]]. *)
Fixpoint find_view (logicalViewID : Z) (dependents : list coalescedDependent)
    : option (nat * coalescedDependent) :=
  match dependents with
  | [] => None
  | d :: dependents =>
      if sl_logicalViewID (cd_slice d) =? logicalViewID then Some (O, d)
      else
      match find_view logicalViewID dependents with
      | None => None
      | Some (index, d) => Some (S index, d)
      end
  end.

Record CancelResult : Type := mkCancelResult {
  ca_transition : CoalescedTransition;
  ca_transport : option Z;
  ca_completed : bool;
  ca_error : option ProtocolError;
  ca_released : Z
}.

Definition cancel_failed (err : ProtocolError) : CancelResult :=
  {| ca_transition := no_coalesced_transition; ca_transport := None; ca_completed := false;
     ca_error := Some err; ca_released := 0 |}.

(** The owner's part of a cancellation: the narrowed request when others stay
    active before the write, the release of the reservation or the abandonment
    of the response otherwise. *)
Definition cancel_owner (g : group) (o : owner) (wasAttached : bool) (activeAfter : Z)
    (logicalViewID : Z)
    : owner * (option ReadRegistersRequest * OwnerTransition * option ProtocolError) :=
  let before :=
    if negb (cr_writeBegun g) && (activeAfter >? 0) then
      match physicalWithoutLogicalLocked g logicalViewID with
      | Err err => (o, None, Some err)
      | Ok replacement =>
          match cr_owner g, cr_reservation g with
          | Some _, Some reservation =>
              match replaceReservedRead o reservation replacement with
              | (o, Some err) => (o, None, Some err)
              | (o, None) => (o, Some replacement, None)
              end
          | _, _ => (o, Some replacement, None)
          end
      end
    else (o, None, None) in
  match before with
  | (o, _, Some err) => (o, (None, no_transition, Some err))
  | (o, replacement, None) =>
      let '(o, err) :=
        if negb (cr_writeBegun g) && (activeAfter =? 0) then
          match cr_owner g, cr_reservation g with
          | Some _, Some reservation => CancelBeforeWrite o reservation
          | _, _ => (o, None)
          end
        else (o, None) in
      if wasAttached && (activeAfter =? 0) then
        match cr_reservation g with
        | Some reservation =>
            let '(o, (transition, err)) := AbandonAfterWrite o reservation AbandonCancellation in
            (o, (replacement, transition, err))
        | None => (o, (replacement, no_transition, err))
        end
      else (o, (replacement, no_transition, err))
  end.

(** The group's part, once the owner has agreed. *)
Definition cancel_apply (g : group) (index : nat) (dependent : coalescedDependent)
    (replacement : option ReadRegistersRequest) (ownerTransition : OwnerTransition)
    (ownerErr : option ProtocolError) : group * CancelResult :=
  let wasAttached := bool_decide (cd_state dependent = dependentAttached) in
  let g := set_lifecycle g (cr_physical g)
             (<[index := with_dependent_state dependentCancelled dependent]> (cr_dependents g))
             (cr_writeBegun g) (cr_completed g) (cr_tcpTransport g) in
  let active := activeDependentCountLocked g in
  let g :=
    match replacement with
    | Some physical => applyPhysicalLocked g physical
    | None => g
    end in
  let completed := if active =? 0 then true else cr_completed g in
  (set_lifecycle g (cr_physical g) (cr_dependents g) (cr_writeBegun g) completed
     (cr_tcpTransport g),
   {| ca_transition :=
        {| ct_transmitPhysical := negb (cr_writeBegun g) && (active >? 0);
           ct_abandonTransport := wasAttached && (active =? 0);
           ct_ownerTransition := ownerTransition |};
      ca_transport := cr_tcpTransport g; ca_completed := completed;
      ca_error := ownerErr; ca_released := 1 |}).

Definition cancelLocked (g : group) (o : owner) (logicalViewID : Z)
    : group * owner * CancelResult :=
  let function := rr_function (cr_physical g) in
  if cr_completed g then
    (g, o, cancel_failed (read_error ErrorInvalidRequest 0 "coalesced_state"))
  else
  match find_view logicalViewID (cr_dependents g) with
  | None => (g, o, cancel_failed (read_error ErrorInvalidRequest function "logical_view_id"))
  | Some (index, dependent) =>
  if negb (is_active dependent) then
    (g, o, cancel_failed (read_error ErrorInvalidRequest function "dependent_state"))
  else
  let '(o, (replacement, ownerTransition, ownerErr)) :=
    cancel_owner g o (bool_decide (cd_state dependent = dependentAttached))
      (activeDependentCountLocked g - 1) logicalViewID in
  match ownerErr with
  | Some err =>
      if negb (ot_closeConnection ownerTransition) then (g, o, cancel_failed err)
      else
        let '(g, result) :=
          cancel_apply g index dependent replacement ownerTransition ownerErr in
        (g, o, result)
  | None =>
      let '(g, result) :=
        cancel_apply g index dependent replacement ownerTransition ownerErr in
      (g, o, result)
  end
  end.

(** * Completion *)

(** Failing the dependents in a state; the second component counts them. *)
Definition fail_dependents (fails : dependentState -> bool)
    (dependents : list coalescedDependent) : list coalescedDependent * Z :=
  ((fun d => if fails (cd_state d) then with_dependent_state dependentFailed d else d)
     <$> dependents,
   zlen (base.filter (fun d => fails (cd_state d) = true) dependents)).

Definition attached_state (state : dependentState) : bool :=
  bool_decide (state = dependentAttached).

Definition finishWriteFailure (g : group) : group * Z :=
  if cr_completed g then (g, 0)
  else
    let '(dependents, failed) := fail_dependents attached_state (cr_dependents g) in
    (set_lifecycle g (cr_physical g) dependents (cr_writeBegun g) true (cr_tcpTransport g),
     failed).

Definition failTransportLocked (g : group) (o : owner)
    : group * owner * (option ProtocolError * Z) :=
  if cr_completed g then (g, o, (None, 0))
  else
    let '(o, ownerErr) :=
      match cr_owner g, cr_reservation g with
      | Some _, Some reservation =>
          if negb (cr_writeBegun g) then CancelBeforeWrite o reservation else (o, None)
      | _, _ => (o, None)
      end in
    let '(dependents, failed) := fail_dependents active_state (cr_dependents g) in
    (set_lifecycle g (cr_physical g) dependents (cr_writeBegun g) true (cr_tcpTransport g),
     o, (ownerErr, failed)).

Definition Fail (g : group) (response : WireResponse)
    : group * (option ProtocolError * Z) :=
  if cr_completed g || negb (cr_writeBegun g) || (wr_wireResponseID response =? 0)
     || negb (bool_decide (wr_owner response = cr_owner g))
     || negb (wr_physicalRequestID response =? cr_physicalRequestID g)
     || wr_deliverable response
     || (negb (bool_decide (wr_outcome response = WireProtocolException))
         && negb (bool_decide (wr_outcome response = WireMalformedResponse))) then
    (g, (Some (read_error ErrorInvalidRequest (rr_function (cr_physical g))
                 "failed_response"), 0))
  else
    let '(dependents, failed) := fail_dependents attached_state (cr_dependents g) in
    (set_lifecycle g (cr_physical g) dependents (cr_writeBegun g) true (cr_tcpTransport g),
     (None, failed)).

Definition replay_identity_error (g : group) (response : WireResponse) : bool :=
  cr_completed g || negb (cr_writeBegun g) || (wr_wireResponseID response =? 0)
  || negb (bool_decide (wr_owner response = cr_owner g)) || negb (wr_deliverable response)
  || negb (bool_decide (wr_outcome response = WireSuccessfulData))
  || negb (wr_physicalRequestID response =? cr_physicalRequestID g)
  || match wr_provenance response with
     | None => true
     | Some provenance =>
         negb (String.eqb (wp_Transport provenance) TransportTCP)
         || negb (wp_TransportGeneration provenance =? cr_generation g)
         || negb (wp_RequestedFunction provenance =? rr_function (cr_physical g))
         || negb (bool_decide (wp_Table provenance = rr_table (cr_physical g)))
         || negb (wp_Offset provenance =? rr_offset (cr_physical g))
         || negb (wp_Quantity provenance =? rr_quantity (cr_physical g))
     end.

Definition view_of (g : group) (response : WireResponse) (wire : WireProvenance)
    (slice : CoalescedSlice) : LogicalReadView :=
  {| lv_logicalViewID := sl_logicalViewID slice;
     lv_wireResponseID := wr_wireResponseID response;
     lv_logicalOffset := sl_logicalOffset slice; lv_logicalWords := sl_logicalWords slice;
     lv_sliceOffset := sl_sliceOffset slice; lv_sliceWordCount := sl_sliceWordCount slice;
     lv_words := take (Z.to_nat (sl_sliceWordCount slice))
                   (drop (Z.to_nat (sl_sliceOffset slice)) (do_words (wr_decoded response)));
     lv_wireBytes := wr_bytes response;
     lv_provenance :=
       {| lp_PhysicalRequestID := wr_physicalRequestID response; lp_Wire := wire;
          lp_AuthorizationScope := cr_authorizationScope g;
          lp_PollGeneration := cr_pollGeneration g;
          lp_DeadlineIdentity := cr_deadlineIdentity g;
          lp_LogicalOffset := sl_logicalOffset slice;
          lp_LogicalWordCount := sl_logicalWords slice;
          lp_SliceOffset := sl_sliceOffset slice;
          lp_SliceWordCount := sl_sliceWordCount slice |} |}.

(** The loop of [ReplaySuccessfulResponse]: the dependents it leaves, also when
    it stops at an error, and the views. *)
Fixpoint replay_loop (g : group) (response : WireResponse) (wire : WireProvenance)
    (dependents : list coalescedDependent)
    : list coalescedDependent * presult (list LogicalReadView) :=
  match dependents with
  | [] => ([], Ok [])
  | d :: rest =>
      let function := rr_function (cr_physical g) in
      if bool_decide (cd_state d = dependentCancelled) then
        let '(rest, views) := replay_loop g response wire rest in (d :: rest, views)
      else if negb (bool_decide (cd_state d = dependentAttached)) then
        (d :: rest, Err (read_error ErrorInvalidRequest function "dependent_state"))
      else
      let start := sl_sliceOffset (cd_slice d) in
      let end_ := wrap32 (start + sl_sliceWordCount (cd_slice d)) in
      if end_ >? zlen (do_words (wr_decoded response)) then
        (d :: rest, Err (read_error ErrorInvalidRange function "logical_slice"))
      else
        let '(rest, views) := replay_loop g response wire rest in
        (with_dependent_state dependentDelivered d :: rest,
         match views with
         | Err err => Err err
         | Ok views => Ok (view_of g response wire (cd_slice d) :: views)
         end)
  end.

Definition ReplaySuccessfulResponse (g : group) (response : WireResponse)
    : group * (presult (list LogicalReadView) * Z) :=
  match wr_provenance response with
  | None => (g, (Err (read_error ErrorInvalidRequest 0 "replay_identity"), 0))
  | Some wire =>
  if replay_identity_error g response then
    (g, (Err (read_error ErrorInvalidRequest 0 "replay_identity"), 0))
  else if negb (zlen (do_words (wr_decoded response)) =? rr_quantity (cr_physical g)) then
    (g, (Err (read_error ErrorInvalidRange (rr_function (cr_physical g)) "physical_words"), 0))
  else
  let '(dependents, views) := replay_loop g response wire (cr_dependents g) in
  match views with
  | Err err =>
      (set_lifecycle g (cr_physical g) dependents (cr_writeBegun g) (cr_completed g)
         (cr_tcpTransport g), (Err err, 0))
  | Ok views =>
      (set_lifecycle g (cr_physical g) dependents (cr_writeBegun g) true (cr_tcpTransport g),
       (Ok views, zlen views))
  end
  end.
