(* ===== verification/CoalescingFacts.v ===== *)
(** Correctness of coalesced reads (tcp_coalescing.go): the physical request is
    the smallest range covering the logical ones, every active dependent keeps
    its exact place in it through cancellation, a response is sliced into the
    words each logical read asked for, and every dependent is released once. *)

From S2P Require Import Prelude Pdu DeviceId DeviceIdTolerant TcpAdu TcpOwner TcpOwnerFacts.
From S2P Require Import Coalescing.

(** * The union of requests *)

Definition lo (r : ReadRegistersRequest) : Z := rr_offset r.
Definition hi (r : ReadRegistersRequest) : Z := rr_offset r + rr_quantity r.

Lemma request_end_hi r : valid_read r -> request_end r = hi r.
Proof.
  intros H. unfold request_end, hi. apply wrap32_id.
  apply valid_read_bounds in H. unfold u16, u32 in *. lia.
Qed.

(** The bounds after the loop are the extremes of the requests. *)
Definition extremes (rs : list ReadRegistersRequest) (b : UnionBounds) : Prop :=
  (forall r, r ∈ rs -> ub_minOffset b <= lo r <= ub_maxStart b /\
                       ub_minEnd b <= hi r <= ub_maxEnd b) /\
  (exists r, r ∈ rs /\ ub_minOffset b = lo r) /\ (exists r, r ∈ rs /\ ub_maxEnd b = hi r) /\
  (exists r, r ∈ rs /\ ub_maxStart b = lo r) /\ (exists r, r ∈ rs /\ ub_minEnd b = hi r).

Lemma widen_extremes rs b r :
  valid_read r -> extremes rs b -> extremes (rs ++ [r]) (widen b r).
Proof.
  intros Hv (Hall & (r1 & ? & E1) & (r2 & ? & E2) & (r3 & ? & E3) & (r4 & ? & E4)).
  unfold extremes, widen. rewrite request_end_hi by done. cbn. fold (lo r).
  assert (Hin : r ∈ rs ++ [r]) by (apply elem_of_app; right; by left).
  assert (Hold : forall s, s ∈ rs -> s ∈ rs ++ [r]) by (intros; apply elem_of_app; by left).
  conj.
  - intros s [Hs|Hs%list_elem_of_singleton]%elem_of_app.
    + specialize (Hall s Hs). repeat case_test; bool_hyps; lia.
    + subst s. specialize (Hall r1 H). repeat case_test; bool_hyps; lia.
  - case_test; [by exists r|exists r1; auto].
  - case_test; [by exists r|exists r2; auto].
  - case_test; [by exists r|exists r3; auto].
  - case_test; [by exists r|exists r4; auto].
Qed.

Lemma foldl_extremes rs0 rs b :
  Forall valid_read rs -> extremes rs0 b -> extremes (rs0 ++ rs) (foldl widen b rs).
Proof.
  intros Hv. revert rs0 b. induction Hv as [|r rs Hr Hv IH]; intros rs0 b Hb.
  - by rewrite app_nil_r.
  - cbn. rewrite cons_middle, app_assoc. apply IH. by apply widen_extremes.
Qed.

(** * Acceptance of intents *)

Definition spec_u (spec : ReadIntentSpec) : Prop :=
  u16 (rr_offset (is_Request spec)) /\ u16 (rr_quantity (is_Request spec)).

(** An intent [NewReadIntent] accepts. *)
Definition intent_valid (spec : ReadIntentSpec) : Prop := NewReadIntent spec = Ok spec.

Lemma NewReadIntent_Ok spec s :
  NewReadIntent spec = Ok s -> s = spec.
Proof.
  unfold NewReadIntent. case_test; [done|].
  destruct (validateReadRegistersRequest _); [done|]. by intros [= <-].
Qed.

Lemma intent_valid_read spec : spec_u spec -> intent_valid spec -> valid_read (is_Request spec).
Proof.
  intros [Ho Hq]. unfold intent_valid, NewReadIntent. case_test; [done|].
  destruct (validateReadRegistersRequest (is_Request spec)) eqn:E; [done|]. intros _.
  by apply validate_valid.
Qed.

Lemma union_loop_iff base intents seen b b' :
  union_loop base intents seen b = Ok b' <->
  Forall intent_valid intents /\
  NoDup (is_LogicalViewID <$> intents) /\
  (forall spec, spec ∈ intents -> is_LogicalViewID spec ∉ seen) /\
  (forall spec, spec ∈ intents -> sameCoalescingIdentity base spec = true) /\
  b' = foldl widen b (is_Request <$> intents).
Proof.
  revert seen b. induction intents as [|spec intents IH]; intros seen b.
  { cbn. split; [intros [= <-]|by intros (_ & _ & _ & _ & ->)].
    conj; try constructor; by intros ? ?%elem_of_nil. }
  cbn [union_loop]. rewrite fmap_cons, NoDup_cons, Forall_cons. cbn [foldl].
  destruct (NewReadIntent spec) as [s|err] eqn:En.
  2: { split; [done|]. intros ([Hv _] & _). unfold intent_valid in Hv. congruence. }
  apply NewReadIntent_Ok in En as Es. subst s.
  destruct (bool_decide (is_LogicalViewID spec ∈ seen)) eqn:Es; bool_hyps.
  { split; [done|]. intros (_ & _ & Hs & _). destruct (Hs spec); [by left|done]. }
  destruct (sameCoalescingIdentity base spec) eqn:Ei; cbn [negb].
  2: { split; [done|]. intros (_ & _ & _ & Hi & _). rewrite (Hi spec) in Ei; [done|by left]. }
  rewrite IH. split.
  - intros (Hv & Hd & Hs & Hi & ->). conj; try done.
    + intros (spec' & E & Hin)%list_elem_of_fmap. apply (Hs spec' Hin), elem_of_union.
      left. apply elem_of_singleton. congruence.
    + intros s [->|Hin]%elem_of_cons; [done|]. intros Hx. apply (Hs s Hin), elem_of_union.
      by right.
    + intros s [->|Hin]%elem_of_cons; [done|by apply Hi].
  - intros ([_ Hv] & [Hn Hd] & Hs & Hi & ->). conj; try done.
    + intros s Hin [Hx%elem_of_singleton|Hx]%elem_of_union.
      * apply Hn. rewrite <- Hx. by apply list_elem_of_fmap_2.
      * apply (Hs s); [by right|done].
    + intros s Hin. apply Hi. by right.
Qed.

(** * The physical request is the hull of the logical ones *)

(** [offset, end_) covers the requests and is no larger than it must be. *)
Definition hull_of (rs : list ReadRegistersRequest) (offset end_ : Z) : Prop :=
  (forall r, r ∈ rs -> offset <= lo r /\ hi r <= end_) /\
  (exists r, r ∈ rs /\ lo r = offset) /\ (exists r, r ∈ rs /\ hi r = end_).

Lemma hull_unique rs a b a' b' : hull_of rs a b -> hull_of rs a' b' -> a = a' /\ b = b'.
Proof.
  intros (H & (r1 & I1 & <-) & (r2 & I2 & <-)) (H' & (r3 & I3 & <-) & (r4 & I4 & <-)).
  pose proof (H r3 I3). pose proof (H' r1 I1). pose proof (H r4 I4). pose proof (H' r2 I2).
  lia.
Qed.

Definition slice_at (offset : Z) (spec : ReadIntentSpec) : coalescedDependent :=
  {| cd_slice :=
       {| sl_logicalViewID := is_LogicalViewID spec;
          sl_logicalOffset := lo (is_Request spec);
          sl_logicalWords := rr_quantity (is_Request spec);
          sl_sliceOffset := lo (is_Request spec) - offset;
          sl_sliceWordCount := rr_quantity (is_Request spec) |};
     cd_state := dependentQueued |}.

(** The unbound group of intents over a physical range. *)
Definition fresh_group (base : ReadIntentSpec) (intents : list ReadIntentSpec)
    (offset end_ : Z) : group :=
  {| cr_physical := read_request (rr_function (is_Request base)) offset (end_ - offset);
     cr_dependents := slice_at offset <$> intents;
     cr_endpoint := is_Endpoint base; cr_transport := is_Transport base;
     cr_intentGeneration := is_TransportGeneration base; cr_unitID := is_UnitID base;
     cr_authorizationScope := is_AuthorizationScope base;
     cr_pollGeneration := is_PollGeneration base;
     cr_deadlineIdentity := is_DeadlineIdentity base;
     cr_owner := None; cr_reservation := None; cr_physicalRequestID := 0;
     cr_generation := 0; cr_writeBegun := false; cr_completed := false;
     cr_tcpTransport := None |}.

Lemma valid_range r : valid_read r -> 0 <= lo r /\ lo r < hi r <= 65536 /\ hi r - lo r <= 125.
Proof. unfold valid_read, readable, lo, hi. lia. Qed.

Lemma extremes_base base :
  valid_read base ->
  extremes [base] {| ub_minOffset := rr_offset base; ub_maxEnd := request_end base;
                     ub_maxStart := rr_offset base; ub_minEnd := request_end base |}.
Proof.
  intros Hv. rewrite request_end_hi by done. unfold extremes. cbn. conj.
  - intros r ->%list_elem_of_singleton. unfold lo. lia.
  - exists base. by rewrite list_elem_of_singleton.
  - exists base. by rewrite list_elem_of_singleton.
  - exists base. by rewrite list_elem_of_singleton.
  - exists base. by rewrite list_elem_of_singleton.
Qed.

(** The base is visited again by the loop, which changes nothing. *)
Lemma extremes_dup r rs b : extremes (r :: r :: rs) b -> extremes (r :: rs) b.
Proof.
  intros (Hall & H1 & H2 & H3 & H4).
  assert (Hin : forall s, s ∈ r :: r :: rs -> s ∈ r :: rs)
    by (intros s; rewrite !elem_of_cons; tauto).
  split; [intros s Hs; apply Hall; by right|].
  conj; [destruct H1 as (s & ? & ?)|destruct H2 as (s & ? & ?)|destruct H3 as (s & ? & ?)
        |destruct H4 as (s & ? & ?)]; exists s; auto.
Qed.

Lemma extremes_hull rs b : extremes rs b -> hull_of rs (ub_minOffset b) (ub_maxEnd b).
Proof.
  intros (Hall & (r1 & ? & ?) & (r2 & ? & ?) & _). split; [|split].
  - intros r Hr. specialize (Hall r Hr). lia.
  - by exists r1.
  - by exists r2.
Qed.

(** Ranges share a register exactly when the last starts before the first ends. *)
Lemma extremes_common rs b :
  extremes rs b ->
  ub_maxStart b < ub_minEnd b <-> exists reg, forall r, r ∈ rs -> lo r <= reg < hi r.
Proof.
  intros (Hall & _ & _ & (r3 & H3 & E3) & (r4 & H4 & E4)). split.
  - intros Hlt. exists (ub_maxStart b). intros r Hr. specialize (Hall r Hr). lia.
  - intros [reg Hreg]. pose proof (Hreg r3 H3). pose proof (Hreg r4 H4). lia.
Qed.

Lemma hull_range rs offset end_ :
  Forall valid_read rs -> hull_of rs offset end_ ->
  0 <= offset < end_ /\ end_ <= 65536.
Proof.
  intros Hv (Hall & (r1 & H1 & E1) & (r2 & H2 & E2)). rewrite Forall_forall in Hv.
  pose proof (valid_range _ (Hv _ H1)). pose proof (valid_range _ (Hv _ H2)).
  pose proof (Hall r1 H1). lia.
Qed.

Lemma dependent_of_slice offset spec :
  valid_read (is_Request spec) -> 0 <= offset <= lo (is_Request spec) ->
  dependent_of offset spec = slice_at offset spec.
Proof.
  intros Hv%valid_range Ho. unfold dependent_of, slice_at, lo in *.
  rewrite (wrap16_id offset), wrap16_id by (unfold u16; lia). done.
Qed.

Lemma same_identity_function base spec :
  sameCoalescingIdentity base spec = true ->
  rr_function (is_Request base) = rr_function (is_Request spec).
Proof. unfold sameCoalescingIdentity. intros. bool_hyps. done. Qed.

(** What the acceptance conditions on the intents after the first are. *)
Definition accepted (base : ReadIntentSpec) (intents : list ReadIntentSpec) : Prop :=
  Forall intent_valid intents /\ NoDup (is_LogicalViewID <$> intents) /\
  (forall spec, spec ∈ intents -> sameCoalescingIdentity base spec = true).

Lemma union_loop_accepted base intents b :
  accepted base intents -> exists b', union_loop base intents ∅ b = Ok b'.
Proof.
  intros (Hv & Hd & Hi). eexists. apply union_loop_iff. by conj.
Qed.

Lemma union_loop_base base rest b :
  Forall spec_u (base :: rest) ->
  union_loop base (base :: rest) ∅
    {| ub_minOffset := rr_offset (is_Request base); ub_maxEnd := request_end (is_Request base);
       ub_maxStart := rr_offset (is_Request base); ub_minEnd := request_end (is_Request base) |}
  = Ok b ->
  accepted base (base :: rest) /\ Forall valid_read (is_Request <$> base :: rest) /\
  extremes (is_Request <$> base :: rest) b.
Proof.
  intros Hu (Hv & Hd & _ & Hi & ->)%union_loop_iff.
  assert (Hvr : Forall valid_read (is_Request <$> base :: rest)).
  { apply Forall_fmap, Forall_forall. intros spec Hin. rewrite Forall_forall in Hu, Hv.
    apply intent_valid_read; [by apply Hu|by apply Hv]. }
  split; [done|]. split; [done|]. rewrite fmap_cons in *.
  apply extremes_dup. apply (foldl_extremes [is_Request base]); [done|].
  apply extremes_base. by apply Forall_cons in Hvr as [? _].
Qed.

Lemma new_physical function offset end_ :
  (function = 3 \/ function = 4) -> 0 <= offset < end_ -> end_ <= 65536 ->
  end_ - offset <= 125 ->
  NewReadRegistersRequest function (wrap16 offset) (wrap16 (wrap32 (end_ - offset)))
  = Ok (read_request function offset (end_ - offset)).
Proof.
  intros. rewrite wrap32_id, !wrap16_id by (unfold u16, u32; lia).
  apply NewReadRegistersRequest_readable. unfold readable. lia.
Qed.

(** A single range always has a register of its own. *)
Lemma single_common rest base b :
  Forall valid_read (is_Request <$> base :: rest) ->
  extremes (is_Request <$> base :: rest) b ->
  (1 + zlen rest >? 1) && (ub_maxStart b >=? ub_minEnd b) = false <->
  ub_maxStart b < ub_minEnd b.
Proof.
  intros Hv Hx. pose proof (zlen_nonneg rest). destruct rest as [|spec rest].
  - split; [intros _|done].
    destruct Hx as (_ & _ & _ & (r3 & H3 & ->) & (r4 & H4 & ->)).
    cbn in H3, H4. apply list_elem_of_singleton in H3 as ->, H4 as ->.
    cbn in Hv. apply Forall_cons in Hv as [Hv _]. apply valid_range in Hv. lia.
  - rewrite zlen_cons in *. pose proof (zlen_nonneg rest).
    test_true (1 + (1 + zlen rest) >? 1). cbn [andb].
    split; intros Hc; bool_hyps; [lia|bool_goal; lia].
Qed.

(** The last part of [coalesceReads], on the bounds of accepted intents. *)
Lemma coalesce_physical base rest b :
  accepted base (base :: rest) -> Forall valid_read (is_Request <$> base :: rest) ->
  extremes (is_Request <$> base :: rest) b ->
  let union := wrap32 (ub_maxEnd b - ub_minOffset b) in
  if (union =? 0) || (union >? MaxReadRegisters) then ub_maxEnd b - ub_minOffset b > 125
  else
    ub_maxEnd b - ub_minOffset b <= 125 /\
    NewReadRegistersRequest (rr_function (is_Request base)) (wrap16 (ub_minOffset b))
      (wrap16 union)
    = Ok (cr_physical (fresh_group base (base :: rest) (ub_minOffset b) (ub_maxEnd b))) /\
    dependent_of (ub_minOffset b) <$> base :: rest
    = slice_at (ub_minOffset b) <$> base :: rest.
Proof.
  intros Ha Hv Hx. cbv zeta. pose proof (extremes_hull _ _ Hx) as Hh.
  pose proof (hull_range _ _ _ Hv Hh) as [? ?].
  rewrite wrap32_id by (unfold u32; lia). change MaxReadRegisters with 125.
  case_test; [apply orb_true_iff in Heqb0 as [?|?]; bool_hyps; lia|]. bool_hyps.
  split; [lia|]. split.
  - rewrite <- (wrap32_id (ub_maxEnd b - ub_minOffset b)) at 1 by (unfold u32; lia).
    apply new_physical; try lia. by apply Forall_cons in Hv as [[[? _] _] _].
  - apply list_fmap_ext. intros i spec Hin%list_elem_of_lookup_2.
    rewrite Forall_fmap, Forall_forall in Hv. apply dependent_of_slice; [by apply Hv|].
    destruct Hh as [Hall _]. pose proof (Hall _ (list_elem_of_fmap_2 is_Request _ _ Hin)). lia.
Qed.

Lemma coalesce_spec base rest maxDependents g :
  Forall spec_u (base :: rest) ->
  coalesceReads (base :: rest) maxDependents = Ok g <->
  zlen (base :: rest) <= maxDependents <= maxCoalescedDependents /\
  accepted base (base :: rest) /\
  (exists reg, forall spec, spec ∈ base :: rest ->
     lo (is_Request spec) <= reg < hi (is_Request spec)) /\
  exists offset end_,
    hull_of (is_Request <$> base :: rest) offset end_ /\ end_ - offset <= 125 /\
    g = fresh_group base (base :: rest) offset end_.
Proof.
  intros Hu. unfold coalesceReads, maxCoalescedDependents.
  pose proof (zlen_nonneg rest). rewrite zlen_cons.
  destruct ((maxDependents <=? 0) || _) eqn:E1.
  { split; [done|]. intros (? & _). apply orb_true_iff in E1 as [?|?]; bool_hyps; lia. }
  bool_hyps. test_false (1 + zlen rest =? 0). cbn [orb].
  destruct (1 + zlen rest >? maxDependents) eqn:E2.
  { split; [done|]. intros (? & _). bool_hyps. lia. }
  bool_hyps.
  destruct (union_loop base (base :: rest) ∅ _) as [b|err] eqn:El.
  2: { destruct (NewReadIntent base); (split; [done|]); intros (_ & Ha & _);
         eapply union_loop_accepted in Ha as [b' E']; rewrite E' in El; done. }
  apply union_loop_base in El as (Ha & Hvr & Hx); [|done].
  pose proof (extremes_hull _ _ Hx) as Hh.
  assert (Hcommon : (exists reg, forall spec, spec ∈ base :: rest ->
     lo (is_Request spec) <= reg < hi (is_Request spec)) <-> ub_maxStart b < ub_minEnd b).
  { rewrite (extremes_common _ _ Hx). split; intros [reg Hreg]; exists reg.
    - intros r (spec & -> & Hin)%list_elem_of_fmap. by apply Hreg.
    - intros spec Hin. apply Hreg. by apply list_elem_of_fmap_2. }
  pose proof Ha as [Hv _]. apply Forall_cons in Hv as [Hbase _]. unfold intent_valid in Hbase.
  rewrite Hbase, Hcommon, <- (single_common rest base b) by done.
  destruct ((1 + zlen rest >? 1) && _) eqn:Ec; [split; [done|by intros (_ & _ & ? & _)]|].
  pose proof (coalesce_physical base rest b Ha Hvr Hx) as Hp. cbv zeta in Hp.
  destruct (_ || _).
  { split; [done|]. intros (_ & _ & _ & offset & end_ & Hh' & ? & _).
    destruct (hull_unique _ _ _ _ _ Hh Hh'). lia. }
  destruct Hp as (? & -> & ->). split.
  - intros [= <-]. conj; try done; try lia. by exists (ub_minOffset b), (ub_maxEnd b).
  - intros (_ & _ & _ & offset & end_ & Hh' & ? & ->).
    destruct (hull_unique _ _ _ _ _ Hh Hh') as [-> ->]. done.
Qed.

(** * The invariant of a group *)

Definition slice_ok (d : coalescedDependent) : Prop :=
  let s := cd_slice d in
  1 <= sl_logicalWords s <= 125 /\ 0 <= sl_logicalOffset s /\
  sl_logicalOffset s + sl_logicalWords s <= 65536 /\
  sl_sliceWordCount s = sl_logicalWords s.

(** The slice lies in the physical range, at its exact place. *)
Definition placed (physical : ReadRegistersRequest) (d : coalescedDependent) : Prop :=
  let s := cd_slice d in
  lo physical <= sl_logicalOffset s /\
  sl_logicalOffset s + sl_logicalWords s <= hi physical /\
  sl_sliceOffset s = sl_logicalOffset s - lo physical.

Definition dep_request (d : coalescedDependent) : ReadRegistersRequest :=
  read_request 3 (sl_logicalOffset (cd_slice d)) (sl_logicalWords (cd_slice d)).

Definition actives (ds : list coalescedDependent) : list coalescedDependent :=
  base.filter (fun d => is_active d = true) ds.

Definition view_id (d : coalescedDependent) : Z := sl_logicalViewID (cd_slice d).

Record group_ok (g : group) : Prop := mk_group_ok {
  gk_physical : valid_read (cr_physical g);
  gk_slices : Forall slice_ok (cr_dependents g);
  gk_placed : Forall (fun d => is_active d = true -> placed (cr_physical g) d)
                (cr_dependents g);
  gk_ids : NoDup (view_id <$> cr_dependents g);
  gk_hull : cr_writeBegun g = false -> cr_completed g = false ->
    hull_of (dep_request <$> actives (cr_dependents g))
      (lo (cr_physical g)) (hi (cr_physical g));
  gk_states : Forall (fun d => cd_state d <>
    if cr_writeBegun g then dependentQueued else dependentAttached) (cr_dependents g);
  gk_open : cr_completed g = false ->
    actives (cr_dependents g) <> [] /\
    Forall (fun d => is_active d = true \/ cd_state d = dependentCancelled) (cr_dependents g);
  gk_done : cr_completed g = true -> actives (cr_dependents g) = []
}.

Lemma actives_cons d ds :
  actives (d :: ds) = if is_active d then d :: actives ds else actives ds.
Proof.
  unfold actives. rewrite filter_cons. destruct (is_active d); by case_decide.
Qed.

Lemma actives_app l k : actives (l ++ k) = actives l ++ actives k.
Proof. apply filter_app. Qed.

Lemma actives_all ds : Forall (fun d => is_active d = true) ds -> actives ds = ds.
Proof. induction 1 as [|d ds Hd _ IH]; [done|]. by rewrite actives_cons, Hd, IH. Qed.

(** The hull depends only on where the ranges start and end. *)
Lemma hull_ext rs rs' a b :
  (forall r, r ∈ rs -> exists r', r' ∈ rs' /\ lo r' = lo r /\ hi r' = hi r) ->
  (forall r, r ∈ rs' -> exists r', r' ∈ rs /\ lo r' = lo r /\ hi r' = hi r) ->
  hull_of rs a b -> hull_of rs' a b.
Proof.
  intros H1 H2 (Hall & (r1 & I1 & E1) & (r2 & I2 & E2)). split; [|split].
  - intros r (r' & I & <- & <-)%H2. by apply Hall.
  - destruct (H1 r1 I1) as (r' & ? & E & _). exists r'. split; [done|congruence].
  - destruct (H1 r2 I2) as (r' & ? & _ & E). exists r'. split; [done|congruence].
Qed.

Lemma hull_fmap {A} (f f' : A -> ReadRegistersRequest) l a b :
  (forall x, lo (f' x) = lo (f x) /\ hi (f' x) = hi (f x)) ->
  hull_of (f <$> l) a b -> hull_of (f' <$> l) a b.
Proof.
  intros Hf. apply hull_ext; intros r (x & -> & Hin)%list_elem_of_fmap;
    [exists (f' x)|exists (f x)];
    (split; [by apply list_elem_of_fmap_2|destruct (Hf x); done]).
Qed.

Lemma read_request_valid function offset end_ :
  (function = 3 \/ function = 4) -> 0 <= offset < end_ -> end_ <= 65536 ->
  end_ - offset <= 125 -> valid_read (read_request function offset (end_ - offset)).
Proof. intros. unfold valid_read, readable. cbn. split; [lia|done]. Qed.

Lemma fresh_group_ok base intents offset end_ :
  intents <> [] -> Forall valid_read (is_Request <$> intents) ->
  NoDup (is_LogicalViewID <$> intents) -> valid_read (is_Request base) ->
  hull_of (is_Request <$> intents) offset end_ -> end_ - offset <= 125 ->
  group_ok (fresh_group base intents offset end_).
Proof.
  intros Hne Hv Hd [[Hf _] _] Hh Hlen. pose proof (hull_range _ _ _ Hv Hh) as [? ?].
  pose proof Hh as [Hall _]. rewrite Forall_fmap in Hv.
  assert (Ha : actives (slice_at offset <$> intents) = slice_at offset <$> intents).
  { apply actives_all, Forall_fmap, Forall_forall. done. }
  split; cbn [cr_physical cr_dependents cr_writeBegun cr_completed fresh_group]; rewrite ?Ha.
  - by apply read_request_valid.
  - apply Forall_fmap. eapply Forall_impl; [exact Hv|]. intros spec Hs%valid_range.
    unfold slice_ok. cbn. unfold lo, hi in *. lia.
  - apply Forall_fmap, Forall_forall. intros spec Hin _. unfold placed. cbn.
    pose proof (Hall _ (list_elem_of_fmap_2 is_Request _ _ Hin)). unfold lo, hi in *. cbn. lia.
  - rewrite <- list_fmap_compose. exact Hd.
  - intros _ _. unfold lo at 1, hi at 1. cbn. rewrite Zplus_minus.
    rewrite <- list_fmap_compose. eapply hull_fmap; [|exact Hh]. done.
  - apply Forall_fmap, Forall_forall. done.
  - intros _. split; [by destruct intents|]. apply Forall_fmap, Forall_forall. by left.
  - done.
Qed.

(** * Lifecycle operations keep the invariant *)

Lemma bind_group_ok g o v : group_ok g -> group_ok (fst (BindReservation g o v)).
Proof.
  intros Hg. unfold BindReservation. repeat (case_test; [done|]). destruct Hg. by constructor.
Qed.

Lemma attach_active d : is_active (attach_queued d) = is_active d.
Proof.
  unfold attach_queued, is_active.
  destruct (bool_decide _) eqn:E; bool_hyps; [by rewrite E|done].
Qed.

Lemma attach_slice d : cd_slice (attach_queued d) = cd_slice d.
Proof. unfold attach_queued. by case_test. Qed.

Lemma actives_fmap (f : coalescedDependent -> coalescedDependent) ds :
  (forall d, is_active (f d) = is_active d) -> actives (f <$> ds) = f <$> actives ds.
Proof.
  intros Hf. induction ds as [|d ds IH]; [done|].
  rewrite fmap_cons, !actives_cons, Hf, IH. by destruct (is_active d).
Qed.

Lemma begin_group_ok g o t dispatch register :
  group_ok g -> group_ok (fst (fst (beginWriteLocked g o t dispatch register))).
Proof.
  intros Hg. unfold beginWriteLocked. case_test; [done|].
  match goal with |- context [if ?b then _ else _] => destruct b end; [done|].
  destruct dispatch; [done|]. destruct register; [done|]. destruct (cr_reservation g); [|done].
  destruct (MarkWriteInvoked o t0) as [o' [err|]]; [done|]. cbn [fst]. bool_hyps.
  destruct Hg. split; cbn -[actives]; try done.
  - apply Forall_fmap. eapply Forall_impl; [exact gk_slices0|]. intros d. unfold slice_ok.
    cbn. by rewrite attach_slice.
  - apply Forall_fmap. eapply Forall_impl; [exact gk_placed0|]. intros d Hd. cbn.
    rewrite attach_active. unfold placed. by rewrite attach_slice.
  - rewrite <- list_fmap_compose.
    replace ((view_id ∘ attach_queued) <$> cr_dependents g) with (view_id <$> cr_dependents g);
      [done|]. apply list_fmap_ext. intros i d _. unfold view_id. cbn. by rewrite attach_slice.
  - apply Forall_fmap, Forall_forall. intros d _. cbn. unfold attach_queued.
    by destruct (bool_decide _) eqn:E; bool_hyps.
  - intros Hc. destruct (gk_open0 Hc) as [Hne Hst]. split.
    + rewrite (actives_fmap _ _ attach_active). by destruct (actives (cr_dependents g)).
    + apply Forall_fmap. eapply Forall_impl; [exact Hst|]. intros d. cbn.
      rewrite attach_active. intros [?|E]; [by left|right]. unfold attach_queued.
      by rewrite bool_decide_eq_false_2 by congruence.
  - intros Hc. rewrite (actives_fmap _ _ attach_active), gk_done0 by done. done.
Qed.

(** ** Failing *)

(** After failing every state that can still be active, none is. *)
Lemma fail_active fails ds :
  Forall (fun d => is_active d = true -> fails (cd_state d) = true) ds ->
  (forall s, fails s = true -> active_state s = true) ->
  actives (fst (fail_dependents fails ds)) = [] /\
  snd (fail_dependents fails ds) = zlen (actives ds).
Proof.
  intros H Hf. unfold fail_dependents. cbn [fst snd]. induction H as [|d ds Hd _ [IH1 IH2]];
    [done|].
  rewrite fmap_cons, !actives_cons, filter_cons. unfold is_active in *. cbn in *.
  destruct (fails (cd_state d)) eqn:E.
  - rewrite decide_True by done. rewrite (Hf _ E), !zlen_cons, IH2. done.
  - destruct (active_state (cd_state d)) eqn:Ea; [by specialize (Hd eq_refl)|].
    rewrite decide_False by congruence. done.
Qed.

Lemma fail_group_ok g fails :
  group_ok g ->
  Forall (fun d => is_active d = true -> fails (cd_state d) = true) (cr_dependents g) ->
  (forall s, fails s = true -> active_state s = true) ->
  group_ok (set_lifecycle g (cr_physical g) (fst (fail_dependents fails (cr_dependents g)))
              (cr_writeBegun g) true (cr_tcpTransport g)) /\
  snd (fail_dependents fails (cr_dependents g)) = zlen (actives (cr_dependents g)).
Proof.
  intros Hg Hd Hf. destruct (fail_active fails _ Hd Hf) as [Ha Hn]. split; [|done].
  set (f := fun d => if fails (cd_state d) then with_dependent_state dependentFailed d else d).
  assert (Hs : forall d, cd_slice (f d) = cd_slice d) by (intros d; unfold f; by case_test).
  assert (Ef : fst (fail_dependents fails (cr_dependents g)) = f <$> cr_dependents g) by done.
  destruct Hg. split; cbn -[actives fail_dependents]; try done; rewrite ?Ef.
  - apply Forall_fmap. eapply Forall_impl; [exact gk_slices0|]. intros d. unfold slice_ok.
    cbn. by rewrite Hs.
  - apply Forall_fmap. eapply Forall_impl; [exact gk_placed0|]. intros d Hp Hact. cbn in *.
    unfold placed. rewrite Hs. apply Hp. revert Hact. unfold f. destruct (fails (cd_state d)); intros Hact; [discriminate Hact|done].
  - rewrite <- list_fmap_compose.
    replace ((view_id ∘ f) <$> cr_dependents g) with (view_id <$> cr_dependents g);
      [done|]. apply list_fmap_ext. intros i d _. unfold view_id. cbn. by rewrite Hs.
  - apply Forall_fmap. eapply Forall_impl; [exact gk_states0|]. intros d Hst. cbn in *.
    unfold f. destruct (fails (cd_state d)); cbn; [by destruct (cr_writeBegun g)|done].
Qed.

Lemma active_attached g :
  group_ok g -> cr_writeBegun g = true ->
  Forall (fun d => is_active d = true -> attached_state (cd_state d) = true) (cr_dependents g).
Proof.
  intros [] Hw. rewrite Hw in gk_states0. eapply Forall_impl; [exact gk_states0|].
  intros d Hd Ha. cbn in *. unfold is_active in Ha. by destruct (cd_state d).
Qed.

Lemma attached_active s : attached_state s = true -> active_state s = true.
Proof. by destruct s. Qed.

(** ** Cancelling *)

Lemma find_view_split id ds i d :
  find_view id ds = Some (i, d) ->
  exists before after, ds = before ++ d :: after /\ length before = i /\ view_id d = id.
Proof.
  revert i. induction ds as [|e ds IH]; intros i; cbn [find_view]; [done|].
  destruct (_ =? id) eqn:E.
  - intros [= <- <-]. bool_hyps. by exists [], ds.
  - destruct (find_view id ds) as [[j e']|]; [|done]. intros [= <- <-].
    destruct (IH j eq_refl) as (before & after & -> & <- & Hid).
    by exists (e :: before), after.
Qed.

(** Cancelling an active dependent removes it from the active ones. *)
Lemma cancel_actives before after d :
  is_active d = true ->
  actives (before ++ with_dependent_state dependentCancelled d :: after)
  = actives before ++ actives after /\
  zlen (actives (before ++ d :: after)) = zlen (actives before ++ actives after) + 1.
Proof.
  intros Ha. rewrite !actives_app, !actives_cons, Ha. split; [done|].
  rewrite !zlen_app, zlen_cons. lia.
Qed.

(** The hull the narrowing loop computes. *)
Lemma hull_loop_spec excluded ds acc h :
  Forall slice_ok ds ->
  match h with None => acc = [] | Some (a, b) => hull_of acc a b end ->
  let rs := dep_request <$>
              base.filter (fun d => view_id d <> excluded) (actives ds) in
  match hull_loop excluded ds h with
  | None => acc ++ rs = []
  | Some (a, b) => hull_of (acc ++ rs) a b
  end.
Proof.
  intros Hs. revert acc h. induction Hs as [|d ds Hd Hs IH]; intros acc h Hh; cbv zeta.
  { cbn. rewrite app_nil_r. by destruct h as [[]|]. }
  cbn [hull_loop]. rewrite actives_cons. destruct (is_active d); cbn [negb]; [|by apply IH].
  rewrite filter_cons. fold (view_id d).
  destruct (view_id d =? excluded) eqn:E; bool_hyps.
  { rewrite decide_False by tauto. by apply IH. }
  rewrite decide_True by done. rewrite fmap_cons, cons_middle, app_assoc. apply IH.
  assert (Ew : wrap32 (sl_logicalOffset (cd_slice d) + sl_logicalWords (cd_slice d))
               = hi (dep_request d)).
  { unfold slice_ok in Hd. cbn in Hd. unfold hi. cbn. apply wrap32_id. unfold u32. lia. }
  rewrite Ew. change (sl_logicalOffset (cd_slice d)) with (lo (dep_request d)).
  destruct h as [[a b]|].
  - destruct Hh as (Hall & (r1 & I1 & E1) & (r2 & I2 & E2)). split; [|split].
    + intros r [Hr|Hr%list_elem_of_singleton]%elem_of_app; [apply Hall in Hr|subst r];
        pose proof (Hall r1 I1); repeat case_test; bool_hyps; lia.
    + case_test; [exists (dep_request d)|exists r1];
        rewrite elem_of_app, list_elem_of_singleton; auto.
    + case_test; [exists (dep_request d)|exists r2];
        rewrite elem_of_app, list_elem_of_singleton; auto.
  - subst acc. cbn [app]. split; [|split].
    + intros r ->%list_elem_of_singleton. lia.
    + exists (dep_request d). by rewrite list_elem_of_singleton.
    + exists (dep_request d). by rewrite list_elem_of_singleton.
Qed.

Lemma others_filter before after d :
  NoDup (view_id <$> before ++ d :: after) -> is_active d = true ->
  base.filter (fun e => view_id e <> view_id d) (actives (before ++ d :: after))
  = actives before ++ actives after.
Proof.
  rewrite fmap_app, fmap_cons. intros (Hb & Hx & Ha)%NoDup_app Hd.
  apply NoDup_cons in Ha as [Hda _].
  assert (Hkeep : forall l, (forall e, e ∈ l -> view_id e <> view_id d) ->
            base.filter (fun e => view_id e <> view_id d) (actives l) = actives l).
  { induction l as [|e l IH]; [done|]. intros He. rewrite actives_cons.
    destruct (is_active e); [|apply IH; intros; apply He; by right].
    rewrite filter_cons_True by (apply He; left). f_equal. apply IH. intros. apply He. by right. }
  rewrite actives_app, actives_cons, Hd, filter_app, filter_cons_False by tauto.
  f_equal; apply Hkeep; intros e He Heq.
  - apply (Hx (view_id d)); [rewrite <- Heq; by apply list_elem_of_fmap_2|by left].
  - apply Hda. rewrite <- Heq. by apply list_elem_of_fmap_2.
Qed.

(** Narrowing succeeds while a dependent stays, and gives the hull of the rest. *)
Lemma narrow_spec g before after d :
  group_ok g -> cr_dependents g = before ++ d :: after -> is_active d = true ->
  actives before ++ actives after <> [] ->
  exists p, physicalWithoutLogicalLocked g (view_id d) = Ok p /\ valid_read p /\
    rr_function p = rr_function (cr_physical g) /\
    lo (cr_physical g) <= lo p /\ hi p <= hi (cr_physical g) /\
    hull_of (dep_request <$> actives before ++ actives after) (lo p) (hi p).
Proof.
  intros Hg Ed Ha Hne. unfold physicalWithoutLogicalLocked.
  pose proof (hull_loop_spec (view_id d) (cr_dependents g) [] None (gk_slices g Hg) eq_refl) as Hh.
  cbv zeta in Hh. pose proof (gk_ids g Hg) as Hids. rewrite Ed in Hh, Hids.
  rewrite others_filter in Hh by done. cbn [app] in Hh. rewrite <- Ed in Hh.
  destruct (hull_loop _ _ _) as [[a b]|].
  2: { destruct (actives before ++ actives after); [done|discriminate Hh]. }
  assert (Hin : forall e, e ∈ actives before ++ actives after ->
            e ∈ cr_dependents g /\ is_active e = true).
  { intros e. rewrite Ed, elem_of_app. unfold actives.
    rewrite !list_elem_of_filter, elem_of_app, elem_of_cons. tauto. }
  assert (Hbounds : lo (cr_physical g) <= a /\ a < b /\ b <= hi (cr_physical g)).
  { pose proof (gk_placed g Hg) as Hpl. pose proof (gk_slices g Hg) as Hsl.
    rewrite Forall_forall in Hpl, Hsl.
    destruct Hh as (Hall & (r1 & (e1 & -> & I1)%list_elem_of_fmap & <-)
                    & (r2 & (e2 & -> & I2)%list_elem_of_fmap & <-)).
    destruct (Hin _ I1) as [J1 A1], (Hin _ I2) as [J2 A2].
    pose proof (Hpl _ J1 A1). pose proof (Hpl _ J2 A2). pose proof (Hsl _ J1).
    pose proof (Hall _ (list_elem_of_fmap_2 dep_request _ _ I1)).
    unfold placed, slice_ok, dep_request, lo, hi in *. cbn in *. lia. }
  pose proof (valid_range _ (gk_physical g Hg)).
  pose proof (gk_physical g Hg) as [[Hf _] _].
  test_false (b <=? a). rewrite new_physical by (done || lia).
  exists (read_request (rr_function (cr_physical g)) a (b - a)).
  assert (El : lo (read_request (rr_function (cr_physical g)) a (b - a)) = a) by done.
  assert (Eh : hi (read_request (rr_function (cr_physical g)) a (b - a)) = b)
    by (unfold hi; cbn; lia).
  rewrite El, Eh. conj; try done; try lia. apply read_request_valid; done || lia.
Qed.

Lemma reslice_active p d : is_active (reslice p d) = is_active d.
Proof. unfold reslice, is_active. by destruct (active_state (cd_state d)) eqn:E. Qed.

Lemma reslice_id p d : view_id (reslice p d) = view_id d.
Proof. unfold reslice, view_id. by case_test. Qed.

Lemma reslice_state p d : cd_state (reslice p d) = cd_state d.
Proof. unfold reslice. by case_test. Qed.

Lemma reslice_ok p d : slice_ok d -> slice_ok (reslice p d).
Proof. unfold reslice, slice_ok. by case_test. Qed.

Lemma reslice_placed p d :
  valid_read p -> slice_ok d -> is_active d = true ->
  lo p <= lo (dep_request d) -> hi (dep_request d) <= hi p -> placed p (reslice p d).
Proof.
  intros Hp%valid_range Hd Ha H1 H2. unfold reslice. rewrite Ha.
  unfold placed, slice_ok, dep_request, lo, hi in *. cbn in *.
  rewrite wrap16_id by (unfold u16; lia). lia.
Qed.

(** What the owner's part of a cancellation may hand to the group. *)
Definition replacement_ok (g : group) (rest : list coalescedDependent)
    (replacement : option ReadRegistersRequest) : Prop :=
  match replacement with
  | None => cr_writeBegun g = true \/ rest = []
  | Some p => cr_writeBegun g = false /\ valid_read p /\
              hull_of (dep_request <$> rest) (lo p) (hi p)
  end.

Lemma cancelled_deps g before after d :
  group_ok g -> cr_dependents g = before ++ d :: after -> is_active d = true ->
  let ds := before ++ with_dependent_state dependentCancelled d :: after in
  Forall slice_ok ds /\ NoDup (view_id <$> ds) /\
  Forall (fun e => is_active e = true -> e ∈ cr_dependents g) ds /\
  Forall (fun e => cd_state e <>
    if cr_writeBegun g then dependentQueued else dependentAttached) ds /\
  (cr_completed g = false ->
   Forall (fun e => is_active e = true \/ cd_state e = dependentCancelled) ds).
Proof.
  intros [] Ed Ha. rewrite Ed in *. cbv zeta.
  apply Forall_app in gk_slices0 as [? [? ?]%Forall_cons].
  apply Forall_app in gk_states0 as [? [? ?]%Forall_cons]. conj.
  - apply Forall_app. split; [done|]. by constructor.
  - by rewrite fmap_app, fmap_cons in *.
  - apply Forall_forall. intros e He Hact. rewrite elem_of_app, elem_of_cons in *.
    destruct He as [?|[->|?]]; auto. discriminate Hact.
  - apply Forall_app. split; [done|]. constructor; [by destruct (cr_writeBegun g)|done].
  - intros Hc. destruct (gk_open0 Hc) as [_ [? [? ?]%Forall_cons]%Forall_app].
    apply Forall_app. split; [done|]. constructor; [by right|done].
Qed.

Lemma cancel_group_ok g before after d replacement t err :
  group_ok g -> cr_completed g = false -> cr_dependents g = before ++ d :: after ->
  is_active d = true ->
  replacement_ok g (actives before ++ actives after) replacement ->
  group_ok (fst (cancel_apply g (length before) d replacement t err)) /\
  zlen (actives (cr_dependents (fst (cancel_apply g (length before) d replacement t err)))) + 1
  = zlen (actives (cr_dependents g)).
Proof.
  intros Hg Hc Ed Ha Hrep.
  destruct (cancelled_deps g before after d Hg Ed Ha) as (Hs & Hids & Hin & Hst & Hop).
  destruct (cancel_actives before after d Ha) as [Eact Elen].
  set (ds := before ++ with_dependent_state dependentCancelled d :: after) in *.
  assert (Eds : <[length before := with_dependent_state dependentCancelled d]> (cr_dependents g) = ds).
  { rewrite Ed. replace (length before) with (length before + 0)%nat by lia.
    by rewrite insert_app_r. }
  unfold cancel_apply. rewrite Eds. cbv zeta. rewrite Ed, Elen.
  unfold activeDependentCountLocked. cbn [set_lifecycle cr_dependents].
  fold (actives ds). rewrite Eact.
  assert (Hz : (zlen (actives before ++ actives after) =? 0) = true <->
               actives before ++ actives after = []).
  { rewrite Z.eqb_eq. unfold zlen. destruct (actives before ++ actives after); cbn; [done|].
    split; [lia|done]. }
  assert (Hdone : forall b, (if zlen (actives before ++ actives after) =? 0 then true else b) = false ->
            b = false /\ actives before ++ actives after <> []).
  { intros b. destruct (_ =? 0) eqn:E; [done|]. intros ->. split; [done|]. intros X%Hz. congruence. }
  destruct replacement as [p|]; cbn [replacement_ok] in Hrep.
  - destruct Hrep as (Hw & Hv & Hh).
    assert (Er : actives (reslice p <$> ds) = reslice p <$> actives before ++ actives after).
    { rewrite (actives_fmap _ _ (reslice_active p)). by rewrite Eact. }
    split; [|cbn -[actives]; rewrite Er; unfold zlen; rewrite length_fmap; lia].
    split; cbn -[actives]; rewrite ?Er; try done.
    + apply Forall_fmap. eapply Forall_impl; [exact Hs|]. intros e. apply reslice_ok.
    + apply Forall_fmap, Forall_forall. intros e He. cbn. rewrite reslice_active. intros Hact.
      assert (Hact' : e ∈ actives before ++ actives after).
      { rewrite <- Eact. by apply list_elem_of_filter. }
      rewrite Forall_forall in Hs. destruct Hh as [Hall _].
      destruct (Hall _ (list_elem_of_fmap_2 dep_request _ _ Hact')).
      apply reslice_placed; auto.
    + rewrite <- list_fmap_compose.
      replace ((view_id ∘ reslice p) <$> ds) with (view_id <$> ds); [done|].
      apply list_fmap_ext. intros i e _. cbn. by rewrite reslice_id.
    + intros _ _. rewrite <- list_fmap_compose. eapply hull_fmap; [|exact Hh].
      intros e. cbn. unfold dep_request, reslice. by destruct (is_active e).
    + apply Forall_fmap. eapply Forall_impl; [exact Hst|]. intros e. cbn. by rewrite reslice_state.
    + intros [_ Hne]%Hdone. split; [by destruct (actives before ++ actives after)|].
      apply Forall_fmap. eapply Forall_impl; [by apply Hop|]. intros e. cbn.
      by rewrite reslice_active, reslice_state.
    + intros Ht. destruct (_ =? 0) eqn:E; [|congruence]. by rewrite (proj1 Hz eq_refl).
  - split; [|cbn -[actives]; rewrite Eact; lia]. destruct Hg.
    split; cbn -[actives]; rewrite ?Eact; try done.
    + eapply Forall_impl; [exact Hin|]. intros e He Hact. specialize (He Hact).
      rewrite Forall_forall in gk_placed0. by apply gk_placed0.
    + intros Hw Hd. destruct Hrep as [Hw'|Hr]; [congruence|].
      destruct (Hdone _ Hd) as [_ []]. done.
    + intros [_ Hne]%Hdone. split; [done|]. by apply Hop.
    + intros Ht. destruct (_ =? 0) eqn:E; [|congruence]. by apply Hz.
Qed.

Lemma cancel_owner_ok g o before after d o' replacement t err :
  group_ok g -> cr_completed g = false -> cr_dependents g = before ++ d :: after ->
  is_active d = true ->
  cancel_owner g o (bool_decide (cd_state d = dependentAttached))
    (activeDependentCountLocked g - 1) (view_id d)
  = (o', (replacement, t, err)) ->
  err = None \/ ot_closeConnection t = true ->
  replacement_ok g (actives before ++ actives after) replacement.
Proof.
  intros Hg Hc Ed Ha. unfold cancel_owner, activeDependentCountLocked.
  fold (actives (cr_dependents g)). rewrite Ed.
  destruct (cancel_actives before after d Ha) as [_ ->].
  set (rest := actives before ++ actives after) in *.
  replace (zlen rest + 1 - 1) with (zlen rest) by lia.
  destruct (cr_writeBegun g) eqn:Ew; cbn [negb andb].
  { intros H _. assert (replacement = None) as ->; [|by left].
    revert H. destruct (_ && _); [|by intros [= <- <- <- <-]].
    destruct (cr_reservation g); [|by intros [= <- <- <- <-]].
    destruct (AbandonAfterWrite _ _ _) as [? []]. by intros [= <- <- <- <-]. }
  destruct (zlen rest >? 0) eqn:E0; bool_hyps.
  - destruct (narrow_spec g before after d Hg Ed Ha) as (p & -> & Hv & _ & _ & _ & Hh).
    { fold rest. intros E. rewrite E in E0; unfold zlen in E0; cbn in E0. lia. }
    fold rest in Hh. test_false (zlen rest =? 0). rewrite andb_false_r.
    assert (Hp : replacement_ok g rest (Some p)) by done.
    destruct (cr_owner g), (cr_reservation g); try (by intros [= <- <- <- <-]).
    destruct (replaceReservedRead o t0 p) as [o'' [e|]]; [|by intros [= <- <- <- <-]].
    intros [= <- <- <- <-] [?|?]; done.
  - assert (rest = []) as Er.
    { apply nil_length_inv. unfold zlen in E0. lia. }
    intros H _. assert (replacement = None) as ->; [|by right]. revert H.
    repeat match goal with
    | |- context [match ?x with _ => _ end] =>
        lazymatch x with
        | context [match _ with _ => _ end] => fail
        | _ => destruct x
        end
    end; try (by intros [= <- <- <- <-]).
Qed.

(** Cancellation keeps the invariant and releases what it removes. *)
Lemma cancel_ok g o id :
  group_ok g ->
  let '(g', _, result) := cancelLocked g o id in
  group_ok g' /\
  ca_released result + activeDependentCountLocked g' = activeDependentCountLocked g.
Proof.
  intros Hg. unfold cancelLocked. destruct (cr_completed g) eqn:Ec; [done|].
  destruct (find_view id (cr_dependents g)) as [[i d]|] eqn:Ef; [|done].
  apply find_view_split in Ef as (before & after & Ed & <- & <-).
  destruct (is_active d) eqn:Ea; cbn [negb]; [|done].
  destruct (cancel_owner _ _ _ _ _) as [o' [[replacement t] err]] eqn:Eo.
  pose proof (cancel_owner_ok _ _ _ _ _ _ _ _ _ Hg Ec Ed Ea Eo) as Hrep.
  destruct err as [err|].
  - destruct (ot_closeConnection t); cbn [negb]; [|done].
    destruct (cancel_group_ok g before after d replacement t (Some err)) as [Hok Hn]; auto.
    destruct (cancel_apply _ _ _ _ _ _) as [g' result] eqn:E. split; [done|].
    injection E as _ <-. cbn. unfold activeDependentCountLocked.
    fold (actives (cr_dependents g')) (actives (cr_dependents g)). cbn in Hn. lia.
  - destruct (cancel_group_ok g before after d replacement t None) as [Hok Hn]; auto.
    destruct (cancel_apply _ _ _ _ _ _) as [g' result] eqn:E. split; [done|].
    injection E as _ <-. cbn. unfold activeDependentCountLocked.
    fold (actives (cr_dependents g')) (actives (cr_dependents g)). cbn in Hn. lia.
Qed.

(** ** Replaying a response *)

(** What replay makes of one dependent. *)
Definition deliver (d : coalescedDependent) : coalescedDependent :=
  if attached_state (cd_state d) then with_dependent_state dependentDelivered d else d.

Definition attached (ds : list coalescedDependent) : list coalescedDependent :=
  base.filter (fun d => attached_state (cd_state d) = true) ds.

Lemma replay_loop_ok g response wire ds :
  Forall (fun d => is_active d = true \/ cd_state d = dependentCancelled) ds ->
  Forall (fun d => cd_state d <> dependentQueued) ds ->
  Forall (fun d => is_active d = true -> placed (cr_physical g) d) ds ->
  Forall slice_ok ds -> valid_read (cr_physical g) ->
  zlen (do_words (wr_decoded response)) = rr_quantity (cr_physical g) ->
  replay_loop g response wire ds
  = (deliver <$> ds,
     Ok ((fun d => view_of g response wire (cd_slice d)) <$> attached ds)).
Proof.
  intros Ho Hq Hp Hs Hv Hlen. induction ds as [|d ds IH]; [done|].
  apply Forall_cons in Ho as [Hod Ho], Hq as [Hqd Hq], Hp as [Hpd Hp], Hs as [Hsd Hs].
  specialize (IH Ho Hq Hp Hs). cbn [replay_loop]. rewrite IH, fmap_cons.
  unfold attached, deliver, attached_state. rewrite filter_cons.
  destruct (bool_decide (cd_state d = dependentCancelled)) eqn:Ec; bool_hyps.
  { rewrite Ec. by rewrite decide_False. }
  assert (Es : cd_state d = dependentAttached).
  { destruct Hod as [Ha|]; [|done]. unfold is_active in Ha. by destruct (cd_state d). }
  assert (Ha : is_active d = true) by (unfold is_active; by rewrite Es).
  rewrite Es, !bool_decide_eq_true_2 by done. cbn [negb].
  specialize (Hpd Ha). unfold placed, slice_ok in Hpd, Hsd. cbn in Hpd, Hsd.
  pose proof (valid_range _ Hv). unfold lo, hi in *.
  rewrite wrap32_id by (unfold u32; lia).
  replace (_ >? _) with false; [|symmetry; bool_goal; lia].
  rewrite decide_True by done. by rewrite fmap_cons.
Qed.

Lemma replay_identity_begun g response :
  replay_identity_error g response = false ->
  cr_completed g = false /\ cr_writeBegun g = true.
Proof.
  unfold replay_identity_error. intros Hid. apply orb_false_elim in Hid as [Hid _].
  bool_hyps. done.
Qed.

Lemma replay_spec g response wire :
  group_ok g -> wr_provenance response = Some wire -> replay_identity_error g response = false ->
  zlen (do_words (wr_decoded response)) = rr_quantity (cr_physical g) ->
  ReplaySuccessfulResponse g response
  = (set_lifecycle g (cr_physical g) (deliver <$> cr_dependents g) (cr_writeBegun g) true
       (cr_tcpTransport g),
     (Ok ((fun d => view_of g response wire (cd_slice d)) <$> attached (cr_dependents g)),
      zlen (attached (cr_dependents g)))).
Proof.
  intros [] Hw Hid Hlen. unfold ReplaySuccessfulResponse. rewrite Hw, Hid.
  rewrite Hlen, Z.eqb_refl. cbn [negb].
  apply replay_identity_begun in Hid as [Hc Hb].
  rewrite Hb in gk_states0. destruct (gk_open0 Hc) as [_ Hst].
  rewrite replay_loop_ok by done. unfold zlen. by rewrite length_fmap.
Qed.

Lemma attached_actives g :
  group_ok g -> cr_writeBegun g = true -> attached (cr_dependents g) = actives (cr_dependents g).
Proof.
  intros Hg Hw. pose proof (active_attached g Hg Hw) as Hf. unfold attached, actives.
  induction Hf as [|d ds Hd Hf IH]; [done|]. rewrite !filter_cons, IH.
  destruct (is_active d) eqn:Ea.
  - by rewrite !decide_True by auto.
  - rewrite !decide_False; [done|done|]. intros H%attached_active. unfold is_active in Ea. congruence.
Qed.

Lemma deliver_group_ok g :
  group_ok g -> cr_writeBegun g = true ->
  group_ok (set_lifecycle g (cr_physical g) (deliver <$> cr_dependents g) (cr_writeBegun g) true
              (cr_tcpTransport g)).
Proof.
  intros Hg Hw. pose proof (active_attached g Hg Hw) as Hf.
  assert (Hs : forall d, cd_slice (deliver d) = cd_slice d) by (intros; unfold deliver; by case_test).
  assert (Hn : actives (deliver <$> cr_dependents g) = []).
  { induction Hf as [|d ds Hd Hf IH]; [done|]. rewrite fmap_cons, actives_cons, IH.
    unfold deliver. destruct (attached_state (cd_state d)) eqn:E; [done|].
    destruct (is_active d) eqn:Ea; [|done]. by specialize (Hd eq_refl). }
  destruct Hg. split; cbn -[actives]; try done.
  - apply Forall_fmap. eapply Forall_impl; [exact gk_slices0|]. intros d. unfold slice_ok.
    cbn. by rewrite Hs.
  - apply Forall_fmap. eapply Forall_impl; [exact gk_placed0|]. intros d Hp Hact. cbn in *.
    unfold placed. rewrite Hs. apply Hp. revert Hact. unfold deliver.
    destruct (attached_state _); intros Hact; [discriminate Hact|done].
  - rewrite <- list_fmap_compose.
    replace ((view_id ∘ deliver) <$> cr_dependents g) with (view_id <$> cr_dependents g);
      [done|]. apply list_fmap_ext. intros i d _. unfold view_id. cbn. by rewrite Hs.
  - apply Forall_fmap. eapply Forall_impl; [exact gk_states0|]. intros d Hst. cbn in *.
    unfold deliver. destruct (attached_state _); cbn; [by rewrite Hw|done].
Qed.

(** * Executions *)

(** A call on the group; the owner is in whatever state it is then. *)
Inductive group_op : Type :=
| GBind (o : owner) (v : TCPReservation)
| GBeginWrite (o : owner) (t : option TransportRef) (dispatch register : option ProtocolError)
| GWriteFailure
| GCancel (o : owner) (logicalViewID : Z)
| GReplay (response : WireResponse)
| GFail (response : WireResponse)
| GFailTransport (o : owner).

(** The group after the call and the dependents it releases.  [invokeWrite]
    reports a write failure only for a write it has begun. *)
Definition run_group_op (g : group) (op : group_op) : group * Z :=
  match op with
  | GBind o v => (fst (BindReservation g o v), 0)
  | GBeginWrite o t dispatch register =>
      (fst (fst (beginWriteLocked g o t dispatch register)), 0)
  | GWriteFailure => if cr_writeBegun g then finishWriteFailure g else (g, 0)
  | GCancel o id =>
      let '(g, _, result) := cancelLocked g o id in (g, ca_released result)
  | GReplay response =>
      let '(g, (_, released)) := ReplaySuccessfulResponse g response in (g, released)
  | GFail response => let '(g, (_, released)) := Fail g response in (g, released)
  | GFailTransport o => let '(g, _, (_, released)) := failTransportLocked g o in (g, released)
  end.

Fixpoint run_group (g : group) (ops : list group_op) : group * Z :=
  match ops with
  | [] => (g, 0)
  | op :: ops =>
      let '(g, released) := run_group_op g op in
      let '(g, released') := run_group g ops in (g, released + released')
  end.

Lemma fail_step g fails :
  group_ok g ->
  Forall (fun d => is_active d = true -> fails (cd_state d) = true) (cr_dependents g) ->
  (forall s, fails s = true -> active_state s = true) ->
  let '(ds, n) := fail_dependents fails (cr_dependents g) in
  group_ok (set_lifecycle g (cr_physical g) ds (cr_writeBegun g) true (cr_tcpTransport g)) /\
  n + zlen (actives ds) = zlen (actives (cr_dependents g)).
Proof.
  intros Hg Hd Hf. destruct (fail_group_ok g fails Hg Hd Hf) as [Hok Hn].
  destruct (fail_active fails _ Hd Hf) as [Ha _].
  destruct (fail_dependents _ _) as [ds n]. cbn [fst snd] in *.
  by rewrite Ha, Hn, zlen_nil, Z.add_0_r.
Qed.

Lemma replay_step g response :
  group_ok g ->
  let '(g', (_, released)) := ReplaySuccessfulResponse g response in
  group_ok g' /\
  released + zlen (actives (cr_dependents g')) = zlen (actives (cr_dependents g)).
Proof.
  intros Hg. destruct (wr_provenance response) as [wire|] eqn:Ew.
  2: { unfold ReplaySuccessfulResponse. by rewrite Ew. }
  destruct (replay_identity_error g response) eqn:Ei.
  { unfold ReplaySuccessfulResponse. by rewrite Ew, Ei. }
  destruct (decide (zlen (do_words (wr_decoded response)) = rr_quantity (cr_physical g)))
    as [El|El].
  2: { unfold ReplaySuccessfulResponse. by rewrite Ew, Ei, (proj2 (Z.eqb_neq _ _) El). }
  rewrite (replay_spec g response wire) by done.
  apply replay_identity_begun in Ei as [Hc Hb]. split; [by apply deliver_group_ok|].
  pose proof (gk_done _ (deliver_group_ok g Hg Hb) eq_refl) as Ed. cbn -[actives] in Ed |- *.
  by rewrite Ed, attached_actives, zlen_nil, Z.add_0_r.
Qed.

Lemma begin_actives g o t dispatch register :
  zlen (actives (cr_dependents (fst (fst (beginWriteLocked g o t dispatch register)))))
  = zlen (actives (cr_dependents g)).
Proof.
  unfold beginWriteLocked. case_test; [done|].
  match goal with |- context [if ?b then _ else _] => destruct b end; [done|].
  destruct dispatch; [done|]. destruct register; [done|]. destruct (cr_reservation g); [|done].
  destruct (MarkWriteInvoked o t0) as [o' [err|]]; [done|].
  cbn [fst cr_dependents set_lifecycle].
  rewrite (actives_fmap _ _ attach_active). unfold zlen. by rewrite length_fmap.
Qed.

Lemma run_group_op_ok g op :
  group_ok g ->
  group_ok (fst (run_group_op g op)) /\
  snd (run_group_op g op) + zlen (actives (cr_dependents (fst (run_group_op g op))))
  = zlen (actives (cr_dependents g)).
Proof.
  intros Hg. destruct op as [o v|o t dispatch register| |o id|response|response|o];
    cbn [run_group_op].
  - split; [by apply bind_group_ok|]. unfold BindReservation. by repeat case_test.
  - split; [by apply begin_group_ok|]. apply begin_actives.
  - destruct (cr_writeBegun g) eqn:Ew; [|done]. unfold finishWriteFailure.
    destruct (cr_completed g); [done|].
    pose proof (fail_step g attached_state Hg (active_attached g Hg Ew) attached_active) as H.
    by destruct (fail_dependents _ _).
  - pose proof (cancel_ok g o id Hg) as Hc. by destruct (cancelLocked g o id) as [[g' o'] r].
  - pose proof (replay_step g response Hg) as H.
    by destruct (ReplaySuccessfulResponse g response) as [g' []].
  - unfold Fail. case_test; [done|].
    assert (Hb : cr_writeBegun g = true) by (bool_hyps; done).
    pose proof (fail_step g attached_state Hg (active_attached g Hg Hb) attached_active) as H'.
    by destruct (fail_dependents _ _).
  - unfold failTransportLocked. destruct (cr_completed g); [done|].
    assert (Hall : Forall (fun d => is_active d = true -> active_state (cd_state d) = true)
                     (cr_dependents g)) by (by apply Forall_forall).
    pose proof (fail_step g active_state Hg Hall) as H.
    destruct (match cr_owner g with Some _ => _ | None => _ end) as [o' e].
    destruct (fail_dependents _ _). by apply H.
Qed.

Lemma run_group_ok ops g :
  group_ok g ->
  group_ok (fst (run_group g ops)) /\
  snd (run_group g ops) + zlen (actives (cr_dependents (fst (run_group g ops))))
  = zlen (actives (cr_dependents g)).
Proof.
  revert g. induction ops as [|op ops IH]; intros g Hg; [done|]. cbn [run_group].
  destruct (run_group_op_ok g op Hg) as [Hok Hn]. destruct (run_group_op g op) as [g' n].
  destruct (IH g' Hok) as [IHok IHn]. destruct (run_group g' ops) as [g'' n'].
  cbn [fst snd] in *. split; [done|]. lia.
Qed.

Lemma coalesced_group_ok base rest maxDependents g :
  Forall spec_u (base :: rest) -> coalesceReads (base :: rest) maxDependents = Ok g ->
  group_ok g /\ zlen (actives (cr_dependents g)) = zlen (base :: rest).
Proof.
  intros Hu Hg. apply coalesce_spec in Hg as (_ & (Hv & Hd & _) & _ & offset & end_ & Hh & Hl & ->);
    [|done].
  assert (Hvr : Forall valid_read (is_Request <$> base :: rest)).
  { apply Forall_fmap, Forall_forall. intros spec Hin. rewrite Forall_forall in Hu, Hv.
    apply intent_valid_read; [by apply Hu|by apply Hv]. }
  split; [apply fresh_group_ok; try done; by apply Forall_cons in Hvr as [? _]|].
  cbn [cr_dependents fresh_group].
  rewrite actives_all by (by apply Forall_fmap, Forall_forall).
  unfold zlen. by rewrite length_fmap.
Qed.

Lemma cancel_apply_fields g before after d p t err :
  cr_completed g = false -> cr_writeBegun g = false ->
  cr_dependents g = before ++ d :: after -> is_active d = true ->
  actives before ++ actives after <> [] ->
  let '(g', result) := cancel_apply g (length before) d (Some p) t err in
  cr_physical g' = p /\ cr_completed g' = false /\ cr_writeBegun g' = false /\
  cr_endpoint g' = cr_endpoint g /\ cr_intentGeneration g' = cr_intentGeneration g /\
  cr_unitID g' = cr_unitID g /\
  ct_transmitPhysical (ca_transition result) = true /\ ca_error result = err.
Proof.
  intros Hc Hw Ed Ha Hne. destruct (cancel_actives before after d Ha) as [Eact _].
  unfold cancel_apply. cbv zeta. unfold activeDependentCountLocked.
  cbn [set_lifecycle cr_dependents]. rewrite Ed.
  replace (length before) with (length before + 0)%nat by lia.
  rewrite insert_app_r. cbn [insert list_insert]. fold (actives (before ++ with_dependent_state dependentCancelled d :: after)).
  rewrite Eact.
  assert (0 < zlen (actives before ++ actives after)).
  { unfold zlen. destruct (actives before ++ actives after); [done|]. cbn. lia. }
  test_false (zlen (actives before ++ actives after) =? 0).
  test_true (zlen (actives before ++ actives after) >? 0). cbn. by rewrite Hc, Hw.
Qed.

(** The owner accepts a narrowed read of the same function for a reservation. *)
Lemma replace_matches o v endpoint generation unit r p :
  owner_ok o -> matchesReadReservation o v endpoint generation unit r = true ->
  valid_read p -> rr_function p = rr_function r ->
  exists o', replaceReservedRead o v p = (o', None) /\
    matchesReadReservation o' v endpoint generation unit p = true.
Proof.
  intros Ho Hm Hp Ef. unfold matchesReadReservation in Hm.
  destruct (requestFor o v requestReserved) as [owned|] eqn:Er; [|done]. bool_hyps. subst r.
  destruct (requestFor_lookup _ _ _ _ Ho Er) as [_ Et].
  pose proof (requestFor_ok _ _ _ _ Er) as (_ & Ep & Es & Eo & Eg).
  exists (store_request (with_read p owned) o). split.
  - unfold replaceReservedRead. rewrite valid_validate, Er by done.
    rewrite bool_decide_eq_true_2, Ef, Z.eqb_refl by done. done.
  - unfold matchesReadReservation, requestFor. cbn.
    rewrite Eo, Eg, !Z.eqb_refl. cbn [negb orb]. rewrite <- Et, lookup_insert_eq.
    cbn [with_read or_physicalRequestID or_state]. rewrite Ep, Es, Z.eqb_refl. cbn [negb orb].
    rewrite bool_decide_eq_true_2 by done. cbn [negb with_read or_unitID or_kind or_read].
    rewrite H, H1, H2, H3, !Z.eqb_refl. by rewrite !bool_decide_eq_true_2.
Qed.

(** The registers of a device from an offset on. *)
Definition registers (mem : Z -> Z) (offset count : Z) : list Z :=
  (fun i => mem (offset + Z.of_nat i)) <$> seq 0 (Z.to_nat count).

Lemma registers_slice mem offset count start words :
  0 <= start -> 0 <= words -> start + words <= count ->
  take (Z.to_nat words) (drop (Z.to_nat start) (registers mem offset count))
  = registers mem (offset + start) words.
Proof.
  intros. unfold registers. rewrite <- fmap_drop, <- fmap_take, drop_seq, take_seq.
  replace (Z.to_nat words `min` (Z.to_nat count - Z.to_nat start))%nat with (Z.to_nat words) by lia.
  replace (0 + Z.to_nat start)%nat with (Z.to_nat start + 0)%nat by lia.
  rewrite <- fmap_add_seq, <- list_fmap_compose. apply list_fmap_ext. intros i x _. cbn.
  f_equal. lia.
Qed.

Lemma zlen_registers mem offset count : 0 <= count -> zlen (registers mem offset count) = count.
Proof. intros. unfold zlen, registers. rewrite length_fmap, length_seq. lia. Qed.

(** * Properties *)

(** C31: Reads are coalesced exactly when there is at least one and no more than
    the limit, each is a valid intent, no view identifier repeats, all share
    endpoint, generation, unit, function, table, scope and deadline identity,
    some register belongs to every range, and the smallest range covering them
    has at most 125 registers; the physical request is then that smallest range
    and every dependent's slice is its exact place in it. *)
Theorem coalesce_reads_iff base rest maxDependents g :
  Forall spec_u (base :: rest) ->
  coalesceReads (base :: rest) maxDependents = Ok g <->
  zlen (base :: rest) <= maxDependents <= maxCoalescedDependents /\
  accepted base (base :: rest) /\
  (exists reg, forall spec, spec ∈ base :: rest ->
     lo (is_Request spec) <= reg < hi (is_Request spec)) /\
  exists offset end_,
    hull_of (is_Request <$> base :: rest) offset end_ /\ end_ - offset <= 125 /\
    g = fresh_group base (base :: rest) offset end_.
Proof. apply coalesce_spec. Qed.

Definition demo_intent (id offset quantity : Z) : ReadIntentSpec :=
  {| is_LogicalViewID := id; is_Endpoint := "plc"; is_Transport := "tcp";
     is_TransportGeneration := 1; is_UnitID := 17; is_AuthorizationScope := "scope";
     is_PollGeneration := 1; is_DeadlineIdentity := 1;
     is_Request := read_request 3 offset quantity |}.

Definition demo_intents : list ReadIntentSpec :=
  [demo_intent 1 100 4; demo_intent 2 102 6; demo_intent 3 98 5].

Definition demo_group : group := fresh_group (demo_intent 1 100 4) demo_intents 98 108.

Lemma demo_intents_u : Forall spec_u demo_intents.
Proof.
  repeat (apply Forall_cons; split; [unfold spec_u, u16; cbn; lia|]). by apply Forall_nil.
Qed.

Lemma coalesce_reads_iff_witness :
  coalesceReads demo_intents 8 = Ok demo_group /\
  exists offset end_, hull_of (is_Request <$> demo_intents) offset end_ /\ end_ - offset = 10.
Proof.
  assert (E : coalesceReads demo_intents 8 = Ok demo_group) by (vm_compute; reflexivity).
  split; [exact E|].
  apply (coalesce_reads_iff (demo_intent 1 100 4) [demo_intent 2 102 6; demo_intent 3 98 5])
    in E as (_ & _ & _ & offset & end_ & Hh & _ & Eg); [|exact demo_intents_u].
  exists offset, end_. split; [exact Hh|].
  apply (f_equal cr_physical) in Eg. apply (f_equal rr_quantity) in Eg. cbn in Eg. lia.
Defined.

(** Over any sequence of binding, writing, cancelling, replaying and failing,
    with the owner in any state, a coalesced group keeps its invariant: while it
    is unwritten the physical request is the smallest range of the dependents
    still active, every active dependent has its exact place in it, and no
    dependent is active once the group is completed; and the dependents released
    so far plus those still active are always the dependents it was built from,
    so each is released exactly once. *)
Theorem group_lifecycle base rest maxDependents g ops :
  Forall spec_u (base :: rest) ->
  coalesceReads (base :: rest) maxDependents = Ok g ->
  group_ok (fst (run_group g ops)) /\
  snd (run_group g ops) + activeDependentCountLocked (fst (run_group g ops))
  = zlen (base :: rest).
Proof.
  intros Hu Hg. destruct (coalesced_group_ok _ _ _ _ Hu Hg) as [Hok Hl].
  destruct (run_group_ok ops _ Hok) as [Hok' Hn]. split; [done|].
  unfold activeDependentCountLocked. unfold actives in Hn at 1. by rewrite Hn.
Qed.

Lemma group_lifecycle_witness :
  group_ok (fst (run_group demo_group [GCancel demo_owner 2; GFailTransport demo_owner])) /\
  snd (run_group demo_group [GCancel demo_owner 2; GFailTransport demo_owner]) = 3.
Proof.
  split; [|vm_compute; reflexivity].
  refine (proj1 (group_lifecycle (demo_intent 1 100 4) [demo_intent 2 102 6; demo_intent 3 98 5]
                   8 demo_group _ demo_intents_u _)).
  vm_compute. reflexivity.
Defined.

(** C30: Replaying a response is faithful for every content of the device: if the
    words of the response are the registers of the physical range, replay
    succeeds and yields, in order, one view for each dependent that is still
    attached and none for the others, whose words are exactly the registers the
    logical read asked for; every attached dependent becomes delivered. *)
Theorem replay_slices_exact g response wire mem :
  group_ok g -> wr_provenance response = Some wire ->
  replay_identity_error g response = false ->
  do_words (wr_decoded response)
  = registers mem (rr_offset (cr_physical g)) (rr_quantity (cr_physical g)) ->
  exists g' views,
    ReplaySuccessfulResponse g response = (g', (Ok views, zlen views)) /\
    cr_completed g' = true /\ activeDependentCountLocked g' = 0 /\
    views = (fun d => view_of g response wire (cd_slice d)) <$> attached (cr_dependents g) /\
    Forall (fun v => lv_words v = registers mem (lv_logicalOffset v) (lv_logicalWords v)) views.
Proof.
  intros Hg Hw Hid Hmem. pose proof (valid_read_bounds _ (gk_physical g Hg)) as (_ & _ & _ & ?).
  pose proof (replay_identity_begun g response Hid) as [Hc Hb].
  eexists _, ((fun d => view_of g response wire (cd_slice d)) <$> attached (cr_dependents g)).
  split.
  { rewrite (replay_spec g response wire) by (done || (rewrite Hmem, zlen_registers; lia)).
    unfold zlen. by rewrite length_fmap. }
  conj; try done.
  - unfold activeDependentCountLocked. fold (actives (deliver <$> cr_dependents g)).
    pose proof (gk_done _ (deliver_group_ok g Hg Hb) eq_refl) as Ed. cbn -[actives] in Ed |- *.
    fold (actives (deliver <$> cr_dependents g)). by rewrite Ed.
  - apply Forall_fmap, Forall_forall. intros d [Ha Hin]%list_elem_of_filter. cbn.
    pose proof (gk_placed g Hg) as Hp. pose proof (gk_slices g Hg) as Hs.
    rewrite Forall_forall in Hp, Hs.
    specialize (Hp d Hin (attached_active _ Ha)). specialize (Hs d Hin).
    unfold placed, slice_ok, lo, hi in *. cbn in *. destruct Hp as (? & ? & Eo), Hs as (? & ? & ? & Ew).
    rewrite Hmem, Ew, Eo, registers_slice by lia. f_equal. lia.
Qed.

(** A written group and the answer of a device whose registers hold their own
    addresses. *)
Definition demo_bound : group :=
  fst (BindReservation demo_group
         (fst (reserveReadUntil demo_owner 17 (cr_physical demo_group) 0)) demo_reservation).

Definition demo_written : group * owner * presult TCPReservation :=
  beginWriteLocked demo_bound
    (fst (reserveReadUntil demo_owner 17 (cr_physical demo_group) 0)) None None None.

Definition demo_answer : WireResponse :=
  fst (snd (Correlate (snd (fst demo_written)) 1
    {| ta_transactionID := 0; ta_unitID := 17;
       ta_pdu := read_response_pdu (cr_physical demo_group) (registers id 98 10);
       ta_raw := [] |})).

Definition demo_wire : WireProvenance :=
  {| wp_Endpoint := "plc"; wp_ConnectionID := 0; wp_Transport := "tcp";
     wp_TransportGeneration := 1; wp_UnitID := 17; wp_RequestedFunction := 3;
     wp_ReceivedFunction := 3; wp_Table := HoldingRegisters; wp_Offset := 98;
     wp_Quantity := 10; wp_DeviceIDAccess := 0; wp_DeviceIDObjectID := 0 |}.

Lemma demo_written_ok : group_ok (fst (fst demo_written)).
Proof.
  apply begin_group_ok, bind_group_ok.
  apply (coalesced_group_ok (demo_intent 1 100 4) [demo_intent 2 102 6; demo_intent 3 98 5] 8);
    [exact demo_intents_u|vm_compute; reflexivity].
Qed.

Lemma replay_slices_exact_witness :
  exists g' views,
    ReplaySuccessfulResponse (fst (fst demo_written)) demo_answer = (g', (Ok views, 3)) /\
    lv_words <$> views = [[100; 101; 102; 103]; [102; 103; 104; 105; 106; 107];
                          [98; 99; 100; 101; 102]].
Proof.
  destruct (replay_slices_exact (fst (fst demo_written)) demo_answer demo_wire id demo_written_ok)
    as (g' & views & E & _); [vm_compute; reflexivity..|].
  exists g', views. split.
  - rewrite E. vm_compute in E. injection E as _ <-. reflexivity.
  - vm_compute in E. injection E as _ <-. reflexivity.
Defined.

(** Cancelling one of several dependents of a bound group before the write
    keeps the owner and the group in step: the cancellation succeeds and the
    request stays to be transmitted, and what the owner will put on the wire
    for the reservation is exactly the group's narrowed range, the smallest one
    of the dependents that remain. *)
Theorem cancel_narrows_reservation g o v id i d :
  group_ok g -> owner_ok o -> cr_completed g = false -> cr_writeBegun g = false ->
  cr_owner g = Some (tv_owner v) -> cr_reservation g = Some v ->
  matchesReadReservation o v (cr_endpoint g) (cr_intentGeneration g) (cr_unitID g)
    (cr_physical g) = true ->
  find_view id (cr_dependents g) = Some (i, d) -> is_active d = true ->
  1 < activeDependentCountLocked g ->
  exists g' o' result,
    cancelLocked g o id = (g', o', result) /\ ca_error result = None /\
    ct_transmitPhysical (ca_transition result) = true /\ cr_completed g' = false /\
    matchesReadReservation o' v (cr_endpoint g') (cr_intentGeneration g') (cr_unitID g')
      (cr_physical g') = true /\
    hull_of (dep_request <$> actives (cr_dependents g')) (lo (cr_physical g'))
      (hi (cr_physical g')).
Proof.
  intros Hg Ho Hc Hw Eo Er Hm Hf Ha Hn.
  apply find_view_split in Hf as Hs. destruct Hs as (before & after & Ed & <- & Eid).
  destruct (cancel_actives before after d Ha) as [_ Elen].
  unfold activeDependentCountLocked in Hn. fold (actives (cr_dependents g)) in Hn.
  rewrite Ed, Elen in Hn.
  assert (Hne : actives before ++ actives after <> [])
    by (intros E; rewrite E in Hn; by vm_compute in Hn).
  destruct (narrow_spec g before after d Hg Ed Ha Hne) as (p & Hp & Hv & Ef & _ & _ & Hh).
  destruct (replace_matches o v _ _ _ _ p Ho Hm Hv Ef) as (o' & Hrep & Hm').
  destruct (cancel_group_ok g before after d (Some p) no_transition None Hg Hc Ed Ha) as [Hg' _];
    [done|].
  pose proof (cancel_apply_fields g before after d p no_transition None Hc Hw Ed Ha Hne) as Hx.
  assert (Hcancel : cancelLocked g o id =
    let '(g', result) := cancel_apply g (length before) d (Some p) no_transition None in
    (g', o', result)).
  { unfold cancelLocked. rewrite Hc, Hf, Ha. cbn [negb]. unfold cancel_owner.
    unfold activeDependentCountLocked. fold (actives (cr_dependents g)). rewrite Ed, Elen, Hw.
    cbn [negb andb]. test_true (zlen (actives before ++ actives after) + 1 - 1 >? 0).
    rewrite <- Eid, Hp, Eo, Er, Hrep.
    test_false (zlen (actives before ++ actives after) + 1 - 1 =? 0).
    rewrite andb_false_r. reflexivity. }
  destruct (cancel_apply _ _ _ _ _ _) as [g' result]. cbn [fst] in Hg'.
  destruct Hx as (Ep & Ec & Ew & Ee & Eg & Eu & Et & Eerr).
  exists g', o', result. conj; try done.
  - by rewrite Ep, Ee, Eg, Eu.
  - by apply (gk_hull g' Hg').
Qed.

Lemma cancel_narrows_reservation_witness :
  exists g' o' result,
    cancelLocked demo_bound (fst (reserveReadUntil demo_owner 17 (cr_physical demo_group) 0)) 3
    = (g', o', result) /\ cr_physical g' = read_request 3 100 8.
Proof.
  destruct (cancel_narrows_reservation demo_bound
              (fst (reserveReadUntil demo_owner 17 (cr_physical demo_group) 0))
              demo_reservation 3 2 (slice_at 98 (demo_intent 3 98 5)))
    as (g' & o' & result & E & _); [| |reflexivity..|].
  - apply bind_group_ok.
    apply (coalesced_group_ok (demo_intent 1 100 4) [demo_intent 2 102 6; demo_intent 3 98 5] 8);
      [exact demo_intents_u|vm_compute; reflexivity].
  - apply (run_op_inv demo_owner (OpReserveRead 17 (cr_physical demo_group) 0) demo_owner_ok).
  - exists g', o', result. split; [exact E|]. vm_compute in E. injection E as <- _ _. reflexivity.
Defined.
