(* ===== verification/TcpTransport.v ===== *)
(** The TCP transport (tcp_transport.go): one socket bound to one owner and one decoder,
    its writes and reads, and its end.

    A link is the state the transport works on: its owner, its timeline, the coalesced
    groups of the owner by address, and the process-wide claims on connections.  The
    socket is not state but a source of answers: what a write or a read of it returns is
    an argument.  Other threads use the owner and the transport while an operation waits
    for its gate, for the socket or for a lock; what they do there is an argument too, a
    list of interferences at each such place.  The groups are those of this owner: their
    owner, once set, is the owner of the link.  The range over the registered groups of a
    closing transport is taken in the order of their physical requests. *)

From S2P Require Import Prelude Pdu DeviceId DeviceIdTolerant TcpAdu TcpOwner TcpOwnerFacts Coalescing TcpTimeline TcpOperation.

(** * State *)

Definition defaultTCPRequestDeadline : Z := 30 * 1000000000.

Definition defaultTCPResponseDeadline : Z := 30 * 1000000000.

Definition tcpClockContractVersion : string := "helianthus-tcp-monotonic-v1".

Record tcpActiveRead : Type := mkTcpActiveRead {
  ar_deadline : Z;
  ar_rearm : bool;
  ar_interrupted : bool
}.

#[export] Instance active_read_fields : Fields tcpActiveRead := fun a =>
  mkTcpActiveRead (ar_deadline a) (ar_rearm a) (ar_interrupted a).

(** [tr_coalesced] holds addresses of groups. *)
Record TCPTransport : Type := mkTCPTransport {
  tr_self : Z;
  tr_socketIdentity : Z;
  tr_decoder : TCPStreamDecoder;
  tr_readBufferSize : Z;
  tr_activeRead : option tcpActiveRead;
  tr_pendingReadRearm : bool;
  tr_generation : Z;
  tr_requestDeadline : Z;
  tr_responseDeadline : Z;
  tr_closed : bool;
  tr_closeFailures : list TCPReservation;
  tr_coalesced : gmap Z Z
}.

#[export] Instance transport_fields : Fields TCPTransport := fun r =>
  mkTCPTransport (tr_self r) (tr_socketIdentity r) (tr_decoder r) (tr_readBufferSize r)
    (tr_activeRead r) (tr_pendingReadRearm r) (tr_generation r) (tr_requestDeadline r)
    (tr_responseDeadline r) (tr_closed r) (tr_closeFailures r) (tr_coalesced r).

(** [lk_closeErr] is what closing the socket returns.  [lk_finished] lists the calls of
    [FinishCoalesced] on the scheduler, which answers by [lk_finish]; [lk_slots] counts
    the releases of the owner's place in its pool, and [lk_reconnects] the calls of the
    hook before a close. *)
Record link : Type := mkLink {
  lk_owner : owner;
  lk_transport : TCPTransport;
  lk_timeline : tcpEndpointTimeline;
  lk_groups : gmap Z group;
  lk_claims : gmap Z Z;
  lk_closeErr : errors;
  lk_finish : list Z -> Z -> errors;
  lk_finished : list Z;
  lk_slots : Z;
  lk_reconnects : Z
}.

#[export] Instance link_fields : Fields link := fun l =>
  mkLink (lk_owner l) (lk_transport l) (lk_timeline l) (lk_groups l) (lk_claims l)
    (lk_closeErr l) (lk_finish l) (lk_finished l) (lk_slots l) (lk_reconnects l).

Definition transport_invalid (field : string) : ProtocolError :=
  protocolError ErrorInvalidRequest 0 0 field (-1).

Definition deadline_range : ProtocolError :=
  protocolError ErrorInvalidRange 0 0 "operation_deadline" (-1).

(** * Claims of connections *)

Definition claimTCPConnection (claims : gmap Z Z) (identity transport : Z) : gmap Z Z * bool :=
  match claims !! identity with
  | Some _ => (claims, false)
  | None => (<[identity := transport]> claims, true)
  end.

Definition releaseTCPConnection (claims : gmap Z Z) (identity transport : Z) : gmap Z Z :=
  if bool_decide (claims !! identity = Some transport) then delete identity claims else claims.

(** * Construction *)

Record TCPTransportConfig : Type := mkTCPTransportConfig {
  tg_MaxBufferedBytes : Z;
  tg_Framing : Z;
  tg_RequestDeadline : Z;
  tg_ResponseDeadline : Z;
  tg_Clock : string;
  tg_EventSink : option (TCPTransportEvent -> bool);
  tg_timeline : option tcpEndpointTimeline
}.

Definition DefaultTCPTransportConfig (maxBuffered : Z) : TCPTransportConfig :=
  {| tg_MaxBufferedBytes := maxBuffered; tg_Framing := 0;
     tg_RequestDeadline := defaultTCPRequestDeadline;
     tg_ResponseDeadline := defaultTCPResponseDeadline; tg_Clock := tcpClockContractVersion;
     tg_EventSink := None; tg_timeline := None |}.

(** [self] is the address of the new transport and [identity] what
    [canonicalTCPConnectionIdentity] returns for the connection; [tg_Clock] is the
    contract version of the clock.  The result keeps the claims. *)
Definition newTCPTransportWithConfig (self : Z) (identity : presult Z) (o : owner)
    (config : TCPTransportConfig) (claims : gmap Z Z)
    : owner * gmap Z Z * presult (TCPTransport * tcpEndpointTimeline) :=
  if ow_closed o then (o, claims, Err (transport_invalid "tcp_transport"))
  else
  match identity with
  | Err err => (o, claims, Err err)
  | Ok identity =>
  if (tg_MaxBufferedBytes config <=? 0) || (tg_RequestDeadline config <=? 0)
     || (tg_ResponseDeadline config <=? 0) then
    (o, claims, Err (transport_invalid "tcp_transport_config"))
  else if String.eqb (tg_Clock config) "" then
    (o, claims, Err (transport_invalid "tcp_clock_contract"))
  else
  match NewTCPStreamDecoderWithFraming (tg_MaxBufferedBytes config) (tg_Framing config) with
  | Err err => (o, claims, Err err)
  | Ok decoder =>
  match claimTCPConnection claims identity self with
  | (_, false) => (o, claims, Err (transport_invalid "connection_already_owned"))
  | (claims, true) =>
  let timeline :=
    match tg_timeline config with
    | Some timeline => timeline
    | None => newTCPEndpointTimeline (ow_endpoint o) (tg_Clock config) (tg_EventSink config)
    end in
  match bindTransport o self with
  | (o, Err err) => (o, releaseTCPConnection claims identity self, Err err)
  | (o, Ok generation) =>
      (o, claims,
       Ok ({| tr_self := self; tr_socketIdentity := identity; tr_decoder := decoder;
              tr_readBufferSize := tcpFramingADUBound (tg_Framing config); tr_activeRead := None;
              tr_pendingReadRearm := false; tr_generation := generation;
              tr_requestDeadline := tg_RequestDeadline config;
              tr_responseDeadline := tg_ResponseDeadline config; tr_closed := false;
              tr_closeFailures := []; tr_coalesced := ∅ |}, timeline))
  end
  end
  end
  end.

(** * Groups of the link *)

Definition forgetCoalesced (l : link) (physicalRequestID : Z) : link :=
  if physicalRequestID =? 0 then l
  else
    l <| lk_transport :=
      (lk_transport l) <| tr_coalesced := delete physicalRequestID (tr_coalesced (lk_transport l)) |> |>.

(** The group's call of [forgetCoalesced] on the transport it was written to. *)
Definition forget_written (l : link) (transport : option Z) (physicalRequestID : Z) : link :=
  if bool_decide (transport = Some (tr_self (lk_transport l))) then forgetCoalesced l physicalRequestID
  else l.

Definition finishScheduling (l : link) (address : Z) : link * errors :=
  (l <| lk_finished := lk_finished l ++ [address] |>, lk_finish l (lk_finished l) address).

Definition store_group (l : link) (address : Z) (g : group) : link :=
  l <| lk_groups := <[address := g]> (lk_groups l) |>.

Definition FailTransport (l : link) (address : Z) : link * errors :=
  match lk_groups l !! address with
  | None => (l, [ErrProtocol (transport_invalid "coalesced_group")])
  | Some g =>
      let '(g, o, (ownerErr, _)) := failTransportLocked g (lk_owner l) in
      let l := store_group (l <| lk_owner := o |>) address g in
      if cr_completed g then
        let l := forget_written l (cr_tcpTransport g) (cr_physicalRequestID g) in
        let '(l, errs) := finishScheduling l address in
        (l, protocol_error ownerErr ++ errs)
      else (l, protocol_error ownerErr)
  end.

Fixpoint fail_groups (l : link) (groups : list Z) : link * errors :=
  match groups with
  | [] => (l, [])
  | address :: groups =>
      let '(l, errs) := FailTransport l address in
      let '(l, errs') := fail_groups l groups in
      (l, errs ++ errs')
  end.

Definition finish_write_failure (l : link) (address : Z) : link :=
  match lk_groups l !! address with
  | None => l
  | Some g =>
      if cr_completed g then l
      else
        let '(g, _) := finishWriteFailure g in
        let l := store_group l address g in
        let l := forget_written l (cr_tcpTransport g) (cr_physicalRequestID g) in
        fst (finishScheduling l address)
  end.

(** * The end of a transport *)

Definition consumeCloseTransitionLocked (l : link) : link * OwnerTransition :=
  (l <| lk_transport := (lk_transport l) <| tr_closeFailures := [] |> |>,
   {| ot_closeConnection := true; ot_failed := tr_closeFailures (lk_transport l) |}).

(** The groups a closing transport takes over, and the transport without them. *)
Definition take_groups (l : link) : link * list Z :=
  (l <| lk_transport := (lk_transport l) <| tr_closed := true |> <| tr_coalesced := ∅ |> |>,
   snd <$> map_to_list (tr_coalesced (lk_transport l))).

Definition release_claim (l : link) : link :=
  l <| lk_claims :=
    releaseTCPConnection (lk_claims l) (tr_socketIdentity (lk_transport l)) (tr_self (lk_transport l)) |>.

Definition release_pool_slot (l : link) : link :=
  l <| lk_owner := set_pool None (lk_owner l) |>
    <| lk_slots := if bool_decide (is_Some (ow_pool (lk_owner l))) then lk_slots l + 1 else lk_slots l |>.

Definition closeTerminal (l : link) : link * OwnerTransition * errors :=
  if tr_closed (lk_transport l) then
    let '(l, transition) := consumeCloseTransitionLocked l in (l, transition, [])
  else
    let '(l, groups) := take_groups l in
    let '(o, ownerTransition) := loseTransport (lk_owner l) (tr_self (lk_transport l)) in
    let l := l <| lk_owner := o |> in
    let l :=
      l <| lk_transport :=
        (lk_transport l)
          <| tr_closeFailures := tr_closeFailures (lk_transport l) ++ ot_failed ownerTransition |> |> in
    let '(l, transition) := consumeCloseTransitionLocked l in
    let l := release_claim l in
    let '(l, groupErr) := fail_groups l groups in
    let l := if ot_closeConnection ownerTransition then release_pool_slot l else l in
    (l, transition, lk_closeErr l ++ groupErr).

Definition closeDetached (l : link) : link * errors :=
  if tr_closed (lk_transport l) then (l, [])
  else
    let '(l, groups) := take_groups l in
    let l := l <| lk_transport := (lk_transport l) <| tr_closeFailures := [] |> |> in
    let l := release_claim l in
    let '(l, groupErr) := fail_groups l groups in
    (l, lk_closeErr l ++ groupErr).

(** [Close] and [retire] of the owner with the transport they detach; of another bound
    transport than this one nothing is in the link. *)
Definition owner_call (l : link) (op : owner_op) : link :=
  let bound := ow_boundTransport (lk_owner l) in
  let l := l <| lk_owner := fst (run_op (lk_owner l) op) |> in
  match op with
  | OpClose | OpRetire =>
      if bool_decide (bound = Some (tr_self (lk_transport l))) then fst (closeDetached l) else l
  | _ => l
  end.

(** tcp_coalescing.go, [Cancel]: the cancellation with what it does to the transport. *)
Definition CancelDependent (l : link) (address logicalViewID : Z)
    : link * CoalescedTransition * errors :=
  match lk_groups l !! address with
  | None => (l, no_coalesced_transition, [ErrProtocol (transport_invalid "coalesced_group")])
  | Some g =>
      let '(g, o, result) := cancelLocked g (lk_owner l) logicalViewID in
      let l := store_group (l <| lk_owner := o |>) address g in
      let transition := ca_transition result in
      let l :=
        if ca_completed result then forget_written l (ca_transport result) (cr_physicalRequestID g)
        else l in
      let errs := protocol_error (ca_error result) in
      let '(l, transition, errs) :=
        if ot_closeConnection (ct_ownerTransition transition)
           && bool_decide (ca_transport result = Some (tr_self (lk_transport l))) then
          let '(l, closeTransition, closeErr) := closeTerminal l in
          (l, {| ct_transmitPhysical := ct_transmitPhysical transition;
                 ct_abandonTransport := ct_abandonTransport transition;
                 ct_ownerTransition :=
                   mergeOwnerTransitions (ct_ownerTransition transition) closeTransition |},
           errs ++ closeErr)
        else (l, transition, errs) in
      if ca_completed result then
        let '(l, finishErr) := finishScheduling l address in (l, transition, errs ++ finishErr)
      else (l, transition, errs)
  end.

(** * The deadline of a read in progress *)

Definition with_active_read (l : link) (active : option tcpActiveRead) : link :=
  l <| lk_transport := (lk_transport l) <| tr_activeRead := active |> |>.

Definition registerActiveRead (l : link) (deadline : Z) : link :=
  let pending := tr_pendingReadRearm (lk_transport l) in
  with_active_read (l <| lk_transport := (lk_transport l) <| tr_pendingReadRearm := false |> |>)
    (Some {| ar_deadline := deadline; ar_rearm := pending; ar_interrupted := pending |}).

(** Whether the read was rearmed, and whether its socket was interrupted for that. *)
Definition finishActiveRead (l : link) : link * (bool * bool) :=
  (with_active_read l None,
   match tr_activeRead (lk_transport l) with
   | Some active => (ar_rearm active, ar_interrupted active)
   | None => (false, false)
   end).

Definition requestEarlierReadDeadline (l : link) (deadline : Z) : link :=
  if deadline <=? 0 then l
  else
    match tr_activeRead (lk_transport l) with
    | None => l
    | Some active =>
        if deadline >=? ar_deadline active then l
        else
          with_active_read l
            (Some {| ar_deadline := deadline; ar_rearm := true; ar_interrupted := true |})
    end.

Definition refreshActiveReadDeadline (l : link) : link :=
  match tr_activeRead (lk_transport l) with
  | None => l <| lk_transport := (lk_transport l) <| tr_pendingReadRearm := true |> |>
  | Some active =>
      with_active_read l (Some (active <| ar_rearm := true |> <| ar_interrupted := true |>))
  end.

(** * What other threads do meanwhile *)

Inductive interference : Type :=
| MeanwhileOwner (op : owner_op)
| MeanwhileClose
| MeanwhileCancel (address logicalViewID : Z)
| MeanwhileEarlier (deadline : Z)
| MeanwhileRefresh
| MeanwhileRecord (kind : TCPTransportEventKind) (fields : tcpEventFields) (now : Z).

Definition interfere (l : link) (i : interference) : link :=
  match i with
  | MeanwhileOwner op => owner_call l op
  | MeanwhileClose => (closeTerminal l).1.1
  | MeanwhileCancel address logicalViewID => (CancelDependent l address logicalViewID).1.1
  | MeanwhileEarlier deadline => requestEarlierReadDeadline l deadline
  | MeanwhileRefresh => refreshActiveReadDeadline l
  | MeanwhileRecord kind fields now =>
      l <| lk_timeline := fst (record (lk_timeline l) kind fields now) |>
  end.

Definition meanwhile (l : link) (others : list interference) : link := foldl interfere l others.

(** What can happen while the lock of a group is held. *)
Definition unlocked (i : interference) : bool :=
  match i with MeanwhileCancel _ _ => false | _ => true end.

(** * Deadlines *)

Definition relativeDeadline (limit now : Z) : presult Z :=
  if limit <=? 0 then Err (transport_invalid "operation_deadline")
  else if (now <? 0) || (limit >? MaxInt64 - now) then Err deadline_range
  else Ok (now + limit).

Definition responseWaitDeadline (responseDeadline operationDeadline now : Z) : presult Z :=
  if now <? 0 then Err deadline_range
  else if (operationDeadline >? 0) && (operationDeadline <=? now) then Err deadline_range
  else if (operationDeadline >? 0) && (operationDeadline - now <=? responseDeadline) then
    Ok operationDeadline
  else if responseDeadline >? MaxInt64 - now then Err deadline_range
  else
    let deadline := now + responseDeadline in
    if (operationDeadline >? 0) && (operationDeadline <? deadline) then Ok operationDeadline
    else Ok deadline.

(** * Writing *)

(** The surroundings of a write: the points at which its thread looks at the limits, the
    readings of the clock for the events it records itself, the answers of the socket,
    and the interferences of other threads while it waits for its gate, between its
    checks, before the invocation, during the socket's write and before it cleans up. *)
Record write_env : Type := mkWriteEnv {
  we_armedAt : Z;
  we_created : point;
  we_waiting : list interference;
  we_gate : point;
  we_held : list interference;
  we_pre : point;
  we_checked : list interference;
  we_preparedAt : Z;
  we_prepared : list interference;
  we_begin : point;
  we_dispatch : option ProtocolError;
  we_during : list interference;
  we_written : Z;
  we_writeErr : errors;
  we_return : point;
  we_join : point;
  we_setDeadline : bool;
  we_resetErr : errors;
  we_now : Z;
  we_recordedAt : Z;
  we_recorded : list interference;
  we_closing : list interference
}.

Definition canonicalLiveReservation (o : owner) (reservation : TCPReservation)
    : option (TCPReservation * requestState) :=
  if negb (tv_owner reservation =? ow_self o) then None
  else
    match ow_inFlight o !! tv_transactionID reservation with
    | None => None
    | Some request =>
        if negb (or_generation request =? tv_generation reservation) then None
        else Some (reservation_of o request, or_state request)
    end.

Definition current (l : link) : bool :=
  transportCurrent (lk_owner l) (tr_self (lk_transport l)) (tr_generation (lk_transport l)).

(** The release of a reservation that was not written.  What the code does in a few critical
    sections of the owner and of the transport is one step here, and so is the failing of
    the groups in [closeTerminal]. *)
Definition releasePreWrite (l : link) (reservation : TCPReservation)
    : link * OwnerTransition * errors :=
  match CancelBeforeWrite (lk_owner l) reservation with
  | (o, None) => (l <| lk_owner := o |>, no_transition, [])
  | (_, Some _) =>
  match canonicalLiveReservation (lk_owner l) reservation with
  | None => (l, no_transition, [])
  | Some (canonical, requestReserved) =>
      match CancelBeforeWrite (lk_owner l) canonical with
      | (o, err) => (l <| lk_owner := o |>, no_transition, protocol_error err)
      end
  | Some _ =>
      if current l then closeTerminal l
      else (owner_call l OpClose, {| ot_closeConnection := true; ot_failed := [] |}, [])
  end
  end.

Definition record_link (l : link) (kind : TCPTransportEventKind) (fields : tcpEventFields) (now : Z)
    : link :=
  l <| lk_timeline :=
    fst (recordEventFields (ow_connectionID (lk_owner l)) (tr_generation (lk_transport l))
           (lk_timeline l) kind fields now) |>.

(** The deferred join of an operation that ends before its I/O. *)
Definition join_early (l : link) (op : tcpTransportOperation) (p : point) : link :=
  l <| lk_timeline := fst (stopAndJoin (lk_timeline l) op p) |>.

(** The abandonment of a request whose write completed when its time was up. *)
Definition abandon_written (l : link) (reservation : TCPReservation) (result : TransmitResult)
    (contextErr deadlineErr : errors) : link * OwnerTransition * errors :=
  if bool_decide (result = TransmitComplete) && (negb (is_nil contextErr) || negb (is_nil deadlineErr)) then
    let reason :=
      if negb (is_nil deadlineErr) || joined_is ErrDeadlineExceeded contextErr then AbandonTimeout
      else AbandonCancellation in
    let '(o, (transition, err)) := AbandonAfterWrite (lk_owner l) reservation reason in
    (l <| lk_owner := o |>, transition, protocol_error err)
  else (l, no_transition, []).

Definition close_written (l : link) (close : bool) (closing : list interference)
    : link * OwnerTransition * errors :=
  if close then
    closeTerminal (meanwhile (l <| lk_reconnects := lk_reconnects l + 1 |>) closing)
  else (l, no_transition, []).

Definition performInvokedWrite (l : link) (op : tcpTransportOperation) (reservation : TCPReservation)
    (adu : list Z) (e : write_env) : link * OwnerTransition * errors :=
  let l := meanwhile l (we_during e) in
  let '(t, op) := markReturn (lk_timeline l) op (we_return e) in
  let '(t, op) := stopAndJoin t op (we_join e) in
  let l := l <| lk_timeline := t |> in
  let contextErr := cause_errors op in
  let resetErr := if op_interrupted op && we_setDeadline e then we_resetErr e else [] in
  let result := classifyNetWrite (zlen adu) (we_written e) (we_writeErr e) (cancellationWonDuringIO op) in
  let '(responseDeadline, deadlineErr) :=
    match responseWaitDeadline (tr_responseDeadline (lk_transport l)) (tv_deadlineOffset reservation)
            (we_now e) with
    | Ok deadline => (deadline, [])
    | Err err => (0, [ErrProtocol err])
    end in
  let '(o, (transition, recordErr)) :=
    recordTransmitUntil (lk_owner l) reservation result responseDeadline in
  let l := l <| lk_owner := o |> in
  let l :=
    record_link l TCPEventTransmitResult
      ((setRequestIdentity (tv_physicalRequestID reservation) (tv_transactionID reservation) (op_fields op))
         <| ef_DeadlineOffset := responseDeadline |> <| ef_TransmitResult := Some result |>)
      (we_recordedAt e) in
  let l := meanwhile l (we_recorded e) in
  let '(l, abandonTransition, abandonErr) := abandon_written l reservation result contextErr deadlineErr in
  let transition := mergeOwnerTransitions transition abandonTransition in
  let recordErr := protocol_error recordErr ++ abandonErr in
  let '(l, closeTransition, closeErr) :=
    close_written l (ot_closeConnection transition || negb (is_nil resetErr)) (we_closing e) in
  let transition := mergeOwnerTransitions transition closeTransition in
  let cause := we_writeErr e ++ contextErr ++ deadlineErr ++ recordErr ++ resetErr ++ closeErr in
  if bool_decide (result = TransmitComplete) && is_nil cause then (l, transition, [])
  else (l, transition, ErrWrite result :: cause).

Definition write_operation (l : link) (deadlineOffset : Z) (fields : tcpEventFields) (e : write_env)
    : link * tcpTransportOperation :=
  let '(t, op) :=
    newTCPTransportOperation (ow_connectionID (lk_owner l)) (tr_generation (lk_transport l))
      (lk_timeline l) deadlineOffset TCPEventRequestTimerArm TCPEventRequestTimerFire
      TCPEventWriteInvocation TCPEventWriteReturn fields (we_armedAt e) (we_created e) in
  (l <| lk_timeline := t |>, op).

(** From the gate to the checks both writes make before they prepare their bytes. *)
Definition enter_write (l : link) (op : tcpTransportOperation) (e : write_env)
    : link * tcpTransportOperation * errors :=
  let l := meanwhile l (we_waiting e) in
  let '(t, op, errs) := acquireOperationGate (lk_timeline l) op (we_gate e) in
  let l := l <| lk_timeline := t |> in
  if negb (is_nil errs) then (l, op, errs)
  else
  let l := meanwhile l (we_held e) in
  if negb (current l) then (l, op, [ErrProtocol (transport_invalid "stale_transport")])
  else
  let '(t, op, errs) := preInvocationError (lk_timeline l) op (we_pre e) in
  (l <| lk_timeline := t |>, op, errs).

Definition fail_pre_write (l : link) (op : tcpTransportOperation) (reservation : TCPReservation)
    (errs : errors) (e : write_env) : link * OwnerTransition * errors :=
  let '(l, transition, cleanupErr) := releasePreWrite l reservation in
  (join_early l op (we_join e), transition, errs ++ cleanupErr).

Definition mark_write (reservation : TCPReservation) (l : link) : link * errors :=
  let '(o, err) := MarkWriteInvoked (lk_owner l) reservation in
  (l <| lk_owner := o |>, protocol_error err).

#[export] Instance wire_identity_eq_dec : EqDecision reservationWireIdentity.
Proof. solve_decision. Defined.

(** The encoding of a reservation, which must still be the request it was. *)
Definition prepared_adu (o : owner) (reservation : TCPReservation) (identity : reservationWireIdentity)
    : presult (list Z) :=
  match encodeReservation o reservation with
  | Err err => Err err
  | Ok (Err err, _) => Err err
  | Ok (Ok adu, encodedIdentity) =>
      if negb (bool_decide (encodedIdentity = identity)) then
        Err (protocolError ErrorInvalidRequest (wi_function identity) 0 "reservation_identity_changed" (-1))
      else Ok adu
  end.

Definition reservation_fields (requestID deadlineOffset : Z) (reservation : TCPReservation)
    (identity : reservationWireIdentity) : tcpEventFields :=
  no_fields <| ef_RequestID := requestID |>
    <| ef_PhysicalRequestID := tv_physicalRequestID reservation |>
    <| ef_TransactionID := tv_transactionID reservation |> <| ef_UnitID := wi_unitID identity |>
    <| ef_DeadlineOffset := deadlineOffset |> <| ef_RequestedFunction := wi_function identity |>
    <| ef_LogicalTable := wi_table identity |> <| ef_PhysicalOffset := wi_offset identity |>
    <| ef_PhysicalQuantity := wi_quantity identity |>.

Definition writeReservationUntil (l : link) (reservation : TCPReservation)
    (deadlineOffset requestID : Z) (e : write_env) : link * OwnerTransition * errors :=
  match reservation_identity (lk_owner l) reservation with
  | Err err => (l, no_transition, [ErrProtocol err])
  | Ok identity =>
  let '(l, op) :=
    write_operation l deadlineOffset (reservation_fields requestID deadlineOffset reservation identity) e in
  let '(l, op, errs) := enter_write l op e in
  if negb (is_nil errs) then fail_pre_write l op reservation errs e
  else
  let l := meanwhile l (we_checked e) in
  match prepared_adu (lk_owner l) reservation identity with
  | Err err => fail_pre_write l op reservation [ErrProtocol err] e
  | Ok adu =>
  let op := mutateEventFields op (fun fields => fields <| ef_RawADUHex := hex_encode adu |>) in
  let l := l <| lk_timeline := recordOnly (lk_timeline l) op TCPEventWritePrepared (we_preparedAt e) |> in
  let op := setInterrupt op in
  let l := meanwhile l (we_prepared e) in
  let '(t, op, l, errs) :=
    beginInvocation (lk_timeline l) op (mark_write reservation) no_identity l (we_begin e) in
  let l := l <| lk_timeline := t |> in
  if negb (is_nil errs) then fail_pre_write l op reservation errs e
  else performInvokedWrite l op reservation adu e
  end
  end.

Definition WriteReservation (l : link) (reservation : TCPReservation) (now : Z) (e : write_env)
    : link * OwnerTransition * errors :=
  match relativeDeadline (tr_requestDeadline (lk_transport l)) now with
  | Err err => (l, no_transition, [ErrProtocol err])
  | Ok deadline => writeReservationUntil l reservation deadline 0 e
  end.

(** ** Coalesced writes *)

Definition reservationForTransportLocked (g : group) (o : owner) (generation : Z)
    : presult (option TCPReservation) :=
  if cr_writeBegun g || cr_completed g || (cr_physicalRequestID g =? 0)
     || negb (bool_decide (cr_owner g = Some (ow_self o))) || negb (cr_generation g =? generation) then
    Err (transport_invalid "coalesced_state")
  else if activeDependentCountLocked g =? 0 then
    Err (protocolError ErrorInvalidRange 0 0 "active_dependents" (-1))
  else Ok (cr_reservation g).

Definition registerCoalescedLocked (l : link) (g : group) : option ProtocolError :=
  if cr_completed g || (activeDependentCountLocked g =? 0) then None
  else if tr_closed (lk_transport l) then Some (transport_invalid "closed_transport")
  else None.

(** Whether [beginWriteLocked] gets as far as registering the group. *)
Definition registers_group (l : link) (g : group) (dispatch : option ProtocolError) : bool :=
  negb (cr_writeBegun g || cr_completed g || (cr_physicalRequestID g =? 0)
        || (activeDependentCountLocked g =? 0))
  && bool_decide (cr_owner g = Some (ow_self (lk_owner l)))
  && (tr_generation (lk_transport l) =? cr_generation g)
  && bool_decide (dispatch = None) && negb (tr_closed (lk_transport l)).

Definition transport_ref (l : link) : TransportRef :=
  {| tf_self := tr_self (lk_transport l); tf_owner := ow_self (lk_owner l);
     tf_generation := tr_generation (lk_transport l) |}.

(** [beginWriteLocked] with the registration it makes and takes back. *)
Definition mark_coalesced (address : Z) (dispatch : option ProtocolError) (l : link) : link * errors :=
  match lk_groups l !! address with
  | None => (l, [ErrProtocol (transport_invalid "coalesced_group")])
  | Some g =>
      let '(g', o, result) :=
        beginWriteLocked g (lk_owner l) (Some (transport_ref l)) dispatch (registerCoalescedLocked l g) in
      let registered := registers_group l g dispatch in
      let l := store_group (l <| lk_owner := o |>) address g' in
      let coalesced := tr_coalesced (lk_transport l) in
      match result with
      | Ok reservation =>
          (l <| lk_transport :=
             (lk_transport l)
               <| tr_coalesced := <[tv_physicalRequestID reservation := address]> coalesced |> |>, [])
      | Err err =>
          (if registered then forgetCoalesced l (cr_physicalRequestID g) else l, [ErrProtocol err])
      end
  end.

Definition coalesced_identity (reservation : TCPReservation) (l : link) (fields : tcpEventFields)
    : tcpEventFields :=
  setRequestIdentity (tv_physicalRequestID reservation) (tv_transactionID reservation) fields.

Definition timer_fields (fields : tcpEventFields) : tcpEventFields :=
  fields <| ef_RequestedFunction := 0 |> <| ef_LogicalTable := NoTable |>
    <| ef_PhysicalOffset := 0 |> <| ef_PhysicalQuantity := 0 |> <| ef_RawADUHex := "" |>.

Definition prepared_fields (identity : reservationWireIdentity) (adu : list Z) (fields : tcpEventFields)
    : tcpEventFields :=
  fields <| ef_RequestedFunction := wi_function identity |> <| ef_LogicalTable := wi_table identity |>
    <| ef_PhysicalOffset := wi_offset identity |> <| ef_PhysicalQuantity := wi_quantity identity |>
    <| ef_RawADUHex := hex_encode adu |>.

(** The section under the group's lock: the reservation and the bytes of an invoked
    write, or the reservation as far as it is known and the error. *)
Definition invoke_coalesced (l : link) (op : tcpTransportOperation) (address : Z) (e : write_env)
    : link * tcpTransportOperation * (TCPReservation * list Z + option TCPReservation * errors) :=
  match lk_groups l !! address with
  | None => (l, op, inr (None, [ErrProtocol (transport_invalid "coalesced_group")]))
  | Some g =>
  match reservationForTransportLocked g (lk_owner l) (tr_generation (lk_transport l)) with
  | Err err => (l, op, inr (None, [ErrProtocol err]))
  | Ok None => (l, op, inr (None, [ErrProtocol (owner_request_error "reservation_owner")]))
  | Ok (Some reservation) =>
  match encodeReservation (lk_owner l) reservation with
  | Err err | Ok (Err err, _) => (l, op, inr (Some reservation, [ErrProtocol err]))
  | Ok (Ok adu, wire) =>
      let op := mutateEventFields op (prepared_fields wire adu) in
      let l := l <| lk_timeline := recordOnly (lk_timeline l) op TCPEventWritePrepared (we_preparedAt e) |> in
      let l := meanwhile l (base.filter (fun i => unlocked i = true) (we_prepared e)) in
      let '(t, op, l, errs) :=
        beginInvocation (lk_timeline l) op (mark_coalesced address (we_dispatch e))
          (coalesced_identity reservation) l (we_begin e) in
      let l := l <| lk_timeline := t |> in
      (l, op, if is_nil errs then inl (reservation, adu) else inr (Some reservation, errs))
  end
  end
  end.

Definition writeCoalescedUntil (l : link) (address deadlineOffset : Z) (fields : tcpEventFields)
    (e : write_env) : link * OwnerTransition * errors :=
  if bool_decide (lk_groups l !! address = None) then
    (l, no_transition, [ErrProtocol (transport_invalid "tcp_transport")])
  else
  let '(l, op) := write_operation l deadlineOffset (timer_fields fields) e in
  let '(l, op, errs) := enter_write l op e in
  if negb (is_nil errs) then
    let '(l, groupErr) := FailTransport l address in
    (join_early l op (we_join e), no_transition, errs ++ groupErr)
  else
  let op := setInterrupt op in
  let l := meanwhile l (we_checked e) in
  let '(l, op, invoked) := invoke_coalesced l op address e in
  match invoked with
  | inr (reservation, errs) =>
      let '(l, groupErr) := FailTransport l address in
      let '(l, transition, cleanupErr) :=
        match reservation with
        | Some reservation => releasePreWrite l reservation
        | None => (l, no_transition, [])
        end in
      (join_early l op (we_join e), transition, errs ++ groupErr ++ cleanupErr)
  | inl (reservation, adu) =>
      let '(l, transition, writeErr) := performInvokedWrite l op reservation adu e in
      if negb (is_nil writeErr) then
        let l := finish_write_failure l address in
        let '(l, groupErr) := FailTransport l address in
        (l, transition, writeErr ++ groupErr)
      else (l, transition, [])
  end.

Definition WriteCoalesced (l : link) (address now : Z) (e : write_env) : link * OwnerTransition * errors :=
  match relativeDeadline (tr_requestDeadline (lk_transport l)) now with
  | Err err => (l, no_transition, [ErrProtocol err])
  | Ok deadline => writeCoalescedUntil l address deadline no_fields e
  end.

(** * Reading *)

(** The surroundings of a read, as for a write; [re_data] is what the socket's read
    returned, [re_returnedAt] the clock after it, and [re_frames] what other threads do
    before each frame is correlated. *)
Record read_env : Type := mkReadEnv {
  re_context : option transport_error;
  re_startedAt : Z;
  re_expiredAt : Z;
  re_armedAt : Z;
  re_created : point;
  re_waiting : list interference;
  re_gate : point;
  re_gateExpiredAt : Z;
  re_held : list interference;
  re_pre : point;
  re_checked : list interference;
  re_begin : point;
  re_during : list interference;
  re_data : list Z;
  re_readErr : errors;
  re_returnedAt : Z;
  re_return : point;
  re_join : point;
  re_setDeadline : bool;
  re_resetErr : errors;
  re_frames : list (list interference);
  re_after : list interference
}.

Record read_result : Type := mkReadResult {
  rd_responses : list WireResponse;
  rd_transition : OwnerTransition;
  rd_abandoned : list TCPReservation;
  rd_errors : errors
}.

Definition read_failed (errs : errors) : read_result :=
  {| rd_responses := []; rd_transition := no_transition; rd_abandoned := []; rd_errors := errs |}.

Definition decode_error (err : option TCPError) : errors :=
  match err with
  | None => []
  | Some (TCPProtocolError err) => [ErrProtocol err]
  | Some (TCPFrameError cause raw) => [ErrFrame cause raw]
  end.

Definition is_eof (err : transport_error) : bool :=
  match err with ErrSocket _ eof _ => eof | _ => false end.

(** Feeding the decoder and, at the end of the stream, finishing it.  [Feed] has enough
    fuel for every fragment of a decoder of the transport. *)
Definition decode_chunk (decoder : TCPStreamDecoder) (data : list Z) (eof : bool)
    : TCPStreamDecoder * list TCPADU * errors :=
  match Feed decoder data with
  | None => (decoder, [], [])
  | Some fed =>
      let errs := decode_error (fr_error fed) in
      if eof then
        let '(decoder, err) := Finish (fr_decoder fed) in
        (decoder, fr_frames fed, errs ++ decode_error err)
      else (fr_decoder fed, fr_frames fed, errs)
  end.

(** A correlation error that is the device's answer, not a failure of the transport. *)
Definition answered_badly (response : WireResponse) : bool :=
  negb (wr_wireResponseID response =? 0)
  && (bool_decide (wr_outcome response = WireProtocolException)
      || bool_decide (wr_outcome response = WireMalformedResponse)).

(** The loop over the decoded frames; [inr] is the error that ends it early. *)
Fixpoint correlate_frames (l : link) (frames : list TCPADU) (others : list (list interference))
    (responses : list WireResponse) (responseErr : errors)
    : link * list WireResponse * (errors + errors) :=
  match frames with
  | [] => (l, responses, inl responseErr)
  | frame :: frames =>
      let l := meanwhile l (default [] (head others)) in
      let '(o, (response, correlateErr)) :=
        Correlate (lk_owner l) (tr_generation (lk_transport l)) frame in
      let l := forgetCoalesced (l <| lk_owner := o |>) (wr_physicalRequestID response) in
      let correlateErr := ErrProtocol <$> correlateErr in
      if is_nil correlateErr then
        correlate_frames l frames (tail others) (responses ++ [response]) responseErr
      else if answered_badly response then
        correlate_frames l frames (tail others) (responses ++ [response]) (responseErr ++ correlateErr)
      else (l, responses, inr (responseErr ++ correlateErr))
  end.

(** The branch of a read whose deadline has passed before it starts. *)
Definition read_expired (l : link) (e : read_env) : link * read_result :=
  let '(o, (abandoned, transition, abandonErr)) := abandonExpired (lk_owner l) (re_expiredAt e) in
  let l := l <| lk_owner := o |> in
  let '(l, transition, errs) :=
    if ot_closeConnection transition then
      let '(l, closeTransition, closeErr) := closeTerminal l in
      (l, mergeOwnerTransitions transition closeTransition, protocol_error abandonErr ++ closeErr)
    else (l, transition, protocol_error abandonErr) in
  (l, {| rd_responses := []; rd_transition := transition; rd_abandoned := abandoned;
         rd_errors := ErrDeadlineExceeded :: errs |}).

(** The branch of a read whose limit is reached while it waits for its gate. *)
Definition read_gate_failed (l : link) (errs : errors) (e : read_env) : link * read_result :=
  if joined_is ErrDeadlineExceeded errs then
    let '(o, (abandoned, transition, abandonErr)) := abandonExpired (lk_owner l) (re_gateExpiredAt e) in
    (l <| lk_owner := o |>,
     {| rd_responses := []; rd_transition := transition; rd_abandoned := abandoned;
        rd_errors := errs ++ protocol_error abandonErr |})
  else (l, read_failed errs).

(** What [readResponsesUntil] does after its frames have been correlated. *)
Definition read_correlated (l : link) (responses : list WireResponse) (responseErr : errors)
    (abandoned : list TCPReservation) (transition : OwnerTransition) (abandonErr contextErr : errors)
    (deadlineWon rearmed : bool) (e : read_env) : link * read_result :=
  let l := meanwhile l (re_after e) in
  let '(l, transition, abandonErr) :=
    if ot_closeConnection transition then
      let '(l, closeTransition, closeErr) := closeTerminal l in
      (l, mergeOwnerTransitions transition closeTransition, abandonErr ++ closeErr)
    else (l, transition, abandonErr) in
  if deadlineWon then
    (l, {| rd_responses := responses; rd_transition := transition; rd_abandoned := abandoned;
           rd_errors := responseErr ++ contextErr ++ abandonErr |})
  else if negb (is_nil (re_readErr e)) && (negb rearmed || negb (isTimeoutError (re_readErr e))) then
    let '(l, transition, closeErr) := closeTerminal l in
    (l, {| rd_responses := responses; rd_transition := transition; rd_abandoned := abandoned;
           rd_errors := responseErr ++ re_readErr e ++ contextErr ++ closeErr |})
  else
    (l, {| rd_responses := responses; rd_transition := no_transition; rd_abandoned := abandoned;
           rd_errors := responseErr |}).

(** What it does once the socket's read has returned. *)
Definition read_returned (l : link) (op : tcpTransportOperation) (e : read_env) : link * read_result :=
  let '(t, op) := markReturn (lk_timeline l) op (re_return e) in
  let '(t, op) := stopAndJoin t op (re_join e) in
  let l := l <| lk_timeline := t |> in
  let contextErr := cause_errors op in
  let '(l, (rearmed, interrupted)) := finishActiveRead l in
  let resetErr := if (op_interrupted op || interrupted) && re_setDeadline e then re_resetErr e else [] in
  if callerCancellationWonDuringIO op then
    let '(l, transition, closeErr) := closeTerminal l in
    (l, {| rd_responses := []; rd_transition := transition; rd_abandoned := [];
           rd_errors := re_readErr e ++ contextErr ++ resetErr ++ closeErr |})
  else
  let '(o, (abandoned, abandonTransition, abandonErr)) := abandonExpired (lk_owner l) (re_returnedAt e) in
  let l := l <| lk_owner := o |> in
  let abandonErr := protocol_error abandonErr in
  if rearmed && (zlen (re_data e) =? 0) && isTimeoutError (re_readErr e) && is_nil contextErr
     && is_nil resetErr && negb (ot_closeConnection abandonTransition) then
    (l, {| rd_responses := []; rd_transition := no_transition; rd_abandoned := abandoned;
           rd_errors := [ErrReadDeadlineRearmed] |})
  else
  let '(decoder, frames, decodeErr) :=
    decode_chunk (tr_decoder (lk_transport l)) (re_data e) (existsb is_eof (re_readErr e)) in
  let l := l <| lk_transport := (lk_transport l) <| tr_decoder := decoder |> |> in
  if negb (is_nil decodeErr) || negb (is_nil resetErr) then
    let '(l, transition, closeErr) := closeTerminal l in
    (l, {| rd_responses := []; rd_transition := transition; rd_abandoned := abandoned;
           rd_errors := decodeErr ++ contextErr ++ resetErr ++ abandonErr ++ closeErr |})
  else
  let '(l, responses, ended) := correlate_frames l frames (re_frames e) [] [] in
  match ended with
  | inr errs =>
      let '(l, transition, closeErr) := closeTerminal l in
      (l, {| rd_responses := responses; rd_transition := transition; rd_abandoned := abandoned;
             rd_errors := errs ++ closeErr |})
  | inl responseErr =>
      read_correlated l responses responseErr abandoned abandonTransition abandonErr contextErr
        (deadlineWonDuringIO op) rearmed e
  end.

Definition readResponsesUntil (l : link) (deadlineOffset : Z) (e : read_env) : link * read_result :=
  match re_context e with
  | Some err => (l, read_failed [err])
  | None =>
  if re_startedAt e >=? deadlineOffset then read_expired l e
  else
  let '(t, op) :=
    newTCPTransportOperation (ow_connectionID (lk_owner l)) (tr_generation (lk_transport l))
      (lk_timeline l) deadlineOffset TCPEventResponseTimerArm TCPEventResponseTimerFire
      TCPEventReadInvocation TCPEventReadReturn (no_fields <| ef_DeadlineOffset := deadlineOffset |>)
      (re_armedAt e) (re_created e) in
  let l := meanwhile (l <| lk_timeline := t |>) (re_waiting e) in
  let '(t, op, errs) := acquireOperationGate (lk_timeline l) op (re_gate e) in
  let l := l <| lk_timeline := t |> in
  if negb (is_nil errs) then read_gate_failed (join_early l op (re_join e)) errs e
  else
  let l := meanwhile l (re_held e) in
  if negb (current l) then
    (join_early l op (re_join e), read_failed [ErrProtocol (transport_invalid "stale_transport")])
  else
  let '(t, op, errs) := preInvocationError (lk_timeline l) op (re_pre e) in
  let l := l <| lk_timeline := t |> in
  if negb (is_nil errs) then (join_early l op (re_join e), read_failed errs)
  else
  let l := registerActiveRead (meanwhile l (re_checked e)) deadlineOffset in
  let op := setInterrupt op in
  let '(t, op, _, errs) := beginInvocation (lk_timeline l) op no_mark no_identity tt (re_begin e) in
  let l := l <| lk_timeline := t |> in
  if negb (is_nil errs) then
    (join_early (fst (finishActiveRead l)) op (re_join e), read_failed errs)
  else read_returned (meanwhile l (re_during e)) op e
  end.

Definition ReadResponses (l : link) (now : Z) (e : read_env) : link * read_result :=
  match relativeDeadline (tr_responseDeadline (lk_transport l)) now with
  | Err err => (l, read_failed [ErrProtocol err])
  | Ok deadline => readResponsesUntil l deadline e
  end.

(** * Abandoning a response *)

(** tcp_owner.go: an owner closes the transport it is bound to, the one of the link. *)
Definition closeBoundTransport (l : link) : link * errors :=
  match ow_boundTransport (lk_owner l) with
  | None => (l, [])
  | Some _ => let '(l, _, errs) := closeTerminal l in (l, errs)
  end.

Definition AbandonResponseWait (l : link) (reservation : TCPReservation) (reason : AbandonReason) : link * errors :=
  let '(o, (transition, err)) := AbandonAfterWrite (lk_owner l) reservation reason in
  let l := l <| lk_owner := o |> in
  if negb (ot_closeConnection transition) then (l, protocol_error err)
  else
    let '(l, errs) := closeBoundTransport l in
    (l, protocol_error err ++ errs).
