(* ===== verification/TcpTransportFacts.v ===== *)
(** The transport over its owner: whatever its operations, their surroundings and other
    threads do, it acts on the owner only by the owner's own operations, so that a
    physical request satisfies at most one waiter over the whole life of a link; and a
    write that fails never leaves its request in flight. *)

From S2P Require Import Prelude Pdu DeviceId DeviceIdTolerant TcpAdu TcpOwner TcpOwnerFacts Coalescing TcpTimeline TcpOperation TcpOperationFacts TcpTransport.

(** * Owners reached by their operations *)

(** [out] are responses, in their order, of the correlations on the way, and every
    operation satisfies [P]. *)
Definition moves (P : owner_op -> Prop) (o o' : owner) (out : list WireResponse) : Prop :=
  exists ops, Forall P ops /\ fst (run_ops o ops) = o' /\ out `sublist_of` snd (run_ops o ops).

Lemma run_ops_app o ops ops' :
  run_ops o (ops ++ ops') =
  (fst (run_ops (fst (run_ops o ops)) ops'),
   snd (run_ops o ops) ++ snd (run_ops (fst (run_ops o ops)) ops')).
Proof.
  revert o. induction ops as [|op ops IH]; intros o; cbn; [by destruct (run_ops o ops')|].
  destruct (run_op o op) as [o1 rs]. rewrite IH. destruct (run_ops o1 ops) as [o2 rs']. cbn.
  by rewrite app_assoc.
Qed.

(** What the transport and the groups do to the owner besides marking, recording and
    binding. *)
Definition settling (op : owner_op) : Prop :=
  match op with
  | OpCancel _ | OpReplaceRead _ _ | OpAbandonExpired _ | OpAbandon _ _ | OpCorrelate _ _ | OpLose _
  | OpClose | OpReleaseSlot => True
  | _ => False
  end.

(** What another thread does, when its own calls on the owner satisfy [P]. *)
Definition allowed (P : owner_op -> Prop) (i : interference) : Prop :=
  match i with MeanwhileOwner op => P op | _ => True end.

Section Moves.
Context (P : owner_op -> Prop) (HP : forall op, settling op -> P op).

Lemma moves_refl o : moves P o o [].
Proof. by exists []. Qed.

Lemma moves_trans o o1 o2 out out' :
  moves P o o1 out -> moves P o1 o2 out' -> moves P o o2 (out ++ out').
Proof.
  intros (ops & Hp & <- & H) (ops' & Hp' & <- & H'). exists (ops ++ ops'). rewrite run_ops_app. cbn.
  split; [by apply Forall_app|]. split; [done|]. by apply sublist_app.
Qed.

Lemma moves_trans_l o o1 o2 out : moves P o o1 out -> moves P o1 o2 [] -> moves P o o2 out.
Proof. intros H H'. rewrite <- (app_nil_r out). by eapply moves_trans. Qed.

Lemma moves_trans_r o o1 o2 out : moves P o o1 [] -> moves P o1 o2 out -> moves P o o2 out.
Proof. intros H H'. change out with ([] ++ out). by eapply moves_trans. Qed.

Lemma moves_op op o : P op -> moves P o (fst (run_op o op)) [].
Proof.
  intros Hp. exists [op]. split; [by apply Forall_singleton|]. cbn. destruct (run_op o op) as [o' rs]. cbn.
  split; [done|]. apply sublist_nil_l.
Qed.

Lemma moves_correlate o generation adu o' response errs :
  Correlate o generation adu = (o', (response, errs)) -> moves P o o' [response].
Proof.
  intros E. exists [OpCorrelate generation adu]. split; [apply Forall_singleton; by apply HP|].
  cbn. by rewrite E.
Qed.

Lemma moves_ok o o' out : moves P o o' out -> owner_ok o -> owner_ok o'.
Proof. intros (ops & _ & <- & _) Ho. by apply run_ops_inv. Qed.

(** ** Groups *)

Lemma fail_locked_moves g o g' o' r :
  failTransportLocked g o = (g', o', r) -> moves P o o' [].
Proof.
  unfold failTransportLocked. destruct (cr_completed g); [intros; simplify_eq; apply moves_refl|].
  destruct (cr_owner g) as [w|], (cr_reservation g) as [v|]; try destruct (negb (cr_writeBegun g));
    cbn; try (intros; simplify_eq; apply moves_refl).
  destruct (CancelBeforeWrite o v) as [o1 err] eqn:E. intros; simplify_eq.
  pose proof (moves_op (OpCancel v) o (HP (OpCancel v) I)) as H. cbn in H. by rewrite E in H.
Qed.

Lemma cancel_write_moves o v o' err : CancelBeforeWrite o v = (o', err) -> moves P o o' [].
Proof. intros E. pose proof (moves_op (OpCancel v) o (HP (OpCancel v) I)) as H. cbn in H. by rewrite E in H. Qed.

Lemma replace_moves o v q o' err : replaceReservedRead o v q = (o', err) -> moves P o o' [].
Proof. intros E. pose proof (moves_op (OpReplaceRead v q) o (HP (OpReplaceRead v q) I)) as H. cbn in H. by rewrite E in H. Qed.

Lemma abandon_moves o v reason o' r : AbandonAfterWrite o v reason = (o', r) -> moves P o o' [].
Proof. intros E. pose proof (moves_op (OpAbandon v reason) o (HP (OpAbandon v reason) I)) as H. cbn in H. by rewrite E in H. Qed.

Lemma cancel_owner_moves g o was active id o' r :
  cancel_owner g o was active id = (o', r) -> moves P o o' [].
Proof.
  unfold cancel_owner. set (before := if negb _ && _ then _ else _).
  assert (Hb : moves P o before.1.1 []).
  { subst before. case_test; [|apply moves_refl].
    destruct (physicalWithoutLogicalLocked g id); [|apply moves_refl].
    destruct (cr_owner g), (cr_reservation g) as [v|]; try apply moves_refl.
    destruct (replaceReservedRead _ _ _) as [o1 [err|]] eqn:E; cbn; by eapply replace_moves. }
  destruct before as [[o1 replacement] [err|]]; cbn in Hb; [intros; by simplify_eq|].
  set (middle := if negb _ && _ then _ else _).
  assert (Hm : moves P o middle.1 []).
  { subst middle. case_test; [|done].
    destruct (cr_owner g), (cr_reservation g) as [v|]; try done.
    destruct (CancelBeforeWrite _ _) as [o2 err] eqn:E. cbn.
    eapply moves_trans_l; [done|]. by eapply cancel_write_moves. }
  destruct middle as [o2 err]; cbn in Hm. case_test; [|intros; by simplify_eq].
  destruct (cr_reservation g) as [v|]; [|intros; by simplify_eq].
  destruct (AbandonAfterWrite _ _ _) as [o3 [tr err']] eqn:E. intros; simplify_eq.
  eapply moves_trans_l; [done|]. by eapply abandon_moves.
Qed.

Lemma cancel_locked_moves g o id g' o' r :
  cancelLocked g o id = (g', o', r) -> moves P o o' [].
Proof.
  unfold cancelLocked. case_test; [intros; simplify_eq; apply moves_refl|].
  destruct (find_view _ _) as [[index d]|]; [|intros; simplify_eq; apply moves_refl].
  case_test; [intros; simplify_eq; apply moves_refl|].
  destruct (cancel_owner _ _ _ _ _) as [o1 [[replacement tr] err]] eqn:E.
  apply cancel_owner_moves in E.
  destruct err as [err|]; [case_test|]; try destruct (cancel_apply _ _ _ _ _ _); intros; by simplify_eq.
Qed.

(** ** The link *)

Lemma fail_transport_moves l a l' errs :
  FailTransport l a = (l', errs) -> moves P (lk_owner l) (lk_owner l') [].
Proof.
  unfold FailTransport. destruct (lk_groups l !! a) as [g|]; [|intros; simplify_eq; apply moves_refl].
  destruct (failTransportLocked g (lk_owner l)) as [[g' o'] [err n]] eqn:E.
  apply fail_locked_moves in E. cbv zeta.
  destruct (cr_completed g'); cbn; intros; simplify_eq; [|done]. cbn.
  unfold forget_written, forgetCoalesced. repeat case_test; done.
Qed.

Lemma fail_groups_moves groups l l' errs :
  fail_groups l groups = (l', errs) -> moves P (lk_owner l) (lk_owner l') [].
Proof.
  revert l l' errs. induction groups as [|a groups IH]; intros l l' errs; cbn.
  { intros; simplify_eq; apply moves_refl. }
  destruct (FailTransport l a) as [l1 e1] eqn:E1. destruct (fail_groups l1 groups) as [l2 e2] eqn:E2.
  intros; simplify_eq. eapply moves_trans_l; [by eapply fail_transport_moves|by eapply IH].
Qed.

Lemma close_terminal_moves l l' tr errs :
  closeTerminal l = (l', tr, errs) -> moves P (lk_owner l) (lk_owner l') [].
Proof.
  unfold closeTerminal, consumeCloseTransitionLocked, take_groups.
  case_test; [intros; simplify_eq; apply moves_refl|].
  destruct (loseTransport _ _) as [o1 t1] eqn:E1.
  change (loseTransport (lk_owner l) (tr_self (lk_transport l)) = (o1, t1)) in E1.
  pose proof (moves_op (OpLose (tr_self (lk_transport l))) (lk_owner l) (HP (OpLose (tr_self (lk_transport l))) I)) as H1. cbn in H1.
  rewrite E1 in H1. cbn in H1.
  destruct (fail_groups _ _) as [l2 e2] eqn:E2. apply fail_groups_moves in E2. cbn in E2.
  pose proof (moves_trans_l _ _ _ _ H1 E2) as H2. case_test; intros; simplify_eq; [|done]. cbn.
  eapply moves_trans_l; [done|]. exact (moves_op OpReleaseSlot (lk_owner l2) (HP OpReleaseSlot I)).
Qed.

Lemma close_detached_moves l l' errs :
  closeDetached l = (l', errs) -> moves P (lk_owner l) (lk_owner l') [].
Proof.
  unfold closeDetached, take_groups. case_test; [intros; simplify_eq; apply moves_refl|].
  destruct (fail_groups _ _) as [l2 e2] eqn:E2. apply fail_groups_moves in E2. intros; by simplify_eq.
Qed.

Lemma owner_call_moves l op : P op -> moves P (lk_owner l) (lk_owner (owner_call l op)) [].
Proof.
  intros Hop. unfold owner_call. cbv zeta. pose proof (moves_op op (lk_owner l) Hop) as H.
  destruct op; try done; (case_test; [|done]);
    (eapply moves_trans_l; [exact H|]); (destruct (closeDetached _) as [l' errs] eqn:E);
    apply close_detached_moves in E; exact E.
Qed.

Lemma cancel_dependent_moves l a id l' tr errs :
  CancelDependent l a id = (l', tr, errs) -> moves P (lk_owner l) (lk_owner l') [].
Proof.
  unfold CancelDependent. destruct (lk_groups l !! a) as [g|]; [|intros; simplify_eq; apply moves_refl].
  destruct (cancelLocked g (lk_owner l) id) as [[g' o'] r] eqn:E. apply cancel_locked_moves in E. cbv zeta.
  set (l1 := if ca_completed r then _ else _).
  assert (H1 : lk_owner l1 = o').
  { subst l1. unfold forget_written, forgetCoalesced. repeat case_test; done. }
  set (closed := if _ && _ then _ else _).
  assert (H2 : moves P (lk_owner l) (lk_owner closed.1.1) []).
  { subst closed. case_test; [|cbn; by rewrite H1].
    destruct (closeTerminal l1) as [[l2 t2] e2] eqn:E2. apply close_terminal_moves in E2. cbn.
    rewrite H1 in E2. by eapply moves_trans_l. }
  destruct closed as [[l2 t2] e2]. cbn in H2. unfold finishScheduling.
  destruct (ca_completed r); intros; by simplify_eq.
Qed.

Lemma interfere_moves l i : allowed P i -> moves P (lk_owner l) (lk_owner (interfere l i)) [].
Proof.
  intros Hi. destruct i; cbn; try apply moves_refl.
  - by apply owner_call_moves.
  - destruct (closeTerminal l) as [[l' t] e] eqn:E. by eapply close_terminal_moves.
  - destruct (CancelDependent l address logicalViewID) as [[l' t] e] eqn:E.
    by eapply cancel_dependent_moves.
  - unfold requestEarlierReadDeadline. case_test; [apply moves_refl|].
    destruct (tr_activeRead _); [|apply moves_refl]. case_test; apply moves_refl.
  - unfold refreshActiveReadDeadline. destruct (tr_activeRead _); apply moves_refl.
Qed.

Lemma meanwhile_moves others l : Forall (allowed P) others -> moves P (lk_owner l) (lk_owner (meanwhile l others)) [].
Proof.
  revert l. induction others as [|i others IH]; intros l Hf; [apply moves_refl|]. cbn.
  apply Forall_cons in Hf as [Hi Ho]. eapply moves_trans_l; [by apply interfere_moves|by apply IH].
Qed.

Lemma release_pre_write_moves l v l' tr errs :
  releasePreWrite l v = (l', tr, errs) -> moves P (lk_owner l) (lk_owner l') [].
Proof.
  unfold releasePreWrite. destruct (CancelBeforeWrite (lk_owner l) v) as [o1 [err|]] eqn:E.
  2:{ intros; simplify_eq. by eapply cancel_write_moves. }
  destruct (canonicalLiveReservation (lk_owner l) v) as [[w state]|];
    [|intros; simplify_eq; apply moves_refl].
  destruct (CancelBeforeWrite (lk_owner l) w) as [o2 err2] eqn:E2.
  destruct state; [intros; simplify_eq; by eapply cancel_write_moves|..].
  all: destruct (current l); [apply close_terminal_moves|].
  all: intros; simplify_eq; apply owner_call_moves; by apply HP.
Qed.

Lemma abandon_written_moves l v result c d l' tr errs :
  abandon_written l v result c d = (l', tr, errs) -> moves P (lk_owner l) (lk_owner l') [].
Proof.
  unfold abandon_written. case_test; [|intros; simplify_eq; apply moves_refl].
  destruct (AbandonAfterWrite _ _ _) as [o1 [t1 e1]] eqn:E. intros; simplify_eq.
  by eapply abandon_moves.
Qed.

Lemma close_written_moves l b others l' tr errs :
  Forall (allowed P) others -> close_written l b others = (l', tr, errs) ->
  moves P (lk_owner l) (lk_owner l') [].
Proof.
  intros Ha. unfold close_written. destruct b; [|intros; simplify_eq; apply moves_refl].
  intros E%close_terminal_moves. eapply moves_trans_l; [|exact E].
  match goal with |- context [meanwhile ?a others] => exact (meanwhile_moves others a Ha) end.
Qed.

End Moves.

(** ** Any operation *)

Definition any_op (op : owner_op) : Prop := True.

Abbreviation reaches := (moves any_op).

Lemma any_settling op : settling op -> any_op op.
Proof. done. Qed.

Lemma any_allowed others : Forall (allowed any_op) others.
Proof. apply Forall_true. by intros []. Qed.

#[local] Hint Resolve any_settling any_allowed : core.

Definition reaches_refl := moves_refl any_op.
Definition reaches_trans := moves_trans any_op.
Definition reaches_trans_l := moves_trans_l any_op.
Definition reaches_trans_r := moves_trans_r any_op.
Definition reaches_correlate := moves_correlate any_op any_settling.
Definition cancel_write_reaches := cancel_write_moves any_op any_settling.
Definition abandon_reaches := abandon_moves any_op any_settling.
Definition fail_transport_reaches := fail_transport_moves any_op any_settling.
Definition close_terminal_reaches := close_terminal_moves any_op any_settling.

Definition release_pre_write_reaches := release_pre_write_moves any_op any_settling.
Definition abandon_written_reaches := abandon_written_moves any_op any_settling.

Lemma close_written_reaches l b others l' tr errs :
  close_written l b others = (l', tr, errs) -> reaches (lk_owner l) (lk_owner l') [].
Proof. apply close_written_moves; [done|apply any_allowed]. Qed.

Lemma reaches_op op o : reaches o (fst (run_op o op)) [].
Proof. by apply moves_op. Qed.

Lemma owner_call_reaches l op : reaches (lk_owner l) (lk_owner (owner_call l op)) [].
Proof. by apply owner_call_moves. Qed.

Lemma interfere_reaches l i : reaches (lk_owner l) (lk_owner (interfere l i)) [].
Proof. apply interfere_moves; [done|]. by destruct i. Qed.

Lemma meanwhile_reaches others l : reaches (lk_owner l) (lk_owner (meanwhile l others)) [].
Proof. apply meanwhile_moves; [done|apply any_allowed]. Qed.

Lemma begin_locked_reaches g o t d r g' o' v :
  beginWriteLocked g o t d r = (g', o', v) -> reaches o o' [].
Proof.
  unfold beginWriteLocked. case_test; [intros; simplify_eq; apply reaches_refl|]. cbv zeta.
  destruct (match t with Some _ => _ | None => _ end); [intros; simplify_eq; apply reaches_refl|].
  destruct d, r; try (intros; simplify_eq; apply reaches_refl).
  destruct (cr_reservation g) as [w|]; [|intros; simplify_eq; apply reaches_refl].
  pose proof (reaches_op (OpMarkWriteInvoked w) o) as H. cbn in H.
  destruct (MarkWriteInvoked o w) as [o1 [err|]]; intros; simplify_eq; exact H.
Qed.

(** ** Writes *)

Lemma transmit_reaches o v result d o' r : recordTransmitUntil o v result d = (o', r) -> reaches o o' [].
Proof. intros E. pose proof (reaches_op (OpTransmit v result d) o) as H. cbn in H. by rewrite E in H. Qed.

Lemma perform_write_reaches l op v adu e l' tr errs :
  performInvokedWrite l op v adu e = (l', tr, errs) -> reaches (lk_owner l) (lk_owner l') [].
Proof.
  unfold performInvokedWrite. cbv zeta. pose proof (meanwhile_reaches (we_during e) l) as H0.
  set (l0 := meanwhile l (we_during e)) in *.
  destruct (markReturn _ _ _) as [t1 op1]. destruct (stopAndJoin _ _ _) as [t2 op2].
  destruct (match responseWaitDeadline _ _ _ with Ok _ => _ | Err _ => _ end) as [d de].
  destruct (recordTransmitUntil _ _ _ _) as [o1 [tr1 re]] eqn:E1. apply transmit_reaches in E1.
  match goal with |- context [meanwhile ?a (we_recorded e)] =>
    pose proof (meanwhile_reaches (we_recorded e) a) as H2; set (l1 := meanwhile a _) in * end.
  destruct (abandon_written _ _ _ _ _) as [[l2 tr2] ae] eqn:E2. apply abandon_written_reaches in E2.
  destruct (close_written _ _ _) as [[l3 tr3] ce] eqn:E3. apply close_written_reaches in E3.
  assert (H : reaches (lk_owner l) (lk_owner l3) []).
  { eapply reaches_trans_l; [exact H0|]. eapply reaches_trans_l; [exact E1|].
    eapply reaches_trans_l; [exact H2|]. by eapply reaches_trans_l. }
  case_test; intros; by simplify_eq.
Qed.

Lemma enter_write_reaches l op e l' op' errs :
  enter_write l op e = (l', op', errs) -> reaches (lk_owner l) (lk_owner l') [].
Proof.
  unfold enter_write. cbv zeta. pose proof (meanwhile_reaches (we_waiting e) l) as H0.
  destruct (acquireOperationGate _ _ _) as [[t op1] errs1].
  case_test; [intros; simplify_eq; exact H0|].
  match goal with |- context [meanwhile ?a (we_held e)] =>
    pose proof (meanwhile_reaches (we_held e) a) as H1 end.
  pose proof (reaches_trans_l _ _ _ _ H0 H1) as H2.
  destruct (negb (current _)); [intros; by simplify_eq|].
  destruct (preInvocationError _ _ _) as [[t2 op2] errs2]. intros; by simplify_eq.
Qed.

Lemma fail_pre_write_reaches l op v errs e l' tr errs' :
  fail_pre_write l op v errs e = (l', tr, errs') -> reaches (lk_owner l) (lk_owner l') [].
Proof.
  unfold fail_pre_write. destruct (releasePreWrite l v) as [[l1 t1] e1] eqn:E.
  intros; simplify_eq. by apply release_pre_write_reaches in E.
Qed.

(** The mark of an invocation reaches, so its invocation does. *)
Lemma begin_reaches t op mark identify l p t' op' l' errs :
  (forall l, reaches (lk_owner l) (lk_owner (fst (mark l))) []) ->
  beginInvocation t op mark identify l p = (t', op', l', errs) -> reaches (lk_owner l) (lk_owner l') [].
Proof.
  intros Hm. unfold beginInvocation, begin_locked. destruct (observeLimits _ _ _) as [t1 op1].
  case_test; [intros; simplify_eq; apply reaches_refl|]. specialize (Hm l).
  destruct (mark l) as [l1 e1]. case_test; intros; by simplify_eq.
Qed.

Lemma mark_write_reaches v l : reaches (lk_owner l) (lk_owner (fst (mark_write v l))) [].
Proof.
  unfold mark_write. pose proof (reaches_op (OpMarkWriteInvoked v) (lk_owner l)) as H. cbn in H.
  by destruct (MarkWriteInvoked _ _).
Qed.

Lemma write_reservation_reaches l v d id e l' tr errs :
  writeReservationUntil l v d id e = (l', tr, errs) -> reaches (lk_owner l) (lk_owner l') [].
Proof.
  unfold writeReservationUntil. destruct (reservation_identity _ _) as [w|];
    [|intros; simplify_eq; apply reaches_refl].
  unfold write_operation. destruct (newTCPTransportOperation _ _ _ _ _ _ _ _ _ _ _) as [t op].
  destruct (enter_write _ _ _) as [[l1 op1] e1] eqn:E1. apply enter_write_reaches in E1.
  case_test; [intros E; apply fail_pre_write_reaches in E; by eapply reaches_trans_l|].
  pose proof (meanwhile_reaches (we_checked e) l1) as H2. set (l2 := meanwhile l1 _) in *.
  assert (H02 : reaches (lk_owner l) (lk_owner l2) []) by (by eapply reaches_trans_l).
  destruct (prepared_adu _ _ _) as [adu|err].
  2:{ intros E; apply fail_pre_write_reaches in E; by eapply reaches_trans_l. }
  cbv zeta. match goal with |- context [meanwhile ?a (we_prepared e)] =>
    pose proof (meanwhile_reaches (we_prepared e) a) as H3; set (l3 := meanwhile a _) in * end.
  destruct (beginInvocation _ _ _ _ _ _) as [[[t4 op4] l4] e4] eqn:E4.
  apply begin_reaches in E4; [|apply mark_write_reaches].
  assert (H04 : reaches (lk_owner l) (lk_owner l4) []).
  { eapply reaches_trans_l; [exact H02|]. by eapply reaches_trans_l. }
  destruct (negb (is_nil e4)); intros E; [apply fail_pre_write_reaches in E|apply perform_write_reaches in E];
    by eapply reaches_trans_l.
Qed.

Lemma finish_write_failure_reaches l a : lk_owner (finish_write_failure l a) = lk_owner l.
Proof.
  unfold finish_write_failure. destruct (lk_groups l !! a); [|done]. case_test; [done|].
  destruct (finishWriteFailure _). cbn. unfold forget_written, forgetCoalesced. repeat case_test; done.
Qed.

Lemma mark_coalesced_reaches a d l : reaches (lk_owner l) (lk_owner (fst (mark_coalesced a d l))) [].
Proof.
  unfold mark_coalesced. destruct (lk_groups l !! a) as [g|]; [|apply reaches_refl].
  destruct (beginWriteLocked _ _ _ _ _) as [[g' o'] [v|err]] eqn:E; apply begin_locked_reaches in E; [done|].
  cbv zeta. unfold forgetCoalesced. repeat case_test; done.
Qed.

Lemma invoke_coalesced_reaches l op a e l' op' r :
  invoke_coalesced l op a e = (l', op', r) -> reaches (lk_owner l) (lk_owner l') [].
Proof.
  unfold invoke_coalesced. destruct (lk_groups l !! a) as [g|]; [|intros; simplify_eq; apply reaches_refl].
  destruct (reservationForTransportLocked _ _ _) as [[v|]|]; try (intros; simplify_eq; apply reaches_refl).
  destruct (encodeReservation _ _) as [[[adu|] w]|]; try (intros; simplify_eq; apply reaches_refl).
  cbv zeta. match goal with |- context [meanwhile ?a ?b] =>
    pose proof (meanwhile_reaches b a) as H3; set (l3 := meanwhile a b) in * end.
  destruct (beginInvocation _ _ _ _ _ _) as [[[t4 op4] l4] e4] eqn:E4.
  apply begin_reaches in E4; [|apply mark_coalesced_reaches]. intros; simplify_eq.
  eapply reaches_trans_l; [exact H3|exact E4].
Qed.

Lemma write_coalesced_reaches l a d f e l' tr errs :
  writeCoalescedUntil l a d f e = (l', tr, errs) -> reaches (lk_owner l) (lk_owner l') [].
Proof.
  unfold writeCoalescedUntil. case_test; [intros; simplify_eq; apply reaches_refl|].
  unfold write_operation. destruct (newTCPTransportOperation _ _ _ _ _ _ _ _ _ _ _) as [t op].
  destruct (enter_write _ _ _) as [[l1 op1] e1] eqn:E1. apply enter_write_reaches in E1. cbn in E1.
  destruct (negb (is_nil e1)).
  { destruct (FailTransport l1 a) as [l2 e2] eqn:E2. apply fail_transport_reaches in E2.
    intros; simplify_eq. by eapply reaches_trans_l. }
  cbv zeta. pose proof (meanwhile_reaches (we_checked e) l1) as H2. set (l2 := meanwhile l1 _) in *.
  destruct (invoke_coalesced _ _ _ _) as [[l3 op3] r] eqn:E3. apply invoke_coalesced_reaches in E3.
  assert (H3 : reaches (lk_owner l) (lk_owner l3) []).
  { eapply reaches_trans_l; [exact E1|]. by eapply reaches_trans_l. }
  destruct r as [[v adu]|[v e3]].
  - destruct (performInvokedWrite _ _ _ _ _) as [[l4 t4] e4] eqn:E4. apply perform_write_reaches in E4.
    assert (H4 : reaches (lk_owner l) (lk_owner l4) []) by (by eapply reaches_trans_l).
    case_test; [|intros; by simplify_eq].
    destruct (FailTransport _ a) as [l5 e5] eqn:E5. apply fail_transport_reaches in E5.
    rewrite finish_write_failure_reaches in E5. intros; simplify_eq. by eapply reaches_trans_l.
  - destruct (FailTransport l3 a) as [l4 e4] eqn:E4. apply fail_transport_reaches in E4.
    assert (H4 : reaches (lk_owner l) (lk_owner l4) []) by (by eapply reaches_trans_l).
    destruct v as [v|]; [|intros; by simplify_eq].
    destruct (releasePreWrite l4 v) as [[l5 t5] e5] eqn:E5. apply release_pre_write_reaches in E5.
    intros; simplify_eq. by eapply reaches_trans_l.
Qed.

(** ** Reads *)

Lemma expired_reaches o now o' r : abandonExpired o now = (o', r) -> reaches o o' [].
Proof. intros E. pose proof (reaches_op (OpAbandonExpired now) o) as H. cbn in H. by rewrite E in H. Qed.

Lemma forget_owner l id : lk_owner (forgetCoalesced l id) = lk_owner l.
Proof. unfold forgetCoalesced. by case_test. Qed.

Lemma correlate_frames_reaches frames l others responses errs l' responses' ended :
  correlate_frames l frames others responses errs = (l', responses', ended) ->
  exists out, responses' = responses ++ out /\ reaches (lk_owner l) (lk_owner l') out.
Proof.
  revert l others responses errs. induction frames as [|frame frames IH]; intros l others responses errs; cbn.
  { intros; simplify_eq. exists []. rewrite app_nil_r. split; [done|apply reaches_refl]. }
  pose proof (meanwhile_reaches (default [] (head others)) l) as H0.
  set (l0 := meanwhile l _) in *.
  destruct (Correlate _ _ _) as [o1 [response ce]] eqn:E1. apply reaches_correlate in E1.
  assert (H1 : reaches (lk_owner l) o1 [response]) by (by eapply reaches_trans_r).
  assert (Hstep : forall errs, correlate_frames (forgetCoalesced (l0 <| lk_owner := o1 |>) (wr_physicalRequestID response))
      frames (tail others) (responses ++ [response]) errs = (l', responses', ended) ->
    exists out, responses' = responses ++ out /\ reaches (lk_owner l) (lk_owner l') out).
  { intros errs' (out & -> & Hr)%IH. exists (response :: out). rewrite <- app_assoc. split; [done|].
    rewrite forget_owner in Hr. change (response :: out) with ([response] ++ out).
    by eapply reaches_trans. }
  case_test; [apply Hstep|]. case_test; [apply Hstep|]. intros; simplify_eq.
  exists []. rewrite app_nil_r, forget_owner. split; [done|].
  destruct H1 as (ops & Hp & E & _). exists ops. split; [done|]. split; [done|apply sublist_nil_l].
Qed.

(** A branch that ends by closing the transport. *)
Ltac ended_by_close :=
  let E := fresh in
  destruct (closeTerminal _) as [[? ?] ?] eqn:E; apply close_terminal_reaches in E;
  eapply reaches_trans_l; [|exact E].

(** A result whose responses were reached on the way to its link. *)
Definition read_reaches (o : owner) (r : link * read_result) : Prop :=
  reaches o (lk_owner r.1) (rd_responses r.2).

Lemma read_correlated_reaches l responses re ab tr ae ce dw rearmed e o :
  reaches o (lk_owner l) responses ->
  read_reaches o (read_correlated l responses re ab tr ae ce dw rearmed e).
Proof.
  intros H. unfold read_correlated. cbv zeta. pose proof (meanwhile_reaches (re_after e) l) as H1.
  set (l1 := meanwhile l _) in *. pose proof (reaches_trans_l _ _ _ _ H H1) as H2.
  set (closed := if ot_closeConnection tr then _ else _).
  assert (H3 : reaches o (lk_owner closed.1.1) responses).
  { subst closed. case_test; [|done]. destruct (closeTerminal l1) as [[l2 t2] e2] eqn:E2.
    apply close_terminal_reaches in E2. cbn. by eapply reaches_trans_l. }
  destruct closed as [[l2 tr2] ae2]. cbn in H3. unfold read_reaches. case_test; [done|]. case_test; [|done].
  destruct (closeTerminal l2) as [[l3 t3] e3] eqn:E3. apply close_terminal_reaches in E3.
  by eapply reaches_trans_l.
Qed.

Lemma read_returned_reaches l op e : read_reaches (lk_owner l) (read_returned l op e).
Proof.
  unfold read_returned, finishActiveRead. destruct (markReturn _ _ _) as [t1 op1].
  destruct (stopAndJoin _ _ _) as [t2 op2]. cbv zeta.
  destruct (match tr_activeRead _ with Some _ => _ | None => _ end) as [rearmed interrupted].
  set (l1 := with_active_read _ None). change (lk_owner l) with (lk_owner l1).
  set (resetErr := if (_ || _) && _ then _ else []). clearbody resetErr. unfold read_reaches.
  destruct (callerCancellationWonDuringIO op2); [ended_by_close; apply reaches_refl|].
  destruct (abandonExpired _ _) as [o2 [[ab tr2] ae]] eqn:E2. apply expired_reaches in E2.
  destruct (rearmed && _ && _ && _ && _ && _); [done|].
  destruct (decode_chunk _ _ _) as [[decoder frames] de].
  destruct (negb (is_nil de) || _); [by ended_by_close|].
  destruct (correlate_frames _ _ _ _ _) as [[l3 responses] ended] eqn:E3.
  apply correlate_frames_reaches in E3 as (out & -> & E3).
  pose proof (reaches_trans_r _ _ _ _ E2 E3) as H3. cbn [app] in *.
  destruct ended as [re|errs]; [by apply read_correlated_reaches|by ended_by_close].
Qed.

Lemma read_responses_reaches l d e : read_reaches (lk_owner l) (readResponsesUntil l d e).
Proof.
  unfold readResponsesUntil. destruct (re_context e); [apply reaches_refl|]. case_test.
  { unfold read_expired. destruct (abandonExpired _ _) as [o2 [[ab tr2] ae]] eqn:E2.
    apply expired_reaches in E2. case_test; [|done].
    destruct (closeTerminal _) as [[l3 t3] e3] eqn:E3. apply close_terminal_reaches in E3.
    by eapply reaches_trans_l. }
  destruct (newTCPTransportOperation _ _ _ _ _ _ _ _ _ _ _) as [t op]. cbv zeta.
  match goal with |- context [meanwhile ?a (re_waiting e)] =>
    pose proof (meanwhile_reaches (re_waiting e) a) as H1; set (l1 := meanwhile a _) in * end.
  change (lk_owner (l <| lk_timeline := t |>)) with (lk_owner l) in H1.
  destruct (acquireOperationGate _ _ _) as [[t1 op1] e1]. case_test.
  { unfold read_gate_failed. case_test; [|done].
    destruct (abandonExpired _ _) as [o2 [[ab tr2] ae]] eqn:E2. apply expired_reaches in E2.
    by eapply reaches_trans_l. }
  match goal with |- context [meanwhile ?a (re_held e)] =>
    pose proof (meanwhile_reaches (re_held e) a) as H2; set (l2 := meanwhile a _) in * end.
  pose proof (reaches_trans_l _ _ _ _ H1 H2) as H02. case_test; [done|].
  destruct (preInvocationError _ _ _) as [[t3 op3] e3]. case_test; [done|].
  match goal with |- context [meanwhile ?a (re_checked e)] =>
    pose proof (meanwhile_reaches (re_checked e) a) as H3; set (l3 := meanwhile a _) in * end.
  pose proof (reaches_trans_l _ _ _ _ H02 H3) as H03.
  destruct (beginInvocation _ _ _ _ _ _) as [[[t4 op4] u] e4]. case_test; [done|].
  match goal with |- context [meanwhile ?a (re_during e)] =>
    pose proof (meanwhile_reaches (re_during e) a) as H4; set (l4 := meanwhile a _) in * end.
  pose proof (reaches_trans_l _ _ _ _ H03 H4) as H04.
  pose proof (read_returned_reaches l4 op4 e) as H5. unfold read_reaches in *.
  by eapply reaches_trans_r.
Qed.

(** * Executions *)

Inductive transport_op : Type :=
| TransportWrite (reservation : TCPReservation) (deadlineOffset requestID : Z) (e : write_env)
| TransportWriteCoalesced (address deadlineOffset : Z) (fields : tcpEventFields) (e : write_env)
| TransportRead (deadlineOffset : Z) (e : read_env)
| TransportAbandon (reservation : TCPReservation) (reason : AbandonReason)
| TransportOther (i : interference).

(** The link after an operation, and the responses it returns. *)
Definition run_transport_op (l : link) (op : transport_op) : link * list WireResponse :=
  match op with
  | TransportWrite v d id e => ((writeReservationUntil l v d id e).1.1, [])
  | TransportWriteCoalesced a d f e => ((writeCoalescedUntil l a d f e).1.1, [])
  | TransportRead d e =>
      ((readResponsesUntil l d e).1, rd_responses (readResponsesUntil l d e).2)
  | TransportAbandon v reason => ((AbandonResponseWait l v reason).1, [])
  | TransportOther i => (interfere l i, [])
  end.

Fixpoint run_transport (l : link) (ops : list transport_op) : link * list WireResponse :=
  match ops with
  | [] => (l, [])
  | op :: ops =>
      let '(l, responses) := run_transport_op l op in
      let '(l, responses') := run_transport l ops in
      (l, responses ++ responses')
  end.

Lemma abandon_wait_reaches l v reason : reaches (lk_owner l) (lk_owner (AbandonResponseWait l v reason).1) [].
Proof.
  unfold AbandonResponseWait. destruct (AbandonAfterWrite (lk_owner l) v reason) as [o [transition err]] eqn:E.
  assert (H : reaches (lk_owner l) o []).
  { replace o with (fst (run_op (lk_owner l) (OpAbandon v reason))) by (cbn; by rewrite E). by apply moves_op. }
  case_test; [exact H|]. unfold closeBoundTransport. destruct (ow_boundTransport _); [|exact H].
  destruct (closeTerminal _) as [[l1 t1] e1] eqn:E1. apply close_terminal_reaches in E1. by eapply reaches_trans_r.
Qed.

Lemma run_transport_reaches ops l l' responses :
  run_transport l ops = (l', responses) -> reaches (lk_owner l) (lk_owner l') responses.
Proof.
  revert l l' responses. induction ops as [|op ops IH]; intros l l' responses; cbn -[run_transport_op].
  { intros; simplify_eq. apply reaches_refl. }
  destruct (run_transport_op l op) as [l1 rs1] eqn:E1.
  destruct (run_transport l1 ops) as [l2 rs2] eqn:E2. intros; simplify_eq.
  eapply reaches_trans; [|by apply IH]. destruct op as [v d id e|a d f e|d e|v reason|i]; cbn in E1.
  - destruct (writeReservationUntil l v d id e) as [[l3 t3] e3] eqn:E3. simplify_eq. cbn.
    by eapply write_reservation_reaches.
  - destruct (writeCoalescedUntil l a d f e) as [[l3 t3] e3] eqn:E3. simplify_eq. cbn.
    by eapply write_coalesced_reaches.
  - injection E1 as <- <-. apply read_responses_reaches.
  - injection E1 as <- <-. apply abandon_wait_reaches.
  - injection E1 as <- <-. apply interfere_reaches.
Qed.

Lemma delivered_sublist rs rs' : rs `sublist_of` rs' -> delivered rs `sublist_of` delivered rs'.
Proof.
  unfold delivered. induction 1 as [|x rs rs' H IH|x rs rs' H IH]; [constructor|..];
    rewrite ?filter_cons; repeat case_decide; cbn; by try constructor.
Qed.

Lemma sublist_NoDup {X : Type} (k l : list X) : k `sublist_of` l -> NoDup l -> NoDup k.
Proof.
  induction 1 as [|x k l H IH|x k l H IH]; intros Hn; [done|..]; apply NoDup_cons in Hn as [Hx Hn].
  - apply NoDup_cons. split; [|by apply IH]. intros Hk. apply Hx. by eapply elem_of_sublist.
  - by apply IH.
Qed.

(** C3: Over any life of a link - writes of single and coalesced reservations, reads and
    abandoned waits, with whatever their sockets answer, whenever their deadlines and cancellations
    strike, and with any calls of other threads on the owner, its groups and the
    transport in between - the transport changes its owner only by the owner's own
    operations, so the owner's invariant holds at the end, and a physical request
    satisfies its waiter at most once. *)
Theorem transport_delivers_once self endpoint generation limits l ops l' responses :
  newTCPConnectionOwner self endpoint generation limits = Ok (lk_owner l) ->
  run_transport l ops = (l', responses) ->
  owner_ok (lk_owner l') /\ NoDup (delivered responses).
Proof.
  intros Hn Hr. apply new_owner_inv in Hn. pose proof (run_transport_reaches _ _ _ _ Hr) as Hm.
  split; [by eapply moves_ok|]. destruct Hm as (ops' & _ & _ & Hs).
  eapply sublist_NoDup; [by apply delivered_sublist|]. by apply run_ops_delivered.
Qed.

Definition demo_socket : link :=
  {| lk_owner := demo_owner;
     lk_transport :=
       {| tr_self := 7; tr_socketIdentity := 70;
          tr_decoder := with_buffer demo_decoder []; tr_readBufferSize := 260; tr_activeRead := None;
          tr_pendingReadRearm := false; tr_generation := 1; tr_requestDeadline := 1000;
          tr_responseDeadline := 1000; tr_closed := false; tr_closeFailures := []; tr_coalesced := ∅ |};
     lk_timeline := newTCPEndpointTimeline "plc" "clock" None; lk_groups := ∅; lk_claims := {[70 := 7]};
     lk_closeErr := []; lk_finish := fun _ _ => []; lk_finished := []; lk_slots := 0; lk_reconnects := 0 |}.

Definition demo_point (now : Z) : point := mkPoint [] None now [].

(** A write whose socket takes [written] bytes, at times before 100. *)
Definition demo_write (written : Z) : write_env :=
  {| we_armedAt := 1; we_created := demo_point 2; we_waiting := []; we_gate := demo_point 3; we_held := [];
     we_pre := demo_point 4; we_checked := [MeanwhileOwner (OpReserveRead 17 demo_read 0)];
     we_preparedAt := 5; we_prepared := []; we_begin := demo_point 6; we_dispatch := None;
     we_during := [MeanwhileOwner OpDrain]; we_written := written; we_writeErr := [];
     we_return := demo_point 7; we_join := demo_point 8; we_setDeadline := true; we_resetErr := [];
     we_now := 9; we_recordedAt := 9; we_recorded := []; we_closing := [] |}.

(** A read that finds [data] on the socket. *)
Definition demo_read_env (data : list Z) : read_env :=
  {| re_context := None; re_startedAt := 20; re_expiredAt := 20; re_armedAt := 20; re_created := demo_point 21;
     re_waiting := []; re_gate := demo_point 22; re_gateExpiredAt := 22; re_held := []; re_pre := demo_point 23;
     re_checked := []; re_begin := demo_point 24; re_during := []; re_data := data; re_readErr := [];
     re_returnedAt := 25; re_return := demo_point 25; re_join := demo_point 26; re_setDeadline := true;
     re_resetErr := []; re_frames := []; re_after := [] |}.

(** A read is reserved, written and answered twice in one chunk. *)
Definition demo_transport_ops : list transport_op :=
  [ TransportOther (MeanwhileOwner (OpReserveRead 17 demo_read 0));
    TransportOther (MeanwhileOwner (OpBind 7));
    TransportWrite demo_reservation 100 5 (demo_write 12);
    TransportRead 100 (demo_read_env (ta_raw demo_adu ++ ta_raw demo_adu)) ].

Lemma transport_delivers_once_witness :
  let r := run_transport demo_socket demo_transport_ops in
  wr_outcome <$> r.2 = [WireSuccessfulData; WireDroppedUncorrelated] /\ delivered r.2 = [1] /\ NoDup (delivered r.2).
Proof.
  split; [vm_compute; reflexivity|]. split; [vm_compute; reflexivity|].
  apply (transport_delivers_once 100 "plc" 1 {| cl_MaxInFlight := 4; cl_MaxTombstones := 2 |} demo_socket
           demo_transport_ops (run_transport demo_socket demo_transport_ops).1).
  - reflexivity.
  - by destruct (run_transport demo_socket demo_transport_ops).
Defined.
