(* ===== verification/TcpWriteFacts.v ===== *)
(** A write of the transport and its request: a write that fails, wherever it fails and
    whatever other threads do meanwhile, never leaves its request in flight; a write that
    succeeds sent the whole encoding of the request before any limit. *)

From S2P Require Import Prelude Pdu DeviceId DeviceIdTolerant TcpAdu TcpOwner TcpOwnerFacts Coalescing TcpTimeline TcpOperation TcpOperationFacts TcpTransport TcpTransportFacts.

(** * Calls that leave a request to its writer *)

(** Only the thread that writes the physical request [p] marks it and records its
    transmission, and no thread binds the transport [self] again. *)
Definition quiet (p self : Z) (op : owner_op) : Prop :=
  match op with
  | OpMarkWriteInvoked w | OpTransmit w _ _ => tv_physicalRequestID w <> p
  | OpBind t => t <> self
  | _ => True
  end.

(** What a call does to the entry of [p]: it stays as it was, with its binding, or goes. *)
Record keeps (p self : Z) (o o' : owner) : Prop := mk_keeps {
  kp_self : ow_self o' = ow_self o;
  kp_bound : ow_boundTransport o' = Some self -> ow_boundTransport o = Some self;
  kp_entry : forall i r', ow_inFlight o' !! i = Some r' -> or_physicalRequestID r' = p ->
    exists r, ow_inFlight o !! i = Some r /\ or_physicalRequestID r = p /\
      or_generation r' = or_generation r /\ or_state r' = or_state r /\
      (ow_boundTransport o = Some self -> ow_boundTransport o' = Some self)
}.

Lemma entry_refl p self o : keeps p self o o.
Proof. split; [done|done|]. intros i r' Hi Hp. by exists r'. Qed.

Lemma entry_trans p self o1 o2 o3 : keeps p self o1 o2 -> keeps p self o2 o3 -> keeps p self o1 o3.
Proof.
  intros [S1 B1 E1] [S2 B2 E2]. split; [congruence|tauto|].
  intros i r3 H3 Hp. destruct (E2 _ _ H3 Hp) as (r2 & H2 & Hp2 & Hg2 & Hs2 & Hb2).
  destruct (E1 _ _ H2 Hp2) as (r1 & H1 & Hp1 & Hg1 & Hs1 & Hb1).
  exists r1. conj; [done|done|congruence|congruence|tauto].
Qed.

Lemma keeps_sub p self o o' :
  ow_self o' = ow_self o -> ow_boundTransport o' = ow_boundTransport o ->
  ow_inFlight o' ⊆ ow_inFlight o -> keeps p self o o'.
Proof.
  intros Es Eb Hsub. split; [done|by rewrite Eb|]. intros i r' Hi Hp. exists r'.
  rewrite Eb. conj; [by eapply lookup_weaken|done..].
Qed.

Lemma keeps_empty p self o o' :
  ow_self o' = ow_self o -> ow_boundTransport o' = None \/ ow_boundTransport o' = ow_boundTransport o ->
  ow_inFlight o' = ∅ -> keeps p self o o'.
Proof.
  intros Es Eb Hi. split; [done| |].
  - destruct Eb as [Eb|Eb]; rewrite Eb; done.
  - intros i r'. by rewrite Hi, lookup_empty.
Qed.

(** Storing a request over one that differs only in what [p] does not see. *)
Lemma keeps_store p self o r r' :
  ow_inFlight o !! or_transactionID r' = Some r ->
  (or_physicalRequestID r' = p ->
     or_physicalRequestID r = p /\ or_generation r' = or_generation r /\ or_state r' = or_state r) ->
  keeps p self o (store_request r' o).
Proof.
  intros Hr He. split; [done|done|]. cbn. intros i s [[<- <-]|[Hne Hs]]%lookup_insert_Some Hp.
  - destruct (He Hp) as (H1 & H2 & H3). by exists r.
  - by exists s.
Qed.

Ltac keep_sub :=
  first [ apply entry_refl
        | apply keeps_sub; [reflexivity|reflexivity|cbn; apply delete_subseteq]
        | apply keeps_sub; [reflexivity|reflexivity|cbn; reflexivity]
        | apply keeps_empty; [reflexivity|by (left + right)|reflexivity] ].

Lemma keeps_rewind p self o o' id : keeps p self o o' -> keeps p self o (rewindAllocator id o').
Proof. intros H. eapply entry_trans; [exact H|]. unfold rewindAllocator. case_test; keep_sub. Qed.

Lemma close_ambiguous_keeps p self o r :
  ow_inFlight o !! or_transactionID r = Some r -> keeps p self o (fst (close_ambiguous o r)).
Proof.
  intros Hr. rewrite close_ambiguous_spec by done. cbn [fst]. apply keeps_empty; [done|by right|].
  cbn. done.
Qed.

Lemma transmit_keeps p self o v result d :
  owner_ok o -> tv_physicalRequestID v <> p -> keeps p self o (fst (recordTransmitUntil o v result d)).
Proof.
  intros Ho Hv. unfold recordTransmitUntil.
  destruct (ow_earlyCompletions o !! _); [case_test; keep_sub|].
  destruct (requestFor _ _ _) as [r|] eqn:E; [|keep_sub].
  pose proof (requestFor_ok _ _ _ _ E) as (_ & Ep & _). apply requestFor_lookup in E as [E _]; [|done].
  pose proof (close_ambiguous_keeps p self o r E) as Hc.
  destruct result; try (by destruct (close_ambiguous o r)); cbn [fst]; try keep_sub.
  - apply keeps_rewind. keep_sub.
  - apply (keeps_store _ _ _ r); [by case_test|]. intros Hp. exfalso. apply Hv. rewrite <- Ep, <- Hp. by case_test.
Qed.

Lemma transmit_bound o v result d :
  owner_ok o -> ow_boundTransport (fst (recordTransmitUntil o v result d)) = ow_boundTransport o.
Proof.
  intros Ho. unfold recordTransmitUntil. destruct (ow_earlyCompletions o !! _); [by case_test|].
  destruct (requestFor _ _ _) as [r|] eqn:E; [|done]. apply requestFor_lookup in E as [E _]; [|done].
  destruct result; try rewrite (close_ambiguous_spec o r E); try done.
  unfold rewindAllocator. by case_test.
Qed.

Lemma expired_keeps p self o candidates expired :
  keeps p self o (fst (expire_loop o candidates expired)).
Proof.
  revert o expired. induction candidates as [|r candidates IH]; intros o expired; [apply entry_refl|].
  cbn [expire_loop]. cbv zeta. case_test.
  - rewrite failAll_spec. cbn [fst]. keep_sub.
  - eapply entry_trans; [|apply IH]. unfold addTombstone. case_test; keep_sub.
Qed.

Lemma abandon_keeps p self o v reason : owner_ok o -> keeps p self o (fst (AbandonAfterWrite o v reason)).
Proof.
  intros Ho. unfold AbandonAfterWrite. case_test; [keep_sub|].
  destruct (requestFor o v requestWaiting) as [r|] eqn:E.
  - apply requestFor_lookup in E as [E _]; [|done]. case_test.
    + rewrite (failAllExcept_spec _ _ r) by done. apply keeps_empty; [done|by right|].
      apply delete_singleton_eq.
    + unfold addTombstone. case_test; keep_sub.
  - destruct (requestFor o v requestWriteInvoked) as [r|] eqn:E'; [|keep_sub].
    apply requestFor_lookup in E' as [E' _]; [|done].
    pose proof (close_ambiguous_keeps p self o r E'). by destruct (close_ambiguous o r).
Qed.

Lemma diagnostic_keeps p self o generation adu : keeps p self o (fst (newDiagnosticFrame o generation adu)).
Proof. unfold newDiagnosticFrame. case_test; keep_sub. Qed.

Lemma correlate_keeps p self o generation adu : keeps p self o (fst (Correlate o generation adu)).
Proof.
  pose proof (diagnostic_keeps p self o generation adu) as Hd.
  assert (Htomb : keeps p self o (fst (correlate_tombstone o generation adu))).
  { unfold correlate_tombstone. destruct (tombstone_for _ _); [|done]. case_test; [done|].
    destruct (validateOwnedResponse _ _); [keep_sub|]. case_test; keep_sub. }
  unfold Correlate. case_test; [done|]. case_test.
  { pose proof (diagnostic_keeps p self (set_closed true o) generation adu) as Hc.
    destruct (newDiagnosticFrame (set_closed true o) generation adu) as [o1 [response errs]]. cbn [fst] in *.
    eapply entry_trans; [|exact Hc]. keep_sub. }
  destruct (ow_inFlight o !! _) as [r|]; [|done]. case_test; [|done]. case_test; [done|].
  pose proof (correlateActive_owner o r adu) as Ea.
  destruct (correlateActive o r adu) as [o' result]. cbn [fst] in Ea. subst o'. case_test; keep_sub.
Qed.

Lemma reserve_keeps p self o unit kind read dev dec deadline :
  owner_ok o -> p < physical_bound o ->
  keeps p self o (fst (reserve o unit kind read dev dec deadline)).
Proof.
  intros Ho Hp. unfold reserve. repeat (case_test; [keep_sub|]).
  destruct (allocate_spec o Ho) as (next & [id|] & -> & _ & Hs); [|keep_sub].
  cbn [ow_nextPhysicalRequestID set_nextTransactionID].
  destruct (ow_nextPhysicalRequestID o =? 0) eqn:E0; [keep_sub|]. cbn [fst].
  split; [done|done|]. cbn. unfold physical_bound in Hp. rewrite E0 in Hp.
  intros i s [[<- <-]|[_ Hi]]%lookup_insert_Some Hs'; [cbn in Hs'; lia|]. by exists s.
Qed.

Lemma run_op_keeps p self o op :
  owner_ok o -> p < physical_bound o -> quiet p self op -> keeps p self o (fst (run_op o op)).
Proof.
  intros Ho Hp Hq. destruct op; cbn [run_op fst].
  - unfold reserveReadUntil. destruct (validateReadRegistersRequest _); [keep_sub|by apply reserve_keeps].
  - unfold reserveDeviceIDUntil. destruct (validateDeviceIDRequest _); [keep_sub|].
    case_test; [keep_sub|by apply reserve_keeps].
  - unfold CancelBeforeWrite. destruct (requestFor _ _ _); [|keep_sub]. apply keeps_rewind. keep_sub.
  - unfold replaceReservedRead. destruct (validateReadRegistersRequest _); [keep_sub|].
    destruct (requestFor _ _ _) as [r|] eqn:E; [|keep_sub]. case_test; [keep_sub|].
    apply requestFor_lookup in E as [E _]; [|done]. by apply (keeps_store _ _ _ r).
  - unfold MarkWriteInvoked. destruct (requestFor _ _ _) as [r|] eqn:E; [|keep_sub].
    pose proof (requestFor_ok _ _ _ _ E) as (_ & Ep & _).
    apply requestFor_lookup in E as [E _]; [|done]. apply (keeps_store _ _ _ r); [done|].
    cbn in Hq |- *. intros Hr. exfalso. by rewrite Ep in Hr.
  - by apply transmit_keeps.
  - unfold abandonExpired. case_test; [keep_sub|]. apply expired_keeps.
  - by apply abandon_keeps.
  - cbn. keep_sub.
  - apply correlate_keeps.
  - unfold bindTransport. case_test; [keep_sub|]. bool_hyps. cbn in Hq. cbn [fst].
    split; [done|cbn; intros [= ->]; done|]. cbn. intros i r Hi Hr. exists r.
    conj; try done. intros Hb. exfalso. apply H0. by rewrite Hb.
  - unfold loseTransport. case_test; [keep_sub|]. rewrite failAll_spec. case_test; keep_sub.
  - unfold Close. rewrite failAll_spec. keep_sub.
  - unfold retire. rewrite failAll_spec. keep_sub.
  - unfold Reconnect. case_test; [keep_sub|].
    match goal with |- context [if ?b =? 0 then _ else _] => destruct (b =? 0) end; keep_sub.
  - keep_sub.
Qed.

Lemma moves_keeps p self o o' out :
  moves (quiet p self) o o' out -> owner_ok o -> p < physical_bound o ->
  keeps p self o o' /\ owner_ok o' /\ p < physical_bound o'.
Proof.
  intros (ops & Hq & <- & _). clear out. revert o. induction ops as [|op ops IH]; intros o Ho Hp.
  { split; [apply entry_refl|done]. }
  apply Forall_cons in Hq as [Hop Hq]. cbn.
  pose proof (run_op_keeps p self o op Ho Hp Hop) as Hk. pose proof (run_op_inv o op Ho) as Ho1.
  destruct (run_op_advances o op Ho) as [Hb _].
  destruct (run_op o op) as [o1 rs]. cbn [fst] in *.
  destruct (IH Hq o1 Ho1 ltac:(lia)) as (Hk1 & Ho2 & Hp2). destruct (run_ops o1 ops) as [o2 rs2].
  split; [by eapply entry_trans|done].
Qed.

Lemma quiet_settling p self op : settling op -> quiet p self op.
Proof. by destruct op. Qed.

(** * The request of a write *)

Section Held.
Context (v : TCPReservation) (self : Z).

Abbreviation p := (tv_physicalRequestID v).

(** The request, if it is still in flight, is where the reservation says, in the state
    [st]; and while [bound], its transport is still the owner's. *)
Record held (st : requestState) (bound : Prop) (o : owner) : Prop := mk_held {
  hd_ok : owner_ok o;
  hd_self : ow_self o = tv_owner v;
  hd_past : p < physical_bound o;
  hd_entry : forall i r, ow_inFlight o !! i = Some r -> or_physicalRequestID r = p ->
    i = tv_transactionID v /\ or_generation r = tv_generation v /\ or_state r = st /\
    (bound -> ow_boundTransport o = Some self)
}.

(** The request is no longer in flight. *)
Definition gone (o : owner) : Prop := owner_ok o /\ ow_self o = tv_owner v /\ p < physical_bound o /\ ~ live o p.

Lemma gone_held st bound o : gone o -> held st bound o.
Proof. intros (Ho & Hs & Hp & Hl). split; try done. intros i r Hi Hr. exfalso. apply Hl. by exists i, r. Qed.

Lemma held_moves st bound o o' out :
  moves (quiet p self) o o' out -> held st bound o -> held st bound o'.
Proof.
  intros Hm [Ho Hs Hp He]. destruct (moves_keeps _ _ _ _ _ Hm Ho Hp) as ([Ks Kb Ke] & Ho' & Hp').
  split; [done|congruence|done|]. intros i r' Hi Hr'.
  destruct (Ke _ _ Hi Hr') as (r & Hr & Hrp & Hg & Hst & Hb).
  destruct (He _ _ Hr Hrp) as (H1 & H2 & H3 & H4). conj; [done|congruence|congruence|tauto].
Qed.

Lemma gone_moves o o' out : moves (quiet p self) o o' out -> gone o -> gone o'.
Proof.
  intros Hm (Ho & Hs & Hp & Hl). destruct (moves_keeps _ _ _ _ _ Hm Ho Hp) as ([Ks Kb Ke] & Ho' & Hp').
  split; [done|]. split; [congruence|]. split; [done|]. intros (i & r' & Hi & Hr').
  destruct (Ke _ _ Hi Hr') as (r & Hr & Hrp & _). apply Hl. by exists i, r.
Qed.

(** A request the owner cannot find for its reservation is gone, whatever its state. *)
Lemma held_missing st bound o err : held st bound o -> requestFor o v st = Err err -> gone o.
Proof.
  intros [Ho Hs Hp He] Hr. split; [done|]. split; [done|]. split; [done|]. intros (i & r & Hi & Hrp).
  destruct (He _ _ Hi Hrp) as (-> & Hg & Hst & _).
  pose proof (ok_inFlight o Ho _ _ Hi) as (_ & _ & Hgen & _). revert Hr. unfold requestFor.
  rewrite <- Hs, Z.eqb_refl, <- Hgen, Hg, Z.eqb_refl, Hi. cbn. rewrite Hrp, Hst, Z.eqb_refl.
  destruct (ow_closed o); cbn; rewrite ?bool_decide_eq_true_2 by done; done.
Qed.

Lemma held_found st o r :
  owner_ok o -> requestFor o v st = Ok r -> held st False o.
Proof.
  intros Ho Hr. pose proof (requestFor_ok _ _ _ _ Hr) as (Hl & Hp & Hst & Hs & Hg).
  pose proof (ok_inFlight o Ho _ _ Hl) as (_ & _ & Hgen & Hb).
  split; [done|done|lia|]. intros i s Hi Hsp.
  assert (i = tv_transactionID v) as -> by (eapply (ok_phys o Ho); [done..|congruence]).
  rewrite Hl in Hi. injection Hi as <-. conj; [done|congruence|done|done].
Qed.

Lemma held_bound st (bound bound' : Prop) o :
  held st bound o -> (bound' -> ow_boundTransport o = Some self) -> held st bound' o.
Proof. intros [Ho Hs Hp He] Hb. split; try done. intros i r Hi Hr. destruct (He _ _ Hi Hr) as (?&?&?&_). done. Qed.

Lemma held_weaken st (bound bound' : Prop) o : held st bound o -> (bound' -> bound) -> held st bound' o.
Proof.
  intros [Ho Hs Hp He] Hb. split; try done. intros i r Hi Hr. destruct (He _ _ Hi Hr) as (?&?&?&?).
  conj; try done. tauto.
Qed.

(** Removing the request's entry removes it. *)
Lemma gone_dropped st bound o o' :
  held st bound o -> keeps p self o o' -> owner_ok o' -> p < physical_bound o' ->
  ow_inFlight o' !! tv_transactionID v = None -> gone o'.
Proof.
  intros [Ho Hs Hp He] [Ks Kb Ke] Ho' Hp' Hn. split; [done|]. split; [congruence|]. split; [done|].
  intros (i & r' & Hi & Hr'). destruct (Ke _ _ Hi Hr') as (r & Hr & Hrp & _).
  destruct (He _ _ Hr Hrp) as (-> & _). congruence.
Qed.

(** ** The steps of the writer *)

Lemma held_cancelled bound o o' err :
  held requestReserved bound o -> CancelBeforeWrite o v = (o', err) -> gone o'.
Proof.
  intros Hh E. pose proof (cancel_inv o v (hd_ok _ _ _ Hh)) as Ho'.
  destruct (run_op_advances o (OpCancel v) (hd_ok _ _ _ Hh)) as [Hb _]. cbn in Hb.
  pose proof (run_op_keeps p self o (OpCancel v) (hd_ok _ _ _ Hh) (hd_past _ _ _ Hh) I) as Hk. cbn in Hk.
  rewrite E in Ho', Hb, Hk. cbn in *. revert E. unfold CancelBeforeWrite.
  destruct (requestFor o v requestReserved) as [r|e] eqn:Er.
  - intros [= Eo _]. eapply gone_dropped; [exact Hh|exact Hk|done|pose proof (hd_past _ _ _ Hh); lia|].
    apply requestFor_lookup in Er as [_ Et]; [|apply Hh]. rewrite <- Eo, <- Et.
    unfold rewindAllocator. case_test; cbn; apply lookup_delete_eq.
  - intros [= <- _]. by eapply held_missing.
Qed.

Lemma held_marked bound o o' err :
  held requestReserved bound o -> MarkWriteInvoked o v = (o', err) ->
  match err with None => held requestWriteInvoked bound o' | Some _ => o' = o end.
Proof.
  intros Hh E. pose proof (mark_inv o v (hd_ok _ _ _ Hh)) as Ho'. rewrite E in Ho'. cbn in Ho'.
  revert E. unfold MarkWriteInvoked. destruct (requestFor o v requestReserved) as [r|e] eqn:Er;
    [|by intros [= <- <-]].
  intros [= <- <-]. destruct Hh as [Ho Hs Hp He]. split; try done. cbn.
  intros i s [[<- <-]|[Hne Hi]]%lookup_insert_Some Hsp.
  - pose proof (requestFor_lookup _ _ _ _ Ho Er) as [Hl _].
    destruct (He _ _ Hl Hsp) as (? & ? & _ & ?). done.
  - exfalso. apply Hne. pose proof (requestFor_lookup _ _ _ _ Ho Er) as [Hl _].
    apply requestFor_ok in Er as (_ & Hrp & _). cbn in *. apply (ok_phys o Ho _ _ _ _ Hl Hi). congruence.
Qed.

Lemma gone_closed_ambiguous bound st o r :
  held st bound o -> ow_inFlight o !! or_transactionID r = Some r -> gone (fst (close_ambiguous o r)).
Proof.
  intros Hh Hr. eapply gone_dropped; [exact Hh|by apply close_ambiguous_keeps| | |].
  - apply close_ambiguous_inv; [apply Hh|done].
  - rewrite close_ambiguous_spec by done. exact (hd_past _ _ _ Hh).
  - rewrite close_ambiguous_spec by done. cbn. apply lookup_empty.
Qed.

(** The results [classifyNetWrite] gives. *)
Definition classified (result : TransmitResult) : Prop :=
  match result with TransmitOther _ => False | _ => True end.

Lemma held_recorded bound o result d o' tr err :
  held requestWriteInvoked bound o -> classified result ->
  recordTransmitUntil o v result d = (o', (tr, err)) ->
  held requestWaiting bound o' /\ (result <> TransmitComplete \/ err <> None -> gone o').
Proof.
  intros Hh Hc E. pose proof (transmit_inv o v result d (hd_ok _ _ _ Hh)) as Ho'.
  rewrite E in Ho'. cbn in Ho'.
  assert (Hgone : gone o' -> held requestWaiting bound o' /\ (result <> TransmitComplete \/ err <> None -> gone o')).
  { intros Hg. split; [by apply gone_held|done]. }
  revert E. unfold recordTransmitUntil.
  destruct (ow_earlyCompletions o !! p) as [t|] eqn:Ee.
  { assert (Hl : ~ live o p).
    { intros (i & r & Hi & Hr). by eapply (ok_early o (hd_ok _ _ _ Hh)). }
    pose proof (hd_past _ _ _ Hh). pose proof (hd_self _ _ _ Hh).
    case_test; intros [= <- <- <-]; apply Hgone; done. }
  destruct (requestFor o v requestWriteInvoked) as [r|e] eqn:Er.
  2:{ intros [= <- <- <-]. apply Hgone. by eapply held_missing. }
  pose proof (requestFor_lookup _ _ _ _ (hd_ok _ _ _ Hh) Er) as [Hl Et].
  pose proof (gone_closed_ambiguous _ _ _ _ Hh Hl) as Ha.
  destruct result; try done;
    try (destruct (close_ambiguous o r) as [o1 t1]; intros [= <- <- <-]; by apply Hgone).
  - intros [= <- <- <-]. apply Hgone. eapply gone_dropped; [exact Hh| |done| |].
    + apply keeps_rewind. keep_sub.
    + unfold rewindAllocator. case_test; exact (hd_past _ _ _ Hh).
    + rewrite <- Et. unfold rewindAllocator. case_test; cbn; apply lookup_delete_eq.
  - intros [= <- <- <-]. split; [|by intros [?|?]]. destruct Hh as [Ho Hs Hp He]. split; try done. cbn.
    set (r1 := if d >? 0 then _ else _) in *.
    assert (Hr1 : or_transactionID r1 = or_transactionID r /\ or_physicalRequestID r1 = or_physicalRequestID r /\
      or_generation r1 = or_generation r) by (subst r1; by case_test).
    destruct Hr1 as (Ht1 & Hp1 & Hg1). rewrite Ht1.
    intros i s [[<- <-]|[Hne Hi]]%lookup_insert_Some Hsp; cbn in *.
    + destruct (He _ _ Hl) as (? & ? & _ & ?); [congruence|]. conj; [done|congruence|done|done].
    + exfalso. apply Hne. apply requestFor_ok in Er as (_ & Hrp & _).
      apply (ok_phys o Ho _ _ _ _ Hl Hi). congruence.
Qed.

Lemma held_abandoned bound o reason o' r :
  held requestWaiting bound o -> reason = AbandonTimeout \/ reason = AbandonCancellation ->
  AbandonAfterWrite o v reason = (o', r) -> gone o'.
Proof.
  intros Hh Hreason E. pose proof (abandon_inv o v reason (hd_ok _ _ _ Hh)) as Ho'.
  destruct (run_op_advances o (OpAbandon v reason) (hd_ok _ _ _ Hh)) as [Hb _]. cbn in Hb.
  pose proof (abandon_keeps p self o v reason (hd_ok _ _ _ Hh)) as Hk.
  rewrite E in Ho', Hk, Hb. cbn in Ho', Hk, Hb. pose proof (hd_past _ _ _ Hh) as Hp.
  revert E. unfold AbandonAfterWrite.
  case_test; [exfalso; bool_hyps; by destruct Hreason|].
  destruct (requestFor o v requestWaiting) as [q|e] eqn:Er.
  - intros E. eapply gone_dropped; [exact Hh|exact Hk|done|lia|].
    pose proof (requestFor_lookup _ _ _ _ (hd_ok _ _ _ Hh) Er) as [Hl Et]. revert E. rewrite <- Et. case_test.
    + rewrite (failAllExcept_spec _ _ q) by done. intros [= <- _]. cbn. apply lookup_delete_eq.
    + intros [= <- _]. cbn. apply lookup_delete_eq.
  - pose proof (held_missing _ _ _ _ Hh Er) as Hg.
    intros E. eapply (gone_moves o); [|exact Hg].
    apply (abandon_moves (quiet p self) (quiet_settling p self) o v reason o' r).
    unfold AbandonAfterWrite. by rewrite Heqb, Er.
Qed.

Lemma held_lost o o' tr :
  held requestWaiting True o -> loseTransport o self = (o', tr) -> gone o'.
Proof.
  intros Hh E. pose proof (lose_inv o self (hd_ok _ _ _ Hh)) as Ho'. rewrite E in Ho'. cbn in Ho'.
  revert E. unfold loseTransport. case_test.
  - intros [= <- _]. bool_hyps. pose proof (hd_past _ _ _ Hh). pose proof (hd_self _ _ _ Hh).
    split; [done|]. split; [done|]. split; [done|]. intros (i & r & Hi & Hr).
    destruct (hd_entry _ _ _ Hh _ _ Hi Hr) as (_ & _ & _ & Hb). by apply Heqb, Hb.
  - rewrite failAll_spec. intros [= <- _].
    pose proof (hd_past _ _ _ Hh) as Hp. pose proof (hd_self _ _ _ Hh) as Hs.
    split; [done|]. split; [case_test; done|]. split; [case_test; done|]. intros (i & r & Hi & _).
    revert Hi. case_test; cbn; by rewrite lookup_empty.
Qed.

End Held.

(** * The link of a write *)

(** A closed transport is not the owner's. *)
Definition unbound_when_closed (l : link) : Prop :=
  tr_closed (lk_transport l) = true -> ow_boundTransport (lk_owner l) <> Some (tr_self (lk_transport l)).

Definition same_end (l l' : link) : Prop :=
  tr_self (lk_transport l') = tr_self (lk_transport l) /\
  tr_closed (lk_transport l') = tr_closed (lk_transport l).

Lemma fail_transport_same l a l' errs : FailTransport l a = (l', errs) -> same_end l l'.
Proof.
  unfold FailTransport. destruct (lk_groups l !! a) as [g|]; [|intros; by simplify_eq].
  destruct (failTransportLocked g (lk_owner l)) as [[g' o'] [err n]]. cbv zeta. unfold finishScheduling.
  destruct (cr_completed g'); intros; simplify_eq; [|done].
  unfold forget_written, forgetCoalesced. repeat case_test; done.
Qed.

Lemma fail_groups_same groups l l' errs : fail_groups l groups = (l', errs) -> same_end l l'.
Proof.
  revert l l' errs. induction groups as [|a groups IH]; intros l l' errs; cbn; [intros; by simplify_eq|].
  destruct (FailTransport l a) as [l1 e1] eqn:E1. destruct (fail_groups l1 groups) as [l2 e2] eqn:E2.
  intros; simplify_eq. apply fail_transport_same in E1 as [? ?]. apply IH in E2 as [? ?].
  split; congruence.
Qed.

Section WriteLink.
Context (v : TCPReservation) (self : Z).

Abbreviation p := (tv_physicalRequestID v).
Abbreviation calm := (Forall (allowed (quiet p self))).

(** The request is held, or gone, on the link of the transport [self]. *)
Record holds (st : requestState) (bound : Prop) (l : link) : Prop := mk_holds {
  hs_held : held v self st bound (lk_owner l);
  hs_self : tr_self (lk_transport l) = self;
  hs_end : unbound_when_closed l
}.

Lemma moved_end l l' :
  moves (quiet p self) (lk_owner l) (lk_owner l') [] -> same_end l l' ->
  owner_ok (lk_owner l) -> p < physical_bound (lk_owner l) -> tr_self (lk_transport l) = self ->
  unbound_when_closed l -> unbound_when_closed l'.
Proof.
  intros Hm [Es Ec] Ho Hp Hself Hu Hc Hb. destruct (moves_keeps _ _ _ _ _ Hm Ho Hp) as ([_ Kb _] & _).
  rewrite Es, Hself in Hb. rewrite Ec in Hc. apply (Hu Hc). rewrite Hself. by apply Kb.
Qed.

Lemma close_terminal_link l l' tr errs :
  closeTerminal l = (l', tr, errs) -> owner_ok (lk_owner l) -> p < physical_bound (lk_owner l) ->
  tr_self (lk_transport l) = self -> unbound_when_closed l ->
  tr_self (lk_transport l') = self /\ unbound_when_closed l'.
Proof.
  intros E Ho Hp Hself Hu. revert E. unfold closeTerminal, consumeCloseTransitionLocked, take_groups.
  case_test; [intros; simplify_eq; done|].
  destruct (loseTransport _ _) as [o1 t1] eqn:E1.
  change (loseTransport (lk_owner l) (tr_self (lk_transport l)) = (o1, t1)) in E1.
  assert (Hb1 : ow_boundTransport o1 <> Some self).
  { revert E1. unfold loseTransport. rewrite Hself. case_test; [intros [= <- _]; by bool_hyps|].
    rewrite failAll_spec. intros [= <- _]. by case_test. }
  pose proof (moves_op (quiet p self) (OpLose (tr_self (lk_transport l))) (lk_owner l) I) as Hm1.
  cbn in Hm1. rewrite E1 in Hm1. cbn in Hm1.
  destruct (moves_keeps _ _ _ _ _ Hm1 Ho Hp) as (_ & Ho1 & Hp1).
  destruct (fail_groups _ _) as [l2 e2] eqn:E2.
  pose proof (fail_groups_moves _ (quiet_settling p self) _ _ _ _ E2) as Hm2.
  pose proof (fail_groups_same _ _ _ _ E2) as [Es Ec]. cbn in Hm2, Es, Ec.
  destruct (moves_keeps _ _ _ _ _ Hm2 Ho1 Hp1) as ([_ Kb _] & _).
  intros H. assert (Hl' : same_end l2 l' /\ ow_boundTransport (lk_owner l') = ow_boundTransport (lk_owner l2)).
  { revert H. case_test; intros; simplify_eq; done. }
  destruct Hl' as [[Es' _] Eb]. split; [congruence|]. intros _. rewrite Eb, Es', Es, Hself.
  intros Hb. by apply Hb1, Kb.
Qed.

Lemma close_detached_link l l' errs :
  closeDetached l = (l', errs) -> owner_ok (lk_owner l) -> p < physical_bound (lk_owner l) ->
  tr_self (lk_transport l) = self -> ow_boundTransport (lk_owner l) <> Some self ->
  tr_self (lk_transport l') = self /\ unbound_when_closed l'.
Proof.
  intros E Ho Hp Hself Hb. pose proof (close_detached_moves _ (quiet_settling p self) _ _ _ E) as Hm.
  destruct (moves_keeps _ _ _ _ _ Hm Ho Hp) as ([_ Kb _] & _). clear Hm.
  assert (Hs : tr_self (lk_transport l') = self).
  { revert E. unfold closeDetached, take_groups. case_test; [intros; by simplify_eq|].
    destruct (fail_groups _ _) as [l2 e2] eqn:E2. apply fail_groups_same in E2 as [Es _].
    intros; simplify_eq. by rewrite Es. }
  split; [done|]. intros _. rewrite Hs. tauto.
Qed.

Lemma owner_call_link l op :
  quiet p self op -> owner_ok (lk_owner l) -> p < physical_bound (lk_owner l) ->
  tr_self (lk_transport l) = self -> unbound_when_closed l ->
  tr_self (lk_transport (owner_call l op)) = self /\ unbound_when_closed (owner_call l op).
Proof.
  intros Hq Ho Hp Hself Hu. unfold owner_call. cbv zeta.
  pose proof (moves_op (quiet p self) op (lk_owner l) Hq) as Hm.
  destruct (moves_keeps _ _ _ _ _ Hm Ho Hp) as (_ & Ho1 & Hp1).
  set (l1 := l <| lk_owner := fst (run_op (lk_owner l) op) |>).
  assert (H1 : unbound_when_closed l1) by (eapply (moved_end l); [exact Hm|done..]).
  assert (Hb : match op with OpClose | OpRetire => ow_boundTransport (lk_owner l1) = None | _ => True end).
  { subst l1. destruct op; try done; cbn; unfold Close, retire; by rewrite failAll_spec. }
  destruct op; try done; (case_test; [|done]);
    (destruct (closeDetached l1) as [l2 e2] eqn:E2); cbn;
    (eapply close_detached_link; [exact E2|done|done|done|]); by rewrite Hb.
Qed.

Lemma cancel_dependent_link l a id l' tr errs :
  CancelDependent l a id = (l', tr, errs) -> owner_ok (lk_owner l) -> p < physical_bound (lk_owner l) ->
  tr_self (lk_transport l) = self -> unbound_when_closed l ->
  tr_self (lk_transport l') = self /\ unbound_when_closed l'.
Proof.
  intros E Ho Hp Hself Hu. revert E. unfold CancelDependent.
  destruct (lk_groups l !! a) as [g|]; [|intros; by simplify_eq].
  destruct (cancelLocked g (lk_owner l) id) as [[g' o'] r] eqn:E.
  pose proof (cancel_locked_moves _ (quiet_settling p self) _ _ _ _ _ _ E) as Hm. cbv zeta.
  destruct (moves_keeps _ _ _ _ _ Hm Ho Hp) as (_ & Ho1 & Hp1).
  set (l1 := if ca_completed r then _ else _).
  assert (H1 : lk_owner l1 = o' /\ same_end l l1).
  { subst l1. unfold forget_written, forgetCoalesced. repeat case_test; done. }
  destruct H1 as [H1 He1].
  assert (Hu1 : unbound_when_closed l1) by (eapply (moved_end l); [by rewrite H1|done..]).
  assert (Hs1 : tr_self (lk_transport l1) = self) by (by rewrite (proj1 He1)).
  set (closed := if _ && _ then _ else _).
  assert (H2 : tr_self (lk_transport closed.1.1) = self /\ unbound_when_closed closed.1.1).
  { subst closed. destruct (_ && _); [|done].
    destruct (closeTerminal l1) as [[l2 t2] e2] eqn:E2. cbn.
    eapply close_terminal_link; [exact E2|by rewrite H1..|done|done]. }
  destruct closed as [[l2 t2] e2]. cbn in H2. unfold finishScheduling.
  destruct (ca_completed r); intros; by simplify_eq.
Qed.

Lemma interfere_holds st bound l i :
  allowed (quiet p self) i -> holds st bound l -> holds st bound (interfere l i).
Proof.
  intros Hi [Hh Hself Hu].
  pose proof (held_moves _ _ _ _ _ _ _ (interfere_moves _ (quiet_settling p self) l i Hi) Hh) as Hh'.
  destruct Hh as [Ho Hs Hp He] eqn:Eh. clear Eh.
  assert (H : tr_self (lk_transport (interfere l i)) = self /\ unbound_when_closed (interfere l i)).
  { destruct i; cbn in Hi |- *; try done.
    - by apply owner_call_link.
    - destruct (closeTerminal l) as [[l1 t1] e1] eqn:E1. by eapply close_terminal_link.
    - destruct (CancelDependent l address logicalViewID) as [[l1 t1] e1] eqn:E1.
      by eapply cancel_dependent_link.
    - unfold requestEarlierReadDeadline. case_test; [done|].
      destruct (tr_activeRead _); [|done]. by case_test.
    - unfold refreshActiveReadDeadline. by destruct (tr_activeRead _). }
  by destruct H.
Qed.

Lemma meanwhile_holds others st bound l :
  calm others -> holds st bound l -> holds st bound (meanwhile l others).
Proof.
  revert l. induction others as [|i others IH]; intros l Hc Hh; [done|]. apply Forall_cons in Hc as [Hi Hc].
  cbn. apply IH; [done|]. by apply interfere_holds.
Qed.

(** ** Ends of a write *)

Abbreviation left l := (gone v (lk_owner l)).

Lemma meanwhile_left others l : calm others -> left l -> left (meanwhile l others).
Proof. intros Hc. eapply gone_moves. by apply meanwhile_moves; [apply quiet_settling|]. Qed.

Lemma close_terminal_left l l' tr errs : closeTerminal l = (l', tr, errs) -> left l -> left l'.
Proof. intros E. eapply gone_moves. by eapply (close_terminal_moves _ (quiet_settling p self)). Qed.

Lemma release_pre_write_left bound l l' tr errs :
  releasePreWrite l v = (l', tr, errs) -> holds requestReserved bound l -> left l'.
Proof.
  intros E [Hh _ _]. destruct (CancelBeforeWrite (lk_owner l) v) as [o1 err] eqn:Ec.
  pose proof (held_cancelled _ _ _ _ _ _ Hh Ec) as Hg. destruct err as [err|].
  - assert (Hg0 : left l).
    { revert Ec. unfold CancelBeforeWrite. destruct (requestFor _ _ _) as [r|e] eqn:Er; [done|].
      intros _. by eapply held_missing. }
    eapply gone_moves; [|exact Hg0]. by eapply (release_pre_write_moves _ (quiet_settling p self)).
  - revert E. unfold releasePreWrite. rewrite Ec. intros; by simplify_eq.
Qed.

Lemma fail_pre_write_left bound l op errs e l' tr errs' :
  fail_pre_write l op v errs e = (l', tr, errs') -> holds requestReserved bound l -> left l'.
Proof.
  unfold fail_pre_write. destruct (releasePreWrite l v) as [[l1 t1] e1] eqn:E. intros ? Hh; simplify_eq.
  exact (release_pre_write_left _ _ _ _ _ E Hh).
Qed.

Lemma close_terminal_holds_left l l' tr errs :
  closeTerminal l = (l', tr, errs) -> holds requestWaiting True l -> left l'.
Proof.
  intros E [Hh Hself Hu]. destruct (tr_closed (lk_transport l)) eqn:Ec.
  - eapply close_terminal_left; [exact E|]. specialize (Hu Ec). rewrite Hself in Hu.
    destruct Hh as [Ho Hs Hp He]. split; [done|]. split; [done|]. split; [done|]. intros (i & r & Hi & Hr).
    destruct (He _ _ Hi Hr) as (_ & _ & _ & Hb). by apply Hu, Hb.
  - revert E. unfold closeTerminal, consumeCloseTransitionLocked, take_groups. rewrite Ec.
    destruct (loseTransport _ _) as [o1 t1] eqn:E1.
    change (loseTransport (lk_owner l) (tr_self (lk_transport l)) = (o1, t1)) in E1. rewrite Hself in E1.
    pose proof (held_lost _ _ _ _ _ Hh E1) as Hg.
    destruct (fail_groups _ _) as [l2 e2] eqn:E2.
    apply (fail_groups_moves _ (quiet_settling p self)) in E2. cbn in E2.
    pose proof (gone_moves _ _ _ _ _ E2 Hg) as Hg2.
    pose proof (gone_moves _ _ _ _ _ (moves_op (quiet p self) OpReleaseSlot (lk_owner l2) I) Hg2) as Hg3.
    case_test; intros [= <- _ _]; [exact Hg3|exact Hg2].
Qed.

Lemma classify_classified expected written errs won : classified (classifyNetWrite expected written errs won).
Proof. unfold classifyNetWrite. repeat case_test; done. Qed.

Lemma classify_complete expected written errs won :
  classifyNetWrite expected written errs won = TransmitComplete ->
  written = expected /\ errs = [] /\ won = false.
Proof.
  unfold classifyNetWrite, is_nil. repeat case_test; try done. intros _. bool_hyps. done.
Qed.

Lemma abandon_written_left l result c d l' tr errs :
  abandon_written l v result c d = (l', tr, errs) -> holds requestWaiting True l ->
  (result = TransmitComplete /\ (c <> [] \/ d <> []) /\ left l') \/
  ((result = TransmitComplete -> c = [] /\ d = []) /\ l' = l /\ errs = [] /\ tr = no_transition).
Proof.
  intros E [Hh _ _]. revert E. unfold abandon_written.
  destruct (bool_decide (result = TransmitComplete) && _) eqn:Eb.
  - apply andb_prop in Eb as [Er Eb]. bool_hyps.
    destruct (AbandonAfterWrite _ _ _) as [o1 [t1 e1]] eqn:Ea. intros; simplify_eq. left. split; [done|].
    split.
    + apply orb_prop in Eb as [Eb|Eb]; unfold is_nil in Eb; bool_hyps; tauto.
    + cbn. eapply held_abandoned; [exact Hh| |exact Ea]. case_test; tauto.
  - intros; simplify_eq. right. split; [|done]. intros ->. rewrite bool_decide_eq_true_2 in Eb by done. cbn in Eb.
    unfold is_nil in Eb. bool_hyps. done.
Qed.

Lemma close_written_left l b others l' tr errs :
  calm others -> close_written l b others = (l', tr, errs) ->
  (left l -> left l') /\
  (holds requestWaiting True l -> if b then left l' else l' = l /\ errs = [] /\ tr = no_transition).
Proof.
  intros Hc E. split.
  { eapply gone_moves. by eapply (close_written_moves _ (quiet_settling p self)). }
  intros Hh. revert E. unfold close_written. destruct b; [|intros; by simplify_eq].
  intros E. eapply close_terminal_holds_left; [exact E|]. apply meanwhile_holds; [done|].
  by destruct Hh.
Qed.

Lemma perform_write_left l op adu e l' tr errs :
  calm (we_during e) -> calm (we_recorded e) -> calm (we_closing e) ->
  performInvokedWrite l op v adu e = (l', tr, errs) -> holds requestWriteInvoked True l ->
  errs <> [] -> left l'.
Proof.
  intros Hc1 Hc2 Hc3 E Hh Hne. revert E. unfold performInvokedWrite. cbv zeta.
  apply (meanwhile_holds (we_during e)) in Hh; [|done]. set (l0 := meanwhile l (we_during e)) in *.
  destruct (markReturn _ _ _) as [t1 op1]. destruct (stopAndJoin _ _ _) as [t2 op2].
  set (result := classifyNetWrite _ _ _ _). set (resetErr := if op_interrupted op2 && _ then _ else []).
  destruct (match responseWaitDeadline _ _ _ with Ok _ => _ | Err _ => _ end) as [d de].
  destruct (recordTransmitUntil _ _ _ _) as [o1 [tr1 re]] eqn:E1.
  destruct Hh as [Hh Hself Hu].
  destruct (held_recorded _ _ _ _ _ _ _ _ _ Hh (classify_classified _ _ _ _) E1) as [Hw Hgone].
  match goal with |- context [meanwhile ?a (we_recorded e)] => set (la := a) end.
  assert (Ha : holds requestWaiting True la).
  { split; [done|done|]. intros Hcl Hb. apply (Hu Hcl). revert Hb.
    change (ow_boundTransport o1 = Some (tr_self (lk_transport l0)) ->
      ow_boundTransport (lk_owner l0) = Some (tr_self (lk_transport l0))).
    intros Hb. rewrite <- Hb. symmetry.
    pose proof (transmit_bound (lk_owner l0) v result d (hd_ok _ _ _ _ _ Hh)) as Ht.
    change (lk_owner (l0 <| lk_timeline := t2 |>)) with (lk_owner l0) in E1. by rewrite E1 in Ht. }
  assert (Hga : gone v o1 -> left (meanwhile la (we_recorded e)))
    by exact (meanwhile_left (we_recorded e) la Hc2).
  apply (meanwhile_holds (we_recorded e)) in Ha; [|done]. set (l1 := meanwhile la _) in *.
  destruct (abandon_written _ _ _ _ _) as [[l2 tr2] ae] eqn:E2.
  destruct (close_written _ _ _) as [[l3 tr3] ce] eqn:E3.
  intros Hres. assert (Hl : l3 = l').
  { revert Hres. case_test; intros; by simplify_eq. } subst l3.
  destruct (close_written_left _ _ _ _ _ _ Hc3 E3) as [Hc4 Hc5].
  apply abandon_written_left in E2 as [(_ & _ & Hg)|(Hno & -> & -> & ->)]; [by apply Hc4| |done].
  destruct (decide (result = TransmitComplete)) as [Hr|Hr]; [|apply Hc4, Hga, Hgone; by left].
  destruct re as [re|]; [apply Hc4, Hga, Hgone; by right|].
  destruct (Hno Hr) as [Hce Hde]. specialize (Hc5 Ha).
  destruct (ot_closeConnection _ || negb (is_nil resetErr)) eqn:Ecl; [done|]. destruct Hc5 as (_ & -> & ->).
  exfalso. apply Hne. destruct (classify_complete _ _ _ _ Hr) as (_ & Hwe & _).
  unfold is_nil in Ecl. bool_hyps. revert Hres. rewrite Hr, Hwe, Hce, Hde.
  replace resetErr with (@nil transport_error) by done.
  rewrite bool_decide_eq_true_2 by done. cbn. intros; by simplify_eq.
Qed.

Lemma enter_write_holds l op e l' op' errs :
  calm (we_waiting e) -> calm (we_held e) ->
  enter_write l op e = (l', op', errs) -> holds requestReserved False l ->
  holds requestReserved (errs = []) l'.
Proof.
  intros Hc1 Hc2 E Hh. revert E. unfold enter_write. cbv zeta.
  apply (meanwhile_holds (we_waiting e)) in Hh; [|done].
  destruct (acquireOperationGate _ _ _) as [[t op1] errs1]. set (l1 := meanwhile l _) in *.
  assert (H1 : holds requestReserved False (l1 <| lk_timeline := t |>)) by (by destruct Hh).
  destruct (negb (is_nil errs1)) eqn:Ee.
  { intros; simplify_eq. destruct H1 as [H1 ? ?]. split; [|done..]. eapply held_bound; [exact H1|].
    intros ->. done. }
  apply (meanwhile_holds (we_held e)) in H1; [|done]. set (l2 := meanwhile _ (we_held e)) in *.
  destruct (negb (current l2)) eqn:Ec.
  { intros; simplify_eq. destruct H1 as [H1 ? ?]. split; [|done..]. eapply held_bound; [exact H1|]. done. }
  destruct (preInvocationError _ _ _) as [[t2 op2] errs2]. intros; simplify_eq.
  destruct H1 as [H1 Hs Hu]. split; [|done..]. eapply held_bound; [exact H1|]. intros _.
  unfold current, transportCurrent in Ec. bool_hyps. cbn. congruence.
Qed.

(** The interferences of a write leave its request to its writer. *)
Definition calm_env (e : write_env) : Prop :=
  calm (we_waiting e) /\ calm (we_held e) /\ calm (we_checked e) /\ calm (we_prepared e) /\
  calm (we_during e) /\ calm (we_recorded e) /\ calm (we_closing e).

Lemma begin_write_holds t op l pt t' op' l' errs :
  beginInvocation t op (mark_write v) no_identity l pt = (t', op', l', errs) ->
  holds requestReserved True l ->
  if is_nil errs then holds requestWriteInvoked True l' else holds requestReserved True l'.
Proof.
  intros E Hh. revert E. unfold beginInvocation, begin_locked. destruct (observeLimits _ _ _) as [t1 op1].
  destruct (bool_decide (op_state op1 = operationPending)); cbn [negb].
  - unfold mark_write. destruct (MarkWriteInvoked (lk_owner l) v) as [o1 err] eqn:Em.
    destruct Hh as [Hh Hs Hu]. pose proof (held_marked _ _ _ _ _ _ Hh Em) as Hm.
    destruct err as [err|]; cbn; intros [= <- <- <- <-]; cbn.
    + subst o1. by split.
    + split; [done|done|]. intros Hc Hb. apply (Hu Hc). revert Hb. cbn. revert Em. unfold MarkWriteInvoked.
      destruct (requestFor _ _ _); by intros [= <-].
  - intros [= <- <- <- <-]. destruct (op_cause op1); done.
Qed.

Lemma write_left l d id e l' tr errs :
  calm_env e -> owner_ok (lk_owner l) -> tr_self (lk_transport l) = self -> unbound_when_closed l ->
  (exists r, requestFor (lk_owner l) v requestReserved = Ok r) ->
  writeReservationUntil l v d id e = (l', tr, errs) -> errs <> [] -> left l'.
Proof.
  intros (C1 & C2 & C3 & C4 & C5 & C6 & C7) Ho Hself Hu [r Hr] E Hne. revert E.
  unfold writeReservationUntil, reservation_identity. rewrite Hr.
  unfold write_operation. destruct (newTCPTransportOperation _ _ _ _ _ _ _ _ _ _ _) as [t op].
  assert (H0 : holds requestReserved False (l <| lk_timeline := t |>)).
  { split; [by eapply held_found|done|done]. }
  destruct (enter_write _ _ _) as [[l1 op1] e1] eqn:E1. apply enter_write_holds in E1; [|done..].
  destruct (negb (is_nil e1)) eqn:En; [intros E; by eapply fail_pre_write_left|].
  assert (H1 : holds requestReserved True l1).
  { destruct E1 as [E1 ? ?]. split; [|done..]. eapply held_weaken; [exact E1|]. intros _.
    unfold is_nil in En. by bool_hyps. }
  apply (meanwhile_holds (we_checked e)) in H1; [|done]. set (l2 := meanwhile l1 _) in *.
  destruct (prepared_adu _ _ _) as [adu|err]; [|intros E; by eapply fail_pre_write_left]. cbv zeta.
  match goal with |- context [meanwhile ?a (we_prepared e)] => set (la := a) end.
  assert (H2 : holds requestReserved True la) by (by destruct H1).
  apply (meanwhile_holds (we_prepared e)) in H2; [|done]. set (l3 := meanwhile la _) in *.
  destruct (beginInvocation _ _ _ _ _ _) as [[[t4 op4] l4] e4] eqn:E4.
  apply begin_write_holds in E4; [|done]. destruct (is_nil e4); cbn [negb]; intros E.
  - eapply perform_write_left; [..|exact E| |exact Hne]; [done..|by destruct E4].
  - eapply fail_pre_write_left; [exact E|]. by destruct E4.
Qed.

End WriteLink.

(** C10: A failed write leaves nothing in flight.  Whatever error a write of a reserved
    request returns - its deadline or its caller's cancellation at any point, a stale
    transport, a reservation that changed, a socket that wrote nothing, part of the
    bytes or an unknown number of them, a failing deadline reset or close - and whatever
    other threads do to the owner, its groups and the transport meanwhile, short of
    marking or recording this very request or binding this transport again, the request
    is no longer in flight when the write returns. *)
Theorem failed_write_leaves_nothing l v deadlineOffset requestID e l' tr errs :
  owner_ok (lk_owner l) -> unbound_when_closed l ->
  (exists r, requestFor (lk_owner l) v requestReserved = Ok r) ->
  calm_env v (tr_self (lk_transport l)) e ->
  writeReservationUntil l v deadlineOffset requestID e = (l', tr, errs) -> errs <> [] ->
  ~ live (lk_owner l') (tv_physicalRequestID v).
Proof.
  intros Ho Hu Hr Hc E Hne.
  pose proof (write_left v _ l deadlineOffset requestID e l' tr errs Hc Ho eq_refl Hu Hr E Hne) as Hg.
  apply Hg.
Qed.

(** * A successful write *)

(** An operation before its invocation, with no limit reached. *)
Definition untouched (deadline : Z) (op : tcpTransportOperation) : Prop :=
  fresh op /\ op_state op = operationPending /\ op_deadline op = deadline.

Lemma new_untouched c g t deadline k1 k2 k3 k4 fields at_ p t' op :
  newTCPTransportOperation c g t deadline k1 k2 k3 k4 fields at_ p = (t', op) ->
  (limits_of deadline p = [] /\ untouched deadline op) \/
  open_state (op_state op) = false /\ is_Some (op_cause op) /\
    (op_state op = operationTimedOutBeforeInvocation \/ op_state op = operationCancelledBeforeInvocation).
Proof.
  unfold newTCPTransportOperation. set (op0 := mkTcpTransportOperation _ _ _ _ _ _ _ _ _ _ _ _ _ _ _).
  set (t0 := recordOnly _ _ _ _). intros E.
  destruct (observe_decides t0 op0 p) as [Hd He]; [done..|]. rewrite E in Hd, He. cbn [snd] in Hd, He.
  change (op_deadline op0) with deadline in *. destruct (limits_of deadline p) as [|c' l].
  - left. split; [done|]. by rewrite (He eq_refl).
  - right. injection Hd as H1 H2. rewrite H1, H2. destruct c'; cbn; eauto.
Qed.

(** An operation whose limit was reached before the invocation stays refused. *)
Definition limit_refused (op : tcpTransportOperation) : Prop :=
  is_Some (op_cause op) /\
  (op_state op = operationTimedOutBeforeInvocation \/ op_state op = operationCancelledBeforeInvocation).

Lemma pre_invocation_passes deadline t op p t' op' :
  untouched deadline op \/ limit_refused op -> preInvocationError t op p = (t', op', []) ->
  untouched deadline op /\ limits_of deadline p = [] /\ op' = op.
Proof.
  intros H. unfold preInvocationError. destruct H as [(Hf & Hs & Hd)|[[c Hc] Hr]].
  - destruct (observe_decides t op p Hf) as [H1 H2]; [by rewrite Hs|].
    destruct (observeLimits t op p) as [t1 op1]. cbn [snd] in *. rewrite Hd, Hs in *.
    destruct (limits_of deadline p) as [|c l].
    + rewrite (H2 eq_refl). intros; simplify_eq. by conj.
    + injection H1 as E1 E2. rewrite E1, E2. destruct c; cbn; done.
  - assert (Ho : open_state (op_state op) = false) by (by destruct Hr as [->| ->]).
    destruct (join_settled t op p Ho) as [H1 H2]. unfold stopAndJoin in *.
    destruct (observeLimits t op p) as [t1 op1]. cbn [snd] in *. rewrite H1, H2, Hc.
    by destruct Hr as [->| ->].
Qed.

Lemma enter_write_passes deadline l op e l' op' :
  untouched deadline op \/ limit_refused op -> enter_write l op e = (l', op', []) ->
  untouched deadline op /\ limits_of deadline (we_gate e) = [] /\ limits_of deadline (we_pre e) = [] /\ op' = op.
Proof.
  intros H. unfold enter_write. cbv zeta. unfold acquireOperationGate.
  destruct (preInvocationError _ op (we_gate e)) as [[t1 op1] e1] eqn:E1.
  destruct (is_nil e1) eqn:En; cbn [negb]; [|intros; simplify_eq].
  unfold is_nil in En. bool_hyps. subst e1.
  apply (pre_invocation_passes deadline) in E1 as (Hu & Hl & ->); [|done].
  destruct (negb (current _)); [intros; simplify_eq|].
  destruct (preInvocationError _ op (we_pre e)) as [[t2 op2] e2] eqn:E2. intros; simplify_eq.
  apply (pre_invocation_passes deadline) in E2 as (_ & Hl2 & ->); [by conj|by left].
Qed.

Lemma begin_passes {S : Type} deadline t op (mark : S -> S * errors) identify s p t' op' s' :
  untouched deadline op -> beginInvocation t op mark identify s p = (t', op', s', []) ->
  limits_of deadline p = [] /\ mark s = (s', []) /\
  fresh op' /\ op_state op' = operationInvoked /\ op_deadline op' = deadline.
Proof.
  intros (Hf & Hs & Hd) E. destruct (limits_of deadline p) as [|c l] eqn:El; rewrite <- Hd in El.
  - pose proof (begin_unlimited t op mark identify s p Hf Hs El) as H. rewrite E in H.
    destruct H as (Hs1 & He1 & ->). rewrite <- He1. split; [done|]. split; [|done].
    by destruct (mark s) as [s2 e2]; cbn in *; subst.
  - pose proof (begin_limited t op mark identify s p c l Hf Hs El) as H. rewrite E in H. by destruct H as (_ & ? & _).
Qed.

Lemma io_passes deadline t op during after t1 op1 t2 op2 :
  fresh op -> op_state op = operationInvoked -> op_deadline op = deadline ->
  markReturn t op during = (t1, op1) -> stopAndJoin t1 op1 after = (t2, op2) -> cause_errors op2 = [] ->
  limits_of deadline during = [] /\ limits_of deadline after = [].
Proof.
  intros Hf Hs <- E1 E2 Hc. destruct (limits_of (op_deadline op) during) as [|c l] eqn:El.
  - pose proof (return_unlimited t op during Hf Hs El) as H. rewrite E1 in H. cbn in H. subst op1.
    split; [done|]. match type of E2 with stopAndJoin _ ?o _ = _ =>
      pose proof (join_decides t1 o after Hf eq_refl) as Hj; cbv zeta in Hj;
      change (op_deadline o) with (op_deadline op) in Hj end. rewrite E2 in Hj. cbn [snd] in Hj.
    destruct (limits_of (op_deadline op) after) as [|c l]; [done|]. injection Hj as _ Hj.
    unfold cause_errors in Hc. by rewrite Hj in Hc.
  - exfalso. destruct (return_limited t op during c l Hf Hs El) as [H1 H2]. rewrite E1 in H1, H2. cbn in H1, H2.
    destruct (join_settled t1 op1 after) as [H3 H4]; [rewrite H1; by destruct c|].
    rewrite E2 in H4. cbn in H4. unfold cause_errors in Hc. by rewrite H4, H2 in Hc.
Qed.

(** What a completed write recorded at the owner. *)
Definition recorded (o : owner) (v : TCPReservation) (d : Z) (o1 : owner) : Prop :=
  recordTransmitUntil o v TransmitComplete d = (o1, (no_transition, None)) /\
  ((exists t, ow_earlyCompletions o !! tv_physicalRequestID v = Some t) \/
   (exists w, requestFor o1 v requestWaiting = Ok w /\ (0 < d -> or_deadlineOffset w = d))).

Lemma complete_recorded o v d o1 tr :
  owner_ok o -> recordTransmitUntil o v TransmitComplete d = (o1, (tr, None)) ->
  tr = no_transition /\ recorded o v d o1.
Proof.
  intros Ho E. assert (H : tr = no_transition /\
    ((exists t, ow_earlyCompletions o !! tv_physicalRequestID v = Some t) \/
     (exists w, requestFor o1 v requestWaiting = Ok w /\ (0 < d -> or_deadlineOffset w = d)))).
  { revert E. unfold recordTransmitUntil.
    destruct (ow_earlyCompletions o !! tv_physicalRequestID v) as [t|] eqn:Ee.
    { case_test; intros; simplify_eq. eauto. }
    destruct (requestFor o v requestWriteInvoked) as [r|] eqn:Er; [|intros; simplify_eq].
    intros; simplify_eq. split; [done|]. right.
    pose proof (requestFor_lookup _ _ _ _ Ho Er) as [_ Et].
    apply requestFor_ok in Er as (Hl & Hp & Hst & Hs & Hg).
    set (w := with_state requestWaiting (if d >? 0 then with_deadline d r else r)). exists w.
    assert (Hw : or_transactionID w = tv_transactionID v /\ or_physicalRequestID w = tv_physicalRequestID v /\
      or_state w = requestWaiting) by (subst w; case_test; done).
    destruct Hw as (Hw1 & Hw2 & Hw3). split.
    - fold w. clearbody w. unfold requestFor. cbn. rewrite Hs, Hg, !Z.eqb_refl. cbn.
      rewrite Hw1, lookup_insert_eq. by rewrite Hw2, Hw3, Z.eqb_refl.
    - subst w. intros. by test_true (d >? 0). }
  destruct H as [-> H]. split; [done|]. by split.
Qed.

Lemma perform_write_success deadline l op v adu e l' tr :
  owner_ok (lk_owner l) -> fresh op -> op_state op = operationInvoked -> op_deadline op = deadline ->
  performInvokedWrite l op v adu e = (l', tr, []) ->
  limits_of deadline (we_return e) = [] /\ limits_of deadline (we_join e) = [] /\
  we_written e = zlen adu /\ we_writeErr e = [] /\ ot_closeConnection tr = false /\
  exists d la,
    responseWaitDeadline (tr_responseDeadline (lk_transport (meanwhile l (we_during e)))) (tv_deadlineOffset v)
      (we_now e) = Ok d /\
    recorded (lk_owner (meanwhile l (we_during e))) v d (lk_owner la) /\ l' = meanwhile la (we_recorded e).
Proof.
  intros Ho Hf Hs Hd. unfold performInvokedWrite. cbv zeta.
  pose proof (moves_ok _ _ _ _ (meanwhile_reaches (we_during e) l) Ho) as Ho0.
  set (l0 := meanwhile l (we_during e)) in *.
  destruct (markReturn _ _ _) as [t1 op1] eqn:E1. destruct (stopAndJoin _ _ _) as [t2 op2] eqn:E2.
  set (result := classifyNetWrite _ _ _ _). set (resetErr := if op_interrupted op2 && _ then _ else []).
  destruct (match responseWaitDeadline _ _ _ with Ok _ => _ | Err _ => _ end) as [d de] eqn:Ed.
  destruct (recordTransmitUntil _ _ _ _) as [o1 [tr1 re]] eqn:Er.
  match goal with |- context [meanwhile ?a (we_recorded e)] => set (la := a) end.
  destruct (abandon_written _ _ _ _ _) as [[l2 tr2] ae] eqn:E3.
  destruct (close_written _ _ _) as [[l3 tr3] ce] eqn:E4.
  destruct (bool_decide (result = TransmitComplete) && _) eqn:Eb; [|intros; simplify_eq].
  intros; simplify_eq. apply andb_prop in Eb as [Hr Hn]. unfold is_nil in Hn. bool_hyps.
  apply app_eq_nil in Hn as [Hwe Hn]. apply app_eq_nil in Hn as [Hce Hn]. apply app_eq_nil in Hn as [Hde Hn].
  apply app_eq_nil in Hn as [Hre Hn]. apply app_eq_nil in Hre as [Hre Hae]. apply app_eq_nil in Hn as [Hrs _].
  destruct re as [re|]; [done|]. destruct (classify_complete _ _ _ _ Hr) as (Hw & _ & _).
  destruct (io_passes _ _ _ _ _ _ _ _ _ Hf Hs eq_refl E1 E2 Hce) as [L1 L2].
  rewrite Hr in Er. apply complete_recorded in Er as [-> Hrec]; [|done].
  revert E3. unfold abandon_written. rewrite Hr, Hce, Hde, andb_false_r. intros; simplify_eq.
  revert E4. rewrite Hrs. cbn. intros; simplify_eq.
  conj; try done. exists d, la.
  split; [|split; [exact Hrec|done]].
  change (tr_responseDeadline (lk_transport (l0 <| lk_timeline := t2 |>))) with (tr_responseDeadline (lk_transport l0)) in Ed.
  by destruct (responseWaitDeadline _ _ _) as [d'|err]; simplify_eq.
Qed.

(** ** What no operation changes *)

Definition settings (l : link) : Z * TCPStreamDecoder :=
  (tr_responseDeadline (lk_transport l), tr_decoder (lk_transport l)).

Definition fixed (l l' : link) : Prop := settings l' = settings l.

Lemma fail_transport_fixed l a : fixed l (fst (FailTransport l a)).
Proof.
  unfold FailTransport. destruct (lk_groups l !! a) as [g|]; [|done].
  destruct (failTransportLocked g (lk_owner l)) as [[g' o'] [err n]]. cbv zeta.
  unfold finishScheduling, forget_written, forgetCoalesced. destruct (cr_completed g'); repeat case_test; done.
Qed.

Lemma fail_groups_fixed groups l : fixed l (fst (fail_groups l groups)).
Proof.
  revert l. induction groups as [|a groups IH]; intros l; [done|]. cbn.
  pose proof (fail_transport_fixed l a) as H. destruct (FailTransport l a) as [l1 e1].
  specialize (IH l1). destruct (fail_groups l1 groups) as [l2 e2]. unfold fixed in *. cbn in *. congruence.
Qed.

Lemma close_terminal_fixed l : fixed l (closeTerminal l).1.1.
Proof.
  unfold closeTerminal, consumeCloseTransitionLocked, take_groups. case_test; [done|].
  destruct (loseTransport _ _) as [o1 t1].
  match goal with |- context [fail_groups ?a ?b] => pose proof (fail_groups_fixed b a) as H end.
  destruct (fail_groups _ _) as [l2 e2]. case_test; exact H.
Qed.

Lemma interfere_fixed l i : fixed l (interfere l i).
Proof.
  destruct i; cbn; try done.
  - unfold owner_call. cbv zeta. destruct op; try done; (case_test; [|done]);
      unfold closeDetached, take_groups; (case_test; [done|]);
      match goal with |- context [fail_groups ?a ?b] => pose proof (fail_groups_fixed b a) as H end;
      destruct (fail_groups _ _) as [l2 e2]; exact H.
  - apply close_terminal_fixed.
  - unfold CancelDependent. destruct (lk_groups l !! _) as [g|]; [|done].
    destruct (cancelLocked g (lk_owner l) _) as [[g' o'] r]. cbv zeta. unfold finishScheduling.
    set (l1 := if ca_completed r then _ else _).
    assert (H1 : fixed l l1) by (subst l1; unfold forget_written, forgetCoalesced; repeat case_test; done).
    pose proof (close_terminal_fixed l1) as H2.
    destruct (ot_closeConnection _ && _); destruct (closeTerminal l1) as [[l2 t2] e2];
      destruct (ca_completed r); first [exact H1|exact (eq_trans H2 H1)].
  - unfold requestEarlierReadDeadline. case_test; [done|]. destruct (tr_activeRead _); [|done]. by case_test.
  - unfold refreshActiveReadDeadline. by destruct (tr_activeRead _).
Qed.

Lemma meanwhile_fixed others l : fixed l (meanwhile l others).
Proof.
  revert l. induction others as [|i others IH]; intros l; [done|].
  exact (eq_trans (IH (interfere l i)) (interfere_fixed l i)).
Qed.

Lemma enter_write_fixed l op e : fixed l (enter_write l op e).1.1.
Proof.
  unfold enter_write. cbv zeta. pose proof (meanwhile_fixed (we_waiting e) l) as H0.
  destruct (acquireOperationGate _ _ _) as [[t op1] errs1]. case_test; [exact H0|].
  match goal with |- context [meanwhile ?a (we_held e)] => pose proof (meanwhile_fixed (we_held e) a) as H1 end.
  destruct (negb (current _)); [exact (eq_trans H1 H0)|].
  destruct (preInvocationError _ _ _) as [[t2 op2] errs2]. exact (eq_trans H1 H0).
Qed.

(** C11: A write that succeeds did everything it promises.  No deadline and no
    cancellation was reached from its start to its cutoff; the socket took, in one call
    and without an error, every byte of the encoding of the reserved request, whose
    identity on the wire is the one it had when the write was called; the owner marked the
    write as invoked ([lb]), and after whatever other threads did during the socket's
    write it recorded a complete transmission ([la]) with the valid deadline [d]: the
    request then waits for its response under that deadline, unless the response had come
    before; the link returned is that one after what other threads did since, and the
    write does not ask for the connection's end. *)
Theorem write_success_sound l v deadlineOffset requestID e l' tr :
  owner_ok (lk_owner l) ->
  writeReservationUntil l v deadlineOffset requestID e = (l', tr, []) ->
  Forall (fun pt => limits_of deadlineOffset pt = [])
    [we_created e; we_gate e; we_pre e; we_begin e; we_return e; we_join e] /\
  ot_closeConnection tr = false /\
  exists identity adu o o' d lb la,
    reservation_identity (lk_owner l) v = Ok identity /\
    reaches (lk_owner l) o [] /\ encodeReservation o v = Ok (Ok adu, identity) /\
    reaches o o' [] /\ MarkWriteInvoked o' v = (lk_owner lb, None) /\
    we_written e = zlen adu /\ we_writeErr e = [] /\
    responseWaitDeadline (tr_responseDeadline (lk_transport l)) (tv_deadlineOffset v) (we_now e) = Ok d /\
    recorded (lk_owner (meanwhile lb (we_during e))) v d (lk_owner la) /\
    l' = meanwhile la (we_recorded e).
Proof.
  intros Ho. unfold writeReservationUntil.
  destruct (reservation_identity (lk_owner l) v) as [identity|]; [|intros; simplify_eq].
  unfold write_operation. destruct (newTCPTransportOperation _ _ _ _ _ _ _ _ _ _ _) as [t op] eqn:E0.
  apply new_untouched in E0.
  assert (Hop : untouched deadlineOffset op \/ limit_refused op) by (destruct E0 as [[_ ?]|(_ & ? & ?)]; [by left|by right]).
  destruct (enter_write _ _ _) as [[l1 op1] e1] eqn:E1. pose proof (enter_write_reaches _ _ _ _ _ _ E1) as H1.
  assert (F1 : fixed l l1) by (match type of E1 with enter_write ?a ?b ?c = _ =>
    pose proof (enter_write_fixed a b c) as F; by rewrite E1 in F end).
  destruct (negb (is_nil e1)) eqn:En.
  { unfold is_nil in En. bool_hyps. unfold fail_pre_write. destruct (releasePreWrite l1 v) as [[? ?] ?].
    intros [= _ _ H]. apply app_eq_nil in H as [? _]. done. }
  unfold is_nil in En. bool_hyps. subst e1. apply (enter_write_passes deadlineOffset) in E1 as (Hu & Lg & Lp & ->); [|done].
  destruct E0 as [[Lc _]|(_ & _ & [Hs|Hs])]; [|by rewrite (proj1 (proj2 Hu)) in Hs..].
  pose proof (meanwhile_reaches (we_checked e) l1) as H2. set (l2 := meanwhile l1 _) in *.
  pose proof (reaches_trans_l _ _ _ _ H1 H2) as H02.
  unfold prepared_adu. destruct (encodeReservation (lk_owner l2) v) as [[[adu|] identity']|] eqn:Een.
  2,3: unfold fail_pre_write; destruct (releasePreWrite l2 v) as [[? ?] ?]; intros [= _ _ H]; done.
  destruct (bool_decide (identity' = identity)) eqn:Ei; cbn [negb].
  2:{ unfold fail_pre_write; destruct (releasePreWrite l2 v) as [[? ?] ?]; intros [= _ _ H]; done. }
  bool_hyps. subst identity'. cbv zeta.
  set (op2 := setInterrupt _). assert (Hu2 : untouched deadlineOffset op2).
  { destruct Hu as (Hf & Hs & Hd). subst op2. unfold setInterrupt. by case_test. }
  pose proof (meanwhile_fixed (we_checked e) l1) as F2.
  match goal with |- context [meanwhile ?a (we_prepared e)] =>
    pose proof (meanwhile_reaches (we_prepared e) a) as H3; pose proof (meanwhile_fixed (we_prepared e) a) as F3;
    set (l3 := meanwhile a _) in * end.
  destruct (beginInvocation _ _ _ _ _ _) as [[[t4 op4] l4] e4] eqn:E4.
  pose proof (begin_reaches _ _ _ _ _ _ _ _ _ _ (mark_write_reaches v) E4) as H4.
  assert (H04 : reaches (lk_owner l) (lk_owner l4) []).
  { eapply reaches_trans_l; [exact H02|]. by eapply reaches_trans_l. }
  destruct (negb (is_nil e4)) eqn:En4.
  { unfold is_nil in En4. bool_hyps. unfold fail_pre_write. destruct (releasePreWrite _ v) as [[? ?] ?].
    intros [= _ _ H]. apply app_eq_nil in H as [? _]. done. }
  unfold is_nil in En4. bool_hyps. subst e4.
  apply (begin_passes deadlineOffset) in E4 as (Lb & Em & Hf4 & Hs4 & Hd4); [|done].
  assert (F4 : fixed l3 l4) by (revert Em; unfold mark_write; destruct (MarkWriteInvoked _ _); by intros [= <- _]).
  intros E5. apply (perform_write_success deadlineOffset) in E5; [|exact (moves_ok _ _ _ _ H04 Ho)|done..].
  destruct E5 as (Lr & Lj & Hw & Hwe & Htr & d & la & Hrd & Hrec & Hre).
  split; [by repeat (apply Forall_cons; split; [done|])|]. split; [done|].
  assert (Hmark : MarkWriteInvoked (lk_owner l3) v = (lk_owner (l4 <| lk_timeline := t4 |>), None)).
  { revert Em. unfold mark_write. destruct (MarkWriteInvoked (lk_owner l3) v) as [o3 [err|]]; [done|].
    by intros [= <-]. }
  exists identity, adu, (lk_owner l2), (lk_owner l3), d, (l4 <| lk_timeline := t4 |>), la. conj; try done.
  rewrite <- Hrd. f_equal.
  assert (F : fixed l (meanwhile (l4 <| lk_timeline := t4 |>) (we_during e))).
  { eapply eq_trans; [apply meanwhile_fixed|]. eapply eq_trans; [exact F4|]. eapply eq_trans; [exact F3|].
    exact (eq_trans F2 F1). }
  by injection F as -> _.
Qed.

(** * Witnesses *)

Definition demo_link : link :=
  demo_socket <| lk_owner := fst (run_ops demo_owner [OpReserveRead 17 demo_read 0; OpBind 7]) |>.

Lemma demo_link_ok : owner_ok (lk_owner demo_link).
Proof. apply run_ops_inv, demo_owner_ok. Qed.

Lemma failed_write_leaves_nothing_witness :
  let r := writeReservationUntil demo_link demo_reservation 100 5 (demo_write 4) in
  live (lk_owner demo_link) 1 /\ r.2 = [ErrWrite TransmitPartial] /\ ~ live (lk_owner r.1.1) 1.
Proof.
  split; [eexists 0, _; split; [vm_compute; reflexivity|reflexivity]|].
  split; [vm_compute; reflexivity|].
  apply (failed_write_leaves_nothing demo_link demo_reservation 100 5 (demo_write 4) _
           (writeReservationUntil demo_link demo_reservation 100 5 (demo_write 4)).1.2
           (writeReservationUntil demo_link demo_reservation 100 5 (demo_write 4)).2).
  - apply demo_link_ok.
  - by intros ?.
  - eexists. vm_compute. reflexivity.
  - unfold calm_env. cbn. by conj; repeat constructor.
  - by destruct (writeReservationUntil demo_link demo_reservation 100 5 (demo_write 4)) as [[? ?] ?].
  - by vm_compute.
Defined.

Lemma write_success_sound_witness :
  let r := writeReservationUntil demo_link demo_reservation 100 5 (demo_write 12) in
  r.2 = [] /\ ot_closeConnection r.1.2 = false.
Proof.
  split; [vm_compute; reflexivity|].
  apply (write_success_sound demo_link demo_reservation 100 5 (demo_write 12)
           (writeReservationUntil demo_link demo_reservation 100 5 (demo_write 12)).1.1).
  - apply demo_link_ok.
  - assert (H : (writeReservationUntil demo_link demo_reservation 100 5 (demo_write 12)).2 = [])
      by (vm_compute; reflexivity).
    destruct (writeReservationUntil demo_link demo_reservation 100 5 (demo_write 12)) as [[? ?] ?].
    cbn in H. by subst.
Defined.

(** * Cleaning up after a cancelled reservation *)

(** C36: The cleanup of a write goes by the transaction identifier.  When the reservation
    of a write that fails was cancelled meanwhile and its transaction identifier given to
    another request, which the owner does next because a cancellation rewinds the
    identifiers, the cleanup cancels that other request. *)
Theorem cleanup_cancels_reused_transaction l v w r :
  owner_ok (lk_owner l) ->
  requestFor (lk_owner l) w requestReserved = Ok r ->
  tv_owner v = tv_owner w -> tv_generation v = tv_generation w -> tv_transactionID v = tv_transactionID w ->
  tv_physicalRequestID v <> tv_physicalRequestID w ->
  exists l', releasePreWrite l v = (l', no_transition, []) /\
    live (lk_owner l) (tv_physicalRequestID w) /\ ~ live (lk_owner l') (tv_physicalRequestID w).
Proof.
  intros Ho Hr Eo Eg Et Ep. pose proof (requestFor_lookup _ _ _ _ Ho Hr) as [Hlt Etx].
  pose proof (requestFor_ok _ _ _ _ Hr) as (Hl & Hp & Hst & Hs & Hg).
  pose proof (ok_inFlight _ Ho _ _ Hl) as (_ & _ & Hgen & _).
  assert (Hlive : live (lk_owner l) (tv_physicalRequestID w)) by (by exists (tv_transactionID w), r).
  assert (Hw : requestFor (lk_owner l) (reservation_of (lk_owner l) r) requestReserved = Ok r).
  { unfold requestFor, reservation_of, reservation_as. cbn.
    by rewrite Hgen, Etx, Hl, !Z.eqb_refl, Hst. }
  assert (Hc : CancelBeforeWrite (lk_owner l) (reservation_of (lk_owner l) r) =
    (rewindAllocator (or_transactionID r) (drop_request (or_transactionID r) (lk_owner l)), None))
    by (unfold CancelBeforeWrite; by rewrite Hw).
  exists (l <| lk_owner := rewindAllocator (or_transactionID r) (drop_request (or_transactionID r) (lk_owner l)) |>).
  split; [|split; [done|]].
  - unfold releasePreWrite.
    assert (Hv : exists err, requestFor (lk_owner l) v requestReserved = Err err).
    { unfold requestFor. rewrite Eo, Hs, Eg, Hg, !Z.eqb_refl, Et, Hl. cbn.
      rewrite Hp. test_false (tv_physicalRequestID w =? tv_physicalRequestID v). cbn. by eexists. }
    destruct Hv as [err Hv]. unfold CancelBeforeWrite at 1. rewrite Hv.
    unfold canonicalLiveReservation. rewrite Eo, Hs, Z.eqb_refl, Et, Hl. cbn [negb].
    rewrite Hgen, Eg, Hg, Z.eqb_refl. cbn [negb]. rewrite Hst, Hc. done.
  - intros (i & s & Hi & Hsp).
    assert (Hd : delete (or_transactionID r) (ow_inFlight (lk_owner l)) !! i = Some s).
    { revert Hi. unfold rewindAllocator. by case_test. }
    apply lookup_delete_Some in Hd as [Hne Hd]. apply Hne.
    apply (ok_phys _ Ho _ _ _ _ Hlt Hd). congruence.
Qed.

(** The write of the first request waits for its gate while it is cancelled and another
    request is reserved; its own cancellation then comes. *)
Definition demo_cancelled_write : write_env :=
  {| we_armedAt := 1; we_created := demo_point 2;
     we_waiting := [MeanwhileOwner (OpCancel demo_reservation); MeanwhileOwner (OpReserveRead 17 demo_read 0)];
     we_gate := mkPoint [] (Some ErrCanceled) 3 []; we_held := []; we_pre := demo_point 4; we_checked := [];
     we_preparedAt := 5; we_prepared := []; we_begin := demo_point 6; we_dispatch := None; we_during := [];
     we_written := 0; we_writeErr := []; we_return := demo_point 7; we_join := demo_point 8;
     we_setDeadline := true; we_resetErr := []; we_now := 9; we_recordedAt := 9; we_recorded := [];
     we_closing := [] |}.

Definition demo_other : TCPReservation :=
  {| tv_owner := 100; tv_transactionID := 0; tv_physicalRequestID := 2; tv_generation := 1;
     tv_deadlineOffset := 0 |}.

Definition demo_reused : link := meanwhile demo_link (we_waiting demo_cancelled_write).

Lemma cleanup_cancels_reused_transaction_witness :
  let r := writeReservationUntil demo_link demo_reservation 100 5 demo_cancelled_write in
  (r.2 = [ErrCanceled] /\ ow_inFlight (lk_owner r.1.1) = ∅) /\
  exists l', releasePreWrite demo_reused demo_reservation = (l', no_transition, []) /\
    live (lk_owner demo_reused) 2 /\ ~ live (lk_owner l') 2.
Proof.
  split; [by vm_compute|].
  eapply (cleanup_cancels_reused_transaction demo_reused demo_reservation demo_other).
  - eapply moves_ok; [apply meanwhile_reaches|apply demo_link_ok].
  - vm_compute. reflexivity.
  - reflexivity.
  - reflexivity.
  - reflexivity.
  - by vm_compute.
Defined.
