(* ===== verification/TcpReadFacts.v ===== *)
(** Reads of the transport: while the transport stays open, every byte the socket gives
    is, exactly once and in order, in a returned response or in the decoder's buffer; and
    a close that an abandonment forces is not always reported to the caller. *)

From S2P Require Import Prelude Pdu DeviceId DeviceIdTolerant TcpAdu TcpOwner TcpOwnerFacts Coalescing TcpTimeline TcpOperation TcpOperationFacts TcpTransport TcpTransportFacts TcpWriteFacts.

Lemma close_terminal_closed l : tr_closed (lk_transport (closeTerminal l).1.1) = true.
Proof.
  unfold closeTerminal, consumeCloseTransitionLocked, take_groups. case_test; [done|].
  destruct (loseTransport _ _) as [o1 t1]. destruct (fail_groups _ _) as [l2 e2] eqn:E2.
  apply fail_groups_same in E2 as [_ Ec]. case_test; exact Ec.
Qed.

(** * Frames and their responses *)




(** * The stream *)


Abbreviation pending l := (td_buffer (tr_decoder (lk_transport l))).










(** * A close that is not reported *)

(** C37: When the requests that expired at a read's return do not fit the tombstones, the
    read closes the transport and their siblings fail; but unless the read's own
    deadline was the limit, or its socket failed, the caller is given no transition and
    no error for it. *)
Theorem closing_abandonment_unreported l responses responseErr abandoned tr abandonErr contextErr rearmed e l' r :
  ot_closeConnection tr = true ->
  re_readErr e = [] \/ rearmed = true /\ isTimeoutError (re_readErr e) = true ->
  read_correlated l responses responseErr abandoned tr abandonErr contextErr false rearmed e = (l', r) ->
  tr_closed (lk_transport l') = true /\ rd_transition r = no_transition /\ rd_errors r = responseErr.
Proof.
  intros Hc Hr. unfold read_correlated. cbv zeta. rewrite Hc. set (l1 := meanwhile l _).
  pose proof (close_terminal_closed l1) as Hcl. destruct (closeTerminal l1) as [[l2 t2] e2]. cbn in Hcl.
  destruct (negb (is_nil (re_readErr e)) && _) eqn:E.
  - exfalso. apply andb_prop in E as [E1 E2]. unfold is_nil in E1. bool_hyps.
    destruct Hr as [Hr|[-> Ht]]; [done|]. by rewrite Ht in E2.
  - intros; by simplify_eq.
Qed.

(** Two abandoned requests fill the tombstones; a third expires while the read waits and
    a fourth still has time. *)
Definition demo_vs (p : Z) : TCPReservation :=
  {| tv_owner := 100; tv_transactionID := p - 1; tv_physicalRequestID := p; tv_generation := 1;
     tv_deadlineOffset := 0 |}.

Definition demo_sent (p deadline : Z) : list owner_op :=
  [OpReserveRead 17 demo_read 0; OpMarkWriteInvoked (demo_vs p); OpTransmit (demo_vs p) TransmitComplete deadline].

Definition demo_full : link :=
  demo_socket <| lk_owner :=
    fst (run_ops demo_owner ([OpBind 7] ++ demo_sent 1 5 ++ demo_sent 2 5 ++ [OpAbandonExpired 10]
                             ++ demo_sent 3 24 ++ demo_sent 4 50)) |>.

Lemma closing_abandonment_unreported_witness :
  let read := readResponsesUntil demo_full 100 (demo_read_env []) in
  let closing := {| ot_closeConnection := true; ot_failed := [demo_vs 4] |} in
  let r := read_correlated demo_full [] [] [] closing [] [] false false (demo_read_env []) in
  (tr_closed (lk_transport read.1) = true /\ ow_inFlight (lk_owner read.1) = ∅ /\
   read.2 = {| rd_responses := []; rd_transition := no_transition;
               rd_abandoned := [{| tv_owner := 100; tv_transactionID := 2; tv_physicalRequestID := 3;
                                  tv_generation := 1; tv_deadlineOffset := 24 |}]; rd_errors := [] |}) /\
  tr_closed (lk_transport r.1) = true /\ rd_transition r.2 = no_transition.
Proof.
  split; [by vm_compute|].
  destruct (closing_abandonment_unreported demo_full [] [] [] {| ot_closeConnection := true; ot_failed := [demo_vs 4] |}
    [] [] false (demo_read_env [])
    (read_correlated demo_full [] [] [] {| ot_closeConnection := true; ot_failed := [demo_vs 4] |} [] [] false false
       (demo_read_env [])).1
    (read_correlated demo_full [] [] [] {| ot_closeConnection := true; ot_failed := [demo_vs 4] |} [] [] false false
       (demo_read_env [])).2) as (H1 & H2 & _).
  - reflexivity.
  - by left.
  - by destruct (read_correlated _ _ _ _ _ _ _ _ _ _).
  - exact (conj H1 H2).
Defined.
