(* ===== verification/TcpRetry.v ===== *)
(** The retry ledger of the TCP endpoint (tcp_endpoint_retry.go): the life of every
    request handle, the handles retained for a retry or for driving a reconnect, and the
    reconnect state they share with [OpenConnection].

    A handle points to the state of its request; the states live in a store, at the
    identifier of the request, which the endpoint never reuses for a handle it returned.
    The code takes the lock of a state or of the endpoint for one critical section at a
    time.  Each critical section is a definition here and a constructor of
    [ledger_section]; an operation is the sequence of its critical sections, and between
    two of them, at a [gap], other threads run critical sections of theirs, which
    [rl_others] lists gap by gap.  Readings of the clock are arguments, in the order of
    the calls. *)

From S2P Require Import Prelude Pdu DeviceId DeviceIdTolerant TcpAdu TcpOwner TcpOwnerFacts Coalescing TcpTimeline TcpOperation.

(** * Data *)

Inductive tcpRequestLifecycle : Type :=
| tcpRequestActive
| tcpRequestRetrying
| tcpRequestRetryable
| tcpRequestTerminal.

#[export] Instance lifecycle_eq_dec : EqDecision tcpRequestLifecycle.
Proof. solve_decision. Defined.

Record TCPLogicalRead : Type := mkTCPLogicalRead {
  tq_LogicalViewID : Z;
  tq_Request : ReadRegistersRequest
}.

(** [bs_deviceID] is absent for a request that reads registers. *)
Record tcpRequestBackoffState : Type := mkTcpRequestBackoffState {
  bs_clockDebt : Z;
  bs_lifecycle : tcpRequestLifecycle;
  bs_retries : Z;
  bs_unitID : Z;
  bs_authorizationScope : string;
  bs_pollGeneration : Z;
  bs_deadlineIdentity : Z;
  bs_reads : list TCPLogicalRead;
  bs_deviceID : option DeviceIDRequest;
  bs_deviceIDLimits : DeviceIDLimits;
  bs_deviceIDDecoding : Z;
  bs_requiresBackoff : bool;
  bs_backoffSatisfied : bool;
  bs_backoffWaiting : bool
}.

#[export] Instance backoff_state_fields : Fields tcpRequestBackoffState := fun s =>
  mkTcpRequestBackoffState (bs_clockDebt s) (bs_lifecycle s) (bs_retries s) (bs_unitID s)
    (bs_authorizationScope s) (bs_pollGeneration s) (bs_deadlineIdentity s) (bs_reads s)
    (bs_deviceID s) (bs_deviceIDLimits s) (bs_deviceIDDecoding s) (bs_requiresBackoff s)
    (bs_backoffSatisfied s) (bs_backoffWaiting s).

(** The zero handle has identifier zero and no state. *)
Record TCPRequestHandle : Type := mkTCPRequestHandle {
  th_endpoint : Z;
  th_requestID : Z;
  th_deadlineOffset : Z
}.

#[export] Instance request_handle_eq_dec : EqDecision TCPRequestHandle.
Proof. solve_decision. Defined.

(** The critical sections of the operations, by what they are given.  In order: the end of
    a request; [setRequestRetryState] and its reconnect flags; the hook of a closed
    transport; [pruneRetryable] on one handle, twice; [trackRetryableState] on the retained
    handles and on a handle it ends; [terminalizeRetryable], twice;
    [restoreRetryLifecycle]; the claim of a wait, twice; its release, twice; the end of a
    wait; [completeReconnectBackoff] on one handle and on the flags; the claim and the
    commit of a retry; the cancellations; the flags of a new connection. *)
Inductive ledger_section : Type :=
| SecFinish (h : TCPRequestHandle)
| SecStore (h : TCPRequestHandle) (retryable requiresBackoff : bool)
| SecRequire
| SecMark
| SecPrune (h : TCPRequestHandle) (now : Z)
| SecForget (h : TCPRequestHandle)
| SecTrack (h : TCPRequestHandle) (lifecycle : tcpRequestLifecycle) (incomingRequiresBackoff : bool)
| SecEnd (h : TCPRequestHandle)
| SecTerminal (h : TCPRequestHandle)
| SecDropBackoff (h : TCPRequestHandle)
| SecRestore (h : TCPRequestHandle) (now : Z)
| SecWaitState (h : TCPRequestHandle)
| SecWaitFlag (h : TCPRequestHandle)
| SecClearState (h : TCPRequestHandle)
| SecClearFlag
| SecConclude (h : TCPRequestHandle) (elapsed delay : Z)
| SecComplete (h : TCPRequestHandle) (after elapsed delay : Z)
| SecCompleteFlags
| SecClaim (h : TCPRequestHandle) (now : Z)
| SecCommit (h : TCPRequestHandle)
| SecCancelView (h : TCPRequestHandle) (logicalViewID : Z)
| SecCancelAll (h : TCPRequestHandle)
| SecForgetRead (h : TCPRequestHandle) (logicalViewID : Z)
| SecConnect.

(** [rl_capacity] and [rl_maxRetries] are [MaxInFlightRequests] and [MaxRetryAttempts] of
    the scheduler limits, [rl_maxDeadline] is [MaxRequestDeadline]. *)
Record retry_ledger : Type := mkRetryLedger {
  rl_capacity : Z;
  rl_maxRetries : Z;
  rl_maxDeadline : Z;
  rl_states : gmap Z tcpRequestBackoffState;
  rl_retryable : gmap Z TCPRequestHandle;
  rl_reconnectRequired : bool;
  rl_reconnectReady : bool;
  rl_reconnectWaiting : bool;
  rl_disableReason : string;
  rl_closed : bool;
  rl_others : list (list ledger_section)
}.

#[export] Instance ledger_fields : Fields retry_ledger := fun l =>
  mkRetryLedger (rl_capacity l) (rl_maxRetries l) (rl_maxDeadline l) (rl_states l) (rl_retryable l)
    (rl_reconnectRequired l) (rl_reconnectReady l) (rl_reconnectWaiting l) (rl_disableReason l)
    (rl_closed l) (rl_others l).

Definition state_of (l : retry_ledger) (h : TCPRequestHandle) : option tcpRequestBackoffState :=
  rl_states l !! th_requestID h.

Definition set_state (l : retry_ledger) (h : TCPRequestHandle) (s : tcpRequestBackoffState) : retry_ledger :=
  l <| rl_states := <[th_requestID h := s]> (rl_states l) |>.

(** A critical section of the state of [h]. *)
Definition on_state (l : retry_ledger) (h : TCPRequestHandle)
    (f : tcpRequestBackoffState -> tcpRequestBackoffState) : retry_ledger :=
  match state_of l h with
  | None => l
  | Some s => set_state l h (f s)
  end.

Definition forget_retryable (l : retry_ledger) (requestID : Z) : retry_ledger :=
  l <| rl_retryable := delete requestID (rl_retryable l) |>.

Definition retry_error (kind : ErrorKind) (field : string) : ProtocolError := protocolError kind 0 0 field (-1).

(** * Critical sections: the life of a request *)

Definition store_lifecycle (l : retry_ledger) (h : TCPRequestHandle) (lifecycle : tcpRequestLifecycle)
    : retry_ledger :=
  on_state l h (fun s => s <| bs_lifecycle := lifecycle |>).

(** A request is admitted: the state its handle points to. *)
Definition admit_request (l : retry_ledger) (h : TCPRequestHandle) (unitID : Z) (scope : string)
    (poll deadlineIdentity : Z) (reads : list TCPLogicalRead) (deviceID : option DeviceIDRequest)
    (limits : DeviceIDLimits) (decoding : Z) : retry_ledger :=
  set_state l h
    {| bs_clockDebt := 0; bs_lifecycle := tcpRequestActive; bs_retries := 0; bs_unitID := unitID;
       bs_authorizationScope := scope; bs_pollGeneration := poll; bs_deadlineIdentity := deadlineIdentity;
       bs_reads := reads; bs_deviceID := deviceID; bs_deviceIDLimits := limits;
       bs_deviceIDDecoding := decoding; bs_requiresBackoff := false; bs_backoffSatisfied := false;
       bs_backoffWaiting := false |}.

(** The end of a request that no longer drives a reconnect. *)
Definition ended_state (s : tcpRequestBackoffState) : tcpRequestBackoffState :=
  s <| bs_lifecycle := tcpRequestTerminal |> <| bs_requiresBackoff := false |>
    <| bs_backoffSatisfied := false |>.

Definition end_request (l : retry_ledger) (h : TCPRequestHandle) : retry_ledger := on_state l h ended_state.

Definition effectiveRequestDeadlineLocked (h : TCPRequestHandle) (s : tcpRequestBackoffState) : option Z :=
  if (th_deadlineOffset h <=? 0) || (bs_clockDebt s <? 0) || (bs_clockDebt s >=? th_deadlineOffset h) then None
  else Some (th_deadlineOffset h - bs_clockDebt s).

(** Whether the effective deadline is missing or reached. *)
Definition past_deadline (h : TCPRequestHandle) (s : tcpRequestBackoffState) (now : Z) : bool :=
  match effectiveRequestDeadlineLocked h s with
  | None => true
  | Some deadline => now >=? deadline
  end.

Definition store_retry_state (l : retry_ledger) (h : TCPRequestHandle) (lifecycle : tcpRequestLifecycle)
    (requiresBackoff : bool) : retry_ledger :=
  on_state l h (fun s =>
    s <| bs_lifecycle := lifecycle |> <| bs_requiresBackoff := requiresBackoff |> <| bs_backoffSatisfied := false |>).

Definition require_reconnect (l : retry_ledger) : retry_ledger :=
  l <| rl_reconnectRequired := true |> <| rl_reconnectReady := false |>.

(** tcp_endpoint_write.go: the hook of a transport that closes after a failed write. *)
Definition markReconnectRequired (l : retry_ledger) : retry_ledger :=
  if rl_closed l then l else require_reconnect l.

(** An expired handle is over; whether the handle is then to be forgotten. *)
Definition prune_state (l : retry_ledger) (h : TCPRequestHandle) (now : Z) : retry_ledger * bool :=
  match state_of l h with
  | None => (l, false)
  | Some s =>
      let expired := bool_decide (bs_lifecycle s = tcpRequestRetryable) && past_deadline h s now in
      let s :=
        if expired then s <| bs_lifecycle := tcpRequestTerminal |> <| bs_backoffSatisfied := false |> else s in
      (set_state l h s, bool_decide (bs_lifecycle s = tcpRequestTerminal) && negb (bs_requiresBackoff s))
  end.

(** The retained handles in the order of their identifiers. *)
Definition handle_le (a b : TCPRequestHandle) : Prop := th_requestID a <= th_requestID b.
#[export] Instance handle_le_dec a b : Decision (handle_le a b) := Z_le_dec _ _.

Definition retained_handles (l : retry_ledger) : list TCPRequestHandle :=
  merge_sort handle_le (snd <$> map_to_list (rl_retryable l)).

(** The least identifier among the retained handles that drive no reconnect. *)
Definition evictable (l : retry_ledger) (h : TCPRequestHandle) : bool :=
  match state_of l h with Some s => negb (bs_requiresBackoff s) | None => false end.

Definition evict_id (l : retry_ledger) : option TCPRequestHandle :=
  head (filter (fun h => evictable l h = true) (retained_handles l)).

(** The retained handles take up or give up [h]: the handle evicted for it, and whether
    [h] is over. *)
Definition track_handle (l : retry_ledger) (h : TCPRequestHandle) (lifecycle : tcpRequestLifecycle)
    (incomingRequiresBackoff : bool) : retry_ledger * (option TCPRequestHandle * bool) :=
  match state_of l h with
  | None => (l, (None, false))
  | Some _ =>
  let retain :=
    bool_decide (lifecycle = tcpRequestRetryable) || bool_decide (lifecycle = tcpRequestRetrying)
    || (bool_decide (lifecycle = tcpRequestTerminal) && incomingRequiresBackoff) in
  let insert_handle l := l <| rl_retryable := <[th_requestID h := h]> (rl_retryable l) |> in
  if retain && negb (rl_closed l) then
    if bool_decide (is_Some (rl_retryable l !! th_requestID h))
       || (msize (rl_retryable l) <? rl_capacity l) then (insert_handle l, (None, false))
    else if incomingRequiresBackoff then
      match evict_id l with
      | Some evicted => (insert_handle (forget_retryable l (th_requestID evicted)), (Some evicted, false))
      | None => (l, (None, true))
      end
    else (l, (None, true))
  else (forget_retryable l (th_requestID h), (None, rl_closed l && retain))
  end.

Definition terminal_state (s : tcpRequestBackoffState) : tcpRequestBackoffState :=
  s <| bs_lifecycle := tcpRequestTerminal |> <| bs_backoffSatisfied := false |>.

Definition drop_backoff (l : retry_ledger) (h : TCPRequestHandle) : retry_ledger :=
  on_state l h (fun s => s <| bs_requiresBackoff := false |>).

Definition restored_state (h : TCPRequestHandle) (now : Z) (s : tcpRequestBackoffState) : tcpRequestBackoffState :=
  if bool_decide (bs_lifecycle s = tcpRequestRetrying) then
    s <| bs_lifecycle := if past_deadline h s now then tcpRequestTerminal else tcpRequestRetryable |>
  else s.

(** * Critical sections: reconnecting *)

(** The claim of a wait: the clock debt, and whether the handle only drives the recovery. *)
Definition wait_state (l : retry_ledger) (h : TCPRequestHandle) : retry_ledger * presult (Z * bool) :=
  match state_of l h with
  | None => (l, Err (retry_error ErrorInvalidRequest "backoff_wait"))
  | Some s =>
  let recoveryOnly := bool_decide (bs_lifecycle s = tcpRequestTerminal) && bs_requiresBackoff s in
  if (negb (bool_decide (bs_lifecycle s = tcpRequestRetryable)) && negb recoveryOnly)
     || negb (bs_requiresBackoff s) || bs_backoffSatisfied s || bs_backoffWaiting s then
    (l, Err (retry_error ErrorInvalidRequest "tcp_request_lifecycle"))
  else (set_state l h (s <| bs_backoffWaiting := true |>), Ok (bs_clockDebt s, recoveryOnly))
  end.

(** The claim of the endpoint's one wait, and whether it is granted. *)
Definition wait_flag (l : retry_ledger) : retry_ledger * bool :=
  if negb (rl_reconnectRequired l) || rl_reconnectWaiting l then (l, false)
  else (l <| rl_reconnectWaiting := true |>, true).

Definition clear_state (l : retry_ledger) (h : TCPRequestHandle) : retry_ledger :=
  on_state l h (fun s => s <| bs_backoffWaiting := false |>).

Definition clear_flag (l : retry_ledger) : retry_ledger := l <| rl_reconnectWaiting := false |>.

(** What the delay still costs after a wait that took [elapsed]. *)
Definition additional_debt (elapsed delay : Z) : Z := if elapsed <? delay then delay - elapsed else 0.

(** How the waiter finds its handle: no longer waiting for a reconnect, over because its
    clock debt would overflow, or as it was. *)
Inductive wait_end : Type :=
| WaitMoot
| WaitOverflow
| WaitDone.

Definition conclude_state (l : retry_ledger) (h : TCPRequestHandle) (additionalDebt : Z)
    : retry_ledger * wait_end :=
  match state_of l h with
  | None => (l, WaitMoot)
  | Some s =>
  let s := s <| bs_backoffWaiting := false |> in
  let recoveryOnly := bool_decide (bs_lifecycle s = tcpRequestTerminal) && bs_requiresBackoff s in
  if (negb (bool_decide (bs_lifecycle s = tcpRequestRetryable)) && negb recoveryOnly)
     || negb (bs_requiresBackoff s) then (set_state l h s, WaitMoot)
  else if additionalDebt >? MaxInt64 - bs_clockDebt s then (set_state l h (ended_state s), WaitOverflow)
  else (set_state l h s, WaitDone)
  end.

(** One retained handle at the end of a backoff, and whether it is over. *)
Definition complete_state (l : retry_ledger) (h : TCPRequestHandle) (after additionalDebt : Z)
    : retry_ledger * bool :=
  match state_of l h with
  | None => (l, false)
  | Some s =>
  if negb (bs_requiresBackoff s) then (l, false)
  else if bool_decide (bs_lifecycle s = tcpRequestTerminal) then
    (set_state l h (s <| bs_requiresBackoff := false |> <| bs_backoffSatisfied := false |>), true)
  else if negb (bool_decide (bs_lifecycle s = tcpRequestRetryable)) then (l, false)
  else
  let newDebt := bs_clockDebt s + additionalDebt in
  let terminal :=
    (additionalDebt >? MaxInt64 - bs_clockDebt s) || (newDebt >? MaxInt64 - after)
    || (after + newDebt >=? th_deadlineOffset h) in
  if terminal then (set_state l h (ended_state s), true)
  else (set_state l h (s <| bs_clockDebt := newDebt |> <| bs_backoffSatisfied := true |>), false)
  end.

Definition complete_flags (l : retry_ledger) : retry_ledger :=
  clear_flag (if rl_reconnectRequired l then l <| rl_reconnectReady := true |> else l).

(** tcp_endpoint_lifecycle.go: what [OpenConnection] asks of the ledger, and what a new
    connection does to it. *)
Definition may_connect (l : retry_ledger) : bool :=
  negb (rl_closed l) && (negb (rl_reconnectRequired l) || rl_reconnectReady l).

Definition connected (l : retry_ledger) : retry_ledger :=
  if rl_reconnectRequired l then l <| rl_reconnectRequired := false |> <| rl_reconnectReady := false |> else l.

(** * Critical sections: retrying and cancelling *)

(** The claim of a handle by [Retry]: its effective deadline, and the life it is then
    tracked with. *)
Definition claim_state (l : retry_ledger) (h : TCPRequestHandle) (now : Z)
    : retry_ledger * (presult Z * option tcpRequestLifecycle) :=
  match state_of l h with
  | None => (l, (Err (retry_error ErrorInvalidRequest "tcp_request_handle"), None))
  | Some s =>
  if negb (bool_decide (bs_lifecycle s = tcpRequestRetryable)) then
    (l, (Err (retry_error ErrorInvalidRequest "tcp_request_lifecycle"), None))
  else if bs_backoffWaiting s then (l, (Err (retry_error ErrorInvalidRequest "reconnect_backoff"), None))
  else if bs_retries s >=? rl_maxRetries l then
    (set_state l h (ended_state s),
     (Err (retry_error ErrorInvalidRange "retry_attempts"), Some tcpRequestTerminal))
  else if bs_requiresBackoff s && negb (bs_backoffSatisfied s) then
    (l, (Err (retry_error ErrorInvalidRequest "reconnect_backoff"), None))
  else if past_deadline h s now then
    (set_state l h (s <| bs_lifecycle := tcpRequestTerminal |>),
     (Err (retry_error ErrorInvalidRange "operation_deadline"), Some tcpRequestTerminal))
  else
    (set_state l h (s <| bs_lifecycle := tcpRequestRetrying |>),
     (Ok (th_deadlineOffset h - bs_clockDebt s), Some tcpRequestRetrying))
  end.

Definition retryStillOwned (l : retry_ledger) (h : TCPRequestHandle) : bool :=
  bool_decide (rl_retryable l !! th_requestID h = Some h)
  && bool_decide (bs_lifecycle <$> state_of l h = Some tcpRequestRetrying).

(** The retried request is active again. *)
Definition retry_commit (l : retry_ledger) (h : TCPRequestHandle) : retry_ledger :=
  forget_retryable
    (on_state l h (fun s =>
       s <| bs_retries := bs_retries s + 1 |> <| bs_lifecycle := tcpRequestActive |>
         <| bs_requiresBackoff := false |> <| bs_backoffSatisfied := false |>)) (th_requestID h).

Definition retained (l : retry_ledger) (h : TCPRequestHandle) : bool :=
  bool_decide (rl_retryable l !! th_requestID h = Some h).

Definition cancellable (s : tcpRequestBackoffState) : bool :=
  bool_decide (bs_lifecycle s = tcpRequestRetryable) || bool_decide (bs_lifecycle s = tcpRequestRetrying).

Definition cancelled_error : ProtocolError := retry_error ErrorInvalidRequest "tcp_request_lifecycle".

(** [CancelLogical] on a retained handle. *)
Definition cancel_retained_view (l : retry_ledger) (h : TCPRequestHandle) (logicalViewID : Z)
    : retry_ledger * option ProtocolError :=
  match state_of l h with
  | None => (l, Some cancelled_error)
  | Some s =>
  if negb (cancellable s) then (l, Some cancelled_error)
  else
  match list_find (fun r => tq_LogicalViewID r = logicalViewID) (bs_reads s) with
  | None => (l, Some (retry_error ErrorInvalidRequest "logical_view_id"))
  | Some (index, _) =>
      let reads := take index (bs_reads s) ++ drop (S index) (bs_reads s) in
      let s := s <| bs_reads := reads |> in
      if zlen reads =? 0 then
        let l := set_state l h (s <| bs_lifecycle := tcpRequestTerminal |> <| bs_backoffSatisfied := false |>) in
        (if negb (bs_requiresBackoff s) then forget_retryable l (th_requestID h) else l, None)
      else
        (set_state l h
           (if bool_decide (bs_lifecycle s = tcpRequestRetrying) then
              s <| bs_lifecycle := tcpRequestRetryable |>
            else s), None)
  end
  end.

(** [Cancel] on a retained handle, with the views it reports as cancelled. *)
Definition cancel_retained (l : retry_ledger) (h : TCPRequestHandle)
    : retry_ledger * presult (list Z) :=
  match state_of l h with
  | None => (l, Err cancelled_error)
  | Some s =>
  if negb (cancellable s) then (l, Err cancelled_error)
  else
    let l :=
      set_state l h
        (s <| bs_lifecycle := tcpRequestTerminal |> <| bs_backoffSatisfied := false |> <| bs_reads := [] |>) in
    (if negb (bs_requiresBackoff s) then forget_retryable l (th_requestID h) else l,
     Ok (merge_sort Z.le (tq_LogicalViewID <$> bs_reads s)))
  end.

(** [CancelLogical] on a live request. *)
Definition forget_read (l : retry_ledger) (h : TCPRequestHandle) (logicalViewID : Z) : retry_ledger :=
  on_state l h (fun s =>
    s <| bs_reads := filter (fun r => tq_LogicalViewID r <> logicalViewID) (bs_reads s) |>).

(** * Other threads *)

Definition section_step (l : retry_ledger) (section : ledger_section) : retry_ledger :=
  match section with
  | SecFinish h => store_lifecycle l h tcpRequestTerminal
  | SecStore h retryable requires =>
      store_retry_state l h (if retryable then tcpRequestRetryable else tcpRequestTerminal) requires
  | SecRequire => require_reconnect l
  | SecMark => markReconnectRequired l
  | SecPrune h now => (prune_state l h now).1
  | SecForget h => forget_retryable l (th_requestID h)
  | SecTrack h lifecycle incoming => (track_handle l h lifecycle incoming).1
  | SecEnd h => end_request l h
  | SecTerminal h => on_state l h terminal_state
  | SecDropBackoff h => drop_backoff l h
  | SecRestore h now => on_state l h (restored_state h now)
  | SecWaitState h => (wait_state l h).1
  | SecWaitFlag _ => (wait_flag l).1
  | SecClearState h => clear_state l h
  | SecClearFlag => clear_flag l
  | SecConclude h elapsed delay => (conclude_state l h (additional_debt elapsed delay)).1
  | SecComplete h after elapsed delay => (complete_state l h after (additional_debt elapsed delay)).1
  | SecCompleteFlags => complete_flags l
  | SecClaim h now => (claim_state l h now).1
  | SecCommit h => if retryStillOwned l h then retry_commit l h else l
  | SecCancelView h view => if retained l h then (cancel_retained_view l h view).1 else l
  | SecCancelAll h => if retained l h then (cancel_retained l h).1 else l
  | SecForgetRead h view => forget_read l h view
  | SecConnect => if may_connect l then connected l else l
  end.

(** What other threads do between two critical sections of an operation. *)
Definition gap (l : retry_ledger) : retry_ledger :=
  match rl_others l with
  | [] => l
  | sections :: others => foldl section_step (l <| rl_others := others |>) sections
  end.

(** * Operations *)

Definition setTCPRequestLifecycle (l : retry_ledger) (h : TCPRequestHandle)
    (lifecycle : tcpRequestLifecycle) : retry_ledger :=
  store_lifecycle (gap l) h lifecycle.

Definition prune_handle (now : Z) (l : retry_ledger) (h : TCPRequestHandle) : retry_ledger :=
  let '(l, terminal) := prune_state (gap l) h now in
  if terminal then forget_retryable (gap l) (th_requestID h) else l.

Definition pruneRetryable (l : retry_ledger) (now : Z) : retry_ledger :=
  if now <? 0 then l else foldl (prune_handle now) l (retained_handles l).

Definition trackRetryableState (l : retry_ledger) (h : TCPRequestHandle)
    (lifecycle : tcpRequestLifecycle) (now : Z) : retry_ledger :=
  match state_of l h with
  | None => l
  | Some _ =>
  let l := if bool_decide (lifecycle = tcpRequestRetryable) then pruneRetryable (gap l) now else l in
  let l := gap l in
  let incomingRequiresBackoff :=
    match state_of l h with Some s => bs_requiresBackoff s | None => false end in
  let '(l, (evicted, over)) := track_handle (gap l) h lifecycle incomingRequiresBackoff in
  let l := match evicted with Some evicted => end_request (gap l) evicted | None => l end in
  if over then end_request (gap l) h else l
  end.

Definition setRequestRetryState (l : retry_ledger) (h : TCPRequestHandle)
    (lifecycle : tcpRequestLifecycle) (requiresBackoff : bool) (now : Z) : retry_ledger :=
  match state_of l h with
  | None => l
  | Some _ =>
      let l := store_retry_state (gap l) h lifecycle requiresBackoff in
      let l :=
        if bool_decide (lifecycle = tcpRequestRetryable) && requiresBackoff then require_reconnect (gap l) else l in
      trackRetryableState l h lifecycle now
  end.

Definition terminalizeRetryable (l : retry_ledger) (h : TCPRequestHandle) (now : Z) : retry_ledger :=
  let l := gap l in
  match state_of l h with
  | None => l
  | Some s =>
      let l := on_state l h terminal_state in
      let l := if negb (bs_requiresBackoff s) then drop_backoff (gap l) h else l in
      trackRetryableState l h tcpRequestTerminal now
  end.

Definition restoreRetryLifecycle (l : retry_ledger) (h : TCPRequestHandle) (now trackedAt : Z)
    : retry_ledger :=
  let l := gap l in
  match state_of l h with
  | None => l
  | Some s =>
      let s := restored_state h now s in
      trackRetryableState (on_state l h (restored_state h now)) h (bs_lifecycle s) trackedAt
  end.

Definition complete_handle (after additionalDebt : Z) (l : retry_ledger) (h : TCPRequestHandle) : retry_ledger :=
  let '(l, terminal) := complete_state (gap l) h after additionalDebt in
  if terminal then trackRetryableState l h tcpRequestTerminal 0 else l.

Definition completeReconnectBackoff (l : retry_ledger) (after additionalDebt : Z) : retry_ledger :=
  let l := gap l in
  complete_flags (gap (foldl (complete_handle after additionalDebt) l (retained_handles l))).

(** [WaitReconnect] up to the claim of the wait: the clock debt, and whether the handle
    only drives the recovery. *)
Definition wait_claim (l : retry_ledger) (h : TCPRequestHandle) : retry_ledger * presult (Z * bool) :=
  match wait_state l h with
  | (l, Err err) => (l, Err err)
  | (l, Ok claimed) =>
      match wait_flag (gap l) with
      | (l, true) => (l, Ok claimed)
      | (l, false) => (clear_state (gap l) h, Err (retry_error ErrorInvalidRequest "reconnect_backoff"))
      end
  end.

Definition clearWaiting (l : retry_ledger) (h : TCPRequestHandle) : retry_ledger :=
  clear_flag (gap (clear_state (gap l) h)).

(** The time left for the delay, from the clock before the wait. *)
Definition wait_remaining (l : retry_ledger) (h : TCPRequestHandle) (debt before : Z) (recoveryOnly : bool)
    : presult Z :=
  if (before <? 0) || (debt >? MaxInt64 - before) then
    Err (retry_error ErrorInvalidRange "operation_deadline")
  else if recoveryOnly then Ok (rl_maxDeadline l)
  else if th_deadlineOffset h <=? before + debt then
    Err (retry_error ErrorInvalidRange "operation_deadline")
  else Ok (th_deadlineOffset h - (before + debt)).

(** [WaitReconnect] from the return of the waiter on; [before] and [after] are the clock
    around the wait. *)
Definition wait_conclude (l : retry_ledger) (h : TCPRequestHandle) (startedRecoveryOnly : bool)
    (before delay after : Z) : retry_ledger * errors :=
  let range := [ErrProtocol (retry_error ErrorInvalidRange "operation_deadline")] in
  if after <? before then
    (terminalizeRetryable (clearWaiting l h) h 0,
     [ErrProtocol (retry_error ErrorInvalidRange "monotonic_clock")])
  else
  let additionalDebt := additional_debt (after - before) delay in
  match conclude_state (gap l) h additionalDebt with
  | (l, WaitMoot) =>
      (completeReconnectBackoff l after additionalDebt,
       [ErrProtocol (retry_error ErrorInvalidRequest "tcp_request_lifecycle")])
  | (l, WaitOverflow) =>
      (trackRetryableState (completeReconnectBackoff l after additionalDebt) h tcpRequestTerminal 0, range)
  | (l, WaitDone) =>
      let l := gap (completeReconnectBackoff l after additionalDebt) in
      match state_of l h with
      | None => (l, [])
      | Some s =>
          (l,
           if bool_decide (bs_lifecycle s = tcpRequestTerminal) then
             if startedRecoveryOnly then [] else [ErrCanceled]
           else if negb (bool_decide (bs_lifecycle s = tcpRequestRetryable)) || negb (bs_backoffSatisfied s) then range
           else [])
      end
  end.

(** [Retry] up to the claim of the handle, with the effective deadline. *)
Definition retry_claim (l : retry_ledger) (h : TCPRequestHandle) (now : Z) : retry_ledger * presult Z :=
  let '(l, (result, tracked)) := claim_state l h now in
  (match tracked with Some lifecycle => trackRetryableState l h lifecycle 0 | None => l end, result).

(** What [Close] does to the ledger in the critical section that closes the endpoint. *)
Definition close_flags (l : retry_ledger) : retry_ledger :=
  l <| rl_closed := true |>
    <| rl_disableReason := if String.eqb (rl_disableReason l) "" then "closed" else rl_disableReason l |>
    <| rl_reconnectRequired := false |> <| rl_reconnectReady := false |> <| rl_reconnectWaiting := false |>
    <| rl_retryable := ∅ |>.

(** What [Close] does to the ledger: the handles of [requests] are those of the requests
    that were live. *)
Definition close_ledger (l : retry_ledger) (requests : list TCPRequestHandle) : retry_ledger :=
  if rl_closed l then l
  else
  let handles := retained_handles l in
  let l := foldl (fun l h => end_request (gap l) h) (close_flags l) handles in
  foldl (fun l h => setTCPRequestLifecycle l h tcpRequestTerminal) l requests.

(** The reason recorded by [disable], which then closes. *)
Definition record_reason (l : retry_ledger) (reason : string) : retry_ledger :=
  if String.eqb (rl_disableReason l) "" then l <| rl_disableReason := reason |> else l.
