(* ===== verification/TcpRetryFacts.v ===== *)
(** The retry ledger over any interleaving of critical sections: what is retained, how
    often and until when a request is retried, and how a reconnect can be blocked. *)

From S2P Require Import Prelude Pdu DeviceId DeviceIdTolerant TcpAdu TcpOwner TcpOwnerFacts Coalescing TcpTimeline TcpOperation TcpRetry.

Lemma msize_subseteq {A} (m1 m2 : gmap Z A) : m1 ⊆ m2 -> msize m1 <= msize m2.
Proof. intros H%map_subseteq_size. unfold msize. lia. Qed.

(** * What holds between any two critical sections *)

Record state_ok (maxRetries : Z) (s : tcpRequestBackoffState) : Prop := mk_state_ok {
  so_debt : 0 <= bs_clockDebt s;
  so_retries : 0 <= bs_retries s <= maxRetries;
  so_active : bs_lifecycle s = tcpRequestActive -> bs_requiresBackoff s = false;
  so_retrying : bs_lifecycle s = tcpRequestRetrying -> bs_retries s < maxRetries
}.

Record ledger_ok (l : retry_ledger) : Prop := mk_ledger_ok {
  lo_capacity : msize (rl_retryable l) <= rl_capacity l;
  lo_ready : rl_reconnectReady l = true -> rl_reconnectRequired l = true;
  lo_retained : forall id h, rl_retryable l !! id = Some h -> th_requestID h = id /\ is_Some (rl_states l !! id);
  lo_states : forall id s, rl_states l !! id = Some s -> state_ok (rl_maxRetries l) s;
  lo_closed : rl_closed l = true -> rl_retryable l = ∅
}.

(** The state of a request after it was activated [n] times more. *)
Record advances (n : Z) (s s' : tcpRequestBackoffState) : Prop := mk_advances {
  ev_count : 0 <= n;
  ev_retries : bs_retries s' = bs_retries s + n;
  ev_debt : bs_clockDebt s <= bs_clockDebt s';
  ev_active : n = 0 -> bs_lifecycle s' = tcpRequestActive -> bs_lifecycle s = tcpRequestActive;
  ev_reads : bs_reads s' `sublist_of` bs_reads s;
  ev_identity : bs_unitID s' = bs_unitID s /\ bs_authorizationScope s' = bs_authorizationScope s /\
    bs_pollGeneration s' = bs_pollGeneration s /\ bs_deadlineIdentity s' = bs_deadlineIdentity s /\
    bs_deviceID s' = bs_deviceID s /\ bs_deviceIDLimits s' = bs_deviceIDLimits s /\
    bs_deviceIDDecoding s' = bs_deviceIDDecoding s
}.

(** A state is replaced by a sound one. *)
Record becomes (maxRetries n : Z) (s s' : tcpRequestBackoffState) : Prop := mk_becomes {
  bc_advances : advances n s s';
  bc_ok : state_ok maxRetries s -> state_ok maxRetries s'
}.

(** The retained handles are no more than may be, each under its own identifier. *)
Definition fits (l : retry_ledger) : Prop :=
  msize (rl_retryable l) <= rl_capacity l /\ forall j h, rl_retryable l !! j = Some h -> th_requestID h = j.

(** Between two ledgers of a run in which each request [j] was activated [n j] times. *)
Record stepped (n : Z -> Z) (l l' : retry_ledger) : Prop := mk_stepped {
  st_capacity : rl_capacity l' = rl_capacity l;
  st_retries : rl_maxRetries l' = rl_maxRetries l;
  st_closed : rl_closed l = true -> rl_closed l' = true;
  st_states : forall j s, rl_states l !! j = Some s ->
    exists s', rl_states l' !! j = Some s' /\ becomes (rl_maxRetries l) (n j) s s';
  st_fits : fits l -> fits l';
  st_retained : forall j h, rl_retryable l' !! j = Some h ->
    rl_retryable l !! j = Some h \/ (rl_closed l' = false /\ is_Some (rl_states l' !! j));
  st_ready : (rl_reconnectReady l = true -> rl_reconnectRequired l = true) ->
    rl_reconnectReady l' = true -> rl_reconnectRequired l' = true;
  st_emptied : rl_closed l' = true -> rl_closed l = true \/ rl_retryable l' = ∅
}.

Ltac advance := split; cbn; try done; try lia; try congruence.

Lemma advances_refl s : advances 0 s s.
Proof. advance. Qed.

Lemma advances_trans n m s1 s2 s3 : advances n s1 s2 -> advances m s2 s3 -> advances (n + m) s1 s3.
Proof.
  intros [] []. split; try lia.
  - intros Hz Ha. apply ev_active0; [lia|]. apply ev_active1; [lia|done].
  - by etrans.
  - destruct_and?. conj; congruence.
Qed.

Lemma becomes_refl max s : becomes max 0 s s.
Proof. split; [apply advances_refl|done]. Qed.

Lemma becomes_trans max n m s1 s2 s3 : becomes max n s1 s2 -> becomes max m s2 s3 -> becomes max (n + m) s1 s3.
Proof. intros [] []. split; [by eapply advances_trans|auto]. Qed.

Abbreviation idle := (fun _ : Z => 0).

Lemma stepped_refl l : stepped idle l l.
Proof. split; try done; [|by left..]. intros j s Hs. exists s. split; [done|apply becomes_refl]. Qed.

Lemma stepped_trans n m l1 l2 l3 : stepped n l1 l2 -> stepped m l2 l3 -> stepped (fun j => n j + m j) l1 l3.
Proof.
  intros H1 H2. split; [destruct H1, H2; congruence|destruct H1, H2; congruence|destruct H1, H2; auto|..].
  - intros j s (s2 & Hs2 & T1)%(st_states _ _ _ H1). destruct (st_states _ _ _ H2 _ _ Hs2) as (s3 & Hs3 & T2).
    rewrite (st_retries _ _ _ H1) in T2. exists s3. split; [done|by eapply becomes_trans].
  - intros Hf. by apply (st_fits _ _ _ H2), (st_fits _ _ _ H1).
  - intros j h Hh. destruct (st_retained _ _ _ H2 _ _ Hh) as [Hh2|Hn]; [|by right].
    destruct (st_retained _ _ _ H1 _ _ Hh2) as [Hh1|(Hc & s & Hs)]; [by left|]. right.
    destruct (st_states _ _ _ H2 _ _ Hs) as (s3 & Hs3 & _). conj; [|by eexists].
    destruct (rl_closed l3) eqn:E; [|done]. destruct (st_emptied _ _ _ H2 E) as [?|He]; [congruence|].
    by rewrite He, lookup_empty in Hh.
  - intros Hr. apply (st_ready _ _ _ H2), (st_ready _ _ _ H1), Hr.
  - intros Hc. destruct (st_emptied _ _ _ H2 Hc) as [Hc2|He]; [|by right].
    destruct (st_emptied _ _ _ H1 Hc2) as [Hc1|He]; [by left|]. right. apply map_empty. intros j.
    destruct (rl_retryable l3 !! j) as [h|] eqn:E; [|done].
    destruct (st_retained _ _ _ H2 _ _ E) as [Hh|[Hf _]]; [by rewrite He, lookup_empty in Hh|congruence].
Qed.

(** The count of a run matters only request by request. *)
Lemma stepped_ext n m l l' : stepped n l l' -> (forall j, n j = m j) -> stepped m l l'.
Proof. intros [] H. split; try done. intros j s Hs. rewrite <- H. by apply st_states0. Qed.

Lemma stepped_then n l1 l2 l3 : stepped n l1 l2 -> stepped idle l2 l3 -> stepped n l1 l3.
Proof. intros H1 H2. eapply stepped_ext; [by eapply stepped_trans|]. intros j. cbn. lia. Qed.

Lemma stepped_ok n l l' : stepped n l l' -> (forall j, is_Some (rl_states l' !! j) -> is_Some (rl_states l !! j)) ->
  ledger_ok l -> ledger_ok l'.
Proof.
  intros H Hd [Kc Kr Kh Ks Kl]. assert (Hf : fits l') by (apply (st_fits _ _ _ H); split; [done|apply Kh]).
  split; [apply Hf|..].
  - by apply (st_ready _ _ _ H).
  - intros j h Hh. split; [by apply Hf|]. destruct (st_retained _ _ _ H _ _ Hh) as [Hh1|(_ & Hn)]; [|done].
    destruct (Kh _ _ Hh1) as [Hid [s Hs]]. destruct (st_states _ _ _ H _ _ Hs) as (s' & Hs' & _). by eauto.
  - intros j s' Hs'. destruct (Hd j) as [s Hs]; [by eexists|]. destruct (st_states _ _ _ H _ _ Hs) as (s2 & Hs2 & T).
    rewrite (st_retries _ _ _ H). assert (s2 = s') as -> by congruence. apply T. by apply (Ks j).
  - intros Hc. destruct (st_emptied _ _ _ H Hc) as [Hc1|He]; [|done]. apply map_empty. intros j.
    destruct (rl_retryable l' !! j) as [h|] eqn:E; [|done].
    destruct (st_retained _ _ _ H _ _ E) as [Hh|[Hn _]]; [|congruence]. by rewrite Kl, lookup_empty in Hh.
Qed.

(** * Critical sections *)

(** The activations a section brings about. *)
Definition once (id j : Z) (n : Z) : Z := if id =? j then n else 0.

Lemma stepped_set l h s s' n :
  state_of l h = Some s -> becomes (rl_maxRetries l) n s s' ->
  stepped (fun j => once (th_requestID h) j n) l (set_state l h s').
Proof.
  intros Hs T. split; try done; [|by left..]. intros j s0 Hs0. unfold once. cbn.
  destruct (decide (th_requestID h = j)) as [<-|Hj].
  - rewrite lookup_insert_eq, Z.eqb_refl. exists s'. split; [done|]. unfold state_of in Hs. by simplify_eq.
  - rewrite lookup_insert_ne by done. test_false (th_requestID h =? j). exists s0. split; [done|apply becomes_refl].
Qed.

Lemma stepped_store l h s s' :
  state_of l h = Some s -> becomes (rl_maxRetries l) 0 s s' -> stepped idle l (set_state l h s').
Proof.
  intros Hs T. eapply stepped_ext; [by eapply stepped_set|]. intros j. unfold once. by case_test.
Qed.

Lemma stepped_on_state l h f :
  (forall s, becomes (rl_maxRetries l) 0 s (f s)) -> stepped idle l (on_state l h f).
Proof.
  intros Hf. unfold on_state. destruct (state_of l h) as [s|] eqn:E; [|apply stepped_refl]. by eapply stepped_store.
Qed.

Lemma stepped_forget l id : stepped idle l (forget_retryable l id).
Proof.
  split; try done; [..|by left].
  - intros j s Hs. exists s. split; [done|apply becomes_refl].
  - intros [Hc Hk]. cbn. split; cbn.
    + pose proof (msize_subseteq _ _ (delete_subseteq (rl_retryable l) id)). lia.
    + intros j h [_ Hh]%lookup_delete_Some. by apply Hk.
  - intros j h. cbn. intros [_ Hh]%lookup_delete_Some. by left.
Qed.

(** Nothing but flags. *)
Lemma stepped_flags l l' :
  rl_capacity l' = rl_capacity l -> rl_maxRetries l' = rl_maxRetries l -> rl_states l' = rl_states l ->
  rl_retryable l' = rl_retryable l -> rl_closed l' = rl_closed l ->
  ((rl_reconnectReady l = true -> rl_reconnectRequired l = true) -> rl_reconnectReady l' = true ->
   rl_reconnectRequired l' = true) ->
  stepped idle l l'.
Proof.
  intros H1 H2 H3 H4 H5 H6. split; try done; unfold fits; rewrite ?H1, ?H3, ?H4, ?H5; try done; [|by left..].
  intros j s Hs. exists s. split; [done|apply becomes_refl].
Qed.

Lemma retained_handles_elem l h : h ∈ retained_handles l <-> exists id, rl_retryable l !! id = Some h.
Proof.
  unfold retained_handles. rewrite merge_sort_Permutation, list_elem_of_fmap. split.
  - intros ([id h'] & -> & Hl%elem_of_map_to_list). by exists id.
  - intros [id Hl]. exists (id, h). split; [done|]. by apply elem_of_map_to_list.
Qed.

(** [l'] retains [h] for one handle less, or with room to spare. *)
Lemma stepped_retain l h (m : gmap Z TCPRequestHandle) :
  rl_closed l = false -> is_Some (state_of l h) -> m ⊆ rl_retryable l ->
  (fits l -> msize (<[th_requestID h := h]> m) <= rl_capacity l) ->
  stepped idle l (l <| rl_retryable := <[th_requestID h := h]> m |>).
Proof.
  intros Hc Hs Hm Hf. split; try done; [..|by left].
  - intros j s Hj. exists s. split; [done|apply becomes_refl].
  - intros Hl. split; [by apply Hf|]. intros j h'. cbn. intros [[<- <-]|[Hj Hh]]%lookup_insert_Some; [done|].
    apply Hl. by eapply lookup_weaken.
  - intros j h'. cbn. intros [[<- <-]|[Hj Hh]]%lookup_insert_Some; [by right|].
    left. by eapply lookup_weaken.
Qed.

Lemma msize_insert_room {A} (m : gmap Z A) id x c : msize m < c -> msize (<[id := x]> m) <= c.
Proof. unfold msize. intros H. rewrite map_size_insert. destruct (m !! id); cbn; lia. Qed.

Lemma msize_delete_held {A} (m : gmap Z A) id : is_Some (m !! id) -> msize (delete id m) = msize m - 1.
Proof.
  intros [x Hx]. unfold msize. rewrite map_size_delete, Hx.
  assert (size m <> 0%nat) by (intros E%map_size_empty_inv; subst; by rewrite lookup_empty in Hx). lia.
Qed.

Lemma stepped_track l h lifecycle incoming : stepped idle l (track_handle l h lifecycle incoming).1.
Proof.
  unfold track_handle. destruct (state_of l h) as [s|] eqn:Es; [|apply stepped_refl]. cbv zeta.
  set (retain := _ || _ || _). destruct (retain && negb (rl_closed l)) eqn:Er; [|apply stepped_forget].
  assert (Hc : rl_closed l = false) by (destruct (rl_closed l), retain; done).
  clearbody retain.
  destruct (_ || _) eqn:Ef; cbn [fst].
  { apply stepped_retain; [done|by rewrite Es|done|]. intros [Hm _]. apply orb_true_iff in Ef as [Ef|Ef]; bool_hyps.
    - unfold msize in *. rewrite map_size_insert. destruct Ef as [x ->]. done.
    - apply msize_insert_room. lia. }
  destruct incoming; [|apply stepped_refl]. destruct (evict_id l) as [evicted|] eqn:Ee; [|apply stepped_refl].
  cbn [fst]. apply (stepped_retain l h (delete (th_requestID evicted) (rl_retryable l)));
    [done|by rewrite Es|apply delete_subseteq|].
  intros [Hm Hk]. apply head_Some_elem_of, list_elem_of_filter in Ee as [_ [id Hid]%retained_handles_elem].
  apply msize_insert_room. pose proof (Hk _ _ Hid) as ->. rewrite msize_delete_held by (by eexists). lia.
Qed.

(** A state of which only the life and the marks of a backoff change, not to active. *)
Ltac become := split; [advance|intros []; split; cbn; try done; try congruence; try lia].

Lemma become_ended max s : becomes max 0 s (ended_state s).
Proof. become. Qed.

Lemma become_terminal max s : becomes max 0 s (terminal_state s).
Proof. become. Qed.

Lemma become_waiting max s waits : becomes max 0 s (s <| bs_backoffWaiting := waits |>).
Proof. become. Qed.

Lemma become_restored max h now s : becomes max 0 s (restored_state h now s).
Proof. unfold restored_state. repeat case_test; become. Qed.

Lemma become_pruned max s (expired : bool) :
  becomes max 0 s (if expired then s <| bs_lifecycle := tcpRequestTerminal |> <| bs_backoffSatisfied := false |> else s).
Proof. destruct expired; [become|apply becomes_refl]. Qed.

Lemma stepped_prune l h now : stepped idle l (prune_state l h now).1.
Proof.
  unfold prune_state. destruct (state_of l h) as [s|] eqn:E; [|apply stepped_refl]. cbn [fst].
  eapply stepped_store; [exact E|apply become_pruned].
Qed.

Lemma stepped_wait l h : stepped idle l (wait_state l h).1.
Proof.
  unfold wait_state. destruct (state_of l h) as [s|] eqn:E; [|apply stepped_refl]. cbv zeta.
  case_test; [apply stepped_refl|]. eapply stepped_store; [exact E|apply become_waiting].
Qed.

Lemma stepped_conclude l h debt : stepped idle l (conclude_state l h debt).1.
Proof.
  unfold conclude_state. destruct (state_of l h) as [s|] eqn:E; [|apply stepped_refl]. cbv zeta.
  repeat case_test; (eapply stepped_store; [exact E|]); become.
Qed.

Lemma additional_debt_nonneg elapsed delay : 0 <= additional_debt elapsed delay.
Proof. unfold additional_debt. case_test; bool_hyps; lia. Qed.

Lemma stepped_complete l h after debt : 0 <= debt -> stepped idle l (complete_state l h after debt).1.
Proof.
  intros Hd. unfold complete_state. destruct (state_of l h) as [s|] eqn:E; [|apply stepped_refl]. cbv zeta.
  repeat (case_test; try apply stepped_refl); (eapply stepped_store; [exact E|]); try apply become_ended; become.
Qed.

Lemma stepped_claim l h now : stepped idle l (claim_state l h now).1.
Proof.
  unfold claim_state. destruct (state_of l h) as [s|] eqn:E; [|apply stepped_refl].
  repeat (case_test; try apply stepped_refl); bool_hyps; (eapply stepped_store; [exact E|]);
    try apply become_ended; become.
Qed.

Lemma drop_one_sublist {A} (xs : list A) i : take i xs ++ drop (S i) xs `sublist_of` xs.
Proof.
  rewrite <- (take_drop i xs) at 3. apply sublist_app; [done|]. rewrite <- (Nat.add_1_r i), <- drop_drop.
  apply sublist_drop.
Qed.

Lemma stepped_cancel_view l h view : stepped idle l (cancel_retained_view l h view).1.
Proof.
  unfold cancel_retained_view. destruct (state_of l h) as [s|] eqn:E; [|apply stepped_refl].
  case_test; [apply stepped_refl|]. destruct (list_find _ _) as [[index r]|]; [|apply stepped_refl]. cbv zeta.
  assert (Hsub := drop_one_sublist (bs_reads s) index).
  case_test; cbn [fst]; [case_test; [eapply stepped_then; [|apply stepped_forget]|]|];
    (eapply stepped_store; [exact E|]); try case_test; become.
Qed.

Lemma stepped_cancel l h : stepped idle l (cancel_retained l h).1.
Proof.
  unfold cancel_retained. destruct (state_of l h) as [s|] eqn:E; [|apply stepped_refl].
  case_test; [apply stepped_refl|]. cbv zeta. cbn [fst].
  case_test; [eapply stepped_then; [|apply stepped_forget]|]; (eapply stepped_store; [exact E|]); become;
    apply sublist_nil_l.
Qed.

Lemma stepped_commit l h :
  retryStillOwned l h = true -> stepped (fun j => once (th_requestID h) j 1) l (retry_commit l h).
Proof.
  unfold retryStillOwned, retry_commit, on_state. intros Ho. bool_hyps.
  destruct (state_of l h) as [s|] eqn:E; [|done]. cbn in H0. injection H0 as Hg.
  eapply stepped_then; [|apply stepped_forget]. eapply stepped_set; [exact E|]. split; [advance|].
  intros []. specialize (so_retrying0 Hg). split; cbn; try done. lia.
Qed.

(** How often a critical section activates the request [j] again. *)
Definition activates (l : retry_ledger) (section : ledger_section) (j : Z) : Z :=
  match section with
  | SecCommit h => if retryStillOwned l h then once (th_requestID h) j 1 else 0
  | _ => 0
  end.

Lemma section_stepped l section : stepped (activates l section) l (section_step l section).
Proof.
  destruct section; cbn [section_step].
  all: try first [apply stepped_prune | apply stepped_forget | apply stepped_track | apply stepped_wait
    | apply stepped_conclude | apply stepped_claim | apply stepped_complete, additional_debt_nonneg].
  - apply stepped_on_state. intros s. become.
  - apply stepped_on_state. intros s. case_test; become.
  - by apply stepped_flags.
  - unfold markReconnectRequired. case_test; [apply stepped_refl|by apply stepped_flags].
  - apply stepped_on_state, become_ended.
  - apply stepped_on_state, become_terminal.
  - apply stepped_on_state. intros s. become.
  - apply stepped_on_state, become_restored.
  - unfold wait_flag. case_test; [apply stepped_refl|by apply stepped_flags].
  - apply stepped_on_state. intros s. apply become_waiting.
  - by apply stepped_flags.
  - unfold complete_flags. destruct (rl_reconnectRequired l) eqn:E; apply stepped_flags; cbn; try done; congruence.
  - destruct (retryStillOwned l h) eqn:Ho.
    + eapply stepped_ext; [by apply stepped_commit|]. intros j. cbn. by rewrite Ho.
    + eapply stepped_ext; [apply stepped_refl|]. intros j. cbn. by rewrite Ho.
  - case_test; [apply stepped_cancel_view|apply stepped_refl].
  - case_test; [apply stepped_cancel|apply stepped_refl].
  - apply stepped_on_state. intros s. become. apply sublist_filter.
  - case_test; [|apply stepped_refl]. unfold connected. case_test; [by apply stepped_flags|apply stepped_refl].
Qed.

(** No section brings a state about. *)
Lemma on_state_domain l h f j : is_Some (rl_states (on_state l h f) !! j) -> is_Some (rl_states l !! j).
Proof.
  unfold on_state. destruct (state_of l h) as [s|] eqn:E; [|done]. cbn. unfold state_of in E.
  destruct (decide (th_requestID h = j)) as [<-|Hj]; [by rewrite E|by rewrite lookup_insert_ne].
Qed.

Lemma set_state_domain l h s s' j :
  state_of l h = Some s -> is_Some (rl_states (set_state l h s') !! j) -> is_Some (rl_states l !! j).
Proof. intros E. pose proof (on_state_domain l h (fun _ => s') j) as H. unfold on_state in H. by rewrite E in H. Qed.

Lemma section_domain l section j : is_Some (rl_states (section_step l section) !! j) -> is_Some (rl_states l !! j).
Proof.
  destruct section; cbn [section_step]; try done; try exact (on_state_domain _ _ _ _).
  - unfold markReconnectRequired. by case_test.
  - unfold prune_state. destruct (state_of l h) as [s|] eqn:E; [|done]. by eapply set_state_domain.
  - unfold track_handle. destruct (state_of l h); [|done]. cbv zeta. repeat case_match; done.
  - unfold wait_state. destruct (state_of l h) as [s|] eqn:E; [|done]. cbv zeta. case_test; [done|].
    by eapply set_state_domain.
  - unfold wait_flag. by case_test.
  - unfold conclude_state. destruct (state_of l h) as [s|] eqn:E; [|done]. cbv zeta.
    repeat case_test; by eapply set_state_domain.
  - unfold complete_state. destruct (state_of l h) as [s|] eqn:E; [|done]. cbv zeta.
    repeat case_test; first [done|by eapply set_state_domain].
  - unfold complete_flags. by case_test.
  - unfold claim_state. destruct (state_of l h) as [s|] eqn:E; [|done].
    repeat case_test; first [done|by eapply set_state_domain].
  - case_test; [|done]. unfold retry_commit. cbn. apply on_state_domain.
  - case_test; [|done]. unfold cancel_retained_view. destruct (state_of l h) as [s|] eqn:E; [|done].
    case_test; [done|]. destruct (list_find _ _) as [[index r]|]; [|done]. cbv zeta.
    repeat case_test; cbn [fst]; by eapply set_state_domain.
  - case_test; [|done]. unfold cancel_retained. destruct (state_of l h) as [s|] eqn:E; [|done].
    case_test; [done|]. cbv zeta. cbn [fst]. case_test; by eapply set_state_domain.
  - case_test; [|done]. unfold connected. by case_test.
Qed.

(** * Operations *)

(** A ledger after critical sections of any threads. *)
Inductive ledger_moves : retry_ledger -> retry_ledger -> Prop :=
| moves_refl l : ledger_moves l l
| moves_section l section l' : ledger_moves l l' -> ledger_moves l (section_step l' section)
| moves_others l others l' : ledger_moves l l' -> ledger_moves l (l' <| rl_others := others |>).

Lemma ledger_moves_trans l1 l2 l3 : ledger_moves l1 l2 -> ledger_moves l2 l3 -> ledger_moves l1 l3.
Proof. intros H1 H2. revert H1. induction H2; intros; [done|constructor; auto..]. Qed.

Lemma moves_sections l sections : ledger_moves l (foldl section_step l sections).
Proof.
  induction sections as [|section sections IH] using rev_ind; [constructor|]. rewrite foldl_app. by constructor.
Qed.

Lemma moves_gap l l' : ledger_moves l l' -> ledger_moves l (gap l').
Proof.
  intros H. unfold gap. destruct (rl_others l') as [|sections others]; [done|].
  eapply ledger_moves_trans; [|apply moves_sections]. by constructor.
Qed.

Lemma moves_foldl {A} (f : retry_ledger -> A -> retry_ledger) (xs : list A) l l' :
  (forall l l' x, ledger_moves l l' -> ledger_moves l (f l' x)) -> ledger_moves l l' -> ledger_moves l (foldl f l' xs).
Proof. intros Hf. revert l'. induction xs as [|x xs IH]; intros l' H; [done|]. cbn. auto. Qed.

(** An operation is the sequence of its critical sections: one lemma for each section that
    it goes through, from the last one. *)
Ltac section s := match goal with |- ledger_moves ?l _ => apply (moves_section l s) end.

Create HintDb moves.
#[export] Hint Resolve moves_refl moves_gap : moves.

Lemma moves_finish l l' h : ledger_moves l l' -> ledger_moves l (setTCPRequestLifecycle l' h tcpRequestTerminal).
Proof. intros H. section (SecFinish h). auto with moves. Qed.

Lemma moves_end l l' h : ledger_moves l l' -> ledger_moves l (end_request l' h).
Proof. intros H. by section (SecEnd h). Qed.
#[export] Hint Resolve moves_finish moves_end : moves.

Lemma moves_prune l l' now : ledger_moves l l' -> ledger_moves l (pruneRetryable l' now).
Proof.
  intros H. unfold pruneRetryable. case_test; [done|]. apply moves_foldl; [|done]. clear. intros l l' h H.
  unfold prune_handle. assert (H1 : ledger_moves l (prune_state (gap l') h now).1) by (section (SecPrune h now); auto with moves).
  destruct (prune_state _ _ _) as [l1 terminal]. case_test; [|done]. section (SecForget h). auto with moves.
Qed.

Lemma moves_track l l' h lifecycle now : ledger_moves l l' -> ledger_moves l (trackRetryableState l' h lifecycle now).
Proof.
  intros H. unfold trackRetryableState. destruct (state_of l' h); [|done]. cbv zeta.
  set (l1 := gap (if bool_decide _ then _ else _)). set (incoming := match state_of l1 h with Some _ => _ | None => _ end).
  assert (H1 : ledger_moves l (track_handle (gap l1) h lifecycle incoming).1).
  { section (SecTrack h lifecycle incoming). subst l1. case_test; auto using moves_prune with moves. }
  destruct (track_handle _ _ _ _) as [l2 [evicted over]]. cbn [fst] in H1.
  destruct evicted, over; auto with moves.
Qed.
#[export] Hint Resolve moves_track : moves.

Lemma moves_retry_state l l' h lifecycle requires now :
  lifecycle = tcpRequestRetryable \/ lifecycle = tcpRequestTerminal ->
  ledger_moves l l' -> ledger_moves l (setRequestRetryState l' h lifecycle requires now).
Proof.
  intros Hl H. unfold setRequestRetryState. destruct (state_of l' h); [|done]. cbv zeta. apply moves_track.
  assert (H1 : ledger_moves l (store_retry_state (gap l') h lifecycle requires)).
  { destruct Hl as [-> | ->]; [section (SecStore h true requires)|section (SecStore h false requires)]; auto with moves. }
  case_test; [|done]. section SecRequire. auto with moves.
Qed.

Lemma moves_terminalize l l' h now : ledger_moves l l' -> ledger_moves l (terminalizeRetryable l' h now).
Proof.
  intros H. unfold terminalizeRetryable. cbv zeta. destruct (state_of (gap l') h); [|auto with moves]. apply moves_track.
  assert (H1 : ledger_moves l (on_state (gap l') h terminal_state)) by (section (SecTerminal h); auto with moves).
  case_test; [|done]. section (SecDropBackoff h). auto with moves.
Qed.

Lemma moves_restore l l' h now trackedAt : ledger_moves l l' -> ledger_moves l (restoreRetryLifecycle l' h now trackedAt).
Proof.
  intros H. unfold restoreRetryLifecycle. cbv zeta. destruct (state_of (gap l') h); [|auto with moves]. apply moves_track.
  section (SecRestore h now). auto with moves.
Qed.

Lemma moves_complete l l' after elapsed delay :
  ledger_moves l l' -> ledger_moves l (completeReconnectBackoff l' after (additional_debt elapsed delay)).
Proof.
  intros H. unfold completeReconnectBackoff. cbv zeta. section SecCompleteFlags. apply moves_gap.
  apply moves_foldl; [|auto with moves]. clear. intros l l' h H. unfold complete_handle.
  assert (H1 : ledger_moves l (complete_state (gap l') h after (additional_debt elapsed delay)).1)
    by (section (SecComplete h after elapsed delay); auto with moves).
  destruct (complete_state _ _ _ _) as [l1 terminal]. case_test; auto with moves.
Qed.

Lemma moves_clear_state l l' h : ledger_moves l l' -> ledger_moves l (clear_state l' h).
Proof. intros H. by section (SecClearState h). Qed.
#[export] Hint Resolve moves_complete moves_clear_state moves_terminalize : moves.

Lemma moves_clear l l' h : ledger_moves l l' -> ledger_moves l (clearWaiting l' h).
Proof. intros H. section SecClearFlag. auto with moves. Qed.

Lemma moves_wait_claim l l' h : ledger_moves l l' -> ledger_moves l (wait_claim l' h).1.
Proof.
  intros H. unfold wait_claim. assert (H1 : ledger_moves l (wait_state l' h).1) by (by section (SecWaitState h)).
  destruct (wait_state l' h) as [l1 [claimed|err]]; [|done]. cbn [fst] in H1.
  assert (H2 : ledger_moves l (wait_flag (gap l1)).1) by (section (SecWaitFlag h); auto with moves).
  destruct (wait_flag (gap l1)) as [l2 []]; cbn [fst] in *; auto with moves.
Qed.

Lemma moves_wait_conclude l l' h recovery before delay after :
  ledger_moves l l' -> ledger_moves l (wait_conclude l' h recovery before delay after).1.
Proof.
  intros H. unfold wait_conclude. cbv zeta. case_test; [apply moves_terminalize; by apply moves_clear|].
  assert (H1 : ledger_moves l (conclude_state (gap l') h (additional_debt (after - before) delay)).1)
    by (section (SecConclude h (after - before) delay); auto with moves).
  destruct (conclude_state _ _ _) as [l1 []]; cbn [fst] in *; [auto with moves..|].
  case_match; cbn [fst]; auto with moves.
Qed.

Lemma moves_retry_claim l l' h now : ledger_moves l l' -> ledger_moves l (retry_claim l' h now).1.
Proof.
  intros H. unfold retry_claim. assert (H1 : ledger_moves l (claim_state l' h now).1) by (by section (SecClaim h now)).
  destruct (claim_state l' h now) as [l1 [result tracked]]. cbn [fst] in *. destruct tracked; auto with moves.
Qed.

(** ** What every operation keeps *)

Lemma moves_stepped l l' : ledger_moves l l' -> exists n, stepped n l l'.
Proof.
  induction 1 as [l|l section l' _ [n IH]|l others l' _ [n IH]].
  - eexists. apply stepped_refl.
  - eexists. eapply stepped_trans; [exact IH|apply section_stepped].
  - eexists. eapply stepped_then; [exact IH|by apply stepped_flags].
Qed.

Lemma moves_domain l l' j : ledger_moves l l' -> is_Some (rl_states l' !! j) -> is_Some (rl_states l !! j).
Proof. induction 1; auto. intros H'. apply IHledger_moves. by eapply section_domain. Qed.

Lemma ledger_moves_ok l l' : ledger_moves l l' -> ledger_ok l -> ledger_ok l'.
Proof.
  intros H. destruct (moves_stepped _ _ H) as [n Hs]. apply (stepped_ok n); [done|]. intros j. by apply moves_domain.
Qed.

(** * Runs *)

(** What happens to a ledger: critical sections of any threads in any order, the
    admission of a request under a fresh identifier, and the critical sections that close
    the endpoint or record why. *)
Inductive ledger_op : Type :=
| OpSection (section : ledger_section)
| OpAdmit (h : TCPRequestHandle) (unitID : Z) (scope : string) (poll deadlineIdentity : Z)
    (reads : list TCPLogicalRead) (deviceID : option DeviceIDRequest) (limits : DeviceIDLimits) (decoding : Z)
| OpReason (reason : string)
| OpCloseFlags.

Definition ledger_step (l : retry_ledger) (op : ledger_op) : retry_ledger :=
  match op with
  | OpSection section => section_step l section
  | OpAdmit h unitID scope poll identity reads deviceID limits decoding =>
      if bool_decide (state_of l h = None) then
        admit_request l h unitID scope poll identity reads deviceID limits decoding
      else l
  | OpReason reason => record_reason l reason
  | OpCloseFlags => if rl_closed l then l else close_flags l
  end.

Definition ledger_run (l : retry_ledger) (ops : list ledger_op) : retry_ledger := foldl ledger_step l ops.

Definition new_ledger (capacity maxRetries maxDeadline : Z) : retry_ledger :=
  {| rl_capacity := capacity; rl_maxRetries := maxRetries; rl_maxDeadline := maxDeadline; rl_states := ∅;
     rl_retryable := ∅; rl_reconnectRequired := false; rl_reconnectReady := false;
     rl_reconnectWaiting := false; rl_disableReason := ""; rl_closed := false; rl_others := [] |}.

Lemma new_ledger_ok capacity maxRetries maxDeadline :
  0 <= capacity -> ledger_ok (new_ledger capacity maxRetries maxDeadline).
Proof. intros Hc. split; [done|done|..|done]; by intros *; cbn; rewrite lookup_empty. Qed.

Lemma stepped_close l : 0 <= rl_capacity l -> stepped idle l (close_flags l).
Proof.
  intros Hc. split; try done; [|by right]. intros j s Hs. exists s. split; [done|apply becomes_refl].
Qed.

Lemma stepped_reason l reason : stepped idle l (record_reason l reason).
Proof. unfold record_reason. case_test; [by apply stepped_flags|apply stepped_refl]. Qed.

Lemma stepped_admit l h unitID scope poll identity reads deviceID limits decoding :
  state_of l h = None -> stepped idle l (admit_request l h unitID scope poll identity reads deviceID limits decoding).
Proof.
  intros Hn. unfold state_of in Hn. split; try done; [|by left..]. intros j s Hs. exists s. split; [|apply becomes_refl]. cbn.
  rewrite lookup_insert_ne; [done|]. intros E. congruence.
Qed.

Lemma admit_ok l h unitID scope poll identity reads deviceID limits decoding :
  ledger_ok l -> 0 <= rl_maxRetries l -> ledger_ok (admit_request l h unitID scope poll identity reads deviceID limits decoding).
Proof.
  intros [] Hm. split; try done; cbn.
  - intros j h' (Hid & Hs)%lo_retained0. split; [done|]. apply lookup_insert_is_Some'. by right.
  - intros j s [[_ <-]|[_ Hs]]%lookup_insert_Some; [|by eapply lo_states0]. by split.
Qed.

Lemma close_flags_ok l : ledger_ok l -> 0 <= rl_capacity l -> ledger_ok (close_flags l).
Proof. intros Hl Hc. apply (stepped_ok idle l); [by apply stepped_close|done|done]. Qed.

Lemma reason_ok l reason : ledger_ok l -> ledger_ok (record_reason l reason).
Proof. apply (stepped_ok idle l); [apply stepped_reason|]. unfold record_reason. by case_test. Qed.

(** How often the request [j] is activated again. *)
Definition op_activates (l : retry_ledger) (op : ledger_op) (j : Z) : Z :=
  match op with OpSection section => activates l section j | _ => 0 end.

Fixpoint activations (l : retry_ledger) (ops : list ledger_op) (j : Z) : Z :=
  match ops with
  | [] => 0
  | op :: ops => op_activates l op j + activations (ledger_step l op) ops j
  end.

Lemma step_stepped l op : 0 <= rl_capacity l -> stepped (op_activates l op) l (ledger_step l op).
Proof.
  intros Hc. destruct op; cbn [ledger_step].
  - apply section_stepped.
  - case_test; [|apply stepped_refl]. bool_hyps. by apply stepped_admit.
  - apply stepped_reason.
  - case_test; [apply stepped_refl|by apply stepped_close].
Qed.

Lemma step_ok l op : ledger_ok l -> 0 <= rl_capacity l -> 0 <= rl_maxRetries l -> ledger_ok (ledger_step l op).
Proof.
  intros Hl Hc Hm. destruct op; cbn [ledger_step].
  - eapply ledger_moves_ok; [|done]. apply moves_section, moves_refl.
  - case_test; [|done]. by apply admit_ok.
  - by apply reason_ok.
  - case_test; [done|by apply close_flags_ok].
Qed.

Lemma run_stepped ops l :
  ledger_ok l -> 0 <= rl_capacity l -> 0 <= rl_maxRetries l ->
  stepped (activations l ops) l (ledger_run l ops) /\ ledger_ok (ledger_run l ops).
Proof.
  revert l. induction ops as [|op ops IH]; intros l Hl Hc Hm; [split; [apply stepped_refl|done]|]. cbn.
  pose proof (step_stepped l op Hc) as H1. fold (ledger_run (ledger_step l op) ops).
  destruct (IH (ledger_step l op)) as [H2 Hok].
  - by apply step_ok.
  - by rewrite (st_capacity _ _ _ H1).
  - by rewrite (st_retries _ _ _ H1).
  - split; [|done]. eapply stepped_trans; [exact H1|exact H2].
Qed.

Lemma past_deadline_mono h s s' now :
  0 <= bs_clockDebt s <= bs_clockDebt s' -> past_deadline h s now = true -> past_deadline h s' now = true.
Proof.
  intros Hd. unfold past_deadline, effectiveRequestDeadlineLocked.
  destruct (_ || _ || _) eqn:E1.
  - intros _. rewrite <- orb_assoc in E1. apply orb_true_iff in E1 as [E1|E1]; [by rewrite E1|].
    apply orb_true_iff in E1 as [E1|E1]; bool_hyps; [lia|].
    test_true (bs_clockDebt s' >=? th_deadlineOffset h). by rewrite !orb_true_r.
  - bool_hyps. intros E2. bool_hyps. destruct (_ || _ || _) eqn:E3; [done|]. bool_hyps. bool_goal. lia.
Qed.

(** * A reconnect that nobody can drive *)

Definition waiting (l : retry_ledger) (h : TCPRequestHandle) : bool :=
  match state_of l h with Some s => bs_backoffWaiting s | None => false end.

(** Whether the threads act in the order of their code, [waits] of them holding the
    endpoint's wait: it is claimed by who has claimed its handle, and given up or
    completed by who holds it. *)
Fixpoint orderly (waits : nat) (l : retry_ledger) (ops : list ledger_op) : bool :=
  match ops with
  | [] => true
  | op :: ops =>
      match op with
      | OpSection (SecWaitFlag h) =>
          waiting l h && orderly (if (wait_flag l).2 then S waits else waits) (ledger_step l op) ops
      | OpSection SecClearFlag | OpSection SecCompleteFlags =>
          match waits with
          | O => false
          | S waits => orderly waits (ledger_step l op) ops
          end
      | _ => orderly waits (ledger_step l op) ops
      end
  end.

(** No connection is lost with a request that is to be retried after a reconnect. *)
Definition no_loss (op : ledger_op) : bool :=
  match op with
  | OpSection (SecStore _ _ requiresBackoff) => negb requiresBackoff
  | _ => true
  end.

Definition quiet (s : tcpRequestBackoffState) : Prop := bs_requiresBackoff s = false /\ bs_backoffWaiting s = false.

(** No handle drives a reconnect, which is required and not granted. *)
Record blocked (l : retry_ledger) : Prop := mk_blocked {
  bl_quiet : map_Forall (fun _ s => quiet s) (rl_states l);
  bl_flags : rl_closed l = true \/ (rl_reconnectRequired l = true /\ rl_reconnectReady l = false)
}.

Lemma quiet_at l h s : blocked l -> state_of l h = Some s -> quiet s.
Proof. intros Hb. apply (map_Forall_lookup_1 _ _ _ _ (bl_quiet _ Hb)). Qed.

Lemma blocked_set l h s : blocked l -> quiet s -> blocked (set_state l h s).
Proof. intros [Hq Hf] Hs. split; [by apply map_Forall_insert_2|done]. Qed.

Lemma blocked_on_state l h f : blocked l -> (forall s, quiet s -> quiet (f s)) -> blocked (on_state l h f).
Proof.
  intros Hb Hf. unfold on_state. destruct (state_of l h) as [s|] eqn:E; [|done].
  apply blocked_set; [done|]. by eapply Hf, quiet_at.
Qed.

Lemma blocked_forget l id : blocked l -> blocked (forget_retryable l id).
Proof. by intros []. Qed.

Lemma blocked_track l h lifecycle incoming : blocked l -> blocked (track_handle l h lifecycle incoming).1.
Proof. intros []. unfold track_handle. destruct (state_of l h); [|done]. cbv zeta. repeat case_match; done. Qed.

(** A section of one state, none of which is made to wait or to drive a reconnect. *)
Ltac quiet_state Hb :=
  match goal with |- context [state_of ?l ?h] =>
    let E := fresh "E" in let s := fresh "s" in
    destruct (state_of l h) as [s|] eqn:E; [|exact Hb]; destruct (quiet_at _ _ _ Hb E) as [Hr Hw] end;
  cbv zeta; repeat case_match; cbn [fst]; try apply blocked_forget; first [exact Hb | by apply blocked_set].

Lemma blocked_section l section :
  blocked l -> no_loss (OpSection section) = true ->
  match section with SecClearFlag | SecCompleteFlags => False | _ => True end -> blocked (section_step l section).
Proof.
  intros Hb Hl Ho. destruct section; cbn [section_step no_loss] in *; try done.
  all: try by apply blocked_on_state; [|intros s [? ?]].
  - bool_hyps. subst. by apply blocked_on_state; [|intros s [? ?]].
  - split; [apply Hb|by right].
  - unfold markReconnectRequired. case_test; [done|]. split; [apply Hb|by right].
  - unfold prune_state. quiet_state Hb.
  - by apply blocked_forget.
  - by apply blocked_track.
  - apply blocked_on_state; [done|]. intros s [? ?]. unfold restored_state. by repeat case_test.
  - unfold wait_state. destruct (state_of l h) as [s|] eqn:E; [|done]. destruct (quiet_at _ _ _ Hb E) as [-> _].
    cbn. by rewrite orb_true_r.
  - unfold wait_flag. destruct Hb. by case_test.
  - unfold conclude_state. quiet_state Hb.
  - unfold complete_state. quiet_state Hb.
  - unfold claim_state. quiet_state Hb.
  - case_test; [|done]. apply blocked_forget. by apply blocked_on_state; [|intros s [? ?]].
  - case_test; [|done]. unfold cancel_retained_view. quiet_state Hb.
  - case_test; [|done]. unfold cancel_retained. quiet_state Hb.
  - case_test; [|done]. exfalso. unfold may_connect in *. bool_hyps. destruct (bl_flags _ Hb) as [Hc|[Hr Hn]]; [congruence|].
    by rewrite Hr, Hn in *.
Qed.

Lemma blocked_run ops l :
  blocked l -> Forall (fun op => no_loss op = true) ops -> orderly 0 l ops = true -> blocked (ledger_run l ops).
Proof.
  revert l. induction ops as [|op ops IH]; intros l Hb Hops Hord; [done|]. apply Forall_cons in Hops as [H1 H2].
  cbn [ledger_run foldl]. fold (ledger_run (ledger_step l op) ops).
  destruct op as [section|h unitID scope poll identity reads deviceID limits decoding|reason|].
  - destruct section; cbn [orderly] in Hord; try done.
    all: try by apply IH; [apply blocked_section|..].
    exfalso. apply andb_true_iff in Hord as [Hw _]. unfold waiting in Hw. destruct (state_of l h) as [s|] eqn:E; [|done].
    destruct (quiet_at _ _ _ Hb E). congruence.
  - apply IH; [|done..]. cbn [ledger_step]. case_test; [by apply blocked_set|done].
  - apply IH; [|done..]. cbn [ledger_step]. unfold record_reason. destruct Hb. by case_test.
  - apply IH; [|done..]. cbn [ledger_step]. case_test; [done|]. split; [apply Hb|by left].
Qed.

(** * Properties *)

(** C22: Over any interleaving of the critical sections of any threads, the requests of a
    ledger only move forward: a request keeps its identity, its reads are only cancelled,
    its clock debt only grows, so a deadline once passed stays passed; the retries
    recorded are exactly the times it was activated again, which are never more than the
    limit; and a request that is no longer active becomes active only by such a retry. *)
Theorem retries_bounded capacity maxRetries maxDeadline earlier later j s :
  0 <= capacity -> 0 <= maxRetries ->
  let l := ledger_run (new_ledger capacity maxRetries maxDeadline) earlier in
  rl_states l !! j = Some s ->
  exists s', rl_states (ledger_run l later) !! j = Some s' /\ advances (activations l later j) s s' /\
    bs_retries s' <= maxRetries /\
    forall h now, past_deadline h s now = true -> past_deadline h s' now = true.
Proof.
  intros Hc Hm l Hs.
  destruct (run_stepped earlier (new_ledger capacity maxRetries maxDeadline)) as [H1 Hl];
    [by apply new_ledger_ok|done..|]. fold l in H1, Hl.
  destruct (run_stepped later l) as [H2 Hl2];
    [done|by rewrite (st_capacity _ _ _ H1)|by rewrite (st_retries _ _ _ H1)|].
  destruct (st_states _ _ _ H2 j s Hs) as (s' & Hs' & [Ha _]). exists s'. conj; [done|done|..].
  - destruct (lo_states _ Hl2 _ _ Hs') as [_ Hr _ _]. rewrite (st_retries _ _ _ H2), (st_retries _ _ _ H1) in Hr. apply Hr.
  - intros h now. apply past_deadline_mono. split; [|apply Ha].
    apply (so_debt (rl_maxRetries l)). by apply (lo_states _ Hl j).
Qed.

(** C23: An exhausted retry blocks the reconnect.  While a reconnect is required, [Retry]
    on the only handle that can drive it, with its retries used up and nobody waiting,
    answers retry_attempts and, in the critical section that decides so, gives the handle
    up for the reconnect too.  From then on, whatever critical sections of any threads
    follow, each thread's in the order of its code, [OpenConnection] is refused and
    [WaitReconnect] is refused for every handle, until another connection is lost. *)
Theorem exhausted_retry_blocks_reconnect l h s now ops :
  ledger_ok l -> state_of l h = Some s -> bs_lifecycle s = tcpRequestRetryable ->
  rl_maxRetries l <= bs_retries s ->
  rl_reconnectRequired l = true -> rl_reconnectReady l = false ->
  map_Forall (fun j s' => bs_backoffWaiting s' = false /\ (j <> th_requestID h -> bs_requiresBackoff s' = false))
    (rl_states l) ->
  let l1 := (claim_state l h now).1 in
  Forall (fun op => no_loss op = true) ops -> orderly 0 l1 ops = true ->
  let l' := ledger_run l1 ops in
  (retry_claim l h now).2 = Err (retry_error ErrorInvalidRange "retry_attempts") /\
  may_connect l' = false /\ forall h', exists err, (wait_claim l' h').2 = Err err.
Proof.
  intros Hl Hs Hlife Hmax Hreq Hready Hall. cbv zeta.
  pose proof (map_Forall_lookup_1 _ _ _ _ Hall Hs) as [Hw _].
  assert (Hclaim : claim_state l h now = (set_state l h (ended_state s),
    (Err (retry_error ErrorInvalidRange "retry_attempts"), Some tcpRequestTerminal))).
  { unfold claim_state. rewrite Hs, Hlife, Hw. rewrite bool_decide_true by done. cbn [negb].
    by test_true (bs_retries s >=? rl_maxRetries l). }
  unfold retry_claim. rewrite Hclaim. cbn [fst snd]. intros Hops Hord. split; [done|].
  assert (Hb : blocked (set_state l h (ended_state s))).
  { split; [|by right]. intros j s'. cbn. intros [[<- <-]|[Hj Hj']]%lookup_insert_Some; [done|].
    destruct (map_Forall_lookup_1 _ _ _ _ Hall Hj') as [H1 H2]. split; [by apply H2|done]. }
  apply (blocked_run ops) in Hb; [|done..]. set (l' := ledger_run _ ops) in *. split.
  - unfold may_connect. destruct (bl_flags _ Hb) as [-> |[-> ->]]; [done|]. by rewrite andb_false_r.
  - intros h'. unfold wait_claim, wait_state. destruct (state_of l' h') as [s'|] eqn:E; [|by eexists].
    destruct (quiet_at _ _ _ Hb E) as [-> _]. cbn. rewrite orb_true_r. by eexists.
Qed.

(** Witnesses *)

Definition demo_handle_of (id : Z) : TCPRequestHandle :=
  {| th_endpoint := 1; th_requestID := id; th_deadlineOffset := 1000 |}.

Definition demo_admit (id : Z) : ledger_op :=
  OpAdmit (demo_handle_of id) 17 "scope" 1 1 [] None
    {| dl_MaxSegments := 1; dl_MaxObjects := 1; dl_MaxValueBytes := 1 |} 0.

(** The sections of a request that lost its connection, waited, and was retried once;
    another request is admitted and fails while the first one waits. *)
Definition demo_retried : list ledger_op :=
  [OpSection (SecStore (demo_handle_of 1) true true); OpSection SecRequire;
   OpSection (SecTrack (demo_handle_of 1) tcpRequestRetryable true);
   OpSection (SecWaitState (demo_handle_of 1)); OpSection (SecWaitFlag (demo_handle_of 1)); demo_admit 2;
   OpSection (SecConclude (demo_handle_of 1) 20 50); OpSection (SecFinish (demo_handle_of 2));
   OpSection (SecComplete (demo_handle_of 1) 120 20 50); OpSection SecCompleteFlags; OpSection SecConnect;
   OpSection (SecClaim (demo_handle_of 1) 130); OpSection (SecTrack (demo_handle_of 1) tcpRequestRetrying false);
   OpSection (SecCommit (demo_handle_of 1))].

(** The same request loses its second connection. *)
Definition demo_lost_again : list ledger_op :=
  [OpSection (SecStore (demo_handle_of 1) true true); OpSection SecRequire;
   OpSection (SecTrack (demo_handle_of 1) tcpRequestRetryable true)].

Definition demo_first_admitted : retry_ledger := ledger_run (new_ledger 4 1 10000) [demo_admit 1].

Definition demo_lost : retry_ledger := ledger_run demo_first_admitted (demo_retried ++ demo_lost_again).

Definition demo_state : tcpRequestBackoffState :=
  default (mkTcpRequestBackoffState 0 tcpRequestActive 0 0 "" 0 0 [] None
             {| dl_MaxSegments := 1; dl_MaxObjects := 1; dl_MaxValueBytes := 1 |} 0 false false false)
    (state_of demo_lost (demo_handle_of 1)).

Definition demo_admitted : tcpRequestBackoffState := default demo_state (state_of demo_first_admitted (demo_handle_of 1)).

Lemma retries_bounded_witness :
  exists s', rl_states demo_lost !! 1 = Some s' /\ bs_retries s' <= 1 /\ bs_clockDebt s' = 30.
Proof.
  destruct (retries_bounded 4 1 10000 [demo_admit 1] (demo_retried ++ demo_lost_again) 1
    demo_admitted ltac:(lia) ltac:(lia) ltac:(vm_compute; reflexivity)) as (s' & Hs' & _ & Hr & _).
  exists s'. split; [exact Hs'|]. split; [exact Hr|]. vm_compute in Hs'. by injection Hs' as <-.
Defined.

Lemma demo_lost_ok : ledger_ok demo_lost.
Proof.
  refine (proj2 (run_stepped (demo_retried ++ demo_lost_again) demo_first_admitted _ _ _)); [|vm_compute; done..].
  refine (proj2 (run_stepped [demo_admit 1] (new_ledger 4 1 10000) _ _ _)); [by apply new_ledger_ok|done..].
Qed.

(** The retry goes on and another handle tries to wait. *)
Definition demo_afterwards : list ledger_op :=
  [OpSection (SecTrack (demo_handle_of 1) tcpRequestTerminal false); OpSection (SecWaitState (demo_handle_of 2));
   OpSection SecConnect].

Lemma exhausted_retry_blocks_reconnect_witness :
  may_connect (ledger_run (claim_state demo_lost (demo_handle_of 1) 300).1 demo_afterwards) = false.
Proof.
  refine (proj1 (proj2 (exhausted_retry_blocks_reconnect demo_lost (demo_handle_of 1) demo_state 300 demo_afterwards
    _ _ _ _ _ _ _ _ _))).
  - apply demo_lost_ok.
  - by vm_compute.
  - by vm_compute.
  - by vm_compute.
  - by vm_compute.
  - by vm_compute.
  - apply (bool_decide_unpack _). by vm_compute.
  - repeat constructor.
  - by vm_compute.
Defined.
