(* ===== verification/RtuEndpoint.v ===== *)
(** The RTU fixture endpoint (rtu_endpoint.go): the owner of one half-duplex
    serial line, a state machine over admission, transmission, response wait,
    inter-frame guard, quarantine, recovery and close.

    The clock is read once by each operation, and the context of the active
    request at most once: both are arguments of the operations ([now], and
    [cancelled] for an error of the context).  The event sink is injected code,
    the field [ep_sink] tells whether it panics on an event.  The mutexes and nil
    receivers are left out; the flag that refuses calls from within the sink is
    [ep_callback]. *)

From S2P Require Import Prelude.
From S2P Require Import Pdu.
From S2P Require Import DeviceId.
From S2P Require Import DeviceIdTolerant.
From S2P Require Import TcpAdu.
From S2P Require Import RtuTiming.
From S2P Require Import RtuAdu.
From S2P Require Import TcpOwner.
From S2P Require Import Coalescing.

(** * Data *)

(** [errRTUState], [errRTUFrameDiscarded], [errRTUEventReentry], an error of the
    caller's context, or an error of this package. *)
Inductive rtu_error : Type :=
| RTUState
| RTUFrameDiscarded
| RTUEventReentry
| RTUContext (err : Z)
| RTUProtocol (err : ProtocolError).

Definition IsRTUFrameDiscarded (err : option rtu_error) : bool :=
  match err with
  | Some RTUFrameDiscarded => true
  | _ => false
  end.

Inductive RTUEventKind : Type :=
| RTUEventBeginRead
| RTUEventBeginDeviceID
| RTUEventTransmitResult
| RTUEventResponseReceive
| RTUEventQuarantineTransition
| RTUEventWaiterResolved
| RTUEventFrameDiscarded
| RTUEventResynchronized
| RTUEventRecoveryRequired
| RTUEventRecovered
| RTUEventClosed.

#[export] Instance RTUEventKind_eq_dec : EqDecision RTUEventKind.
Proof. solve_decision. Defined.

Inductive RTUEndpointState : Type :=
| RTUStateIdle
| RTUStateWriting
| RTUStateResponseWait
| RTUStateInterFrameGuard
| RTUStateQuarantine
| RTUStateRecoveryRequired
| RTUStateClosed.

#[export] Instance RTUEndpointState_eq_dec : EqDecision RTUEndpointState.
Proof. solve_decision. Defined.

Record RTUEvent : Type := mkRTUEvent {
  ev_ClockContractVersion : string;
  ev_Endpoint : string;
  ev_Kind : RTUEventKind;
  ev_MonotonicOffset : Z;
  ev_Sequence : Z;
  ev_Generation : Z;
  ev_RequestID : Z;
  ev_UnitID : Z;
  ev_RequestedFunction : Z;
  ev_ReceivedFunction : Z;
  ev_Table : LogicalTable;
  ev_Offset : Z;
  ev_Quantity : Z;
  ev_AuthorizationScope : string;
  ev_PollGeneration : Z;
  ev_DeadlineIdentity : Z;
  ev_DeadlineOffset : Z;
  ev_LogicalViewID : Z;
  ev_DeviceIDAccess : Z;
  ev_DeviceIDObjectID : Z;
  ev_RequestADUHex : string;
  ev_ResponseADUHex : string;
  ev_WireResponseID : Z;
  ev_DiagnosticFrameID : Z;
  ev_WireOutcome : option WireOutcome;
  ev_State : RTUEndpointState;
  ev_TransmitResult : TransmitResult;
  ev_Detail : string
}.

#[export] Instance RTUEvent_fields : Fields RTUEvent := fun e =>
  mkRTUEvent (ev_ClockContractVersion e) (ev_Endpoint e) (ev_Kind e) (ev_MonotonicOffset e)
    (ev_Sequence e) (ev_Generation e) (ev_RequestID e) (ev_UnitID e) (ev_RequestedFunction e)
    (ev_ReceivedFunction e) (ev_Table e) (ev_Offset e) (ev_Quantity e)
    (ev_AuthorizationScope e) (ev_PollGeneration e) (ev_DeadlineIdentity e)
    (ev_DeadlineOffset e) (ev_LogicalViewID e) (ev_DeviceIDAccess e) (ev_DeviceIDObjectID e)
    (ev_RequestADUHex e) (ev_ResponseADUHex e) (ev_WireResponseID e) (ev_DiagnosticFrameID e)
    (ev_WireOutcome e) (ev_State e) (ev_TransmitResult e) (ev_Detail e).

(** The owner of a line is the identity of an endpoint. *)
Record RTUFixtureLine : Type := mkRTUFixtureLine {
  fl_identity : string;
  fl_owner : option Z
}.

Record RTUFixtureEndpointConfig : Type := mkRTUFixtureEndpointConfig {
  fc_Endpoint : string;
  fc_Line : bool;
  fc_Timing : RTUTiming;
  fc_Clock : option string;
  fc_EventSink : option (RTUEvent -> bool);
  fc_FixtureOptIn : bool;
  fc_MaxDiscardedFrames : Z
}.

Record RTUReadPlan : Type := mkRTUReadPlan {
  pl_UnitID : Z;
  pl_AuthorizationScope : string;
  pl_PollGeneration : Z;
  pl_DeadlineIdentity : Z;
  pl_LogicalViewID : Z;
  pl_Timeout : Z;
  pl_Request : ReadRegistersRequest
}.

Record RTUDeviceIDPlan : Type := mkRTUDeviceIDPlan {
  pd_UnitID : Z;
  pd_AuthorizationScope : string;
  pd_PollGeneration : Z;
  pd_DeadlineIdentity : Z;
  pd_Timeout : Z;
  pd_Request : DeviceIDRequest
}.

Record RTURequestHandle : Type := mkRTURequestHandle {
  rh_endpoint : Z;
  rh_requestID : Z;
  rh_generation : Z
}.

(** Without the context, whose error is an argument of the operations. *)
Record rtuOwnedRequest : Type := mkRtuOwnedRequest {
  rq_handle : RTURequestHandle;
  rq_plan : RTUReadPlan;
  rq_deviceID : option DeviceIDRequest;
  rq_frame : list Z;
  rq_writeInvocation : Z;
  rq_deadline : Z;
  rq_transmitCompletion : Z
}.

#[export] Instance rtuOwnedRequest_fields : Fields rtuOwnedRequest := fun r =>
  mkRtuOwnedRequest (rq_handle r) (rq_plan r) (rq_deviceID r) (rq_frame r)
    (rq_writeInvocation r) (rq_deadline r) (rq_transmitCompletion r).

(** [function] and [requestKind] on a request that is not nil. *)
Definition request_function (request : rtuOwnedRequest) : Z :=
  match rq_deviceID request with
  | Some _ => FunctionEncapsulatedInterface
  | None => rr_function (pl_Request (rq_plan request))
  end.

Definition request_kind (request : rtuOwnedRequest) : requestKind :=
  match rq_deviceID request with
  | Some _ => requestDeviceID
  | None => requestRead
  end.

(** [ep_self] is the identity of the endpoint, [ep_clockVersion] what its clock
    answers to [ContractVersion]. *)
Record RTUFixtureEndpoint : Type := mkRTUFixtureEndpoint {
  ep_self : Z;
  ep_callback : bool;
  ep_endpoint : string;
  ep_timing : RTUTiming;
  ep_decoder : RTUFrameDecoder;
  ep_clockVersion : string;
  ep_sink : option (RTUEvent -> bool);
  ep_maxDiscardedFrames : Z;
  ep_state : RTUEndpointState;
  ep_generation : Z;
  ep_nextRequestID : Z;
  ep_nextWireResponseID : Z;
  ep_nextDiagnosticID : Z;
  ep_nextSequence : Z;
  ep_current : option rtuOwnedRequest;
  ep_quarantined : option rtuOwnedRequest;
  ep_lastClock : Z;
  ep_haveClock : bool;
  ep_quarantineAnchor : Z;
  ep_latencyDeadline : Z;
  ep_quiescenceDeadline : Z;
  ep_idleDeadline : Z;
  ep_guardDeadline : Z;
  ep_guardRequestID : Z;
  ep_guardUnitID : Z;
  ep_discardedFrames : Z;
  ep_quarantineDiscarded : Z;
  ep_quarantineSawBytes : bool;
  ep_eventSinkPanics : Z;
  ep_pendingRecovery : string;
  ep_lastObservedByte : Z;
  ep_haveObservedByte : bool
}.

Abbreviation endpoint := RTUFixtureEndpoint.

#[export] Instance endpoint_fields : Fields endpoint := fun e =>
  mkRTUFixtureEndpoint (ep_self e) (ep_callback e) (ep_endpoint e) (ep_timing e) (ep_decoder e)
    (ep_clockVersion e) (ep_sink e) (ep_maxDiscardedFrames e) (ep_state e) (ep_generation e)
    (ep_nextRequestID e) (ep_nextWireResponseID e) (ep_nextDiagnosticID e) (ep_nextSequence e)
    (ep_current e) (ep_quarantined e) (ep_lastClock e) (ep_haveClock e) (ep_quarantineAnchor e)
    (ep_latencyDeadline e) (ep_quiescenceDeadline e) (ep_idleDeadline e) (ep_guardDeadline e)
    (ep_guardRequestID e) (ep_guardUnitID e) (ep_discardedFrames e) (ep_quarantineDiscarded e)
    (ep_quarantineSawBytes e) (ep_eventSinkPanics e) (ep_pendingRecovery e)
    (ep_lastObservedByte e) (ep_haveObservedByte e).

(** * Construction *)

Definition rtu_invalid (function : Z) (field : string) : ProtocolError :=
  protocolError ErrorInvalidRequest function 0 field (-1).

Definition NewRTUFixtureLine (identity : string) : presult RTUFixtureLine :=
  if bool_decide (identity = ""%string) then Err (rtu_invalid 0 "rtu_fixture_identity")
  else Ok {| fl_identity := identity; fl_owner := None |}.

Definition checkedRTUOffsetAdd (offset delay : Z) : option Z :=
  if (offset <? 0) || (delay <? 0) || (offset >? MaxInt64 - delay) then None
  else Some (offset + delay).

Definition invalid_fixture_config (config : RTUFixtureEndpointConfig) : bool :=
  let timing := fc_Timing config in
  bool_decide (fc_Endpoint config = ""%string) || negb (fc_Line config)
  || match fc_Clock config with
     | None => true
     | Some version => bool_decide (version = ""%string)
     end
  || negb (fc_FixtureOptIn config) || (fc_MaxDiscardedFrames config =? 0)
  || (rt_characterTime timing <=? 0)
  || match checkedRTUOffsetAdd (rt_maxResponseLatency timing) (rt_interFrame timing) with
     | None => true
     | Some minimumQuiescence => minimumQuiescence >? rt_maxQuiescence timing
     end.

(** The endpoint of identity [self], and the line it claims. *)
Definition NewRTUFixtureEndpoint (self : Z) (line : RTUFixtureLine)
    (config : RTUFixtureEndpointConfig) : RTUFixtureLine * presult endpoint :=
  if invalid_fixture_config config then (line, Err (rtu_invalid 0 "rtu_fixture_config"))
  else
    match NewRTUFrameDecoder (fc_Timing config) with
    | Err err => (line, Err err)
    | Ok decoder =>
        match fl_owner line with
        | Some _ => (line, Err (rtu_invalid 0 "rtu_fixture_owner"))
        | None =>
            ({| fl_identity := fl_identity line; fl_owner := Some self |},
             Ok {| ep_self := self; ep_callback := false; ep_endpoint := fc_Endpoint config;
                   ep_timing := fc_Timing config; ep_decoder := decoder;
                   ep_clockVersion := default ""%string (fc_Clock config);
                   ep_sink := fc_EventSink config;
                   ep_maxDiscardedFrames := fc_MaxDiscardedFrames config;
                   ep_state := RTUStateIdle; ep_generation := 1; ep_nextRequestID := 1;
                   ep_nextWireResponseID := 1; ep_nextDiagnosticID := 1; ep_nextSequence := 0;
                   ep_current := None; ep_quarantined := None; ep_lastClock := 0;
                   ep_haveClock := false; ep_quarantineAnchor := 0; ep_latencyDeadline := 0;
                   ep_quiescenceDeadline := 0; ep_idleDeadline := 0; ep_guardDeadline := 0;
                   ep_guardRequestID := 0; ep_guardUnitID := 0; ep_discardedFrames := 0;
                   ep_quarantineDiscarded := 0; ep_quarantineSawBytes := false;
                   ep_eventSinkPanics := 0; ep_pendingRecovery := ""%string;
                   ep_lastObservedByte := 0; ep_haveObservedByte := false |})
        end
    end.

(** * Events *)

Definition wire_outcome_string (outcome : WireOutcome) : string :=
  match outcome with
  | WireSuccessfulData => "successful_data"
  | WireProtocolException => "protocol_exception"
  | WireMalformedResponse => "malformed_response"
  | WireLateAfterAbandonment => "late_after_abandonment"
  | WireDroppedUncorrelated => "dropped_uncorrelated"
  end.

(** [TransmitResult.String] on the declared results. *)
Definition transmit_string (result : TransmitResult) : string :=
  match result with
  | TransmitProvableZero => "provable_zero"
  | TransmitPartial => "partial_write"
  | TransmitIndeterminate => "indeterminate_error"
  | TransmitCancellationRace => "cancellation_race"
  | TransmitAmbiguous => "ambiguous_completion"
  | TransmitComplete => "complete"
  | TransmitOther _ => "transmit_result"
  end.

(** The zero [TransmitResult]. *)
Definition no_transmit : TransmitResult := TransmitOther 0.

Definition canEmitLocked (e : endpoint) (count : Z) : bool :=
  (count >? 0) && (ep_nextSequence e <=? MaxUint64 - count).

Definition requireRecoveryLocked (e : endpoint) (detail : string) : endpoint :=
  let e := e <| ep_state := RTUStateRecoveryRequired |> in
  if bool_decide (ep_pendingRecovery e = ""%string) then e <| ep_pendingRecovery := detail |>
  else e.

Definition nowLocked (e : endpoint) (now : Z) : endpoint * result rtu_error Z :=
  if (now <? 0) || (ep_haveClock e && (now <? ep_lastClock e)) then
    ((requireRecoveryLocked e "clock_regression") <| ep_current := None |>
       <| ep_quarantined := None |>, Err RTUState)
  else (e <| ep_lastClock := now |> <| ep_haveClock := true |>, Ok now).

Definition beginEventOperation (e : endpoint) : option rtu_error :=
  if ep_callback e then Some RTUEventReentry else None.

(** The owned request that an event of [requestID] describes. *)
Definition event_request (e : endpoint) (requestID : Z) : option rtuOwnedRequest :=
  let owned (request : option rtuOwnedRequest) :=
    match request with
    | Some r => if rh_requestID (rq_handle r) =? requestID then Some r else None
    | None => None
    end in
  match owned (ep_current e) with
  | Some r => Some r
  | None => owned (ep_quarantined e)
  end.

(** The zero event, which no sink sees, is [None]. *)
Definition eventLocked (e : endpoint) (kind : RTUEventKind) (requestID unitID : Z)
    (result : TransmitResult) (detail : string) : endpoint * option RTUEvent :=
  if ep_nextSequence e =? MaxUint64 then
    (e <| ep_state := RTUStateRecoveryRequired |>, None)
  else
    let e := e <| ep_nextSequence := ep_nextSequence e + 1 |> in
    let event :=
      {| ev_ClockContractVersion := ep_clockVersion e; ev_Endpoint := ep_endpoint e;
         ev_Kind := kind; ev_MonotonicOffset := ep_lastClock e;
         ev_Sequence := ep_nextSequence e; ev_Generation := ep_generation e;
         ev_RequestID := requestID; ev_UnitID := unitID; ev_RequestedFunction := 0;
         ev_ReceivedFunction := 0; ev_Table := NoTable; ev_Offset := 0; ev_Quantity := 0;
         ev_AuthorizationScope := ""%string; ev_PollGeneration := 0; ev_DeadlineIdentity := 0;
         ev_DeadlineOffset := 0; ev_LogicalViewID := 0; ev_DeviceIDAccess := 0;
         ev_DeviceIDObjectID := 0; ev_RequestADUHex := ""%string;
         ev_ResponseADUHex := ""%string; ev_WireResponseID := 0; ev_DiagnosticFrameID := 0;
         ev_WireOutcome := None; ev_State := ep_state e; ev_TransmitResult := result;
         ev_Detail := detail |} in
    let event :=
      match event_request e requestID with
      | None => event
      | Some current =>
          let plan := rq_plan current in
          let event := event <| ev_RequestedFunction := request_function current |> in
          let event :=
            match rq_deviceID current with
            | Some request =>
                event <| ev_DeviceIDAccess := dr_access request |>
                  <| ev_DeviceIDObjectID := dr_objectID request |>
            | None =>
                event <| ev_Table := rr_table (pl_Request plan) |>
                  <| ev_Offset := rr_offset (pl_Request plan) |>
                  <| ev_Quantity := rr_quantity (pl_Request plan) |>
            end in
          event <| ev_AuthorizationScope := pl_AuthorizationScope plan |>
            <| ev_PollGeneration := pl_PollGeneration plan |>
            <| ev_DeadlineIdentity := pl_DeadlineIdentity plan |>
            <| ev_DeadlineOffset := rq_deadline current |>
            <| ev_LogicalViewID := pl_LogicalViewID plan |>
            <| ev_RequestADUHex := hex_encode (rq_frame current) |>
      end in
    (e, Some event).

(** One call of [eventLocked]. *)
Record event_spec : Type := mkEventSpec {
  es_kind : RTUEventKind;
  es_requestID : Z;
  es_unitID : Z;
  es_result : TransmitResult;
  es_detail : string
}.

(** Several calls in order, without the zero events. *)
Fixpoint events_locked (e : endpoint) (specs : list event_spec) : endpoint * list RTUEvent :=
  match specs with
  | [] => (e, [])
  | s :: specs =>
      let '(e, event) :=
        eventLocked e (es_kind s) (es_requestID s) (es_unitID s) (es_result s) (es_detail s) in
      let '(e, events) := events_locked e specs in
      (e, match event with Some event => event :: events | None => events end)
  end.

(** The events handed to the sink; a panic of the sink is counted. *)
Fixpoint dispatch_loop (sink : RTUEvent -> bool) (e : endpoint) (events : list RTUEvent)
    : endpoint :=
  match events with
  | [] => e
  | event :: events =>
      let e :=
        if sink event && (ep_eventSinkPanics e <? MaxUint64) then
          e <| ep_eventSinkPanics := ep_eventSinkPanics e + 1 |>
        else e in
      dispatch_loop sink e events
  end.

Definition dispatch (e : endpoint) (events : list RTUEvent) : endpoint * list RTUEvent :=
  match ep_sink e with
  | None => (e, [])
  | Some sink => (dispatch_loop sink e events, events)
  end.

(** What an operation gives: the endpoint, its result, and the events its sink
    received. *)
Record rtu_outcome (A : Type) : Type := mkOutcome {
  oc_endpoint : endpoint;
  oc_result : A;
  oc_events : list RTUEvent
}.
Arguments mkOutcome {A} oc_endpoint oc_result oc_events.
Arguments oc_endpoint {A} _.
Arguments oc_result {A} _.
Arguments oc_events {A} _.

Definition silent {A} (e : endpoint) (r : A) : rtu_outcome A := mkOutcome e r [].

(** Unlock, dispatch, return. *)
Definition dispatched {A} (e : endpoint) (events : list RTUEvent) (r : A) : rtu_outcome A :=
  let '(e, delivered) := dispatch e events in mkOutcome e r delivered.

(** [eventLocked] for each of [specs], then [dispatch] and return. *)
Definition emit {A} (e : endpoint) (specs : list event_spec) (r : A) : rtu_outcome A :=
  let '(e, events) := events_locked e specs in dispatched e events r.

(** * Admission *)

Abbreviation begin_result := (result rtu_error (RTURequestHandle * list Z)).

(** The part common to both admissions, after the validation of the plan. *)
Definition begin_request (e : endpoint) (now : Z) (plan : RTUReadPlan)
    (deviceID : option DeviceIDRequest) (frame : list Z) (function : Z) (kind : RTUEventKind)
    : rtu_outcome begin_result :=
  if negb (bool_decide (ep_state e = RTUStateIdle)) then silent e (Err RTUState)
  else if (ep_nextRequestID e =? 0) || (ep_nextRequestID e =? MaxUint64)
          || negb (canEmitLocked e 1) then
    silent (requireRecoveryLocked e "request_identity_or_event_capacity") (Err RTUState)
  else
    match nowLocked e now with
    | (e, Err err) => silent e (Err err)
    | (e, Ok now) =>
        match checkedRTUOffsetAdd now (pl_Timeout plan) with
        | None =>
            silent e (Err (RTUProtocol
              (protocolError ErrorInvalidRange function 0 "rtu_deadline" (-1))))
        | Some deadline =>
            let handle :=
              {| rh_endpoint := ep_self e; rh_requestID := ep_nextRequestID e;
                 rh_generation := ep_generation e |} in
            let e :=
              e <| ep_nextRequestID := ep_nextRequestID e + 1 |>
                <| ep_state := RTUStateWriting |> <| ep_lastObservedByte := 0 |>
                <| ep_haveObservedByte := false |>
                <| ep_current :=
                     Some {| rq_handle := handle; rq_plan := plan; rq_deviceID := deviceID;
                             rq_frame := frame; rq_writeInvocation := now;
                             rq_deadline := deadline; rq_transmitCompletion := 0 |} |> in
            emit e [ {| es_kind := kind; es_requestID := rh_requestID handle;
                        es_unitID := pl_UnitID plan; es_result := no_transmit;
                        es_detail := "" |} ]
              (Ok (handle, frame))
        end
    end.

Definition invalid_read_plan (plan : RTUReadPlan) : bool :=
  bool_decide (pl_AuthorizationScope plan = ""%string) || (pl_PollGeneration plan =? 0)
  || (pl_DeadlineIdentity plan =? 0) || (pl_LogicalViewID plan =? 0) || (pl_Timeout plan <=? 0).

Definition BeginRead (e : endpoint) (now : Z) (ctx : option Z) (plan : RTUReadPlan)
    : rtu_outcome begin_result :=
  match beginEventOperation e with
  | Some err => silent e (Err err)
  | None =>
  match ctx with
  | Some err => silent e (Err (RTUContext err))
  | None =>
  match EncodeRTUReadADU (pl_UnitID plan) (pl_Request plan) with
  | Err err => silent e (Err (RTUProtocol err))
  | Ok frame =>
      if invalid_read_plan plan then
        silent e (Err (RTUProtocol (rtu_invalid (rr_function (pl_Request plan)) "rtu_read_plan")))
      else
        begin_request e now plan None frame (rr_function (pl_Request plan)) RTUEventBeginRead
  end
  end
  end.

Definition invalid_device_id_plan (plan : RTUDeviceIDPlan) : bool :=
  bool_decide (pd_AuthorizationScope plan = ""%string) || (pd_PollGeneration plan =? 0)
  || (pd_DeadlineIdentity plan =? 0) || (pd_Timeout plan <=? 0).

(** The plan under which a Device Identification request is owned. *)
Definition owned_plan (plan : RTUDeviceIDPlan) : RTUReadPlan :=
  {| pl_UnitID := pd_UnitID plan; pl_AuthorizationScope := pd_AuthorizationScope plan;
     pl_PollGeneration := pd_PollGeneration plan;
     pl_DeadlineIdentity := pd_DeadlineIdentity plan; pl_LogicalViewID := 0;
     pl_Timeout := pd_Timeout plan; pl_Request := zeroReadRegistersRequest |}.

Definition BeginDeviceID (e : endpoint) (now : Z) (ctx : option Z) (plan : RTUDeviceIDPlan)
    : rtu_outcome begin_result :=
  match beginEventOperation e with
  | Some err => silent e (Err err)
  | None =>
  match ctx with
  | Some err => silent e (Err (RTUContext err))
  | None =>
  match EncodeRTUDeviceIDAccessADU (pd_UnitID plan) (pd_Request plan) with
  | Err err => silent e (Err (RTUProtocol err))
  | Ok frame =>
      if invalid_device_id_plan plan then
        silent e (Err (RTUProtocol
          (rtu_invalid FunctionEncapsulatedInterface "rtu_device_id_plan")))
      else
        begin_request e now (owned_plan plan) (Some (pd_Request plan)) frame
          FunctionEncapsulatedInterface RTUEventBeginDeviceID
  end
  end
  end.

Definition matchesLocked (e : endpoint) (handle : RTURequestHandle) : bool :=
  match ep_current e with
  | None => false
  | Some current =>
      (rh_endpoint handle =? ep_self e) && negb (rh_requestID handle =? 0)
      && (rh_requestID handle =? rh_requestID (rq_handle current))
      && (rh_generation handle =? ep_generation e)
  end.

(** * Quarantine *)

Record rtuQuarantineDeadlines : Type := mkRtuQuarantineDeadlines {
  qd_latency : Z;
  qd_quiescence : Z;
  qd_idle : Z;
  qd_hadBufferedBytes : bool
}.

(** Recovery is required and nothing is in flight. *)
Definition fail_current (e : endpoint) (detail : string) : endpoint :=
  (requireRecoveryLocked e detail) <| ep_current := None |>.

Definition prepareQuarantineLocked (e : endpoint) (anchor : Z)
    : endpoint * result rtu_error rtuQuarantineDeadlines :=
  match checkedRTUOffsetAdd anchor (rt_maxResponseLatency (ep_timing e)) with
  | None => (fail_current e "latency_deadline", Err RTUState)
  | Some latencyDeadline =>
  match checkedRTUOffsetAdd anchor (rt_maxQuiescence (ep_timing e)) with
  | None => (fail_current e "quiescence_deadline", Err RTUState)
  | Some quiescenceDeadline =>
  match checkedRTUOffsetAdd latencyDeadline (rt_interFrame (ep_timing e)) with
  | None => (fail_current e "idle_deadline", Err RTUState)
  | Some idleDeadline =>
      if idleDeadline >? quiescenceDeadline then (fail_current e "idle_deadline", Err RTUState)
      else
        let deadlines idle :=
          Ok {| qd_latency := latencyDeadline; qd_quiescence := quiescenceDeadline;
                qd_idle := idle; qd_hadBufferedBytes := ep_haveObservedByte e |} in
        if ep_haveObservedByte e then
          match checkedRTUOffsetAdd (ep_lastObservedByte e) (rt_interFrame (ep_timing e)) with
          | None => (fail_current e "observed_idle_deadline", Err RTUState)
          | Some bufferedIdle =>
              if bufferedIdle >? quiescenceDeadline then
                (fail_current e "observed_idle_deadline", Err RTUState)
              else
                (e, deadlines (if bufferedIdle >? idleDeadline then bufferedIdle
                               else idleDeadline))
          end
        else (e, deadlines idleDeadline)
  end
  end
  end.

Definition setQuarantineLocked (e : endpoint) (current : rtuOwnedRequest) (anchor : Z)
    (deadlines : rtuQuarantineDeadlines) : endpoint :=
  e <| ep_state := RTUStateQuarantine |> <| ep_quarantineAnchor := anchor |>
    <| ep_latencyDeadline := qd_latency deadlines |>
    <| ep_quiescenceDeadline := qd_quiescence deadlines |>
    <| ep_idleDeadline := qd_idle deadlines |> <| ep_quarantined := Some current |>
    <| ep_current := None |> <| ep_quarantineDiscarded := 0 |>
    <| ep_quarantineSawBytes := qd_hadBufferedBytes deadlines |>
    <| ep_decoder := reset (ep_decoder e) |>.

(** The events of a quarantine that resolves the waiter. *)
Definition quarantine_specs (current : rtuOwnedRequest) (detail : string) : list event_spec :=
  let spec kind :=
    {| es_kind := kind; es_requestID := rh_requestID (rq_handle current);
       es_unitID := pl_UnitID (rq_plan current); es_result := no_transmit;
       es_detail := detail |} in
  [spec RTUEventQuarantineTransition; spec RTUEventWaiterResolved].

Definition transmit_spec (current : rtuOwnedRequest) (result : TransmitResult)
    (detail : string) : event_spec :=
  {| es_kind := RTUEventTransmitResult; es_requestID := rh_requestID (rq_handle current);
     es_unitID := pl_UnitID (rq_plan current); es_result := result; es_detail := detail |}.

(** The anchor of a write of unknown extent: its last possible byte, or now. *)
Definition transmit_anchor (e : endpoint) (current : rtuOwnedRequest) (now : Z)
    : endpoint * result rtu_error Z :=
  match FrameTransmitHorizon (ep_timing e) (zlen (rq_frame current)) with
  | Err err => (fail_current e "transmit_horizon", Err (RTUProtocol err))
  | Ok horizon =>
      match checkedRTUOffsetAdd (rq_writeInvocation current) horizon with
      | None => (fail_current e "transmit_anchor", Err RTUState)
      | Some anchor => (e, Ok (if anchor <? now then now else anchor))
      end
  end.

(** Quarantine from [anchor], its events after [before]. *)
Definition enter_quarantine (e : endpoint) (current : rtuOwnedRequest) (anchor : Z)
    (before : list event_spec) (detail : string) : rtu_outcome (option rtu_error) :=
  match prepareQuarantineLocked e anchor with
  | (e, Err err) => silent e (Some err)
  | (e, Ok deadlines) =>
      emit (setQuarantineLocked e current anchor deadlines)
        (before ++ quarantine_specs current detail) None
  end.

(** * Transmission *)

(** The events a result of the write will need. *)
Definition transmit_event_count (result : TransmitResult) (interrupted : bool) : Z :=
  match result with
  | TransmitProvableZero => 2
  | TransmitComplete => if interrupted then 3 else 1
  | _ => 3
  end.

(** [TransmitProvableZero]: nothing reached the line. *)
Definition complete_zero (e : endpoint) (current : rtuOwnedRequest) (cancelled expired : bool)
    : rtu_outcome (option rtu_error) :=
  let result := TransmitProvableZero in
  let e := e <| ep_state := RTUStateIdle |> in
  let detail :=
    if cancelled then "cancellation_before_provable_zero"%string
    else if expired then "timeout_before_provable_zero"%string
    else transmit_string result in
  let '(e, events) :=
    events_locked e
      [transmit_spec current result (transmit_string result);
       {| es_kind := RTUEventWaiterResolved;
          es_requestID := rh_requestID (rq_handle current);
          es_unitID := pl_UnitID (rq_plan current); es_result := result;
          es_detail := detail |}] in
  dispatched
    (e <| ep_current := None |> <| ep_lastObservedByte := 0 |>
       <| ep_haveObservedByte := false |>) events None.

(** [TransmitComplete]: the response is awaited, unless the request is over. *)
Definition complete_sent (e : endpoint) (current : rtuOwnedRequest) (now : Z)
    (cancelled expired : bool) : rtu_outcome (option rtu_error) :=
  let result := TransmitComplete in
  let current := current <| rq_transmitCompletion := now |> in
  let e := e <| ep_current := Some current |> in
  if negb cancelled && negb expired then
    emit (e <| ep_state := RTUStateResponseWait |>)
      [transmit_spec current result (transmit_string result)] None
  else
    enter_quarantine e current now [transmit_spec current result (transmit_string result)]
      (if cancelled then "cancellation" else "timeout").

Definition CompleteTransmit (e : endpoint) (now : Z) (cancelled : bool)
    (handle : RTURequestHandle) (result : TransmitResult) : rtu_outcome (option rtu_error) :=
  match beginEventOperation e with
  | Some err => silent e (Some err)
  | None =>
  match ep_current e with
  | None => silent e (Some RTUState)
  | Some current =>
      if negb (matchesLocked e handle) || negb (bool_decide (ep_state e = RTUStateWriting)) then
        silent e (Some RTUState)
      else
      match result with
      | TransmitOther _ => silent e (Some RTUState)
      | _ =>
      match nowLocked e now with
      | (e, Err err) => silent e (Some err)
      | (e, Ok now) =>
          let expired := now >=? rq_deadline current in
          if negb (canEmitLocked e (transmit_event_count result (cancelled || expired))) then
            silent (fail_current e "event_capacity") (Some RTUState)
          else
          match result with
          | TransmitProvableZero => complete_zero e current cancelled expired
          | TransmitComplete => complete_sent e current now cancelled expired
          | _ =>
              match transmit_anchor e current now with
              | (e, Err err) => silent e (Some err)
              | (e, Ok anchor) =>
                  enter_quarantine e current anchor
                    [transmit_spec current result (transmit_string result)]
                    (transmit_string result)
              end
          end
      end
      end
  end
  end.

(** * Time *)

(** The request and unit of a quarantine, or zeros. *)
Definition quarantined_identity (e : endpoint) : Z * Z :=
  match ep_quarantined e with
  | Some request => (rh_requestID (rq_handle request), pl_UnitID (rq_plan request))
  | None => (0, 0)
  end.

Definition recovery_spec (requestID unitID : Z) (detail : string) : event_spec :=
  {| es_kind := RTUEventRecoveryRequired; es_requestID := requestID; es_unitID := unitID;
     es_result := no_transmit; es_detail := detail |}.

Definition discard_spec (requestID unitID : Z) (detail : string) : event_spec :=
  {| es_kind := RTUEventFrameDiscarded; es_requestID := requestID; es_unitID := unitID;
     es_result := no_transmit; es_detail := detail |}.

Definition drop_quarantined (e : endpoint) : endpoint :=
  e <| ep_quarantined := None |> <| ep_decoder := reset (ep_decoder e) |>.

(** [Tick] in quarantine. *)
Definition tick_quarantine (e : endpoint) (now : Z) : rtu_outcome (option rtu_error) :=
  if now <=? ep_quiescenceDeadline e then silent e None
  else if negb (canEmitLocked e 1) then
    silent (drop_quarantined (requireRecoveryLocked e "event_capacity")) (Some RTUState)
  else
    let '(requestID, unitID) := quarantined_identity e in
    emit (drop_quarantined (e <| ep_state := RTUStateRecoveryRequired |>))
      [recovery_spec requestID unitID "quiescence_timeout"] (Some RTUState).

(** [Tick] on a request that is cancelled or past its deadline. *)
Definition tick_request (e : endpoint) (current : rtuOwnedRequest) (now : Z) (cancelled : bool)
    : rtu_outcome (option rtu_error) :=
  match ep_state e with
  | RTUStateWriting =>
      if negb (canEmitLocked e 3) then
        silent (fail_current e "event_capacity") (Some RTUState)
      else
        let result := if cancelled then TransmitCancellationRace else TransmitAmbiguous in
        let detail :=
          if cancelled then "cancellation_during_write"%string
          else "deadline_during_write"%string in
        match transmit_anchor e current now with
        | (e, Err err) => silent e (Some err)
        | (e, Ok anchor) =>
            enter_quarantine e current anchor [transmit_spec current result detail] detail
        end
  | RTUStateResponseWait =>
      if negb (canEmitLocked e 2) then
        silent (fail_current e "event_capacity") (Some RTUState)
      else
        enter_quarantine e current (rq_transmitCompletion current) []
          (if cancelled then "cancellation" else "timeout")
  | _ => silent e (Some RTUState)
  end.

Definition Tick (e : endpoint) (now : Z) (cancelled : bool) : rtu_outcome (option rtu_error) :=
  match beginEventOperation e with
  | Some err => silent e (Some err)
  | None =>
  match nowLocked e now with
  | (e, Err err) => silent e (Some err)
  | (e, Ok now) =>
      if bool_decide (ep_state e = RTUStateQuarantine) then tick_quarantine e now
      else
        match ep_current e with
        | None => silent e None
        | Some current =>
            if negb cancelled && negb (now >=? rq_deadline current) then silent e None
            else tick_request e current now cancelled
        end
  end
  end.

Definition Abandon (e : endpoint) (now : Z) (handle : RTURequestHandle)
    (reason : AbandonReason) : rtu_outcome (option rtu_error) :=
  match reason with
  | AbandonOther _ => silent e (Some RTUState)
  | _ =>
  match beginEventOperation e with
  | Some err => silent e (Some err)
  | None =>
  match ep_current e with
  | None => silent e (Some RTUState)
  | Some current =>
      if negb (matchesLocked e handle)
         || negb (bool_decide (ep_state e = RTUStateResponseWait)) then
        silent e (Some RTUState)
      else if negb (canEmitLocked e 2) then
        silent (fail_current e "event_capacity") (Some RTUState)
      else
        match nowLocked e now with
        | (e, Err err) => silent e (Some err)
        | (e, Ok _) =>
            enter_quarantine e current (rq_transmitCompletion current) []
              (if bool_decide (reason = AbandonCancellation) then "cancellation"
               else "timeout")
        end
  end
  end
  end.

(** * Reception *)

(** [Some] result: the quarantine has outlived its bound, the operation ends. *)
Definition expireQuarantineLocked (e : endpoint) (now : Z)
    : endpoint * option (list event_spec) :=
  if negb (bool_decide (ep_state e = RTUStateQuarantine))
     || (now <=? ep_quiescenceDeadline e) then (e, None)
  else if negb (canEmitLocked e 1) then
    (drop_quarantined (requireRecoveryLocked e "event_capacity"), Some [])
  else
    let '(requestID, unitID) := quarantined_identity e in
    (drop_quarantined
       (e <| ep_state := RTUStateRecoveryRequired |> <| ep_quarantineSawBytes := false |>),
     Some [recovery_spec requestID unitID "quiescence_timeout"]).

(** The answer of the frame decoder to a byte: its state and its error. *)
Definition feed_decoder (e : endpoint) (now value : Z) : endpoint * option ProtocolError :=
  let '(decoder, err) := FeedByte (ep_decoder e) now value in
  (e <| ep_decoder := decoder |>, err).

Definition observe (e : endpoint) (now : Z) : endpoint :=
  e <| ep_lastObservedByte := now |> <| ep_haveObservedByte := true |>.

Definition feed_quarantine (e : endpoint) (now value : Z) : rtu_outcome (option rtu_error) :=
  let e := observe e now in
  match checkedRTUOffsetAdd now (rt_interFrame (ep_timing e)) with
  | None =>
      silent ((requireRecoveryLocked e "idle_deadline") <| ep_quarantined := None |>)
        (Some RTUState)
  | Some idleDeadline =>
      let idleDeadline :=
        if idleDeadline <? ep_latencyDeadline e then ep_latencyDeadline e else idleDeadline in
      let e := e <| ep_idleDeadline := idleDeadline |> <| ep_quarantineSawBytes := true |> in
      match feed_decoder e now value with
      | (e, Some _) => silent (e <| ep_decoder := reset (ep_decoder e) |>) None
      | (e, None) => silent e None
      end
  end.

Definition feed_guard (e : endpoint) (now : Z) : rtu_outcome (option rtu_error) :=
  match checkedRTUOffsetAdd now (rt_interFrame (ep_timing e)) with
  | None => silent (requireRecoveryLocked e "inter_frame_guard_activity") (Some RTUState)
  | Some guardDeadline =>
      if (ep_discardedFrames e =? MaxUint64) || negb (canEmitLocked e 1) then
        silent (requireRecoveryLocked e "inter_frame_guard_activity") (Some RTUState)
      else
        emit
          (e <| ep_guardDeadline := guardDeadline |>
             <| ep_discardedFrames := ep_discardedFrames e + 1 |>)
          [discard_spec (ep_guardRequestID e) (ep_guardUnitID e) "inter_frame_guard_activity"]
          (Some RTUFrameDiscarded)
  end.

Definition EndpointFeedByte (e : endpoint) (now value : Z) : rtu_outcome (option rtu_error) :=
  match beginEventOperation e with
  | Some err => silent e (Some err)
  | None =>
  match nowLocked e now with
  | (e, Err err) => silent e (Some err)
  | (e, Ok now) =>
  match expireQuarantineLocked e now with
  | (e, Some specs) => emit e specs (Some RTUState)
  | (e, None) =>
      match ep_state e with
      | RTUStateQuarantine => feed_quarantine e now value
      | RTUStateResponseWait =>
          match feed_decoder (observe e now) now value with
          | (e, err) => silent e (RTUProtocol <$> err)
          end
      | RTUStateInterFrameGuard => feed_guard e now
      | _ => silent e (Some RTUState)
      end
  end
  end
  end.

Record RTUReadResult : Type := mkRTUReadResult {
  qr_deliverable : bool;
  qr_response : option ReadRegistersResponse;
  qr_deviceIDSegment : option DeviceIDSegment;
  qr_wire : option WireResponse;
  qr_logical : option LogicalReadView
}.

(** [RTUReadResult{}]. *)
Definition zeroRTUReadResult : RTUReadResult :=
  {| qr_deliverable := false; qr_response := None; qr_deviceIDSegment := None;
     qr_wire := None; qr_logical := None |}.

Abbreviation frame_result := (RTUReadResult * option rtu_error)%type.

(** What the typed decoders make of a frame: the retained bytes, the decoded
    response or segment, the error. *)
Definition decode_owned (current : rtuOwnedRequest) (frame : list Z)
    : list Z * option ReadRegistersResponse * option DeviceIDSegment * option ProtocolError :=
  match rq_deviceID current with
  | Some request =>
      let '(decoded, err) :=
        DecodeRTUDeviceIDResponseADU (pl_UnitID (rq_plan current)) request frame in
      (ru_raw (rda_adu decoded), None,
       match err with None => rda_segment decoded | Some _ => None end, err)
  | None =>
      let '(decoded, err) :=
        DecodeRTUReadResponseADU (pl_UnitID (rq_plan current)) (pl_Request (rq_plan current))
          frame in
      (ru_raw (rra_adu decoded), rra_response decoded, None, err)
  end.

Definition frame_unit (frame : list Z) : Z := default 0 (frame !! 0%nat).
Definition frame_function (frame : list Z) : Z := default 0 (frame !! 1%nat).

Definition is_candidate (current : rtuOwnedRequest) (frame : list Z) : bool :=
  (frame_unit frame =? pl_UnitID (rq_plan current))
  && ((frame_function frame =? request_function current)
      || (frame_function frame =? Z.lor (request_function current) 0x80)).

Definition response_outcome (err : option ProtocolError) : WireOutcome :=
  match err with
  | None => WireSuccessfulData
  | Some err =>
      if bool_decide (pe_Kind err = ErrorExceptionResponse) then WireProtocolException
      else WireMalformedResponse
  end.

(** A frame that answers another request: kept as a diagnostic. *)
Definition receive_uncorrelated (e : endpoint) (frame raw : list Z) (err : option ProtocolError)
    : endpoint * frame_result * option RTUEvent :=
  if (ep_nextDiagnosticID e =? 0) || (ep_nextDiagnosticID e =? MaxUint64)
     || negb (canEmitLocked e 1) then
    (fail_current e "diagnostic_identity_or_event_capacity",
     (zeroRTUReadResult, Some RTUState), None)
  else
    let diagnosticID := ep_nextDiagnosticID e in
    let e := e <| ep_nextDiagnosticID := ep_nextDiagnosticID e + 1 |> in
    let wire :=
      {| wr_owner := None; wr_outcome := WireDroppedUncorrelated; wr_deliverable := false;
         wr_wireResponseID := 0; wr_diagnosticFrameID := diagnosticID;
         wr_physicalRequestID := 0; wr_provenance := None;
         wr_diagnostic :=
           Some {| dp_Endpoint := ep_endpoint e; dp_ConnectionID := 0;
                   dp_ReceivedTransportGeneration := ep_generation e;
                   dp_ActiveTransportGeneration := ep_generation e;
                   dp_UnitID := frame_unit frame; dp_ReceivedFunction := frame_function frame |};
         wr_decoded := no_decoded; wr_bytes := raw |} in
    let '(e, event) :=
      eventLocked e RTUEventResponseReceive 0 (frame_unit frame) no_transmit
        (wire_outcome_string WireDroppedUncorrelated) in
    let event :=
      (fun event =>
         event <| ev_ReceivedFunction := frame_function frame |>
           <| ev_ResponseADUHex := hex_encode raw |>
           <| ev_DiagnosticFrameID := diagnosticID |>
           <| ev_WireOutcome := Some WireDroppedUncorrelated |>) <$> event in
    (e, ({| qr_deliverable := false; qr_response := None; qr_deviceIDSegment := None;
            qr_wire := Some wire; qr_logical := None |}, RTUProtocol <$> err), event).

Definition wire_provenance (e : endpoint) (current : rtuOwnedRequest) (frame : list Z)
    : WireProvenance :=
  let request := pl_Request (rq_plan current) in
  {| wp_Endpoint := ep_endpoint e; wp_ConnectionID := 0; wp_Transport := TransportRTU;
     wp_TransportGeneration := ep_generation e; wp_UnitID := pl_UnitID (rq_plan current);
     wp_RequestedFunction := request_function current;
     wp_ReceivedFunction := frame_function frame;
     wp_Table := match rq_deviceID current with None => rr_table request | _ => NoTable end;
     wp_Offset := match rq_deviceID current with None => rr_offset request | _ => 0 end;
     wp_Quantity := match rq_deviceID current with None => rr_quantity request | _ => 0 end;
     wp_DeviceIDAccess := match rq_deviceID current with Some r => dr_access r | _ => 0 end;
     wp_DeviceIDObjectID :=
       match rq_deviceID current with Some r => dr_objectID r | _ => 0 end |}.

Definition logical_view (current : rtuOwnedRequest) (wireID : Z) (words : list Z)
    (wire : WireProvenance) : LogicalReadView :=
  let plan := rq_plan current in
  let request := pl_Request plan in
  {| lv_logicalViewID := pl_LogicalViewID plan; lv_wireResponseID := wireID;
     lv_logicalOffset := rr_offset request; lv_logicalWords := rr_quantity request;
     lv_sliceOffset := 0; lv_sliceWordCount := rr_quantity request; lv_words := words;
     lv_wireBytes := [];
     lv_provenance :=
       {| lp_PhysicalRequestID := rh_requestID (rq_handle current); lp_Wire := wire;
          lp_AuthorizationScope := pl_AuthorizationScope plan;
          lp_PollGeneration := pl_PollGeneration plan;
          lp_DeadlineIdentity := pl_DeadlineIdentity plan;
          lp_LogicalOffset := rr_offset request; lp_LogicalWordCount := rr_quantity request;
          lp_SliceOffset := 0; lp_SliceWordCount := rr_quantity request |} |}.

Definition response_words (response : option ReadRegistersResponse) : list Z :=
  match response with
  | Some response => rs_Words response
  | None => []
  end.

(** A frame that answers the request, well or badly: the request is over. *)
Definition receive_candidate (e : endpoint) (current : rtuOwnedRequest) (frame raw : list Z)
    (response : option ReadRegistersResponse) (segment : option DeviceIDSegment)
    (err : option ProtocolError) (now : Z) : endpoint * frame_result * option RTUEvent :=
  let failed detail := (fail_current e detail, (zeroRTUReadResult, Some RTUState), None) in
  match checkedRTUOffsetAdd now (rt_interFrame (ep_timing e)) with
  | None => failed "guard_deadline"%string
  | Some guardDeadline =>
      if negb (canEmitLocked e 1) then failed "event_capacity"%string
      else if (ep_nextWireResponseID e =? 0) || (ep_nextWireResponseID e =? MaxUint64) then
        failed "wire_response_identity"%string
      else
        let wireID := ep_nextWireResponseID e in
        let e := e <| ep_nextWireResponseID := ep_nextWireResponseID e + 1 |> in
        let provenance := wire_provenance e current frame in
        let outcome := response_outcome err in
        let deliverable := bool_decide (err = None) in
        let wire :=
          {| wr_owner := None; wr_outcome := outcome; wr_deliverable := deliverable;
             wr_wireResponseID := wireID; wr_diagnosticFrameID := 0;
             wr_physicalRequestID := rh_requestID (rq_handle current);
             wr_provenance := Some provenance; wr_diagnostic := None;
             wr_decoded := {| do_words := response_words response; do_segment := segment;
                              do_page := None |};
             wr_bytes := raw |} in
        let logical :=
          if deliverable && bool_decide (rq_deviceID current = None) then
            Some (logical_view current wireID (response_words response) provenance)
          else None in
        let e :=
          e <| ep_state := RTUStateInterFrameGuard |> <| ep_guardDeadline := guardDeadline |>
            <| ep_guardRequestID := rh_requestID (rq_handle current) |>
            <| ep_guardUnitID := pl_UnitID (rq_plan current) |> in
        let '(e, event) :=
          eventLocked e RTUEventResponseReceive (rh_requestID (rq_handle current))
            (pl_UnitID (rq_plan current)) TransmitComplete (wire_outcome_string outcome) in
        let event :=
          (fun event =>
             event <| ev_ReceivedFunction := frame_function frame |>
               <| ev_ResponseADUHex := hex_encode raw |> <| ev_WireResponseID := wireID |>
               <| ev_WireOutcome := Some outcome |>) <$> event in
        (e <| ep_current := None |>,
         ({| qr_deliverable := deliverable; qr_response := response;
             qr_deviceIDSegment := segment; qr_wire := Some wire; qr_logical := logical |},
          RTUProtocol <$> err), event)
  end.

Definition receiveFrameLocked (e : endpoint) (current : rtuOwnedRequest) (frame : list Z)
    (now : Z) : endpoint * frame_result * option RTUEvent :=
  let '(raw, response, segment, err) := decode_owned current frame in
  if negb (is_candidate current frame) then receive_uncorrelated e frame raw err
  else receive_candidate e current frame raw response segment err now.

Definition discardQuarantineFrameLocked (e : endpoint)
    : endpoint * result rtu_error (list RTUEvent) :=
  if (ep_discardedFrames e =? MaxUint64) || (ep_quarantineDiscarded e =? MaxUint64) then
    ((requireRecoveryLocked e "discard_identity") <| ep_quarantined := None |>, Err RTUState)
  else
    let recovery := ep_quarantineDiscarded e >=? ep_maxDiscardedFrames e in
    if negb (canEmitLocked e (if recovery then 2 else 1)) then
      ((requireRecoveryLocked e "event_capacity") <| ep_quarantined := None |>, Err RTUState)
    else
      let e :=
        e <| ep_discardedFrames := ep_discardedFrames e + 1 |>
          <| ep_quarantineDiscarded := ep_quarantineDiscarded e + 1 |> in
      let '(requestID, unitID) := quarantined_identity e in
      let '(e, discarded) := events_locked e [discard_spec requestID unitID "quarantine"] in
      if recovery then
        let '(e, required) :=
          events_locked
            (e <| ep_state := RTUStateRecoveryRequired |> <| ep_quarantined := None |>)
            [recovery_spec requestID unitID "discard_bound"] in
        (e, Ok (discarded ++ required))
      else (e, Ok discarded).

(** [endFrame] in quarantine: the frame is discarded. *)
Definition end_quarantine (e : endpoint) : rtu_outcome frame_result :=
  if negb (ep_quarantineSawBytes e) then silent e (zeroRTUReadResult, Some RTUState)
  else
    let e :=
      e <| ep_decoder := reset (ep_decoder e) |> <| ep_quarantineSawBytes := false |>
        <| ep_lastObservedByte := 0 |> <| ep_haveObservedByte := false |> in
    match discardQuarantineFrameLocked e with
    | (e, Err err) => silent e (zeroRTUReadResult, Some err)
    | (e, Ok events) => dispatched e events (zeroRTUReadResult, Some RTUFrameDiscarded)
    end.

(** [endFrame] on a frame that came after the request was over. *)
Definition end_late (e : endpoint) (current : rtuOwnedRequest) (cancelled : bool)
    : rtu_outcome frame_result :=
  if (ep_discardedFrames e =? MaxUint64) || negb (canEmitLocked e 3) then
    let e := fail_current e "discard_identity_or_event_capacity" in
    silent (e <| ep_decoder := reset (ep_decoder e) |>) (zeroRTUReadResult, Some RTUState)
  else
    let detail := if cancelled then "cancellation"%string else "timeout"%string in
    match prepareQuarantineLocked e (rq_transmitCompletion current) with
    | (e, Err err) => silent e (zeroRTUReadResult, Some err)
    | (e, Ok deadlines) =>
        let e := setQuarantineLocked e current (rq_transmitCompletion current) deadlines in
        let e :=
          e <| ep_quarantineSawBytes := false |> <| ep_lastObservedByte := 0 |>
            <| ep_haveObservedByte := false |>
            <| ep_discardedFrames := ep_discardedFrames e + 1 |>
            <| ep_quarantineDiscarded := ep_quarantineDiscarded e + 1 |> in
        emit e
          (quarantine_specs current detail
           ++ [discard_spec (rh_requestID (rq_handle current)) (pl_UnitID (rq_plan current))
                 "expired_response"])
          (zeroRTUReadResult, Some RTUFrameDiscarded)
    end.

(** [endFrame] while a response is awaited. *)
Definition end_response (e : endpoint) (now : Z) (cancelled : bool) (expected : requestKind)
    : rtu_outcome frame_result :=
  match ep_current e with
  | None => silent e (zeroRTUReadResult, Some RTUState)
  | Some current =>
      if negb (bool_decide (request_kind current = expected)) then
        silent e (zeroRTUReadResult, Some RTUState)
      else
        let '(decoder, (adu, frameErr)) := EndFrame (ep_decoder e) now in
        let e := e <| ep_decoder := decoder |> in
        if bool_decide (frameErr <> None) && (zlen (ru_raw adu) =? 0) then
          silent e (zeroRTUReadResult, RTUProtocol <$> frameErr)
        else if cancelled || (now >=? rq_deadline current) then end_late e current cancelled
        else
          let '(e, r, event) := receiveFrameLocked e current (ru_raw adu) now in
          dispatched e (match event with Some event => [event] | None => [] end) r
  end.

Definition endFrame (e : endpoint) (now : Z) (cancelled : bool) (expected : requestKind)
    : rtu_outcome frame_result :=
  match beginEventOperation e with
  | Some err => silent e (zeroRTUReadResult, Some err)
  | None =>
  match nowLocked e now with
  | (e, Err err) => silent e (zeroRTUReadResult, Some err)
  | (e, Ok now) =>
  match expireQuarantineLocked e now with
  | (e, Some specs) => emit e specs (zeroRTUReadResult, Some RTUState)
  | (e, None) =>
      match ep_state e with
      | RTUStateQuarantine => end_quarantine e
      | RTUStateResponseWait => end_response e now cancelled expected
      | _ => silent e (zeroRTUReadResult, Some RTUState)
      end
  end
  end
  end.

Definition EndpointEndFrame (e : endpoint) (now : Z) (cancelled : bool)
    : rtu_outcome frame_result := endFrame e now cancelled requestRead.

Record RTUDeviceIDResult : Type := mkRTUDeviceIDResult {
  dq_deliverable : bool;
  dq_segment : option DeviceIDSegment;
  dq_wire : option WireResponse
}.

Definition EndDeviceIDFrame (e : endpoint) (now : Z) (cancelled : bool)
    : rtu_outcome (RTUDeviceIDResult * option rtu_error) :=
  let o := endFrame e now cancelled requestDeviceID in
  let '(r, err) := oc_result o in
  mkOutcome (oc_endpoint o)
    ({| dq_deliverable := qr_deliverable r; dq_segment := qr_deviceIDSegment r;
        dq_wire := qr_wire r |}, err)
    (oc_events o).

(** * Resynchronization and recovery *)

(** The end of [TryResynchronize]: the line is idle again. *)
Definition resynchronize (e : endpoint) (before : list RTUEvent) : rtu_outcome (option rtu_error) :=
  let e :=
    e <| ep_state := RTUStateIdle |> <| ep_quarantined := None |>
      <| ep_quarantineSawBytes := false |> <| ep_quarantineDiscarded := 0 |>
      <| ep_lastObservedByte := 0 |> <| ep_haveObservedByte := false |>
      <| ep_decoder := reset (ep_decoder e) |> in
  let '(e, events) :=
    events_locked e
      [ {| es_kind := RTUEventResynchronized; es_requestID := ep_guardRequestID e;
           es_unitID := ep_guardUnitID e; es_result := no_transmit; es_detail := "" |} ] in
  dispatched (e <| ep_guardRequestID := 0 |> <| ep_guardUnitID := 0 |>) (before ++ events) None.

(** The bytes still buffered when the quarantine ends count as a discarded frame. *)
Definition resynchronize_buffered (e : endpoint) : rtu_outcome (option rtu_error) :=
  if (ep_discardedFrames e =? MaxUint64) || (ep_quarantineDiscarded e =? MaxUint64) then
    emit (drop_quarantined (e <| ep_state := RTUStateRecoveryRequired |>))
      [recovery_spec 0 0 "discard_bound"] (Some RTUState)
  else
    let e :=
      e <| ep_discardedFrames := ep_discardedFrames e + 1 |>
        <| ep_quarantineDiscarded := ep_quarantineDiscarded e + 1 |> in
    let '(requestID, unitID) := quarantined_identity e in
    let '(e, discarded) :=
      events_locked e [discard_spec requestID unitID "buffered_at_resynchronization"] in
    if ep_quarantineDiscarded e >? ep_maxDiscardedFrames e then
      let '(e, required) :=
        events_locked
          (drop_quarantined
             (e <| ep_state := RTUStateRecoveryRequired |> <| ep_quarantineSawBytes := false |>))
          [recovery_spec requestID unitID "discard_bound"] in
      dispatched e (discarded ++ required) (Some RTUState)
    else resynchronize e discarded.

(** [TryResynchronize] once the timing proof holds. *)
Definition resynchronize_proved (e : endpoint) : rtu_outcome (option rtu_error) :=
  let buffered :=
    bool_decide (ep_state e = RTUStateQuarantine) && ep_quarantineSawBytes e in
  if negb (canEmitLocked e (if buffered then 2 else 1)) then
    silent (drop_quarantined (requireRecoveryLocked e "event_capacity")) (Some RTUState)
  else if buffered then resynchronize_buffered e
  else resynchronize e [].

Definition TryResynchronize (e : endpoint) (now : Z) : rtu_outcome (option rtu_error) :=
  match beginEventOperation e with
  | Some err => silent e (Some err)
  | None =>
  match nowLocked e now with
  | (e, Err err) => silent e (Some err)
  | (e, Ok now) =>
      match ep_state e with
      | RTUStateInterFrameGuard =>
          if now <? ep_guardDeadline e then silent e (Some RTUState)
          else resynchronize_proved e
      | RTUStateQuarantine =>
          if now >? ep_quiescenceDeadline e then
            if negb (canEmitLocked e 1) then
              silent (requireRecoveryLocked e "event_capacity") (Some RTUState)
            else
              emit (e <| ep_state := RTUStateRecoveryRequired |>)
                [recovery_spec 0 0 "quiescence_timeout"] (Some RTUState)
          else if (now <? ep_latencyDeadline e) || (now <? ep_idleDeadline e) then
            silent e (Some RTUState)
          else resynchronize_proved e
      | _ => silent e (Some RTUState)
      end
  end
  end.

Definition FailQuiescence (e : endpoint) (now : Z) : rtu_outcome (option rtu_error) :=
  match beginEventOperation e with
  | Some err => silent e (Some err)
  | None =>
      if negb (bool_decide (ep_state e = RTUStateQuarantine)) then silent e (Some RTUState)
      else
        match nowLocked e now with
        | (e, Err err) => silent e (Some err)
        | (e, Ok _) =>
            if negb (canEmitLocked e 1) then
              silent (requireRecoveryLocked e "event_capacity") (Some RTUState)
            else
              emit (e <| ep_state := RTUStateRecoveryRequired |>)
                [recovery_spec 0 0 "quiescence"] None
        end
  end.

(** The fresh generation of [Recover]. *)
Definition next_generation (e : endpoint) : endpoint :=
  e <| ep_generation := ep_generation e + 1 |> <| ep_nextRequestID := 1 |>
    <| ep_nextWireResponseID := 1 |> <| ep_nextDiagnosticID := 1 |>
    <| ep_state := RTUStateIdle |> <| ep_current := None |> <| ep_quarantined := None |>
    <| ep_quarantineAnchor := 0 |> <| ep_latencyDeadline := 0 |>
    <| ep_quiescenceDeadline := 0 |> <| ep_idleDeadline := 0 |> <| ep_guardDeadline := 0 |>
    <| ep_guardRequestID := 0 |> <| ep_guardUnitID := 0 |> <| ep_quarantineDiscarded := 0 |>
    <| ep_quarantineSawBytes := false |> <| ep_lastObservedByte := 0 |>
    <| ep_haveObservedByte := false |> <| ep_decoder := reset (ep_decoder e) |>.

Definition EndpointRecover (e : endpoint) (now : Z) : rtu_outcome (option rtu_error) :=
  match beginEventOperation e with
  | Some err => silent e (Some err)
  | None =>
      if negb (bool_decide (ep_state e = RTUStateRecoveryRequired))
         || (ep_generation e =? MaxUint64) then silent e (Some RTUState)
      else
        match nowLocked e now with
        | (e, Err err) => silent e (Some err)
        | (e, Ok _) =>
            let pending := negb (bool_decide (ep_pendingRecovery e = ""%string)) in
            if negb (canEmitLocked e (if pending then 2 else 1)) then silent e (Some RTUState)
            else
              let '(e, required) :=
                if pending then
                  let '(e, events) :=
                    events_locked e [recovery_spec 0 0 (ep_pendingRecovery e)] in
                  (e <| ep_pendingRecovery := ""%string |>, events)
                else (e, []) in
              let '(e, recovered) :=
                events_locked (next_generation e)
                  [ {| es_kind := RTUEventRecovered; es_requestID := 0; es_unitID := 0;
                       es_result := no_transmit; es_detail := "" |} ] in
              dispatched e (required ++ recovered) None
        end
  end.

Record RTUFixtureEndpointSnapshot : Type := mkRTUFixtureEndpointSnapshot {
  sn_state : RTUEndpointState;
  sn_generation : Z;
  sn_discardedFrames : Z;
  sn_eventSinkPanics : Z
}.

Definition Snapshot (e : endpoint) : RTUFixtureEndpointSnapshot :=
  {| sn_state := ep_state e; sn_generation := ep_generation e;
     sn_discardedFrames := ep_discardedFrames e; sn_eventSinkPanics := ep_eventSinkPanics e |}.

(** The line, released if it is this endpoint's. *)
Definition release_line (e : endpoint) (line : RTUFixtureLine) : RTUFixtureLine :=
  if bool_decide (fl_owner line = Some (ep_self e)) then
    {| fl_identity := fl_identity line; fl_owner := None |}
  else line.

(** [Close] of an endpoint that is not closed, apart from the line. *)
Definition close_endpoint (e : endpoint) (now : Z) : rtu_outcome (option rtu_error) :=
  match nowLocked e now with
  | (e, Err err) =>
      silent
        (e <| ep_state := RTUStateClosed |> <| ep_current := None |>
           <| ep_quarantined := None |>) (Some err)
  | (e, Ok _) =>
      if negb (canEmitLocked e 1) then
        silent (e <| ep_state := RTUStateClosed |> <| ep_current := None |>) (Some RTUState)
      else
        emit
          (e <| ep_state := RTUStateClosed |> <| ep_current := None |>
             <| ep_quarantined := None |> <| ep_guardRequestID := 0 |>
             <| ep_guardUnitID := 0 |> <| ep_lastObservedByte := 0 |>
             <| ep_haveObservedByte := false |> <| ep_decoder := reset (ep_decoder e) |>)
          [ {| es_kind := RTUEventClosed; es_requestID := 0; es_unitID := 0;
               es_result := no_transmit; es_detail := "" |} ] None
  end.

Definition EndpointClose (e : endpoint) (now : Z) (line : RTUFixtureLine)
    : rtu_outcome (option rtu_error) * RTUFixtureLine :=
  match beginEventOperation e with
  | Some err => (silent e (Some err), line)
  | None =>
      if bool_decide (ep_state e = RTUStateClosed) then (silent e None, line)
      else (close_endpoint e now, release_line e line)
  end.
