(* ===== verification/RtuEndpointSteps.v ===== *)
(** The transitions of the RTU fixture endpoint as a step relation, the proof that
    every operation is a sequence of them, and that they keep the endpoint well
    formed.  The invariants over histories (freshness of buffered bytes, silence,
    the event log) are in RtuEndpointFacts. *)

From S2P Require Import Prelude.
From S2P Require Import Pdu.
From S2P Require Import DeviceId.
From S2P Require Import DeviceIdTolerant.
From S2P Require Import TcpAdu.
From S2P Require Import RtuTiming.
From S2P Require Import RtuAdu.
From S2P Require Import TcpOwner.
From S2P Require Import Coalescing.
From S2P Require Import RtuEndpoint.

(** * Operations as values *)

Inductive rtu_op : Type :=
| OpBeginRead (now : Z) (ctx : option Z) (plan : RTUReadPlan)
| OpBeginDeviceID (now : Z) (ctx : option Z) (plan : RTUDeviceIDPlan)
| OpTransmit (now : Z) (cancelled : bool) (handle : RTURequestHandle) (result : TransmitResult)
| OpTick (now : Z) (cancelled : bool)
| OpAbandon (now : Z) (handle : RTURequestHandle) (reason : AbandonReason)
| OpFeed (now value : Z)
| OpEnd (now : Z) (cancelled : bool) (expected : requestKind)
| OpResynchronize (now : Z)
| OpFailQuiescence (now : Z)
| OpRecover (now : Z)
| OpClose (now : Z) (line : RTUFixtureLine).

(** The endpoint and the events delivered by an operation. *)
Definition apply_op (e : endpoint) (op : rtu_op) : endpoint * list RTUEvent :=
  let view {A} (o : rtu_outcome A) := (oc_endpoint o, oc_events o) in
  match op with
  | OpBeginRead now ctx plan => view (BeginRead e now ctx plan)
  | OpBeginDeviceID now ctx plan => view (BeginDeviceID e now ctx plan)
  | OpTransmit now cancelled handle result => view (CompleteTransmit e now cancelled handle result)
  | OpTick now cancelled => view (Tick e now cancelled)
  | OpAbandon now handle reason => view (Abandon e now handle reason)
  | OpFeed now value => view (EndpointFeedByte e now value)
  | OpEnd now cancelled expected => view (endFrame e now cancelled expected)
  | OpResynchronize now => view (TryResynchronize e now)
  | OpFailQuiescence now => view (FailQuiescence e now)
  | OpRecover now => view (EndpointRecover e now)
  | OpClose now line => view (fst (EndpointClose e now line))
  end.

Fixpoint apply_ops (e : endpoint) (ops : list rtu_op) : endpoint * list RTUEvent :=
  match ops with
  | [] => (e, [])
  | op :: ops =>
      let '(e, events) := apply_op e op in
      let '(e, more) := apply_ops e ops in
      (e, events ++ more)
  end.

(** The bytes, with their times, that the line is known to have carried: those
    given to an endpoint that awaits a response, guards or is in quarantine. *)
Definition listening (state : RTUEndpointState) : bool :=
  match state with
  | RTUStateResponseWait | RTUStateInterFrameGuard | RTUStateQuarantine => true
  | _ => false
  end.

Definition heard_by (e : endpoint) (op : rtu_op) : list (Z * Z) :=
  match op with
  | OpFeed now value => if listening (ep_state e) then [(now, value)] else []
  | _ => []
  end.

Fixpoint heard_in (e : endpoint) (ops : list rtu_op) : list (Z * Z) :=
  match ops with
  | [] => []
  | op :: ops => heard_by e op ++ heard_in (fst (apply_op e op)) ops
  end.

(** * Well-formed endpoints *)

Definition owned (e : endpoint) (r : rtuOwnedRequest) : Prop :=
  rh_endpoint (rq_handle r) = ep_self e /\
  1 <= rh_requestID (rq_handle r) < ep_nextRequestID e /\
  rh_generation (rq_handle r) = ep_generation e /\
  0 <= rq_writeInvocation r <= ep_lastClock e.

Definition timing_ok (t : RTUTiming) : Prop :=
  0 < rt_characterTime t /\ 0 < rt_interCharacter t /\ 0 < rt_interFrame t /\
  0 <= rt_maxResponseLatency t /\
  rt_maxResponseLatency t + rt_interFrame t <= rt_maxQuiescence t.

Definition clean (d : RTUFrameDecoder) : Prop :=
  rd_buffer d = [] /\ rd_haveByte d = false /\ rd_poisoned d = false /\ rd_lastByte d = 0.

(** The deadlines of a quarantine, counted from its anchor. *)
Definition deadlines_ok (e : endpoint) : Prop :=
  0 <= ep_quarantineAnchor e /\
  ep_latencyDeadline e = ep_quarantineAnchor e + rt_maxResponseLatency (ep_timing e) /\
  ep_quiescenceDeadline e = ep_quarantineAnchor e + rt_maxQuiescence (ep_timing e) /\
  ep_latencyDeadline e <= ep_idleDeadline e /\
  0 <= ep_quarantineDiscarded e <= ep_maxDiscardedFrames e.

Definition state_ok (e : endpoint) : Prop :=
  match ep_state e with
  | RTUStateIdle | RTUStateInterFrameGuard =>
      ep_current e = None /\ ep_quarantined e = None /\ clean (ep_decoder e)
  | RTUStateWriting =>
      ep_quarantined e = None /\ clean (ep_decoder e) /\
      exists r, ep_current e = Some r /\ owned e r
  | RTUStateResponseWait =>
      ep_quarantined e = None /\
      exists r, ep_current e = Some r /\ owned e r /\
        rq_writeInvocation r <= rq_transmitCompletion r <= ep_lastClock e
  | RTUStateQuarantine =>
      ep_current e = None /\ deadlines_ok e /\
      exists r, ep_quarantined e = Some r /\ owned e r
  | RTUStateRecoveryRequired | RTUStateClosed => ep_current e = None
  end.

(** The counters stay within an [uint64]. *)
Definition counters_ok (e : endpoint) : Prop :=
  1 <= ep_generation e <= MaxUint64 /\
  1 <= ep_nextRequestID e <= MaxUint64 /\
  1 <= ep_nextWireResponseID e <= MaxUint64 /\
  1 <= ep_nextDiagnosticID e <= MaxUint64 /\
  0 <= ep_nextSequence e <= MaxUint64 /\
  0 <= ep_discardedFrames e <= MaxUint64 /\
  0 <= ep_eventSinkPanics e <= MaxUint64.

Record wf (e : endpoint) : Prop := mkWf {
  wf_callback : ep_callback e = false;
  wf_timing : timing_ok (ep_timing e);
  wf_decoder : rd_timing (ep_decoder e) = ep_timing e;
  wf_bound : 0 < ep_maxDiscardedFrames e;
  wf_clock : 0 <= ep_lastClock e;
  wf_haveClock : ep_haveClock e = false -> ep_lastClock e = 0;
  wf_counters : counters_ok e;
  wf_state : state_ok e;
  wf_observed : ep_haveObservedByte e = true -> 0 <= ep_lastObservedByte e <= ep_lastClock e
}.

(** * Events *)

(** The events [evs] that calls of [eventLocked] gave for [specs], from sequence
    number [n] on. *)
Fixpoint logged (e : endpoint) (n : Z) (specs : list event_spec) (evs : list RTUEvent) : Prop :=
  match specs, evs with
  | [], [] => True
  | s :: specs, ev :: evs =>
      ev_Kind ev = es_kind s /\ ev_RequestID ev = es_requestID s /\ ev_Sequence ev = n + 1 /\
      ev_Generation ev = ep_generation e /\ ev_MonotonicOffset ev = ep_lastClock e /\
      logged e (n + 1) specs evs
  | _, _ => False
  end.

Definition advance (e : endpoint) (specs : list event_spec) : endpoint :=
  e <| ep_nextSequence := ep_nextSequence e + zlen specs |>.

Definition fits (e : endpoint) (specs : list event_spec) : Prop :=
  ep_nextSequence e + zlen specs <= MaxUint64.

Lemma event_locked_spec e kind id unit result detail :
  ep_nextSequence e < MaxUint64 ->
  exists ev,
    eventLocked e kind id unit result detail
    = (e <| ep_nextSequence := ep_nextSequence e + 1 |>, Some ev) /\
    ev_Kind ev = kind /\ ev_RequestID ev = id /\ ev_Sequence ev = ep_nextSequence e + 1 /\
    ev_Generation ev = ep_generation e /\ ev_MonotonicOffset ev = ep_lastClock e.
Proof.
  intros H. unfold eventLocked. test_false (ep_nextSequence e =? MaxUint64). cbv zeta.
  eexists. split; [reflexivity|].
  destruct (event_request _ _) as [r|]; [destruct (rq_deviceID r)|]; by cbn.
Qed.

Lemma logged_clock e e' n specs evs :
  ep_generation e = ep_generation e' -> ep_lastClock e = ep_lastClock e' ->
  logged e n specs evs -> logged e' n specs evs.
Proof.
  intros Hg Hc. revert n evs.
  induction specs as [|s specs IH]; intros n [|ev evs]; cbn; try done.
  rewrite Hg, Hc. intros (? & ? & ? & ? & ? & ?). auto 10.
Qed.

Lemma events_locked_spec e specs :
  fits e specs ->
  exists evs, events_locked e specs = (advance e specs, evs) /\
    logged e (ep_nextSequence e) specs evs.
Proof.
  unfold fits. revert e. induction specs as [|s specs IH]; intros e Hf.
  - exists []. split; [|done]. cbn. f_equal. unfold advance. rewrite zlen_nil, Z.add_0_r. by destruct e.
  - rewrite zlen_cons in Hf. pose proof (zlen_nonneg specs).
    cbn [events_locked].
    destruct (event_locked_spec e (es_kind s) (es_requestID s) (es_unitID s) (es_result s)
      (es_detail s)) as (ev & -> & ? & ? & ? & ? & ?); [lia|].
    destruct (IH (e <| ep_nextSequence := ep_nextSequence e + 1 |>)) as (evs & -> & Hl);
      [cbn; lia|].
    exists (ev :: evs). split.
    + f_equal. unfold advance. rewrite zlen_cons. cbn.
      by rewrite Z.add_assoc.
    + cbn [logged]. repeat (split; [assumption|]). by eapply logged_clock; [..|exact Hl].
Qed.

Lemma dispatch_loop_spec sink events e :
  0 <= ep_eventSinkPanics e <= MaxUint64 ->
  exists p, dispatch_loop sink e events = e <| ep_eventSinkPanics := p |> /\ 0 <= p <= MaxUint64.
Proof.
  revert e. induction events as [|ev events IH]; intros e He; cbn.
  - exists (ep_eventSinkPanics e). split; [by destruct e|done].
  - destruct (sink ev && _) eqn:E; [|by apply IH]. bool_hyps.
    destruct (IH (e <| ep_eventSinkPanics := ep_eventSinkPanics e + 1 |>)) as (p & -> & Hp);
      [cbn; lia|]. by exists p.
Qed.

(** The events that reach the sink, if there is one. *)
Definition delivered (e : endpoint) (evs : list RTUEvent) : list RTUEvent :=
  match ep_sink e with
  | None => []
  | Some _ => evs
  end.

Lemma dispatched_spec {A} e evs (r : A) :
  0 <= ep_eventSinkPanics e <= MaxUint64 ->
  exists p, dispatched e evs r
    = mkOutcome (e <| ep_eventSinkPanics := p |>) r (delivered e evs) /\ 0 <= p <= MaxUint64.
Proof.
  intros He. unfold dispatched, dispatch, delivered. destruct (ep_sink e) as [sink|] eqn:Es.
  - destruct (dispatch_loop_spec sink evs e He) as (p & -> & Hp). by exists p.
  - exists (ep_eventSinkPanics e). split; [|done]. by destruct e.
Qed.

(** * Transitions *)

(** [e'] is [e] with recovery required: nothing is in flight, and only what the
    failure may touch has changed. *)
Record failed (e e' : endpoint) : Prop := mkFailed {
  fa_state : ep_state e' = RTUStateRecoveryRequired;
  fa_current : ep_current e' = None;
  fa_self : ep_self e' = ep_self e;
  fa_callback : ep_callback e' = ep_callback e;
  fa_timing : ep_timing e' = ep_timing e;
  fa_decoder : rd_timing (ep_decoder e') = rd_timing (ep_decoder e);
  fa_sink : ep_sink e' = ep_sink e;
  fa_bound : ep_maxDiscardedFrames e' = ep_maxDiscardedFrames e;
  fa_generation : ep_generation e' = ep_generation e;
  fa_nextRequestID : ep_nextRequestID e' = ep_nextRequestID e;
  fa_nextWireResponseID : ep_nextWireResponseID e' = ep_nextWireResponseID e;
  fa_nextDiagnosticID : ep_nextDiagnosticID e' = ep_nextDiagnosticID e;
  fa_panics : ep_eventSinkPanics e' = ep_eventSinkPanics e;
  fa_lastClock : ep_lastClock e' = ep_lastClock e;
  fa_haveClock : ep_haveClock e' = ep_haveClock e;
  fa_discarded : ep_discardedFrames e <= ep_discardedFrames e' <= MaxUint64;
  fa_observed : ep_haveObservedByte e' = true ->
    0 <= ep_lastObservedByte e' <= ep_lastClock e' \/
    ep_haveObservedByte e = true /\ ep_lastObservedByte e' = ep_lastObservedByte e
}.

(** The events of a failure. *)
Definition failure_specs (specs : list event_spec) : Prop :=
  Forall (fun s => es_kind s = RTUEventRecoveryRequired \/ es_kind s = RTUEventFrameDiscarded)
    specs.

(** The request that an admission makes current. *)
Definition admits (e : endpoint) (r : rtuOwnedRequest) : Prop :=
  rq_handle r = {| rh_endpoint := ep_self e; rh_requestID := ep_nextRequestID e;
                   rh_generation := ep_generation e |} /\
  rq_writeInvocation r = ep_lastClock e.

Definition admitted (e : endpoint) (r : rtuOwnedRequest) : endpoint :=
  e <| ep_nextRequestID := ep_nextRequestID e + 1 |> <| ep_state := RTUStateWriting |>
    <| ep_lastObservedByte := 0 |> <| ep_haveObservedByte := false |>
    <| ep_current := Some r |>.

(** A step, with the events it logs and the bytes it hears. *)
Inductive rtu_step : endpoint -> list RTUEvent -> list (Z * Z) -> endpoint -> Prop :=
| S_clock e now :
    0 <= now -> (ep_haveClock e = true -> ep_lastClock e <= now) ->
    rtu_step e [] [] (e <| ep_lastClock := now |> <| ep_haveClock := true |>)
| S_panics e p :
    0 <= p <= MaxUint64 -> rtu_step e [] [] (e <| ep_eventSinkPanics := p |>)
| S_fail e e' specs evs heard :
    failed e e' -> failure_specs specs -> fits e specs ->
    ep_nextSequence e' = ep_nextSequence e + zlen specs ->
    logged e (ep_nextSequence e) specs evs ->
    rtu_step e evs heard e'
| S_begin e r s evs :
    ep_state e = RTUStateIdle -> admits e r -> ep_nextRequestID e < MaxUint64 ->
    es_kind s = RTUEventBeginRead \/ es_kind s = RTUEventBeginDeviceID ->
    es_requestID s = ep_nextRequestID e -> fits e [s] ->
    logged e (ep_nextSequence e) [s] evs ->
    rtu_step e evs [] (advance (admitted e r) [s])
| S_zero e r specs evs :
    ep_state e = RTUStateWriting -> ep_current e = Some r -> fits e specs ->
    es_kind <$> specs = [RTUEventTransmitResult; RTUEventWaiterResolved] ->
    Forall (fun s => es_requestID s = rh_requestID (rq_handle r)) specs ->
    logged e (ep_nextSequence e) specs evs ->
    rtu_step e evs []
      ((advance e specs) <| ep_state := RTUStateIdle |> <| ep_current := None |>
         <| ep_lastObservedByte := 0 |> <| ep_haveObservedByte := false |>)
| S_sent e r s evs :
    ep_state e = RTUStateWriting -> ep_current e = Some r -> fits e [s] ->
    es_kind s = RTUEventTransmitResult -> es_requestID s = rh_requestID (rq_handle r) ->
    logged e (ep_nextSequence e) [s] evs ->
    rtu_step e evs []
      ((advance e [s]) <| ep_state := RTUStateResponseWait |>
         <| ep_current := Some (r <| rq_transmitCompletion := ep_lastClock e |>) |>)
| S_quarantine e r r' anchor deadlines detail before after evs sawBytes (keep : bool) :
    ep_state e = RTUStateWriting \/ ep_state e = RTUStateResponseWait ->
    ep_current e = Some r -> rq_handle r' = rq_handle r ->
    rq_writeInvocation r' = rq_writeInvocation r -> 0 <= anchor ->
    prepareQuarantineLocked e anchor = (e, Ok deadlines) ->
    Forall (fun s => es_kind s = RTUEventTransmitResult /\
                     es_requestID s = rh_requestID (rq_handle r)) before ->
    Forall (fun s => es_kind s = RTUEventFrameDiscarded) after -> zlen after <= 1 ->
    ep_discardedFrames e + zlen after <= MaxUint64 ->
    fits e (before ++ quarantine_specs r detail ++ after) ->
    logged e (ep_nextSequence e) (before ++ quarantine_specs r detail ++ after) evs ->
    rtu_step e evs []
      ((setQuarantineLocked e r' anchor deadlines)
         <| ep_nextSequence :=
              ep_nextSequence e + zlen (before ++ quarantine_specs r detail ++ after) |>
         <| ep_quarantineSawBytes := sawBytes |>
         <| ep_lastObservedByte := if keep then ep_lastObservedByte e else 0 |>
         <| ep_haveObservedByte := if keep then ep_haveObservedByte e else false |>
         <| ep_discardedFrames := ep_discardedFrames e + zlen after |>
         <| ep_quarantineDiscarded := zlen after |>)
| S_hear e value :
    ep_state e = RTUStateResponseWait ->
    rtu_step e [] [(ep_lastClock e, value)]
      ((observe e (ep_lastClock e))
         <| ep_decoder := fst (FeedByte (ep_decoder e) (ep_lastClock e) value) |>)
| S_hear_quarantine e value idle decoder :
    ep_state e = RTUStateQuarantine -> rd_timing decoder = rd_timing (ep_decoder e) ->
    checkedRTUOffsetAdd (ep_lastClock e) (rt_interFrame (ep_timing e)) = Some idle ->
    rtu_step e [] [(ep_lastClock e, value)]
      ((observe e (ep_lastClock e))
         <| ep_idleDeadline := if idle <? ep_latencyDeadline e then ep_latencyDeadline e
                               else idle |>
         <| ep_quarantineSawBytes := true |> <| ep_decoder := decoder |>)
| S_hear_guard e value guard s evs :
    ep_state e = RTUStateInterFrameGuard ->
    checkedRTUOffsetAdd (ep_lastClock e) (rt_interFrame (ep_timing e)) = Some guard ->
    ep_discardedFrames e < MaxUint64 -> fits e [s] -> es_kind s = RTUEventFrameDiscarded ->
    logged e (ep_nextSequence e) [s] evs ->
    rtu_step e evs [(ep_lastClock e, value)]
      ((advance e [s]) <| ep_guardDeadline := guard |>
         <| ep_discardedFrames := ep_discardedFrames e + 1 |>)
| S_end e :
    ep_state e = RTUStateResponseWait ->
    rtu_step e [] [] (e <| ep_decoder := fst (EndFrame (ep_decoder e) (ep_lastClock e)) |>)
| S_stray e s evs :
    ep_state e = RTUStateResponseWait -> ep_nextDiagnosticID e < MaxUint64 -> fits e [s] ->
    es_kind s = RTUEventResponseReceive -> es_requestID s = 0 ->
    logged e (ep_nextSequence e) [s] evs ->
    rtu_step e evs []
      ((advance e [s]) <| ep_nextDiagnosticID := ep_nextDiagnosticID e + 1 |>)
| S_answer e r guard unit s evs :
    ep_state e = RTUStateResponseWait -> ep_current e = Some r -> clean (ep_decoder e) ->
    checkedRTUOffsetAdd (ep_lastClock e) (rt_interFrame (ep_timing e)) = Some guard ->
    ep_nextWireResponseID e < MaxUint64 -> fits e [s] ->
    es_kind s = RTUEventResponseReceive -> es_requestID s = rh_requestID (rq_handle r) ->
    logged e (ep_nextSequence e) [s] evs ->
    rtu_step e evs []
      ((advance e [s]) <| ep_nextWireResponseID := ep_nextWireResponseID e + 1 |>
         <| ep_state := RTUStateInterFrameGuard |> <| ep_guardDeadline := guard |>
         <| ep_guardRequestID := rh_requestID (rq_handle r) |> <| ep_guardUnitID := unit |>
         <| ep_current := None |>)
| S_discard e s evs :
    ep_state e = RTUStateQuarantine -> ep_discardedFrames e < MaxUint64 ->
    ep_quarantineDiscarded e < ep_maxDiscardedFrames e -> fits e [s] ->
    es_kind s = RTUEventFrameDiscarded -> logged e (ep_nextSequence e) [s] evs ->
    rtu_step e evs []
      ((advance e [s]) <| ep_decoder := reset (ep_decoder e) |>
         <| ep_quarantineSawBytes := false |> <| ep_lastObservedByte := 0 |>
         <| ep_haveObservedByte := false |>
         <| ep_discardedFrames := ep_discardedFrames e + 1 |>
         <| ep_quarantineDiscarded := ep_quarantineDiscarded e + 1 |>)
| S_resync e before s evs :
    (ep_state e = RTUStateInterFrameGuard /\ ep_guardDeadline e <= ep_lastClock e) \/
    (ep_state e = RTUStateQuarantine /\
       ep_latencyDeadline e <= ep_lastClock e /\ ep_idleDeadline e <= ep_lastClock e) ->
    Forall (fun s => es_kind s = RTUEventFrameDiscarded) before ->
    ep_discardedFrames e + zlen before <= MaxUint64 ->
    es_kind s = RTUEventResynchronized -> fits e (before ++ [s]) ->
    logged e (ep_nextSequence e) (before ++ [s]) evs ->
    rtu_step e evs []
      ((advance e (before ++ [s])) <| ep_discardedFrames := ep_discardedFrames e + zlen before |>
         <| ep_state := RTUStateIdle |> <| ep_quarantined := None |>
         <| ep_quarantineSawBytes := false |> <| ep_quarantineDiscarded := 0 |>
         <| ep_lastObservedByte := 0 |> <| ep_haveObservedByte := false |>
         <| ep_decoder := reset (ep_decoder e) |> <| ep_guardRequestID := 0 |>
         <| ep_guardUnitID := 0 |>)
| S_recover e pending before s evs evs' :
    ep_state e = RTUStateRecoveryRequired -> ep_generation e < MaxUint64 ->
    Forall (fun s => es_kind s = RTUEventRecoveryRequired) before ->
    es_kind s = RTUEventRecovered -> fits e (before ++ [s]) ->
    logged e (ep_nextSequence e) before evs ->
    logged (next_generation e) (ep_nextSequence e + zlen before) [s] evs' ->
    rtu_step e (evs ++ evs') []
      ((next_generation (advance e (before ++ [s]))) <| ep_pendingRecovery := pending |>)
| S_close e e' specs evs :
    ep_state e <> RTUStateClosed ->
    failed e (e' <| ep_state := RTUStateRecoveryRequired |>) ->
    ep_state e' = RTUStateClosed ->
    ep_nextSequence e' = ep_nextSequence e + zlen specs -> fits e specs ->
    Forall (fun s => es_kind s = RTUEventClosed) specs ->
    logged e (ep_nextSequence e) specs evs ->
    rtu_step e evs [] e'.

Inductive rtu_steps : endpoint -> list RTUEvent -> list (Z * Z) -> endpoint -> Prop :=
| steps_refl e : rtu_steps e [] [] e
| steps_more e evs heard e1 evs' heard' e2 :
    rtu_step e evs heard e1 -> rtu_steps e1 evs' heard' e2 ->
    rtu_steps e (evs ++ evs') (heard ++ heard') e2.

Lemma steps_trans e evs heard e1 evs' heard' e2 :
  rtu_steps e evs heard e1 -> rtu_steps e1 evs' heard' e2 ->
  rtu_steps e (evs ++ evs') (heard ++ heard') e2.
Proof.
  induction 1; [done|]. intros H2. rewrite <- !app_assoc. econstructor; [done|]. auto.
Qed.

Lemma steps_one e evs heard e' : rtu_step e evs heard e' -> rtu_steps e evs heard e'.
Proof.
  intros H. pose proof (steps_more _ _ _ _ _ _ _ H (steps_refl e')) as Hs.
  by rewrite !app_nil_r in Hs.
Qed.

Lemma steps_then e evs heard e1 evs' heard' e2 :
  rtu_steps e evs heard e1 -> rtu_step e1 evs' heard' e2 ->
  rtu_steps e (evs ++ evs') (heard ++ heard') e2.
Proof. intros H1 H2. eapply steps_trans; [done|]. by apply steps_one. Qed.

(** * Every step keeps an endpoint well-formed *)

Lemma checked_add_some a b c :
  checkedRTUOffsetAdd a b = Some c -> 0 <= a /\ 0 <= b /\ c = a + b /\ c <= MaxInt64.
Proof.
  unfold checkedRTUOffsetAdd. destruct (_ || _) eqn:E; [done|]. intros [= <-]. bool_hyps. lia.
Qed.

Lemma prepare_ok e anchor e' d :
  prepareQuarantineLocked e anchor = (e', Ok d) ->
  e' = e /\ qd_latency d = anchor + rt_maxResponseLatency (ep_timing e) /\
  qd_quiescence d = anchor + rt_maxQuiescence (ep_timing e) /\
  qd_latency d + rt_interFrame (ep_timing e) <= qd_idle d <= qd_quiescence d /\
  (ep_haveObservedByte e = true ->
     ep_lastObservedByte e + rt_interFrame (ep_timing e) <= qd_idle d) /\
  qd_hadBufferedBytes d = ep_haveObservedByte e.
Proof.
  unfold prepareQuarantineLocked.
  destruct (checkedRTUOffsetAdd anchor (rt_maxResponseLatency _)) as [a|] eqn:E1; [|done].
  destruct (checkedRTUOffsetAdd anchor (rt_maxQuiescence _)) as [b|] eqn:E2; [|done].
  destruct (checkedRTUOffsetAdd a _) as [c|] eqn:E3; [|done].
  apply checked_add_some in E1, E2, E3.
  destruct (c >? b) eqn:E4; [done|]. bool_hyps.
  destruct (ep_haveObservedByte e) eqn:Eh.
  - destruct (checkedRTUOffsetAdd (ep_lastObservedByte e) _) as [f|] eqn:E5; [|done].
    apply checked_add_some in E5. destruct (f >? b) eqn:E6; [done|]. intros [= <- <-]. bool_hyps.
    cbn. destruct (f >? c) eqn:E7; bool_hyps; conj; try done; lia.
  - intros [= <- <-]. cbn. conj; try done; lia.
Qed.

Lemma feed_byte_rd_timing d offset value :
  rd_timing (fst (FeedByte d offset value)) = rd_timing d.
Proof. unfold FeedByte, feed_unpoisoned. by repeat case_test. Qed.

Lemma end_frame_rd_timing d offset : rd_timing (fst (EndFrame d offset)) = rd_timing d.
Proof. unfold EndFrame. by repeat case_test. Qed.

Lemma failed_wf e e' n :
  wf e -> failed e e' -> ep_nextSequence e' = n -> 0 <= n <= MaxUint64 -> wf e'.
Proof.
  intros [] [] Hn Hr. unfold counters_ok in *. constructor.
  - congruence.
  - by rewrite fa_timing0.
  - congruence.
  - by rewrite fa_bound0.
  - by rewrite fa_lastClock0.
  - by rewrite fa_haveClock0, fa_lastClock0.
  - unfold counters_ok.
    rewrite fa_generation0, fa_nextRequestID0, fa_nextWireResponseID0, fa_nextDiagnosticID0,
      fa_panics0. lia.
  - unfold state_ok. by rewrite fa_state0.
  - intros H. destruct (fa_observed0 H) as [?|[H1 H2]]; [done|]. rewrite H2, fa_lastClock0. auto.
Qed.

Lemma owned_later e e' r :
  owned e r -> ep_self e' = ep_self e -> ep_generation e' = ep_generation e ->
  ep_nextRequestID e <= ep_nextRequestID e' -> ep_lastClock e <= ep_lastClock e' -> owned e' r.
Proof. unfold owned. intros (-> & ? & -> & ?) -> -> ? ?. conj; try done; lia. Qed.

(** Closing does to the other fields what failing does. *)
Lemma closed_wf e e' n :
  wf e -> failed e (e' <| ep_state := RTUStateRecoveryRequired |>) ->
  ep_state e' = RTUStateClosed -> ep_nextSequence e' = n -> 0 <= n <= MaxUint64 -> wf e'.
Proof.
  intros Hw Hf Hs Hn Hr.
  pose proof (failed_wf _ _ n Hw Hf Hn Hr) as [? ? ? ? ? ? ? Hst ?]. destruct Hf. cbn in *.
  constructor; try done. unfold state_ok. by rewrite Hs.
Qed.

Lemma counters_step e evs heard e' :
  rtu_step e evs heard e' -> wf e -> counters_ok e'.
Proof.
  intros Hs Hwf. pose proof (wf_counters _ Hwf) as Hn.
  assert (0 <= ep_nextSequence e) by (unfold counters_ok in Hn; lia).
  destruct Hs; unfold fits, advance in *; zlen_simpl;
    repeat match goal with
    | H : context [zlen ?l] |- _ =>
        lazymatch goal with
        | _ : 0 <= zlen l |- _ => fail
        | _ => pose proof (zlen_nonneg l)
        end
    end;
    try (by unfold counters_ok in *; cbn; lia).
  - eapply wf_counters, failed_wf; [done..|lia].
  - eapply wf_counters, closed_wf; [done..|lia].
Qed.

Lemma state_step e evs heard e' :
  rtu_step e evs heard e' -> wf e -> state_ok e'.
Proof.
  intros Hs Hwf. pose proof Hwf as [Hcb Ht Hd Hb Hc Hhc Hn Hst Ho].
  unfold state_ok in Hst.
  destruct Hs; try (match goal with H : ep_state e = _ |- _ => rewrite H in Hst end);
    unfold state_ok; cbn.
  - assert (Hl : ep_lastClock e <= now)
      by (destruct (ep_haveClock e); [auto|rewrite Hhc by done; lia]).
    assert (Hown : forall r, owned e r ->
      owned (e <| ep_lastClock := now |> <| ep_haveClock := true |>) r)
      by (intros; by eapply owned_later).
    destruct (ep_state e); try done.
    + destruct Hst as (? & ? & r & ? & ?). eauto 10.
    + destruct Hst as (? & r & ? & ? & ?). conj; try done. exists r. conj; auto; lia.
    + destruct Hst as (? & ? & r & ? & ?). conj; eauto 10.
  - done.
  - destruct H as [Hs Hcur]. by rewrite Hs.
  - destruct Hst as (? & ? & ?), H0 as [Hh Hw]. conj; try done. exists r. split; [done|].
    unfold owned, counters_ok in *. rewrite Hh, Hw. cbn. conj; try done; lia.
  - by destruct Hst as (? & ? & _).
  - destruct Hst as (? & ? & r0 & E & ?). rewrite H0 in E. injection E as <-.
    conj; try done. eexists. split; [done|]. unfold owned in *. cbn. conj; try done; lia.
  - assert (Hr : owned e r).
    { destruct H as [H|H]; rewrite H in Hst.
      - destruct Hst as (? & ? & r0 & E & ?). rewrite H0 in E. by injection E as <-.
      - destruct Hst as (? & r0 & E & ? & ?). rewrite H0 in E. by injection E as <-. }
    apply prepare_ok in H4 as (_ & Hl & Hq & Hi & _ & _).
    unfold timing_ok in Ht. pose proof (zlen_nonneg after). conj; try done.
    + unfold deadlines_ok. cbn. rewrite Hl, Hq. lia.
    + exists r'. split; [done|]. unfold owned in *. by rewrite H1, H2.
  - rewrite H. exact Hst.
  - rewrite H. unfold deadlines_ok, owned in *. cbn.
    destruct Hst as (? & (? & ? & ? & ? & ?) & ?). apply checked_add_some in H1.
    destruct (idle <? _) eqn:E; bool_hyps; conj; try done; lia.
  - rewrite H. exact Hst.
  - rewrite H. exact Hst.
  - rewrite H. exact Hst.
  - by destruct Hst as (? & _).
  - rewrite H. destruct Hst as (? & (? & ? & ? & ? & ?) & ?). conj; try done.
    unfold deadlines_ok. cbn. conj; try done; lia.
  - destruct H as [[H _]|[H _]]; rewrite H in Hst; destruct Hst as (? & _); done.
  - done.
  - destruct H0. by rewrite H1.
Qed.

Lemma wf_step e evs heard e' : rtu_step e evs heard e' -> wf e -> wf e'.
Proof.
  intros Hs Hwf. pose proof (counters_step _ _ _ _ Hs Hwf) as Hn'.
  pose proof (state_step _ _ _ _ Hs Hwf) as Hst'.
  pose proof Hwf as [Hcb Ht Hd Hb Hc Hhc Hn Hst Ho].
  destruct Hs;
    try match goal with
    | H : failed _ (_ <| ep_state := _ |>) |- _ =>
        solve [exact (closed_wf _ _ _ Hwf H ltac:(eassumption) eq_refl ltac:(apply Hn'))]
    | H : failed _ _ |- _ =>
        solve [exact (failed_wf _ _ _ Hwf H eq_refl ltac:(apply Hn'))]
    end;
    (constructor; [| | | | | |exact Hn'|exact Hst'|]); clear Hn' Hst' Hst Hn Hwf;
    cbn; try assumption; try discriminate.
  - intros H1. specialize (Ho H1). destruct (ep_haveClock e); [|rewrite Hhc in Ho by done]; lia.
  - destruct keep; [done|]. discriminate.
  - by rewrite feed_byte_rd_timing.
  - lia.
  - congruence.
  - lia.
  - by rewrite end_frame_rd_timing.
Qed.

Lemma wf_steps e evs heard e' : rtu_steps e evs heard e' -> wf e -> wf e'.
Proof. induction 1; [done|]. eauto using wf_step. Qed.

(** * Operations are sequences of steps *)

(** What an operation amounts to. *)
Definition realizes (e : endpoint) (heard : list (Z * Z)) (e' : endpoint)
    (events : list RTUEvent) : Prop :=
  exists evs, rtu_steps e evs heard e' /\ events = delivered e evs.

Lemma sink_step e evs heard e' : rtu_step e evs heard e' -> ep_sink e' = ep_sink e.
Proof. destruct 1; try reflexivity; [by destruct H|by destruct H0]. Qed.

Lemma realizes_refl e : realizes e [] e [].
Proof. exists []. split; [constructor|]. unfold delivered. by destruct (ep_sink e). Qed.

Lemma delivered_app e evs evs' : delivered e (evs ++ evs') = delivered e evs ++ delivered e evs'.
Proof. unfold delivered. by destruct (ep_sink e). Qed.

Lemma realizes_step e evs heard e1 heard' e2 events events' :
  rtu_step e evs heard e1 -> realizes e1 heard' e2 events -> 
  events' = delivered e evs ++ events -> realizes e (heard ++ heard') e2 events'.
Proof.
  intros H1 (evs2 & H2 & ->) ->. exists (evs ++ evs2). split; [by econstructor|].
  rewrite delivered_app. f_equal. unfold delivered. by rewrite (sink_step _ _ _ _ H1).
Qed.

(** A last step, whose events the sink receives. *)
Lemma realizes_dispatched {A} e evs heard e' e0 evs0 (r : A) :
  wf e -> rtu_step e evs heard e' -> e0 = e' -> evs0 = evs ->
  realizes e heard (oc_endpoint (dispatched e0 evs0 r)) (oc_events (dispatched e0 evs0 r)).
Proof.
  intros Hw H -> ->. pose proof (wf_step _ _ _ _ H Hw) as Hw'.
  destruct (dispatched_spec e' evs r) as (p & -> & Hp); [apply (wf_counters _ Hw')|]. cbn.
  exists (evs ++ []). split.
  - rewrite <- (app_nil_r heard). econstructor; [done|]. apply steps_one. by apply S_panics.
  - rewrite app_nil_r. unfold delivered. by rewrite (sink_step _ _ _ _ H).
Qed.

(** The same for the events of [emit]. *)
Lemma realizes_emit {A} e specs heard e0 e' (r : A) :
  wf e -> fits e0 specs -> ep_generation e0 = ep_generation e -> ep_lastClock e0 = ep_lastClock e ->
  ep_nextSequence e0 = ep_nextSequence e ->
  (forall evs, logged e (ep_nextSequence e) specs evs -> rtu_step e evs heard e') ->
  advance e0 specs = e' ->
  realizes e heard (oc_endpoint (emit e0 specs r)) (oc_events (emit e0 specs r)).
Proof.
  intros Hw Hf Hg Hc Hn Hs Ha. unfold emit.
  destruct (events_locked_spec e0 specs Hf) as (evs & -> & Hl).
  eapply realizes_dispatched; [done| |exact Ha|reflexivity]. apply Hs. rewrite <- Hn.
  by eapply logged_clock; [..|exact Hl].
Qed.

(** A failure without an event. *)
Lemma realizes_fail e heard e' :
  failed e e' -> ep_nextSequence e' = ep_nextSequence e -> ep_nextSequence e <= MaxUint64 ->
  realizes e heard e' [].
Proof.
  intros Hf Hn Hm. exists []. split; [|unfold delivered; by destruct (ep_sink e)].
  apply steps_one. eapply (S_fail e e' []); try done.
  - constructor.
  - unfold fits. rewrite zlen_nil. lia.
  - rewrite zlen_nil. lia.
Qed.

Abbreviation realized e heard o := (realizes e heard (oc_endpoint o) (oc_events o)).

Lemma realized_silent {A} e (r : A) : realized e [] (silent e r).
Proof. apply realizes_refl. Qed.

Lemma require_recovery_shape e detail :
  exists pending, requireRecoveryLocked e detail
    = e <| ep_state := RTUStateRecoveryRequired |> <| ep_pendingRecovery := pending |>.
Proof.
  unfold requireRecoveryLocked. destruct (bool_decide _); [by eexists|].
  exists (ep_pendingRecovery e). by destruct e.
Qed.

(** The updates of a failure leave the rest of the endpoint. *)
Ltac solve_failed :=
  unfold fail_current, drop_quarantined;
  repeat match goal with
  | |- context [requireRecoveryLocked ?e ?d] =>
      destruct (require_recovery_shape e d) as [? ->]
  end;
  constructor; cbn; try done; try lia; try (intros; right; done).

Lemma fail_silent {A} e heard e' (r : A) :
  wf e -> failed e e' -> ep_nextSequence e' = ep_nextSequence e ->
  realized e heard (silent e' r).
Proof. intros Hw Hf Hn. apply realizes_fail; [done..|apply (wf_counters _ Hw)]. Qed.

(** A silent failure of an endpoint with nothing in flight. *)
Ltac fail_quietly :=
  apply fail_silent; [assumption|solve_failed|
    unfold fail_current, drop_quarantined;
    repeat match goal with
    | |- context [requireRecoveryLocked ?e ?d] =>
        destruct (require_recovery_shape e d) as [? ->]
    end; reflexivity].

Definition clocked (e : endpoint) (now : Z) : endpoint :=
  e <| ep_lastClock := now |> <| ep_haveClock := true |>.

Lemma counters_discarded e : wf e -> ep_discardedFrames e <= MaxUint64.
Proof. intros Hw. apply (wf_counters _ Hw). Qed.

Lemma clock_step e now :
  wf e -> (now <? 0) || (ep_haveClock e && (now <? ep_lastClock e)) = false ->
  0 <= now /\ ep_lastClock e <= now /\ rtu_step e [] [] (clocked e now).
Proof.
  intros Hw E. bool_hyps. conj; [done| |].
  - destruct (ep_haveClock e) eqn:Hc; cbn [andb] in *; bool_hyps; [done|].
    rewrite (wf_haveClock _ Hw Hc). lia.
  - apply S_clock; [done|]. intros Hc. rewrite Hc in *. cbn [andb] in *. bool_hyps. done.
Qed.

(** An operation that reads the clock first. *)
Lemma realized_clock {A} e now heard (fails : rtu_error -> A) (f : endpoint -> Z -> rtu_outcome A) :
  wf e ->
  (wf (clocked e now) -> 0 <= now -> ep_lastClock e <= now ->
   realized (clocked e now) heard (f (clocked e now) now)) ->
  realized e heard
    match nowLocked e now with
    | (e1, Err err) => silent e1 (fails err)
    | (e1, Ok now) => f e1 now
    end.
Proof.
  intros Hw Hk. unfold nowLocked. destruct (_ || _) eqn:E.
  - pose proof (counters_discarded _ Hw). fail_quietly.
  - destruct (clock_step e now Hw E) as (Hnow & Hle & Hstep).
    pose proof (wf_step _ _ _ _ Hstep Hw) as Hw1.
    change heard with ([] ++ heard). eapply realizes_step; [exact Hstep|by apply Hk|].
    unfold delivered. by destruct (ep_sink e).
Qed.

Lemma can_emit_fits e n specs : canEmitLocked e n = true -> zlen specs = n -> fits e specs.
Proof. unfold canEmitLocked, fits. intros H <-. bool_hyps. lia. Qed.

Lemma reentry_refused e : wf e -> beginEventOperation e = None.
Proof. intros Hw. unfold beginEventOperation. by rewrite (wf_callback _ Hw). Qed.

Lemma begin_request_realized e now plan deviceID frame function kind :
  wf e -> kind = RTUEventBeginRead \/ kind = RTUEventBeginDeviceID ->
  realized e [] (begin_request e now plan deviceID frame function kind).
Proof.
  intros Hw Hkind. unfold begin_request. pose proof (counters_discarded _ Hw).
  destruct (bool_decide (ep_state e = RTUStateIdle)) eqn:Es; cbn [negb]; bool_hyps;
    [|apply realized_silent].
  pose proof (wf_state _ Hw) as Hst. unfold state_ok in Hst. rewrite Es in Hst.
  destruct Hst as (Hcur & _). destruct (_ || negb (canEmitLocked e 1)) eqn:Ec; [fail_quietly|].
  bool_hyps. apply realized_clock; [done|]. intros Hw1 Hnow _.
  destruct (checkedRTUOffsetAdd _ _) as [deadline|]; [|apply realized_silent].
  pose proof (wf_counters _ Hw) as Hn.
  eapply realizes_emit; try done.
  - by eapply can_emit_fits.
  - intros evs Hl. apply S_begin; try done.
    + cbn. unfold counters_ok in Hn. lia.
    + by eapply can_emit_fits.
Qed.

(** ** Quarantine *)

Lemma prepare_cases e current anchor :
  let e' := e <| ep_current := current |> in
  (exists d, prepareQuarantineLocked e anchor = (e, Ok d) /\
     prepareQuarantineLocked e' anchor = (e', Ok d)) \/
  (exists detail, prepareQuarantineLocked e' anchor = (fail_current e' detail, Err RTUState)).
Proof.
  unfold prepareQuarantineLocked. cbn [ep_timing ep_haveObservedByte ep_lastObservedByte].
  cbn -[checkedRTUOffsetAdd fail_current].
  repeat match goal with
  | |- context [match checkedRTUOffsetAdd ?a ?b with _ => _ end] =>
      destruct (checkedRTUOffsetAdd a b); [|right; by eexists]
  | |- context [if ?b then _ else _] =>
      lazymatch b with
      | ep_haveObservedByte e => destruct b
      | _ >? qd_idle _ => fail
      | ?f >? ?c =>
          lazymatch goal with
          | |- context [if b then (fail_current _ _, _) else _] =>
              destruct b; [right; by eexists|]
          end
      end
  end; left; by eexists.
Qed.

Lemma set_current_same e r : ep_current e = Some r -> e <| ep_current := Some r |> = e.
Proof. intros H. destruct e. cbn in *. by subst. Qed.

Lemma fits_advance e specs n : fits e specs -> n = zlen specs -> ep_nextSequence e + n <= MaxUint64.
Proof. unfold fits. intros ? ->. done. Qed.

Definition in_flight (e : endpoint) : Prop :=
  ep_state e = RTUStateWriting \/ ep_state e = RTUStateResponseWait.

Lemma quarantine_realized e r r' anchor before detail :
  wf e -> in_flight e -> ep_current e = Some r -> rq_handle r' = rq_handle r ->
  rq_writeInvocation r' = rq_writeInvocation r -> rq_plan r' = rq_plan r -> 0 <= anchor ->
  Forall (fun s => es_kind s = RTUEventTransmitResult /\
                   es_requestID s = rh_requestID (rq_handle r)) before ->
  fits e (before ++ quarantine_specs r' detail) ->
  realized e [] (enter_quarantine (e <| ep_current := Some r' |>) r' anchor before detail).
Proof.
  intros Hw Hfl Hcur Hh Hwi Hpl Ha Hbefore Hfits. pose proof (counters_discarded _ Hw).
  unfold enter_quarantine.
  destruct (prepare_cases e (Some r') anchor) as [(d & Hp & ->)|(detail' & ->)]; [|fail_quietly].
  assert (Hspecs : quarantine_specs r' detail = quarantine_specs r detail)
    by (unfold quarantine_specs; by rewrite Hh, Hpl).
  rewrite Hspecs in *. pose proof (prepare_ok _ _ _ _ Hp) as (_ & _ & _ & _ & _ & Hb).
  eapply realizes_emit; [exact Hw|exact Hfits|reflexivity..| |].
  - intros evs Hl.
    eapply (S_quarantine e r r' anchor d detail before [] evs (qd_hadBufferedBytes d) true);
      rewrite ?zlen_nil, ?app_nil_r; try assumption; [constructor|lia|lia].
  - rewrite app_nil_r, zlen_nil, Z.add_0_r. unfold setQuarantineLocked, advance. reflexivity.
Qed.

Lemma transmit_anchor_spec e r now :
  owned e r ->
  (exists anchor, transmit_anchor e r now = (e, Ok anchor) /\ 0 <= anchor) \/
  (exists detail err, transmit_anchor e r now = (fail_current e detail, Err err)).
Proof.
  intros (_ & _ & _ & Hr). unfold transmit_anchor.
  destruct (FrameTransmitHorizon _ _); [|right; by do 2 eexists].
  destruct (checkedRTUOffsetAdd _ _) eqn:E; [|right; by do 2 eexists].
  apply checked_add_some in E. left. eexists. split; [done|].
  destruct (_ <? now) eqn:El; bool_hyps; lia.
Qed.

Lemma in_flight_owned e : wf e -> in_flight e -> exists r, ep_current e = Some r /\ owned e r.
Proof.
  intros Hw H. pose proof (wf_state _ Hw) as Hst. unfold state_ok in Hst.
  destruct H as [H|H]; rewrite H in Hst.
  - destruct Hst as (_ & _ & r & ? & ?). eauto.
  - destruct Hst as (_ & r & ? & ? & ?). eauto.
Qed.

Lemma quarantine_now_realized e r anchor before detail :
  wf e -> in_flight e -> ep_current e = Some r -> 0 <= anchor ->
  Forall (fun s => es_kind s = RTUEventTransmitResult /\
                   es_requestID s = rh_requestID (rq_handle r)) before ->
  fits e (before ++ quarantine_specs r detail) ->
  realized e [] (enter_quarantine e r anchor before detail).
Proof.
  intros Hw Hfl Hcur Ha Hb Hf. pose proof (set_current_same _ _ Hcur) as He.
  rewrite <- He at 2 3. by eapply quarantine_realized.
Qed.

(** A write of unknown extent. *)
Lemma ambiguous_realized e r now result detail :
  wf e -> in_flight e -> ep_current e = Some r -> canEmitLocked e 3 = true ->
  realized e []
    match transmit_anchor e r now with
    | (e, Err err) => silent e (Some err)
    | (e, Ok anchor) =>
        enter_quarantine e r anchor [transmit_spec r result detail] detail
    end.
Proof.
  intros Hw Hfl Hcur Hc. pose proof (counters_discarded _ Hw).
  destruct (in_flight_owned _ Hw Hfl) as (r0 & E & Hown). rewrite Hcur in E. injection E as <-.
  destruct (transmit_anchor_spec e r now Hown) as [(anchor & -> & Ha)|(d & err & ->)];
    [|fail_quietly].
  apply quarantine_now_realized; try done.
  - by repeat constructor.
  - by eapply can_emit_fits.
Qed.

(** ** Transmission and time *)

Lemma complete_zero_realized e r cancelled expired :
  wf e -> ep_state e = RTUStateWriting -> ep_current e = Some r -> canEmitLocked e 2 = true ->
  realized e [] (complete_zero e r cancelled expired).
Proof.
  intros Hw Hs Hcur Hc. unfold complete_zero.
  match goal with |- context [events_locked ?e0 ?specs] =>
    destruct (events_locked_spec e0 specs) as (evs & -> & Hl) end;
    [by eapply can_emit_fits|].
  eapply realizes_dispatched; [done| |reflexivity|reflexivity].
  eapply (S_zero e r _ _ Hs Hcur); [by eapply can_emit_fits|reflexivity| |].
  - by repeat constructor.
  - by eapply logged_clock; [..|exact Hl].
Qed.

Lemma complete_sent_realized e r cancelled expired :
  wf e -> ep_state e = RTUStateWriting -> ep_current e = Some r ->
  canEmitLocked e (transmit_event_count TransmitComplete (cancelled || expired)) = true ->
  realized e [] (complete_sent e r (ep_lastClock e) cancelled expired).
Proof.
  intros Hw Hs Hcur Hc. unfold complete_sent. pose proof (wf_clock _ Hw).
  destruct cancelled, expired; cbn [negb andb orb transmit_event_count] in *;
    try (eapply quarantine_realized; try done; [by left|by repeat constructor|
           by eapply can_emit_fits]).
  eapply realizes_emit; [exact Hw|by eapply can_emit_fits|reflexivity..| |].
  - intros evs Hl. refine (S_sent e r _ evs Hs Hcur _ _ _ Hl); [by eapply can_emit_fits|done..].
  - reflexivity.
Qed.

Lemma complete_transmit_realized e now cancelled handle result :
  wf e -> realized e [] (CompleteTransmit e now cancelled handle result).
Proof.
  intros Hw. unfold CompleteTransmit. rewrite (reentry_refused _ Hw).
  destruct (ep_current e) as [r|] eqn:Hcur; [|apply realized_silent].
  destruct (_ || _) eqn:E; [apply realized_silent|]. bool_hyps.
  assert (Hmain : realized e []
    match nowLocked e now with
    | (e1, Err err) => silent e1 (Some err)
    | (e1, Ok now) =>
        if negb (canEmitLocked e1
                   (transmit_event_count result (cancelled || (now >=? rq_deadline r)))) then
          silent (fail_current e1 "event_capacity") (Some RTUState)
        else
        match result with
        | TransmitProvableZero => complete_zero e1 r cancelled (now >=? rq_deadline r)
        | TransmitComplete => complete_sent e1 r now cancelled (now >=? rq_deadline r)
        | _ =>
            match transmit_anchor e1 r now with
            | (e2, Err err) => silent e2 (Some err)
            | (e2, Ok anchor) =>
                enter_quarantine e2 r anchor
                  [transmit_spec r result (transmit_string result)] (transmit_string result)
            end
        end
    end).
  { apply (realized_clock e now [] Some); [done|]. intros Hw1 Hnow _.
    pose proof (counters_discarded _ Hw1).
    destruct (canEmitLocked _ _) eqn:Hc; cbn [negb]; [|fail_quietly].
    destruct result; cbn [transmit_event_count] in Hc;
      try (apply ambiguous_realized; [done|by left|done|done]).
    - by apply complete_zero_realized.
    - by apply (complete_sent_realized (clocked e now)). }
  destruct result; try exact Hmain. apply realized_silent.
Qed.

Lemma quarantine_no_current e :
  wf e -> ep_state e = RTUStateQuarantine -> ep_current e = None.
Proof.
  intros Hw Hs. pose proof (wf_state _ Hw) as Hst. unfold state_ok in Hst. rewrite Hs in Hst.
  by destruct Hst as (? & _).
Qed.

(** A failure announced by one event. *)
Lemma fail_emit {A} e heard e0 s (r : A) :
  wf e -> failed e e0 -> ep_nextSequence e0 = ep_nextSequence e ->
  es_kind s = RTUEventRecoveryRequired -> canEmitLocked e 1 = true ->
  realized e heard (emit e0 [s] r).
Proof.
  intros Hw Hf Hn Hk Hc. assert (Hfit : fits e [s]) by (by eapply can_emit_fits).
  eapply realizes_emit; [done|unfold fits in *; by rewrite Hn|..|reflexivity]; try done;
    try apply Hf.
  intros evs Hl. eapply (S_fail e (advance e0 [s]) [s]); try done.
  - destruct Hf. by constructor.
  - constructor; [by left|constructor].
  - cbn. by rewrite Hn.
Qed.

Lemma tick_quarantine_realized e now :
  wf e -> ep_state e = RTUStateQuarantine -> realized e [] (tick_quarantine e now).
Proof.
  intros Hw Hs. unfold tick_quarantine. pose proof (quarantine_no_current _ Hw Hs).
  pose proof (counters_discarded _ Hw).
  destruct (now <=? _); [apply realized_silent|].
  destruct (canEmitLocked e 1) eqn:Hc; cbn [negb]; [|fail_quietly].
  destruct (quarantined_identity e) as [id unit]. apply fail_emit; try done. solve_failed.
Qed.

Lemma wait_completion e r :
  wf e -> ep_state e = RTUStateResponseWait -> ep_current e = Some r ->
  owned e r /\ 0 <= rq_writeInvocation r <= rq_transmitCompletion r /\
  rq_transmitCompletion r <= ep_lastClock e.
Proof.
  intros Hw Hs Hcur. pose proof (wf_state _ Hw) as Hst. unfold state_ok in Hst. rewrite Hs in Hst.
  destruct Hst as (_ & r0 & E & Ho & ?). rewrite Hcur in E. injection E as <-.
  split; [done|]. destruct Ho as (_ & _ & _ & ?). lia.
Qed.

Lemma tick_request_realized e r now cancelled :
  wf e -> ep_current e = Some r -> realized e [] (tick_request e r now cancelled).
Proof.
  intros Hw Hcur. unfold tick_request. pose proof (counters_discarded _ Hw).
  destruct (ep_state e) eqn:Hs; try apply realized_silent.
  - destruct (canEmitLocked e 3) eqn:Hc; cbn [negb]; [|fail_quietly].
    apply ambiguous_realized; try done. by left.
  - destruct (canEmitLocked e 2) eqn:Hc; cbn [negb]; [|fail_quietly].
    destruct (wait_completion e r) as (_ & ? & ?); [done..|].
    apply quarantine_now_realized; try done; [by right|lia|by eapply can_emit_fits].
Qed.

Lemma tick_realized e now cancelled : wf e -> realized e [] (Tick e now cancelled).
Proof.
  intros Hw. unfold Tick. rewrite (reentry_refused _ Hw).
  apply realized_clock; [done|]. intros Hw1 Hnow _.
  destruct (bool_decide _) eqn:Hs; bool_hyps; [by apply tick_quarantine_realized|].
  destruct (ep_current _) as [r|] eqn:Hcur; [|apply realized_silent].
  destruct (_ && _); [apply realized_silent|]. by apply tick_request_realized.
Qed.

Lemma abandon_realized e now handle reason :
  wf e -> realized e [] (Abandon e now handle reason).
Proof.
  intros Hw. unfold Abandon. rewrite (reentry_refused _ Hw).
  destruct reason; try apply realized_silent;
    (destruct (ep_current e) as [r|] eqn:Hcur; [|apply realized_silent];
     destruct (_ || _) eqn:E; [apply realized_silent|]; bool_hyps;
     pose proof (counters_discarded _ Hw);
     destruct (canEmitLocked e 2) eqn:Hc; cbn [negb]; [|fail_quietly];
     apply (realized_clock e now [] Some (fun e1 _ => enter_quarantine e1 _ _ _ _)); [done|];
     intros Hw1 Hnow _; destruct (wait_completion e r) as (_ & ? & ?); [done..|];
     apply quarantine_now_realized; try done; [by right|lia|by eapply can_emit_fits]).
Qed.

(** ** Reception *)

(** A failure and the events that announce it. *)
Lemma fail_dispatched {A} e heard e' specs evs (r : A) :
  wf e -> failed e e' -> failure_specs specs -> fits e specs ->
  ep_nextSequence e' = ep_nextSequence e + zlen specs ->
  logged e (ep_nextSequence e) specs evs ->
  realized e heard (dispatched e' evs r).
Proof.
  intros Hw Hf Hk Hfit Hn Hl. by eapply realizes_dispatched; [done|by eapply S_fail|..].
Qed.

Lemma expire_cases e now :
  wf e ->
  (expireQuarantineLocked e now = (e, None) /\
     (ep_state e = RTUStateQuarantine -> now <= ep_quiescenceDeadline e)) \/
  (exists e' specs, expireQuarantineLocked e now = (e', Some specs) /\
     forall heard A (r : A), realized e heard (emit e' specs r)).
Proof.
  intros Hw. unfold expireQuarantineLocked. pose proof (counters_discarded _ Hw).
  destruct (_ || _) eqn:E.
  { left. split; [done|]. intros Hs. apply orb_prop in E as [E|E]; bool_hyps; [done|lia]. }
  bool_hyps. match goal with H : ep_state e = _ |- _ => rename H into Hs end.
  pose proof (quarantine_no_current _ Hw Hs). right.
  destruct (canEmitLocked e 1) eqn:Hc; cbn [negb].
  - destruct (quarantined_identity e) as [id unit]. do 2 eexists. split; [done|].
    intros. apply fail_emit; try done. solve_failed.
  - do 2 eexists. split; [done|]. intros.
    apply (fail_dispatched e heard _ []); try done.
    + solve_failed.
    + constructor.
    + unfold fits. rewrite zlen_nil, Z.add_0_r. apply (wf_counters _ Hw).
    + rewrite zlen_nil, Z.add_0_r. unfold drop_quarantined.
      by destruct (require_recovery_shape e "event_capacity") as [p ->].
Qed.

Lemma feed_quarantine_realized e value :
  wf e -> ep_state e = RTUStateQuarantine ->
  realized e [(ep_lastClock e, value)] (feed_quarantine e (ep_lastClock e) value).
Proof.
  intros Hw Hs. unfold feed_quarantine. pose proof (counters_discarded _ Hw).
  pose proof (quarantine_no_current _ Hw Hs). pose proof (wf_clock _ Hw).
  cbn [observe ep_timing]. 
  change (ep_timing (observe e (ep_lastClock e))) with (ep_timing e).
  destruct (checkedRTUOffsetAdd _ _) as [idle|] eqn:Ei.
  2: { apply fail_silent; [done| |].
       - destruct (require_recovery_shape (observe e (ep_lastClock e)) "idle_deadline") as [p ->].
         constructor; cbn; try done; try lia.
       - by destruct (require_recovery_shape (observe e (ep_lastClock e)) "idle_deadline")
           as [p ->]. }
  unfold feed_decoder.
  pose proof (feed_byte_rd_timing (ep_decoder e) (ep_lastClock e) value) as Ht.
  cbn [ep_decoder observe].
  match goal with |- context [FeedByte ?d _ _] => change d with (ep_decoder e) end.
  destruct (FeedByte (ep_decoder e) (ep_lastClock e) value) as [d err]. cbn [fst] in Ht.
  assert (Hstep : forall d', rd_timing d' = rd_timing (ep_decoder e) ->
    realizes e [(ep_lastClock e, value)]
      ((observe e (ep_lastClock e))
         <| ep_idleDeadline := if idle <? ep_latencyDeadline e then ep_latencyDeadline e
                               else idle |>
         <| ep_quarantineSawBytes := true |> <| ep_decoder := d' |>) []).
  { intros d' Hd. exists []. split; [|unfold delivered; by destruct (ep_sink e)].
    apply steps_one. by apply S_hear_quarantine. }
  destruct err; [exact (Hstep (reset d) Ht)|exact (Hstep d Ht)].
Qed.

Lemma feed_guard_realized e value :
  wf e -> ep_state e = RTUStateInterFrameGuard ->
  realized e [(ep_lastClock e, value)] (feed_guard e (ep_lastClock e)).
Proof.
  intros Hw Hs. unfold feed_guard. pose proof (counters_discarded _ Hw).
  assert (Hcur : ep_current e = None).
  { pose proof (wf_state _ Hw) as Hst. unfold state_ok in Hst. rewrite Hs in Hst. apply Hst. }
  destruct (checkedRTUOffsetAdd _ _) as [guard|] eqn:Eg; [|fail_quietly].
  destruct (_ || _) eqn:E; [fail_quietly|]. bool_hyps.
  eapply realizes_emit; [exact Hw|by eapply can_emit_fits|reflexivity..| |].
  - intros evs Hl.
    refine (S_hear_guard e value guard _ evs Hs Eg _ _ _ Hl); [lia|by eapply can_emit_fits|done].
  - reflexivity.
Qed.

Lemma feed_realized e now value :
  wf e -> realized e (heard_by e (OpFeed now value)) (EndpointFeedByte e now value).
Proof.
  intros Hw. unfold EndpointFeedByte. rewrite (reentry_refused _ Hw). unfold heard_by.
  apply realized_clock; [done|]. intros Hw1 Hnow _.
  destruct (expire_cases _ now Hw1) as [(-> & _)|(e' & specs & -> & H)]; [|by apply H].
  change (ep_state e) with (ep_state (clocked e now)).
  destruct (ep_state (clocked e now)) eqn:Hs; cbn [listening]; try apply realized_silent.
  - unfold feed_decoder.
    match goal with |- context [FeedByte ?d _ _] => change d with (ep_decoder (clocked e now)) end.
    pose proof (S_hear (clocked e now) value Hs) as Hstep. change (ep_lastClock (clocked e now)) with now in Hstep.
    destruct (FeedByte (ep_decoder (clocked e now)) now value) as [d err]. cbn [fst] in Hstep.
    exists []. split; [by apply steps_one|]. unfold delivered. by destruct (ep_sink _).
  - by apply (feed_guard_realized (clocked e now) value).
  - by apply (feed_quarantine_realized (clocked e now) value).
Qed.

Lemma logged_app e n specs specs' evs evs' :
  logged e n specs evs -> logged e (n + zlen specs) specs' evs' ->
  logged e n (specs ++ specs') (evs ++ evs').
Proof.
  revert n evs. induction specs as [|s specs IH]; intros n [|ev evs]; cbn [logged app]; try done.
  - by rewrite zlen_nil, Z.add_0_r.
  - intros (? & ? & ? & ? & ? & ?) H'. rewrite zlen_cons in H'. conj; try done.
    apply IH; [done|]. by rewrite <- Z.add_assoc.
Qed.

Lemma can_emit_le e m n : canEmitLocked e n = true -> 0 < m <= n -> canEmitLocked e m = true.
Proof. unfold canEmitLocked. intros H ?. bool_hyps. bool_goal; lia. Qed.

(** Two groups of events, the second after a change of state. *)
Lemma events_twice e e0 e1 specs specs' :
  fits e (specs ++ specs') -> ep_nextSequence e0 = ep_nextSequence e ->
  ep_generation e0 = ep_generation e -> ep_lastClock e0 = ep_lastClock e ->
  ep_nextSequence e1 = ep_nextSequence e + zlen specs -> ep_generation e1 = ep_generation e ->
  ep_lastClock e1 = ep_lastClock e ->
  exists evs evs', events_locked e0 specs = (advance e0 specs, evs) /\
    events_locked e1 specs' = (advance e1 specs', evs') /\
    logged e (ep_nextSequence e) specs evs /\
    logged e (ep_nextSequence e) (specs ++ specs') (evs ++ evs').
Proof.
  unfold fits. rewrite zlen_app. intros Hf Hn0 Hg0 Hc0 Hn1 Hg1 Hc1.
  pose proof (zlen_nonneg specs). pose proof (zlen_nonneg specs').
  destruct (events_locked_spec e0 specs) as (evs & E & Hl); [unfold fits; lia|].
  destruct (events_locked_spec e1 specs') as (evs' & E' & Hl'); [unfold fits; lia|].
  assert (Hfirst : logged e (ep_nextSequence e) specs evs)
    by (rewrite <- Hn0; by eapply logged_clock; [..|exact Hl]).
  exists evs, evs'. conj; try done. apply logged_app; [done|].
  - rewrite <- Hn1. by eapply logged_clock; [..|exact Hl'].
Qed.

Lemma end_quarantine_realized e :
  wf e -> ep_state e = RTUStateQuarantine -> realized e [] (end_quarantine e).
Proof.
  intros Hw Hs. unfold end_quarantine. pose proof (wf_counters _ Hw) as Hn.
  pose proof (counters_discarded _ Hw). pose proof (quarantine_no_current _ Hw Hs).
  destruct (ep_quarantineSawBytes e); cbn [negb]; [|apply realized_silent].
  unfold discardQuarantineFrameLocked. cbv zeta.
  set (e0 := e <| ep_decoder := _ |> <| ep_quarantineSawBytes := _ |>
               <| ep_lastObservedByte := _ |> <| ep_haveObservedByte := _ |>).
  destruct (_ || _) eqn:E1; [unfold e0; fail_quietly|]. bool_hyps.
  destruct (canEmitLocked e0 _) eqn:Ec; cbn [negb]; [|unfold e0; fail_quietly].
  change (canEmitLocked e0) with (canEmitLocked e) in Ec.
  change (ep_quarantineDiscarded e0) with (ep_quarantineDiscarded e) in *.
  change (ep_discardedFrames e0) with (ep_discardedFrames e) in *.
  change (ep_maxDiscardedFrames e0) with (ep_maxDiscardedFrames e) in *.
  set (e1 := e0 <| ep_discardedFrames := _ |> <| ep_quarantineDiscarded := _ |>).
  destruct (quarantined_identity e1) as [id unit].
  destruct (_ >=? _) eqn:Er in *; bool_hyps.
  - destruct (events_twice e e1
      ((advance e1 [discard_spec id unit "quarantine"])
         <| ep_state := RTUStateRecoveryRequired |> <| ep_quarantined := None |>)
      [discard_spec id unit "quarantine"] [recovery_spec id unit "discard_bound"])
      as (evs & evs' & -> & E' & Hl1 & Hl); [by eapply can_emit_fits|reflexivity..|].
    rewrite E'. refine (fail_dispatched e [] _ _ _ _ Hw _ _ _ _ Hl).
    + constructor; cbn; try done; lia.
    + unfold failure_specs. cbn [app]. rewrite !Forall_cons. cbn. auto.
    + by eapply can_emit_fits.
    + cbn. rewrite <- Z.add_assoc. reflexivity.
  - destruct (events_locked_spec e1 [discard_spec id unit "quarantine"]) as (evs & -> & Hl);
      [by eapply can_emit_fits|].
    eapply realizes_dispatched; [done| |reflexivity|reflexivity].
    refine (S_discard e (discard_spec id unit "quarantine") evs Hs _ _ _ _ _); try done; try lia.
    + by eapply can_emit_fits.
Qed.

Lemma end_late_realized e r cancelled :
  wf e -> ep_state e = RTUStateResponseWait -> ep_current e = Some r ->
  realized e [] (end_late e r cancelled).
Proof.
  intros Hw Hs Hcur. unfold end_late. pose proof (counters_discarded _ Hw).
  destruct (_ || _) eqn:E; [fail_quietly|]. bool_hyps.
  destruct (wait_completion e r) as (_ & ? & ?); [done..|].
  destruct (prepare_cases e (Some r) (rq_transmitCompletion r)) as [(d & Hp & _)|(d & Hp)];
    rewrite (set_current_same _ _ Hcur) in Hp || idtac.
  - rewrite Hp. eapply realizes_emit; [exact Hw|by eapply can_emit_fits|reflexivity..| |].
    + intros evs Hl.
      refine (S_quarantine e r r (rq_transmitCompletion r) d _ [] [_] evs false false
                (or_intror Hs) Hcur eq_refl eq_refl _ Hp _ _ _ _ _ Hl).
      * lia.
      * constructor.
      * by repeat constructor.
      * reflexivity.
      * rewrite zlen_cons, zlen_nil. lia.
      * by eapply can_emit_fits.
    + reflexivity.
  - rewrite Hp. fail_quietly.
Qed.

Lemma end_frame_clean d now d' adu err :
  EndFrame d now = (d', (adu, err)) -> (err = None \/ zlen (ru_raw adu) <> 0) -> clean d'.
Proof.
  unfold EndFrame. destruct (_ || _).
  - intros [= <- <- <-] [Hc|Hc]; [done|]. by destruct Hc.
  - by intros [= <- _] _.
Qed.

(** What [endFrame] does with the frame that was received. *)
Lemma receive_realized e r frame now :
  wf e -> ep_state e = RTUStateResponseWait -> ep_current e = Some r -> clean (ep_decoder e) ->
  now = ep_lastClock e ->
  let '(e', x, event) := receiveFrameLocked e r frame now in
  realized e []
    (dispatched e' (match event with Some event => [event] | None => [] end) x).
Proof.
  intros Hw Hs Hcur Hcl ->. unfold receiveFrameLocked. pose proof (counters_discarded _ Hw).
  destruct (decode_owned r frame) as [[[raw response] segment] err].
  assert (Hfail : forall detail (x : frame_result),
    realized e [] (dispatched (fail_current e detail) [] x)).
  { intros detail x. apply (fail_dispatched e [] _ []); try done; [solve_failed|constructor|..].
    - unfold fits. rewrite zlen_nil, Z.add_0_r. apply (wf_counters _ Hw).
    - rewrite zlen_nil, Z.add_0_r. unfold fail_current.
      by destruct (require_recovery_shape e detail) as [p ->]. }
  destruct (is_candidate r frame); cbn [negb].
  - unfold receive_candidate.
    destruct (checkedRTUOffsetAdd _ _) as [guard|] eqn:Eg; [|apply Hfail].
    destruct (canEmitLocked e 1) eqn:Hc; cbn [negb]; [|apply Hfail].
    destruct (_ || _) eqn:Ei; [apply Hfail|]. bool_hyps. cbv zeta.
    match goal with |- context [eventLocked ?e0 ?k ?i ?u ?t ?d] =>
      destruct (event_locked_spec e0 k i u t d) as (ev & -> & ? & ? & ? & ? & ?) end.
    { pose proof (can_emit_fits e 1 [discard_spec 0 0 ""] Hc eq_refl) as Hf.
      unfold fits in Hf. rewrite zlen_cons, zlen_nil in Hf. cbn. lia. }
    cbn [fmap option_fmap option_map].
    eapply realizes_dispatched; [done| |reflexivity|reflexivity].
    refine (S_answer e r guard _
      {| es_kind := RTUEventResponseReceive; es_requestID := rh_requestID (rq_handle r);
         es_unitID := 0; es_result := no_transmit; es_detail := "" |}
      _ Hs Hcur Hcl Eg _ _ eq_refl eq_refl _).
    + pose proof (wf_counters _ Hw) as Hn. unfold counters_ok in Hn. lia.
    + by eapply can_emit_fits.
    + by cbn.
  - unfold receive_uncorrelated. destruct (_ || _) eqn:Ei; [apply Hfail|]. bool_hyps. cbv zeta.
    match goal with |- context [eventLocked ?e0 ?k ?i ?u ?t ?d] =>
      destruct (event_locked_spec e0 k i u t d) as (ev & -> & ? & ? & ? & ? & ?) end.
    { unfold canEmitLocked in *. bool_hyps. cbn. lia. }
    cbn [fmap option_fmap option_map].
    eapply realizes_dispatched; [done| |reflexivity|reflexivity].
    refine (S_stray e
      {| es_kind := RTUEventResponseReceive; es_requestID := 0;
         es_unitID := 0; es_result := no_transmit; es_detail := "" |}
      _ Hs _ _ eq_refl eq_refl _).
    + pose proof (wf_counters _ Hw) as Hn. unfold counters_ok in Hn. lia.
    + by eapply can_emit_fits.
    + by cbn.
Qed.

Lemma end_response_realized e cancelled expected :
  wf e -> ep_state e = RTUStateResponseWait ->
  realized e [] (end_response e (ep_lastClock e) cancelled expected).
Proof.
  intros Hw Hs. unfold end_response.
  destruct (ep_current e) as [r|] eqn:Hcur; [|apply realized_silent].
  destruct (bool_decide _); cbn [negb]; [|apply realized_silent].
  pose proof (S_end e Hs) as Hstep.
  destruct (EndFrame (ep_decoder e) (ep_lastClock e)) as [d' [adu frameErr]] eqn:Ee.
  cbn [fst] in Hstep. pose proof (wf_step _ _ _ _ Hstep Hw) as Hw1.
  set (e1 := e <| ep_decoder := d' |>) in *.
  change (@nil (Z * Z)) with (@nil (Z * Z) ++ []).
  eapply (realizes_step e [] [] e1); [exact Hstep| |unfold delivered; by destruct (ep_sink e)].
  destruct (_ && _) eqn:E1; [apply realized_silent|].
  assert (Hcl : clean d').
  { eapply end_frame_clean; [exact Ee|]. apply andb_false_elim in E1 as [E1|E1]; bool_hyps.
    - left. destruct frameErr; [|done]. by destruct E1.
    - by right. }
  destruct (_ || _); [by apply end_late_realized|].
  pose proof (receive_realized e1 r (ru_raw adu) _ Hw1 Hs Hcur Hcl eq_refl) as Hr.
  change (ep_lastClock e1) with (ep_lastClock e) in Hr.
  destruct (receiveFrameLocked e1 r (ru_raw adu) (ep_lastClock e)) as [[e2 x] event]. exact Hr.
Qed.

Lemma end_realized e now cancelled expected :
  wf e -> realized e [] (endFrame e now cancelled expected).
Proof.
  intros Hw. unfold endFrame. rewrite (reentry_refused _ Hw).
  apply (realized_clock e now [] (fun err => (zeroRTUReadResult, Some err))); [done|].
  intros Hw1 Hnow _.
  destruct (expire_cases _ now Hw1) as [(-> & _)|(e' & specs & -> & H)]; [|by apply H].
  destruct (ep_state (clocked e now)) eqn:Hs; try apply realized_silent.
  - by apply (end_response_realized (clocked e now)).
  - by apply end_quarantine_realized.
Qed.

(** ** Resynchronization, recovery, close *)

Lemma advance_app e specs specs' :
  advance e (specs ++ specs') = advance (advance e specs) specs'.
Proof. unfold advance. rewrite zlen_app. cbn. by rewrite Z.add_assoc. Qed.

Lemma resynchronize_realized e before evs :
  wf e ->
  (ep_state e = RTUStateInterFrameGuard /\ ep_guardDeadline e <= ep_lastClock e) \/
  (ep_state e = RTUStateQuarantine /\
     ep_latencyDeadline e <= ep_lastClock e /\ ep_idleDeadline e <= ep_lastClock e) ->
  Forall (fun s => es_kind s = RTUEventFrameDiscarded) before ->
  ep_discardedFrames e + zlen before <= MaxUint64 ->
  ep_nextSequence e + zlen before + 1 <= MaxUint64 ->
  logged e (ep_nextSequence e) before evs -> forall discarded,
  realized e []
    (resynchronize
       ((advance e before) <| ep_discardedFrames := ep_discardedFrames e + zlen before |>
          <| ep_quarantineDiscarded := discarded |>) evs).
Proof.
  intros Hw Hwhen Hb Hd Hn Hl discarded. unfold resynchronize.
  match goal with |- context [events_locked ?e0 [?s]] =>
    destruct (events_locked_spec e0 [s]) as (evs' & -> & Hl') end.
  { exact Hn. }
  match goal with H : logged ?e0 ?n [?s] evs' |- _ =>
    assert (Hl2 : logged e (ep_nextSequence e) (before ++ [s]) (evs ++ evs'))
      by (apply logged_app; [done|]; by eapply logged_clock; [..|exact Hl'])
  end.
  eapply realizes_dispatched; [done| | |reflexivity].
  - refine (S_resync e before _ _ Hwhen Hb Hd _ _ Hl2); [done|].
    unfold fits. rewrite zlen_app, zlen_cons, zlen_nil. lia.
  - rewrite advance_app. reflexivity.
Qed.

Definition quiet_proved (e : endpoint) : Prop :=
  (ep_state e = RTUStateInterFrameGuard /\ ep_guardDeadline e <= ep_lastClock e) \/
  (ep_state e = RTUStateQuarantine /\
     ep_latencyDeadline e <= ep_lastClock e /\ ep_idleDeadline e <= ep_lastClock e).

Lemma resynchronize_buffered_realized e :
  wf e -> ep_state e = RTUStateQuarantine -> quiet_proved e -> canEmitLocked e 2 = true ->
  realized e [] (resynchronize_buffered e).
Proof.
  intros Hw Hs Hq Hc. unfold resynchronize_buffered. pose proof (counters_discarded _ Hw).
  pose proof (quarantine_no_current _ Hw Hs).
  destruct (_ || _) eqn:E.
  { apply fail_emit; [done|solve_failed|done|done|by eapply can_emit_le]. }
  bool_hyps. cbv zeta.
  set (e1 := e <| ep_discardedFrames := _ |> <| ep_quarantineDiscarded := _ |>).
  destruct (quarantined_identity e1) as [id unit].
  set (s := discard_spec id unit "buffered_at_resynchronization").
  destruct (events_twice e e1
    (drop_quarantined ((advance e1 [s]) <| ep_state := RTUStateRecoveryRequired |>
       <| ep_quarantineSawBytes := false |>)) [s] [recovery_spec id unit "discard_bound"])
    as (evs & evs' & -> & E' & Hl1 & Hl); [by eapply can_emit_fits|reflexivity..|].
  destruct (_ >? _).
  - rewrite E'. refine (fail_dispatched e [] _ _ _ _ Hw _ _ _ _ Hl).
    + solve_failed.
    + unfold failure_specs. cbn [app]. rewrite !Forall_cons. cbn. auto.
    + by eapply can_emit_fits.
    + cbn. rewrite <- Z.add_assoc. reflexivity.
  - refine (resynchronize_realized e [s] evs Hw Hq _ _ _ Hl1 (ep_quarantineDiscarded e + 1)).
    + by repeat constructor.
    + rewrite zlen_cons, zlen_nil. lia.
    + unfold canEmitLocked in Hc. bool_hyps. rewrite zlen_cons, zlen_nil. lia.
Qed.

Lemma resynchronize_proved_realized e :
  wf e -> quiet_proved e -> realized e [] (resynchronize_proved e).
Proof.
  intros Hw Hq. unfold resynchronize_proved. pose proof (counters_discarded _ Hw).
  assert (Hcur : ep_current e = None).
  { pose proof (wf_state _ Hw) as Hst. unfold state_ok in Hst.
    destruct Hq as [[Hs _]|[Hs _]]; rewrite Hs in Hst; apply Hst. }
  cbv zeta. destruct (canEmitLocked e _) eqn:Hc; cbn [negb]; [|fail_quietly].
  destruct (_ && _) eqn:Eb in *; bool_hyps; [by apply resynchronize_buffered_realized|].
  assert (He : e = (advance e []) <| ep_discardedFrames := ep_discardedFrames e + zlen (@nil event_spec) |>
                     <| ep_quarantineDiscarded := ep_quarantineDiscarded e |>).
  { unfold advance. rewrite !zlen_nil, !Z.add_0_r. by destruct e. }
  rewrite He at 2 3. apply resynchronize_realized; try done; rewrite zlen_nil; [lia|].
  unfold canEmitLocked in Hc. bool_hyps. lia.
Qed.

Lemma resync_op_realized e now : wf e -> realized e [] (TryResynchronize e now).
Proof.
  intros Hw. unfold TryResynchronize. rewrite (reentry_refused _ Hw).
  apply realized_clock; [done|]. intros Hw1 Hnow _. pose proof (counters_discarded _ Hw1).
  destruct (ep_state (clocked e now)) eqn:Hs; try apply realized_silent.
  - destruct (now <? _) eqn:E; [apply realized_silent|]. bool_hyps.
    apply resynchronize_proved_realized; [done|]. by left.
  - pose proof (quarantine_no_current _ Hw1 Hs).
    destruct (now >? _).
    + destruct (canEmitLocked _ 1) eqn:Hc; cbn [negb]; [|fail_quietly].
      apply fail_emit; try done. solve_failed.
    + destruct (_ || _) eqn:E; [apply realized_silent|]. bool_hyps.
      apply resynchronize_proved_realized; [done|]. by right.
Qed.

Lemma fail_quiescence_realized e now : wf e -> realized e [] (FailQuiescence e now).
Proof.
  intros Hw. unfold FailQuiescence. rewrite (reentry_refused _ Hw).
  destruct (bool_decide _) eqn:Hs; cbn [negb]; [|apply realized_silent]. bool_hyps.
  apply (realized_clock e now [] Some (fun e _ =>
    if negb (canEmitLocked e 1) then
      silent (requireRecoveryLocked e "event_capacity") (Some RTUState)
    else
      emit (e <| ep_state := RTUStateRecoveryRequired |>) [recovery_spec 0 0 "quiescence"] None));
    [done|].
  intros Hw1 Hnow _. pose proof (counters_discarded _ Hw1).
  pose proof (quarantine_no_current (clocked e now) Hw1 Hs).
  destruct (canEmitLocked _ 1) eqn:Hc; cbn [negb]; [|fail_quietly].
  apply fail_emit; try done. solve_failed.
Qed.

(** [EndpointRecover] after its guards. *)
Definition recover_now (e : endpoint) : rtu_outcome (option rtu_error) :=
  let pending := negb (bool_decide (ep_pendingRecovery e = ""%string)) in
  if negb (canEmitLocked e (if pending then 2 else 1)) then silent e (Some RTUState)
  else
    let '(e, required) :=
      if pending then
        let '(e, events) := events_locked e [recovery_spec 0 0 (ep_pendingRecovery e)] in
        (e <| ep_pendingRecovery := ""%string |>, events)
      else (e, []) in
    let '(e, recovered) :=
      events_locked (next_generation e)
        [ {| es_kind := RTUEventRecovered; es_requestID := 0; es_unitID := 0;
             es_result := no_transmit; es_detail := "" |} ] in
    dispatched e (required ++ recovered) None.

(** The fresh generation, after the events [before]. *)
Lemma next_generation_realized e before evs pending :
  wf e -> ep_state e = RTUStateRecoveryRequired -> ep_generation e < MaxUint64 ->
  Forall (fun s => es_kind s = RTUEventRecoveryRequired) before ->
  ep_nextSequence e + zlen before + 1 <= MaxUint64 ->
  logged e (ep_nextSequence e) before evs ->
  realized e []
    (let '(e, recovered) :=
       events_locked (next_generation ((advance e before) <| ep_pendingRecovery := pending |>))
         [ {| es_kind := RTUEventRecovered; es_requestID := 0; es_unitID := 0;
              es_result := no_transmit; es_detail := "" |} ] in
     dispatched e (evs ++ recovered) (@None rtu_error)).
Proof.
  intros Hw Hs Hg Hb Hn Hl. set (s := mkEventSpec _ _ _ _ _).
  destruct (events_locked_spec
    (next_generation ((advance e before) <| ep_pendingRecovery := pending |>)) [s])
    as (evs' & -> & Hl'); [exact Hn|].
  eapply realizes_dispatched; [done| | |reflexivity].
  - refine (S_recover e pending before s evs evs' Hs Hg Hb eq_refl _ Hl _).
    + unfold fits. rewrite zlen_app, zlen_cons, zlen_nil. lia.
    + by eapply logged_clock; [..|exact Hl'].
  - rewrite advance_app. reflexivity.
Qed.

Lemma recover_realized e now : wf e -> realized e [] (EndpointRecover e now).
Proof.
  intros Hw. unfold EndpointRecover. rewrite (reentry_refused _ Hw).
  destruct (_ || _) eqn:E; [apply realized_silent|]. bool_hyps.
  match goal with H : ep_state e = _ |- _ => rename H into Hs end.
  apply (realized_clock e now [] Some (fun e1 _ => recover_now e1)); [done|].
  intros Hw1 Hnow _. unfold recover_now. cbv zeta.
  assert (Hg : ep_generation (clocked e now) < MaxUint64).
  { pose proof (wf_counters _ Hw) as Hn. unfold counters_ok in Hn. cbn. lia. }
  set (pending := negb (bool_decide _)).
  destruct (canEmitLocked _ (if pending then _ else _)) eqn:Hc; cbn [negb];
    [|apply realized_silent].
  destruct pending.
  - destruct (events_locked_spec (clocked e now)
      [recovery_spec 0 0 (ep_pendingRecovery (clocked e now))]) as (evs & -> & Hl).
    { eapply can_emit_fits; [apply (can_emit_le _ 1 2 Hc); lia|done]. }
    apply next_generation_realized; try done; [by repeat constructor|].
    unfold canEmitLocked in Hc. bool_hyps. rewrite zlen_cons, zlen_nil. lia.
  - pose proof (next_generation_realized (clocked e now) [] []
      (ep_pendingRecovery (clocked e now)) Hw1 Hs Hg) as Hr.
    assert (He : (advance (clocked e now) [])
                   <| ep_pendingRecovery := ep_pendingRecovery (clocked e now) |> = clocked e now).
    { unfold advance. rewrite zlen_nil, Z.add_0_r. by destruct e. }
    rewrite He in Hr. apply Hr; try done.
    unfold canEmitLocked in Hc. bool_hyps. rewrite zlen_nil. lia.
Qed.

Lemma close_silent e e' (r : option rtu_error) :
  wf e -> ep_state e <> RTUStateClosed ->
  failed e (e' <| ep_state := RTUStateRecoveryRequired |>) -> ep_state e' = RTUStateClosed ->
  ep_nextSequence e' = ep_nextSequence e -> realized e [] (silent e' r).
Proof.
  intros Hw Hs Hf Hs1 Hn. exists []. split; [|unfold delivered; by destruct (ep_sink e)].
  apply steps_one. apply (S_close e e' [] [] Hs Hf Hs1).
  - rewrite zlen_nil. lia.
  - unfold fits. rewrite zlen_nil, Z.add_0_r. apply (wf_counters _ Hw).
  - constructor.
  - exact I.
Qed.

Lemma close_emit e e' s (r : option rtu_error) :
  wf e -> ep_state e <> RTUStateClosed ->
  failed e (e' <| ep_state := RTUStateRecoveryRequired |>) -> ep_state e' = RTUStateClosed ->
  ep_nextSequence e' = ep_nextSequence e -> fits e [s] -> es_kind s = RTUEventClosed ->
  realized e [] (emit e' [s] r).
Proof.
  intros Hw Hs Hf Hs1 Hn Hfit Hk.
  assert (Hg : ep_generation e' = ep_generation e) by apply Hf.
  assert (Hc : ep_lastClock e' = ep_lastClock e) by apply Hf.
  apply (realizes_emit e [s] [] e' (advance e' [s])); [done| |done..| |done].
  { unfold fits in *. by rewrite Hn. }
  intros evs Hl. apply (S_close e (advance e' [s]) [s]); [done| |done| |done| |done].
  - destruct Hf. by constructor.
  - unfold advance. cbn. by rewrite Hn.
  - by constructor.
Qed.

(** [Close] once the clock is read. *)
Definition close_now (e : endpoint) : rtu_outcome (option rtu_error) :=
  if negb (canEmitLocked e 1) then
    silent (e <| ep_state := RTUStateClosed |> <| ep_current := None |>) (Some RTUState)
  else
    emit
      (e <| ep_state := RTUStateClosed |> <| ep_current := None |>
         <| ep_quarantined := None |> <| ep_guardRequestID := 0 |>
         <| ep_guardUnitID := 0 |> <| ep_lastObservedByte := 0 |>
         <| ep_haveObservedByte := false |> <| ep_decoder := reset (ep_decoder e) |>)
      [ {| es_kind := RTUEventClosed; es_requestID := 0; es_unitID := 0;
           es_result := no_transmit; es_detail := "" |} ] None.

Lemma close_now_realized e :
  wf e -> ep_state e <> RTUStateClosed -> realized e [] (close_now e).
Proof.
  intros Hw Hs. pose proof (counters_discarded _ Hw). unfold close_now.
  destruct (canEmitLocked e 1) eqn:Hc; cbn [negb].
  - set (s := mkEventSpec _ _ _ _ _).
    set (e1 := e <| ep_state := _ |> <| ep_current := _ |> <| ep_quarantined := _ |>
                 <| ep_guardRequestID := _ |> <| ep_guardUnitID := _ |>
                 <| ep_lastObservedByte := _ |> <| ep_haveObservedByte := _ |>
                 <| ep_decoder := _ |>).
    assert (Hf : failed e (e1 <| ep_state := RTUStateRecoveryRequired |>))
      by (unfold e1; solve_failed).
    assert (Hst : ep_state e1 = RTUStateClosed) by reflexivity.
    assert (Hn : ep_nextSequence e1 = ep_nextSequence e) by reflexivity.
    assert (Hfit : fits e [s]) by (by eapply can_emit_fits).
    assert (Hk : es_kind s = RTUEventClosed) by reflexivity.
    clearbody e1 s. by apply close_emit.
  - apply close_silent; [done|done| |reflexivity|reflexivity]. solve_failed.
Qed.

Lemma close_realized e now :
  wf e -> ep_state e <> RTUStateClosed -> realized e [] (close_endpoint e now).
Proof.
  intros Hw Hs. pose proof (counters_discarded _ Hw).
  change (close_endpoint e now) with
    (match nowLocked e now with
     | (e, Err err) =>
         silent
           (e <| ep_state := RTUStateClosed |> <| ep_current := None |>
              <| ep_quarantined := None |>) (Some err)
     | (e, Ok _) => close_now e
     end).
  unfold nowLocked. destruct (_ || _) eqn:E.
  - destruct (require_recovery_shape e "clock_regression") as [p ->].
    apply close_silent; [done|done| |reflexivity|reflexivity]. solve_failed.
  - destruct (clock_step e now Hw E) as (Hnow & Hle & Hstep).
    pose proof (wf_step _ _ _ _ Hstep Hw) as Hw1. fold (clocked e now).
    change (@nil (Z * Z)) with (@nil (Z * Z) ++ []).
    eapply realizes_step; [exact Hstep| |unfold delivered; by destruct (ep_sink e)].
    by apply close_now_realized.
Qed.

Theorem op_realized e op :
  wf e -> realizes e (heard_by e op) (fst (apply_op e op)) (snd (apply_op e op)).
Proof.
  intros Hw. destruct op; cbn [apply_op fst snd heard_by].
  - unfold BeginRead. rewrite (reentry_refused _ Hw).
    destruct ctx; [apply realized_silent|]. destruct (EncodeRTUReadADU _ _); [|apply realized_silent].
    destruct (invalid_read_plan _); [apply realized_silent|].
    apply begin_request_realized; [done|by left].
  - unfold BeginDeviceID. rewrite (reentry_refused _ Hw).
    destruct ctx; [apply realized_silent|].
    destruct (EncodeRTUDeviceIDAccessADU _ _); [|apply realized_silent].
    destruct (invalid_device_id_plan _); [apply realized_silent|].
    apply begin_request_realized; [done|by right].
  - by apply complete_transmit_realized.
  - by apply tick_realized.
  - by apply abandon_realized.
  - by apply feed_realized.
  - by apply end_realized.
  - by apply resync_op_realized.
  - by apply fail_quiescence_realized.
  - by apply recover_realized.
  - unfold EndpointClose. rewrite (reentry_refused _ Hw).
    destruct (bool_decide _) eqn:Hs; bool_hyps; [apply realized_silent|].
    by apply close_realized.
Qed.

Lemma op_wf e op : wf e -> wf (fst (apply_op e op)).
Proof. intros Hw. destruct (op_realized e op Hw) as (evs & Hs & _). by eapply wf_steps. Qed.

Lemma steps_sink e evs heard e' : rtu_steps e evs heard e' -> ep_sink e' = ep_sink e.
Proof. induction 1; [done|]. by rewrite IHrtu_steps; eapply sink_step. Qed.

Lemma ops_realized e ops :
  wf e -> realizes e (heard_in e ops) (fst (apply_ops e ops)) (snd (apply_ops e ops)).
Proof.
  revert e. induction ops as [|op ops IH]; intros e Hw; [apply realizes_refl|].
  cbn [heard_in apply_ops]. destruct (op_realized e op Hw) as (evs & Hs & Hev).
  pose proof (op_wf e op Hw) as Hw1. destruct (apply_op e op) as [e1 events]. cbn [fst snd] in *.
  destruct (IH e1 Hw1) as (evs' & Hs' & Hev'). destruct (apply_ops e1 ops) as [e2 more].
  cbn [fst snd] in *. exists (evs ++ evs'). split; [by eapply steps_trans|].
  rewrite delivered_app, Hev, Hev'. unfold delivered. by rewrite (steps_sink _ _ _ _ Hs).
Qed.

(** An endpoint as it is made. *)
Lemma new_endpoint_wf self line config line' e :
  0 <= fc_MaxDiscardedFrames config <= MaxUint64 ->
  NewRTUFixtureEndpoint self line config = (line', Ok e) -> wf e.
Proof.
  intros Hm. unfold NewRTUFixtureEndpoint, invalid_fixture_config.
  destruct (_ || _) eqn:E; [done|]. bool_hyps.
  destruct (NewRTUFrameDecoder _) as [d|] eqn:Ed; [|done]. destruct (fl_owner line); [done|].
  intros [= _ <-]. unfold NewRTUFrameDecoder in Ed. destruct (_ || _) eqn:Et in Ed; [done|].
  injection Ed as <-. bool_hyps.
  destruct (checkedRTUOffsetAdd _ _) as [q|] eqn:Eq; [|done]. apply checked_add_some in Eq.
  bool_hyps. constructor; cbn; try done; try lia; try (unfold timing_ok; lia).
Qed.

Lemma new_endpoint_start self line config line' e :
  NewRTUFixtureEndpoint self line config = (line', Ok e) ->
  ep_state e = RTUStateIdle /\ ep_current e = None /\ ep_generation e = 1 /\
  ep_nextRequestID e = 1 /\ ep_nextSequence e = 0 /\ ep_lastClock e = 0 /\
  ep_sink e = fc_EventSink config.
Proof.
  unfold NewRTUFixtureEndpoint. case_test; [done|]. destruct (NewRTUFrameDecoder _); [|done].
  by destruct (fl_owner line); [|intros [= _ <-]].
Qed.
