(* ===== verification/RtuEndpointFacts.v ===== *)
(** Invariants over the histories of the RTU fixture endpoint: where the bytes it
    holds came from, the silence it has heard, and the refinement of its event log;
    the theorems drawn from them are in RtuEndpointProps. *)

From S2P Require Import Prelude.
From S2P Require Import Pdu.
From S2P Require Import DeviceId.
From S2P Require Import DeviceIdTolerant.
From S2P Require Import TcpAdu.
From S2P Require Import RtuTiming.
From S2P Require Import RtuAdu.
From S2P Require Import TcpOwner.
From S2P Require Import Coalescing.
From S2P Require Import RtuEndpoint.
From S2P Require Import RtuEndpointSteps.

(** An endpoint after any operations since its construction. *)
Definition reachable (e : endpoint) : Prop :=
  exists self line config line' e0 ops,
    0 <= fc_MaxDiscardedFrames config <= MaxUint64 /\
    NewRTUFixtureEndpoint self line config = (line', Ok e0) /\
    e = fst (apply_ops e0 ops).

Lemma ops_wf e ops : wf e -> wf (fst (apply_ops e ops)).
Proof. intros Hw. destruct (ops_realized e ops Hw) as (evs & Hs & _). by eapply wf_steps. Qed.

Lemma reachable_wf e : reachable e -> wf e.
Proof.
  intros (self & line & config & line' & e0 & ops & Hm & Hn & ->). apply ops_wf.
  by eapply new_endpoint_wf.
Qed.

(** * Buffered bytes belong to the awaited response *)

Definition fresh (heard : list (Z * Z)) (e : endpoint) : Prop :=
  match ep_state e with
  | RTUStateResponseWait =>
      exists r earlier fed,
        ep_current e = Some r /\ heard = earlier ++ fed /\ rd_inv (ep_decoder e) fed /\
        Forall (fun p => rq_transmitCompletion r <= fst p <= ep_lastClock e) fed
  | _ => True
  end.

Lemma clean_rd_inv d : clean d -> rd_inv d [].
Proof.
  intros (Hb & Hh & Hp & Hl). unfold rd_inv. rewrite Hb, Hh, Hp, Hl. cbn. conj; try done.
Qed.

Lemma end_frame_rd_inv d now fed : rd_inv d fed -> rd_inv (fst (EndFrame d now)) fed.
Proof. intros H. unfold EndFrame. case_test; [done|]. apply reset_rd_inv. Qed.

Lemma clock_le e now :
  wf e -> 0 <= now -> (ep_haveClock e = true -> ep_lastClock e <= now) -> ep_lastClock e <= now.
Proof. intros Hw Hn H. destruct (ep_haveClock e) eqn:Hc; [auto|]. by rewrite (wf_haveClock _ Hw Hc). Qed.

Lemma fresh_step e evs h e' heard :
  rtu_step e evs h e' -> wf e -> fresh heard e -> fresh (heard ++ h) e'.
Proof.
  intros Hs Hw Hf. unfold fresh in *. destruct Hs;
    try (match goal with H : ep_state _ = _ |- _ => rewrite H in Hf end);
    try (by cbn); rewrite ?app_nil_r.
  - cbn. pose proof (clock_le _ _ Hw H H0). destruct (ep_state e); try done.
    destruct Hf as (r & earlier & fed & ? & ? & ? & HF). exists r, earlier, fed. conj; try done.
    eapply Forall_impl; [exact HF|]. cbn. intros p. lia.
  - exact Hf.
  - by rewrite (fa_state _ _ H).
  - cbn. eexists _, heard, []. conj; [done|by rewrite app_nil_r| |constructor].
    apply clean_rd_inv. pose proof (wf_state _ Hw) as Hst. unfold state_ok in Hst.
    rewrite H in Hst. apply Hst.
  - cbn. rewrite H. destruct Hf as (r & earlier & fed & Hcur & -> & Hi & HF).
    exists r, earlier, (fed ++ [(ep_lastClock e, value)]). conj; [done|by rewrite app_assoc| |].
    + apply feed_byte_inv; [done|]. apply (wf_clock _ Hw).
    + apply Forall_app. split; [done|]. constructor; [|constructor]. cbn.
      destruct (wait_completion e r) as (_ & ? & ?); [done..|]. lia.
  - cbn. by rewrite H.
  - cbn. by rewrite H.
  - cbn. rewrite H. destruct Hf as (r & earlier & fed & Hcur & -> & Hi & HF).
    exists r, earlier, fed. conj; try done. by apply end_frame_rd_inv.
  - cbn. rewrite H. exact Hf.
  - cbn. by rewrite H.
  - by rewrite H1.
Qed.

Lemma fresh_steps e evs h e' heard :
  rtu_steps e evs h e' -> wf e -> fresh heard e -> fresh (heard ++ h) e'.
Proof.
  intros Hs. revert heard.
  induction Hs as [|e evs h e1 evs' h' e2 H1 Hs IH]; intros heard Hw Hf.
  - by rewrite app_nil_r.
  - rewrite app_assoc. apply IH; [by eapply wf_step|by eapply fresh_step].
Qed.

(** * Silence before admission *)

(** The time by which an inter-frame gap has passed since every byte heard, and
    the one by which the response horizon has. *)
Definition gap_limit (e : endpoint) : Z :=
  match ep_state e with
  | RTUStateInterFrameGuard => Z.max (ep_guardDeadline e) (ep_lastClock e)
  | RTUStateQuarantine => Z.max (ep_idleDeadline e) (ep_lastClock e)
  | _ => ep_lastClock e
  end.

Definition horizon_limit (e : endpoint) : Z :=
  match ep_state e with
  | RTUStateQuarantine => Z.max (ep_latencyDeadline e) (ep_lastClock e)
  | _ => ep_lastClock e
  end.

Definition settled (e : endpoint) (p : Z * Z) : Prop :=
  fst p <= ep_lastClock e /\
  (fst p + rt_interFrame (ep_timing e) <= gap_limit e \/
   ep_state e = RTUStateResponseWait /\ ep_haveObservedByte e = true /\
   fst p <= ep_lastObservedByte e).

Definition active (e : endpoint) : Prop :=
  ep_state e <> RTUStateRecoveryRequired /\ ep_state e <> RTUStateClosed.

(** Within generation [g] the bytes [heard] and the horizon [q] are settled. *)
Definition quiet (g q : Z) (heard : list (Z * Z)) (e : endpoint) : Prop :=
  g <= ep_generation e /\
  (ep_generation e = g -> active e -> Forall (settled e) heard /\ q <= horizon_limit e).

(** A step within the generation that settles what was settled before. *)
Lemma quiet_intro g q heard h e e' :
  quiet g q heard e -> ep_generation e' = ep_generation e -> active e ->
  (forall p, settled e p -> settled e' p) -> Forall (settled e') h ->
  horizon_limit e <= horizon_limit e' -> quiet g q (heard ++ h) e'.
Proof.
  intros [Hg Hq] He Ha Hs Hh Hl. split; [by rewrite He|]. intros Hg' _. rewrite He in Hg'.
  destruct (Hq Hg' Ha) as [HF ?]. split; [|lia]. apply Forall_app. split; [|done].
  eapply Forall_impl; [exact HF|done].
Qed.

Lemma quiet_inactive g q heard e : g <= ep_generation e -> ~ active e -> quiet g q heard e.
Proof. intros Hg Ha. by split. Qed.

Lemma active_of e s :
  ep_state e = s -> s <> RTUStateRecoveryRequired -> s <> RTUStateClosed -> active e.
Proof. by intros <-. Qed.

(** The same when the state is known. *)
Lemma quiet_from g q heard h e e' s :
  quiet g q heard e -> ep_state e = s -> s <> RTUStateRecoveryRequired -> s <> RTUStateClosed ->
  ep_generation e' = ep_generation e ->
  (forall p, settled e p -> settled e' p) -> Forall (settled e') h ->
  horizon_limit e <= horizon_limit e' -> quiet g q (heard ++ h) e'.
Proof. intros Hq Hs H1 H2. intros. eapply quiet_intro; try done. by eapply active_of. Qed.

Ltac by_settled :=
  unfold settled, gap_limit, horizon_limit; cbn;
  repeat match goal with H : ep_state _ = _ |- _ => rewrite !H end;
  try (intros p [? [?|(? & ? & ?)]]); try discriminate;
  try lia; try (split; [lia|]; left; lia); auto.

Lemma quiet_step g q e evs h e' heard :
  rtu_step e evs h e' -> wf e -> quiet g q heard e -> quiet g q (heard ++ h) e'.
Proof.
  intros Hs Hw Hq. pose proof (wf_timing _ Hw) as Ht. unfold timing_ok in Ht.
  pose proof (wf_observed _ Hw) as Hobs. destruct Hs.
  - pose proof (clock_le _ _ Hw H H0).
    destruct (decide (active e)) as [Ha|Ha].
    + apply (quiet_intro _ _ _ _ e); [done|done|done| |constructor|].
      * unfold settled, gap_limit. cbn. intros p [? [?|(? & ? & ?)]]; (split; [lia|]);
          [left; destruct (ep_state e); lia|by right].
      * unfold horizon_limit. cbn. destruct (ep_state e); lia.
    + apply quiet_inactive; [apply Hq|done].
  - rewrite app_nil_r. exact Hq.
  - apply quiet_inactive; [rewrite (fa_generation _ _ H); apply Hq|].
    intros [Ha _]. apply Ha, H.
  - eapply quiet_from; try done; by_settled.
  - eapply quiet_from; try done; by_settled.
  - eapply quiet_from; try done; by_settled.
  - apply prepare_ok in H4 as (_ & Hl & Hqd & Hi & Ho & _).
    assert (Ha : active e) by (destruct H as [H|H]; by eapply active_of).
    apply (quiet_intro _ _ _ _ e); [done|done|done| |constructor|].
    + unfold settled, gap_limit. cbn.
      intros p [? [?|(? & Hh & ?)]]; (split; [lia|]); left.
      * destruct H as [H|H]; rewrite H in *; lia.
      * specialize (Ho Hh). lia.
    + unfold horizon_limit. cbn. destruct H as [H|H]; rewrite H; lia.
  - apply (quiet_from _ _ _ _ e _ _ Hq H); [done..| | |].
    + unfold settled, gap_limit. cbn. rewrite H. intros p [? _]. split; [done|]. by right.
    + constructor; [|constructor]. unfold settled. cbn. rewrite H. split; [lia|]. right.
      conj; try done; lia.
    + by_settled.
  - apply checked_add_some in H1.
    assert (Hi : forall p, fst p <= ep_lastClock e -> settled ((observe e (ep_lastClock e))
         <| ep_idleDeadline := if idle <? ep_latencyDeadline e then ep_latencyDeadline e
                               else idle |>
         <| ep_quarantineSawBytes := true |> <| ep_decoder := decoder |>) p).
    { intros p Hp. unfold settled, gap_limit. cbn. rewrite H. split; [done|]. left.
      destruct (idle <? _) eqn:E; bool_hyps; lia. }
    apply (quiet_from _ _ _ _ e _ _ Hq H); [done..| | |].
    + intros p [? _]. by apply Hi.
    + constructor; [|constructor]. apply Hi. cbn. lia.
    + by_settled.
  - apply checked_add_some in H0.
    assert (Hi : forall p, fst p <= ep_lastClock e ->
      settled ((advance e [s]) <| ep_guardDeadline := guard |>
         <| ep_discardedFrames := ep_discardedFrames e + 1 |>) p).
    { intros p Hp. unfold settled, gap_limit. cbn. rewrite H. split; [done|]. left. lia. }
    apply (quiet_from _ _ _ _ e _ _ Hq H); [done..| | |].
    + intros p [? _]. by apply Hi.
    + constructor; [|constructor]. apply Hi. cbn. lia.
    + by_settled.
  - rewrite app_nil_r. exact Hq.
  - rewrite app_nil_r. exact Hq.
  - apply checked_add_some in H2. apply (quiet_from _ _ _ _ e _ _ Hq H); [done..| |constructor|].
    + unfold settled, gap_limit. cbn. intros p [? _]. split; [done|]. left. lia.
    + by_settled.
  - rewrite app_nil_r in *. split; [apply Hq|]. intros Hg Ha.
    destruct (proj2 Hq Hg Ha) as [HF Hh]. split.
    + eapply Forall_impl; [exact HF|]. unfold settled, gap_limit. cbn. rewrite H.
      intros p [? [?|(? & _)]]; [by auto|done].
    + exact Hh.
  - assert (Ha : active e) by (destruct H as [[H _]|[H _]]; by eapply active_of).
    apply (quiet_intro _ _ _ _ e); [done|done|done| |constructor|].
    + unfold settled, gap_limit. cbn.
      intros p [? [?|(Hs & _)]]; (split; [lia|]); [left|];
        destruct H as [[H Hl]|[H [Hl Hl']]]; rewrite H in *; try done; lia.
    + unfold horizon_limit. cbn. destruct H as [[H Hl]|[H [Hl Hl']]]; rewrite H; lia.
  - destruct Hq as [Hg _]. split; cbn; [lia|]. intros Hg'. lia.
  - pose proof (fa_generation _ _ H0) as Hg. cbn in Hg.
    apply quiet_inactive; [rewrite Hg; apply Hq|]. by intros [_ Ha].
Qed.

Lemma quiet_steps g q e evs h e' heard :
  rtu_steps e evs h e' -> wf e -> quiet g q heard e -> quiet g q (heard ++ h) e'.
Proof.
  intros Hs. revert heard.
  induction Hs as [|e evs h e1 evs' h' e2 H1 Hs IH]; intros heard Hw Hf.
  - by rewrite app_nil_r.
  - rewrite app_assoc. apply IH; [by eapply wf_step|by eapply quiet_step].
Qed.

(** * The event log *)

(** What the log of an endpoint promises: events are numbered without gaps, time
    does not go back, a request is begun with the next identity of the generation
    and only while none is open, everything said of a request is said while it is
    open, and it is resolved once.  Recovery and close end the open request. *)
Record log_state : Type := mkLogState {
  lg_sequence : Z;
  lg_clock : Z;
  lg_generation : Z;
  lg_last : Z;
  lg_open : option Z
}.

#[export] Instance log_state_fields : Fields log_state := fun l =>
  mkLogState (lg_sequence l) (lg_clock l) (lg_generation l) (lg_last l) (lg_open l).

Definition fresh_log : log_state :=
  {| lg_sequence := 0; lg_clock := 0; lg_generation := 1; lg_last := 0; lg_open := None |}.

Definition about_open (l : log_state) (id generation : Z) : bool :=
  bool_decide (lg_open l = Some id) && (generation =? lg_generation l).

Definition log_step (l : log_state) (kind : RTUEventKind) (id generation : Z)
    : option log_state :=
  match kind with
  | RTUEventBeginRead | RTUEventBeginDeviceID =>
      if bool_decide (lg_open l = None) && (id =? lg_last l + 1)
         && (generation =? lg_generation l) then
        Some (l <| lg_last := id |> <| lg_open := Some id |>)
      else None
  | RTUEventTransmitResult | RTUEventQuarantineTransition =>
      if about_open l id generation then Some l else None
  | RTUEventWaiterResolved =>
      if about_open l id generation then Some (l <| lg_open := None |>) else None
  | RTUEventResponseReceive =>
      if id =? 0 then if bool_decide (lg_open l <> None) then Some l else None
      else if about_open l id generation then Some (l <| lg_open := None |>) else None
  | RTUEventFrameDiscarded => Some l
  | RTUEventResynchronized => if bool_decide (lg_open l = None) then Some l else None
  | RTUEventRecoveryRequired | RTUEventClosed => Some (l <| lg_open := None |>)
  | RTUEventRecovered =>
      if generation =? lg_generation l + 1 then
        Some (l <| lg_generation := generation |> <| lg_last := 0 |> <| lg_open := None |>)
      else None
  end.

(** The next event of a log, if it keeps the promise. *)
Definition log_event (l : log_state) (ev : RTUEvent) : option log_state :=
  if (ev_Sequence ev =? lg_sequence l + 1) && (lg_clock l <=? ev_MonotonicOffset ev) then
    log_step (l <| lg_sequence := ev_Sequence ev |> <| lg_clock := ev_MonotonicOffset ev |>)
      (ev_Kind ev) (ev_RequestID ev) (ev_Generation ev)
  else None.

Fixpoint log_events (l : log_state) (evs : list RTUEvent) : option log_state :=
  match evs with
  | [] => Some l
  | ev :: evs => l ← log_event l ev; log_events l evs
  end.

Lemma log_events_app l evs evs' :
  log_events l (evs ++ evs') = (l ← log_events l evs; log_events l evs').
Proof.
  revert l. induction evs as [|ev evs IH]; intros l; cbn; [done|].
  destruct (log_event l ev); cbn; [apply IH|done].
Qed.

(** The request an endpoint has in flight. *)
Definition open_request (e : endpoint) : option Z :=
  (fun r => rh_requestID (rq_handle r)) <$> ep_current e.

(** The log [l] is that of [e]. *)
Record log_of (l : log_state) (e : endpoint) : Prop := mkLogOf {
  lo_sequence : lg_sequence l = ep_nextSequence e;
  lo_clock : lg_clock l <= ep_lastClock e;
  lo_generation : lg_generation l = ep_generation e;
  lo_last : lg_last l = ep_nextRequestID e - 1;
  lo_open : active e -> lg_open l = open_request e
}.

(** The log after the calls [specs] of [eventLocked]. *)
Fixpoint log_specs (l : log_state) (clock generation : Z) (specs : list event_spec)
    : option log_state :=
  match specs with
  | [] => Some l
  | s :: specs =>
      l ← log_step (l <| lg_sequence := lg_sequence l + 1 |> <| lg_clock := clock |>)
            (es_kind s) (es_requestID s) generation;
      log_specs l clock generation specs
  end.

Lemma log_step_keeps l kind id g l' :
  log_step l kind id g = Some l' ->
  lg_sequence l' = lg_sequence l /\ lg_clock l' = lg_clock l.
Proof. unfold log_step. destruct kind; repeat case_test; intros [= <-]; done. Qed.

Lemma log_logged l e specs evs :
  lg_clock l <= ep_lastClock e -> logged e (lg_sequence l) specs evs ->
  log_events l evs = log_specs l (ep_lastClock e) (ep_generation e) specs.
Proof.
  revert l evs. induction specs as [|s specs IH]; intros l [|ev evs] Hc; cbn [logged]; try done.
  intros (Hk & Hr & Hs & Hg & Ho & Hl). cbn [log_events log_specs]. unfold log_event.
  rewrite Hs, Ho, Hk, Hr, Hg, Z.eqb_refl. test_true (lg_clock l <=? ep_lastClock e). cbn [andb].
  destruct (log_step _ _ _ _) as [l'|] eqn:E; [|done]. cbn [mbind option_bind].
  apply log_step_keeps in E as [E1 E2]. apply IH; [rewrite E2; cbn; lia|]. by rewrite E1.
Qed.

(** Failures are always accepted. *)
Lemma log_failure l c g specs :
  failure_specs specs -> lg_clock l <= c ->
  exists l', log_specs l c g specs = Some l' /\
    lg_sequence l' = lg_sequence l + zlen specs /\ lg_clock l' <= c /\
    lg_generation l' = lg_generation l /\ lg_last l' = lg_last l.
Proof.
  intros HF. revert l. induction HF as [|s specs Hk HF IH]; intros l Hc; cbn [log_specs].
  - exists l. rewrite zlen_nil. conj; try done; lia.
  - destruct (IH (l <| lg_sequence := lg_sequence l + 1 |> <| lg_clock := c |>
      <| lg_open := match es_kind s with RTUEventRecoveryRequired => None | _ => lg_open l end |>))
      as (l' & E & Hn & Hc' & Hg & Hl); [cbn; lia|].
    exists l'. rewrite zlen_cons. conj; try done; [|rewrite Hn; cbn; lia].
    destruct Hk as [Hk|Hk]; rewrite Hk in *; exact E.
Qed.

(** Remarks on the open request do not change the log. *)
Lemma log_remarks l c g id specs :
  lg_open l = Some id -> lg_generation l = g -> lg_clock l <= c ->
  Forall (fun s => (es_kind s = RTUEventTransmitResult \/ es_kind s = RTUEventQuarantineTransition)
                   /\ es_requestID s = id) specs ->
  exists c', log_specs l c g specs
    = Some (l <| lg_sequence := lg_sequence l + zlen specs |> <| lg_clock := c' |>) /\ c' <= c.
Proof.
  intros Ho Hg Hc HF. revert l Ho Hg Hc.
  induction HF as [|s specs [Hk Hid] HF IH]; intros l Ho Hg Hc; cbn [log_specs].
  - exists (lg_clock l). rewrite zlen_nil, Z.add_0_r. split; [by destruct l|done].
  - destruct (IH (l <| lg_sequence := lg_sequence l + 1 |> <| lg_clock := c |>))
      as (c' & E & Hc'); [done|done|cbn; lia|].
    exists c'. split; [|done]. rewrite zlen_cons, Z.add_assoc. etrans; [|exact E].
    assert (Hb : about_open (l <| lg_sequence := lg_sequence l + 1 |> <| lg_clock := c |>)
                   (es_requestID s) g = true).
    { unfold about_open. cbn. bool_goal; [|done]. apply bool_decide_eq_true. congruence. }
    unfold log_step. by destruct Hk as [-> | ->]; rewrite Hb.
Qed.

Lemma log_specs_app l c g specs specs' :
  log_specs l c g (specs ++ specs') = (l ← log_specs l c g specs; log_specs l c g specs').
Proof.
  revert l. induction specs as [|s specs IH]; intros l; cbn; [done|].
  destruct (log_step _ _ _ _); cbn; [apply IH|done].
Qed.

(** Discards are always accepted. *)
Lemma log_discards l c g specs :
  lg_clock l <= c -> Forall (fun s => es_kind s = RTUEventFrameDiscarded) specs ->
  exists c', log_specs l c g specs
    = Some (l <| lg_sequence := lg_sequence l + zlen specs |> <| lg_clock := c' |>) /\ c' <= c.
Proof.
  intros Hc HF. revert l Hc. induction HF as [|s specs Hk HF IH]; intros l Hc; cbn [log_specs].
  - exists (lg_clock l). rewrite zlen_nil, Z.add_0_r. split; [by destruct l|done].
  - destruct (IH (l <| lg_sequence := lg_sequence l + 1 |> <| lg_clock := c |>))
      as (c' & E & Hc'); [cbn; lia|].
    exists c'. split; [|done]. rewrite zlen_cons, Z.add_assoc, Hk. exact E.
Qed.

Lemma failed_log l e e' :
  failed e e' -> lg_clock l <= ep_lastClock e -> lg_generation l = ep_generation e ->
  lg_last l = ep_nextRequestID e - 1 -> lg_sequence l = ep_nextSequence e' -> log_of l e'.
Proof.
  intros [] Hc Hg Hl Hs. constructor; try congruence; try lia. by intros [Ha _].
Qed.

(** A step in which the open request stays as it is. *)
Lemma same_log l c e e' n :
  log_of l e -> active e -> c <= ep_lastClock e' ->
  ep_nextSequence e' = ep_nextSequence e + n -> ep_generation e' = ep_generation e ->
  ep_nextRequestID e' = ep_nextRequestID e -> open_request e' = open_request e ->
  log_of (l <| lg_sequence := lg_sequence l + n |> <| lg_clock := c |>) e'.
Proof.
  intros [Hs Hc Hg Hl Ho] Ha Hc' Hn Hg' Hr Hopen. constructor; cbn; try lia.
  intros _. rewrite Hopen. auto.
Qed.

(** A step in which one event ends the open request, if any. *)
Lemma ended_log l c e e' n :
  log_of l e -> c <= ep_lastClock e' -> ep_nextSequence e' = n ->
  ep_generation e' = ep_generation e -> ep_nextRequestID e' = ep_nextRequestID e ->
  ep_current e' = None ->
  log_of (l <| lg_sequence := n |> <| lg_clock := c |> <| lg_open := None |>) e'.
Proof.
  intros [Hs Hc Hg Hl Ho] Hc' Hn Hg' Hr Hcur. constructor; cbn; try lia.
  intros _. unfold open_request. by rewrite Hcur.
Qed.

(** A quarantine says what it has to of the open request and resolves it. *)
Lemma log_quarantine l c r detail before after :
  lg_open l = Some (rh_requestID (rq_handle r)) -> lg_clock l <= c ->
  Forall (fun s => es_kind s = RTUEventTransmitResult /\
                   es_requestID s = rh_requestID (rq_handle r)) before ->
  Forall (fun s => es_kind s = RTUEventFrameDiscarded) after ->
  exists c', log_specs l c (lg_generation l) (before ++ quarantine_specs r detail ++ after)
    = Some (l <| lg_sequence :=
                   lg_sequence l + zlen (before ++ quarantine_specs r detail ++ after) |>
              <| lg_clock := c' |> <| lg_open := None |>) /\ c' <= c.
Proof.
  intros Ho Hc Hb Ha. destruct (quarantine_specs r detail) as [|s1 [|s2 [|]]] eqn:Eq; try done.
  injection Eq as E1 E2.
  replace (before ++ [s1; s2] ++ after) with ((before ++ [s1]) ++ s2 :: after)
    by (by rewrite <- app_assoc).
  rewrite log_specs_app.
  destruct (log_remarks l c (lg_generation l) (rh_requestID (rq_handle r)) (before ++ [s1]))
    as (c1 & -> & Hc1); [done..| |].
  { apply Forall_app. split.
    - eapply Forall_impl; [exact Hb|]. cbn. intros s [? ?]. auto.
    - rewrite Forall_singleton. rewrite <- E1. cbn. auto. }
  cbn [mbind option_bind log_specs]. unfold log_step, about_open. rewrite <- E2.
  cbn -[log_specs]. rewrite Ho, bool_decide_eq_true_2, Z.eqb_refl by done. cbn [andb mbind option_bind].
  destruct (log_discards (l <| lg_sequence := lg_sequence l + zlen (before ++ [s1]) + 1 |>
    <| lg_clock := c |> <| lg_open := None |>) c (lg_generation l) after) as (c2 & E & Hc2);
    [cbn; lia|done|].
  exists c2. split; [|done]. rewrite (zlen_app (before ++ [s1])), zlen_cons, !Z.add_assoc. exact E.
Qed.

Ltac log_fields := constructor; cbn; rewrite ?zlen_cons, ?zlen_nil; try done; try lia.

Lemma log_sim_step l e evs h e' :
  rtu_step e evs h e' -> wf e -> log_of l e ->
  exists l', log_events l evs = Some l' /\ log_of l' e'.
Proof.
  intros Hs Hw Hlog. pose proof Hlog as [Hseq Hc Hg Hl Ho].
  assert (Hrun : forall specs, logged e (ep_nextSequence e) specs evs ->
    log_events l evs = log_specs l (ep_lastClock e) (ep_generation e) specs).
  { intros specs Hlg. apply log_logged; [done|]. by rewrite Hseq. }
  destruct Hs.
  - exists l. split; [done|]. pose proof (clock_le _ _ Hw H H0).
    constructor; cbn; try done; lia.
  - exists l. split; [done|]. by constructor.
  - destruct (log_failure l (ep_lastClock e) (ep_generation e) specs) as (l' & E & ? & ? & ? & ?);
      [done..|]. exists l'. split; [by rewrite (Hrun specs)|].
    eapply failed_log; [done|done|congruence|congruence|congruence].
  - rewrite (Hrun [s]) by done. specialize (Ho ltac:(by eapply active_of)).
    assert (Hopen : lg_open l = None).
    { rewrite Ho. unfold open_request. pose proof (wf_state _ Hw) as Hst. unfold state_ok in Hst.
      rewrite H in Hst. destruct Hst as (-> & _). done. }
    eexists. split.
    + cbn [log_specs]. unfold log_step. rewrite H3.
      destruct H2 as [-> | ->]; cbn; rewrite Hopen, Hg, Z.eqb_refl;
        test_true (ep_nextRequestID e =? lg_last l + 1); reflexivity.
    + log_fields. intros _. unfold open_request. cbn.
      by destruct H0 as [-> _].
  - rewrite (Hrun specs) by done. specialize (Ho ltac:(by eapply active_of)).
    unfold open_request in Ho. rewrite H0 in Ho. cbn in Ho.
    destruct specs as [|s1 [|s2 [|]]]; try done. injection H2 as Hk1 Hk2.
    apply Forall_cons in H3 as [Hi1 H3]. apply Forall_cons in H3 as [Hi2 _].
    eexists. split.
    + cbn [log_specs]. unfold log_step, about_open. rewrite Hk1, Hk2, Hi1, Hi2. cbn.
      rewrite Ho, Hg, Z.eqb_refl, bool_decide_eq_true_2 by done. cbn.
      rewrite Ho, Hg, Z.eqb_refl, bool_decide_eq_true_2 by done. reflexivity.
    + log_fields.
  - rewrite (Hrun [s]) by done. pose proof (Ho ltac:(by eapply active_of)) as Ho'.
    unfold open_request in Ho'. rewrite H0 in Ho'. cbn in Ho'.
    destruct (log_remarks l (ep_lastClock e) (ep_generation e) (rh_requestID (rq_handle r)) [s])
      as (c' & -> & Hc'); [done..|by rewrite Forall_singleton; auto|].
    eexists. split; [done|]. eapply same_log; try done; [by eapply active_of|].
    unfold open_request. cbn. by rewrite H0.
  - rewrite (Hrun _ ltac:(eassumption)).
    pose proof (Ho ltac:(destruct H as [H|H]; by eapply active_of)) as Ho'.
    unfold open_request in Ho'. rewrite H0 in Ho'. cbn in Ho'.
    destruct (log_quarantine l (ep_lastClock e) r detail before after) as (c' & E & Hc');
      [done..|]. rewrite <- Hg, E. eexists. split; [done|].
    eapply ended_log; [done|done|by rewrite Hseq|done..].
  - exists l. split; [done|]. by constructor.
  - exists l. split; [done|]. by constructor.
  - rewrite (Hrun [s]) by done.
    destruct (log_discards l (ep_lastClock e) (ep_generation e) [s]) as (c' & -> & Hc');
      [done|by rewrite Forall_singleton|].
    eexists. split; [done|]. eapply same_log; try done. by eapply active_of.
  - exists l. split; [done|]. by constructor.
  - rewrite (Hrun [s]) by done. pose proof (Ho ltac:(by eapply active_of)) as Ho'.
    destruct (in_flight_owned _ Hw (or_intror H)) as (r & Hcur & _).
    unfold open_request in Ho'. rewrite Hcur in Ho'. cbn in Ho'.
    eexists. split.
    + cbn [log_specs]. unfold log_step. rewrite H2, H3. cbn.
      rewrite bool_decide_eq_true_2 by (by rewrite Ho'). reflexivity.
    + log_fields.
  - rewrite (Hrun [s]) by done. pose proof (Ho ltac:(by eapply active_of)) as Ho'.
    destruct (in_flight_owned _ Hw (or_intror H)) as (r0 & Hcur & Hown).
    rewrite H0 in Hcur. injection Hcur as <-.
    unfold open_request in Ho'. rewrite H0 in Ho'. cbn in Ho'.
    eexists. split.
    + cbn [log_specs]. unfold log_step, about_open. rewrite H5, H6. cbn.
      test_false (rh_requestID (rq_handle r) =? 0); [|destruct Hown as (_ & ? & _); lia].
      rewrite Ho', Hg, Z.eqb_refl, bool_decide_eq_true_2 by done. reflexivity.
    + log_fields.
  - rewrite (Hrun [s]) by done.
    destruct (log_discards l (ep_lastClock e) (ep_generation e) [s]) as (c' & -> & Hc');
      [done|by rewrite Forall_singleton|].
    eexists. split; [done|]. eapply same_log; try done. by eapply active_of.
  - rewrite (Hrun _ ltac:(eassumption)), log_specs_app.
    assert (Hcur : ep_current e = None /\ active e).
    { pose proof (wf_state _ Hw) as Hst. unfold state_ok in Hst.
      destruct H as [[H _]|[H _]]; rewrite H in Hst; (split; [apply Hst|by eapply active_of]). }
    destruct Hcur as [Hcur Ha]. specialize (Ho Ha). unfold open_request in Ho. rewrite Hcur in Ho.
    destruct (log_discards l (ep_lastClock e) (ep_generation e) before) as (c' & -> & Hc');
      [done..|].
    eexists. split.
    + cbn [mbind option_bind log_specs]. unfold log_step. rewrite H2. cbn.
      rewrite Ho, bool_decide_eq_true_2 by done. reflexivity.
    + log_fields; rewrite ?zlen_app, ?zlen_cons, ?zlen_nil; try lia.
      intros _. unfold open_request. cbn. by rewrite Hcur.
  - destruct (log_failure l (ep_lastClock e) (ep_generation e) before)
      as (l1 & E & Hs1 & Hc1 & Hg1 & Hl1);
      [eapply Forall_impl; [eassumption|]; by left|done|].
    rewrite log_events_app.
    assert (Hrun1 : log_events l evs = Some l1).
    { rewrite <- E. apply log_logged; [done|]. by rewrite Hseq. }
    rewrite Hrun1. cbn [mbind option_bind].
    rewrite (log_logged l1 (next_generation e) [s]); [|done|by rewrite Hs1, Hseq].
    eexists. split.
    + cbn [log_specs]. unfold log_step. rewrite H2. cbn. rewrite Hg1, Hg, Z.eqb_refl. reflexivity.
    + log_fields; rewrite ?zlen_app, ?zlen_cons, ?zlen_nil; try lia.
  - rewrite (Hrun specs) by done. destruct H0 as [? ? ? ? ? ? ? ? Hg' Hr' ? ? ? Hc' ? ?]. cbn in *.
    assert (Hclose : exists l', log_specs l (ep_lastClock e) (ep_generation e) specs = Some l' /\
      lg_sequence l' = lg_sequence l + zlen specs /\ lg_clock l' <= ep_lastClock e /\
      lg_generation l' = lg_generation l /\ lg_last l' = lg_last l).
    { clear -H4 Hc. revert l Hc. induction H4 as [|s specs Hk HF IH]; intros l Hc; cbn [log_specs].
      - exists l. rewrite zlen_nil. conj; try done; lia.
      - rewrite Hk. cbn [log_step mbind option_bind].
        destruct (IH (l <| lg_sequence := lg_sequence l + 1 |> <| lg_clock := ep_lastClock e |>
          <| lg_open := None |>)) as (l' & E & ? & ? & ? & ?); [cbn; lia|].
        exists l'. cbn in *. rewrite zlen_cons. conj; try done; lia. }
    destruct Hclose as (l' & -> & ? & ? & ? & ?). exists l'. split; [done|].
    constructor; try congruence; try lia. by intros [_ Ha].
Qed.

Lemma log_sim_steps l e evs h e' :
  rtu_steps e evs h e' -> wf e -> log_of l e ->
  exists l', log_events l evs = Some l' /\ log_of l' e'.
Proof.
  intros Hs. revert l. induction Hs as [|e evs h e1 evs' h' e2 H1 Hs IH]; intros l Hw Hl.
  - by exists l.
  - destruct (log_sim_step _ _ _ _ _ H1 Hw Hl) as (l1 & E1 & Hl1).
    destruct (IH l1 (wf_step _ _ _ _ H1 Hw) Hl1) as (l2 & E2 & Hl2).
    exists l2. split; [|done]. by rewrite log_events_app, E1.
Qed.

(** * Lemmas on single operations *)

Lemma timing_step e evs h e' : rtu_step e evs h e' -> ep_timing e' = ep_timing e.
Proof. destruct 1; try reflexivity; [by destruct H|by destruct H0]. Qed.

Lemma timing_steps e evs h e' : rtu_steps e evs h e' -> ep_timing e' = ep_timing e.
Proof. induction 1; [done|]. by rewrite IHrtu_steps; eapply timing_step. Qed.

(** The time at which an operation admits a request. *)
Definition admits_at (e : endpoint) (op : rtu_op) : option Z :=
  let at_ now (r : begin_result) := match r with Ok _ => Some now | Err _ => None end in
  match op with
  | OpBeginRead now ctx plan => at_ now (oc_result (BeginRead e now ctx plan))
  | OpBeginDeviceID now ctx plan => at_ now (oc_result (BeginDeviceID e now ctx plan))
  | _ => None
  end.

Lemma result_silent {A} e (r : A) : oc_result (silent e r) = r.
Proof. done. Qed.

Lemma begin_request_ok e now plan deviceID frame function kind x :
  wf e -> oc_result (begin_request e now plan deviceID frame function kind) = Ok x ->
  ep_state e = RTUStateIdle /\ ep_lastClock e <= now.
Proof.
  intros Hw. unfold begin_request, nowLocked.
  destruct (bool_decide _) eqn:Es; cbn [negb]; [|done]. bool_hyps.
  destruct (_ || negb (canEmitLocked e 1)); [done|]. destruct (_ || _) eqn:E; [done|].
  intros _. split; [done|]. by destruct (clock_step e now Hw E) as (_ & ? & _).
Qed.

Lemma admits_at_idle e op now :
  wf e -> admits_at e op = Some now -> ep_state e = RTUStateIdle /\ ep_lastClock e <= now.
Proof.
  intros Hw. destruct op; cbn [admits_at]; try done.
  - destruct (oc_result _) eqn:E; [|done]. intros [= <-]. revert E. unfold BeginRead.
    rewrite (reentry_refused _ Hw). destruct ctx; [done|].
    destruct (EncodeRTUReadADU _ _); [|done]. destruct (invalid_read_plan _); [done|].
    by apply begin_request_ok.
  - destruct (oc_result _) eqn:E; [|done]. intros [= <-]. revert E. unfold BeginDeviceID.
    rewrite (reentry_refused _ Hw). destruct ctx; [done|].
    destruct (EncodeRTUDeviceIDAccessADU _ _); [|done].
    destruct (invalid_device_id_plan _); [done|]. by apply begin_request_ok.
Qed.

(** A read response that decodes is the encoding of the response, for the unit. *)
Lemma decode_read_ok unit request frame d :
  Forall u8 frame -> DecodeRTUReadResponseADU unit request frame = (d, None) ->
  exists pdu response,
    encodeRTUADU unit pdu = Ok frame /\ DecodeReadRegistersResponse request pdu = Ok response /\
    rra_response d = Some response /\ ru_raw (rra_adu d) = frame.
Proof.
  intros Hf. unfold DecodeRTUReadResponseADU. case_test; [done|].
  destruct (decodeRTUADU frame) as [adu [err|]] eqn:E; [done|].
  destruct (ru_unitID adu =? unit) eqn:Eu; cbn [negb]; [|done]. bool_hyps. subst unit.
  destruct (DecodeReadRegistersResponse _ _) eqn:Er; [|done]. intros [= <-].
  exists (ru_pdu adu). eexists. conj; [by apply decode_rtu_encode|done|done|].
  pose proof (decode_rtu_raw frame) as Hr. by rewrite E in Hr.
Qed.

Lemma decode_device_id_ok unit request frame d :
  Forall u8 frame -> DecodeRTUDeviceIDResponseADU unit request frame = (d, None) ->
  exists pdu segment,
    encodeRTUADU unit pdu = Ok frame /\ DecodeDeviceIDSegment request pdu = Ok segment /\
    rda_segment d = Some segment /\ ru_raw (rda_adu d) = frame.
Proof.
  intros Hf. unfold DecodeRTUDeviceIDResponseADU. case_test; [done|].
  destruct (validateDeviceIDRequest request); [done|].
  destruct (decodeRTUADU frame) as [adu [err|]] eqn:E; [done|].
  destruct (ru_unitID adu =? unit) eqn:Eu; cbn [negb]; [|done]. bool_hyps. subst unit.
  destruct (DecodeDeviceIDSegment _ _) eqn:Er; [|done]. intros [= <-].
  exists (ru_pdu adu). eexists. conj; [by apply decode_rtu_encode|done|done|].
  pose proof (decode_rtu_raw frame) as Hr. by rewrite E in Hr.
Qed.

(** What a deliverable result holds: the payload of [pdu] as the answer to [r]. *)
Definition answers_request (r : rtuOwnedRequest) (pdu : list Z) (x : RTUReadResult) : Prop :=
  match rq_deviceID r with
  | None =>
      exists response view,
        DecodeReadRegistersResponse (pl_Request (rq_plan r)) pdu = Ok response /\
        qr_response x = Some response /\ qr_logical x = Some view /\
        lv_words view = rs_Words response /\
        lv_logicalViewID view = pl_LogicalViewID (rq_plan r) /\
        lp_PhysicalRequestID (lv_provenance view) = rh_requestID (rq_handle r)
  | Some request =>
      exists segment,
        DecodeDeviceIDSegment request pdu = Ok segment /\ qr_deviceIDSegment x = Some segment
  end.

Lemma receive_delivered e r frame now e' x err event :
  Forall u8 frame -> receiveFrameLocked e r frame now = (e', (x, err), event) ->
  qr_deliverable x = true ->
  (exists pdu, encodeRTUADU (pl_UnitID (rq_plan r)) pdu = Ok frame /\ answers_request r pdu x) /\
  ep_state e' = RTUStateInterFrameGuard /\ ep_current e' = None.
Proof.
  intros Hf. unfold receiveFrameLocked.
  destruct (decode_owned r frame) as [[[raw response] segment] derr] eqn:Ed.
  destruct (is_candidate r frame); cbn [negb].
  2: { unfold receive_uncorrelated. repeat case_test; [by intros [= <- <- <- <-]|].
       destruct (eventLocked _ _ _ _ _ _). by intros [= <- <- <- <-]. }
  unfold receive_candidate.
  destruct (checkedRTUOffsetAdd _ _); [|by intros [= <- <- <- <-]].
  destruct (canEmitLocked e 1) eqn:Hc; cbn [negb]; [|by intros [= <- <- <- <-]].
  destruct (_ || _); [by intros [= <- <- <- <-]|]. cbv zeta.
  match goal with |- context [eventLocked ?e0 ?k ?i ?u ?t ?d] =>
    destruct (event_locked_spec e0 k i u t d) as (ev & -> & _) end.
  { unfold canEmitLocked in Hc. bool_hyps. cbn. lia. }
  intros [= <- <- <- <-]. cbn [qr_deliverable].
  intros Hd. split; [|done]. bool_hyps. subst derr. unfold decode_owned in Ed. unfold answers_request.
  destruct (rq_deviceID r) as [request|] eqn:Er.
  - destruct (DecodeRTUDeviceIDResponseADU _ _ _) as [d derr] eqn:E.
    injection Ed as <- <- <- ->.
    destruct (decode_device_id_ok _ _ _ _ Hf E) as (pdu & seg & ? & ? & ? & _). eauto 10.
  - destruct (DecodeRTUReadResponseADU _ _ _) as [d derr] eqn:E. injection Ed as <- <- <- ->.
    destruct (decode_read_ok _ _ _ _ Hf E) as (pdu & resp & ? & ? & Hresp & _).
    exists pdu. split; [done|]. exists resp. eexists. cbn. rewrite Hresp.
    conj; done.
Qed.

Lemma dispatched_same {A} e evs (r : A) :
  oc_result (dispatched e evs r) = r /\
  ep_state (oc_endpoint (dispatched e evs r)) = ep_state e /\
  ep_current (oc_endpoint (dispatched e evs r)) = ep_current e.
Proof.
  unfold dispatched, dispatch. destruct (ep_sink e) as [sink|]; [|done]. cbn. split; [done|].
  revert e. induction evs as [|ev evs IH]; intros e; [done|]. cbn. case_test; [|apply IH].
  destruct (IH (e <| ep_eventSinkPanics := ep_eventSinkPanics e + 1 |>)) as [-> ->]. done.
Qed.

Lemma paced_last gap x l : paced gap x l -> Forall (fun t => t <= List.last l x) (x :: l).
Proof.
  revert x. induction l as [|y l IH]; intros x; cbn [paced].
  - intros _. rewrite Forall_singleton. cbn. lia.
  - rewrite last_default. intros [? Hp]. specialize (IH _ Hp). rewrite Forall_cons in IH |- *.
    split; [lia|]. by rewrite Forall_cons.
Qed.

(** The bytes that make a frame, when [EndFrame] completes one. *)
Lemma end_frame_burst d now d' adu err fed :
  rd_inv d fed -> EndFrame d now = (d', (adu, err)) -> zlen (ru_raw adu) <> 0 ->
  exists earlier burst, fed = earlier ++ burst /\ ru_raw adu = snd <$> burst /\
    Forall (fun p => fst p + rt_interFrame (rd_timing d) <= now) burst.
Proof.
  intros (_ & _ & _ & _ & Hb) . unfold EndFrame. destruct (_ || _) eqn:E.
  { intros [= <- <- <-] Hz. by destruct Hz. }
  bool_hyps. intros [= <- Ed] _. destruct Hb as (earlier & first & burst & -> & Hbuf & Hp & Hl);
    [done|].
  exists earlier, (first :: burst). pose proof (decode_rtu_raw (rd_buffer d)) as Hr.
  rewrite Ed in Hr. cbn in Hr. rewrite Hr. conj; try done.
  apply paced_last in Hp. rewrite <- Hl in Hp.
  change (fst first :: (fst <$> burst)) with (fst <$> first :: burst) in Hp.
  rewrite Forall_fmap in Hp. eapply Forall_impl; [exact Hp|]. cbn. lia.
Qed.

(** A delivered result is bound to the request that awaits it. *)
Lemma end_delivered e now cancelled expected heard :
  wf e -> fresh heard e -> Forall (fun p => u8 (snd p)) heard ->
  let o := endFrame e now cancelled expected in
  qr_deliverable (fst (oc_result o)) = true ->
  exists r earlier burst pdu,
    ep_state e = RTUStateResponseWait /\ ep_current e = Some r /\ request_kind r = expected /\
    cancelled = false /\ now < rq_deadline r /\ heard = earlier ++ burst /\
    Forall (fun p => rq_transmitCompletion r <= fst p /\
                     fst p + rt_interFrame (ep_timing e) <= now) burst /\
    encodeRTUADU (pl_UnitID (rq_plan r)) pdu = Ok (snd <$> burst) /\
    answers_request r pdu (fst (oc_result o)) /\
    ep_state (oc_endpoint o) = RTUStateInterFrameGuard /\ ep_current (oc_endpoint o) = None.
Proof.
  intros Hw Hfresh Hu. cbv zeta. unfold endFrame, nowLocked. rewrite (reentry_refused _ Hw).
  destruct (_ || _) eqn:E; [done|]. destruct (clock_step e now Hw E) as (Hnow & Hle & Hstep).
  fold (clocked e now). pose proof (wf_step _ _ _ _ Hstep Hw) as Hw1.
  pose proof (fresh_step _ _ _ _ heard Hstep Hw Hfresh) as Hf1. rewrite app_nil_r in Hf1.
  destruct (expire_cases _ now Hw1) as [(-> & _)|(e' & specs & He' & H)].
  2: { rewrite He'. unfold emit. destruct (events_locked e' specs) as [e2 evs].
       by destruct (dispatched_same e2 evs (zeroRTUReadResult, Some RTUState)) as [-> _]. }
  destruct (ep_state (clocked e now)) eqn:Hs; try done.
  - unfold fresh in Hf1. rewrite Hs in Hf1.
    destruct Hf1 as (r & earlier & fed & Hcur & Hheard & Hinv & Hfed).
    unfold end_response. rewrite Hcur. destruct (bool_decide _) eqn:Ek; cbn [negb]; [|done].
    bool_hyps. destruct (EndFrame _ now) as [d' [adu frameErr]] eqn:Ee.
    destruct (bool_decide (frameErr <> None) && (zlen (ru_raw adu) =? 0)) eqn:E1; [done|].
    destruct (cancelled || _) eqn:E2.
    { unfold end_late. repeat (case_test; [done|]).
      destruct (prepareQuarantineLocked _ _) as [e2 [deadlines|]]; [|done].
      unfold emit. destruct (events_locked _ _) as [e3 evs].
      match goal with |- context [dispatched ?a ?b ?c] =>
        by destruct (dispatched_same a b c) as [-> _] end. }
    bool_hyps.
    match goal with |- context [receiveFrameLocked ?a ?b ?c ?d] =>
      destruct (receiveFrameLocked a b c d) as [[e2 [x err]] event] eqn:Er end.
    match goal with |- context [dispatched ?a ?b ?c] =>
      destruct (dispatched_same a b c) as (-> & -> & ->) end. cbn [fst]. intros Hd.
    assert (Hraw : zlen (ru_raw adu) <> 0).
    { unfold EndFrame in Ee. destruct (_ || _) eqn:Eg in Ee.
      - injection Ee as <- <- <-. cbn in E1. done.
      - bool_hyps. injection Ee as <- Ee. 
        pose proof (decode_rtu_raw (rd_buffer (ep_decoder e))) as Hr. rewrite Ee in Hr. cbn in Hr. rewrite Hr. destruct Hinv as (_ & _ & _ & _ & Hb).
        destruct Hb as (? & ? & ? & _ & Hbuf & _); [done|].
        change (rd_buffer (ep_decoder (clocked e now))) with (rd_buffer (ep_decoder e)) in Hbuf.
        rewrite Hbuf, fmap_cons, zlen_cons.
        match goal with |- 1 + zlen ?l <> 0 => pose proof (zlen_nonneg l) end. lia. }
    destruct (end_frame_burst _ _ _ _ _ _ Hinv Ee Hraw) as (before & burst & -> & Hb & Hgap).
    rewrite (wf_decoder _ Hw1) in Hgap. rewrite Hheard, !Forall_app in Hu.
    destruct Hu as (_ & _ & Hu).
    assert (Hbytes : Forall u8 (ru_raw adu)) by (rewrite Hb; by apply Forall_fmap).
    destruct (receive_delivered _ _ _ _ _ _ _ _ Hbytes Er Hd) as ((pdu & Henc & Hans) & Hs2 & Hc2).
    exists r, (earlier ++ before), burst, pdu. rewrite <- Hb.
    conj; try done; [by rewrite <- app_assoc|].
    apply Forall_app in Hfed as [_ Hfed]. rewrite Forall_forall in Hfed, Hgap |- *.
    intros p Hp. specialize (Hfed p Hp). specialize (Hgap p Hp). cbn in *. lia.
  - unfold end_quarantine. case_test; [done|].
    destruct (discardQuarantineFrameLocked _) as [e2 [evs|]]; [|done].
    match goal with |- context [dispatched ?a ?b ?c] =>
      by destruct (dispatched_same a b c) as [-> _] end.
Qed.

(** * A log resolves each request at most once *)

Fixpoint count {A} (p : A -> bool) (l : list A) : Z :=
  match l with
  | [] => 0
  | x :: l => (if p x then 1 else 0) + count p l
  end.

Lemma count_snoc {A} (p : A -> bool) l x : count p (l ++ [x]) = count p l + (if p x then 1 else 0).
Proof. induction l as [|y l IH]; cbn [app count]; [lia|]. rewrite IH. lia. Qed.

Lemma count_nonneg {A} (p : A -> bool) l : 0 <= count p l.
Proof. induction l as [|y l IH]; cbn [count]; [lia|]. destruct (p y); lia. Qed.

Definition of_request (g id : Z) (ev : RTUEvent) : bool :=
  (ev_Generation ev =? g) && (ev_RequestID ev =? id).

(** [ev] begins, or resolves, request [id] of generation [g]. *)
Definition begins (g id : Z) (ev : RTUEvent) : bool :=
  match ev_Kind ev with
  | RTUEventBeginRead | RTUEventBeginDeviceID => of_request g id ev
  | _ => false
  end.

Definition resolves (g id : Z) (ev : RTUEvent) : bool :=
  match ev_Kind ev with
  | RTUEventWaiterResolved | RTUEventResponseReceive => of_request g id ev
  | _ => false
  end.

Definition open_in (l : log_state) (g id : Z) : bool :=
  bool_decide (lg_open l = Some id) && (lg_generation l =? g).

(** The books of a log on request [id] of generation [g]. *)
Definition books (l : log_state) (evs : list RTUEvent) (g id : Z) : Prop :=
  count (begins g id) evs <= 1 /\
  (count (begins g id) evs = 1 -> g < lg_generation l \/ g = lg_generation l /\ id <= lg_last l) /\
  count (resolves g id) evs + (if open_in l g id then 1 else 0) <= count (begins g id) evs.

(** What an accepted event does to the log, by the part it plays in a request. *)
Lemma log_event_cases l ev l' :
  log_event l ev = Some l' ->
  (lg_open l = None /\ lg_generation l' = lg_generation l /\ lg_last l' = lg_last l + 1 /\
   lg_open l' = Some (lg_last l') /\ ev_RequestID ev = lg_last l' /\
   ev_Generation ev = lg_generation l /\
   (ev_Kind ev = RTUEventBeginRead \/ ev_Kind ev = RTUEventBeginDeviceID)) \/
  ((forall g id, begins g id ev = false) /\ lg_open l' = None /\
   lg_generation l' = lg_generation l /\ lg_last l' = lg_last l /\
   about_open l (ev_RequestID ev) (ev_Generation ev) = true) \/
  ((forall g id, id <> 0 -> begins g id ev = false /\ resolves g id ev = false) /\
   (lg_open l' = lg_open l \/ lg_open l' = None) /\
   (lg_generation l' = lg_generation l /\ lg_last l' = lg_last l \/
    lg_generation l' = lg_generation l + 1 /\ lg_open l' = None)).
Proof.
  unfold log_event. destruct (_ && _); [|done]. unfold log_step, begins, resolves.
  destruct (ev_Kind ev) eqn:Ek.
  1, 2: destruct (_ && _) eqn:E; [|done]; bool_hyps; intros [= <-]; left; cbn in *; conj;
    solve [auto|congruence].
  1: destruct (about_open _ _ _) eqn:Ea; [|done]; intros [= <-]; right; right; cbn; auto.
  all: try (intros [= <-]; right; right; cbn; by auto).
  - destruct (ev_RequestID ev =? 0) eqn:E0.
    + destruct (bool_decide _); [|done]. intros [= <-]. right. right. cbn. bool_hyps.
      conj; auto. intros g id Hid. split; [done|]. unfold of_request.
      rewrite (proj2 (Z.eqb_neq (ev_RequestID ev) id)) by lia. apply andb_false_r.
    + destruct (about_open _ _ _) eqn:Ea; [|done]. intros [= <-]. right. left. cbn. auto.
  - destruct (about_open _ _ _) eqn:Ea; [|done]. intros [= <-]. right. right. cbn. auto.
  - destruct (about_open _ _ _) eqn:Ea; [|done]. intros [= <-]. right. left. cbn. auto.
  - destruct (bool_decide _); [|done]. intros [= <-]. right. right. cbn. auto.
  - destruct (_ =? _) eqn:Eg; [|done]. intros [= <-]. right. right. cbn in *. bool_hyps. auto.
Qed.

Lemma of_request_eq g id ev :
  of_request g id ev = true <-> ev_Generation ev = g /\ ev_RequestID ev = id.
Proof. unfold of_request. by rewrite andb_true_iff, !Z.eqb_eq. Qed.

Lemma open_in_eq l g id : open_in l g id = true <-> lg_open l = Some id /\ lg_generation l = g.
Proof. unfold open_in. by rewrite andb_true_iff, bool_decide_eq_true, Z.eqb_eq. Qed.

Definition of_bool (b : bool) : Z := if b then 1 else 0.

Lemma of_bool_le b c : (b = true -> c = true) -> of_bool b <= of_bool c.
Proof. destruct b, c; cbn; intros H; lia. Qed.

Lemma books_snoc l l' evs ev g id :
  id <> 0 -> books l evs g id -> log_event l ev = Some l' -> books l' (evs ++ [ev]) g id.
Proof.
  intros Hid (Hb & Hw & Hr) Hev. unfold books in *. rewrite !count_snoc.
  fold (of_bool (open_in l g id)) in Hr. fold (of_bool (open_in l' g id)).
  fold (of_bool (begins g id ev)). fold (of_bool (resolves g id ev)).
  pose proof (count_nonneg (begins g id) evs). pose proof (count_nonneg (resolves g id) evs).
  set (B := count (begins g id) evs) in *. set (R := count (resolves g id) evs) in *.
  destruct (log_event_cases _ _ _ Hev) as [(Ho & Hg & Hl & Ho' & Hi & Hge & Hk)|
    [(Hnb & Ho' & Hg & Hl & Ha)|(Hnone & Ho' & Hg)]].
  - assert (Hbe : begins g id ev = of_request g id ev /\ resolves g id ev = false).
    { unfold begins, resolves. destruct Hk as [-> | ->]; done. }
    destruct Hbe as [-> ->]. destruct (of_request g id ev) eqn:E; cbn [of_bool].
    + apply of_request_eq in E as [E1 E2].
      assert (B <> 1) by (intros HB; specialize (Hw HB); lia).
      conj; [lia|intros _; lia|]. destruct (open_in l g id), (open_in l' g id); cbn in *; lia.
    + conj; [lia|intros HB; destruct Hw; lia|].
      assert (open_in l' g id = false) as ->.
      { destruct (open_in l' g id) eqn:E'; [|done]. apply open_in_eq in E' as [E1 E2].
        rewrite <- E. symmetry. apply of_request_eq. split; congruence. }
      destruct (open_in l g id); cbn in *; lia.
  - rewrite Hnb. cbn [of_bool]. conj; [lia|intros HB; destruct Hw; lia|].
    assert (open_in l' g id = false) as -> by (unfold open_in; by rewrite Ho').
    assert (of_bool (resolves g id ev) <= of_bool (open_in l g id)); [|cbn [of_bool]; lia].
    apply of_bool_le. intros E. apply open_in_eq.
    assert (Hreq : of_request g id ev = true) by (unfold resolves in E; by destruct (ev_Kind ev)).
    apply of_request_eq in Hreq as [<- <-]. unfold about_open in Ha. by bool_hyps.
  - destruct (Hnone g id Hid) as [-> ->]. cbn [of_bool].
    conj; [lia|intros HB; destruct Hw; lia|].
    assert (of_bool (open_in l' g id) <= of_bool (open_in l g id)); [|lia].
    apply of_bool_le. rewrite !open_in_eq. intros [E1 E2].
    destruct Ho' as [Ho'|Ho'], Hg as [Hg|[_ Hg]]; try congruence. split; [congruence|lia].
Qed.

Lemma log_books evs l g id :
  id <> 0 -> log_events fresh_log evs = Some l -> books l evs g id.
Proof.
  intros Hid. revert l. induction evs as [|ev evs IH] using rev_ind; intros l.
  - intros [= <-]. unfold books. change (open_in fresh_log g id) with false. cbn. lia.
  - rewrite log_events_app. destruct (log_events fresh_log evs) as [l1|]; [|done].
    cbn [mbind option_bind log_events]. destruct (log_event l1 ev) as [l2|] eqn:E; [|done].
    intros [= <-]. eapply books_snoc; [done|by apply IH|done].
Qed.

(** The events of an accepted log are numbered from the next number on. *)
Lemma log_numbers evs l l' i ev :
  log_events l evs = Some l' -> evs !! i = Some ev -> ev_Sequence ev = lg_sequence l + 1 + Z.of_nat i.
Proof.
  revert l i. induction evs as [|x evs IH]; intros l i; [done|]. cbn [log_events].
  destruct (log_event l x) as [l1|] eqn:E; [|done]. cbn [mbind option_bind]. intros Hl.
  assert (Hx : ev_Sequence x = lg_sequence l + 1 /\ lg_sequence l1 = ev_Sequence x).
  { unfold log_event in E. destruct (_ && _) eqn:Eg; [|done]. bool_hyps. split; [done|].
    by apply log_step_keeps in E as [-> _]. }
  destruct i as [|i]; cbn.
  - intros [= <-]. lia.
  - intros Hi. rewrite (IH _ _ Hl Hi). lia.
Qed.
