(* ===== verification/RtuEndpointProps.v ===== *)
(** What the RTU fixture endpoint guarantees: its invariant, silence before every
    admission, delivery bound to the request that awaits it, a log each of whose
    requests is resolved at most once, the end of a quarantine, and a closed
    endpoint that stays closed while its clock does not run backwards. *)

From S2P Require Import Prelude.
From S2P Require Import Pdu.
From S2P Require Import DeviceId.
From S2P Require Import DeviceIdTolerant.
From S2P Require Import TcpAdu.
From S2P Require Import RtuTiming.
From S2P Require Import RtuAdu.
From S2P Require Import TcpOwner.
From S2P Require Import Coalescing.
From S2P Require Import RtuEndpoint.
From S2P Require Import RtuEndpointSteps.
From S2P Require Import RtuEndpointFacts.

(** * A fixture for the examples *)

Definition demo_fixture : RTUFixtureEndpointConfig :=
  {| fc_Endpoint := "rtu"; fc_Line := true;
     fc_Timing := timing_of
       {| tc_Baud := 9600; tc_DataBits := 8; tc_Parity := "even"; tc_StopBits := 1;
          tc_InterCharacterSafety := 0; tc_InterFrameSafety := 0;
          tc_MaxResponseLatency := 100000000; tc_MaxQuiescence := 1000000000 |};
     fc_Clock := Some "clock"%string; fc_EventSink := Some (fun _ => false);
     fc_FixtureOptIn := true; fc_MaxDiscardedFrames := 4 |}.

Definition demo_line (owner : option Z) : RTUFixtureLine :=
  {| fl_identity := "line"; fl_owner := owner |}.

Definition demo_start : endpoint :=
  match snd (NewRTUFixtureEndpoint 1 (demo_line None) demo_fixture) with
  | Ok e => e
  | Err _ =>
      {| ep_self := 0; ep_callback := false; ep_endpoint := ""; ep_timing := demo_timing;
         ep_decoder := demo_rd; ep_clockVersion := ""; ep_sink := None;
         ep_maxDiscardedFrames := 0; ep_state := RTUStateClosed; ep_generation := 0;
         ep_nextRequestID := 0; ep_nextWireResponseID := 0; ep_nextDiagnosticID := 0;
         ep_nextSequence := 0; ep_current := None; ep_quarantined := None; ep_lastClock := 0;
         ep_haveClock := false; ep_quarantineAnchor := 0; ep_latencyDeadline := 0;
         ep_quiescenceDeadline := 0; ep_idleDeadline := 0; ep_guardDeadline := 0;
         ep_guardRequestID := 0; ep_guardUnitID := 0; ep_discardedFrames := 0;
         ep_quarantineDiscarded := 0; ep_quarantineSawBytes := false; ep_eventSinkPanics := 0;
         ep_pendingRecovery := ""; ep_lastObservedByte := 0; ep_haveObservedByte := false |}
  end.

Lemma demo_start_new :
  NewRTUFixtureEndpoint 1 (demo_line None) demo_fixture = (demo_line (Some 1), Ok demo_start).
Proof. by vm_compute. Qed.

Definition demo_plan : RTUReadPlan :=
  {| pl_UnitID := 17; pl_AuthorizationScope := "scope"; pl_PollGeneration := 1;
     pl_DeadlineIdentity := 1; pl_LogicalViewID := 9; pl_Timeout := 200000000;
     pl_Request := {| rr_function := 3; rr_table := HoldingRegisters; rr_offset := 6;
                      rr_quantity := 1 |} |}.

Definition demo_handle : RTURequestHandle :=
  {| rh_endpoint := 1; rh_requestID := 1; rh_generation := 1 |}.

(** A request written at 1000 and complete at 5000. *)
Definition demo_written : list rtu_op :=
  [OpBeginRead 1000 None demo_plan; OpTransmit 5000 false demo_handle TransmitComplete].

Lemma demo_reachable ops : reachable (fst (apply_ops demo_start ops)).
Proof.
  exists 1, (demo_line None), demo_fixture, (demo_line (Some 1)), demo_start, ops.
  conj; [|done|by apply demo_start_new|done]; cbn; unfold MaxUint64; lia.
Qed.

(** * The invariant *)

(** C33: In every state an endpoint reaches by any sequence of operations at any
    clock readings, the endpoint is well formed: a request is held exactly while it
    is being written or answered and carries the endpoint's identity, generation
    and an identity already handed out, the decoder is empty outside an exchange,
    the deadlines of a quarantine are those of its anchor, the discard counter is
    within its bound, and no counter has wrapped. *)
Theorem endpoint_invariant e : reachable e -> wf e.
Proof. apply reachable_wf. Qed.

Lemma endpoint_invariant_witness :
  let e := fst (apply_ops demo_start demo_written) in
  wf e /\ ep_state e = RTUStateResponseWait.
Proof. split; [apply endpoint_invariant, demo_reachable|by vm_compute]. Defined.

(** * Silence before admission *)

(** C16: A request is admitted only on a proven silence: whatever operations ran
    before in the same generation, every byte the endpoint heard while it
    awaited a response, guarded or was in quarantine lies a whole inter-frame
    interval before the admission; and an endpoint that had a request
    in quarantine has waited out the response latency counted from the anchor of
    that quarantine.  [EndpointRecover] opens a new generation without a wait, so that
    nothing is claimed of the bytes heard before it. *)
Theorem silence_before_admission e ops op now :
  reachable e -> let e' := fst (apply_ops e ops) in
  admits_at e' op = Some now -> ep_generation e' = ep_generation e ->
  (forall t v, (t, v) ∈ heard_in e ops -> t + rt_interFrame (ep_timing e) <= now) /\
  (ep_state e = RTUStateQuarantine ->
   ep_quarantineAnchor e + rt_maxResponseLatency (ep_timing e) <= now).
Proof.
  intros Hr e' Ha Hg. apply reachable_wf in Hr as Hw.
  destruct (ops_realized e ops Hw) as (evs & Hs & _). fold e' in Hs.
  assert (Hw' : wf e') by (by eapply wf_steps).
  destruct (admits_at_idle _ _ _ Hw' Ha) as [Hidle Hnow].
  assert (Hq : quiet (ep_generation e) (horizon_limit e) [] e).
  { split; [lia|]. intros _ _. split; [constructor|lia]. }
  apply (quiet_steps _ _ _ _ _ _ _ Hs Hw) in Hq as [_ Hq].
  destruct (Hq Hg) as [HF Hh]; [by eapply active_of|]. rewrite app_nil_l, Forall_forall in HF.
  unfold horizon_limit in Hh. rewrite Hidle in Hh. split.
  - intros t v Hin. destruct (HF _ Hin) as [_ [Hl|(Hl & _)]]; [|congruence].
    unfold gap_limit in Hl. rewrite Hidle, (timing_steps _ _ _ _ Hs) in Hl. cbn in Hl. lia.
  - intros Hst. rewrite Hst in Hh. pose proof (wf_state _ Hw) as Hok. unfold state_ok in Hok.
    rewrite Hst in Hok. unfold deadlines_ok in Hok. lia.
Qed.

(** An endpoint whose request timed out. *)
Definition demo_quarantine : endpoint :=
  fst (apply_ops demo_start (demo_written ++ [OpTick 250000000 false])).

Lemma silence_before_admission_witness :
  let ops := [OpFeed 260000000 7; OpResynchronize 300000000] in
  ep_state demo_quarantine = RTUStateQuarantine /\
  heard_in demo_quarantine ops = [(260000000, 7)] /\
  (forall t v, (t, v) ∈ heard_in demo_quarantine ops ->
     t + rt_interFrame (ep_timing demo_quarantine) <= 310000000) /\
  ep_quarantineAnchor demo_quarantine + rt_maxResponseLatency (ep_timing demo_quarantine)
    <= 310000000.
Proof.
  intros ops.
  destruct (silence_before_admission demo_quarantine ops (OpBeginRead 310000000 None demo_plan)
              310000000) as [H1 H2]; [apply demo_reachable|by vm_compute..|].
  conj; [by vm_compute|by vm_compute|exact H1|]. apply H2. by vm_compute.
Defined.

(** * Delivery *)

(** C15: A result is handed to a caller only as the answer to its own request:
    from construction on, whatever operations and bytes came, a deliverable result
    means that a request of the expected kind is awaited, not cancelled and before
    its deadline; that the latest bytes heard, all of them after the request was
    written and followed by an inter-frame silence, are the encoding of a PDU for
    the unit of the request; and that the result is the decoding of this PDU
    against the request.  The request is then over and the line is guarded. *)
Theorem delivery_bound_to_request self line config line' e0 ops now cancelled expected :
  0 <= fc_MaxDiscardedFrames config <= MaxUint64 ->
  NewRTUFixtureEndpoint self line config = (line', Ok e0) ->
  Forall (fun p => u8 (snd p)) (heard_in e0 ops) ->
  let e := fst (apply_ops e0 ops) in
  let o := endFrame e now cancelled expected in
  qr_deliverable (fst (oc_result o)) = true ->
  exists r earlier burst pdu,
    ep_state e = RTUStateResponseWait /\ ep_current e = Some r /\ request_kind r = expected /\
    cancelled = false /\ now < rq_deadline r /\ heard_in e0 ops = earlier ++ burst /\
    Forall (fun p => rq_transmitCompletion r <= fst p /\
                     fst p + rt_interFrame (ep_timing e) <= now) burst /\
    encodeRTUADU (pl_UnitID (rq_plan r)) pdu = Ok (snd <$> burst) /\
    answers_request r pdu (fst (oc_result o)) /\
    ep_state (oc_endpoint o) = RTUStateInterFrameGuard /\ ep_current (oc_endpoint o) = None.
Proof.
  intros Hm Hn Hu e o Hd. pose proof (new_endpoint_wf _ _ _ _ _ Hm Hn) as Hw.
  destruct (ops_realized e0 ops Hw) as (evs & Hs & _). fold e in Hs.
  apply (end_delivered e now cancelled expected (heard_in e0 ops)); [by eapply wf_steps| |done..].
  apply (fresh_steps _ _ _ _ [] Hs Hw). unfold fresh. by destruct (new_endpoint_start _ _ _ _ _ Hn) as [-> _].
Qed.

(** The answer [0x0102] to the demonstration request, a byte every microsecond. *)
Definition demo_answer : list rtu_op :=
  zip_with OpFeed [10000; 11000; 12000; 13000; 14000; 15000; 16000] [17; 3; 2; 1; 2; 249; 214].

Lemma delivery_bound_to_request_witness :
  let e := fst (apply_ops demo_start (demo_written ++ demo_answer)) in
  let o := endFrame e 5000000 false requestRead in
  lv_words <$> qr_logical (fst (oc_result o)) = Some [0x0102] /\
  exists r, ep_current e = Some r /\ 5000000 < rq_deadline r.
Proof.
  intros e o. split; [by vm_compute|].
  destruct (delivery_bound_to_request 1 (demo_line None) demo_fixture (demo_line (Some 1))
    demo_start (demo_written ++ demo_answer) 5000000 false requestRead)
    as (r & _ & _ & _ & _ & Hc & _ & _ & Hd & _).
  - cbn. unfold MaxUint64. lia.
  - apply demo_start_new.
  - replace (heard_in _ _)
      with (zip [10000; 11000; 12000; 13000; 14000; 15000; 16000] [17; 3; 2; 1; 2; 249; 214])
      by (by vm_compute). cbn. unfold u8. repeat constructor; cbn; lia.
  - by vm_compute.
  - exists r. split; [exact Hc|exact Hd].
Defined.

(** * The event log *)

(** C17: The log of an endpoint with a sink keeps its promise over any run: the
    events delivered are numbered 1, 2, ... without a gap, never go back in time,
    begin a request only when none is open and with the next identity of the
    generation, and say nothing of a request that is not open; so each request of a
    generation is begun at most once and resolved at most once, only after it was
    begun; and the log tells which request the endpoint holds. *)
Theorem event_log_sound self line config line' e0 ops :
  0 <= fc_MaxDiscardedFrames config <= MaxUint64 ->
  NewRTUFixtureEndpoint self line config = (line', Ok e0) -> fc_EventSink config <> None ->
  let e := fst (apply_ops e0 ops) in
  let evs := snd (apply_ops e0 ops) in
  (exists l, log_events fresh_log evs = Some l /\ log_of l e) /\
  (forall i ev, evs !! i = Some ev -> ev_Sequence ev = 1 + Z.of_nat i) /\
  (forall g id, id <> 0 ->
     count (resolves g id) evs <= count (begins g id) evs /\ count (begins g id) evs <= 1).
Proof.
  intros Hm Hn Hsink e evs. pose proof (new_endpoint_wf _ _ _ _ _ Hm Hn) as Hw.
  destruct (new_endpoint_start _ _ _ _ _ Hn) as (Hs & Hc & Hg & Hr & Hq & Hl & Hk).
  destruct (ops_realized e0 ops Hw) as (evs' & Hsteps & Hev).
  unfold delivered in Hev. rewrite Hk in Hev. destruct (fc_EventSink config); [|done].
  fold e evs in Hsteps, Hev. subst evs'.
  destruct (log_sim_steps fresh_log _ _ _ _ Hsteps Hw) as (l & El & Hlog).
  { constructor; cbn; try lia. intros _. unfold open_request. by rewrite Hc. }
  conj; [by exists l|intros i ev Hi; by rewrite (log_numbers _ _ _ _ _ El Hi)|].
  intros g id Hid. destruct (log_books _ _ g id Hid El) as (H1 & _ & H2).
  destruct (open_in l g id); lia.
Qed.

Lemma event_log_sound_witness :
  let evs := snd (apply_ops demo_start
    (demo_written ++ demo_answer ++ [OpEnd 5000000 false requestRead])) in
  ev_Kind <$> evs = [RTUEventBeginRead; RTUEventTransmitResult; RTUEventResponseReceive] /\
  count (resolves 1 1) evs = 1 /\ count (begins 1 1) evs <= 1.
Proof.
  intros evs. conj; [by vm_compute|by vm_compute|].
  refine (proj2 (proj2 (proj2 (event_log_sound 1 (demo_line None) demo_fixture (demo_line (Some 1))
    demo_start (demo_written ++ demo_answer ++ [OpEnd 5000000 false requestRead])
    _ demo_start_new _)) 1 1 _)).
  - cbn. unfold MaxUint64. lia.
  - done.
  - lia.
Defined.

(** * The end of a quarantine *)

Lemma clock_accepted e now :
  0 <= ep_lastClock e <= now -> nowLocked e now = (clocked e now, Ok now).
Proof.
  intros Hn. unfold nowLocked.
  rewrite (proj2 (Z.ltb_ge now 0)), (proj2 (Z.ltb_ge now (ep_lastClock e))) by lia.
  by rewrite andb_false_r.
Qed.

Lemma resynchronize_idle e evs :
  0 <= ep_eventSinkPanics e <= MaxUint64 -> ep_nextSequence e < MaxUint64 ->
  let o := resynchronize e evs in
  oc_result o = None /\ ep_state (oc_endpoint o) = RTUStateIdle /\
  ep_quarantined (oc_endpoint o) = None /\ clean (ep_decoder (oc_endpoint o)) /\
  ep_generation (oc_endpoint o) = ep_generation e.
Proof.
  intros Hp Hn o. subst o. unfold resynchronize.
  match goal with |- context [events_locked ?x ?s] =>
    destruct (events_locked_spec x s) as (evs' & -> & _) end.
  { unfold fits. cbn. rewrite zlen_cons, zlen_nil. lia. }
  match goal with |- context [dispatched ?a ?b ?c] =>
    destruct (dispatched_spec a b c) as (p & -> & _) end; [done|].
  conj; done.
Qed.

Lemma resynchronize_proved_idle e :
  wf e -> ep_nextSequence e + 2 <= MaxUint64 -> ep_discardedFrames e < MaxUint64 ->
  ep_quarantineDiscarded e < ep_maxDiscardedFrames e <= MaxUint64 ->
  let o := resynchronize_proved e in
  oc_result o = None /\ ep_state (oc_endpoint o) = RTUStateIdle /\
  ep_quarantined (oc_endpoint o) = None /\ clean (ep_decoder (oc_endpoint o)) /\
  ep_generation (oc_endpoint o) = ep_generation e.
Proof.
  intros Hw Hn Hd Hq o. subst o. unfold resynchronize_proved.
  pose proof (wf_counters _ Hw) as Hc. unfold counters_ok in Hc.
  destruct (negb (canEmitLocked e _)) eqn:Ee.
  { unfold canEmitLocked in Ee. case_test; bool_hyps; lia. }
  case_test; [|apply resynchronize_idle; lia].
  unfold resynchronize_buffered. destruct (_ || _) eqn:Eb; [bool_hyps; lia|].
  destruct (quarantined_identity _) as [id unit].
  match goal with |- context [events_locked ?x ?s] =>
    destruct (events_locked_spec x s) as (evs' & -> & _) end.
  { unfold fits. cbn. rewrite zlen_cons, zlen_nil. lia. }
  destruct (_ >? _) eqn:Eg; [cbn in Eg; bool_hyps; lia|].
  match goal with |- context [resynchronize ?x ?y] =>
    refine (resynchronize_idle x y _ _) end; cbn; [lia|]. rewrite zlen_cons, zlen_nil. lia.
Qed.

(** [TryResynchronize] ends a quarantine exactly in its window.  With room for
    two events and for one more discarded frame: after the quiescence deadline it
    fails and requires recovery; before the response horizon or before the line has
    been idle it fails and changes nothing but the clock; and in between, it
    succeeds and leaves the endpoint idle in the same generation, with no request
    in quarantine and an empty decoder. *)
Theorem resynchronize_window e now :
  reachable e -> ep_state e = RTUStateQuarantine -> ep_lastClock e <= now ->
  ep_nextSequence e + 2 <= MaxUint64 -> ep_discardedFrames e < MaxUint64 ->
  ep_quarantineDiscarded e < ep_maxDiscardedFrames e <= MaxUint64 ->
  let o := TryResynchronize e now in
  let e' := oc_endpoint o in
  if now >? ep_quiescenceDeadline e then
    oc_result o = Some RTUState /\ ep_state e' = RTUStateRecoveryRequired
  else if (now <? ep_latencyDeadline e) || (now <? ep_idleDeadline e) then
    oc_result o = Some RTUState /\ e' = clocked e now /\ oc_events o = []
  else
    oc_result o = None /\ ep_state e' = RTUStateIdle /\ ep_quarantined e' = None /\
    clean (ep_decoder e') /\ ep_generation e' = ep_generation e.
Proof.
  intros Hr Hs Hnow Hn Hd Hq o e'. subst o e'. apply reachable_wf in Hr as Hw.
  pose proof (wf_clock _ Hw) as Hclock.
  assert (Hw1 : wf (clocked e now)).
  { eapply wf_step; [apply S_clock; [lia|by intros _]|done]. }
  unfold TryResynchronize. rewrite (reentry_refused _ Hw), clock_accepted by lia.
  change (ep_state (clocked e now)) with (ep_state e). rewrite Hs.
  change (ep_quiescenceDeadline (clocked e now)) with (ep_quiescenceDeadline e).
  change (ep_latencyDeadline (clocked e now)) with (ep_latencyDeadline e).
  change (ep_idleDeadline (clocked e now)) with (ep_idleDeadline e).
  destruct (now >? _).
  - destruct (negb (canEmitLocked (clocked e now) 1)) eqn:Ee.
    { unfold canEmitLocked in Ee. cbn in Ee. bool_hyps. lia. }
    unfold emit. destruct (events_locked _ _) as [e2 evs] eqn:E2.
    match goal with |- context [dispatched ?a ?b ?c] =>
      destruct (dispatched_same a b c) as (-> & -> & _) end. split; [done|].
    match type of E2 with events_locked ?x ?s = _ =>
      destruct (events_locked_spec x s) as (evs' & E3 & _) end.
    { unfold fits. cbn. rewrite zlen_cons, zlen_nil. lia. }
    rewrite E3 in E2. by injection E2 as <- _.
  - destruct (_ || _); [done|]. apply (resynchronize_proved_idle (clocked e now)); done.
Qed.

Lemma resynchronize_window_witness :
  let o := TryResynchronize demo_quarantine 300000000 in
  oc_result o = None /\ ep_state (oc_endpoint o) = RTUStateIdle.
Proof.
  pose proof (resynchronize_window demo_quarantine 300000000) as H. cbv zeta in *.
  replace (300000000 >? ep_quiescenceDeadline demo_quarantine) with false in H by (by vm_compute).
  replace ((300000000 <? ep_latencyDeadline demo_quarantine)
           || (300000000 <? ep_idleDeadline demo_quarantine)) with false in H by (by vm_compute).
  destruct H as (H1 & H2 & _);
    [apply demo_reachable|by vm_compute|by vm_compute|by vm_compute|by vm_compute|by vm_compute|].
  split; [exact H1|exact H2].
Defined.

(** * Closing *)

(** The clock reading of an operation. *)
Definition op_now (op : rtu_op) : Z :=
  match op with
  | OpBeginRead now _ _ | OpBeginDeviceID now _ _ | OpTransmit now _ _ _ | OpTick now _
  | OpAbandon now _ _ | OpFeed now _ | OpEnd now _ _ | OpResynchronize now
  | OpFailQuiescence now | OpRecover now | OpClose now _ => now
  end.

(** Operations whose clock readings do not go back from [last] on. *)
Fixpoint steady (last : Z) (ops : list rtu_op) : Prop :=
  match ops with
  | [] => True
  | op :: ops => last <= op_now op /\ steady (op_now op) ops
  end.

(** An operation on a closed endpoint, under a steady clock, changes nothing but
    the clock, and gives no event. *)
Lemma closed_op e op :
  wf e -> ep_state e = RTUStateClosed -> ep_lastClock e <= op_now op ->
  apply_op e op = (e, []) \/ apply_op e op = (clocked e (op_now op), []).
Proof.
  intros Hw Hs Hn. pose proof (wf_clock _ Hw) as Hc. pose proof (wf_state _ Hw) as Hst.
  unfold state_ok in Hst. rewrite Hs in Hst.
  pose proof (reentry_refused _ Hw) as Hre.
  assert (Hnow : nowLocked e (op_now op) = (clocked e (op_now op), Ok (op_now op)))
    by (apply clock_accepted; lia).
  assert (Hexp : expireQuarantineLocked (clocked e (op_now op)) (op_now op)
    = (clocked e (op_now op), None)).
  { unfold expireQuarantineLocked. change (ep_state (clocked _ _)) with (ep_state e). by rewrite Hs. }
  destruct op; cbn [op_now] in *; cbn [apply_op].
  - left. unfold BeginRead, begin_request. rewrite Hre, Hs.
    destruct ctx; [done|]. destruct (EncodeRTUReadADU _ _); [|done].
    by destruct (invalid_read_plan _).
  - left. unfold BeginDeviceID, begin_request. rewrite Hre, Hs.
    destruct ctx; [done|]. destruct (EncodeRTUDeviceIDAccessADU _ _); [|done].
    by destruct (invalid_device_id_plan _).
  - left. unfold CompleteTransmit. rewrite Hre, Hst. done.
  - right. unfold Tick. rewrite Hre, Hnow. cbn. by rewrite Hs, Hst.
  - left. unfold Abandon. rewrite Hre, Hst. by destruct reason.
  - right. unfold EndpointFeedByte. rewrite Hre, Hnow, Hexp. cbn. by rewrite Hs.
  - right. unfold endFrame. rewrite Hre, Hnow, Hexp. cbn. by rewrite Hs.
  - right. unfold TryResynchronize. rewrite Hre, Hnow. cbn. by rewrite Hs.
  - left. unfold FailQuiescence. rewrite Hre, Hs. done.
  - left. unfold EndpointRecover. rewrite Hre, Hs. done.
  - left. unfold EndpointClose. rewrite Hre, Hs. done.
Qed.

(** Closing is final while the clock does not run backwards: whatever
    operations follow at readings that do not decrease, the endpoint stays closed,
    holds no request, keeps its generation and gives no further event. *)
Theorem closed_stays_closed e ops :
  reachable e -> ep_state e = RTUStateClosed -> steady (ep_lastClock e) ops ->
  let e' := fst (apply_ops e ops) in
  ep_state e' = RTUStateClosed /\ ep_current e' = None /\
  ep_generation e' = ep_generation e /\ snd (apply_ops e ops) = [].
Proof.
  intros Hr. apply reachable_wf in Hr as Hw. clear Hr. revert e Hw.
  induction ops as [|op ops IH]; intros e Hw Hs Hsteady.
  { cbn. pose proof (wf_state _ Hw) as Hst. unfold state_ok in Hst. by rewrite Hs in Hst. }
  destruct Hsteady as [Hn Hsteady]. pose proof (op_wf e op Hw) as Hw1. cbn [apply_ops].
  assert (Hsteady' : steady (ep_lastClock (fst (apply_op e op))) ops).
  { destruct (closed_op e op Hw Hs Hn) as [-> | ->]; cbn; [|done].
    destruct ops; cbn in *; [done|]. destruct Hsteady. split; [lia|done]. }
  assert (Hsame : ep_state (fst (apply_op e op)) = RTUStateClosed /\
    ep_generation (fst (apply_op e op)) = ep_generation e /\ snd (apply_op e op) = []).
  { destruct (closed_op e op Hw Hs Hn) as [-> | ->]; done. }
  destruct (apply_op e op) as [e1 evs]. cbn in Hw1, Hsteady', Hsame.
  destruct Hsame as (Hs1 & Hg1 & ->). specialize (IH e1 Hw1 Hs1 Hsteady').
  destruct (apply_ops e1 ops) as [e2 more]. cbn in IH |- *. by rewrite <- Hg1.
Qed.

(** An endpoint closed at 9000 with a request under way. *)
Definition demo_closed : endpoint :=
  fst (apply_ops demo_start (demo_written ++ [OpClose 9000 (demo_line (Some 1))])).

Lemma closed_stays_closed_witness :
  let ops := [OpTick 9000 false; OpFeed 9500 17; OpRecover 10000; OpBeginRead 11000 None demo_plan] in
  ep_state (fst (apply_ops demo_closed ops)) = RTUStateClosed /\
  snd (apply_ops demo_closed ops) = [].
Proof.
  intros ops. destruct (closed_stays_closed demo_closed ops) as (H1 & _ & _ & H2);
    [apply demo_reachable|by vm_compute|vm_compute; conj; done|].
  split; [exact H1|exact H2].
Defined.

Lemma recover_idle e now :
  ep_callback e = false -> ep_state e = RTUStateRecoveryRequired ->
  ep_generation e < MaxUint64 -> 0 <= ep_lastClock e <= now -> ep_nextSequence e + 2 <= MaxUint64 ->
  0 <= ep_eventSinkPanics e <= MaxUint64 ->
  let o := EndpointRecover e now in
  oc_result o = None /\ ep_state (oc_endpoint o) = RTUStateIdle /\
  ep_generation (oc_endpoint o) = ep_generation e + 1.
Proof.
  intros Hb Hs Hg Hc Hn Hp o. subst o. unfold EndpointRecover, beginEventOperation.
  rewrite Hb, Hs, bool_decide_eq_true_2 by done. cbn [negb orb].
  test_false (ep_generation e =? MaxUint64). rewrite clock_accepted by done.
  destruct (negb (canEmitLocked _ _)) eqn:Ee.
  { unfold canEmitLocked in Ee. cbn in Ee. case_test; bool_hyps; lia. }
  change (ep_pendingRecovery (clocked e now)) with (ep_pendingRecovery e).
  destruct (bool_decide _); cbn [negb].
  - match goal with |- context [events_locked ?x ?s] =>
      destruct (events_locked_spec x s) as (evs & -> & _) end.
    { unfold fits. cbn. rewrite zlen_cons, zlen_nil. lia. }
    match goal with |- context [dispatched ?a ?b ?c] =>
      destruct (dispatched_spec a b c) as (p & -> & _) end; [done|]. done.
  - match goal with |- context [events_locked (clocked e now) ?s] =>
      destruct (events_locked_spec (clocked e now) s) as (evs & -> & _) end.
    { unfold fits. cbn. rewrite zlen_cons, zlen_nil. lia. }
    match goal with |- context [events_locked ?x ?s] =>
      destruct (events_locked_spec x s) as (evs' & -> & _) end.
    { unfold fits. cbn. rewrite !zlen_cons, !zlen_nil. lia. }
    match goal with |- context [dispatched ?a ?b ?c] =>
      destruct (dispatched_spec a b c) as (p & -> & _) end; [done|]. done.
Qed.

(** C35: A clock that runs backwards reopens a closed endpoint: [Tick] reads the
    clock before it looks at the state, so one reading behind the last requires
    recovery even of a closed endpoint, and [Recover] then makes it idle in a new
    generation, although [Close] has given its line back. *)
Theorem regression_reopens_closed e now later :
  reachable e -> ep_state e = RTUStateClosed -> ep_haveClock e = true ->
  now < ep_lastClock e -> ep_lastClock e <= later ->
  ep_nextSequence e + 2 <= MaxUint64 -> ep_generation e < MaxUint64 ->
  let e' := fst (apply_ops e [OpTick now false; OpRecover later]) in
  ep_state e' = RTUStateIdle /\ ep_generation e' = ep_generation e + 1.
Proof.
  intros Hr Hs Hh Hnow Hlater Hn Hg. apply reachable_wf in Hr as Hw.
  pose proof (wf_clock _ Hw) as Hc. cbn [apply_ops apply_op].
  assert (Ht : exists d, oc_endpoint (Tick e now false)
    = e <| ep_state := RTUStateRecoveryRequired |> <| ep_pendingRecovery := d |>
        <| ep_current := None |> <| ep_quarantined := None |>).
  { unfold Tick, nowLocked. rewrite (reentry_refused _ Hw), Hh.
    rewrite (proj2 (Z.ltb_lt now (ep_lastClock e))) by lia.
    rewrite andb_true_r, orb_true_r. cbn -[requireRecoveryLocked].
    destruct (require_recovery_shape e "clock_regression") as (d & ->). by exists d. }
  destruct Ht as (d & ->).
  set (e1 := (e <| ep_state := RTUStateRecoveryRequired |> <| ep_pendingRecovery := d |>
               <| ep_current := None |> <| ep_quarantined := None |>) : endpoint).
  assert (Hrec : ep_state (oc_endpoint (EndpointRecover e1 later)) = RTUStateIdle /\
    ep_generation (oc_endpoint (EndpointRecover e1 later)) = ep_generation e + 1).
  2: { exact Hrec. }
  pose proof (wf_counters _ Hw) as Hcnt. unfold counters_ok in Hcnt.
  destruct (recover_idle e1 later) as (_ & H1 & H2); [apply Hw|done|cbn; lia..|by split].
Qed.

Lemma regression_reopens_closed_witness :
  let line := snd (EndpointClose demo_start 9000 (demo_line (Some 1))) in
  let e := fst (apply_ops demo_closed [OpTick 8000 false; OpRecover 9000]) in
  fl_owner (fst (NewRTUFixtureEndpoint 2 line demo_fixture)) = Some 2 /\ ep_self e = 1 /\ ep_state e = RTUStateIdle /\
  admits_at e (OpBeginRead 10000 None demo_plan) = Some 10000.
Proof.
  intros line e. destruct (regression_reopens_closed demo_closed 8000 9000) as [H _];
    [apply demo_reachable|by vm_compute..|].
  conj; [by vm_compute|by vm_compute|exact H|by vm_compute].
Defined.

(** * A response in time is delivered *)

(** Feeding bytes to an endpoint that awaits a response feeds its decoder. *)
Lemma feed_waiting e r now value :
  wf e -> ep_state e = RTUStateResponseWait -> ep_current e = Some r -> ep_lastClock e <= now ->
  let e' := fst (apply_op e (OpFeed now value)) in
  ep_state e' = RTUStateResponseWait /\ ep_current e' = Some r /\ ep_lastClock e' = now /\
  ep_decoder e' = fst (FeedByte (ep_decoder e) now value) /\ ep_timing e' = ep_timing e /\
  ep_nextSequence e' = ep_nextSequence e /\
  ep_nextWireResponseID e' = ep_nextWireResponseID e.
Proof.
  intros Hw Hs Hr Hn. pose proof (wf_clock _ Hw). cbn [apply_op fst].
  unfold EndpointFeedByte. rewrite (reentry_refused _ Hw), clock_accepted by lia.
  unfold expireQuarantineLocked. change (ep_state (clocked e now)) with (ep_state e).
  rewrite Hs. rewrite bool_decide_eq_false_2 by done. cbn [negb orb].
  change (ep_state (clocked e now)) with (ep_state e). rewrite Hs. unfold feed_decoder.
  change (ep_decoder (observe (clocked e now) now)) with (ep_decoder e).
  destruct (FeedByte _ _ _) as [d err]. conj; done.
Qed.

Lemma feeds_waiting input e r d :
  wf e -> ep_state e = RTUStateResponseWait -> ep_current e = Some r ->
  Sorted Z.le (ep_lastClock e :: (fst <$> input)) -> feed_bytes (ep_decoder e) input = (d, None) ->
  let e' := fst (apply_ops e ((fun p => OpFeed (fst p) (snd p)) <$> input)) in
  ep_state e' = RTUStateResponseWait /\ ep_current e' = Some r /\
  ep_lastClock e' = List.last (fst <$> input) (ep_lastClock e) /\
  ep_decoder e' = d /\ ep_timing e' = ep_timing e /\
  ep_nextSequence e' = ep_nextSequence e /\ ep_nextWireResponseID e' = ep_nextWireResponseID e.
Proof.
  revert e. induction input as [|[t v] input IH]; intros e Hw Hs Hr Hsort Hf.
  { injection Hf as <-. done. }
  cbn [fmap list_fmap apply_ops fst snd]. apply Sorted_inv in Hsort as [Hsort Hrel].
  apply HdRel_inv in Hrel. cbn in Hrel.
  pose proof (op_wf e (OpFeed t v) Hw) as Hw1.
  destruct (feed_waiting e r t v Hw Hs Hr Hrel) as (Hs1 & Hr1 & Hl1 & Hd1 & Ht1 & Hn1 & Hi1).
  cbn [feed_bytes] in Hf. destruct (apply_op e (OpFeed t v)) as [e1 evs]. cbn [fst] in *.
  destruct (FeedByte _ t v) as [d1 [err|]]; [done|]. cbn [fst] in Hd1. subst d1.
  destruct (IH e1) as (? & ? & Hl & ? & ? & ? & ?); [done|done|done|by rewrite Hl1|done|].
  destruct (apply_ops e1 _) as [e2 more]. cbn [fst] in *. rewrite last_default, <- Hl1.
  conj; congruence.
Qed.

Lemma paced_sorted gap x l : paced gap x l -> Sorted Z.le (x :: l).
Proof.
  revert x. induction l as [|y l IH]; intros x; cbn [paced]; [by constructor|].
  intros [? Hp]. constructor; [by apply IH|]. constructor. lia.
Qed.

(** The encoding of a read response answers the request. *)
Lemma answer_is_candidate r pdu frame response :
  rq_deviceID r = None -> encodeRTUADU (pl_UnitID (rq_plan r)) pdu = Ok frame ->
  DecodeReadRegistersResponse (pl_Request (rq_plan r)) pdu = Ok response ->
  is_candidate r frame = true.
Proof.
  intros Hd. unfold encodeRTUADU. repeat (case_test; [done|]). intros [= <-].
  unfold DecodeReadRegistersResponse. destruct (validateReadRegistersRequest _); [done|].
  case_test; [done|]. destruct pdu as [|f rest]; [done|].
  change ((f :: rest) !!! 0%nat) with f. cbv zeta. case_test; [by case_test|].
  destruct (f =? rr_function _) eqn:Ef; [|done]. intros _. bool_hyps.
  unfold is_candidate, frame_unit, frame_function, request_function. cbn. rewrite Hd, Ef.
  by rewrite !Z.eqb_refl.
Qed.

Lemma encode_rtu_unit unit pdu frame : encodeRTUADU unit pdu = Ok frame -> 1 <= unit <= 247 \/ unit < 0.
Proof. unfold encodeRTUADU. case_test; [done|]. bool_hyps. lia. Qed.

(** What [decode_owned] makes of such an encoding. *)
Lemma decode_owned_answer r pdu frame response :
  0 <= pl_UnitID (rq_plan r) -> rq_deviceID r = None -> Forall u8 pdu ->
  encodeRTUADU (pl_UnitID (rq_plan r)) pdu = Ok frame ->
  DecodeReadRegistersResponse (pl_Request (rq_plan r)) pdu = Ok response ->
  decode_owned r frame = (frame, Some response, None, None).
Proof.
  intros Hu Hd Hp He Hr. unfold decode_owned. rewrite Hd.
  pose proof (encode_rtu_unit _ _ _ He).
  assert (Hf : Forall u8 frame) by (apply encode_rtu_ok in He as [? _]; [done|unfold u8; lia|done]).
  assert (E : DecodeRTUReadResponseADU (pl_UnitID (rq_plan r)) (pl_Request (rq_plan r)) frame
    = ({| rra_adu := {| ru_unitID := pl_UnitID (rq_plan r); ru_pdu := pdu; ru_raw := frame |};
          rra_response := Some response |}, None)).
  { apply rtu_read_response_iff; [lia|done|]. by exists pdu. }
  by rewrite E.
Qed.

Lemma checked_add_fits a b :
  0 <= a -> 0 <= b -> a + b <= MaxInt64 -> checkedRTUOffsetAdd a b = Some (a + b).
Proof.
  intros. unfold checkedRTUOffsetAdd. else_branch; [done|]. bool_goal; lia.
Qed.

(** [EndFrame] on an endpoint whose decoder completes such an encoding. *)
Lemma end_frame_delivers e r pdu frame response d finish :
  wf e -> ep_state e = RTUStateResponseWait -> ep_current e = Some r -> ep_lastClock e <= finish ->
  0 <= pl_UnitID (rq_plan r) -> rq_deviceID r = None -> Forall u8 pdu ->
  encodeRTUADU (pl_UnitID (rq_plan r)) pdu = Ok frame ->
  DecodeReadRegistersResponse (pl_Request (rq_plan r)) pdu = Ok response ->
  EndFrame (ep_decoder e) finish
    = (d, ({| ru_unitID := pl_UnitID (rq_plan r); ru_pdu := pdu; ru_raw := frame |}, None)) ->
  finish < rq_deadline r -> finish + rt_interFrame (ep_timing e) <= MaxInt64 ->
  ep_nextSequence e < MaxUint64 -> ep_nextWireResponseID e < MaxUint64 ->
  let o := EndpointEndFrame e finish false in
  snd (oc_result o) = None /\ qr_deliverable (fst (oc_result o)) = true /\
  qr_response (fst (oc_result o)) = Some response /\
  (fun v => (lv_logicalViewID v, lv_words v)) <$> qr_logical (fst (oc_result o))
    = Some (pl_LogicalViewID (rq_plan r), rs_Words response) /\
  ep_state (oc_endpoint o) = RTUStateInterFrameGuard /\ ep_current (oc_endpoint o) = None.
Proof.
  intros Hw Hs Hr Hl Hu Hd Hp He Hresp Hend Hdead Hmax Hseq Hwire. cbv zeta.
  pose proof (wf_clock _ Hw) as Hclock. pose proof (wf_timing _ Hw) as Ht. unfold timing_ok in Ht.
  pose proof (wf_counters _ Hw) as Hcnt. unfold counters_ok in Hcnt.
  unfold EndpointEndFrame, endFrame. rewrite (reentry_refused _ Hw), clock_accepted by lia.
  unfold expireQuarantineLocked. change (ep_state (clocked e finish)) with (ep_state e).
  rewrite Hs, bool_decide_eq_false_2 by done. cbn [negb orb].
  change (ep_state (clocked e finish)) with (ep_state e). rewrite Hs. unfold end_response.
  change (ep_current (clocked e finish)) with (ep_current e).
  change (ep_decoder (clocked e finish)) with (ep_decoder e). rewrite Hr, Hend.
  assert (Hk : request_kind r = requestRead) by (unfold request_kind; by rewrite Hd).
  rewrite Hk, bool_decide_eq_true_2, bool_decide_eq_false_2 by auto. cbn [negb andb orb ru_raw].
  test_false (finish >=? rq_deadline r). unfold receiveFrameLocked.
  rewrite (decode_owned_answer r pdu frame response), (answer_is_candidate r pdu frame response)
    by done. cbn [negb]. unfold receive_candidate.
  set (e1 := (clocked e finish) <| ep_decoder := d |>).
  change (ep_timing e1) with (ep_timing e). rewrite checked_add_fits by lia.
  change (ep_nextWireResponseID e1) with (ep_nextWireResponseID e).
  destruct (negb (canEmitLocked e1 1)) eqn:Ee.
  { unfold canEmitLocked in Ee. cbn in Ee. bool_hyps. lia. }
  test_false ((ep_nextWireResponseID e =? 0) || (ep_nextWireResponseID e =? MaxUint64)).
  cbv zeta. rewrite (bool_decide_eq_true_2 (rq_deviceID r = None)) by done.
  match goal with |- context [eventLocked ?x ?k ?i ?u ?t ?d] =>
    destruct (event_locked_spec x k i u t d) as (ev & -> & _) end; [exact Hseq|].
  match goal with |- context [dispatched ?a ?b ?c] =>
    destruct (dispatched_same a b c) as (-> & -> & ->) end. conj; done.
Qed.

Lemma zip_feeds offsets frame :
  zip_with OpFeed offsets frame = (fun p => OpFeed (fst p) (snd p)) <$> zip offsets frame.
Proof. revert frame. induction offsets; intros []; cbn; congruence. Qed.

(** C34: An answer in time is delivered: while a read is awaited and nothing of an
    answer has come, the bytes of the encoding, for the unit of the request, of any
    response to it, fed no further apart than t1.5 and followed by [EndFrame] after
    t3.5 of silence and before the deadline, give the caller the decoded response
    and its words as the logical view of the plan, without an error; the request is
    over and the line is guarded. *)
Theorem response_in_time_delivered e r pdu frame response first offsets finish :
  reachable e -> ep_state e = RTUStateResponseWait -> ep_current e = Some r ->
  rq_deviceID r = None -> clean (ep_decoder e) ->
  0 <= pl_UnitID (rq_plan r) -> Forall u8 pdu -> encodeRTUADU (pl_UnitID (rq_plan r)) pdu = Ok frame ->
  DecodeReadRegistersResponse (pl_Request (rq_plan r)) pdu = Ok response ->
  length frame = S (length offsets) -> ep_lastClock e <= first ->
  paced (rt_interCharacter (ep_timing e)) first offsets ->
  List.last offsets first + rt_interFrame (ep_timing e) <= finish -> finish < rq_deadline r ->
  finish + rt_interFrame (ep_timing e) <= MaxInt64 ->
  ep_nextSequence e < MaxUint64 -> ep_nextWireResponseID e < MaxUint64 ->
  let e' := fst (apply_ops e (zip_with OpFeed (first :: offsets) frame)) in
  let o := EndpointEndFrame e' finish false in
  snd (oc_result o) = None /\ qr_deliverable (fst (oc_result o)) = true /\
  qr_response (fst (oc_result o)) = Some response /\
  (fun v => (lv_logicalViewID v, lv_words v)) <$> qr_logical (fst (oc_result o))
    = Some (pl_LogicalViewID (rq_plan r), rs_Words response) /\
  ep_state (oc_endpoint o) = RTUStateInterFrameGuard /\ ep_current (oc_endpoint o) = None.
Proof.
  intros Hreach Hs Hr Hdev (Hb & Hh & Hp & _) Hpos Hu Henc Hdec Hlen Hfirst Hpaced Hsil Hdead
    Hmax Hseq Hwire.
  apply reachable_wf in Hreach as Hw. pose proof (wf_clock _ Hw) as Hclock.
  pose proof (wf_timing _ Hw) as Ht. unfold timing_ok in Ht.
  pose proof (wf_decoder _ Hw) as Htd.
  pose proof (encode_rtu_unit _ _ _ Henc) as Hunit.
  destruct (frame_assembled (ep_decoder e) (pl_UnitID (rq_plan r)) pdu frame first offsets finish)
    as (d & Hfeed & Hend); rewrite ?Htd; try done; try (unfold u8; lia).
  replace (zip_with OpFeed (first :: offsets) frame)
    with ((fun p => OpFeed (fst p) (snd p)) <$> zip (first :: offsets) frame)
    by (symmetry; apply zip_feeds).
  destruct (feeds_waiting (zip (first :: offsets) frame) e r d)
    as (Hs1 & Hr1 & Hl1 & Hd1 & Ht1 & Hn1 & Hi1); try done.
  { rewrite fst_zip by (cbn; lia). apply paced_sorted in Hpaced. by constructor; [|constructor]. }
  rewrite fst_zip, last_default in Hl1 by (cbn; lia).
  pose proof (ops_wf e ((fun p => OpFeed (fst p) (snd p)) <$> zip (first :: offsets) frame) Hw) as Hw1.
  destruct (apply_ops e _) as [e1 evs]. cbn [fst] in *. subst d.
  eapply end_frame_delivers; try done; try congruence; lia.
Qed.

(** The demonstration request as the endpoint holds it. *)
Definition demo_owned : rtuOwnedRequest :=
  {| rq_handle := demo_handle; rq_plan := demo_plan; rq_deviceID := None;
     rq_frame := [17; 3; 0; 6; 0; 1; 102; 155]; rq_writeInvocation := 1000;
     rq_deadline := 200001000; rq_transmitCompletion := 5000 |}.

Lemma response_in_time_delivered_witness :
  let e := fst (apply_ops demo_start demo_written) in
  let o := EndpointEndFrame (fst (apply_ops e demo_answer)) 5000000 false in
  snd (oc_result o) = None /\ lv_words <$> qr_logical (fst (oc_result o)) = Some [0x0102].
Proof.
  intros e o. split; [|by vm_compute].
  refine (proj1 (response_in_time_delivered e demo_owned [3; 2; 1; 2] [17; 3; 2; 1; 2; 249; 214]
    {| rs_Words := [0x0102];
       rs_Provenance := {| rp_Function := 3; rp_Table := HoldingRegisters; rp_Offset := 6;
                           rp_Quantity := 1 |} |}
    10000 [11000; 12000; 13000; 14000; 15000; 16000] 5000000 (demo_reachable demo_written)
    _ _ _ _ _ _ _ _ _ _ _ _ _ _ _ _)).
  all: try (vm_compute; reflexivity). all: try (vm_compute; discriminate).
  - vm_compute. conj; done.
  - solve_bytes.
  - vm_compute. conj; done.
Defined.
