(* ===== verification/RuntimeAcquisition.v ===== *)
(** Runtime acquisition (runtime_acquisition.go): the bounded trust root that
    issues one-shot capabilities for successful logical views.  A source opens
    attempts, issues capabilities into them, freezes their membership, lets each
    capability be claimed once, and records every end in a bounded list of
    tombstones that survives a restart.

    Sources, attempt tokens, capability tokens and view eligibilities are heap
    objects shared by several handles: the state is a store [runtime] of them,
    indexed by address, and an operation is given the address of its receiver (an
    address without an object stands for nil).  An attempt state and a capability
    state are only reached through the maps of their source.  The clock is injected
    code: its reading is the argument [now].  Every operation runs under the mutex
    of its source, apart from the exchange that makes a view [runtimeViewIssuing],
    after which no other call touches the view; the hooks that tests set are left
    out. *)

From S2P Require Import Prelude Json Pdu DeviceId DeviceIdTolerant TcpAdu TcpOwner Coalescing.

(** * Errors and limits *)

Inductive RuntimeAcquisitionError : Type :=
| ErrRuntimeAcquisitionUnavailable
| ErrRuntimeAcquisitionCapacity
| ErrRuntimeTerminalSequenceExhausted
| ErrRuntimeAttemptClosed
| ErrRuntimeAttemptMembership
| ErrRuntimeNormalization
| ErrOpaqueRuntimeState.

Abbreviation aresult := (result RuntimeAcquisitionError).

Definition maxRuntimeCapabilities : Z := Z.shiftl 1 16.
Definition maxRuntimeAttempts : Z := Z.shiftl 1 16.
Definition maxRuntimeMembersPerAttempt : Z := maxCoalescedDependents.
Definition maxRuntimeNormalizationBytes : Z := Z.shiftl 4 20.
Definition maxRuntimeNormalizationItems : Z := Z.shiftl 1 12.
Definition maxRuntimeStringBytes : Z := Z.shiftl 1 20.
Definition maxRuntimeTombstones : Z := Z.shiftl 1 16.

Record RuntimeAcquisitionLimits : Type := mkRuntimeAcquisitionLimits {
  al_MaxLiveCapabilities : Z;
  al_MaxAttempts : Z;
  al_MaxMembersPerAttempt : Z;
  al_AttemptKeyMaxUTF8Bytes : Z;
  al_SourceEvidenceIDMaxUTF8Bytes : Z;
  al_NormalizationRecordMaxEncodedBytes : Z;
  al_NormalizationRequiredStringMaxUTF8Bytes : Z;
  al_NormalizationExtensionCountMax : Z;
  al_NormalizationExtensionKeyMaxUTF8Bytes : Z;
  al_NormalizationExtensionValueMaxEncodedBytes : Z;
  al_RetainedDiagnosticCountPerObjectMax : Z;
  al_RetainedDiagnosticMaxUTF8Bytes : Z;
  al_CapabilityTombstoneLimit : Z;
  al_CapabilityTombstoneMaxEncodedBytes : Z
}.

(** A string constant of the enumeration, or another string. *)
Inductive RuntimeCapabilityTerminalOutcome : Type :=
| RuntimeCapabilityClaimed
| RuntimeCapabilityCancelled
| RuntimeCapabilityFailed
| RuntimeCapabilityExpired
| RuntimeCapabilityOther (name : string).

#[export] Instance terminal_outcome_eq_dec : EqDecision RuntimeCapabilityTerminalOutcome.
Proof. solve_decision. Defined.

Record RuntimeCapabilityTombstone : Type := mkRuntimeCapabilityTombstone {
  tb_SchemaVersion : Z;
  tb_TerminalSequence : Z;
  tb_TerminalOutcome : RuntimeCapabilityTerminalOutcome
}.

Record RuntimeAcquisitionRestartState : Type := mkRuntimeAcquisitionRestartState {
  re_SchemaVersion : Z;
  re_NextTerminalSequence : Z;
  re_SequenceExhausted : bool;
  re_Tombstones : list RuntimeCapabilityTombstone
}.

(** The clock is [None] for nil, and otherwise its reading. *)
Record RuntimeAcquisitionConfig : Type := mkRuntimeAcquisitionConfig {
  ac_Limits : RuntimeAcquisitionLimits;
  ac_ClaimLifetime : Z;
  ac_Clock : option Z;
  ac_Restart : option RuntimeAcquisitionRestartState
}.

(** * The store *)

Inductive runtimeAttemptPhase : Type :=
| runtimeAttemptOpen
| runtimeAttemptClosing
| runtimeAttemptClosed.

#[export] Instance attempt_phase_eq_dec : EqDecision runtimeAttemptPhase.
Proof. solve_decision. Defined.

(** The [outcome] of a token is the code its atomic holds. *)
Record runtimeCapabilityToken : Type := mkRuntimeCapabilityToken {
  ct_source : option Z;
  ct_attempt : Z;
  ct_ordinal : Z;
  ct_outcome : Z
}.

Record runtimeAttemptState : Type := mkRuntimeAttemptState {
  as_token : Z;
  as_key : string;
  as_phase : runtimeAttemptPhase;
  as_registered : gmap Z Z;
  as_members : list Z
}.

Record runtimeCapabilityState : Type := mkRuntimeCapabilityState {
  cs_token : Z;
  cs_attempt : Z;
  cs_terminalSequence : Z;
  cs_claimDeadline : Z
}.

Inductive runtimeViewState : Type :=
| runtimeViewAvailable
| runtimeViewIssuing
| runtimeViewIssued
| runtimeViewRejected.

#[export] Instance view_state_eq_dec : EqDecision runtimeViewState.
Proof. solve_decision. Defined.

Record runtimeViewEligibility : Type := mkRuntimeViewEligibility {
  ve_source : Z;
  ve_state : runtimeViewState
}.

Record RuntimeAcquisitionSource : Type := mkRuntimeAcquisitionSource {
  sc_limits : RuntimeAcquisitionLimits;
  sc_claimLifetime : Z;
  sc_attempts : gmap Z runtimeAttemptState;
  sc_drainedAttempts : gset Z;
  sc_live : gmap Z runtimeCapabilityState;
  sc_tombstones : list RuntimeCapabilityTombstone;
  sc_nextTerminalSequence : Z;
  sc_sequenceExhausted : bool;
  sc_retired : bool
}.

(** [rw_attempts] holds the [source] of every attempt token. *)
Record runtime : Type := mkRuntime {
  rw_next : Z;
  rw_sources : gmap Z RuntimeAcquisitionSource;
  rw_attempts : gmap Z (option Z);
  rw_capabilities : gmap Z runtimeCapabilityToken;
  rw_views : gmap Z runtimeViewEligibility
}.

#[export] Instance capability_token_fields : Fields runtimeCapabilityToken := fun t =>
  mkRuntimeCapabilityToken (ct_source t) (ct_attempt t) (ct_ordinal t) (ct_outcome t).
#[export] Instance attempt_state_fields : Fields runtimeAttemptState := fun s =>
  mkRuntimeAttemptState (as_token s) (as_key s) (as_phase s) (as_registered s) (as_members s).
#[export] Instance view_eligibility_fields : Fields runtimeViewEligibility := fun v =>
  mkRuntimeViewEligibility (ve_source v) (ve_state v).
#[export] Instance acquisition_source_fields : Fields RuntimeAcquisitionSource := fun s =>
  mkRuntimeAcquisitionSource (sc_limits s) (sc_claimLifetime s) (sc_attempts s)
    (sc_drainedAttempts s) (sc_live s) (sc_tombstones s) (sc_nextTerminalSequence s)
    (sc_sequenceExhausted s) (sc_retired s).
#[export] Instance runtime_fields : Fields runtime := fun w =>
  mkRuntime (rw_next w) (rw_sources w) (rw_attempts w) (rw_capabilities w) (rw_views w).

Definition set_source (w : runtime) (a : Z) (s : RuntimeAcquisitionSource) : runtime :=
  w <| rw_sources := <[a := s]> (rw_sources w) |>.

(** * Strings *)

Definition string_bytes (s : string) : list Z :=
  (fun c => Z.of_nat (Ascii.nat_of_ascii c)) <$> String.list_ascii_of_string s.

Definition slen (s : string) : Z := Z.of_nat (String.length s).

Definition ValidString (s : string) : bool := utf8_valid (string_bytes s).

(** The decimal digits of a number below [10 ^ fuel]. *)
Fixpoint decimal_digits (fuel : nat) (n : Z) : string :=
  match fuel with
  | O => ""
  | S fuel =>
      let digit := String (Ascii.ascii_of_nat (Z.to_nat (48 + n mod 10))) EmptyString in
      if n <? 10 then digit else (decimal_digits fuel (n / 10) ++ digit)%string
  end.

(** Twenty digits are enough for a [uint64]. *)
Definition decimal (n : Z) : string := decimal_digits 20 n.

Definition quoted (s : string) : string :=
  (String (Ascii.ascii_of_nat 34) s ++ String (Ascii.ascii_of_nat 34) EmptyString)%string.

Definition outcome_string (outcome : RuntimeCapabilityTerminalOutcome) : string :=
  match outcome with
  | RuntimeCapabilityClaimed => "claimed"
  | RuntimeCapabilityCancelled => "cancelled"
  | RuntimeCapabilityFailed => "failed"
  | RuntimeCapabilityExpired => "expired"
  | RuntimeCapabilityOther name => name
  end.

(** [json.Marshal] of a tombstone whose outcome needs no escape. *)
Definition tombstone_json (t : RuntimeCapabilityTombstone) : string :=
  ("{" ++ quoted "schema_version" ++ ":" ++ decimal (tb_SchemaVersion t) ++ ","
   ++ quoted "terminal_sequence" ++ ":" ++ decimal (tb_TerminalSequence t) ++ ","
   ++ quoted "terminal_outcome" ++ ":" ++ quoted (outcome_string (tb_TerminalOutcome t)) ++ "}")%string.

(** * Configuration *)

Definition checkedRuntimeAdd (first second : Z) : option Z :=
  if (first <? 0) || (second <? 0) || (first >? MaxInt - second) then None
  else Some (first + second).

Definition checkedRuntimeMultiply (first second : Z) : option Z :=
  if (first <? 0) || (second <? 0)
     || (negb (first =? 0) && (second >? MaxInt / first)) then None
  else Some (first * second).

Definition validRuntimeTerminalOutcome (outcome : RuntimeCapabilityTerminalOutcome) : bool :=
  match outcome with
  | RuntimeCapabilityOther _ => false
  | _ => true
  end.

Definition validRuntimeTombstone (t : RuntimeCapabilityTombstone) : bool :=
  (tb_SchemaVersion t =? 1) && negb (tb_TerminalSequence t =? 0)
  && validRuntimeTerminalOutcome (tb_TerminalOutcome t).

(** The loop of [validateRuntimeRestart]: the last sequence, if every tombstone is
    valid, later than the one before and short enough. *)
Fixpoint check_tombstones (limits : RuntimeAcquisitionLimits) (first : bool) (previous : Z)
    (tombstones : list RuntimeCapabilityTombstone) : option Z :=
  match tombstones with
  | [] => Some previous
  | t :: tombstones =>
      if negb (validRuntimeTombstone t) || (negb first && (tb_TerminalSequence t <=? previous))
      then None
      else if slen (tombstone_json t) >? al_CapabilityTombstoneMaxEncodedBytes limits then None
      else check_tombstones limits false (tb_TerminalSequence t) tombstones
  end.

Definition validateRuntimeRestart (restart : option RuntimeAcquisitionRestartState)
    (limits : RuntimeAcquisitionLimits) : option RuntimeAcquisitionError :=
  match restart with
  | None => None
  | Some restart =>
      if negb (re_SchemaVersion restart =? 1)
         || (zlen (re_Tombstones restart) >? al_CapabilityTombstoneLimit limits)
         || (re_SequenceExhausted restart && negb (re_NextTerminalSequence restart =? 0))
         || (negb (re_SequenceExhausted restart) && (re_NextTerminalSequence restart =? 0))
      then Some ErrRuntimeAcquisitionUnavailable
      else
        match check_tombstones limits true 0 (re_Tombstones restart) with
        | None => Some ErrRuntimeAcquisitionUnavailable
        | Some previous =>
            if negb (re_SequenceExhausted restart)
               && (previous >=? re_NextTerminalSequence restart) then
              Some ErrRuntimeAcquisitionUnavailable
            else None
        end
  end.

(** The table of [validateRuntimeAcquisitionConfig]: a value and its maximum. *)
Definition positive_bounded (limits : RuntimeAcquisitionLimits) : list (Z * Z) :=
  [ (al_MaxLiveCapabilities limits, maxRuntimeCapabilities);
    (al_MaxAttempts limits, maxRuntimeAttempts);
    (al_MaxMembersPerAttempt limits, maxRuntimeMembersPerAttempt);
    (al_AttemptKeyMaxUTF8Bytes limits, maxRuntimeStringBytes);
    (al_SourceEvidenceIDMaxUTF8Bytes limits, maxRuntimeStringBytes);
    (al_NormalizationRecordMaxEncodedBytes limits, maxRuntimeNormalizationBytes);
    (al_NormalizationRequiredStringMaxUTF8Bytes limits, maxRuntimeStringBytes);
    (al_NormalizationExtensionCountMax limits, maxRuntimeNormalizationItems);
    (al_NormalizationExtensionKeyMaxUTF8Bytes limits, maxRuntimeStringBytes);
    (al_NormalizationExtensionValueMaxEncodedBytes limits, maxRuntimeNormalizationBytes);
    (al_RetainedDiagnosticCountPerObjectMax limits, maxRuntimeNormalizationItems);
    (al_RetainedDiagnosticMaxUTF8Bytes limits, maxRuntimeStringBytes);
    (al_CapabilityTombstoneLimit limits, maxRuntimeTombstones);
    (al_CapabilityTombstoneMaxEncodedBytes limits, maxRuntimeNormalizationBytes) ].

(** The names of [runtimeNormalizationRequiredFields]. *)
Definition runtimeNormalizationRequiredFields : list string :=
  [ "schema_version"; "source_kind"; "source_evidence_id"; "documentary_notation";
    "documentary_address"; "documentary_address_base"; "function_code"; "logical_table";
    "normalized_zero_based_pdu_offset"; "word_count" ]%string.

Definition largest_tombstone : RuntimeCapabilityTombstone :=
  {| tb_SchemaVersion := 1; tb_TerminalSequence := MaxUint64;
     tb_TerminalOutcome := RuntimeCapabilityCancelled |}.

Definition validateRuntimeAcquisitionConfig (config : RuntimeAcquisitionConfig)
    : option RuntimeAcquisitionError :=
  let limits := ac_Limits config in
  if existsb (fun '(value, max) => (value <=? 0) || (value >? max)) (positive_bounded limits) then
    Some ErrRuntimeAcquisitionUnavailable
  else if (al_MaxMembersPerAttempt limits >? al_MaxLiveCapabilities limits)
          || match ac_Clock config with None => true | Some _ => false end
          || (ac_ClaimLifetime config <=? 0)
          || (default 0 (ac_Clock config) <? 0) then
    Some ErrRuntimeAcquisitionUnavailable
  else
    match checkedRuntimeAdd (al_NormalizationExtensionKeyMaxUTF8Bytes limits)
            (al_NormalizationExtensionValueMaxEncodedBytes limits) with
    | None => Some ErrRuntimeAcquisitionUnavailable
    | Some keyAndValue =>
        match checkedRuntimeAdd (zlen runtimeNormalizationRequiredFields)
                (al_NormalizationExtensionCountMax limits) with
        | None => Some ErrRuntimeAcquisitionUnavailable
        | Some _ =>
            match checkedRuntimeMultiply (al_NormalizationExtensionCountMax limits)
                    keyAndValue with
            | None => Some ErrRuntimeAcquisitionUnavailable
            | Some _ =>
                if slen (tombstone_json largest_tombstone)
                   >? al_CapabilityTombstoneMaxEncodedBytes limits then
                  Some ErrRuntimeAcquisitionUnavailable
                else validateRuntimeRestart (ac_Restart config) limits
            end
        end
    end.

(** The source is a new object: its address and the store that holds it. *)
Definition NewRuntimeAcquisitionSource (w : runtime) (config : RuntimeAcquisitionConfig)
    : runtime * aresult Z :=
  match validateRuntimeAcquisitionConfig config with
  | Some err => (w, Err err)
  | None =>
      let a := rw_next w in
      let source :=
        {| sc_limits := ac_Limits config; sc_claimLifetime := ac_ClaimLifetime config;
           sc_attempts := ∅; sc_drainedAttempts := ∅; sc_live := ∅;
           sc_tombstones :=
             match ac_Restart config with Some r => re_Tombstones r | None => [] end;
           sc_nextTerminalSequence :=
             match ac_Restart config with Some r => re_NextTerminalSequence r | None => 1 end;
           sc_sequenceExhausted :=
             match ac_Restart config with Some r => re_SequenceExhausted r | None => false end;
           sc_retired := false |} in
      ((set_source w a source) <| rw_next := a + 1 |>, Ok a)
  end.

(** * Outcomes, tombstones and reclamation *)

Definition runtimeOutcomeCode (outcome : RuntimeCapabilityTerminalOutcome) : Z :=
  match outcome with
  | RuntimeCapabilityClaimed => 1
  | RuntimeCapabilityCancelled => 2
  | RuntimeCapabilityFailed => 3
  | RuntimeCapabilityExpired => 4
  | RuntimeCapabilityOther _ => 0
  end.

Definition outcome_of_code (code : Z) : option RuntimeCapabilityTerminalOutcome :=
  if code =? 1 then Some RuntimeCapabilityClaimed
  else if code =? 2 then Some RuntimeCapabilityCancelled
  else if code =? 3 then Some RuntimeCapabilityFailed
  else if code =? 4 then Some RuntimeCapabilityExpired
  else None.

(** [None] is the empty string; a nil token has no outcome. *)
Definition runtimeOutcomeOf (w : runtime) (token : option Z)
    : option RuntimeCapabilityTerminalOutcome :=
  t ← token; tok ← rw_capabilities w !! t; outcome_of_code (ct_outcome tok).

(** The insertion at the place [sort.Search] finds: before the first tombstone with
    a greater sequence. *)
Fixpoint insert_tombstone (t : RuntimeCapabilityTombstone)
    (tombstones : list RuntimeCapabilityTombstone) : list RuntimeCapabilityTombstone :=
  match tombstones with
  | [] => [t]
  | u :: rest =>
      if tb_TerminalSequence u >? tb_TerminalSequence t then t :: tombstones
      else u :: insert_tombstone t rest
  end.

Definition record_tombstone (limit : Z) (t : RuntimeCapabilityTombstone)
    (tombstones : list RuntimeCapabilityTombstone) : list RuntimeCapabilityTombstone :=
  let tombstones := insert_tombstone t tombstones in
  if zlen tombstones >? limit then tail tombstones else tombstones.

Definition set_capability (w : runtime) (t : Z) (tok : runtimeCapabilityToken) : runtime :=
  w <| rw_capabilities := <[t := tok]> (rw_capabilities w) |>.

Definition terminalizeLocked (w : runtime) (a : Z) (s : RuntimeAcquisitionSource)
    (capability : runtimeCapabilityState) (outcome : RuntimeCapabilityTerminalOutcome) : runtime :=
  let t := cs_token capability in
  let s :=
    s <| sc_live := delete t (sc_live s) |>
      <| sc_tombstones :=
           record_tombstone (al_CapabilityTombstoneLimit (sc_limits s))
             {| tb_SchemaVersion := 1; tb_TerminalSequence := cs_terminalSequence capability;
                tb_TerminalOutcome := outcome |}
             (sc_tombstones s) |> in
  let w := set_source w a s in
  match rw_capabilities w !! t with
  | None => w
  | Some tok =>
      set_capability w t
        (tok <| ct_outcome := runtimeOutcomeCode outcome |> <| ct_source := None |>)
  end.

(** [terminalizeLocked] on a token that is live, as every caller checks. *)
Definition end_live (w : runtime) (a t : Z) (outcome : RuntimeCapabilityTerminalOutcome)
    : runtime :=
  match rw_sources w !! a with
  | None => w
  | Some s =>
      match sc_live s !! t with
      | None => w
      | Some capability => terminalizeLocked w a s capability outcome
      end
  end.

Definition terminal (w : runtime) (t : Z) : bool :=
  match runtimeOutcomeOf w (Some t) with Some _ => true | None => false end.

Definition reclaimAttemptIfTerminalLocked (w : runtime) (a k : Z) : runtime :=
  match rw_sources w !! a with
  | None => w
  | Some s =>
      match sc_attempts s !! k with
      | None => w
      | Some attempt =>
          if negb (bool_decide (as_phase attempt = runtimeAttemptClosed)) then w
          else if forallb (terminal w) (as_members attempt) then
            set_source w a
              (s <| sc_attempts := delete k (sc_attempts s) |>
                 <| sc_drainedAttempts := {[ k ]} ∪ sc_drainedAttempts s |>)
          else w
      end
  end.

(** [delete(source.attempts, token)] and [token.source.Store(nil)]. *)
Definition drop_attempt (w : runtime) (a k : Z) : runtime :=
  match rw_sources w !! a with
  | None => w
  | Some s =>
      (set_source w a (s <| sc_attempts := delete k (sc_attempts s) |>))
        <| rw_attempts := <[k := None]> (rw_attempts w) |>
  end.

(** * Attempts *)

Definition BeginAttempt (w : runtime) (a : Z) (attemptKey : string) : runtime * aresult Z :=
  match rw_sources w !! a with
  | None => (w, Err ErrRuntimeAcquisitionUnavailable)
  | Some s =>
      if bool_decide (attemptKey = ""%string) || negb (ValidString attemptKey)
         || (slen attemptKey >? al_AttemptKeyMaxUTF8Bytes (sc_limits s)) then
        (w, Err ErrRuntimeAcquisitionUnavailable)
      else if sc_retired s then (w, Err ErrRuntimeAcquisitionUnavailable)
      else if msize (sc_attempts s) + Z.of_nat (size (sc_drainedAttempts s))
              >=? al_MaxAttempts (sc_limits s) then (w, Err ErrRuntimeAcquisitionCapacity)
      else
        let k := rw_next w in
        let attempt :=
          {| as_token := k; as_key := attemptKey; as_phase := runtimeAttemptOpen;
             as_registered := ∅; as_members := [] |} in
        ((set_source w a (s <| sc_attempts := <[k := attempt]> (sc_attempts s) |>))
           <| rw_next := k + 1 |> <| rw_attempts := <[k := Some a]> (rw_attempts w) |>, Ok k)
  end.

(** The parsed fields and the owner of a normalization record. *)
Inductive RuntimeAcquisitionSourceKind : Type :=
| RuntimeAcquisitionSourceRuntime
| RuntimeAcquisitionSourceOfflineFixture.

#[export] Instance source_kind_eq_dec : EqDecision RuntimeAcquisitionSourceKind.
Proof. solve_decision. Defined.

Record RuntimeNormalizationFields : Type := mkRuntimeNormalizationFields {
  nf_SchemaVersion : Z;
  nf_SourceKind : RuntimeAcquisitionSourceKind;
  nf_SourceEvidenceID : string;
  nf_DocumentaryNotation : string;
  nf_DocumentaryAddress : Z;
  nf_DocumentaryAddressBase : string;
  nf_FunctionCode : Z;
  nf_LogicalTable : LogicalTable;
  nf_NormalizedZeroBasedPDUOffset : Z;
  nf_WordCount : Z
}.

Record RuntimeNormalizationRecord : Type := mkRuntimeNormalizationRecord {
  nr_owner : Z;
  nr_encoded : list Z;
  nr_fields : RuntimeNormalizationFields
}.

(** The eligibility of the view of a group with the runtime source [source]. *)
Definition newRuntimeViewEligibility (w : runtime) (source : option Z) : runtime * option Z :=
  match source with
  | None => (w, None)
  | Some a =>
      let v := rw_next w in
      (w <| rw_next := v + 1 |>
         <| rw_views := <[v := {| ve_source := a; ve_state := runtimeViewAvailable |}]> (rw_views w) |>,
       Some v)
  end.

Definition normalizationMatchesView (fields : RuntimeNormalizationFields) (view : LogicalReadView)
    : bool :=
  let wire := lp_Wire (lv_provenance view) in
  negb (lv_logicalViewID view =? 0) && negb (lv_wireResponseID view =? 0)
  && negb (lp_PhysicalRequestID (lv_provenance view) =? 0)
  && String.eqb (wp_Transport wire) TransportTCP
  && (wp_RequestedFunction wire =? nf_FunctionCode fields)
  && (wp_ReceivedFunction wire =? nf_FunctionCode fields)
  && bool_decide (wp_Table wire = nf_LogicalTable fields)
  && (lv_logicalOffset view =? nf_NormalizedZeroBasedPDUOffset fields)
  && (lv_logicalWords view =? nf_WordCount fields)
  && (lv_logicalWords view =? lv_sliceWordCount view)
  && (zlen (lv_words view) =? lv_logicalWords view)
  && negb (zlen (lv_wireBytes view) =? 0).

Record RuntimeAcquisitionProvenance : Type := mkRuntimeAcquisitionProvenance {
  ap_SourceKind : RuntimeAcquisitionSourceKind;
  ap_SourceEvidenceID : string;
  ap_LogicalViewID : Z;
  ap_WireResponseID : Z;
  ap_PhysicalRequestID : Z;
  ap_Endpoint : string;
  ap_ConnectionID : Z;
  ap_Transport : string;
  ap_TransportGeneration : Z;
  ap_UnitID : Z;
  ap_RequestedFunction : Z;
  ap_ReceivedFunction : Z;
  ap_Table : LogicalTable;
  ap_PhysicalOffset : Z;
  ap_PhysicalWordCount : Z;
  ap_AuthorizationScope : string;
  ap_PollGeneration : Z;
  ap_DeadlineIdentity : Z;
  ap_LogicalOffset : Z;
  ap_LogicalWordCount : Z;
  ap_SliceOffset : Z;
  ap_SliceWordCount : Z;
  ap_Words : list Z;
  ap_WireResponseBytes : list Z
}.

Definition runtimeProvenanceFromView (view : LogicalReadView) (fields : RuntimeNormalizationFields)
    : RuntimeAcquisitionProvenance :=
  let provenance := lv_provenance view in
  let wire := lp_Wire provenance in
  {| ap_SourceKind := nf_SourceKind fields; ap_SourceEvidenceID := nf_SourceEvidenceID fields;
     ap_LogicalViewID := lv_logicalViewID view; ap_WireResponseID := lv_wireResponseID view;
     ap_PhysicalRequestID := lp_PhysicalRequestID provenance; ap_Endpoint := wp_Endpoint wire;
     ap_ConnectionID := wp_ConnectionID wire; ap_Transport := wp_Transport wire;
     ap_TransportGeneration := wp_TransportGeneration wire; ap_UnitID := wp_UnitID wire;
     ap_RequestedFunction := wp_RequestedFunction wire;
     ap_ReceivedFunction := wp_ReceivedFunction wire; ap_Table := wp_Table wire;
     ap_PhysicalOffset := wp_Offset wire; ap_PhysicalWordCount := wp_Quantity wire;
     ap_AuthorizationScope := lp_AuthorizationScope provenance;
     ap_PollGeneration := lp_PollGeneration provenance;
     ap_DeadlineIdentity := lp_DeadlineIdentity provenance;
     ap_LogicalOffset := lv_logicalOffset view; ap_LogicalWordCount := lv_logicalWords view;
     ap_SliceOffset := lv_sliceOffset view; ap_SliceWordCount := lv_sliceWordCount view;
     ap_Words := lv_words view; ap_WireResponseBytes := lv_wireBytes view |}.

Record RuntimeAcquisition : Type := mkRuntimeAcquisition {
  aq_attemptKey : string;
  aq_provenance : RuntimeAcquisitionProvenance;
  aq_normalization : RuntimeNormalizationRecord;
  aq_capability : option Z
}.

Definition reserveTerminalSequenceLocked (s : RuntimeAcquisitionSource)
    : RuntimeAcquisitionSource * aresult Z :=
  if sc_sequenceExhausted s || (sc_nextTerminalSequence s =? 0) then
    (s, Err ErrRuntimeTerminalSequenceExhausted)
  else
    let sequence := sc_nextTerminalSequence s in
    if sequence =? MaxUint64 then
      (s <| sc_nextTerminalSequence := 0 |> <| sc_sequenceExhausted := true |>, Ok sequence)
    else (s <| sc_nextTerminalSequence := sequence + 1 |>, Ok sequence).

Definition set_view (w : runtime) (v : Z) (state : runtimeViewState) : runtime :=
  match rw_views w !! v with
  | None => w
  | Some view => w <| rw_views := <[v := view <| ve_state := state |>]> (rw_views w) |>
  end.

(** The first guard of [Issue]: handles, owners and the view fit together. *)
Definition issuable (w : runtime) (a : Z) (attempt : option Z) (view : LogicalReadView)
    (eligibility : option Z) (normalization : RuntimeNormalizationRecord) : bool :=
  match attempt, eligibility with
  | Some k, Some v =>
      bool_decide (rw_attempts w !! k = Some (Some a))
      && (nr_owner normalization =? a)
      && bool_decide (ve_source <$> rw_views w !! v = Some a)
      && bool_decide (nf_SourceKind (nr_fields normalization) = RuntimeAcquisitionSourceRuntime)
      && normalizationMatchesView (nr_fields normalization) view
  | _, _ => false
  end.

(** The part of [Issue] under the mutex: the state and the new capability. *)
Definition issue_locked (w : runtime) (a : Z) (s : RuntimeAcquisitionSource) (k : Z)
    (dependencyOrdinal now : Z) : aresult (runtime * string * Z) :=
  match sc_attempts s !! k with
  | None => Err ErrRuntimeAttemptClosed
  | Some state =>
      if sc_retired s || negb (bool_decide (as_phase state = runtimeAttemptOpen)) then
        Err ErrRuntimeAttemptClosed
      else if dependencyOrdinal >=? al_MaxMembersPerAttempt (sc_limits s) then
        Err ErrRuntimeAttemptMembership
      else if bool_decide (is_Some (as_registered state !! dependencyOrdinal)) then
        Err ErrRuntimeAttemptMembership
      else if (msize (as_registered state) >=? al_MaxMembersPerAttempt (sc_limits s))
              || (msize (sc_live s) >=? al_MaxLiveCapabilities (sc_limits s)) then
        Err ErrRuntimeAcquisitionCapacity
      else
        match reserveTerminalSequenceLocked s with
        | (_, Err err) => Err err
        | (s, Ok sequence) =>
            let t := rw_next w in
            let token :=
              {| ct_source := Some a; ct_attempt := k; ct_ordinal := dependencyOrdinal;
                 ct_outcome := 0 |} in
            let capability :=
              {| cs_token := t; cs_attempt := k; cs_terminalSequence := sequence;
                 cs_claimDeadline := now + sc_claimLifetime s |} in
            let state :=
              state <| as_registered := <[dependencyOrdinal := t]> (as_registered state) |> in
            let s :=
              s <| sc_live := <[t := capability]> (sc_live s) |>
                <| sc_attempts := <[k := state]> (sc_attempts s) |> in
            Ok ((set_capability (set_source w a s) t token) <| rw_next := t + 1 |>,
                as_key state, t)
        end
  end.

(** [eligibility] is the [runtimeEligibility] of the view. *)
Definition Issue (w : runtime) (a : Z) (attempt : option Z) (dependencyOrdinal : Z)
    (view : LogicalReadView) (eligibility : option Z)
    (normalization : RuntimeNormalizationRecord) (now : Z) : runtime * aresult RuntimeAcquisition :=
  match rw_sources w !! a, attempt, eligibility with
  | Some s, Some k, Some v =>
      if negb (issuable w a attempt view eligibility normalization) then
        (w, Err ErrRuntimeAcquisitionUnavailable)
      else if negb (bool_decide (ve_state <$> rw_views w !! v = Some runtimeViewAvailable)) then
        (w, Err ErrRuntimeAcquisitionUnavailable)
      else
        let w := set_view w v runtimeViewIssuing in
        if (now <? 0) || (sc_claimLifetime s >? MaxInt64 - now) then
          (set_view w v runtimeViewRejected, Err ErrRuntimeAcquisitionUnavailable)
        else
          match issue_locked w a s k dependencyOrdinal now with
          | Err err => (set_view w v runtimeViewRejected, Err err)
          | Ok (w, key, t) =>
              (set_view w v runtimeViewIssued,
               Ok {| aq_attemptKey := key;
                     aq_provenance := runtimeProvenanceFromView view (nr_fields normalization);
                     aq_normalization := normalization; aq_capability := Some t |})
          end
  | _, _, _ => (w, Err ErrRuntimeAcquisitionUnavailable)
  end.

(** * Closing an attempt *)

(** The loop of [exactMembershipLocked] from [index] on. *)
Fixpoint exact_members (w : runtime) (s : RuntimeAcquisitionSource) (state : runtimeAttemptState)
    (index : Z) (seen : gset Z) (members : list RuntimeAcquisition) : bool :=
  match members with
  | [] => true
  | member :: members =>
      match aq_capability member with
      | None => false
      | Some t =>
          match rw_capabilities w !! t with
          | None => false
          | Some token =>
              let live := sc_live s !! t in
              bool_decide (as_registered state !! index = Some t)
              && (ct_ordinal token =? index)
              && match live with
                 | None => terminal w t
                 | Some capability => cs_attempt capability =? as_token state
                 end
              && (ct_attempt token =? as_token state)
              && bool_decide (aq_attemptKey member = as_key state)
              && negb (bool_decide (t ∈ seen))
              && exact_members w s state (index + 1) ({[ t ]} ∪ seen) members
          end
      end
  end.

Definition exactMembershipLocked (w : runtime) (s : RuntimeAcquisitionSource)
    (state : runtimeAttemptState) (members : list RuntimeAcquisition) : bool :=
  negb (zlen members =? 0) && (zlen members =? msize (as_registered state))
  && negb (zlen members >? al_MaxMembersPerAttempt (sc_limits s))
  && exact_members w s state 0 ∅ members.

(** The live ones of [tokens], ended with [outcome]. *)
Definition end_tokens (w : runtime) (a : Z) (outcome : RuntimeCapabilityTerminalOutcome)
    (tokens : list Z) : runtime :=
  foldl (fun w t => end_live w a t outcome) w tokens.

(** The range over the map visits the members in an unspecified order; the model takes
    the order of [map_to_list].  Each visit ends one capability, and a tombstone goes to
    the place its own sequence number gives it. *)
Definition cancelAttemptMembersLocked (w : runtime) (a : Z) (state : runtimeAttemptState) : runtime :=
  end_tokens w a RuntimeCapabilityCancelled (snd <$> map_to_list (as_registered state)).

Definition member_tokens (members : list RuntimeAcquisition) : list Z :=
  omap aq_capability members.

(** The part of [RuntimeAttempt.Close] under the mutex. *)
Definition close_locked (w : runtime) (a : Z) (s : RuntimeAcquisitionSource) (k : Z)
    (state : runtimeAttemptState) (members : list RuntimeAcquisition) : runtime * aresult Z :=
  if negb (exactMembershipLocked w s state members) then
    let state := state <| as_phase := runtimeAttemptClosing |> in
    let w := set_source w a (s <| sc_attempts := <[k := state]> (sc_attempts s) |>) in
    (drop_attempt (cancelAttemptMembersLocked w a state) a k, Err ErrRuntimeAttemptMembership)
  else
    let state :=
      state <| as_phase := runtimeAttemptClosed |> <| as_members := member_tokens members |> in
    let w := set_source w a (s <| sc_attempts := <[k := state]> (sc_attempts s) |>) in
    (reclaimAttemptIfTerminalLocked w a k, Ok k).

Definition AttemptClose (w : runtime) (attempt : option Z) (members : list RuntimeAcquisition)
    : runtime * aresult Z :=
  match attempt with
  | None => (w, Err ErrRuntimeAcquisitionUnavailable)
  | Some k =>
      match rw_attempts w !! k with
      | Some (Some a) =>
          match rw_sources w !! a with
          | None => (w, Err ErrRuntimeAttemptClosed)
          | Some s =>
              match sc_attempts s !! k with
              | None => (w, Err ErrRuntimeAttemptClosed)
              | Some state =>
                  if negb (bool_decide (as_phase state = runtimeAttemptOpen)) then
                    (w, Err ErrRuntimeAttemptClosed)
                  else close_locked w a s k state members
              end
          end
      | _ => (w, Err ErrRuntimeAttemptClosed)
      end
  end.

(** * Claims *)

Record RuntimeCapabilityClaimResult : Type := mkRuntimeCapabilityClaimResult {
  cl_Won : bool;
  cl_Outcome : RuntimeCapabilityTerminalOutcome
}.

Definition runtimeAttemptContains (attempt : runtimeAttemptState) (t : Z) : bool :=
  existsb (fun member => member =? t) (as_members attempt).

Definition observed (w : runtime) (t : Z) : aresult RuntimeCapabilityClaimResult :=
  match runtimeOutcomeOf w (Some t) with
  | Some outcome => Ok {| cl_Won := false; cl_Outcome := outcome |}
  | None => Err ErrRuntimeAcquisitionUnavailable
  end.

Definition claim (w : runtime) (a : Z) (s : RuntimeAcquisitionSource) (t k : Z) (now : Z)
    : runtime * aresult RuntimeCapabilityClaimResult :=
  match sc_live s !! t with
  | None => (w, observed w t)
  | Some capability =>
      match sc_attempts s !! k with
      | None => (w, Err ErrRuntimeAttemptMembership)
      | Some attempt =>
          if negb (bool_decide (as_phase attempt = runtimeAttemptClosed))
             || negb (cs_attempt capability =? k)
             || negb (runtimeAttemptContains attempt t) then
            (w, Err ErrRuntimeAttemptMembership)
          else if now >=? cs_claimDeadline capability then
            (reclaimAttemptIfTerminalLocked
               (terminalizeLocked w a s capability RuntimeCapabilityExpired) a k,
             Ok {| cl_Won := false; cl_Outcome := RuntimeCapabilityExpired |})
          else
            (reclaimAttemptIfTerminalLocked
               (terminalizeLocked w a s capability RuntimeCapabilityClaimed) a k,
             Ok {| cl_Won := true; cl_Outcome := RuntimeCapabilityClaimed |})
      end
  end.

Definition Claim (w : runtime) (capability instance : option Z) (now : Z)
    : runtime * aresult RuntimeCapabilityClaimResult :=
  match capability, instance with
  | Some t, Some k =>
      match rw_capabilities w !! t with
      | None => (w, Err ErrRuntimeAcquisitionUnavailable)
      | Some token =>
          if negb (ct_attempt token =? k) then (w, Err ErrRuntimeAttemptMembership)
          else
            match ct_source token with
            | None => (w, observed w t)
            | Some a =>
                match rw_sources w !! a with
                | None => (w, observed w t)
                | Some s => claim w a s t k now
                end
            end
      end
  | _, _ => (w, Err ErrRuntimeAcquisitionUnavailable)
  end.

(** * Cancellation, failure and expiry *)

Definition CancelOpen (w : runtime) (a : Z) (instance : option Z)
    : runtime * option RuntimeAcquisitionError :=
  match rw_sources w !! a, instance with
  | Some s, Some k =>
      if negb (bool_decide (rw_attempts w !! k = Some (Some a))) then
        (w, Some ErrRuntimeAttemptClosed)
      else
        match sc_attempts s !! k with
        | None =>
            if negb (bool_decide (k ∈ sc_drainedAttempts s)) then
              (w, Some ErrRuntimeAttemptClosed)
            else
              ((set_source w a
                  (s <| sc_drainedAttempts := sc_drainedAttempts s ∖ {[ k ]} |>))
                 <| rw_attempts := <[k := None]> (rw_attempts w) |>, None)
        | Some attempt =>
            if negb (bool_decide (as_phase attempt = runtimeAttemptClosed)) then
              (w, Some ErrRuntimeAttemptClosed)
            else
              (drop_attempt (end_tokens w a RuntimeCapabilityCancelled (as_members attempt)) a k,
               None)
        end
  | _, _ => (w, Some ErrRuntimeAcquisitionUnavailable)
  end.

Definition FailOpen (w : runtime) (a : Z) (capability : option Z)
    : runtime * aresult RuntimeCapabilityTerminalOutcome :=
  match rw_sources w !! a, capability with
  | Some s, Some t =>
      match sc_live s !! t with
      | None =>
          (w, match runtimeOutcomeOf w (Some t) with
              | Some outcome => Ok outcome
              | None => Err ErrRuntimeAcquisitionUnavailable
              end)
      | Some state =>
          if negb (bool_decide (ct_source <$> rw_capabilities w !! t = Some (Some a))) then
            (w, Err ErrRuntimeAcquisitionUnavailable)
          else
            (reclaimAttemptIfTerminalLocked
               (terminalizeLocked w a s state RuntimeCapabilityFailed) a (cs_attempt state),
             Ok RuntimeCapabilityFailed)
      end
  | _, _ => (w, Err ErrRuntimeAcquisitionUnavailable)
  end.

(** The range over the live capabilities: the due one with the least sequence.
    Sequences are distinct, so the order of the range does not matter. *)
Definition expire_candidate (now : Z) (states : list runtimeCapabilityState)
    : option runtimeCapabilityState :=
  foldl
    (fun candidate state =>
       if (cs_claimDeadline state >? now)
          || match candidate with
             | Some c => cs_terminalSequence c <? cs_terminalSequence state
             | None => false
             end
       then candidate else Some state)
    None states.

(** The loop of [ExpireOpen]; [None] when [fuel] rounds are not enough. *)
Fixpoint expire_open_loop (fuel : nat) (w : runtime) (a : Z) (now expired : Z) : option (runtime * Z) :=
  match fuel with
  | O => None
  | S fuel =>
      match rw_sources w !! a with
      | None => Some (w, expired)
      | Some s =>
          match expire_candidate now (snd <$> map_to_list (sc_live s)) with
          | None => Some (w, expired)
          | Some candidate =>
              let w := terminalizeLocked w a s candidate RuntimeCapabilityExpired in
              let w := reclaimAttemptIfTerminalLocked w a (cs_attempt candidate) in
              expire_open_loop fuel w a now (expired + 1)
          end
      end
  end.

(** Every round ends a live capability, so one more round than there are is
    enough. *)
Definition ExpireOpen (w : runtime) (a : Z) (now : Z) : option (runtime * Z) :=
  match rw_sources w !! a with
  | None => Some (w, 0)
  | Some s => expire_open_loop (S (size (sc_live s))) w a now 0
  end.

(** * Snapshot and restart *)

Record RuntimeAcquisitionSnapshot : Type := mkRuntimeAcquisitionSnapshot {
  sn_LiveCapabilities : Z;
  sn_ActiveAttempts : Z;
  sn_NextTerminalSequence : Z;
  sn_SequenceExhausted : bool;
  sn_Tombstones : list RuntimeCapabilityTombstone
}.

Definition SourceSnapshot (w : runtime) (a : Z) : RuntimeAcquisitionSnapshot :=
  match rw_sources w !! a with
  | None => mkRuntimeAcquisitionSnapshot 0 0 0 false []
  | Some s =>
      {| sn_LiveCapabilities := msize (sc_live s); sn_ActiveAttempts := msize (sc_attempts s);
         sn_NextTerminalSequence := sc_nextTerminalSequence s;
         sn_SequenceExhausted := sc_sequenceExhausted s; sn_Tombstones := sc_tombstones s |}
  end.

(** The tokens of the attempts without a registered member. *)
Definition empty_attempts (s : RuntimeAcquisitionSource) : list Z :=
  fst <$> filter (fun '(_, attempt) => size (as_registered attempt) = 0%nat)
            (map_to_list (sc_attempts s)).

(** [token.source.Store(nil)] on every one of [tokens]. *)
Definition release_tokens (w : runtime) (tokens : list Z) : runtime :=
  w <| rw_attempts := foldl (fun m k => <[k := None]> m) (rw_attempts w) tokens |>.

Definition ExportRestartState (w : runtime) (a : Z)
    : runtime * aresult RuntimeAcquisitionRestartState :=
  match rw_sources w !! a with
  | None => (w, Err ErrRuntimeAcquisitionUnavailable)
  | Some s =>
      if sc_retired s then (w, Err ErrRuntimeAcquisitionUnavailable)
      else
        let empty := empty_attempts s in
        let s := s <| sc_attempts := foldl (fun m k => delete k m) (sc_attempts s) empty |> in
        let w := release_tokens (set_source w a s) empty in
        if negb (msize (sc_live s) =? 0) || negb (msize (sc_attempts s) =? 0) then
          (w, Err ErrRuntimeAcquisitionUnavailable)
        else
          let w := release_tokens w (elements (sc_drainedAttempts s)) in
          (set_source w a (s <| sc_drainedAttempts := ∅ |> <| sc_retired := true |>),
           Ok {| re_SchemaVersion := 1;
                 re_NextTerminalSequence := sc_nextTerminalSequence s;
                 re_SequenceExhausted := sc_sequenceExhausted s;
                 re_Tombstones := sc_tombstones s |})
  end.
