(* ===== verification/RuntimeNormalization.v ===== *)
(** Runtime normalization (runtime_normalization.go): a source admits the JSON record
    that says which documentary field a read stands for.  The record is one object
    with ten required members and a bounded number of extensions; its bytes are kept
    as they came. *)

From S2P Require Import Prelude Json Pdu DeviceId DeviceIdTolerant TcpAdu TcpOwner Coalescing RuntimeAcquisition.

(** * The object *)

(** [decoder.Token()] where a key is expected: the key and the text after it.  A key
    follows the opening brace, or a comma. *)
Definition read_key (first : bool) (text : list Z) : option (list Z * list Z) :=
  match skip_space text with
  | [] => None
  | c :: rest =>
      let text := if first then c :: rest else skip_space rest in
      if negb first && negb (c =? 44) then None
      else
        match text with
        | q :: _ => if q =? 34 then decode_string text else None
        | [] => None
        end
  end.

(** The colon that [Decode] expects after a key, and the value. *)
Definition read_member_value (text : list Z) : option (list Z * list Z) :=
  match skip_space text with
  | c :: rest => if c =? 58 then decode_raw rest else None
  | [] => None
  end.

(** [decoder.More()]. *)
Definition more (text : list Z) : bool :=
  match skip_space text with
  | [] => false
  | c :: _ => negb (c =? 93) && negb (c =? 125)
  end.

(** The closing brace, and the end of the text after it. *)
Definition object_closed (text : list Z) : bool :=
  match skip_space text with
  | c :: rest => (c =? 125) && bool_decide (skip_space rest = [])
  | [] => false
  end.

Definition required (key : list Z) : bool :=
  bool_decide (key ∈ string_bytes <$> runtimeNormalizationRequiredFields).

Abbreviation members := (gmap (list Z) (list Z)).

Definition extension_fits (limits : RuntimeAcquisitionLimits) (extensions : Z) (key raw : list Z)
    : bool :=
  (extensions <=? al_NormalizationExtensionCountMax limits)
  && (zlen key <=? al_NormalizationExtensionKeyMaxUTF8Bytes limits)
  && (zlen raw <=? al_NormalizationExtensionValueMaxEncodedBytes limits).

(** One turn of the loop of [decodeNormalizationObject]. *)
Definition decode_member (limits : RuntimeAcquisitionLimits) (first : bool) (values : members)
    (extensions : Z) (text : list Z) : option (members * Z * list Z) :=
  '(key, text) ← read_key first text;
  if bool_decide (key = []) || negb (utf8_valid key) || bool_decide (is_Some (values !! key)) then None
  else
    '(raw, text) ← read_member_value text;
    let extensions := if required key then extensions else extensions + 1 in
    if negb (required key) && negb (extension_fits limits extensions key raw) then None
    else Some (<[key := raw]> values, extensions, text).

(** The loop, for at most [fuel] members; [None] is fuel that has run out. *)
Fixpoint decode_members (fuel : nat) (limits : RuntimeAcquisitionLimits) (first : bool)
    (values : members) (extensions : Z) (text : list Z) : option (aresult (members * Z)) :=
  match fuel with
  | O => None
  | S fuel =>
      if more text then
        match decode_member limits first values extensions text with
        | Some (values, extensions, text) => decode_members fuel limits false values extensions text
        | None => Some (Err ErrRuntimeNormalization)
        end
      else if object_closed text then Some (Ok (values, extensions))
      else Some (Err ErrRuntimeNormalization)
  end.

(** A member takes at least one byte. *)
Definition decodeNormalizationObject (limits : RuntimeAcquisitionLimits) (encoded : list Z)
    : option (aresult (members * Z)) :=
  match skip_space encoded with
  | c :: rest =>
      if c =? 123 then decode_members (S (length rest)) limits true ∅ 0 rest
      else Some (Err ErrRuntimeNormalization)
  | [] => Some (Err ErrRuntimeNormalization)
  end.

(** * The fields *)

(** [bytes.TrimSpace], on a text that neither begins nor ends with a space that is not
    an ASCII character: the text is a JSON value. *)
Definition ascii_space (c : Z) : bool := is_space c || (c =? 11) || (c =? 12).

Fixpoint trim_left (text : list Z) : list Z :=
  match text with
  | c :: rest => if ascii_space c then trim_left rest else text
  | [] => []
  end.

Definition trim_space (text : list Z) : list Z := rev (trim_left (rev (trim_left text))).

(** Nothing but spaces after the decoded value. *)
Definition decodeRuntimeNormalizationValue {A} (decode : list Z -> option (A * list Z))
    (raw : list Z) : option A :=
  '(value, rest) ← decode raw; if bool_decide (skip_space rest = []) then Some value else None.

Definition decodeRuntimeNormalizationString (raw : list Z) : option (list Z) :=
  let trimmed := trim_space raw in
  match trimmed with
  | c :: _ => if c =? 34 then decodeRuntimeNormalizationValue decode_string trimmed else None
  | [] => None
  end.

Definition decodeRuntimeNormalizationNumber (parse : list Z -> option Z) (raw : list Z) : option Z :=
  let trimmed := trim_space raw in
  match trimmed with
  | c :: _ =>
      if (c =? 45) || is_digit c then decodeRuntimeNormalizationValue (decode_number parse) trimmed
      else None
  | [] => None
  end.

Definition bytes_string (bytes : list Z) : string :=
  String.string_of_list_ascii ((fun b => Ascii.ascii_of_nat (Z.to_nat b)) <$> bytes).

Definition source_kind_string (kind : RuntimeAcquisitionSourceKind) : string :=
  match kind with
  | RuntimeAcquisitionSourceRuntime => "runtime"
  | RuntimeAcquisitionSourceOfflineFixture => "offline_fixture"
  end.

(** The constant a decoded string is equal to. *)
Definition source_kind_of (name : list Z) : option RuntimeAcquisitionSourceKind :=
  if bool_decide (name = string_bytes "runtime") then Some RuntimeAcquisitionSourceRuntime
  else if bool_decide (name = string_bytes "offline_fixture") then
    Some RuntimeAcquisitionSourceOfflineFixture
  else None.

Definition table_string (table : LogicalTable) : string :=
  match table with
  | NoTable => ""
  | HoldingRegisters => "holding_registers"
  | InputRegisters => "input_registers"
  end.

(** Only the tables that the last switch of [decodeNormalizationFields] accepts. *)
Definition table_named (name : list Z) : option LogicalTable :=
  if bool_decide (name = string_bytes "holding_registers") then Some HoldingRegisters
  else if bool_decide (name = string_bytes "input_registers") then Some InputRegisters
  else None.

(** A required string: not empty, valid and within its maximum. *)
Definition required_string (max : Z) (raw : list Z) : option string :=
  s ← decodeRuntimeNormalizationString raw;
  if bool_decide (s = []) || negb (utf8_valid s) || (zlen s >? max) then None
  else Some (bytes_string s).

Definition function_table (function : Z) (table : LogicalTable) : bool :=
  if function =? FunctionReadHoldingRegisters then bool_decide (table = HoldingRegisters)
  else if function =? FunctionReadInputRegisters then bool_decide (table = InputRegisters)
  else false.

Definition member (values : members) (name : string) : option (list Z) := values !! string_bytes name.

Definition decodeNormalizationFields (limits : RuntimeAcquisitionLimits) (values : members)
    : aresult RuntimeNormalizationFields :=
  let fields :=
    if negb (forallb (fun name => bool_decide (is_Some (member values name)))
               runtimeNormalizationRequiredFields) then None
    else
      schemaVersion ← member values "schema_version" ≫= decodeRuntimeNormalizationNumber parse_int;
      if negb (schemaVersion =? 1) then None
      else
        kind ← member values "source_kind" ≫= decodeRuntimeNormalizationString;
        sourceKind ← source_kind_of kind;
        evidence ← member values "source_evidence_id"
          ≫= required_string (al_SourceEvidenceIDMaxUTF8Bytes limits);
        notation ← member values "documentary_notation"
          ≫= required_string (al_NormalizationRequiredStringMaxUTF8Bytes limits);
        base ← member values "documentary_address_base"
          ≫= required_string (al_NormalizationRequiredStringMaxUTF8Bytes limits);
        address ← member values "documentary_address"
          ≫= decodeRuntimeNormalizationNumber (parse_uint 4294967295);
        function ← member values "function_code"
          ≫= decodeRuntimeNormalizationNumber (parse_uint 255);
        name ← member values "logical_table" ≫= decodeRuntimeNormalizationString;
        table ← table_named name;
        offset ← member values "normalized_zero_based_pdu_offset"
          ≫= decodeRuntimeNormalizationNumber (parse_uint 65535);
        words ← member values "word_count" ≫= decodeRuntimeNormalizationNumber (parse_uint 65535);
        if (words =? 0) || (words >? MaxReadRegisters) then None
        else if wrap32 (offset + words) >? Z.shiftl 1 16 then None
        else if negb (function_table function table) then None
        else
          Some {| nf_SchemaVersion := schemaVersion; nf_SourceKind := sourceKind;
                  nf_SourceEvidenceID := evidence; nf_DocumentaryNotation := notation;
                  nf_DocumentaryAddress := address; nf_DocumentaryAddressBase := base;
                  nf_FunctionCode := function; nf_LogicalTable := table;
                  nf_NormalizedZeroBasedPDUOffset := offset; nf_WordCount := words |}
  in
  match fields with
  | Some fields => Ok fields
  | None => Err ErrRuntimeNormalization
  end.

(** * The record *)

(** [w] is the store when the parser looks at the source first, [w'] the store when it
    publishes the record: other calls may have run in between. *)
Definition ParseNormalizationRecord (w w' : runtime) (a : Z) (encoded : list Z)
    : option (aresult RuntimeNormalizationRecord) :=
  match rw_sources w !! a with
  | None => Some (Err ErrRuntimeNormalization)
  | Some s =>
      let limits := sc_limits s in
      if sc_retired s then Some (Err ErrRuntimeAcquisitionUnavailable)
      else if (zlen encoded =? 0) || (zlen encoded >? al_NormalizationRecordMaxEncodedBytes limits)
              || negb (utf8_valid encoded) then Some (Err ErrRuntimeNormalization)
      else
        match decodeNormalizationObject limits encoded with
        | None => None
        | Some (Err e) => Some (Err e)
        | Some (Ok (values, extensions)) =>
            if negb (Z.of_nat (size values) =? zlen runtimeNormalizationRequiredFields + extensions)
               || (extensions >? al_NormalizationExtensionCountMax limits) then
              Some (Err ErrRuntimeNormalization)
            else
              match decodeNormalizationFields limits values with
              | Err e => Some (Err e)
              | Ok fields =>
                  if match rw_sources w' !! a with Some s => sc_retired s | None => false end then
                    Some (Err ErrRuntimeAcquisitionUnavailable)
                  else Some (Ok {| nr_owner := a; nr_encoded := encoded; nr_fields := fields |})
              end
        end
  end.

Definition RecordValid (record : RuntimeNormalizationRecord) : bool :=
  negb (nr_owner record =? 0) && negb (zlen (nr_encoded record) =? 0).

Definition AppendJSON (record : RuntimeNormalizationRecord) (destination : list Z)
    : aresult (list Z) :=
  if RecordValid record then Ok (destination ++ nr_encoded record) else Err ErrRuntimeNormalization.
