(* ===== verification/RuntimeAcquisitionFacts.v ===== *)
(** The invariant of runtime acquisition: attempts, capabilities and tokens refer to
    each other consistently in every source of a store, terminal sequences are
    distinct, tombstones are sorted, and every limit holds; and that every operation
    keeps it. *)

From S2P Require Import Prelude Pdu DeviceId DeviceIdTolerant TcpAdu TcpOwner TcpOwnerFacts Coalescing RuntimeAcquisition.

(** * Well-formed stores *)

Definition before_next (next seq : Z) : Prop := 1 <= seq <= MaxUint64 /\ (next <> 0 -> seq < next).

Definition later (t u : RuntimeCapabilityTombstone) : Prop :=
  tb_TerminalSequence t < tb_TerminalSequence u.

Record attempt_ok (attempts : gmap Z (option Z)) (capabilities : gmap Z runtimeCapabilityToken)
    (a : Z) (limits : RuntimeAcquisitionLimits) (k : Z) (state : runtimeAttemptState) : Prop :=
  mkAttemptOk {
  ao_token : as_token state = k;
  ao_owned : attempts !! k = Some (Some a);
  ao_bound : msize (as_registered state) <= al_MaxMembersPerAttempt limits;
  ao_registered : forall o t, as_registered state !! o = Some t ->
    exists tok, capabilities !! t = Some tok /\ ct_attempt tok = k /\ ct_ordinal tok = o;
  ao_members : as_phase state = runtimeAttemptClosed ->
    forall t, t ∈ as_members state <-> exists o, as_registered state !! o = Some t
}.

Record sequences_ok (s : RuntimeAcquisitionSource) : Prop := mkSequencesOk {
  sq_next : 0 <= sc_nextTerminalSequence s <= MaxUint64;
  sq_exhausted : sc_sequenceExhausted s = true <-> sc_nextTerminalSequence s = 0;
  sq_live : forall t c, sc_live s !! t = Some c ->
    before_next (sc_nextTerminalSequence s) (cs_terminalSequence c) /\
    Forall (fun u => tb_TerminalSequence u <> cs_terminalSequence c) (sc_tombstones s);
  sq_distinct : forall t u c d, sc_live s !! t = Some c -> sc_live s !! u = Some d ->
    cs_terminalSequence c = cs_terminalSequence d -> t = u;
  sq_tombstones : Forall (fun u => validRuntimeTombstone u = true /\
    before_next (sc_nextTerminalSequence s) (tb_TerminalSequence u)) (sc_tombstones s);
  sq_sorted : StronglySorted later (sc_tombstones s);
  sq_bound : zlen (sc_tombstones s) <= al_CapabilityTombstoneLimit (sc_limits s)
}.

Record source_ok (attempts : gmap Z (option Z)) (capabilities : gmap Z runtimeCapabilityToken)
    (a : Z) (s : RuntimeAcquisitionSource) : Prop := mkSourceOk {
  so_live : forall t c, sc_live s !! t = Some c ->
    cs_token c = t /\
    exists tok state, capabilities !! t = Some tok /\ ct_source tok = Some a /\
      ct_attempt tok = cs_attempt c /\ sc_attempts s !! cs_attempt c = Some state /\
      as_registered state !! ct_ordinal tok = Some t;
  so_attempts : forall k state, sc_attempts s !! k = Some state ->
    attempt_ok attempts capabilities a (sc_limits s) k state;
  so_drained : forall k, k ∈ sc_drainedAttempts s ->
    sc_attempts s !! k = None /\ attempts !! k = Some (Some a);
  so_sequences : sequences_ok s;
  so_live_bound : msize (sc_live s) <= al_MaxLiveCapabilities (sc_limits s);
  so_attempt_bound :
    msize (sc_attempts s) + Z.of_nat (size (sc_drainedAttempts s)) <= al_MaxAttempts (sc_limits s);
  so_retired : sc_retired s = true ->
    sc_live s = ∅ /\ sc_attempts s = ∅ /\ sc_drainedAttempts s = ∅
}.

(** A token is live in its source, or it is terminal. *)
Definition token_ok (w : runtime) (t : Z) (tok : runtimeCapabilityToken) : Prop :=
  match ct_source tok with
  | None => is_Some (outcome_of_code (ct_outcome tok))
  | Some a => ct_outcome tok = 0 /\
      exists s, rw_sources w !! a = Some s /\ is_Some (sc_live s !! t)
  end.

Record runtime_ok (w : runtime) : Prop := mkRuntimeOk {
  ro_source : forall a s, rw_sources w !! a = Some s ->
    source_ok (rw_attempts w) (rw_capabilities w) a s;
  ro_token : forall t tok, rw_capabilities w !! t = Some tok -> token_ok w t tok;
  ro_attempt : forall k a, rw_attempts w !! k = Some (Some a) ->
    exists s, rw_sources w !! a = Some s /\
      (is_Some (sc_attempts s !! k) \/ k ∈ sc_drainedAttempts s);
  ro_fresh_source : forall a, is_Some (rw_sources w !! a) -> a < rw_next w;
  ro_fresh_attempt : forall k, is_Some (rw_attempts w !! k) -> k < rw_next w;
  ro_fresh_token : forall t, is_Some (rw_capabilities w !! t) -> t < rw_next w;
  ro_fresh_view : forall v, is_Some (rw_views w !! v) -> v < rw_next w
}.

(** * Frame *)

Lemma attempt_ok_frame A C A' C' a limits k state :
  attempt_ok A C a limits k state ->
  (A !! k = Some (Some a) -> A' !! k = A !! k) ->
  (forall t tok, C !! t = Some tok -> ct_attempt tok = k ->
     exists tok', C' !! t = Some tok' /\ ct_attempt tok' = k /\ ct_ordinal tok' = ct_ordinal tok) ->
  attempt_ok A' C' a limits k state.
Proof.
  intros [Ht Ho Hb Hr Hm] HA HC. constructor; try done; [by rewrite HA|].
  intros o t H. destruct (Hr o t H) as (tok & E & E1 & <-).
  destruct (HC t tok E E1) as (tok' & ? & ? & ?). eauto.
Qed.

(** A source does not notice what happens to the objects of others. *)
Lemma source_ok_frame A C A' C' a s :
  source_ok A C a s ->
  (forall k, A !! k = Some (Some a) -> A' !! k = A !! k) ->
  (forall t tok, C !! t = Some tok -> A !! ct_attempt tok = Some (Some a) -> C' !! t = Some tok) ->
  source_ok A' C' a s.
Proof.
  intros [Hl Ha Hd Hs Hb Hab Hr] HA HC. constructor; try done.
  - intros t c H. destruct (Hl t c H) as (<- & tok & state & E & E1 & E2 & E3 & E4).
    split; [done|]. exists tok, state. conj; try done. apply HC; [done|]. rewrite E2.
    apply (Ha _ _ E3).
  - intros k state H. pose proof (Ha k state H) as Hok. eapply attempt_ok_frame; [done|by auto|].
    intros t tok E <-. exists tok. conj; try done. apply HC; [done|]. apply Hok.
  - intros k H. destruct (Hd k H) as [? E]. split; [done|]. by rewrite HA.
Qed.

(** Whose attempt a live capability belongs to. *)
Lemma live_owner w a s t c :
  runtime_ok w -> rw_sources w !! a = Some s -> sc_live s !! t = Some c ->
  exists tok, rw_capabilities w !! t = Some tok /\ ct_source tok = Some a /\
    ct_attempt tok = cs_attempt c /\ cs_token c = t /\ ct_outcome tok = 0 /\
    rw_attempts w !! cs_attempt c = Some (Some a).
Proof.
  intros Hok Hs Hc. pose proof (ro_source _ Hok a s Hs) as Hso.
  destruct (so_live _ _ _ _ Hso t c Hc) as (Ht & tok & state & E & E1 & E2 & E3 & _).
  exists tok. pose proof (ro_token _ Hok t tok E) as Htok. unfold token_ok in Htok.
  rewrite E1 in Htok. destruct Htok as [? _]. conj; try done.
  apply (so_attempts _ _ _ _ Hso _ _ E3).
Qed.

(** * Tombstones *)

Lemma elem_insert_tombstone t l u : u ∈ insert_tombstone t l <-> u = t \/ u ∈ l.
Proof.
  induction l as [|x l IH]; cbn; [by rewrite elem_of_cons|].
  case_test; rewrite !elem_of_cons; [done|]. rewrite IH. tauto.
Qed.

Lemma zlen_insert_tombstone t l : zlen (insert_tombstone t l) = zlen l + 1.
Proof.
  induction l as [|x l IH]; cbn; [done|]. case_test; rewrite !zlen_cons; [lia|].
  rewrite IH. lia.
Qed.

Lemma insert_tombstone_sorted t l :
  StronglySorted later l -> Forall (fun u => tb_TerminalSequence u <> tb_TerminalSequence t) l ->
  StronglySorted later (insert_tombstone t l).
Proof.
  induction l as [|x l IH]; intros Hs HF; cbn; [by repeat constructor|].
  apply Forall_cons in HF as [Hx HF]. apply StronglySorted_inv in Hs as [Hs Hle].
  case_test; bool_hyps.
  - constructor; [by constructor|]. apply Forall_cons. unfold later in *. split; [lia|].
    eapply Forall_impl; [exact Hle|]. cbn. lia.
  - constructor; [by apply IH|]. rewrite Forall_forall. intros u Hu.
    apply elem_insert_tombstone in Hu as [->|Hu]; [unfold later; lia|].
    rewrite Forall_forall in Hle. by apply Hle.
Qed.

Lemma sorted_tail l : StronglySorted later l -> StronglySorted later (tail l).
Proof. destruct 1; [constructor|done]. Qed.

Lemma elem_tail {A} (x : A) l : x ∈ tail l -> x ∈ l.
Proof. destruct l; [done|]. intros. by right. Qed.

Lemma record_tombstone_elem limit t l u : u ∈ record_tombstone limit t l -> u = t \/ u ∈ l.
Proof.
  unfold record_tombstone. case_test; intros H; [apply elem_tail in H|];
    by apply elem_insert_tombstone.
Qed.

Lemma record_tombstone_bound limit t l :
  1 <= limit -> zlen l <= limit -> zlen (record_tombstone limit t l) <= limit.
Proof.
  intros H1 H2. unfold record_tombstone. pose proof (zlen_insert_tombstone t l) as E.
  case_test; bool_hyps; [|done].
  destruct (insert_tombstone t l) as [|x r]; [rewrite zlen_nil in Heqb; lia|]. cbn [tail]. rewrite zlen_cons in E. lia.
Qed.

Lemma record_tombstone_sorted limit t l :
  StronglySorted later l -> Forall (fun u => tb_TerminalSequence u <> tb_TerminalSequence t) l ->
  StronglySorted later (record_tombstone limit t l).
Proof.
  intros Hs HF. unfold record_tombstone. pose proof (insert_tombstone_sorted t l Hs HF).
  case_test; [by apply sorted_tail|done].
Qed.

(** * The end of a capability *)

Lemma outcome_code_valid o :
  validRuntimeTerminalOutcome o = true -> outcome_of_code (runtimeOutcomeCode o) = Some o.
Proof. by destruct o. Qed.

Lemma sequences_terminalize s t c o :
  sequences_ok s -> sc_live s !! t = Some c -> 1 <= al_CapabilityTombstoneLimit (sc_limits s) ->
  validRuntimeTerminalOutcome o = true ->
  sequences_ok
    (s <| sc_live := delete t (sc_live s) |>
       <| sc_tombstones :=
            record_tombstone (al_CapabilityTombstoneLimit (sc_limits s))
              {| tb_SchemaVersion := 1; tb_TerminalSequence := cs_terminalSequence c;
                 tb_TerminalOutcome := o |}
              (sc_tombstones s) |>).
Proof.
  intros [Hn He Hl Hd Ht Hs Hb] Hc Hlim Ho. destruct (Hl t c Hc) as [Hbc HFc].
  constructor; cbn; try done.
  - intros u d Hu. apply lookup_delete_Some in Hu as [Hne Hu]. destruct (Hl u d Hu) as [Hbd HFd].
    split; [done|]. rewrite Forall_forall in HFd |- *. intros x Hx.
    apply record_tombstone_elem in Hx as [->|Hx]; [|by apply HFd]. cbn.
    intros E. by apply Hne, (Hd t u c d).
  - intros u v x y Hu Hv. apply lookup_delete_Some in Hu as [_ Hu].
    apply lookup_delete_Some in Hv as [_ Hv]. by apply Hd.
  - rewrite Forall_forall in Ht |- *. intros x Hx.
    apply record_tombstone_elem in Hx as [->|Hx]; [|by apply Ht]. cbn. split; [|done].
    unfold validRuntimeTombstone. cbn. rewrite Ho. unfold before_next in Hbc.
    by test_false (cs_terminalSequence c =? 0).
  - by apply record_tombstone_sorted.
  - by apply record_tombstone_bound.
Qed.

(** The limits a source was made with. *)
Definition limits_ok (limits : RuntimeAcquisitionLimits) : Prop :=
  1 <= al_CapabilityTombstoneLimit limits /\ 1 <= al_MaxMembersPerAttempt limits /\
  1 <= al_MaxLiveCapabilities limits /\ 1 <= al_MaxAttempts limits /\
  slen (tombstone_json largest_tombstone) <= al_CapabilityTombstoneMaxEncodedBytes limits.

Definition limited (w : runtime) : Prop :=
  forall a s, rw_sources w !! a = Some s -> limits_ok (sc_limits s) /\ 0 < sc_claimLifetime s.

Lemma lookup_source_set w a s b :
  rw_sources (set_source w a s) !! b = if decide (a = b) then Some s else rw_sources w !! b.
Proof. cbn. apply lookup_insert. Qed.

(** An operation on the source [a] keeps the invariant when it keeps that of [a]
    and leaves the objects of other sources alone. *)
Lemma runtime_ok_update w w' a s' :
  runtime_ok w -> a < rw_next w' -> rw_next w <= rw_next w' ->
  rw_sources w' = <[a := s']> (rw_sources w) ->
  source_ok (rw_attempts w') (rw_capabilities w') a s' ->
  (forall k b, b <> a -> rw_attempts w !! k = Some (Some b) ->
     rw_attempts w' !! k = Some (Some b)) ->
  (forall t tok b, rw_capabilities w !! t = Some tok -> b <> a ->
     rw_attempts w !! ct_attempt tok = Some (Some b) -> rw_capabilities w' !! t = Some tok) ->
  (forall t tok, rw_capabilities w' !! t = Some tok ->
     rw_capabilities w !! t = Some tok /\ ct_source tok <> Some a \/ token_ok w' t tok) ->
  (forall k b, rw_attempts w' !! k = Some (Some b) ->
     b <> a /\ rw_attempts w !! k = Some (Some b) \/
     b = a /\ (is_Some (sc_attempts s' !! k) \/ k ∈ sc_drainedAttempts s')) ->
  (forall k, is_Some (rw_attempts w' !! k) -> k < rw_next w') ->
  (forall t, is_Some (rw_capabilities w' !! t) -> t < rw_next w') ->
  (forall v, is_Some (rw_views w' !! v) -> v < rw_next w') ->
  runtime_ok w'.
Proof.
  intros Hok Ha Hn HS Hsrc HA HC HT HK HfA HfC HfV. constructor; try done.
  - intros b s. rewrite HS, lookup_insert. case_decide as E; [by subst b; intros [= <-]|].
    intros Hb. eapply source_ok_frame; [by apply (ro_source _ Hok)| |].
    + intros k Hk. rewrite Hk. by apply HA.
    + intros t tok Ht Hk. by eapply HC.
  - intros t tok Ht. destruct (HT t tok Ht) as [[Ht' Hne]|]; [|done].
    pose proof (ro_token _ Hok t tok Ht') as H. unfold token_ok in *.
    destruct (ct_source tok) as [b|]; [|done]. destruct H as (H0 & s & Hs & Hl).
    split; [done|]. exists s. split; [|done]. rewrite HS, lookup_insert_ne; [done|congruence].
  - intros k b Hk. destruct (HK k b Hk) as [[Hne Hk']|[-> H]].
    + destruct (ro_attempt _ Hok k b Hk') as (s & Hs & H). exists s. split; [|done].
      by rewrite HS, lookup_insert_ne by congruence.
    + exists s'. split; [|done]. by rewrite HS, lookup_insert_eq.
  - intros b [s Hb]. rewrite HS in Hb. apply lookup_insert_Some in Hb as [[<- _]|[_ Hb]]; [done|].
    pose proof (ro_fresh_source _ Hok b ltac:(eauto)). lia.
Qed.

(** The parts of the store that an operation leaves as they are. *)
Ltac unchanged Hok :=
  try done; try lia;
  try solve [apply (ro_fresh_source _ Hok); eauto | apply (ro_fresh_attempt _ Hok)
            | apply (ro_fresh_token _ Hok) | apply (ro_fresh_view _ Hok)].

(** A token stays well formed while its source keeps it live. *)
Lemma token_kept w w' a s s' t tok :
  runtime_ok w -> rw_sources w !! a = Some s -> rw_sources w' !! a = Some s' ->
  (is_Some (sc_live s !! t) -> is_Some (sc_live s' !! t)) ->
  rw_capabilities w !! t = Some tok ->
  rw_capabilities w !! t = Some tok /\ ct_source tok <> Some a \/ token_ok w' t tok.
Proof.
  intros Hok Hs Hs' Hl Ht. destruct (decide (ct_source tok = Some a)) as [E|E]; [right|by left].
  pose proof (ro_token _ Hok t tok Ht) as Htok. unfold token_ok in *. rewrite E in *.
  destruct Htok as (? & s0 & Hs0 & Hl0). split; [done|]. exists s'. split; [done|].
  apply Hl. congruence.
Qed.

(** An attempt stays known while its source keeps it. *)
Lemma attempt_kept w a s s' k b :
  runtime_ok w -> rw_sources w !! a = Some s ->
  (is_Some (sc_attempts s !! k) \/ k ∈ sc_drainedAttempts s ->
   is_Some (sc_attempts s' !! k) \/ k ∈ sc_drainedAttempts s') ->
  rw_attempts w !! k = Some (Some b) ->
  b <> a /\ rw_attempts w !! k = Some (Some b) \/
  b = a /\ (is_Some (sc_attempts s' !! k) \/ k ∈ sc_drainedAttempts s').
Proof.
  intros Hok Hs Hk E. destruct (decide (b = a)) as [->|]; [right|by left]. split; [done|].
  destruct (ro_attempt _ Hok k a E) as (s0 & Hs0 & H). rewrite Hs in Hs0. injection Hs0 as <-.
  auto.
Qed.

(** What [terminalizeLocked] does, given the token. *)
Definition ended (s : RuntimeAcquisitionSource) (c : runtimeCapabilityState)
    (o : RuntimeCapabilityTerminalOutcome) : RuntimeAcquisitionSource :=
  s <| sc_live := delete (cs_token c) (sc_live s) |>
    <| sc_tombstones :=
         record_tombstone (al_CapabilityTombstoneLimit (sc_limits s))
           {| tb_SchemaVersion := 1; tb_TerminalSequence := cs_terminalSequence c;
              tb_TerminalOutcome := o |}
           (sc_tombstones s) |>.

Lemma terminalize_eq w a s c o tok :
  rw_capabilities w !! cs_token c = Some tok ->
  terminalizeLocked w a s c o
  = set_capability (set_source w a (ended s c o)) (cs_token c)
      (tok <| ct_outcome := runtimeOutcomeCode o |> <| ct_source := None |>).
Proof.
  intros H. unfold terminalizeLocked.
  change (rw_capabilities (set_source w a _)) with (rw_capabilities w). by rewrite H.
Qed.

Lemma terminalize_ok w a s t c o :
  runtime_ok w -> limited w -> rw_sources w !! a = Some s -> sc_live s !! t = Some c ->
  validRuntimeTerminalOutcome o = true -> runtime_ok (terminalizeLocked w a s c o).
Proof.
  intros Hok Hlim Hs Hc Ho. destruct (live_owner w a s t c Hok Hs Hc)
    as (tok & Htok & Hsrc & Hatt & <- & Hout & Hk).
  rewrite (terminalize_eq w a s c o tok Htok).
  pose proof (ro_source _ Hok a s Hs) as Hso. destruct (Hlim a s Hs) as [Hli _].
  apply (runtime_ok_update w _ a (ended s c o)); cbn; unchanged Hok.
  - destruct Hso as [Hl Hat Hd Hsq Hlb Hab Hre]. constructor; cbn; try done.
    + intros u d Hu. apply lookup_delete_Some in Hu as [Hne Hu].
      destruct (Hl u d Hu) as (? & tok' & state & E & ?). split; [done|].
      exists tok', state. split; [|done]. by rewrite lookup_insert_ne.
    + intros k state Hst. eapply attempt_ok_frame; [by apply Hat|done|].
      intros u tok' Hu Hka. rewrite lookup_insert. case_decide as E.
      * subst u. rewrite Htok in Hu. injection Hu as <-. eauto.
      * eauto.
    + apply (sequences_terminalize s (cs_token c)); try done. apply Hli.
    + pose proof (msize_delete (sc_live s) (cs_token c)). lia.
    + intros Hr. destruct (Hre Hr) as (E & ? & ?). rewrite E. conj; try done.
  - intros u tok' b Hu Hb Hub. rewrite lookup_insert_ne; [done|]. intros <-.
    rewrite Htok in Hu. injection Hu as <-. rewrite Hatt, Hk in Hub. by injection Hub.
  - intros u tok' Hu. apply lookup_insert_Some in Hu as [[<- <-]|[Hne Hu]].
    + right. unfold token_ok. cbn. rewrite outcome_code_valid by done. by eexists.
    + apply (token_kept w _ a s (ended s c o)); try done; cbn; [by rewrite lookup_insert_eq|].
      by rewrite lookup_delete_ne.
  - intros k b. by apply (attempt_kept w a s).
  - intros u Hu. destruct (decide (u = cs_token c)) as [->|].
    + apply (ro_fresh_token _ Hok). eauto.
    + rewrite lookup_insert_ne in Hu by done. by apply (ro_fresh_token _ Hok).
Qed.

(** * Steps of one source *)

(** A step that changes no token. *)
Lemma source_step w a s s' :
  runtime_ok w -> rw_sources w !! a = Some s ->
  source_ok (rw_attempts w) (rw_capabilities w) a s' ->
  (forall t, is_Some (sc_live s !! t) -> is_Some (sc_live s' !! t)) ->
  (forall k, is_Some (sc_attempts s !! k) \/ k ∈ sc_drainedAttempts s ->
     is_Some (sc_attempts s' !! k) \/ k ∈ sc_drainedAttempts s') ->
  runtime_ok (set_source w a s').
Proof.
  intros Hok Hs Hso Hl Hk.
  apply (runtime_ok_update w _ a s'); cbn; unchanged Hok.
  - intros t tok. apply (token_kept w _ a s s'); try done; [by cbn; rewrite lookup_insert_eq|].
    apply Hl.
  - intros k b. apply (attempt_kept w a s); [done|done|]. apply Hk.
Qed.

(** A live token is not terminal. *)
Lemma live_not_terminal w a s t :
  runtime_ok w -> rw_sources w !! a = Some s -> is_Some (sc_live s !! t) -> terminal w t = false.
Proof.
  intros Hok Hs [c Hc]. destruct (live_owner w a s t c Hok Hs Hc) as (tok & Htok & _ & _ & _ & E & _).
  unfold terminal, runtimeOutcomeOf. cbn. rewrite Htok. cbn. by rewrite E.
Qed.

(** A token that is not live is terminal. *)
Lemma settled_terminal w t tok :
  runtime_ok w -> rw_capabilities w !! t = Some tok ->
  (forall a s, ct_source tok = Some a -> rw_sources w !! a = Some s -> sc_live s !! t = None) ->
  terminal w t = true.
Proof.
  intros Hok Ht Hn. pose proof (ro_token _ Hok t tok Ht) as H. unfold token_ok in H.
  unfold terminal, runtimeOutcomeOf. cbn. rewrite Ht. cbn. destruct (ct_source tok) as [a|] eqn:E.
  - destruct H as (_ & s & Hs & [c Hc]). by rewrite (Hn a s) in Hc.
  - by destruct H as [o ->].
Qed.

(** The attempt of no live capability may go. *)
Definition idle_attempt (s : RuntimeAcquisitionSource) (k : Z) : Prop :=
  forall t c, sc_live s !! t = Some c -> cs_attempt c <> k.

Lemma reclaim_ok w a k : runtime_ok w -> runtime_ok (reclaimAttemptIfTerminalLocked w a k).
Proof.
  intros Hok. unfold reclaimAttemptIfTerminalLocked.
  destruct (rw_sources w !! a) as [s|] eqn:Hs; [|done].
  destruct (sc_attempts s !! k) as [state|] eqn:Hst; [|done].
  destruct (bool_decide _) eqn:Hph; cbn [negb]; [|done]. bool_hyps.
  destruct (forallb _ _) eqn:Hall; [|done].
  pose proof (ro_source _ Hok a s Hs) as Hso.
  assert (Hidle : idle_attempt s k).
  { intros t c Hc Hck. destruct (so_live _ _ _ _ Hso t c Hc) as (_ & tok & state' & _ & _ & _ & E & Er).
    rewrite Hck, Hst in E. injection E as <-.
    assert (Hin : t ∈ as_members state).
    { apply (ao_members _ _ _ _ _ _ (so_attempts _ _ _ _ Hso _ _ Hst)); eauto. }
    rewrite forallb_forall in Hall. specialize (Hall t ltac:(by apply list_elem_of_In)).
    by rewrite (live_not_terminal w a s t) in Hall by eauto. }
  apply (source_step w a s); try done.
  - destruct Hso as [Hl Hat Hd Hsq Hlb Hab Hre]. constructor; cbn; try done.
    + intros t c Hc. destruct (Hl t c Hc) as (? & tok & st & ? & ? & ? & ? & ?). split; [done|].
      exists tok, st. conj; try done. rewrite lookup_delete_ne; [done|].
      intros E. by apply (Hidle t c Hc).
    + intros k' st H. apply lookup_delete_Some in H as [_ H]. by apply Hat.
    + intros k'. rewrite elem_of_union, elem_of_singleton. intros [->|H].
      * rewrite lookup_delete_eq. split; [done|]. apply (Hat _ _ Hst).
      * destruct (Hd k' H) as [E ?]. split; [|done]. by apply lookup_delete_None; right.
    + by destruct Hsq.
    + rewrite (msize_delete_Some _ _ state) by done.
      assert (k ∉ sc_drainedAttempts s).
      { intros H. destruct (Hd k H) as [E _]. congruence. }
      rewrite size_union, size_singleton by set_solver. lia.
    + intros Hr. destruct (Hre Hr) as (_ & E & _). by rewrite E in Hst.
  - intros k'. cbn. destruct (decide (k' = k)) as [->|]; [right; set_solver|].
    rewrite lookup_delete_ne by done. intros [?|?]; [by left|right; set_solver].
Qed.

Lemma drop_attempt_ok w a s k :
  runtime_ok w -> rw_sources w !! a = Some s -> idle_attempt s k ->
  rw_attempts w !! k = Some (Some a) -> k ∉ sc_drainedAttempts s -> runtime_ok (drop_attempt w a k).
Proof.
  intros Hok Hs Hidle Hk Hnd. unfold drop_attempt. rewrite Hs.
  pose proof (ro_source _ Hok a s Hs) as Hso.
  set (s1 := s <| sc_attempts := delete k (sc_attempts s) |>).
  apply (runtime_ok_update w _ a s1); cbn; unchanged Hok.
  - destruct Hso as [Hl Hat Hd Hsq Hlb Hab Hre]. constructor; cbn; try done.
    + intros t c Hc. destruct (Hl t c Hc) as (? & tok & st & ? & ? & ? & ? & ?). split; [done|].
      exists tok, st. conj; try done. rewrite lookup_delete_ne; [done|].
      intros E. by apply (Hidle t c Hc).
    + intros k' st H. apply lookup_delete_Some in H as [Hne H].
      eapply attempt_ok_frame; [by apply Hat| |by eauto]. intros _. by rewrite lookup_insert_ne.
    + intros k' H. destruct (Hd k' H) as [E ?]. split; [by apply lookup_delete_None; right|].
      rewrite lookup_insert_ne; [done|]. by intros <-.
    + by destruct Hsq.
    + pose proof (msize_delete (sc_attempts s) k). lia.
    + intros Hr. destruct (Hre Hr) as (? & E & ?). rewrite E. conj; done.
  - intros k' b Hb Hb'. rewrite lookup_insert_ne; [done|]. intros <-. congruence.
  - intros t tok. eapply (token_kept w _ a s); [done|done|by cbn; rewrite lookup_insert_eq|done].
  - intros k' b H. apply lookup_insert_Some in H as [[_ ?]|[Hne H]]; [done|].
    apply (attempt_kept w a s s1); try done. cbn. by rewrite lookup_delete_ne.
  - intros k' H. destruct (decide (k' = k)) as [->|].
    + apply (ro_fresh_attempt _ Hok). eauto.
    + rewrite lookup_insert_ne in H by congruence. by apply (ro_fresh_attempt _ Hok).
Qed.

(** What ending capabilities of the source [a] leaves as it is. *)
Record ends (w w' : runtime) (a : Z) (s s' : RuntimeAcquisitionSource) : Prop := mkEnds {
  en_ok : runtime_ok w';
  en_limited : limited w';
  en_source : rw_sources w' !! a = Some s';
  en_attempts : sc_attempts s' = sc_attempts s;
  en_drained : sc_drainedAttempts s' = sc_drainedAttempts s;
  en_retired : sc_retired s' = sc_retired s;
  en_limits : sc_limits s' = sc_limits s;
  en_tokens : rw_attempts w' = rw_attempts w;
  en_live : forall t c, sc_live s' !! t = Some c -> sc_live s !! t = Some c
}.

Lemma limited_set w a s s' :
  limited w -> rw_sources w !! a = Some s -> sc_limits s' = sc_limits s ->
  sc_claimLifetime s' = sc_claimLifetime s -> limited (set_source w a s').
Proof.
  intros Hl Hs E1 E2 b s0. rewrite lookup_source_set. case_decide as E; [|apply Hl].
  subst b. intros [= <-]. rewrite E1, E2. exact (Hl a s Hs).
Qed.

Lemma terminalize_ends w a s t c o :
  runtime_ok w -> limited w -> rw_sources w !! a = Some s -> sc_live s !! t = Some c ->
  validRuntimeTerminalOutcome o = true ->
  ends w (terminalizeLocked w a s c o) a s (ended s c o) /\ cs_token c = t.
Proof.
  intros Hok Hlim Hs Hc Ho. destruct (live_owner w a s t c Hok Hs Hc) as (tok & Htok & _ & _ & Ht & _).
  split; [|done]. rewrite <- Ht in Htok. constructor;
    [by eapply terminalize_ok|..]; rewrite ?(terminalize_eq w a s c o tok Htok); try done.
  - by apply (limited_set w a s).
  - cbn. by rewrite lookup_insert_eq.
  - cbn. intros u d Hu. by apply lookup_delete_Some in Hu as [_ ?].
Qed.

Lemma end_tokens_ends tokens w a s o :
  runtime_ok w -> limited w -> rw_sources w !! a = Some s ->
  validRuntimeTerminalOutcome o = true ->
  exists s', ends w (end_tokens w a o tokens) a s s' /\ (forall t, t ∈ tokens -> sc_live s' !! t = None).
Proof.
  revert w s. induction tokens as [|t tokens IH]; intros w s Hok Hlim Hs Ho.
  { exists s. split; [by constructor|]. intros t Ht. by apply not_elem_of_nil in Ht. }
  cbn [end_tokens foldl]. unfold end_tokens in *.
  destruct (sc_live s !! t) as [c|] eqn:Hc.
  - assert (E : end_live w a t o = terminalizeLocked w a s c o)
      by (unfold end_live; by rewrite Hs, Hc).
    rewrite E. destruct (terminalize_ends w a s t c o) as [He Ht]; try done.
    destruct (IH _ (ended s c o) (en_ok _ _ _ _ _ He) (en_limited _ _ _ _ _ He)
                (en_source _ _ _ _ _ He) Ho) as (s' & He' & Hn).
    exists s'. split.
    + destruct He, He'. constructor; try done; try congruence; eauto.
    + intros u Hu. apply elem_of_cons in Hu as [->|Hu]; [|by apply Hn].
      destruct (sc_live s' !! t) as [d|] eqn:Ed; [|done].
      apply (en_live _ _ _ _ _ He') in Ed. cbn in Ed. rewrite Ht in Ed.
      by rewrite lookup_delete_eq in Ed.
  - assert (E : end_live w a t o = w) by (unfold end_live; by rewrite Hs, Hc).
    rewrite E. destruct (IH w s Hok Hlim Hs Ho) as (s' & He' & Hn). exists s'. split; [done|].
    intros u Hu. apply elem_of_cons in Hu as [->|Hu]; [|by apply Hn].
    destruct (sc_live s' !! t) as [d|] eqn:Ed; [|done].
    apply (en_live _ _ _ _ _ He') in Ed. congruence.
Qed.

Lemma reclaim_limited w a k : limited w -> limited (reclaimAttemptIfTerminalLocked w a k).
Proof.
  intros Hl. unfold reclaimAttemptIfTerminalLocked.
  destruct (rw_sources w !! a) as [s|] eqn:Hs; [|done].
  destruct (sc_attempts s !! k); [|done]. repeat case_test; try done. by apply (limited_set w a s).
Qed.

Lemma drop_limited w a k : limited w -> limited (drop_attempt w a k).
Proof.
  intros Hl. unfold drop_attempt. destruct (rw_sources w !! a) as [s|] eqn:Hs; [|done].
  intros b s0 Hb. by refine (limited_set w a s _ Hl Hs _ _ b s0 Hb).
Qed.

(** Every live capability of an attempt is among its registered tokens. *)
Lemma idle_after A C a s s' k state :
  source_ok A C a s -> sc_attempts s !! k = Some state ->
  (forall t c, sc_live s' !! t = Some c -> sc_live s !! t = Some c) ->
  (forall o t, as_registered state !! o = Some t -> sc_live s' !! t = None) ->
  idle_attempt s' k.
Proof.
  intros Hso Hst Hl Hn t c Hc Hk. pose proof (Hl t c Hc) as Hc'.
  destruct (so_live _ _ _ _ Hso t c Hc') as (_ & tok & st & _ & _ & _ & E & Er).
  rewrite Hk, Hst in E. injection E as <-. by rewrite (Hn _ _ Er) in Hc.
Qed.

(** * Attempts *)

Lemma fresh_none {A} (m : gmap Z A) n :
  (forall k, is_Some (m !! k) -> k < n) -> m !! n = None.
Proof. intros H. apply eq_None_not_Some. intros Hn. specialize (H n Hn). lia. Qed.

(** An address that is no attempt of the source. *)
Lemma attempt_fresh w a s :
  runtime_ok w -> rw_sources w !! a = Some s ->
  sc_attempts s !! rw_next w = None /\ rw_next w ∉ sc_drainedAttempts s.
Proof.
  intros Hok Hs. pose proof (ro_source _ Hok a s Hs) as Hso.
  pose proof (fresh_none _ _ (ro_fresh_attempt _ Hok)) as Hn. split.
  - destruct (sc_attempts s !! rw_next w) as [st|] eqn:E; [|done].
    pose proof (ao_owned _ _ _ _ _ _ (so_attempts _ _ _ _ Hso _ _ E)). congruence.
  - intros H. destruct (so_drained _ _ _ _ Hso _ H) as [_ E]. congruence.
Qed.

Lemma begin_ok w a key : runtime_ok w -> limited w -> runtime_ok (fst (BeginAttempt w a key)).
Proof.
  intros Hok Hlim. unfold BeginAttempt. destruct (rw_sources w !! a) as [s|] eqn:Hs; [|done].
  case_test; [done|]. case_test; [done|]. case_test; [done|]. cbv zeta. cbn [fst]. bool_hyps.
  pose proof (ro_source _ Hok a s Hs) as Hso. destruct (attempt_fresh w a s Hok Hs) as [Hf1 Hf2].
  pose proof (ro_fresh_source _ Hok a ltac:(eauto)).
  set (k := rw_next w) in *. set (st := mkRuntimeAttemptState _ _ _ _ _).
  set (s1 := s <| sc_attempts := <[k := st]> (sc_attempts s) |>).
  apply (runtime_ok_update w _ a s1); cbn; unchanged Hok.
  - destruct Hso as [Hl Hat Hd Hsq Hlb Hab Hre]. constructor; cbn; try done.
    + intros t c Hc. destruct (Hl t c Hc) as (? & tok & st' & ? & ? & ? & E & ?). split; [done|].
      exists tok, st'. conj; try done. rewrite lookup_insert_ne; [done|]. congruence.
    + intros k' st' H'. apply lookup_insert_Some in H' as [[<- <-]|[Hne H']].
      * destruct (Hlim a s Hs) as [Hli _]. unfold limits_ok in Hli.
        constructor; cbn; try done; [by rewrite lookup_insert_eq|].
        unfold msize. rewrite map_size_empty. lia.
      * eapply attempt_ok_frame; [by apply Hat| |by eauto]. intros _. by rewrite lookup_insert_ne.
    + intros k' H'. destruct (Hd k' H') as [E1 E2]. 
      assert (k <> k') by congruence. by rewrite !lookup_insert_ne.
    + by destruct Hsq.
    + rewrite msize_insert_None by done. lia.
    + intros Hr. congruence.
  - intros k' b Hb E. rewrite lookup_insert_ne; [done|].
    pose proof (ro_fresh_attempt _ Hok k' ltac:(eauto)). unfold k. lia.
  - intros t tok. eapply (token_kept w _ a s); [done|done|by cbn; rewrite lookup_insert_eq|done].
  - intros k' b E. apply lookup_insert_Some in E as [[<- [= ->]]|[Hne E]].
    + right. split; [done|]. left. rewrite lookup_insert_eq. eauto.
    + apply (attempt_kept w a s s1); try done. cbn. by rewrite lookup_insert_ne.
  - intros k' [x E]. apply lookup_insert_Some in E as [[<- _]|[Hne E]]; [lia|].
    pose proof (ro_fresh_attempt _ Hok k' ltac:(eauto)). unfold k. lia.
  - intros t E. pose proof (ro_fresh_token _ Hok t E). unfold k. lia.
  - intros v E. pose proof (ro_fresh_view _ Hok v E). unfold k. lia.
Qed.

(** * Issuing *)

Lemma same_views_ok w w' :
  runtime_ok w -> rw_next w' = rw_next w -> rw_sources w' = rw_sources w ->
  rw_attempts w' = rw_attempts w -> rw_capabilities w' = rw_capabilities w ->
  (forall v, is_Some (rw_views w' !! v) -> v < rw_next w') -> runtime_ok w'.
Proof.
  intros [] En Es Ea Ec Hv.
  constructor; unfold token_ok in *; rewrite ?En, ?Es, ?Ea, ?Ec; try done. by rewrite En in Hv.
Qed.

Lemma set_view_ok w v st : runtime_ok w -> runtime_ok (set_view w v st).
Proof.
  intros Hok. unfold set_view. destruct (rw_views w !! v) as [x|] eqn:E; [|done].
  apply (same_views_ok w); try done. cbn. intros u [y H].
  apply lookup_insert_Some in H as [[<- _]|[_ H]]; apply (ro_fresh_view _ Hok); eauto.
Qed.

Lemma set_view_sources w v st :
  rw_sources (set_view w v st) = rw_sources w /\ rw_next (set_view w v st) = rw_next w /\
  rw_attempts (set_view w v st) = rw_attempts w /\
  rw_capabilities (set_view w v st) = rw_capabilities w.
Proof. unfold set_view. by destruct (rw_views w !! v). Qed.

Lemma reserve_spec s s1 seq :
  sequences_ok s -> reserveTerminalSequenceLocked s = (s1, Ok seq) ->
  seq = sc_nextTerminalSequence s /\ 1 <= seq <= MaxUint64 /\
  s1 = s <| sc_nextTerminalSequence := if seq =? MaxUint64 then 0 else seq + 1 |>
         <| sc_sequenceExhausted := seq =? MaxUint64 |>.
Proof.
  intros [Hn He _ _ _ _ _]. unfold reserveTerminalSequenceLocked. case_test; [done|]. bool_hyps.
  destruct (_ =? MaxUint64) eqn:E; intros [= <- <-]; rewrite E; bool_hyps;
    (conj; [done|lia|lia|]); [done|].
  destruct s; cbn in *. by subst.
Qed.

Lemma sequences_issue s s1 seq t c :
  sequences_ok s -> reserveTerminalSequenceLocked s = (s1, Ok seq) ->
  sc_live s !! t = None -> cs_terminalSequence c = seq ->
  sequences_ok (s1 <| sc_live := <[t := c]> (sc_live s) |>).
Proof.
  intros Hsq Hr Ht Hc. destruct (reserve_spec s s1 seq Hsq Hr) as (Hseq & Hb & ->).
  destruct Hsq as [Hn He Hl Hd Htb Hs Hbd].
  assert (Hlt : forall x, before_next (sc_nextTerminalSequence s) x ->
    x < seq /\ before_next (if seq =? MaxUint64 then 0 else seq + 1) x).
  { unfold before_next. intros x [? ?]. case_test; bool_hyps; lia. }
  constructor; cbn; try done.
  - case_test; bool_hyps; lia.
  - destruct (seq =? MaxUint64) eqn:E; bool_hyps; [done|]. split; [done|]. lia.
  - intros u d Hu. apply lookup_insert_Some in Hu as [[<- <-]|[Hne Hu]].
    + split; [unfold before_next; case_test; bool_hyps; lia|].
      eapply Forall_impl; [exact Htb|]. cbn. intros x [_ Hx]. destruct (Hlt _ Hx). lia.
    + destruct (Hl u d Hu) as [H1 H2]. split; [by apply Hlt|done].
  - intros u v x y Hu Hv. apply lookup_insert_Some in Hu as [[<- <-]|[Hne Hu]];
      apply lookup_insert_Some in Hv as [[<- <-]|[Hne' Hv]]; try done.
    + destruct (Hl v y Hv) as [H1 _]. destruct (Hlt _ H1). lia.
    + destruct (Hl u x Hu) as [H1 _]. destruct (Hlt _ H1). lia.
    + by apply Hd.
  - eapply Forall_impl; [exact Htb|]. cbn. intros x [? Hx]. split; [done|]. by apply Hlt.
Qed.

Lemma issue_locked_ok w a s k o now w' key t :
  runtime_ok w -> rw_sources w !! a = Some s -> issue_locked w a s k o now = Ok (w', key, t) ->
  runtime_ok w'.
Proof.
  intros Hok Hs. unfold issue_locked.
  destruct (sc_attempts s !! k) as [state|] eqn:Hst; [|done].
  case_test; [done|]. case_test; [done|].
  destruct (bool_decide (is_Some _)) eqn:Ho; [done|]. case_test; [done|].
  destruct (reserveTerminalSequenceLocked s) as [s0 [seq|]] eqn:Hr; [|done].
  intros [= <- _ <-]. bool_hyps. apply eq_None_not_Some in Ho.
  pose proof (ro_source _ Hok a s Hs) as Hso. pose proof (ro_fresh_source _ Hok a ltac:(eauto)).
  pose proof (fresh_none _ _ (ro_fresh_token _ Hok)) as Hft.
  assert (Hfl : sc_live s !! rw_next w = None).
  { destruct (sc_live s !! rw_next w) as [c|] eqn:E; [|done].
    destruct (live_owner w a s _ c Hok Hs E) as (tok & E' & _). congruence. }
  pose proof (so_sequences _ _ _ _ Hso) as Hsq.
  destruct (reserve_spec s s0 seq Hsq Hr) as (Hseq & _ & Hs0).
  pose proof (fun c => sequences_issue s s0 seq (rw_next w) c Hsq Hr Hfl) as Hsq1.
  set (t := rw_next w) in *.
  set (c := {| cs_token := t; cs_attempt := k; cs_terminalSequence := seq;
               cs_claimDeadline := now + sc_claimLifetime s0 |}) in *.
  set (tok := {| ct_source := Some a; ct_attempt := k; ct_ordinal := o; ct_outcome := 0 |}) in *.
  specialize (Hsq1 c eq_refl). clear Hr.
  match goal with |- context [set_source w a ?x] => set (s1 := x) end.
  assert (Hl1 : sc_live s1 = <[t := c]> (sc_live s)) by (subst s1; rewrite Hs0; done).
  assert (Ha1 : sc_attempts s1
    = <[k := state <| as_registered := <[o := t]> (as_registered state) |>]> (sc_attempts s))
    by (subst s1; rewrite Hs0; done).
  assert (Hd1 : sc_drainedAttempts s1 = sc_drainedAttempts s) by (subst s1; rewrite Hs0; done).
  assert (Hlim1 : sc_limits s1 = sc_limits s) by (subst s1; rewrite Hs0; done).
  assert (Hre1 : sc_retired s1 = sc_retired s) by (subst s1; rewrite Hs0; done).
  assert (Hsq1' : sequences_ok s1) by (subst s1; rewrite Hs0 in *; by destruct Hsq1).
  clearbody s1. clear Hsq1 Hs0.
  apply (runtime_ok_update w _ a s1); cbn; try done; try lia.
  - destruct Hso as [Hl Hat Hd _ Hlb Hab Hre]. constructor; try done.
    + rewrite Hl1, Ha1. intros u d Hu. apply lookup_insert_Some in Hu as [[<- <-]|[Hne Hu]].
      * split; [done|]. exists tok. eexists. rewrite !lookup_insert_eq. conj; try done.
        cbn. by rewrite lookup_insert_eq.
      * destruct (Hl u d Hu) as (? & tk & st & ? & ? & ? & Hst' & Hr'). split; [done|].
        destruct (decide (cs_attempt d = k)) as [E|E].
        -- rewrite E in Hst' |- *. rewrite Hst in Hst'. injection Hst' as <-.
           exists tk. eexists. rewrite lookup_insert_ne, lookup_insert_eq by done. conj; try done.
           ++ congruence.
           ++ cbn. rewrite lookup_insert_ne; [done|]. congruence.
        -- exists tk, st. by rewrite !lookup_insert_ne by done.
    + rewrite Ha1, Hlim1. intros k' st' Hk'. 
      assert (Hframe : forall st0, attempt_ok (rw_attempts w) (rw_capabilities w) a (sc_limits s) k' st0 ->
        attempt_ok (rw_attempts w) (<[t := tok]> (rw_capabilities w)) a (sc_limits s) k' st0).
      { intros st0 Hst0. eapply attempt_ok_frame; [done|done|]. intros u tk Hu Hk0. exists tk.
        rewrite lookup_insert_ne by congruence. done. }
      apply lookup_insert_Some in Hk' as [[<- <-]|[Hne Hk']]; [|by apply Hframe, Hat].
      destruct (Hframe _ (Hat _ _ Hst)) as [E1 E2 E3 E4 E5]. constructor; cbn; try done.
      * rewrite msize_insert_None by done. lia.
      * intros o' u Hu. apply lookup_insert_Some in Hu as [[<- <-]|[_ Hu]]; [|by apply E4].
        exists tok. by rewrite lookup_insert_eq.
      * intros Hph. congruence.
    + rewrite Hd1, Ha1. intros k' Hk'. destruct (Hd k' Hk') as [E1 E2]. split; [|done].
      rewrite lookup_insert_ne; [done|]. congruence.
    + rewrite Hl1, Hlim1, msize_insert_None by done. lia.
    + rewrite Ha1, Hd1, Hlim1. by rewrite (msize_insert_Some _ _ _ state).
    + rewrite Hre1. intros Hret. congruence.
  - intros u tk b Hu Hb Hub. rewrite lookup_insert_ne; [done|]. congruence.
  - intros u tk Hu. apply lookup_insert_Some in Hu as [[<- <-]|[Hne Hu]].
    + right. unfold token_ok. cbn. split; [done|]. exists s1. rewrite lookup_insert_eq, Hl1.
      rewrite lookup_insert_eq. eauto.
    + apply (token_kept w _ a s s1); try done; [by cbn; rewrite lookup_insert_eq|].
      by rewrite Hl1, lookup_insert_ne.
  - intros k' b. apply (attempt_kept w a s s1); [done|done|]. rewrite Ha1, Hd1.
    destruct (decide (k = k')) as [<-|]; [rewrite lookup_insert_eq; eauto|by rewrite lookup_insert_ne].
  - intros k' E. pose proof (ro_fresh_attempt _ Hok k' E). unfold t. lia.
  - intros u [x E]. apply lookup_insert_Some in E as [[<- _]|[_ E]]; [lia|].
    pose proof (ro_fresh_token _ Hok u ltac:(eauto)). unfold t. lia.
  - intros v E. pose proof (ro_fresh_view _ Hok v E). unfold t. lia.
Qed.

(** The source after an issue, in a store where nothing else but tokens changed. *)
Lemma issue_locked_source w a s k o now w' key t :
  runtime_ok w -> rw_sources w !! a = Some s -> issue_locked w a s k o now = Ok (w', key, t) ->
  exists s', rw_sources w' = <[a := s']> (rw_sources w) /\ sc_limits s' = sc_limits s /\
    sc_claimLifetime s' = sc_claimLifetime s.
Proof.
  intros Hok Hs. unfold issue_locked. destruct (sc_attempts s !! k) as [state|]; [|done].
  do 4 (case_test; [done|]).
  destruct (reserveTerminalSequenceLocked s) as [s0 [seq|]] eqn:Hr; [|done].
  destruct (reserve_spec s s0 seq) as (_ & _ & ->);
    [apply (ro_source _ Hok a s Hs)|done|]. intros [= <- _ _]. cbn. by eexists.
Qed.

Lemma issue_ok w a attempt o view v normalization now :
  runtime_ok w -> limited w -> 
  runtime_ok (fst (Issue w a attempt o view v normalization now)) /\
  limited (fst (Issue w a attempt o view v normalization now)).
Proof.
  intros Hok Hlim. unfold Issue. destruct (rw_sources w !! a) as [s|] eqn:Hs; [|done].
  destruct attempt as [k|]; [|done]. destruct v as [v|]; [|done].
  case_test; [done|]. case_test; [done|]. cbv zeta.
  assert (Hv : forall w0 st, limited w0 -> limited (set_view w0 v st)).
  { intros w0 st H b s0. rewrite (proj1 (set_view_sources w0 v st)). apply H. }
  set (w1 := set_view w v runtimeViewIssuing).
  assert (Hok1 : runtime_ok w1) by (by apply set_view_ok).
  assert (Hs1 : rw_sources w1 !! a = Some s)
    by (subst w1; by rewrite (proj1 (set_view_sources w v _))).
  case_test; [split; cbn; [by apply set_view_ok|by apply Hv, Hv]|].
  destruct (issue_locked w1 a s k o now) as [[[w2 key] t]|] eqn:E.
  - cbn. split; [by apply set_view_ok; eapply issue_locked_ok|]. apply Hv.
    destruct (issue_locked_source _ _ _ _ _ _ _ _ _ Hok1 Hs1 E) as (s2 & Hs2 & E1 & E2).
    intros b s0. rewrite Hs2, lookup_insert. destruct (decide (a = b)) as [<-|].
    + intros [= <-]. rewrite E1, E2. exact (Hlim a s Hs).
    + apply (Hv w _ Hlim b s0).
  - cbn. split; [by apply set_view_ok|by apply Hv, Hv].
Qed.

(** * Closing *)

(** A map that has exactly as many entries as it has keys below [n]. *)
Lemma initial_segment {A} (m : gmap Z A) (n : nat) :
  size m = n -> (forall i : nat, (i < n)%nat -> is_Some (m !! Z.of_nat i)) ->
  forall o, is_Some (m !! o) -> exists i : nat, (i < n)%nat /\ o = Z.of_nat i.
Proof.
  intros Hn Hi o Ho. set (X := list_to_set (Z.of_nat <$> seq 0 n) : gset Z).
  assert (HX : X = dom m).
  { apply set_subseteq_size_eq.
    - intros x Hx. apply elem_of_list_to_set, list_elem_of_fmap in Hx as (i & -> & Hin).
      apply elem_of_seq in Hin. apply elem_of_dom, Hi. lia.
    - rewrite size_dom. subst X. rewrite size_list_to_set.
      + rewrite length_fmap, length_seq. lia.
      + apply NoDup_fmap_2; [intros x y; lia|apply NoDup_seq]. }
  apply elem_of_dom in Ho. rewrite <- HX in Ho.
  apply elem_of_list_to_set, list_elem_of_fmap in Ho as (i & -> & Hin).
  apply elem_of_seq in Hin. exists i. split; [lia|done].
Qed.

(** What [exactMembershipLocked] checks, member by member. *)
Lemma exact_members_spec w s state members index seen :
  exact_members w s state index seen members = true ->
  length (member_tokens members) = length members /\
  forall i t, member_tokens members !! i = Some t ->
    as_registered state !! (index + Z.of_nat i) = Some t.
Proof.
  revert index seen. induction members as [|m members IH]; intros index seen; cbn [exact_members].
  { intros _. split; [done|]. by intros [|i] t. }
  destruct (aq_capability m) as [t|] eqn:Et; [|done].
  destruct (rw_capabilities w !! t) as [tok|]; [|done]. intros H. bool_hyps.
  match goal with H : exact_members _ _ _ _ _ _ = true |- _ => destruct (IH _ _ H) as [Hl Hi] end.
  unfold member_tokens in *. cbn. rewrite Et. cbn. split; [lia|]. intros [|i] u; cbn.
  - intros [= <-]. by rewrite Z.add_0_r.
  - intros Hu. rewrite <- (Hi i u Hu). f_equal. lia.
Qed.

Lemma exact_membership_members w s state members :
  exactMembershipLocked w s state members = true ->
  forall t, t ∈ member_tokens members <-> exists o, as_registered state !! o = Some t.
Proof.
  unfold exactMembershipLocked. intros H. bool_hyps.
  match goal with H : exact_members _ _ _ _ _ _ = true |- _ =>
    destruct (exact_members_spec _ _ _ _ _ _ H) as [Hl Hi] end.
  unfold msize, zlen in *. intros t. split.
  - intros Ht. apply list_elem_of_lookup in Ht as [i Ht]. exists (Z.of_nat i).
    by apply (Hi i t) in Ht.
  - intros [o Ho].
    destruct (initial_segment (as_registered state) (length members)) with (o := o)
      as (i & Hlt & ->); [lia| |by eauto|].
    + intros i Hlt. rewrite <- Hl in Hlt. apply lookup_lt_is_Some in Hlt as [u Hu].
      exists u. by apply (Hi i u) in Hu.
    + rewrite <- Hl in Hlt. apply lookup_lt_is_Some in Hlt as [u Hu].
      pose proof (Hi i u Hu) as E. rewrite Z.add_0_l, Ho in E. injection E as ->.
      by eapply list_elem_of_lookup_2.
Qed.

(** An attempt that changes its phase. *)
Lemma phase_step w a s k state state' :
  runtime_ok w -> rw_sources w !! a = Some s -> sc_attempts s !! k = Some state ->
  as_token state' = as_token state -> as_registered state' = as_registered state ->
  (as_phase state' = runtimeAttemptClosed ->
   forall t, t ∈ as_members state' <-> exists o, as_registered state !! o = Some t) ->
  runtime_ok (set_source w a (s <| sc_attempts := <[k := state']> (sc_attempts s) |>)).
Proof.
  intros Hok Hs Hst E1 E2 Hm. pose proof (ro_source _ Hok a s Hs) as Hso.
  apply (source_step w a s); try done.
  - destruct Hso as [Hl Hat Hd Hsq Hlb Hab Hre]. constructor; cbn; try done.
    + intros t c Hc. destruct (Hl t c Hc) as (? & tok & st & ? & ? & ? & Hk & Hr). split; [done|].
      destruct (decide (cs_attempt c = k)) as [E|E].
      * rewrite E in Hk |- *. rewrite Hst in Hk. injection Hk as <-.
        exists tok, state'. rewrite lookup_insert_eq, E2. conj; try done. congruence.
      * exists tok, st. by rewrite lookup_insert_ne.
    + intros k' st' H. apply lookup_insert_Some in H as [[<- <-]|[_ H]]; [|by apply Hat].
      destruct (Hat _ _ Hst). constructor; rewrite ?E1, ?E2; done.
    + intros k' Hk'. destruct (Hd k' Hk') as [E ?]. split; [|done].
      rewrite lookup_insert_ne; [done|]. congruence.
    + by destruct Hsq.
    + by rewrite (msize_insert_Some _ _ _ state).
    + intros Hr. destruct (Hre Hr) as (_ & E & _). by rewrite E in Hst.
  - intros k' [H|H]; [left|by right]. cbn.
    destruct (decide (k = k')) as [<-|]; [rewrite lookup_insert_eq; eauto|by rewrite lookup_insert_ne].
Qed.

Lemma close_locked_ok w a s k state members :
  runtime_ok w -> limited w -> rw_sources w !! a = Some s -> sc_attempts s !! k = Some state ->
  runtime_ok (fst (close_locked w a s k state members)) /\
  limited (fst (close_locked w a s k state members)).
Proof.
  intros Hok Hlim Hs Hst. pose proof (ro_source _ Hok a s Hs) as Hso. unfold close_locked.
  destruct (exactMembershipLocked w s state members) eqn:Ex; cbn [negb fst].
  - split; [|by apply reclaim_limited; apply (limited_set w a s)].
    apply reclaim_ok. eapply (phase_step w a s k state); try done. intros _.
    by apply (exact_membership_members w s).
  - match goal with |- context [set_source w a ?x] => set (s1 := x) end.
    assert (Hok1 : runtime_ok (set_source w a s1)) by (by apply (phase_step w a s k state)).
    assert (Hlim1 : limited (set_source w a s1)) by (by apply (limited_set w a s)).
    assert (Hs1 : rw_sources (set_source w a s1) !! a = Some s1)
      by (by rewrite lookup_source_set, decide_True by done).
    unfold cancelAttemptMembersLocked. cbn [as_registered].
    destruct (end_tokens_ends (snd <$> map_to_list (as_registered state)) _ a s1
      RuntimeCapabilityCancelled Hok1 Hlim1 Hs1 eq_refl) as (s2 & He & Hn).
    split; [|by apply drop_limited, He].
    eapply drop_attempt_ok; [apply He|apply He| | |].
    + eapply (idle_after _ _ a s1 s2); [by apply (ro_source _ Hok1)| |apply He|].
      * subst s1. cbn. by rewrite lookup_insert_eq.
      * cbn. intros o t Ho. apply Hn, list_elem_of_fmap. exists (o, t). split; [done|].
        by apply elem_of_map_to_list.
    + exact (eq_trans (f_equal (lookup k) (en_tokens _ _ _ _ _ He))
        (ao_owned _ _ _ _ _ _ (so_attempts _ _ _ _ Hso _ _ Hst))).
    + rewrite (en_drained _ _ _ _ _ He). cbn. intros H.
      destruct (so_drained _ _ _ _ Hso _ H). congruence.
Qed.

(** * The other operations *)

Lemma end_and_reclaim w a s t c o k :
  runtime_ok w -> limited w -> rw_sources w !! a = Some s -> sc_live s !! t = Some c ->
  validRuntimeTerminalOutcome o = true ->
  runtime_ok (reclaimAttemptIfTerminalLocked (terminalizeLocked w a s c o) a k) /\
  limited (reclaimAttemptIfTerminalLocked (terminalizeLocked w a s c o) a k).
Proof.
  intros Hok Hlim Hs Hc Ho. destruct (terminalize_ends w a s t c o) as [He _]; try done.
  split; [apply reclaim_ok, He|apply reclaim_limited, He].
Qed.

Lemma claim_ok w cap inst now :
  runtime_ok w -> limited w ->
  runtime_ok (fst (Claim w cap inst now)) /\ limited (fst (Claim w cap inst now)).
Proof.
  intros Hok Hlim. unfold Claim. destruct cap as [t|]; [|done]. destruct inst as [k|]; [|done].
  destruct (rw_capabilities w !! t) as [tok|]; [|done]. case_test; [done|].
  destruct (ct_source tok) as [a|]; [|done]. destruct (rw_sources w !! a) as [s|] eqn:Hs; [|done].
  unfold claim. destruct (sc_live s !! t) as [c|] eqn:Hc; [|done].
  destruct (sc_attempts s !! k); [|done]. case_test; [done|].
  case_test; by eapply end_and_reclaim.
Qed.

Lemma drained_drop_ok w a s k :
  runtime_ok w -> rw_sources w !! a = Some s -> rw_attempts w !! k = Some (Some a) ->
  sc_attempts s !! k = None -> k ∈ sc_drainedAttempts s ->
  runtime_ok ((set_source w a (s <| sc_drainedAttempts := sc_drainedAttempts s ∖ {[ k ]} |>))
                <| rw_attempts := <[k := None]> (rw_attempts w) |>).
Proof.
  intros Hok Hs Hk Hst Hd. pose proof (ro_source _ Hok a s Hs) as Hso.
  match goal with |- context [set_source w a ?x] => set (s1 := x) end.
  apply (runtime_ok_update w _ a s1); cbn; unchanged Hok.
  - destruct Hso as [Hl Hat Hdr Hsq Hlb Hab Hre]. constructor; cbn; try done.
    + intros k' st H. eapply attempt_ok_frame; [by apply Hat| |by eauto]. intros _.
      rewrite lookup_insert_ne; [done|]. congruence.
    + intros k' H. apply elem_of_difference in H as [H Hne]. destruct (Hdr k' H). split; [done|].
      rewrite lookup_insert_ne; [done|]. set_solver.
    + by destruct Hsq.
    + assert (size (sc_drainedAttempts s ∖ {[k]}) <= size (sc_drainedAttempts s))%nat
        by (apply subseteq_size; set_solver). lia.
    + intros Hr. destruct (Hre Hr) as (_ & _ & E). rewrite E in Hd. set_solver.
  - intros k' b Hb E. rewrite lookup_insert_ne; [done|]. congruence.
  - intros t tok. eapply (token_kept w _ a s); [done|done|by cbn; rewrite lookup_insert_eq|done].
  - intros k' b H. apply lookup_insert_Some in H as [[_ ?]|[Hne H]]; [done|].
    apply (attempt_kept w a s s1); try done. cbn. intros [?|?]; [by left|right; set_solver].
  - intros k' H. destruct (decide (k' = k)) as [->|].
    + apply (ro_fresh_attempt _ Hok). eauto.
    + rewrite lookup_insert_ne in H by congruence. by apply (ro_fresh_attempt _ Hok).
Qed.

Lemma cancel_open_ok w a inst :
  runtime_ok w -> limited w ->
  runtime_ok (fst (CancelOpen w a inst)) /\ limited (fst (CancelOpen w a inst)).
Proof.
  intros Hok Hlim. unfold CancelOpen. destruct (rw_sources w !! a) as [s|] eqn:Hs; [|done].
  destruct inst as [k|]; [|done]. destruct (bool_decide (_ = _)) eqn:Hk; cbn [negb]; [|done].
  bool_hyps. pose proof (ro_source _ Hok a s Hs) as Hso.
  destruct (sc_attempts s !! k) as [state|] eqn:Hst.
  - destruct (bool_decide (as_phase _ = _)) eqn:Hph; cbn [negb fst]; [|done]. bool_hyps.
    destruct (end_tokens_ends (as_members state) w a s RuntimeCapabilityCancelled Hok Hlim Hs eq_refl)
      as (s2 & He & Hn).
    split; [|by apply drop_limited, He].
    eapply drop_attempt_ok; [apply He|apply He| | |].
    + eapply (idle_after _ _ a s s2); [done|done|apply He|]. intros o t Ho. apply Hn.
      apply (ao_members _ _ _ _ _ _ (so_attempts _ _ _ _ Hso _ _ Hst)); eauto.
    + by rewrite (en_tokens _ _ _ _ _ He).
    + rewrite (en_drained _ _ _ _ _ He). intros H.
      destruct (so_drained _ _ _ _ Hso _ H). congruence.
  - destruct (bool_decide (_ ∈ _)) eqn:Hd; cbn [negb fst]; [|done]. bool_hyps. split.
    + by eapply drained_drop_ok.
    + intros b s0 Hb. by refine (limited_set w a s _ Hlim Hs _ _ b s0 Hb).
Qed.

Lemma fail_ok w a cap :
  runtime_ok w -> limited w ->
  runtime_ok (fst (FailOpen w a cap)) /\ limited (fst (FailOpen w a cap)).
Proof.
  intros Hok Hlim. unfold FailOpen. destruct (rw_sources w !! a) as [s|] eqn:Hs; [|done].
  destruct cap as [t|]; [|done]. destruct (sc_live s !! t) as [c|] eqn:Hc; [|done].
  case_test; [done|]. by eapply end_and_reclaim.
Qed.

(** The candidate is the due capability with the least sequence. *)
Lemma expire_candidate_spec now l :
  match expire_candidate now l with
  | Some c => c ∈ l /\ cs_claimDeadline c <= now /\
      forall d, d ∈ l -> cs_claimDeadline d <= now -> cs_terminalSequence c <= cs_terminalSequence d
  | None => forall d, d ∈ l -> now < cs_claimDeadline d
  end.
Proof.
  unfold expire_candidate. induction l as [|x l IH] using rev_ind.
  { intros d Hd. by apply not_elem_of_nil in Hd. }
  rewrite foldl_app. cbn [foldl]. destruct (foldl _ None l) as [c|].
  - destruct IH as (Hc & Hd & Hm). destruct (_ || _) eqn:E.
    + conj; [by apply elem_of_app; left|done|]. intros d. rewrite elem_of_app, list_elem_of_singleton.
      intros [Hin| ->]; [by apply Hm|]. intros Hx. apply orb_true_iff in E as [E|E]; bool_hyps; lia.
    + bool_hyps. conj; [apply elem_of_app; right; by apply list_elem_of_singleton|lia|].
      intros d. rewrite elem_of_app, list_elem_of_singleton. intros [Hin| ->] Hdd; [|lia].
      specialize (Hm d Hin Hdd). lia.
  - destruct (_ || _) eqn:E.
    + intros d. rewrite elem_of_app, list_elem_of_singleton. intros [Hin| ->]; [by apply IH|].
      rewrite orb_false_r in E. bool_hyps. lia.
    + bool_hyps. conj; [apply elem_of_app; right; by apply list_elem_of_singleton|lia|].
      intros d. rewrite elem_of_app, list_elem_of_singleton. intros [Hin| ->] Hdd; [|lia].
      specialize (IH d Hin). lia.
Qed.

Lemma elem_live s c : c ∈ (snd <$> map_to_list (sc_live s)) <-> exists t, sc_live s !! t = Some c.
Proof.
  rewrite list_elem_of_fmap. split.
  - intros ([t d] & -> & H). exists t. by apply elem_of_map_to_list in H.
  - intros [t H]. exists (t, c). split; [done|]. by apply elem_of_map_to_list.
Qed.

(** The live capabilities that are not due. *)
Definition not_due (now : Z) (s : RuntimeAcquisitionSource) : gmap Z runtimeCapabilityState :=
  filter (fun p => now < cs_claimDeadline (snd p)) (sc_live s).

(** What reclaiming leaves as it is. *)
Lemma reclaim_live w a k s :
  rw_sources w !! a = Some s ->
  exists s', rw_sources (reclaimAttemptIfTerminalLocked w a k) !! a = Some s' /\
    sc_live s' = sc_live s /\ sc_tombstones s' = sc_tombstones s /\ sc_limits s' = sc_limits s.
Proof.
  intros Hs. unfold reclaimAttemptIfTerminalLocked. rewrite Hs.
  destruct (sc_attempts s !! k); [|by exists s]. case_test; [by exists s|].
  case_test; [|by exists s]. eexists. cbn. by rewrite lookup_insert_eq.
Qed.

(** The loop of [ExpireOpen] ends within its fuel, keeps the invariant, leaves
    exactly the capabilities that are not due and counts the others. *)
Lemma expire_loop_spec fuel w a s now n :
  runtime_ok w -> limited w -> rw_sources w !! a = Some s -> (size (sc_live s) < fuel)%nat ->
  exists w' s', expire_open_loop fuel w a now n = Some (w', n + (msize (sc_live s) - msize (not_due now s)))
    /\ runtime_ok w' /\ limited w' /\ rw_sources w' !! a = Some s' /\ sc_live s' = not_due now s.
Proof.
  revert w s n. induction fuel as [|fuel IH]; intros w s n Hok Hlim Hs Hf; [lia|].
  cbn [expire_open_loop]. rewrite Hs.
  pose proof (expire_candidate_spec now (snd <$> map_to_list (sc_live s))) as Hcand.
  destruct (expire_candidate _ _) as [c|].
  - destruct Hcand as (Hin & Hdue & _). apply elem_live in Hin as [t Hc].
    destruct (terminalize_ends w a s t c RuntimeCapabilityExpired) as [He Ht]; try done.
    destruct (reclaim_live _ a (cs_attempt c) _ (en_source _ _ _ _ _ He)) as (s1 & Hs1 & Hl1 & _).
    cbn in Hl1. rewrite Ht in Hl1.
    assert (Hsz : (size (sc_live s1) < size (sc_live s))%nat).
    { rewrite Hl1, map_size_delete_Some by eauto.
      assert (size (sc_live s) <> 0%nat); [|lia]. intros E.
      apply map_size_empty_inv in E. by rewrite E in Hc. }
    destruct (IH _ s1 (n + 1) (reclaim_ok _ _ _ (en_ok _ _ _ _ _ He))
      (reclaim_limited _ _ _ (en_limited _ _ _ _ _ He)) Hs1) as (w' & s' & E & ? & ? & ? & Hl'); [lia|].
    assert (Hnd : not_due now s1 = not_due now s).
    { unfold not_due. rewrite Hl1. apply map_filter_delete_not. intros d. rewrite Hc.
      intros [= <-]. cbn. lia. }
    exists w', s'. conj; try done; [|congruence]. rewrite E, Hnd, Hl1, (msize_delete_Some _ _ c) by done.
    f_equal. f_equal. lia.
  - exists w, s. assert (Hnd : not_due now s = sc_live s).
    { unfold not_due. apply map_filter_id. intros t c Hc. apply Hcand, elem_live. eauto. }
    conj; try done. rewrite Hnd. f_equal. f_equal. lia.
Qed.

(** * Restart *)

Lemma release_lookup (ks : list Z) (m : gmap Z (option Z)) k :
  foldl (fun m k => <[k := None]> m) m ks !! k
  = if bool_decide (k ∈ ks) then Some None else m !! k.
Proof.
  revert m. induction ks as [|x ks IH]; intros m; cbn [foldl].
  { by rewrite bool_decide_eq_false_2 by apply not_elem_of_nil. }
  rewrite IH. destruct (decide (k ∈ ks)).
  - rewrite !bool_decide_eq_true_2; [done|by right|done].
  - rewrite (bool_decide_eq_false_2 (k ∈ ks)) by done. destruct (decide (x = k)) as [->|].
    + by rewrite lookup_insert_eq, bool_decide_eq_true_2 by left.
    + rewrite lookup_insert_ne, bool_decide_eq_false_2; [done| |done].
      rewrite elem_of_cons. intros [?|?]; by subst.
Qed.

(** Deleting attempts and clearing their tokens is dropping them one by one. *)
Lemma release_drops w a s ks :
  rw_sources w !! a = Some s ->
  release_tokens (set_source w a (s <| sc_attempts := foldl (fun m k => delete k m) (sc_attempts s) ks |>)) ks
  = foldl (fun w k => drop_attempt w a k) w ks.
Proof.
  revert w s. induction ks as [|k ks IH]; intros w s Hs; cbn [foldl].
  - unfold release_tokens, set_source. cbn. destruct w, s; cbn in *. by rewrite insert_id.
  - set (s1 := s <| sc_attempts := delete k (sc_attempts s) |>).
    rewrite <- (IH (drop_attempt w a k) s1).
    + unfold drop_attempt. rewrite Hs. unfold release_tokens, set_source. cbn.
      by rewrite insert_insert_eq.
    + unfold drop_attempt. rewrite Hs. cbn. by rewrite lookup_insert_eq.
Qed.

Lemma drops_ok ks w a s :
  runtime_ok w -> limited w -> rw_sources w !! a = Some s -> NoDup ks ->
  (forall k, k ∈ ks -> is_Some (sc_attempts s !! k) /\ idle_attempt s k) ->
  runtime_ok (foldl (fun w k => drop_attempt w a k) w ks) /\
  limited (foldl (fun w k => drop_attempt w a k) w ks).
Proof.
  revert w s. induction ks as [|k ks IH]; intros w s Hok Hlim Hs Hnd Hks; [done|]. cbn [foldl].
  apply NoDup_cons in Hnd as [Hk Hnd]. destruct (Hks k) as [[st Hst] Hidle]; [by left|].
  pose proof (ro_source _ Hok a s Hs) as Hso.
  assert (Hs1 : rw_sources (drop_attempt w a k) !! a
    = Some (s <| sc_attempts := delete k (sc_attempts s) |>)).
  { unfold drop_attempt. rewrite Hs. cbn. by rewrite lookup_insert_eq. }
  refine (IH _ _ _ _ Hs1 Hnd _).
  - eapply drop_attempt_ok; [done|done|done|apply (so_attempts _ _ _ _ Hso _ _ Hst)|].
    intros H. destruct (so_drained _ _ _ _ Hso _ H). congruence.
  - by apply drop_limited.
  - intros k' Hk'. destruct (Hks k') as [Hst' Hidle']; [by right|]. split; [|done].
    cbn. rewrite lookup_delete_ne; [done|]. by intros <-.
Qed.

Lemma empty_attempts_spec s k :
  k ∈ empty_attempts s <-> exists st, sc_attempts s !! k = Some st /\ as_registered st = ∅.
Proof.
  unfold empty_attempts. rewrite list_elem_of_fmap. split.
  - intros ([k' st] & -> & H). apply list_elem_of_filter in H as [H1 H2].
    apply elem_of_map_to_list in H2. exists st. split; [done|]. by apply map_size_empty_inv.
  - intros (st & H1 & H2). exists (k, st). split; [done|]. apply list_elem_of_filter.
    split; [by rewrite H2, map_size_empty|]. by apply elem_of_map_to_list.
Qed.

Lemma empty_attempts_NoDup s : NoDup (empty_attempts s).
Proof.
  unfold empty_attempts. eapply sublist_NoDup; [apply (NoDup_fst_map_to_list (sc_attempts s))|].
  apply fmap_sublist, sublist_filter.
Qed.

(** The end of [ExportRestartState]. *)
Lemma retire_source_ok w a s :
  runtime_ok w -> rw_sources w !! a = Some s -> sc_live s = ∅ -> sc_attempts s = ∅ ->
  runtime_ok (set_source (release_tokens w (elements (sc_drainedAttempts s))) a
                (s <| sc_drainedAttempts := ∅ |> <| sc_retired := true |>)).
Proof.
  intros Hok Hs Hl Ha. pose proof (ro_source _ Hok a s Hs) as Hso.
  match goal with |- context [set_source _ a ?x] => set (s1 := x) end.
  apply (runtime_ok_update w _ a s1); cbn; unchanged Hok.
  - destruct Hso as [_ _ _ Hsq Hlb Hab _]. constructor; cbn; rewrite ?Hl, ?Ha; try done.
    + by destruct Hsq; constructor; cbn; rewrite ?Hl in *.
    + by rewrite Hl in Hlb.
    + rewrite Ha in Hab. rewrite size_empty. lia.
  - intros k b Hb E. rewrite release_lookup, bool_decide_eq_false_2; [done|].
    rewrite elem_of_elements. intros H. destruct (so_drained _ _ _ _ Hso _ H). congruence.
  - intros t tok. eapply (token_kept w _ a s); [done|done|by cbn; rewrite lookup_insert_eq|done].
  - intros k b. rewrite release_lookup. destruct (bool_decide _) eqn:E; [done|]. bool_hyps.
    intros H. left. split; [|done]. intros ->. destruct (ro_attempt _ Hok k a H) as (s0 & Hs0 & H').
    rewrite Hs in Hs0. injection Hs0 as <-. rewrite Ha in H'. apply E, elem_of_elements.
    by destruct H' as [[? H']|].
  - intros k [x H]. rewrite release_lookup in H. destruct (bool_decide _) eqn:E; bool_hyps.
    + apply elem_of_elements in E. destruct (so_drained _ _ _ _ Hso _ E).
      apply (ro_fresh_attempt _ Hok). eauto.
    + apply (ro_fresh_attempt _ Hok). eauto.
Qed.

Lemma set_attempts_same s : s <| sc_attempts := sc_attempts s |> = s.
Proof. by destruct s. Qed.

Lemma export_ok w a :
  runtime_ok w -> limited w ->
  runtime_ok (fst (ExportRestartState w a)) /\ limited (fst (ExportRestartState w a)).
Proof.
  intros Hok Hlim. unfold ExportRestartState. destruct (rw_sources w !! a) as [s|] eqn:Hs; [|done].
  destruct (sc_retired s); [done|]. cbv zeta. pose proof (ro_source _ Hok a s Hs) as Hso.
  destruct (drops_ok (empty_attempts s) w a s Hok Hlim Hs (empty_attempts_NoDup s)) as [Hok1 Hlim1].
  { intros k Hk. apply empty_attempts_spec in Hk as (st & Hst & He). split; [by eauto|].
    apply (idle_after _ _ a s s k st Hso Hst); [done|]. intros o t. by rewrite He. }
  rewrite <- (release_drops w a s) in Hok1, Hlim1 by done.
  match goal with |- context [set_source w a ?x] => set (s1 := x) in * end.
  set (w1 := release_tokens (set_source w a s1) (empty_attempts s)) in *.
  assert (Hs1 : rw_sources w1 !! a = Some s1) by (cbn; by rewrite lookup_insert_eq).
  destruct (_ || _) eqn:E; [done|]. cbn [fst]. bool_hyps. split.
  - apply retire_source_ok; [done|done| |]; apply map_size_empty_inv; unfold msize in *; lia.
  - apply (limited_set (release_tokens w1 (elements (sc_drainedAttempts s1))) a s1); done.
Qed.

(** * Configuration *)

(** The sequences of a restart state are [uint64] values. *)
Definition restart_u64 (restart : option RuntimeAcquisitionRestartState) : Prop :=
  match restart with
  | None => True
  | Some r => u64 (re_NextTerminalSequence r) /\
      Forall (fun t => u64 (tb_TerminalSequence t)) (re_Tombstones r)
  end.

Lemma check_tombstones_spec limits first previous l last :
  Forall (fun t => u64 (tb_TerminalSequence t)) l -> (first = true -> previous = 0) ->
  check_tombstones limits first previous l = Some last ->
  previous <= last /\ StronglySorted later l /\
  Forall (fun t => validRuntimeTombstone t = true /\ previous < tb_TerminalSequence t <= last) l.
Proof.
  revert first previous. induction l as [|t l IH]; intros first previous Hu Hf; cbn [check_tombstones].
  { intros [= <-]. conj; [lia|constructor..]. }
  apply Forall_cons in Hu as [Ht Hu]. unfold u64 in Ht. destruct (_ || _) eqn:E; [done|].
  apply orb_false_elim in E as [Ev Ef]. apply negb_false_iff in Ev.
  case_test; [done|]. intros Hc. destruct (IH false (tb_TerminalSequence t) Hu) as (H1 & H2 & H3);
    [done|done|].
  assert (Hlt : previous < tb_TerminalSequence t).
  { destruct first; cbn in Ef; bool_hyps; [|lia]. rewrite Hf by done.
    unfold validRuntimeTombstone in Ev. bool_hyps. lia. }
  conj; [lia| |].
  - constructor; [done|]. eapply Forall_impl; [exact H3|]. cbn. unfold later. lia.
  - constructor; [split; [done|lia]|]. eapply Forall_impl; [exact H3|]. cbn. intros x [? ?]. split; [done|lia].
Qed.

Lemma config_limits config :
  validateRuntimeAcquisitionConfig config = None ->
  limits_ok (ac_Limits config) /\ 0 < ac_ClaimLifetime config /\
  validateRuntimeRestart (ac_Restart config) (ac_Limits config) = None.
Proof.
  unfold validateRuntimeAcquisitionConfig. destruct (existsb _ _) eqn:Eb; [done|].
  case_test; [done|]. destruct (checkedRuntimeAdd _ _); [|done].
  destruct (checkedRuntimeAdd _ _); [|done]. destruct (checkedRuntimeMultiply _ _); [|done].
  case_test; [done|]. intros Hr. bool_hyps. conj; [|lia|done].
  unfold positive_bounded in Eb. cbn [existsb] in Eb. bool_hyps. unfold limits_ok. lia.
Qed.

Lemma new_source_ok w config :
  runtime_ok w -> limited w -> restart_u64 (ac_Restart config) ->
  runtime_ok (fst (NewRuntimeAcquisitionSource w config)) /\
  limited (fst (NewRuntimeAcquisitionSource w config)).
Proof.
  intros Hok Hlim Hu. unfold NewRuntimeAcquisitionSource.
  destruct (validateRuntimeAcquisitionConfig config) eqn:Hv; [done|].
  apply config_limits in Hv as (Hli & Hlife & Hr). cbv zeta. cbn [fst].
  match goal with |- context [set_source w _ ?x] => set (s := x) end.
  pose proof (fresh_none _ _ (ro_fresh_source _ Hok)) as Hf.
  assert (Hsq : sequences_ok s).
  { subst s. unfold validateRuntimeRestart, restart_u64, u64 in *.
    destruct (ac_Restart config) as [r|].
    - destruct (_ || _) eqn:E in Hr; [done|].
      destruct (check_tombstones _ _ _ _) as [last|] eqn:Ec in Hr; [|done].
      destruct (_ && _) eqn:E2 in Hr; [done|]. destruct Hu as [Hn Ht].
      apply check_tombstones_spec in Ec as (Hle & Hs & HF); [|done|done].
      constructor; cbn; try done; try (unfold MaxUint64; lia).
      + destruct (re_SequenceExhausted r); cbn in *; bool_hyps; [by split|split; [done|lia]].
      + rewrite Forall_forall in HF, Ht |- *. intros t Hin. destruct (HF t Hin) as [? ?].
        specialize (Ht t Hin). cbn in Ht. split; [done|]. unfold before_next, MaxUint64.
        split; [lia|]. intros Hne.
        destruct (re_SequenceExhausted r); cbn in *; bool_hyps; lia.
    - constructor; cbn; try done; try (by constructor); unfold limits_ok, MaxUint64, zlen in *;
        cbn; lia. }
  split.
  - apply (runtime_ok_update w _ (rw_next w) s); cbn; try done; try lia.
    + constructor; cbn; try done; rewrite ?size_empty; unfold msize, limits_ok in *;
        rewrite ?map_size_empty; try lia.
    + intros t tok Ht. left. split; [done|]. pose proof (ro_token _ Hok t tok Ht) as H.
      unfold token_ok in H. intros E. rewrite E in H. destruct H as (_ & s0 & Hs0 & _). congruence.
    + intros k b H. left. split; [|done]. intros ->.
      destruct (ro_attempt _ Hok _ _ H) as (s0 & Hs0 & _). congruence.
    + intros k H. pose proof (ro_fresh_attempt _ Hok k H). lia.
    + intros k H. pose proof (ro_fresh_token _ Hok k H). lia.
    + intros k H. pose proof (ro_fresh_view _ Hok k H). lia.
  - intros b s0. cbn. rewrite lookup_insert. case_decide as E; [|by apply Hlim].
    by intros [= <-].
Qed.

Lemma new_view_ok w source :
  runtime_ok w -> limited w ->
  runtime_ok (fst (newRuntimeViewEligibility w source)) /\
  limited (fst (newRuntimeViewEligibility w source)).
Proof.
  intros Hok Hlim. destruct source as [a|]; [|done]. cbn. split; [|exact Hlim].
  destruct Hok. constructor; cbn; try done; unfold token_ok in *; try done.
  - intros b Hb. specialize (ro_fresh_source0 b Hb). lia.
  - intros b Hb. specialize (ro_fresh_attempt0 b Hb). lia.
  - intros b Hb. specialize (ro_fresh_token0 b Hb). lia.
  - intros v [x H]. apply lookup_insert_Some in H as [[<- _]|[_ H]]; [lia|].
    specialize (ro_fresh_view0 v ltac:(eauto)). lia.
Qed.
