(* ===== verification/RuntimeAcquisitionProps.v ===== *)
(** What runtime acquisition guarantees: its invariant, one-shot claims and final
    outcomes, exact closing, expiry and cancellation, and a restart state that a new
    source accepts. *)

From S2P Require Import Prelude Pdu DeviceId DeviceIdTolerant TcpAdu TcpOwner TcpOwnerFacts Coalescing RuntimeAcquisition RuntimeAcquisitionFacts.

(** * Runs *)

Inductive acq_op : Type :=
| AcqNewSource (config : RuntimeAcquisitionConfig)
| AcqNewView (source : option Z)
| AcqBegin (a : Z) (key : string)
| AcqIssue (a : Z) (attempt : option Z) (ordinal : Z) (view : LogicalReadView)
    (eligibility : option Z) (normalization : RuntimeNormalizationRecord) (now : Z)
| AcqClose (attempt : option Z) (members : list RuntimeAcquisition)
| AcqClaim (capability instance : option Z) (now : Z)
| AcqCancel (a : Z) (instance : option Z)
| AcqFail (a : Z) (capability : option Z)
| AcqExpire (a now : Z)
| AcqExport (a : Z).

Definition acq_step (w : runtime) (op : acq_op) : runtime :=
  match op with
  | AcqNewSource config => fst (NewRuntimeAcquisitionSource w config)
  | AcqNewView source => fst (newRuntimeViewEligibility w source)
  | AcqBegin a key => fst (BeginAttempt w a key)
  | AcqIssue a attempt ordinal view eligibility normalization now =>
      fst (Issue w a attempt ordinal view eligibility normalization now)
  | AcqClose attempt members => fst (AttemptClose w attempt members)
  | AcqClaim capability instance now => fst (Claim w capability instance now)
  | AcqCancel a instance => fst (CancelOpen w a instance)
  | AcqFail a capability => fst (FailOpen w a capability)
  | AcqExpire a now => match ExpireOpen w a now with Some (w, _) => w | None => w end
  | AcqExport a => fst (ExportRestartState w a)
  end.

Fixpoint acq_run (w : runtime) (ops : list acq_op) : runtime :=
  match ops with
  | [] => w
  | op :: ops => acq_run (acq_step w op) ops
  end.

(** The numbers of a configuration that come from outside are [uint64] values. *)
Definition acq_op_ok (op : acq_op) : Prop :=
  match op with
  | AcqNewSource config => restart_u64 (ac_Restart config)
  | _ => True
  end.

Definition empty_runtime : runtime :=
  {| rw_next := 1; rw_sources := ∅; rw_attempts := ∅; rw_capabilities := ∅; rw_views := ∅ |}.

Definition acq_reachable (w : runtime) : Prop :=
  exists ops, Forall acq_op_ok ops /\ w = acq_run empty_runtime ops.

Lemma expire_open_spec w a s now :
  runtime_ok w -> limited w -> rw_sources w !! a = Some s ->
  exists w' s', ExpireOpen w a now = Some (w', msize (sc_live s) - msize (not_due now s)) /\
    runtime_ok w' /\ limited w' /\ rw_sources w' !! a = Some s' /\ sc_live s' = not_due now s.
Proof.
  intros Hok Hlim Hs. unfold ExpireOpen. rewrite Hs.
  destruct (expire_loop_spec (S (size (sc_live s))) w a s now 0) as (w' & s' & E & H); try done.
  - lia.
  - exists w', s'. by rewrite E.
Qed.

Lemma acq_step_ok w op :
  acq_op_ok op -> runtime_ok w -> limited w -> runtime_ok (acq_step w op) /\ limited (acq_step w op).
Proof.
  intros Hop Hok Hlim. destruct op; cbn [acq_step].
  - by apply new_source_ok.
  - by apply new_view_ok.
  - split; [by apply begin_ok|]. unfold BeginAttempt.
    destruct (rw_sources w !! a) as [s|] eqn:Hs; [|done]. repeat (case_test; [done|]).
    intros b s0 Hb. by refine (limited_set w a s _ Hlim Hs _ _ b s0 Hb).
  - by apply issue_ok.
  - unfold AttemptClose. destruct attempt as [k|]; [|done].
    destruct (rw_attempts w !! k) as [[a|]|]; try done.
    destruct (rw_sources w !! a) as [s|] eqn:Hs; [|done].
    destruct (sc_attempts s !! k) as [st|] eqn:Hst; [|done].
    case_test; [done|]. by apply close_locked_ok.
  - by apply claim_ok.
  - by apply cancel_open_ok.
  - by apply fail_ok.
  - destruct (rw_sources w !! a) as [s|] eqn:Hs.
    + destruct (expire_open_spec w a s now Hok Hlim Hs) as (w' & s' & -> & ? & ? & _). done.
    + unfold ExpireOpen. by rewrite Hs.
  - by apply export_ok.
Qed.

Lemma acq_run_ok ops w :
  Forall acq_op_ok ops -> runtime_ok w -> limited w ->
  runtime_ok (acq_run w ops) /\ limited (acq_run w ops).
Proof.
  intros HF. revert w. induction HF as [|op ops Hop HF IH]; intros w Hok Hlim; [done|].
  cbn [acq_run]. destruct (acq_step_ok w op Hop Hok Hlim). by apply IH.
Qed.

Lemma empty_runtime_ok : runtime_ok empty_runtime /\ limited empty_runtime.
Proof.
  split; [|done]. constructor; cbn; try done; intros x [y H]; by rewrite lookup_empty in H.
Qed.

Lemma acq_reachable_ok w : acq_reachable w -> runtime_ok w /\ limited w.
Proof. intros (ops & HF & ->). apply acq_run_ok; [done|apply empty_runtime_ok..]. Qed.

(** * Outcomes are final *)

(** Nothing that has ended changes, and no view becomes available again. *)
Record keeps (w w' : runtime) : Prop := mkKeeps {
  kp_token : forall t tok, rw_capabilities w !! t = Some tok ->
    exists tok', rw_capabilities w' !! t = Some tok' /\ (ct_source tok = None -> tok' = tok);
  kp_view : forall v x, rw_views w !! v = Some x ->
    exists x', rw_views w' !! v = Some x' /\
      (ve_state x <> runtimeViewAvailable -> ve_state x' <> runtimeViewAvailable)
}.

Lemma keeps_refl w : keeps w w.
Proof. constructor; eauto. Qed.

Lemma keeps_trans w1 w2 w3 : keeps w1 w2 -> keeps w2 w3 -> keeps w1 w3.
Proof.
  intros [T1 V1] [T2 V2]. constructor.
  - intros t tok H. destruct (T1 t tok H) as (tok1 & H1 & E1).
    destruct (T2 t tok1 H1) as (tok2 & H2 & E2). exists tok2. split; [done|]. intros Hn.
    specialize (E1 Hn). subst tok1. by apply E2.
  - intros v x H. destruct (V1 v x H) as (x1 & H1 & E1).
    destruct (V2 v x1 H1) as (x2 & H2 & E2). eauto.
Qed.

Lemma keeps_same w w' :
  rw_capabilities w' = rw_capabilities w -> rw_views w' = rw_views w -> keeps w w'.
Proof. intros E1 E2. constructor; rewrite ?E1, ?E2; eauto. Qed.

Lemma terminalize_keeps w a s t c o :
  runtime_ok w -> rw_sources w !! a = Some s -> sc_live s !! t = Some c ->
  keeps w (terminalizeLocked w a s c o).
Proof.
  intros Hok Hs Hc. destruct (live_owner w a s t c Hok Hs Hc) as (tok & Htok & Hsrc & _ & Ht & _).
  rewrite (terminalize_eq w a s c o tok) by (by rewrite Ht). constructor; cbn; [|by eauto].
  intros u tk Hu. rewrite Ht. destruct (decide (t = u)) as [<-|].
  - rewrite lookup_insert_eq. eexists. split; [done|]. intros. congruence.
  - rewrite lookup_insert_ne by done. eauto.
Qed.

Lemma end_tokens_keeps tokens w a s o :
  runtime_ok w -> limited w -> rw_sources w !! a = Some s ->
  validRuntimeTerminalOutcome o = true -> keeps w (end_tokens w a o tokens).
Proof.
  revert w s. induction tokens as [|t tokens IH]; intros w s Hok Hlim Hs Ho; [apply keeps_refl|].
  cbn [end_tokens foldl]. unfold end_tokens in *. destruct (sc_live s !! t) as [c|] eqn:Hc.
  - assert (E : end_live w a t o = terminalizeLocked w a s c o)
      by (unfold end_live; by rewrite Hs, Hc).
    rewrite E. destruct (terminalize_ends w a s t c o) as [He _]; try done.
    eapply keeps_trans; [by eapply terminalize_keeps|]. eapply IH; [apply He..|done].
  - assert (E : end_live w a t o = w) by (unfold end_live; by rewrite Hs, Hc).
    rewrite E. by eapply IH.
Qed.

Lemma reclaim_keeps w a k : keeps w (reclaimAttemptIfTerminalLocked w a k).
Proof.
  unfold reclaimAttemptIfTerminalLocked. destruct (rw_sources w !! a); [|apply keeps_refl].
  destruct (sc_attempts _ !! k); [|apply keeps_refl].
  do 2 (case_test; [try apply keeps_refl; by apply keeps_same|]); apply keeps_refl.
Qed.

Lemma drop_keeps w a k : keeps w (drop_attempt w a k).
Proof. unfold drop_attempt. destruct (rw_sources w !! a); by apply keeps_same. Qed.

Lemma end_reclaim_keeps w a s t c o k :
  runtime_ok w -> rw_sources w !! a = Some s -> sc_live s !! t = Some c ->
  keeps w (reclaimAttemptIfTerminalLocked (terminalizeLocked w a s c o) a k).
Proof. intros. eapply keeps_trans; [by eapply terminalize_keeps|apply reclaim_keeps]. Qed.

Lemma set_view_keeps w v st : st <> runtimeViewAvailable -> keeps w (set_view w v st).
Proof.
  intros Hst. unfold set_view. destruct (rw_views w !! v) as [x|] eqn:E; [|apply keeps_refl].
  constructor; cbn; [by eauto|]. intros u y Hu. destruct (decide (v = u)) as [<-|].
  - rewrite lookup_insert_eq. eexists. by split.
  - rewrite lookup_insert_ne by done. eauto.
Qed.

Lemma issue_locked_keeps w a s k o now w' key t :
  runtime_ok w -> issue_locked w a s k o now = Ok (w', key, t) -> keeps w w'.
Proof.
  intros Hok. unfold issue_locked. destruct (sc_attempts s !! k); [|done].
  do 4 (case_test; [done|]). destruct (reserveTerminalSequenceLocked s) as [s0 [seq|]]; [|done].
  intros [= <- _ _]. constructor; cbn; [|by eauto]. intros u tk Hu. exists tk. split; [|done].
  rewrite lookup_insert_ne; [done|]. pose proof (ro_fresh_token _ Hok u ltac:(eauto)). lia.
Qed.

Lemma issue_keeps w a attempt o view v normalization now :
  runtime_ok w -> keeps w (fst (Issue w a attempt o view v normalization now)).
Proof.
  intros Hok. unfold Issue. destruct (rw_sources w !! a) as [s|] eqn:Hs; [|apply keeps_refl].
  destruct attempt as [k|]; [|apply keeps_refl]. destruct v as [v|]; [|apply keeps_refl].
  do 2 (case_test; [apply keeps_refl|]). cbv zeta.
  eapply (keeps_trans _ (set_view w v runtimeViewIssuing)); [by apply set_view_keeps|].
  case_test; [by apply set_view_keeps|].
  destruct (issue_locked _ a s k o now) as [[[w2 key] t]|] eqn:E; cbn [fst].
  - eapply keeps_trans; [|by apply set_view_keeps].
    eapply issue_locked_keeps; [|exact E]. by apply set_view_ok.
  - by apply set_view_keeps.
Qed.

Lemma close_keeps w attempt members :
  runtime_ok w -> limited w -> keeps w (fst (AttemptClose w attempt members)).
Proof.
  intros Hok Hlim. unfold AttemptClose. destruct attempt as [k|]; [|apply keeps_refl].
  destruct (rw_attempts w !! k) as [[a|]|]; try apply keeps_refl.
  destruct (rw_sources w !! a) as [s|] eqn:Hs; [|apply keeps_refl].
  destruct (sc_attempts s !! k) as [st|] eqn:Hst; [|apply keeps_refl].
  case_test; [apply keeps_refl|]. unfold close_locked. case_test; cbn [fst].
  - match goal with |- context [set_source w a ?x] => set (s1 := x) end.
    eapply (keeps_trans _ (set_source w a s1)); [by apply keeps_same|].
    eapply keeps_trans; [|apply drop_keeps]. eapply (end_tokens_keeps _ _ a s1).
    + by apply (phase_step w a s k st).
    + by apply (limited_set w a s).
    + by rewrite lookup_source_set, decide_True.
    + done.
  - match goal with |- context [set_source w a ?x] => set (s1 := x) end.
    eapply (keeps_trans _ (set_source w a s1)); [by apply keeps_same|apply reclaim_keeps].
Qed.

Lemma expire_keeps fuel w a now n w' m :
  runtime_ok w -> limited w -> expire_open_loop fuel w a now n = Some (w', m) -> keeps w w'.
Proof.
  revert w n. induction fuel as [|fuel IH]; intros w n Hok Hlim; [done|]. cbn [expire_open_loop].
  destruct (rw_sources w !! a) as [s|] eqn:Hs; [|intros [= <- _]; apply keeps_refl].
  pose proof (expire_candidate_spec now (snd <$> map_to_list (sc_live s))) as Hc.
  destruct (expire_candidate _ _) as [c|]; [|intros [= <- _]; apply keeps_refl].
  destruct Hc as [Hin _]. apply elem_live in Hin as [t Hc]. intros E.
  destruct (end_and_reclaim w a s t c RuntimeCapabilityExpired (cs_attempt c)) as [Hok1 Hlim1];
    try done.
  eapply keeps_trans; [|by eapply IH]. by eapply end_reclaim_keeps.
Qed.

Lemma acq_step_keeps w op : runtime_ok w -> limited w -> keeps w (acq_step w op).
Proof.
  intros Hok Hlim. destruct op; cbn [acq_step].
  - unfold NewRuntimeAcquisitionSource.
    destruct (validateRuntimeAcquisitionConfig config); by apply keeps_same.
  - destruct source as [a|]; [|apply keeps_refl]. constructor; cbn; [by eauto|].
    intros v x Hv. exists x. split; [|done]. rewrite lookup_insert_ne; [done|].
    pose proof (ro_fresh_view _ Hok v ltac:(eauto)). lia.
  - unfold BeginAttempt. destruct (rw_sources w !! a); [|apply keeps_refl].
    repeat (case_test; [apply keeps_refl|]). by apply keeps_same.
  - by apply issue_keeps.
  - by apply close_keeps.
  - unfold Claim. destruct capability as [t|]; [|apply keeps_refl].
    destruct instance as [k|]; [|apply keeps_refl].
    destruct (rw_capabilities w !! t) as [tok|]; [|apply keeps_refl].
    case_test; [apply keeps_refl|]. destruct (ct_source tok) as [a|]; [|apply keeps_refl].
    destruct (rw_sources w !! a) as [s|] eqn:Hs; [|apply keeps_refl].
    unfold claim. destruct (sc_live s !! t) as [c|] eqn:Hc; [|apply keeps_refl].
    destruct (sc_attempts s !! k); [|apply keeps_refl]. case_test; [apply keeps_refl|].
    case_test; by eapply end_reclaim_keeps.
  - unfold CancelOpen. destruct (rw_sources w !! a) as [s|] eqn:Hs; [|apply keeps_refl].
    destruct instance as [k|]; [|apply keeps_refl]. case_test; [apply keeps_refl|].
    destruct (sc_attempts s !! k) as [st|].
    + case_test; [apply keeps_refl|]. eapply keeps_trans; [|apply drop_keeps].
      by apply (end_tokens_keeps _ _ a s).
    + case_test; [apply keeps_refl|]. by apply keeps_same.
  - unfold FailOpen. destruct (rw_sources w !! a) as [s|] eqn:Hs; [|apply keeps_refl].
    destruct capability as [t|]; [|apply keeps_refl].
    destruct (sc_live s !! t) as [c|] eqn:Hc; [|apply keeps_refl].
    case_test; [apply keeps_refl|]. by eapply end_reclaim_keeps.
  - unfold ExpireOpen. destruct (rw_sources w !! a) as [s|]; [|apply keeps_refl].
    destruct (expire_open_loop _ _ _ _ _) as [[w' m]|] eqn:E; [|apply keeps_refl].
    by eapply expire_keeps.
  - unfold ExportRestartState. destruct (rw_sources w !! a); [|apply keeps_refl].
    case_test; [apply keeps_refl|]. cbv zeta. case_test; by apply keeps_same.
Qed.

Lemma acq_run_keeps ops w :
  Forall acq_op_ok ops -> runtime_ok w -> limited w -> keeps w (acq_run w ops).
Proof.
  intros HF. revert w. induction HF as [|op ops Hop HF IH]; intros w Hok Hlim; [apply keeps_refl|].
  cbn [acq_run]. destruct (acq_step_ok w op Hop Hok Hlim).
  eapply keeps_trans; [by apply acq_step_keeps|by apply IH].
Qed.

(** * Claims *)

(** [op] is the claim of [t] that wins. *)
Definition wins (w : runtime) (op : acq_op) (t : Z) : bool :=
  match op with
  | AcqClaim (Some u) instance now =>
      match snd (Claim w (Some u) instance now) with
      | Ok r => cl_Won r && (u =? t)
      | Err _ => false
      end
  | _ => false
  end.

Fixpoint count_wins (w : runtime) (ops : list acq_op) (t : Z) : Z :=
  match ops with
  | [] => 0
  | op :: ops => (if wins w op t then 1 else 0) + count_wins (acq_step w op) ops t
  end.

(** When a claim wins. *)
Definition claimable (w : runtime) (t k now : Z) : Prop :=
  exists a s c state, rw_sources w !! a = Some s /\ sc_live s !! t = Some c /\
    cs_attempt c = k /\ sc_attempts s !! k = Some state /\
    as_phase state = runtimeAttemptClosed /\ now < cs_claimDeadline c.

Lemma contains_elem state t : runtimeAttemptContains state t = true <-> t ∈ as_members state.
Proof.
  unfold runtimeAttemptContains. rewrite existsb_exists. split.
  - intros (x & Hx & E). bool_hyps. subst. by apply list_elem_of_In.
  - intros Ht. exists t. split; [by apply list_elem_of_In|apply Z.eqb_refl].
Qed.

Lemma observed_not_won w t r : observed w t = Ok r -> cl_Won r = false.
Proof. unfold observed. destruct (runtimeOutcomeOf _ _); [|done]. by intros [= <-]. Qed.

Lemma claim_won w t k now r :
  runtime_ok w -> snd (Claim w (Some t) (Some k) now) = Ok r -> cl_Won r = true ->
  claimable w t k now /\ cl_Outcome r = RuntimeCapabilityClaimed /\
  runtimeOutcomeOf (fst (Claim w (Some t) (Some k) now)) (Some t) = Some RuntimeCapabilityClaimed.
Proof.
  intros Hok. unfold Claim. destruct (rw_capabilities w !! t) as [tok|] eqn:Ht; [|done].
  case_test; [done|].
  assert (Hobs : forall x, snd (w, observed w t) = Ok x -> cl_Won x = true -> False).
  { intros x Hx. cbn in Hx. by rewrite (observed_not_won w t x Hx). }
  destruct (ct_source tok) as [a|]; [|by intros H1 H2; destruct (Hobs _ H1 H2)].
  destruct (rw_sources w !! a) as [s|] eqn:Hs; [|by intros H1 H2; destruct (Hobs _ H1 H2)].
  unfold claim. destruct (sc_live s !! t) as [c|] eqn:Hc; [|by intros H1 H2; destruct (Hobs _ H1 H2)].
  destruct (sc_attempts s !! k) as [st|] eqn:Hst; [|done]. destruct (_ || _) eqn:E; [done|].
  bool_hyps. destruct (now >=? _) eqn:Ed; [by intros [= <-]|]. bool_hyps. cbn [fst snd].
  intros [= <-] _. conj; [|done|].
  - exists a, s, c, st. conj; done.
  - destruct (live_owner w a s t c Hok Hs Hc) as (tk & Htk & _ & _ & Hct & _).
    destruct (kp_token _ _ (reclaim_keeps (terminalizeLocked w a s c RuntimeCapabilityClaimed) a k) t
      (tk <| ct_outcome := 1 |> <| ct_source := None |>)) as (tk' & E1 & E2).
    { rewrite (terminalize_eq w a s c _ tk) by (by rewrite Hct). cbn. rewrite Hct.
      by rewrite lookup_insert_eq. }
    unfold runtimeOutcomeOf. cbn [mbind option_bind]. rewrite E1. cbn. by rewrite E2.
Qed.

Lemma outcome_ended w t o :
  runtime_ok w -> runtimeOutcomeOf w (Some t) = Some o ->
  exists tok, rw_capabilities w !! t = Some tok /\ ct_source tok = None.
Proof.
  intros Hok. unfold runtimeOutcomeOf. cbn [mbind option_bind].
  destruct (rw_capabilities w !! t) as [tok|] eqn:Ht; [|done]. cbn [mbind option_bind]. intros Ho.
  exists tok. split; [done|]. pose proof (ro_token _ Hok t tok Ht) as H. unfold token_ok in H.
  destruct (ct_source tok); [|done]. destruct H as [E _]. by rewrite E in Ho.
Qed.

Lemma outcome_kept w w' t o :
  runtime_ok w -> keeps w w' -> runtimeOutcomeOf w (Some t) = Some o ->
  runtimeOutcomeOf w' (Some t) = Some o.
Proof.
  intros Hok Hk Ho. destruct (outcome_ended w t o Hok Ho) as (tok & Ht & Hn).
  destruct (kp_token _ _ Hk t tok Ht) as (tok' & Ht' & E). specialize (E Hn). subst tok'.
  unfold runtimeOutcomeOf in *. cbn [mbind option_bind] in *. by rewrite Ht in Ho; rewrite Ht'.
Qed.

Lemma claimable_open w t k now o :
  runtime_ok w -> claimable w t k now -> runtimeOutcomeOf w (Some t) = Some o -> False.
Proof.
  intros Hok (a & s & c & st & Hs & Hc & _) Ho.
  pose proof (live_not_terminal w a s t Hok Hs ltac:(eauto)) as H. unfold terminal in H.
  by rewrite Ho in H.
Qed.

Lemma wins_claimable w op t :
  runtime_ok w -> wins w op t = true ->
  exists k now, claimable w t k now /\
    runtimeOutcomeOf (acq_step w op) (Some t) = Some RuntimeCapabilityClaimed.
Proof.
  intros Hok. destruct op as [| | | | |cap inst now| | | |]; try done. cbn [wins acq_step].
  destruct cap as [u|]; [|done]. destruct (snd (Claim w (Some u) inst now)) as [r|] eqn:E; [|done].
  intros Hw. bool_hyps. subst u. destruct inst as [k|]; [|done].
  destruct (claim_won w t k now r Hok E) as (Hc & _ & Ho); [done|]. eauto.
Qed.

Lemma ended_never_wins ops w t o :
  Forall acq_op_ok ops -> runtime_ok w -> limited w -> runtimeOutcomeOf w (Some t) = Some o ->
  count_wins w ops t = 0.
Proof.
  intros HF. revert w. induction HF as [|op ops Hop HF IH]; intros w Hok Hlim Ho; [done|].
  cbn [count_wins]. destruct (acq_step_ok w op Hop Hok Hlim) as [Hok1 Hlim1].
  rewrite (IH _ Hok1 Hlim1) by (by eapply outcome_kept; [..|apply acq_step_keeps|]).
  destruct (wins w op t) eqn:E; [|done].
  destruct (wins_claimable w op t Hok E) as (k & now & Hc & _). by destruct (claimable_open w t k now o).
Qed.

(** * A fixture for the examples *)

Definition demo_limits : RuntimeAcquisitionLimits :=
  {| al_MaxLiveCapabilities := 4; al_MaxAttempts := 2; al_MaxMembersPerAttempt := 2;
     al_AttemptKeyMaxUTF8Bytes := 16; al_SourceEvidenceIDMaxUTF8Bytes := 16;
     al_NormalizationRecordMaxEncodedBytes := 1024;
     al_NormalizationRequiredStringMaxUTF8Bytes := 64; al_NormalizationExtensionCountMax := 2;
     al_NormalizationExtensionKeyMaxUTF8Bytes := 16;
     al_NormalizationExtensionValueMaxEncodedBytes := 64;
     al_RetainedDiagnosticCountPerObjectMax := 2; al_RetainedDiagnosticMaxUTF8Bytes := 64;
     al_CapabilityTombstoneLimit := 3; al_CapabilityTombstoneMaxEncodedBytes := 128 |}.

Definition demo_acquisition : RuntimeAcquisitionConfig :=
  {| ac_Limits := demo_limits; ac_ClaimLifetime := 100; ac_Clock := Some 0; ac_Restart := None |}.

Definition demo_view : LogicalReadView :=
  {| lv_logicalViewID := 7; lv_wireResponseID := 8; lv_logicalOffset := 6; lv_logicalWords := 1;
     lv_sliceOffset := 0; lv_sliceWordCount := 1; lv_words := [0x0102]; lv_wireBytes := [1];
     lv_provenance :=
       {| lp_PhysicalRequestID := 9;
          lp_Wire :=
            {| wp_Endpoint := "tcp"; wp_ConnectionID := 1; wp_Transport := TransportTCP;
               wp_TransportGeneration := 1; wp_UnitID := 17; wp_RequestedFunction := 3;
               wp_ReceivedFunction := 3; wp_Table := HoldingRegisters; wp_Offset := 6;
               wp_Quantity := 1; wp_DeviceIDAccess := 0; wp_DeviceIDObjectID := 0 |};
          lp_AuthorizationScope := "scope"; lp_PollGeneration := 1; lp_DeadlineIdentity := 1;
          lp_LogicalOffset := 6; lp_LogicalWordCount := 1; lp_SliceOffset := 0;
          lp_SliceWordCount := 1 |} |}.

Definition demo_record : RuntimeNormalizationRecord :=
  {| nr_owner := 1; nr_encoded := [123; 125];
     nr_fields :=
       {| nf_SchemaVersion := 1; nf_SourceKind := RuntimeAcquisitionSourceRuntime;
          nf_SourceEvidenceID := "evidence"; nf_DocumentaryNotation := "40007";
          nf_DocumentaryAddress := 40007; nf_DocumentaryAddressBase := "one";
          nf_FunctionCode := 3; nf_LogicalTable := HoldingRegisters;
          nf_NormalizedZeroBasedPDUOffset := 6; nf_WordCount := 1 |} |}.

(** The source has the address 1, the view 2, the attempt 3 and the capability 4. *)
Definition demo_issue : list acq_op :=
  [ AcqNewSource demo_acquisition; AcqNewView (Some 1); AcqBegin 1 "attempt";
    AcqIssue 1 (Some 3) 0 demo_view (Some 2) demo_record 10 ].

Definition demo_member : RuntimeAcquisition :=
  {| aq_attemptKey := "attempt";
     aq_provenance := runtimeProvenanceFromView demo_view (nr_fields demo_record);
     aq_normalization := demo_record; aq_capability := Some 4 |}.

Definition demo_issued : runtime := acq_run empty_runtime demo_issue.

Definition demo_frozen : runtime :=
  acq_run empty_runtime (demo_issue ++ [AcqClose (Some 3) [demo_member]]).

Lemma demo_reachable_ops ops : Forall acq_op_ok ops -> acq_reachable (acq_run empty_runtime (demo_issue ++ ops)).
Proof.
  intros H. exists (demo_issue ++ ops). split; [|done]. apply Forall_app. split; [|done].
  repeat constructor.
Qed.

Lemma demo_issued_reachable : acq_reachable demo_issued.
Proof. apply (demo_reachable_ops []). constructor. Qed.

(** The source of [demo_issued]. *)
Definition demo_attempt : runtimeAttemptState :=
  {| as_token := 3; as_key := "attempt"; as_phase := runtimeAttemptOpen;
     as_registered := {[ 0 := 4 ]}; as_members := [] |}.

Definition demo_source : RuntimeAcquisitionSource :=
  {| sc_limits := demo_limits; sc_claimLifetime := 100; sc_attempts := {[ 3 := demo_attempt ]};
     sc_drainedAttempts := ∅;
     sc_live := {[ 4 := {| cs_token := 4; cs_attempt := 3; cs_terminalSequence := 1;
                           cs_claimDeadline := 110 |} ]};
     sc_tombstones := []; sc_nextTerminalSequence := 2; sc_sequenceExhausted := false;
     sc_retired := false |}.

Lemma demo_source_at : rw_sources demo_issued !! 1 = Some demo_source.
Proof. by vm_compute. Qed.

Lemma demo_frozen_reachable : acq_reachable demo_frozen.
Proof. apply (demo_reachable_ops [AcqClose (Some 3) [demo_member]]). by repeat constructor. Qed.

(** * The properties *)

(** C25: In every store reached by any operations on any sources, every source is
    consistent: each live capability belongs to a registered place of an attempt of
    the source and points back to it, attempts and drained attempts are disjoint and
    owned, terminal sequences are distinct and older than the next one, tombstones
    are valid and strictly ordered, and the limits on live capabilities, attempts,
    members and tombstones hold. *)
Theorem acquisition_invariant w : acq_reachable w -> runtime_ok w /\ limited w.
Proof. apply acq_reachable_ok. Qed.

Lemma acquisition_invariant_witness :
  runtime_ok demo_frozen /\ SourceSnapshot demo_frozen 1
    = {| sn_LiveCapabilities := 1; sn_ActiveAttempts := 1; sn_NextTerminalSequence := 2;
         sn_SequenceExhausted := false; sn_Tombstones := [] |}.
Proof. split; [apply acquisition_invariant; exact demo_frozen_reachable|by vm_compute]. Defined.

(** C24: A capability is claimed at most once: over any further operations, at any
    clock readings and through any copies of the handle, at most one claim of it
    wins; and once it has an outcome, whichever, no claim wins and the outcome never
    changes. *)
Theorem capability_one_shot w ops t :
  acq_reachable w -> Forall acq_op_ok ops ->
  count_wins w ops t <= 1 /\
  (forall o, runtimeOutcomeOf w (Some t) = Some o ->
     count_wins w ops t = 0 /\ runtimeOutcomeOf (acq_run w ops) (Some t) = Some o).
Proof.
  intros Hr HF. apply acq_reachable_ok in Hr as [Hok Hlim]. split.
  - revert w Hok Hlim. induction HF as [|op ops Hop HF IH]; intros w Hok Hlim; [done|].
    cbn [count_wins]. destruct (acq_step_ok w op Hop Hok Hlim) as [Hok1 Hlim1].
    destruct (wins w op t) eqn:E; [|rewrite Z.add_0_l; by apply IH].
    destruct (wins_claimable w op t Hok E) as (k & now & _ & Ho).
    by rewrite (ended_never_wins _ _ _ _ HF Hok1 Hlim1 Ho).
  - intros o Ho. split; [by eapply ended_never_wins|].
    eapply outcome_kept; [done|by apply acq_run_keeps|done].
Qed.

Lemma capability_one_shot_witness :
  let ops := [AcqClaim (Some 4) (Some 3) 50; AcqClaim (Some 4) (Some 3) 51; AcqFail 1 (Some 4)] in
  count_wins demo_frozen ops 4 = 1 /\ count_wins demo_frozen ops 4 <= 1.
Proof.
  intros ops. split; [by vm_compute|].
  refine (proj1 (capability_one_shot demo_frozen ops 4 demo_frozen_reachable _)).
  by repeat constructor.
Defined.

(** A claim wins exactly when it is due: the capability is live, the instance is
    that of its own attempt, the attempt has been closed, and the claim deadline has
    not been reached; the outcome is then recorded as claimed. *)
Theorem claim_wins_iff w t k now :
  acq_reachable w ->
  snd (Claim w (Some t) (Some k) now)
    = Ok {| cl_Won := true; cl_Outcome := RuntimeCapabilityClaimed |} <-> claimable w t k now.
Proof.
  intros Hr. apply acq_reachable_ok in Hr as [Hok _]. split.
  - intros H. by destruct (claim_won w t k now _ Hok H) as [Hc _].
  - intros (a & s & c & st & Hs & Hc & Hk & Hst & Hph & Hd).
    pose proof (ro_source _ Hok a s Hs) as Hso.
    destruct (so_live _ _ _ _ Hso t c Hc) as (_ & tok & st' & Ht & Hsrc & Hat & Hst' & Hreg).
    rewrite Hk, Hst in Hst'. injection Hst' as <-.
    unfold Claim. rewrite Ht. rewrite Hat, Hk, Z.eqb_refl, Hsrc, Hs. cbn [negb].
    unfold claim. rewrite Hc, Hst, bool_decide_eq_true_2, Hk, Z.eqb_refl by done.
    assert (Hin : runtimeAttemptContains st t = true).
    { apply contains_elem, (ao_members _ _ _ _ _ _ (so_attempts _ _ _ _ Hso _ _ Hst)); eauto. }
    rewrite Hin. cbn [negb orb]. by test_false (now >=? cs_claimDeadline c).
Qed.

Lemma claim_wins_iff_witness :
  claimable demo_frozen 4 3 109 /\
  snd (Claim demo_frozen (Some 4) (Some 3) 110)
    = Ok {| cl_Won := false; cl_Outcome := RuntimeCapabilityExpired |}.
Proof.
  split; [|by vm_compute]. apply claim_wins_iff; [apply demo_frozen_reachable|by vm_compute].
Defined.

(** * Closing an attempt *)

(** [members] are the capabilities registered with [state], all of them, in the
    order of their ordinals, under its key. *)
Definition exact_set (state : runtimeAttemptState) (members : list RuntimeAcquisition) : Prop :=
  members <> [] /\ zlen members = msize (as_registered state) /\
  forall i m, members !! i = Some m ->
    aq_attemptKey m = as_key state /\
    exists t, aq_capability m = Some t /\ as_registered state !! Z.of_nat i = Some t.

Lemma exact_members_iff w a s k state members index seen :
  runtime_ok w -> rw_sources w !! a = Some s -> sc_attempts s !! k = Some state ->
  (forall u, u ∈ seen -> exists j, j < index /\ as_registered state !! j = Some u) ->
  exact_members w s state index seen members = true <->
  forall i m, members !! i = Some m ->
    aq_attemptKey m = as_key state /\
    exists t, aq_capability m = Some t /\ as_registered state !! (index + Z.of_nat i) = Some t.
Proof.
  intros Hok Hs Hst. pose proof (ro_source _ Hok a s Hs) as Hso.
  pose proof (so_attempts _ _ _ _ Hso _ _ Hst) as Hao.
  revert index seen. induction members as [|m members IH]; intros index seen Hseen; [done|].
  cbn [exact_members].
  assert (Hstep : forall t, as_registered state !! index = Some t ->
    forall u, u ∈ {[ t ]} ∪ seen -> exists j, j < index + 1 /\ as_registered state !! j = Some u).
  { intros t Ht u. rewrite elem_of_union, elem_of_singleton. intros [->|Hu].
    - exists index. split; [lia|done].
    - destruct (Hseen u Hu) as (j & ? & ?). exists j. split; [lia|done]. }
  split.
  - destruct (aq_capability m) as [t|] eqn:Et; [|done].
    destruct (rw_capabilities w !! t) as [tok|]; [|done]. intros H. bool_hyps.
    match goal with H : exact_members _ _ _ _ _ _ = true |- _ => rename H into Hrest end.
    intros [|i] m'; cbn.
    + intros [= <-]. split; [done|]. exists t. by rewrite Z.add_0_r.
    + intros Hm. destruct (proj1 (IH _ _ (Hstep t ltac:(done))) Hrest i m' Hm) as (? & u & ? & Hu).
      split; [done|]. exists u. split; [done|]. rewrite <- Hu. f_equal. lia.
  - intros H. destruct (H 0%nat m eq_refl) as (Hkey & t & Et & Hreg).
    rewrite Z.add_0_r in Hreg. rewrite Et.
    destruct (ao_registered _ _ _ _ _ _ Hao _ _ Hreg) as (tok & Ht & Hk & Ho).
    rewrite Ht, bool_decide_eq_true_2, Ho, Z.eqb_refl, Hk, (ao_token _ _ _ _ _ _ Hao), Z.eqb_refl,
      (bool_decide_eq_true_2 (_ = as_key state)) by done.
    assert (Hlive : match sc_live s !! t with
      | Some c => cs_attempt c =? k | None => terminal w t end = true).
    { destruct (sc_live s !! t) as [c|] eqn:Hc.
      - destruct (live_owner w a s t c Hok Hs Hc) as (tok' & Ht' & _ & E & _).
        rewrite Ht in Ht'. injection Ht' as <-. apply Z.eqb_eq. congruence.
      - apply (settled_terminal w t tok Hok Ht). intros b s' Hb Hs'.
        destruct (decide (b = a)) as [->|Hne]; [congruence|].
        destruct (sc_live s' !! t) as [c|] eqn:Hc'; [|done].
        destruct (live_owner w b s' t c Hok Hs' Hc') as (tok' & Ht' & _ & E & _ & _ & Hb').
        rewrite Ht in Ht'. injection Ht' as <-. rewrite <- E, Hk in Hb'.
        rewrite (ao_owned _ _ _ _ _ _ Hao) in Hb'. congruence. }
    rewrite Hlive. cbn [andb].
    assert (Hfresh : negb (bool_decide (t ∈ seen)) = true).
    { apply negb_true_iff, bool_decide_eq_false. intros Hin. destruct (Hseen t Hin) as (j & Hj & Hj').
      destruct (ao_registered _ _ _ _ _ _ Hao _ _ Hj') as (tok' & Ht' & _ & Ho').
      rewrite Ht in Ht'. injection Ht' as <-. lia. }
    rewrite Hfresh. cbn [andb]. apply (IH _ _ (Hstep t Hreg)). intros i m' Hm.
    destruct (H (S i) m' Hm) as (? & u & ? & Hu). split; [done|]. exists u. split; [done|].
    rewrite <- Hu. f_equal. lia.
Qed.

Lemma exact_membership_iff w a s k state members :
  runtime_ok w -> rw_sources w !! a = Some s -> sc_attempts s !! k = Some state ->
  exactMembershipLocked w s state members = true <-> exact_set state members.
Proof.
  intros Hok Hs Hst. pose proof (ro_source _ Hok a s Hs) as Hso.
  pose proof (ao_bound _ _ _ _ _ _ (so_attempts _ _ _ _ Hso _ _ Hst)) as Hb.
  assert (Hex := exact_members_iff w a s k state members 0 ∅ Hok Hs Hst).
  unfold exactMembershipLocked, exact_set. rewrite !andb_true_iff, Hex by
    (intros u Hu; by apply not_elem_of_empty in Hu).
  rewrite negb_true_iff, Z.eqb_neq, Z.eqb_eq, negb_true_iff, Z.gtb_ltb, Z.ltb_ge. split.
  - intros [[[H1 H2] _] H3]. conj; try done. intros ->. by apply H1.
  - intros (H1 & H2 & H3). conj; try done; [|lia]. intros E. apply H1.
    destruct members; [done|]. rewrite zlen_cons in E. pose proof (zlen_nonneg members). lia.
Qed.

Lemma terminalize_outcome w a s t c o :
  runtime_ok w -> rw_sources w !! a = Some s -> sc_live s !! t = Some c ->
  validRuntimeTerminalOutcome o = true ->
  runtimeOutcomeOf (terminalizeLocked w a s c o) (Some t) = Some o.
Proof.
  intros Hok Hs Hc Ho. destruct (live_owner w a s t c Hok Hs Hc) as (tok & Htok & _ & _ & Ht & _).
  rewrite (terminalize_eq w a s c o tok) by (by rewrite Ht).
  unfold runtimeOutcomeOf. cbn. rewrite Ht, lookup_insert_eq. cbn. by apply outcome_code_valid.
Qed.

Lemma end_tokens_outcome tokens w a s o t :
  runtime_ok w -> limited w -> rw_sources w !! a = Some s ->
  validRuntimeTerminalOutcome o = true -> t ∈ tokens -> is_Some (sc_live s !! t) ->
  runtimeOutcomeOf (end_tokens w a o tokens) (Some t) = Some o.
Proof.
  revert w s. induction tokens as [|u tokens IH]; intros w s Hok Hlim Hs Ho Hin Hlive.
  { by apply not_elem_of_nil in Hin. }
  cbn [end_tokens foldl]. unfold end_tokens in *. destruct (decide (u = t)) as [->|Hne].
  - destruct Hlive as [c Hc].
    assert (E : end_live w a t o = terminalizeLocked w a s c o)
      by (unfold end_live; by rewrite Hs, Hc).
    rewrite E. destruct (terminalize_ends w a s t c o) as [He _]; try done.
    eapply outcome_kept; [apply He|by eapply end_tokens_keeps; [apply He..|]|].
    by apply terminalize_outcome.
  - apply elem_of_cons in Hin as [->|Hin]; [done|].
    destruct (sc_live s !! u) as [c|] eqn:Hc.
    + assert (E : end_live w a u o = terminalizeLocked w a s c o)
        by (unfold end_live; by rewrite Hs, Hc).
      rewrite E. destruct (terminalize_ends w a s u c o) as [He Hu]; try done.
      eapply IH; [apply He..|done|done|]. cbn. by rewrite Hu, lookup_delete_ne.
    + assert (E : end_live w a u o = w) by (unfold end_live; by rewrite Hs, Hc).
      rewrite E. by eapply IH.
Qed.

Lemma drop_token w a s k :
  rw_sources w !! a = Some s -> rw_attempts (drop_attempt w a k) !! k = Some None.
Proof. intros Hs. unfold drop_attempt. rewrite Hs. cbn. by rewrite lookup_insert_eq. Qed.

(** What becomes of a closed attempt. *)
Lemma reclaim_closed w a k s state :
  rw_sources w !! a = Some s -> sc_attempts s !! k = Some state ->
  as_phase state = runtimeAttemptClosed ->
  exists s', rw_sources (reclaimAttemptIfTerminalLocked w a k) !! a = Some s' /\
    (k ∈ sc_drainedAttempts s' /\ Forall (fun t => terminal w t = true) (as_members state) \/
     sc_attempts s' !! k = Some state).
Proof.
  intros Hs Hst Hph. unfold reclaimAttemptIfTerminalLocked.
  rewrite Hs, Hst, Hph, bool_decide_eq_true_2 by done. cbn [negb].
  destruct (forallb _ _) eqn:E; [|by eauto].
  eexists. cbn. rewrite lookup_insert_eq. split; [done|]. left. split; [cbn; set_solver|].
  rewrite List.forallb_forall in E. apply Forall_forall. intros t Ht.
  by apply E, list_elem_of_In.
Qed.

(** Closing an open attempt is all or nothing.  When the given acquisitions are
    exactly the registered members in the order of their ordinals, under the key of
    the attempt, the attempt is frozen with them, or drained at once when all of
    them have ended; otherwise it is gone, its token is dead, and every member that
    was still open has been cancelled. *)
Theorem close_all_or_nothing w a s k state members :
  acq_reachable w -> rw_sources w !! a = Some s -> sc_attempts s !! k = Some state ->
  as_phase state = runtimeAttemptOpen ->
  let w' := fst (AttemptClose w (Some k) members) in
  let r := snd (AttemptClose w (Some k) members) in
  (exact_set state members /\ r = Ok k /\
   exists s', rw_sources w' !! a = Some s' /\
     (k ∈ sc_drainedAttempts s' /\ Forall (fun t => terminal w t = true) (member_tokens members) \/
      exists st, sc_attempts s' !! k = Some st /\ as_phase st = runtimeAttemptClosed /\
        as_members st = member_tokens members)) \/
  (~ exact_set state members /\ r = Err ErrRuntimeAttemptMembership /\
   rw_attempts w' !! k = Some None /\
   forall o t, as_registered state !! o = Some t -> is_Some (sc_live s !! t) ->
     runtimeOutcomeOf w' (Some t) = Some RuntimeCapabilityCancelled).
Proof.
  intros Hr Hs Hst Hph. apply acq_reachable_ok in Hr as [Hok Hlim].
  pose proof (ro_source _ Hok a s Hs) as Hso.
  pose proof (exact_membership_iff w a s k state members Hok Hs Hst) as Hiff.
  cbn [AttemptClose]. unfold AttemptClose.
  rewrite (ao_owned _ _ _ _ _ _ (so_attempts _ _ _ _ Hso _ _ Hst)), Hs, Hst, Hph.
  rewrite bool_decide_eq_true_2 by done. cbn [negb]. unfold close_locked.
  destruct (exactMembershipLocked w s state members) eqn:Ex; cbn [negb fst snd].
  - left. conj; [by apply Hiff|done|].
    match goal with |- context [set_source w a ?x] => set (s1 := x) end.
    match type of s1 with _ => set (st := state <| as_phase := runtimeAttemptClosed |>
      <| as_members := member_tokens members |>) in s1 end.
    destruct (reclaim_closed (set_source w a s1) a k s1 st) as (s' & Hs' & H); try done.
    + by rewrite lookup_source_set, decide_True.
    + cbn. by rewrite lookup_insert_eq.
    + exists s'. split; [done|]. destruct H as [[? ?]|?]; [by left|right]. by exists st.
  - right. match goal with |- context [set_source w a ?x] => set (s1 := x) end.
    assert (Hok1 : runtime_ok (set_source w a s1)) by (by apply (phase_step w a s k state)).
    assert (Hlim1 : limited (set_source w a s1)) by (by apply (limited_set w a s)).
    assert (Hs1 : rw_sources (set_source w a s1) !! a = Some s1)
      by (by rewrite lookup_source_set, decide_True by done).
    conj; [by rewrite <- Hiff|done| |].
    + destruct (end_tokens_ends (snd <$> map_to_list (as_registered state)) _ a s1
        RuntimeCapabilityCancelled Hok1 Hlim1 Hs1 eq_refl) as (s2 & He & _).
      exact (drop_token _ a s2 k (en_source _ _ _ _ _ He)).
    + intros o t Ho Hl. eapply outcome_kept; [|apply drop_keeps|].
      * destruct (end_tokens_ends (snd <$> map_to_list (as_registered state)) _ a s1
          RuntimeCapabilityCancelled Hok1 Hlim1 Hs1 eq_refl) as (s2 & He & _). apply He.
      * apply (end_tokens_outcome _ _ a s1); try done. apply list_elem_of_fmap.
        exists (o, t). split; [done|]. by apply elem_of_map_to_list.
Qed.

Lemma close_all_or_nothing_witness :
  snd (AttemptClose demo_issued (Some 3) []) = Err ErrRuntimeAttemptMembership /\
  runtimeOutcomeOf (fst (AttemptClose demo_issued (Some 3) [])) (Some 4)
    = Some RuntimeCapabilityCancelled.
Proof.
  destruct (close_all_or_nothing demo_issued 1 demo_source 3 demo_attempt []
    demo_issued_reachable demo_source_at eq_refl eq_refl) as [([Hex _] & _)|(_ & Hr & _ & Hc)].
  - by destruct Hex.
  - split; [exact Hr|]. exact (Hc 0 4 eq_refl (ex_intro _ _ eq_refl)).
Defined.

(** * Expiry *)

Lemma expire_outcome fuel w a s now n w' m t c :
  runtime_ok w -> limited w -> rw_sources w !! a = Some s ->
  sc_live s !! t = Some c -> cs_claimDeadline c <= now ->
  expire_open_loop fuel w a now n = Some (w', m) ->
  runtimeOutcomeOf w' (Some t) = Some RuntimeCapabilityExpired.
Proof.
  revert w s n. induction fuel as [|fuel IH]; intros w s n Hok Hlim Hs Hc Hdue; [done|].
  cbn [expire_open_loop]. rewrite Hs.
  pose proof (expire_candidate_spec now (snd <$> map_to_list (sc_live s))) as Hcand.
  destruct (expire_candidate _ _) as [d|].
  2: { specialize (Hcand c ltac:(apply elem_live; eauto)). lia. }
  destruct Hcand as [Hin _]. apply elem_live in Hin as [u Hd]. cbv zeta. intros E.
  destruct (terminalize_ends w a s u d RuntimeCapabilityExpired) as [He Hu]; try done.
  pose proof (reclaim_ok _ a (cs_attempt d) (en_ok _ _ _ _ _ He)) as Hok1.
  pose proof (reclaim_limited _ a (cs_attempt d) (en_limited _ _ _ _ _ He)) as Hlim1.
  destruct (decide (u = t)) as [->|Hne].
  - eapply outcome_kept; [exact Hok1|by eapply expire_keeps|].
    eapply outcome_kept; [apply He|apply reclaim_keeps|]. by apply terminalize_outcome.
  - destruct (reclaim_live _ a (cs_attempt d) _ (en_source _ _ _ _ _ He)) as (s1 & Hs1 & Hl1 & _).
    eapply (IH _ s1); try done. rewrite Hl1. cbn. by rewrite Hu, lookup_delete_ne.
Qed.

(** [ExpireOpen] returns, whatever is live: it ends exactly the capabilities
    whose deadline has come, as expired, leaves exactly the others live, and returns
    their number. *)
Theorem expire_open_exact w a s now :
  acq_reachable w -> rw_sources w !! a = Some s ->
  exists w' s', ExpireOpen w a now = Some (w', msize (sc_live s) - msize (not_due now s)) /\
    rw_sources w' !! a = Some s' /\ sc_live s' = not_due now s /\
    forall t c, sc_live s !! t = Some c -> cs_claimDeadline c <= now ->
      runtimeOutcomeOf w' (Some t) = Some RuntimeCapabilityExpired.
Proof.
  intros Hr Hs. apply acq_reachable_ok in Hr as [Hok Hlim].
  destruct (expire_open_spec w a s now Hok Hlim Hs) as (w' & s' & E & _ & _ & Hs' & Hl).
  exists w', s'. conj; try done. intros t c Hc Hd. unfold ExpireOpen in E. rewrite Hs in E.
  by eapply expire_outcome.
Qed.

Lemma expire_open_exact_witness :
  exists w', ExpireOpen demo_issued 1 110 = Some (w', 1) /\
    runtimeOutcomeOf w' (Some 4) = Some RuntimeCapabilityExpired.
Proof.
  destruct (expire_open_exact demo_issued 1 demo_source 110 demo_issued_reachable demo_source_at)
    as (w' & s' & E & _ & _ & H).
  exists w'. split; [rewrite E; f_equal; f_equal; by vm_compute|].
  apply (H 4 {| cs_token := 4; cs_attempt := 3; cs_terminalSequence := 1; cs_claimDeadline := 110 |});
    [by vm_compute|done].
Defined.

(** * Restart *)

Lemma slen_app s1 s2 : slen (s1 ++ s2) = slen s1 + slen s2.
Proof.
  unfold slen. induction s1 as [|c s1 IH]; [done|].
  change (String.length (String c s1 ++ s2)) with (S (String.length (s1 ++ s2))).
  change (String.length (String c s1)) with (S (String.length s1)). lia.
Qed.

Lemma slen_nonneg s : 0 <= slen s.
Proof. unfold slen. lia. Qed.

Lemma decimal_short fuel n : slen (decimal_digits fuel n) <= Z.of_nat fuel.
Proof.
  revert n. induction fuel as [|fuel IH]; intros n; [done|]. cbn [decimal_digits]. case_test.
  - unfold slen. cbn. lia.
  - rewrite slen_app. specialize (IH (n / 10)). unfold slen in *. cbn in *. lia.
Qed.

(** No valid tombstone is longer than the largest. *)
Lemma tombstone_json_short t :
  validRuntimeTombstone t = true -> slen (tombstone_json t) <= slen (tombstone_json largest_tombstone).
Proof.
  unfold validRuntimeTombstone. intros Hv. bool_hyps. unfold tombstone_json. rewrite !slen_app.
  match goal with H : tb_SchemaVersion t = 1 |- _ => rewrite H end.
  pose proof (decimal_short 20 (tb_TerminalSequence t)) as Hd. fold (decimal (tb_TerminalSequence t)) in Hd.
  change (slen (decimal (tb_TerminalSequence largest_tombstone))) with 20.
  assert (Ho : slen (quoted (outcome_string (tb_TerminalOutcome t)))
    <= slen (quoted (outcome_string (tb_TerminalOutcome largest_tombstone)))).
  { destruct (tb_TerminalOutcome t); try done; by vm_compute. }
  change (tb_SchemaVersion largest_tombstone) with 1. lia.
Qed.

Lemma check_tombstones_accepts limits l first previous :
  slen (tombstone_json largest_tombstone) <= al_CapabilityTombstoneMaxEncodedBytes limits ->
  Forall (fun t => validRuntimeTombstone t = true) l -> StronglySorted later l ->
  (first = false -> Forall (fun t => previous < tb_TerminalSequence t) l) ->
  exists last, check_tombstones limits first previous l = Some last /\
    (last = previous \/ exists t, t ∈ l /\ last = tb_TerminalSequence t).
Proof.
  intros Hlim. revert first previous. induction l as [|t l IH]; intros first previous Hv Hs Hf.
  { exists previous. by split; [|left]. }
  apply Forall_cons in Hv as [Ht Hv]. apply StronglySorted_inv in Hs as [Hs Hlt].
  cbn [check_tombstones]. rewrite Ht. cbn [negb orb].
  assert (E : negb first && (tb_TerminalSequence t <=? previous) = false).
  { destruct first; [done|]. cbn. specialize (Hf eq_refl). apply Forall_cons in Hf as [? _].
    by apply Z.leb_gt. }
  rewrite E. pose proof (tombstone_json_short t Ht).
  test_false (slen (tombstone_json t) >? al_CapabilityTombstoneMaxEncodedBytes limits).
  destruct (IH false (tb_TerminalSequence t) Hv Hs) as (last & -> & H'); [done|].
  exists last. split; [done|]. right. destruct H' as [->|(u & Hu & ->)].
  - exists t. by split; [left|].
  - exists u. by split; [right|].
Qed.

Lemma restart_valid s :
  sequences_ok s -> limits_ok (sc_limits s) ->
  validateRuntimeRestart
    (Some {| re_SchemaVersion := 1; re_NextTerminalSequence := sc_nextTerminalSequence s;
             re_SequenceExhausted := sc_sequenceExhausted s; re_Tombstones := sc_tombstones s |})
    (sc_limits s) = None.
Proof.
  intros [Hn He _ _ Htb Hsort Hbound] Hli. unfold validateRuntimeRestart. cbn [re_SchemaVersion
    re_Tombstones re_SequenceExhausted re_NextTerminalSequence].
  destruct (check_tombstones_accepts (sc_limits s) (sc_tombstones s) true 0) as (last & -> & Hlast);
    [apply Hli| |done|done|].
  { eapply Forall_impl; [exact Htb|]. by intros ? []. }
  test_false (zlen (sc_tombstones s) >? al_CapabilityTombstoneLimit (sc_limits s)). cbn [negb orb Z.eqb Pos.eqb].
  destruct (sc_sequenceExhausted s); cbn [negb andb orb].
  - rewrite (proj1 He eq_refl). done.
  - assert (Hne : sc_nextTerminalSequence s <> 0) by (intros E; by apply He in E).
    test_false (sc_nextTerminalSequence s =? 0).
    test_false (last >=? sc_nextTerminalSequence s); [done|].
    destruct Hlast as [->|(t & Ht & ->)]; [lia|].
    rewrite Forall_forall in Htb. destruct (Htb t Ht) as [_ [_ Hb]]. specialize (Hb Hne). lia.
Qed.

Lemma config_restart limits lifetime clock restart :
  validateRuntimeAcquisitionConfig (mkRuntimeAcquisitionConfig limits lifetime clock None) = None ->
  validateRuntimeRestart restart limits = None ->
  validateRuntimeAcquisitionConfig (mkRuntimeAcquisitionConfig limits lifetime clock restart) = None.
Proof.
  unfold validateRuntimeAcquisitionConfig. cbn [ac_Limits ac_ClaimLifetime ac_Clock ac_Restart].
  intros H Hr. rewrite Hr. exact H.
Qed.

(** What an export leaves behind. *)
Lemma export_retires w a s w' r :
  rw_sources w !! a = Some s -> ExportRestartState w a = (w', Ok r) ->
  r = {| re_SchemaVersion := 1; re_NextTerminalSequence := sc_nextTerminalSequence s;
         re_SequenceExhausted := sc_sequenceExhausted s; re_Tombstones := sc_tombstones s |} /\
  exists s', rw_sources w' !! a = Some s' /\ sc_retired s' = true.
Proof.
  intros Hs. unfold ExportRestartState. rewrite Hs. destruct (sc_retired s); [done|].
  cbv zeta. destruct (_ || _); [done|]. intros [= <- <-]. split; [done|].
  eexists. cbn. by rewrite lookup_insert_eq.
Qed.

(** An exported restart state can be restored, and retires its source: every
    configuration with the limits of the exporting source that is valid without a
    restart state is valid with the exported one; a source made from it hands out
    only terminal sequences later than every recorded one; and the old source opens
    no further attempt and exports nothing more. *)
Theorem restart_accepted w a s w' r config w1 b :
  acq_reachable w -> rw_sources w !! a = Some s -> ExportRestartState w a = (w', Ok r) ->
  ac_Limits config = sc_limits s -> ac_Restart config = Some r ->
  NewRuntimeAcquisitionSource w' (mkRuntimeAcquisitionConfig (ac_Limits config)
    (ac_ClaimLifetime config) (ac_Clock config) None) = (w1, Ok b) ->
  (exists w2 s2, NewRuntimeAcquisitionSource w' config = (w2, Ok b) /\
     rw_sources w2 !! b = Some s2 /\ sc_tombstones s2 = sc_tombstones s /\
     Forall (fun t => forall s3 seq, reserveTerminalSequenceLocked s2 = (s3, Ok seq) ->
               tb_TerminalSequence t < seq) (sc_tombstones s2)) /\
  (forall key, snd (BeginAttempt w' a key) = Err ErrRuntimeAcquisitionUnavailable) /\
  snd (ExportRestartState w' a) = Err ErrRuntimeAcquisitionUnavailable.
Proof.
  intros Hr Hs Hexp Hl Hrest Hnew. apply acq_reachable_ok in Hr as [Hok Hlim].
  destruct (Hlim a s Hs) as [Hli _]. pose proof (ro_source _ Hok a s Hs) as Hso.
  pose proof (so_sequences _ _ _ _ Hso) as Hsq.
  destruct (export_retires w a s w' r Hs Hexp) as (-> & s' & Hs' & Hret). conj.
  - destruct config as [limits lifetime clock restart]. cbn in Hl, Hrest, Hnew. subst limits restart.
    unfold NewRuntimeAcquisitionSource in *.
    destruct (validateRuntimeAcquisitionConfig _) eqn:Hv in Hnew; [done|].
    rewrite (config_restart _ _ _ _ Hv (restart_valid s Hsq Hli)).
    injection Hnew as _ <-. eexists _, _. conj; [done|cbn; by rewrite lookup_insert_eq|done|].
    cbn. eapply Forall_impl; [apply (sq_tombstones _ Hsq)|]. intros t [_ [Hb Hlt]] s3 seq.
    unfold reserveTerminalSequenceLocked. cbn. case_test; [done|]. bool_hyps.
    case_test; intros [= _ <-]; by apply Hlt.
  - intros key. unfold BeginAttempt. rewrite Hs'. case_test; [done|]. by rewrite Hret.
  - unfold ExportRestartState. by rewrite Hs', Hret.
Qed.

(** The source after the one capability has been claimed. *)
Definition demo_done : runtime :=
  acq_run empty_runtime
    (demo_issue ++ [AcqClose (Some 3) [demo_member]; AcqClaim (Some 4) (Some 3) 50]).

Definition demo_done_source : RuntimeAcquisitionSource :=
  {| sc_limits := demo_limits; sc_claimLifetime := 100; sc_attempts := ∅;
     sc_drainedAttempts := {[ 3 ]}; sc_live := ∅;
     sc_tombstones := [ {| tb_SchemaVersion := 1; tb_TerminalSequence := 1;
                           tb_TerminalOutcome := RuntimeCapabilityClaimed |} ];
     sc_nextTerminalSequence := 2; sc_sequenceExhausted := false; sc_retired := false |}.

Lemma demo_done_reachable : acq_reachable demo_done.
Proof.
  apply (demo_reachable_ops [AcqClose (Some 3) [demo_member]; AcqClaim (Some 4) (Some 3) 50]).
  by repeat constructor.
Qed.

Definition demo_restart : RuntimeAcquisitionRestartState :=
  {| re_SchemaVersion := 1; re_NextTerminalSequence := 2; re_SequenceExhausted := false;
     re_Tombstones := sc_tombstones demo_done_source |}.

Lemma restart_accepted_witness :
  let w' := fst (ExportRestartState demo_done 1) in
  snd (ExportRestartState demo_done 1) = Ok demo_restart /\
  exists w2 s2,
    NewRuntimeAcquisitionSource w'
      {| ac_Limits := demo_limits; ac_ClaimLifetime := 100; ac_Clock := Some 0;
         ac_Restart := Some demo_restart |} = (w2, Ok 5) /\
    rw_sources w2 !! 5 = Some s2 /\ sc_tombstones s2 = sc_tombstones demo_done_source.
Proof.
  intros w'. split; [by vm_compute|].
  destruct (restart_accepted demo_done 1 demo_done_source w' demo_restart
    {| ac_Limits := demo_limits; ac_ClaimLifetime := 100; ac_Clock := Some 0;
       ac_Restart := Some demo_restart |}
    (fst (NewRuntimeAcquisitionSource w' demo_acquisition)) 5)
    as [(w2 & s2 & H1 & H2 & H3 & _) _].
  - exact demo_done_reachable.
  - by vm_compute.
  - by vm_compute.
  - done.
  - done.
  - by vm_compute.
  - exists w2, s2. split; [exact H1|]. split; [exact H2|exact H3].
Defined.

(** * Issuing *)

(** [op] issues a capability for the view [v]. *)
Definition issues (w : runtime) (op : acq_op) (v : Z) : bool :=
  match op with
  | AcqIssue a attempt ordinal view (Some u) normalization now =>
      match snd (Issue w a attempt ordinal view (Some u) normalization now) with
      | Ok _ => u =? v
      | Err _ => false
      end
  | _ => false
  end.

Fixpoint count_issues (w : runtime) (ops : list acq_op) (v : Z) : Z :=
  match ops with
  | [] => 0
  | op :: ops => (if issues w op v then 1 else 0) + count_issues (acq_step w op) ops v
  end.

Definition view_spent (w : runtime) (v : Z) : Prop :=
  exists x, rw_views w !! v = Some x /\ ve_state x <> runtimeViewAvailable.

Lemma set_view_spent w v st x :
  rw_views w !! v = Some x -> st <> runtimeViewAvailable -> view_spent (set_view w v st) v.
Proof.
  intros Hv Hst. unfold view_spent, set_view. rewrite Hv. cbn. rewrite lookup_insert_eq.
  eexists. by split.
Qed.

Lemma spent_kept w w' v : keeps w w' -> view_spent w v -> view_spent w' v.
Proof. intros Hk (x & Hx & Hn). destruct (kp_view _ _ Hk v x Hx) as (y & Hy & H). exists y. auto. Qed.

(** An issue finds the view available and leaves it spent. *)
Lemma issue_spends w a attempt o view v normalization now q :
  runtime_ok w -> snd (Issue w a attempt o view (Some v) normalization now) = Ok q ->
  ve_state <$> rw_views w !! v = Some runtimeViewAvailable /\
  view_spent (fst (Issue w a attempt o view (Some v) normalization now)) v.
Proof.
  intros Hok. unfold Issue. destruct (rw_sources w !! a) as [s|] eqn:Hs; [|done].
  destruct attempt as [k|]; [|done]. destruct (issuable _ _ _ _ _ _); cbn [negb]; [|done].
  destruct (bool_decide _) eqn:Hv; cbn [negb]; [|done]. apply bool_decide_eq_true in Hv.
  cbv zeta. case_test; [done|]. destruct (rw_views w !! v) as [x|] eqn:Ev; [|done].
  destruct (issue_locked _ a s k o now) as [[[w2 key] t]|] eqn:E; [|done]. intros _. split; [done|].
  cbn [fst].
  assert (Hsp : view_spent (set_view w v runtimeViewIssuing) v) by (by eapply set_view_spent).
  assert (Hk : keeps (set_view w v runtimeViewIssuing) w2).
  { eapply issue_locked_keeps; [|exact E]. by apply set_view_ok. }
  destruct (spent_kept _ _ _ Hk Hsp) as (y & Hy & _). by eapply set_view_spent.
Qed.

Lemma issues_spends w op v :
  runtime_ok w -> issues w op v = true ->
  ve_state <$> rw_views w !! v = Some runtimeViewAvailable /\ view_spent (acq_step w op) v.
Proof.
  intros Hok. destruct op as [| | |a attempt o view e n now| | | | | |]; try done. cbn [issues acq_step].
  destruct e as [u|]; [|done]. destruct (snd _) as [q|] eqn:E; [|done]. intros ->%Z.eqb_eq.
  by eapply issue_spends.
Qed.

Lemma spent_never_issues ops w v :
  Forall acq_op_ok ops -> runtime_ok w -> limited w -> view_spent w v -> count_issues w ops v = 0.
Proof.
  intros HF. revert w. induction HF as [|op ops Hop HF IH]; intros w Hok Hlim Hv; [done|].
  cbn [count_issues]. destruct (acq_step_ok w op Hop Hok Hlim) as [Hok1 Hlim1].
  rewrite (IH _ Hok1 Hlim1) by (eapply spent_kept; [by apply acq_step_keeps|done]).
  destruct (issues w op v) eqn:E; [|done].
  destruct (issues_spends w op v Hok E) as [Ha _]. destruct Hv as (x & Hx & Hn).
  rewrite Hx in Ha. by injection Ha as Ha.
Qed.

(** A validated read is evidence for at most one capability.  Whatever the calls, by
    whatever attempts and sources and at whatever times, an eligibility issues at most once
    over any run of the runtime, and once it has been used, or refused after being
    consumed, it never issues again. *)
Theorem view_issues_once w ops v :
  acq_reachable w -> Forall acq_op_ok ops ->
  count_issues w ops v <= 1 /\ (view_spent w v -> count_issues w ops v = 0).
Proof.
  intros Hr HF. apply acq_reachable_ok in Hr as [Hok Hlim]. split.
  - revert w Hok Hlim. induction HF as [|op ops Hop HF IH]; intros w Hok Hlim; [done|].
    cbn [count_issues]. destruct (acq_step_ok w op Hop Hok Hlim) as [Hok1 Hlim1].
    destruct (issues w op v) eqn:E; [|by apply IH].
    destruct (issues_spends w op v Hok E) as [_ Hs]. by rewrite (spent_never_issues _ _ _ HF Hok1 Hlim1 Hs).
  - by apply spent_never_issues.
Qed.

Lemma view_issues_once_witness :
  let ops := demo_issue ++ [AcqIssue 1 (Some 3) 1 demo_view (Some 2) demo_record 20] in
  count_issues empty_runtime ops 2 = 1 /\ count_issues empty_runtime ops 2 <= 1.
Proof.
  intros ops. split; [by vm_compute|]. refine (proj1 (view_issues_once empty_runtime ops 2 _ _)).
  - exists []. by split.
  - by repeat constructor.
Defined.
