(* ===== verification/RuntimeNormalizationFacts.v ===== *)
(** What the normalization parser guarantees: it terminates on every text, admits only
    valid fields from texts within its limits, and reads every valid record back from a
    printed one, with its extensions and in any order of the members. *)

From S2P Require Import Prelude Json JsonFacts Pdu DeviceId DeviceIdTolerant TcpAdu TcpOwner Coalescing RuntimeAcquisition RuntimeNormalization RuntimeAcquisitionFacts RuntimeAcquisitionProps.

(** * Termination *)

Lemma read_key_shorter first text key rest :
  read_key first text = Some (key, rest) -> (length rest < length text)%nat.
Proof.
  unfold read_key. pose proof (skip_space_length text) as Hs.
  destruct (skip_space text) as [|c t]; [done|]. case_test; [done|].
  pose proof (skip_space_length t) as Ht. cbn in Hs.
  destruct first; [|destruct (skip_space t) as [|q u] eqn:E; [done|]]; case_test; try done;
    intros H%decode_string_shorter; cbn in *; lia.
Qed.

Lemma member_value_shorter text raw rest :
  read_member_value text = Some (raw, rest) -> (length rest < length text)%nat.
Proof.
  unfold read_member_value. pose proof (skip_space_length text) as Hs.
  destruct (skip_space text) as [|c t]; [done|]. case_test; [|done].
  intros H%decode_raw_shorter. cbn in Hs. lia.
Qed.

(** What a turn of the loop has read. *)
Lemma decode_member_inv limits first values extensions text values' extensions' rest :
  decode_member limits first values extensions text = Some (values', extensions', rest) ->
  exists key mid raw,
    read_key first text = Some (key, mid) /\ read_member_value mid = Some (raw, rest) /\
    key <> [] /\ utf8_valid key = true /\ values !! key = None /\
    values' = <[key := raw]> values /\
    extensions' = (if required key then extensions else extensions + 1) /\
    (required key = false -> extension_fits limits extensions' key raw = true).
Proof.
  unfold decode_member. destruct (read_key first text) as [[key mid]|]; cbn; [|done].
  case_test; [done|]. destruct (read_member_value mid) as [[raw rest0]|] eqn:Hv; cbn; [|done].
  case_test; [done|]. intros [= <- <- <-]. exists key, mid, raw. bool_hyps. conj; try done.
  - by apply eq_None_not_Some.
  - intros Hq. rewrite Hq in *. cbn in *. by bool_hyps.
Qed.

Lemma decode_members_total fuel limits first values extensions text :
  (length text < fuel)%nat -> is_Some (decode_members fuel limits first values extensions text).
Proof.
  revert first values extensions text. induction fuel as [|fuel IH]; intros first values extensions text Hl; [lia|].
  cbn. case_test; [|by case_test].
  destruct (decode_member _ _ _ _ _) as [[[v e] t]|] eqn:E; [|done].
  apply decode_member_inv in E as (key & mid & raw & H1%read_key_shorter & H2%member_value_shorter & _).
  apply IH. lia.
Qed.

Lemma decode_object_total limits encoded : is_Some (decodeNormalizationObject limits encoded).
Proof.
  unfold decodeNormalizationObject. destruct (skip_space encoded) as [|c rest]; [done|].
  case_test; [|done]. apply decode_members_total. lia.
Qed.

(** * Bytes and strings *)

Lemma string_bytes_u8 s : Forall u8 (string_bytes s).
Proof.
  unfold string_bytes. apply Forall_fmap, Forall_forall. intros c _. unfold u8. cbn.
  pose proof (Ascii.nat_ascii_bounded c). lia.
Qed.

Lemma zlen_string_bytes s : zlen (string_bytes s) = slen s.
Proof.
  unfold zlen, slen, string_bytes. rewrite length_fmap. f_equal.
  induction s as [|c s IH]; cbn; [done|]. by rewrite IH.
Qed.

Lemma bytes_string_bytes s : bytes_string (string_bytes s) = s.
Proof.
  unfold bytes_string, string_bytes. induction s as [|c s IH]; cbn; [done|]. f_equal; [|exact IH].
  rewrite Nat2Z.id. apply Ascii.ascii_nat_embedding.
Qed.

Lemma string_bytes_string l : Forall u8 l -> string_bytes (bytes_string l) = l.
Proof.
  unfold bytes_string, string_bytes. induction 1 as [|c l Hc Hl IH]; cbn; [done|]. f_equal; [|exact IH].
  unfold u8 in Hc. rewrite Ascii.nat_ascii_embedding by lia. lia.
Qed.

Lemma skip_space_u8 text : Forall u8 text -> Forall u8 (skip_space text).
Proof. induction 1 as [|c l Hc Hl IH]; cbn; [done|]. case_test; [done|]. by constructor. Qed.

Lemma trim_left_u8 text : Forall u8 text -> Forall u8 (trim_left text).
Proof. induction 1 as [|c l Hc Hl IH]; cbn; [done|]. case_test; [done|]. by constructor. Qed.

Lemma trim_space_u8 text : Forall u8 text -> Forall u8 (trim_space text).
Proof.
  intros H. unfold trim_space. by apply Forall_rev, trim_left_u8, Forall_rev, trim_left_u8.
Qed.

Lemma decode_raw_u8 text value rest :
  decode_raw text = Some (value, rest) -> Forall u8 text -> Forall u8 value /\ Forall u8 rest.
Proof.
  unfold decode_raw. destruct (read_value _ _ _) as [[v r]|] eqn:E; cbn; [|done]. intros [= <- <-].
  apply read_value_app in E as ->. intros [H1 H2]%Forall_app. split; [by apply skip_space_u8|done].
Qed.

Lemma encode_rune_u8 r : 0 <= r < 0x110000 -> Forall u8 (encode_rune r).
Proof.
  intros Hr. unfold encode_rune. pose proof (Z.mod_pos_bound r 0x40 ltac:(lia)).
  pose proof (Z.mod_pos_bound (r / 0x40) 0x40 ltac:(lia)).
  pose proof (Z.mod_pos_bound (r / 0x1000) 0x40 ltac:(lia)).
  pose proof (Z.div_pos r 64). pose proof (Z.div_pos r 4096). pose proof (Z.div_pos r 262144).
  repeat case_test; bool_hyps; repeat (apply Forall_cons; split); try apply Forall_nil; unfold u8; try lia.
  - assert (r / 64 < 32) by (apply Z.div_lt_upper_bound; lia). lia.
  - assert (r / 4096 < 16) by (apply Z.div_lt_upper_bound; lia). lia.
  - assert (r / 262144 < 5) by (apply Z.div_lt_upper_bound; lia). lia.
Qed.

Lemma hex_value_bound c h : hex_value c = Some h -> 0 <= h < 16.
Proof. unfold hex_value, is_digit. repeat case_test; intros [= <-]; bool_hyps; lia. Qed.

Lemma getu4_bound h1 h2 h3 h4 r : getu4 h1 h2 h3 h4 = Some r -> 0 <= r < 0x10000.
Proof.
  unfold getu4. destruct (hex_value h1) eqn:E1, (hex_value h2) eqn:E2, (hex_value h3) eqn:E3, (hex_value h4) eqn:E4; cbn; try done.
  intros [= <-]. apply hex_value_bound in E1, E2, E3, E4. lia.
Qed.

Lemma low_half_bound rr s x : low_half rr s = Some x -> 0 <= x < 0x110000.
Proof.
  unfold low_half. do 6 (destruct s as [|? s]; [done|]). case_test; [|done].
  destruct (getu4 _ _ _ _); cbn; [|done]. unfold decode_pair. case_test; [|done].
  intros [= <-]. bool_hyps. lia.
Qed.

Lemma unescape_u8 c b : unescape c = Some b -> u8 c -> u8 b.
Proof. unfold unescape, u8. repeat case_test; intros [= <-]; lia. Qed.

Lemma unquote_u8 s t : Forall u8 s -> unquote s = Some t -> Forall u8 t.
Proof.
  remember (length s) as n eqn:Hn. revert s t Hn. induction (lt_wf n) as [n _ IH]. intros s t Hn Hs.
  assert (Hgo : forall p s', (length s' < n)%nat -> Forall u8 s' -> Forall u8 p ->
    app p <$> unquote s' = Some t -> Forall u8 t).
  { intros p s' Hl Hs' Hp H. destruct (unquote s') as [u|] eqn:E; [|done]. injection H as <-.
    apply Forall_app. split; [done|]. by eapply (IH (length s')). }
  assert (Hrep : Forall u8 replacement) by (apply encode_rune_u8; lia).
  destruct s as [|c s]; [by intros [= <-]|]. apply Forall_cons in Hs as [Hc Hs]. cbn [unquote length] in *.
  case_test.
  { destruct s as [|e s]; [done|]. apply Forall_cons in Hs as [He Hs]. cbn [length] in *. case_test.
    - do 4 (destruct s as [|? s]; [done|]). repeat (apply Forall_cons in Hs as [? Hs]). cbn [length] in *.
      destruct (getu4 _ _ _ _) as [rr|] eqn:Eg; cbn; [|done]. apply getu4_bound in Eg.
      case_test; [|apply Hgo; [lia|done|apply encode_rune_u8; lia]].
      destruct (low_half rr s) as [x|] eqn:El; [|by apply (Hgo replacement); [lia|..]].
      apply low_half_bound in El.
      do 6 (destruct s as [|? s]; [by apply (Hgo replacement); [cbn; lia|..]|]).
      repeat (apply Forall_cons in Hs as [? Hs]). cbn [length] in *.
      apply Hgo; [lia|done|by apply encode_rune_u8].
    - destruct (unescape e) as [b|] eqn:Eu; cbn; [|done]. apply (Hgo [b]); [lia|done|].
      constructor; [by eapply unescape_u8|constructor]. }
  case_test; [done|].
  destruct (rune_width (c :: s)) as [|[|[|[|[|]]]]]; try by apply (Hgo replacement); [lia|..].
  - apply (Hgo [c]); [lia|done|by repeat (apply Forall_cons; split)].
  - destruct s as [|b1 s]; [by apply (Hgo replacement); [cbn; lia|..]|]. repeat (apply Forall_cons in Hs as [? Hs]).
    cbn [length] in *. apply Hgo; [lia|done|by repeat (apply Forall_cons; split)].
  - do 2 (destruct s as [|? s]; [by apply (Hgo replacement); [cbn in *; lia|..]|]). repeat (apply Forall_cons in Hs as [? Hs]).
    cbn [length] in *. apply Hgo; [lia|done|by repeat (apply Forall_cons; split)].
  - do 3 (destruct s as [|? s]; [by apply (Hgo replacement); [cbn in *; lia|..]|]). repeat (apply Forall_cons in Hs as [? Hs]).
    cbn [length] in *. apply Hgo; [lia|done|by repeat (apply Forall_cons; split)].
Qed.

Lemma string_literal_u8 value s : Forall u8 value -> string_literal value = Some s -> Forall u8 s.
Proof.
  unfold string_literal. destruct value as [|c body]; [done|]. case_test; [|done].
  intros [_ Hb]%Forall_cons. apply unquote_u8. bool_hyps.
  destruct body as [|x body _] using rev_ind; [constructor|]. rewrite removelast_last.
  by apply Forall_app in Hb as [? _].
Qed.

Lemma decode_string_u8 text s rest :
  Forall u8 text -> decode_string text = Some (s, rest) -> Forall u8 s /\ Forall u8 rest.
Proof.
  intros Ht. unfold decode_string. destruct (decode_raw text) as [[v r]|] eqn:E; cbn; [|done].
  apply decode_raw_u8 in E as [Hv Hr]; [|done].
  destruct (string_literal v) as [s0|] eqn:El; cbn; [|done]. intros [= <- <-].
  split; [by apply (string_literal_u8 v)|done].
Qed.

Lemma read_key_u8 first text key rest :
  Forall u8 text -> read_key first text = Some (key, rest) -> Forall u8 rest.
Proof.
  intros Ht%skip_space_u8. unfold read_key. destruct (skip_space text) as [|c t]; [done|].
  apply Forall_cons in Ht as [Hc Ht]. case_test; [done|]. pose proof (skip_space_u8 t Ht) as Hu.
  destruct first; [|destruct (skip_space t) as [|q u]; [done|]]; case_test; try done;
    intros H; (apply decode_string_u8 in H as [_ H]; [done|]); [by constructor|done].
Qed.

Lemma member_value_u8 text raw rest :
  Forall u8 text -> read_member_value text = Some (raw, rest) -> Forall u8 raw /\ Forall u8 rest.
Proof.
  intros Ht%skip_space_u8. unfold read_member_value. destruct (skip_space text) as [|c t]; [done|].
  apply Forall_cons in Ht as [Hc Ht]. case_test; [|done]. intros H. by eapply decode_raw_u8.
Qed.

Definition values_u8 (values : members) : Prop := map_Forall (fun _ raw => Forall u8 raw) values.

Lemma decode_members_u8 fuel limits first values extensions text values' extensions' :
  Forall u8 text -> values_u8 values ->
  decode_members fuel limits first values extensions text = Some (Ok (values', extensions')) ->
  values_u8 values'.
Proof.
  revert first values extensions text. induction fuel as [|fuel IH]; intros first values extensions text Ht Hv; [done|].
  cbn. case_test; [|case_test; [by intros [= <- _]|done]].
  destruct (decode_member _ _ _ _ _) as [[[v e] t]|] eqn:E; [|done].
  apply decode_member_inv in E as (key & mid & raw & H1 & H2 & _ & _ & _ & -> & _ & _).
  apply read_key_u8 in H1; [|done]. apply member_value_u8 in H2 as [Hr Hrest]; [|done].
  apply IH; [done|]. by apply map_Forall_insert_2.
Qed.

Lemma decode_object_u8 limits encoded values extensions :
  Forall u8 encoded -> decodeNormalizationObject limits encoded = Some (Ok (values, extensions)) ->
  values_u8 values.
Proof.
  intros He%skip_space_u8. unfold decodeNormalizationObject.
  destruct (skip_space encoded) as [|c rest]; [done|]. apply Forall_cons in He as [_ He].
  case_test; [|done]. apply decode_members_u8; [done|]. apply map_Forall_empty.
Qed.

(** * What is admitted *)

Definition text_within (max : Z) (s : string) : Prop := ValidString s = true /\ 1 <= slen s <= max.

(** The documentary fields a source with these limits admits. *)
Record fields_valid (limits : RuntimeAcquisitionLimits) (f : RuntimeNormalizationFields) : Prop := mkFieldsValid {
  fv_version : nf_SchemaVersion f = 1;
  fv_evidence : text_within (al_SourceEvidenceIDMaxUTF8Bytes limits) (nf_SourceEvidenceID f);
  fv_notation : text_within (al_NormalizationRequiredStringMaxUTF8Bytes limits) (nf_DocumentaryNotation f);
  fv_base : text_within (al_NormalizationRequiredStringMaxUTF8Bytes limits) (nf_DocumentaryAddressBase f);
  fv_address : u32 (nf_DocumentaryAddress f);
  fv_table : (nf_FunctionCode f = FunctionReadHoldingRegisters /\ nf_LogicalTable f = HoldingRegisters) \/
             (nf_FunctionCode f = FunctionReadInputRegisters /\ nf_LogicalTable f = InputRegisters);
  fv_words : 1 <= nf_WordCount f <= MaxReadRegisters;
  fv_window : 0 <= nf_NormalizedZeroBasedPDUOffset f /\
              nf_NormalizedZeroBasedPDUOffset f + nf_WordCount f <= 65536
}.

Lemma required_string_within max raw s :
  Forall u8 raw -> required_string max raw = Some s -> text_within max s.
Proof.
  intros Hr. unfold required_string, decodeRuntimeNormalizationString.
  pose proof (trim_space_u8 raw Hr) as Ht. destruct (trim_space raw) as [|c t] eqn:E; [done|].
  case_test; [|done]. unfold decodeRuntimeNormalizationValue.
  destruct (decode_string (c :: t)) as [[v rest]|] eqn:Ed; cbn; [|done].
  apply decode_string_u8 in Ed as [Hv _]; [|done]. case_test; cbn; [|done]. case_test; [done|].
  intros [= <-]. bool_hyps. unfold text_within, ValidString.
  rewrite <- zlen_string_bytes, string_bytes_string by done. split; [done|].
  destruct v; [done|]. zlen_simpl. pose proof (zlen_nonneg v). lia.
Qed.

Lemma parse_digits_nonneg s acc n : parse_digits acc s = Some n -> 0 <= acc -> 0 <= n.
Proof.
  revert acc. induction s as [|c s IH]; cbn; intros acc; [by intros [= <-]|].
  unfold digit, is_digit. case_test; cbn; [|done]. intros H Ha. bool_hyps. eapply IH; [done|lia].
Qed.

Lemma parse_uint_bounds max s n : parse_uint max s = Some n -> 0 <= n <= max.
Proof.
  unfold parse_uint, parse_nonempty. destruct s as [|c s]; [done|].
  destruct (parse_digits 0 (c :: s)) as [m|] eqn:E; cbn -[parse_digits]; [|done].
  case_test; [|done]. intros [= <-]. bool_hyps. split; [|done]. by eapply parse_digits_nonneg.
Qed.

Lemma decode_uint_bounds max raw n :
  decodeRuntimeNormalizationNumber (parse_uint max) raw = Some n -> 0 <= n <= max.
Proof.
  unfold decodeRuntimeNormalizationNumber. destruct (trim_space raw) as [|c t]; [done|].
  case_test; [|done]. unfold decodeRuntimeNormalizationValue, decode_number.
  destruct (decode_raw _) as [[v rest]|]; cbn -[parse_uint]; [|done].
  destruct (parse_uint max v) as [m|] eqn:E; cbn; [|done]. case_test; [|done]. intros [= <-].
  by eapply parse_uint_bounds.
Qed.

(** Open the leading step of a sequence of fallible steps. *)
Ltac bind_step :=
  match goal with
  | |- (?m ≫= _) = Some _ -> _ => destruct m eqn:?; cbn [mbind option_bind]; [|done]
  end.

Lemma bind_some {A B} (m : option A) (f : A -> option B) b :
  m ≫= f = Some b -> exists a, m = Some a /\ f a = Some b.
Proof. destruct m; cbn; eauto. done. Qed.

Lemma decode_fields_valid limits values f :
  values_u8 values -> decodeNormalizationFields limits values = Ok f -> fields_valid limits f.
Proof.
  intros Hv. unfold decodeNormalizationFields. case_match eqn:E; [|done]. intros [= <-]. revert E.
  case_test; [done|]. bind_step. case_test; [done|]. do 11 bind_step.
  do 3 (case_test; [done|]). intros [= <-]. bool_hyps.
  repeat match goal with H : member _ _ ≫= _ = Some _ |- _ => apply bind_some in H as (? & ? & H) end.
  repeat match goal with
  | H : decodeRuntimeNormalizationNumber (parse_uint _) _ = Some _ |- _ => apply decode_uint_bounds in H
  | H : required_string _ _ = Some _ |- _ => apply required_string_within in H; [|by eapply Hv]
  end.
  assert (Hw : forall a b, 0 <= a <= 65535 -> 0 <= b <= 65535 -> wrap32 (a + b) = a + b)
    by (intros; apply wrap32_id; unfold u32; lia).
  constructor; cbn; try done; try (unfold u32; lia).
  - unfold function_table in *. repeat (case_test; bool_hyps; [by auto|]). done.
  - rewrite Hw in * by done. change (Z.shiftl 1 16) with 65536 in *. lia.
Qed.

Lemma decode_members_error fuel limits first values extensions text e :
  decode_members fuel limits first values extensions text = Some (Err e) -> e = ErrRuntimeNormalization.
Proof.
  revert first values extensions text. induction fuel as [|fuel IH]; intros first values extensions text; [done|].
  cbn. case_test; [|by case_test; intros [= <-]].
  destruct (decode_member _ _ _ _ _) as [[[v x] t]|]; [apply IH|by intros [= <-]].
Qed.

Lemma decode_object_error limits encoded e :
  decodeNormalizationObject limits encoded = Some (Err e) -> e = ErrRuntimeNormalization.
Proof.
  unfold decodeNormalizationObject. destruct (skip_space encoded) as [|c rest]; [by intros [= <-]|].
  case_test; [apply decode_members_error|by intros [= <-]].
Qed.

Lemma decode_fields_error limits values e :
  decodeNormalizationFields limits values = Err e -> e = ErrRuntimeNormalization.
Proof. unfold decodeNormalizationFields. case_match; by intros [= <-]. Qed.

Definition retired (w : runtime) (a : Z) : bool :=
  match rw_sources w !! a with Some s => sc_retired s | None => false end.

(** The parser returns on every text.  It publishes a record only of a source that
    is not retired, from a text within the limit; the record belongs to the source and
    keeps the bytes exactly, and its fields are valid: version 1, bounded valid strings,
    a 32-bit address, the table of its function code, and between 1 and 125 registers
    inside the address space.  Every refusal is a normalization error, or the
    unavailability of a retired source. *)
Theorem normalization_admits_valid w w' a s encoded :
  rw_sources w !! a = Some s -> Forall u8 encoded ->
  exists r, ParseNormalizationRecord w w' a encoded = Some r /\
    match r with
    | Ok record =>
        nr_owner record = a /\ nr_encoded record = encoded /\
        fields_valid (sc_limits s) (nr_fields record) /\
        1 <= zlen encoded <= al_NormalizationRecordMaxEncodedBytes (sc_limits s) /\
        retired w a = false /\ retired w' a = false
    | Err e =>
        e = ErrRuntimeNormalization \/
        (e = ErrRuntimeAcquisitionUnavailable /\ (retired w a = true \/ retired w' a = true))
    end.
Proof.
  intros Hs Hu. unfold ParseNormalizationRecord, retired. rewrite Hs.
  destruct (sc_retired s) eqn:Hr; [eexists; split; [done|cbn; by auto 6]|].
  case_test; [eexists; split; [done|cbn; by auto 6]|].
  destruct (decode_object_total (sc_limits s) encoded) as [r Er]. rewrite Er.
  destruct r as [[values extensions]|e];
    [|exists (Err e); split; [done|left]; by eapply decode_object_error].
  case_test; [eexists; split; [done|cbn; by auto 6]|].
  destruct (decodeNormalizationFields _ _) as [f|e] eqn:Ef;
    [|exists (Err e); split; [done|left]; by eapply decode_fields_error].
  case_test; [eexists; split; [done|cbn; by auto 6]|]. eexists. split; [done|]. cbn.
  bool_hyps. conj; try done.
  - eapply decode_fields_valid; [|done]. by eapply decode_object_u8.
  - pose proof (zlen_nonneg encoded). lia.
Qed.

(** * Printed records are read back *)

Fixpoint print_members (first : bool) (ms : list (list Z * list Z)) : list Z :=
  match ms with
  | [] => []
  | (key, raw) :: ms =>
      (if first then [] else [44]) ++ print_string key ++ 58 :: raw ++ print_members false ms
  end.

Definition print_object (ms : list (list Z * list Z)) : list Z := 123 :: print_members true ms ++ [125].

Definition field_members (f : RuntimeNormalizationFields) : list (list Z * list Z) :=
  [ (string_bytes "schema_version", print_uint (nf_SchemaVersion f));
    (string_bytes "source_kind", print_string (string_bytes (source_kind_string (nf_SourceKind f))));
    (string_bytes "source_evidence_id", print_string (string_bytes (nf_SourceEvidenceID f)));
    (string_bytes "documentary_notation", print_string (string_bytes (nf_DocumentaryNotation f)));
    (string_bytes "documentary_address", print_uint (nf_DocumentaryAddress f));
    (string_bytes "documentary_address_base", print_string (string_bytes (nf_DocumentaryAddressBase f)));
    (string_bytes "function_code", print_uint (nf_FunctionCode f));
    (string_bytes "logical_table", print_string (string_bytes (table_string (nf_LogicalTable f))));
    (string_bytes "normalized_zero_based_pdu_offset", print_uint (nf_NormalizedZeroBasedPDUOffset f));
    (string_bytes "word_count", print_uint (nf_WordCount f)) ].

(** A member the object reader accepts in any state with room for it. *)
Record member_ok (m : list Z * list Z) : Prop := mkMemberOk {
  mo_key : m.1 <> [];
  mo_bytes : Forall u8 m.1;
  mo_valid : utf8_valid m.1 = true;
  mo_value : json_value m.2;
  mo_text : utf8_valid m.2 = true
}.

Record extension_ok (limits : RuntimeAcquisitionLimits) (m : list Z * list Z) : Prop := mkExtensionOk {
  eo_member : member_ok m;
  eo_extension : required m.1 = false;
  eo_key : zlen m.1 <= al_NormalizationExtensionKeyMaxUTF8Bytes limits;
  eo_size : zlen m.2 <= al_NormalizationExtensionValueMaxEncodedBytes limits
}.

Definition accepted (limits : RuntimeAcquisitionLimits) (m : list Z * list Z) : Prop :=
  member_ok m /\ (required m.1 = false -> extension_ok limits m).

Fixpoint extension_count (ms : list (list Z * list Z)) : Z :=
  match ms with
  | [] => 0
  | m :: ms => (if required m.1 then 0 else 1) + extension_count ms
  end.

Lemma extension_count_nonneg ms : 0 <= extension_count ms.
Proof. induction ms as [|m ms IH]; cbn; [lia|]. case_test; lia. Qed.

Lemma extension_count_app ms ns : extension_count (ms ++ ns) = extension_count ms + extension_count ns.
Proof. induction ms as [|m ms IH]; cbn; lia. Qed.

#[export] Instance extension_count_proper : Proper ((≡ₚ) ==> (=)) extension_count.
Proof. intros ms ns H. induction H; cbn; lia. Qed.

Lemma members_tail ms : exists c rest, print_members false ms ++ [125] = c :: rest /\ delimiter c.
Proof.
  destruct ms as [|[key raw] ms]; cbn; eexists _, _; (split; [done|]); unfold delimiter; auto.
Qed.

Lemma decode_printed_member limits first values extensions key raw ms :
  accepted limits (key, raw) -> values !! key = None ->
  extensions + (if required key then 0 else 1) <= al_NormalizationExtensionCountMax limits ->
  more (print_members first ((key, raw) :: ms) ++ [125]) = true /\
  decode_member limits first values extensions (print_members first ((key, raw) :: ms) ++ [125])
  = Some (<[key := raw]> values, extensions + (if required key then 0 else 1),
          print_members false ms ++ [125]).
Proof.
  intros [[Hk Hb Hu Hv Ht] He] Hn Hx. cbn [fst snd] in *.
  set (tail := print_members false ms ++ [125]).
  assert (Hp : print_members first ((key, raw) :: ms) ++ [125]
    = (if first then [] else [44]) ++ print_string key ++ 58 :: raw ++ tail)
    by (unfold tail; cbn [print_members]; rewrite <- !(assoc_L (++)), <- !app_comm_cons, <- !(assoc_L (++)); done).
  rewrite Hp. clear Hp. split; [by destruct first|].
  assert (Hkey : read_key first ((if first then [] else [44]) ++ print_string key ++ 58 :: raw ++ tail)
    = Some (key, 58 :: raw ++ tail)).
  { transitivity (decode_string (print_string key ++ 58 :: raw ++ tail)); [by destruct first|].
    by apply decode_string_key. }
  assert (Hval : read_member_value (58 :: raw ++ tail) = Some (raw, tail)).
  { destruct (members_tail ms) as (c & rest & E & Hc). unfold tail. rewrite E.
    transitivity (decode_raw (raw ++ c :: rest)); [done|]. by apply json_value_member. }
  unfold decode_member. rewrite Hkey. cbn -[read_member_value].
  rewrite (bool_decide_false (key = [])), Hu, Hn by done. rewrite bool_decide_false by (by intros [? ?]).
  cbn [negb orb]. rewrite Hval. cbn.
  destruct (required key) eqn:Er; cbn; [by rewrite Z.add_0_r|].
  destruct (He eq_refl) as [_ _ H1 H2]. cbn in H1, H2. unfold extension_fits.
  by rewrite (proj2 (Z.leb_le _ _) Hx), (proj2 (Z.leb_le _ _) H1), (proj2 (Z.leb_le _ _) H2).
Qed.

Lemma decode_printed_members fuel limits first values extensions ms :
  (length ms < fuel)%nat -> Forall (accepted limits) ms -> NoDup ms.*1 ->
  Forall (fun m => values !! m.1 = None) ms ->
  extensions + extension_count ms <= al_NormalizationExtensionCountMax limits ->
  decode_members fuel limits first values extensions (print_members first ms ++ [125])
  = Some (Ok (list_to_map ms ∪ values, extensions + extension_count ms)).
Proof.
  revert first values extensions ms. induction fuel as [|fuel IH]; intros first values extensions ms Hl Ha Hd Hn Hx; [lia|].
  destruct ms as [|[key raw] ms].
  { cbn. by rewrite (left_id_L ∅ (∪)), Z.add_0_r. }
  apply Forall_cons in Ha as [Ha Has]. apply NoDup_cons in Hd as [Hd Hds].
  apply Forall_cons in Hn as [Hn Hns]. cbn [extension_count fst] in Hx.
  pose proof (extension_count_nonneg ms).
  destruct (decode_printed_member limits first values extensions key raw ms Ha Hn ltac:(lia)) as [Hm Hdec].
  cbn [decode_members]. rewrite Hm, Hdec, IH.
  - cbn [list_to_map foldr extension_count fst snd uncurry]. do 3 f_equal; [|lia].
    change (foldr _ ∅ ms) with (list_to_map ms : members).
    rewrite <- insert_union_l. symmetry. apply insert_union_r. by apply not_elem_of_list_to_map_1.
  - cbn in Hl. lia.
  - done.
  - done.
  - apply Forall_forall. intros m Hm'. rewrite lookup_insert_ne.
    + by eapply Forall_forall in Hns.
    + intros ->. apply Hd, list_elem_of_fmap. by exists m.
  - lia.
Qed.

(** * The fields of a printed record *)

Lemma trim_left_id c s : ascii_space c = false -> trim_left (c :: s) = c :: s.
Proof. intros H. cbn. by rewrite H. Qed.

Lemma trim_space_id c s d :
  ascii_space c = false -> ascii_space d = false -> trim_space (c :: s ++ [d]) = c :: s ++ [d].
Proof.
  intros Hc Hd. unfold trim_space. rewrite trim_left_id by done.
  rewrite app_comm_cons, rev_app_distr. cbn [rev app]. rewrite trim_left_id by done.
  cbn [rev]. by rewrite rev_app_distr, rev_involutive.
Qed.

Lemma print_string_decoded s :
  utf8_valid s = true -> Forall u8 s -> decodeRuntimeNormalizationString (print_string s) = Some s.
Proof.
  intros Hv Hs. unfold decodeRuntimeNormalizationString.
  replace (trim_space (print_string s)) with (print_string s) by (symmetry; by apply trim_space_id).
  transitivity (decodeRuntimeNormalizationValue decode_string (print_string s)); [done|].
  unfold decodeRuntimeNormalizationValue. by rewrite decode_string_whole.
Qed.

Lemma digit_not_ascii_space c : is_digit c = true -> ascii_space c = false.
Proof.
  intros H. unfold ascii_space. rewrite digit_not_space by done. unfold is_digit in H. bool_hyps.
  bool_goal; lia.
Qed.

Lemma printed_decoded parse n s :
  printed n s -> parse s = Some n -> decodeRuntimeNormalizationNumber parse s = Some n.
Proof.
  intros Hp Hs. pose proof (printed_number n s parse Hp Hs) as Hd.
  pose proof Hp as [_ D (c & Hc & _)]. unfold decodeRuntimeNormalizationNumber.
  assert (Ht : trim_space s = s).
  { destruct s as [|x t]; [done|]. apply Forall_cons in D as [Dx Dt].
    pose proof (digit_not_ascii_space x Dx) as Hx.
    destruct t as [|y t _] using rev_ind.
    { unfold trim_space. rewrite trim_left_id by done. cbn [rev app]. by rewrite trim_left_id. }
    apply Forall_app in Dt as [_ Dy]. apply Forall_cons in Dy as [Dy _].
    by apply trim_space_id; apply digit_not_ascii_space. }
  rewrite Ht. destruct s as [|x t]; [done|]. apply Forall_cons in D as [Dx _]. rewrite Dx, orb_true_r.
  unfold decodeRuntimeNormalizationValue. by rewrite Hd.
Qed.

Lemma print_uint_decoded n max :
  u64 n -> n <= max -> decodeRuntimeNormalizationNumber (parse_uint max) (print_uint n) = Some n.
Proof. intros Hn Hm. apply printed_decoded; [by apply print_uint_ok|by apply parse_uint_print]. Qed.

Lemma text_decoded max s :
  text_within max s -> required_string max (print_string (string_bytes s)) = Some s.
Proof.
  intros [Hv Hl]. unfold required_string. pose proof (string_bytes_u8 s) as Hu.
  rewrite print_string_decoded by done. cbn -[string_bytes].
  rewrite <- zlen_string_bytes in Hl. unfold ValidString in Hv. rewrite Hv.
  rewrite bool_decide_false by (intros E; rewrite E, zlen_nil in Hl; lia).
  rewrite Z.gtb_ltb, (proj2 (Z.ltb_ge _ _)) by lia. cbn. by rewrite bytes_string_bytes.
Qed.

Lemma member_decoded {A : Type} (values : members) (name : string) (decode : list Z -> option A) raw x :
  values !! string_bytes name = Some raw -> decode raw = Some x ->
  member values name ≫= decode = Some x.
Proof. intros H1 H2. unfold member. by rewrite H1. Qed.

(** Decode the next member of a record, whose raw text is known. *)
Ltac decode_next name :=
  erewrite (member_decoded _ name); [|eassumption|]; cbn [mbind option_bind].

Lemma constant_decoded s :
  ValidString s = true -> decodeRuntimeNormalizationString (print_string (string_bytes s)) = Some (string_bytes s).
Proof. intros H. by apply print_string_decoded, string_bytes_u8. Qed.

Lemma version_decoded : decodeRuntimeNormalizationNumber parse_int (print_uint 1) = Some 1.
Proof. done. Qed.

Lemma source_kind_back kind : source_kind_of (string_bytes (source_kind_string kind)) = Some kind.
Proof. by destruct kind. Qed.

Lemma table_back table : table <> NoTable -> table_named (string_bytes (table_string table)) = Some table.
Proof. by destruct table. Qed.

Lemma fields_decoded limits values f :
  fields_valid limits f ->
  (forall k v, (k, v) ∈ field_members f -> values !! k = Some v) ->
  decodeNormalizationFields limits values = Ok f.
Proof.
  intros Hf Hm.
  assert (Hmem : Forall (fun m => values !! m.1 = Some m.2) (field_members f)).
  { apply Forall_forall. intros [k v] H. by apply Hm. }
  destruct f as [version kind evidence notation address base function table offset words].
  destruct Hf as [Fv Fe Fn Fb Fa Ft Fw Fo]. cbn in Fv, Fe, Fn, Fb, Fa, Ft, Fw, Fo. subst version.
  unfold u32, MaxReadRegisters in *. unfold field_members in Hmem.
  repeat (apply Forall_cons in Hmem as [? Hmem]). cbn [fst snd nf_SchemaVersion nf_SourceKind nf_SourceEvidenceID
    nf_DocumentaryNotation nf_DocumentaryAddressBase nf_DocumentaryAddress nf_FunctionCode
    nf_LogicalTable nf_WordCount nf_NormalizedZeroBasedPDUOffset] in *.
  assert (Ht : 0 <= function <= 4 /\ table <> NoTable /\ function_table function table = true)
    by (by destruct Ft as [[-> ->]|[-> ->]]).
  destruct Ht as (Hfn & Htab & Hft).
  unfold decodeNormalizationFields.
  replace (forallb _ _) with true
    by (symmetry; unfold runtimeNormalizationRequiredFields, member; cbn [forallb];
        rewrite !bool_decide_true by eauto; done).
  cbn [negb].
  decode_next "schema_version"%string; [|exact version_decoded]. cbn [Z.eqb Pos.eqb negb].
  decode_next "source_kind"%string; [|apply constant_decoded; by destruct kind].
  rewrite source_kind_back. cbn [mbind option_bind].
  decode_next "source_evidence_id"%string; [|by apply text_decoded].
  decode_next "documentary_notation"%string; [|by apply text_decoded].
  decode_next "documentary_address_base"%string; [|by apply text_decoded].
  decode_next "documentary_address"%string; [|apply print_uint_decoded; unfold u64; lia].
  decode_next "function_code"%string; [|apply print_uint_decoded; unfold u64; lia].
  decode_next "logical_table"%string; [|apply constant_decoded; by destruct table].
  rewrite table_back by done. cbn [mbind option_bind].
  decode_next "normalized_zero_based_pdu_offset"%string; [|apply print_uint_decoded; unfold u64; lia].
  decode_next "word_count"%string; [|apply print_uint_decoded; unfold u64; lia].
  rewrite wrap32_id by (unfold u32; lia). change (Z.shiftl 1 16) with 65536.
  rewrite (proj2 (Z.eqb_neq words 0)), !Z.gtb_ltb, !(proj2 (Z.ltb_ge _ _)), Hft by (unfold MaxReadRegisters; lia).
  done.
Qed.

(** * The record of a printed object *)

Lemma text_member key s :
  ValidString key = true -> key <> ""%string -> ValidString s = true ->
  member_ok (string_bytes key, print_string (string_bytes s)).
Proof.
  intros Hk Hne Hs. pose proof (string_bytes_u8 key). pose proof (string_bytes_u8 s).
  constructor; cbn [fst snd]; try done; [by destruct key|by apply print_string_value|by apply print_string_utf8].
Qed.

Lemma number_member key n :
  ValidString key = true -> key <> ""%string -> u64 n -> member_ok (string_bytes key, print_uint n).
Proof.
  intros Hk Hne Hn%print_uint_ok. pose proof (string_bytes_u8 key).
  constructor; cbn [fst snd]; try done; [by destruct key|by eapply printed_value|by eapply printed_utf8].
Qed.

Lemma field_members_required f : Forall (fun m => required m.1 = true) (field_members f).
Proof. by repeat constructor. Qed.

Lemma field_members_ok limits f : fields_valid limits f -> Forall member_ok (field_members f).
Proof.
  intros [Fv [Fe _] [Fn _] [Fb _] Fa Ft Fw Fo]. unfold u32, MaxReadRegisters in *.
  assert (0 <= nf_FunctionCode f <= 4 /\ ValidString (table_string (nf_LogicalTable f)) = true) as [Hf Htab]
    by (destruct Ft as [[-> ->]|[-> ->]]; by vm_compute).
  assert (Hk : ValidString (source_kind_string (nf_SourceKind f)) = true) by (by destruct (nf_SourceKind f)).
  repeat (apply Forall_cons; split); try apply Forall_nil; try done;
    (by apply text_member) || (apply number_member; [done|done|unfold u64; lia]).
Qed.

Lemma field_keys_NoDup f : NoDup (field_members f).*1.
Proof.
  change (NoDup (string_bytes <$> runtimeNormalizationRequiredFields)).
  apply (bool_decide_unpack _). by vm_compute.
Qed.

Lemma extension_count_required ms : Forall (fun m => required m.1 = true) ms -> extension_count ms = 0.
Proof. induction 1 as [|m ms Hm Hms IH]; cbn; [done|]. by rewrite Hm, IH. Qed.

Lemma extension_count_extensions limits ms : Forall (extension_ok limits) ms -> extension_count ms = zlen ms.
Proof.
  induction 1 as [|m ms Hm Hms IH]; cbn; [done|]. rewrite (eo_extension _ _ Hm), IH. zlen_simpl. lia.
Qed.

Lemma print_members_utf8 first ms : Forall member_ok ms -> utf8_valid (print_members first ms) = true.
Proof.
  intros H. revert first. induction H as [|[key raw] ms [Hk Hb Hu Hv Ht] Hms IH]; intros first; cbn [print_members]; [done|].
  apply utf8_app; [by destruct first|]. apply utf8_app; [by apply print_string_utf8|].
  cbn [fst snd] in *. change (58 :: raw ++ print_members false ms) with ([58] ++ raw ++ print_members false ms).
  apply utf8_app; [done|]. by apply utf8_app.
Qed.

Lemma print_object_utf8 ms : Forall member_ok ms -> utf8_valid (print_object ms) = true.
Proof.
  intros H. unfold print_object. change (123 :: print_members true ms ++ [125]) with ([123] ++ print_members true ms ++ [125]).
  apply utf8_app; [done|]. apply utf8_app; [by apply print_members_utf8|done].
Qed.

Lemma print_members_length first ms : (length ms <= length (print_members first ms))%nat.
Proof.
  revert first. induction ms as [|[key raw] ms IH]; intros first; cbn [print_members length]; [done|].
  rewrite !length_app. cbn [length]. rewrite length_app. specialize (IH false). lia.
Qed.

(** The members of a record and its extensions, in any order. *)
Lemma printed_acceptable limits f extensions ms :
  fields_valid limits f -> Forall (extension_ok limits) extensions -> NoDup extensions.*1 ->
  ms ≡ₚ field_members f ++ extensions ->
  Forall (accepted limits) ms /\ NoDup ms.*1 /\ extension_count ms = zlen extensions.
Proof.
  intros Hf He Hd Hp. pose proof (field_members_required f) as Hreq. conj.
  - rewrite Hp. apply Forall_app. split.
    + apply Forall_forall. intros m Hm. split; [by eapply Forall_forall in Hm; [|by eapply field_members_ok]|].
      intros Hn. eapply Forall_forall in Hreq; [|exact Hm]. cbn in Hreq. congruence.
    + eapply Forall_impl; [exact He|]. intros m Hm. split; [apply Hm|done].
  - rewrite Hp, fmap_app. apply NoDup_app. conj; [apply field_keys_NoDup| |done].
    intros k (m & -> & Hm)%list_elem_of_fmap (m' & E & Hm')%list_elem_of_fmap.
    eapply Forall_forall in Hreq; [|exact Hm]. eapply Forall_forall in He; [|exact Hm'].
    cbn in Hreq. pose proof (eo_extension _ _ He). congruence.
  - rewrite Hp, extension_count_app, (extension_count_required (field_members f)) by done.
    by rewrite (extension_count_extensions limits).
Qed.

(** C40: Every valid record is read back: an object printed from the fields and from any
    extensions within the limits, with its members in any order, is admitted, with
    exactly those fields and those bytes. *)
Theorem normalization_roundtrip w w' a s f extensions ms :
  rw_sources w !! a = Some s -> retired w a = false -> retired w' a = false ->
  fields_valid (sc_limits s) f ->
  Forall (extension_ok (sc_limits s)) extensions -> NoDup extensions.*1 ->
  zlen extensions <= al_NormalizationExtensionCountMax (sc_limits s) ->
  ms ≡ₚ field_members f ++ extensions ->
  zlen (print_object ms) <= al_NormalizationRecordMaxEncodedBytes (sc_limits s) ->
  ParseNormalizationRecord w w' a (print_object ms)
  = Some (Ok {| nr_owner := a; nr_encoded := print_object ms; nr_fields := f |}).
Proof.
  intros Hs Hr Hr' Hf He Hd Hx Hp Hl. unfold ParseNormalizationRecord. unfold retired in Hr. rewrite Hs in *.
  rewrite Hr. pose proof (printed_acceptable _ _ _ _ Hf He Hd Hp) as (Hacc & Hnd & Hcount).
  assert (Hok : Forall member_ok ms) by (eapply Forall_impl; [exact Hacc|]; by intros m []).
  rewrite (proj2 (Z.eqb_neq _ _)), (Z.gtb_ltb (zlen _)), (proj2 (Z.ltb_ge _ _)), print_object_utf8
    by (done || unfold print_object; zlen_simpl; pose proof (zlen_nonneg (print_members true ms)); lia).
  cbn [negb orb].
  assert (Hobj : decodeNormalizationObject (sc_limits s) (print_object ms)
    = Some (Ok (list_to_map ms, zlen extensions))).
  { unfold decodeNormalizationObject, print_object. cbn [skip_space is_space Z.eqb Pos.eqb orb].
    rewrite (decode_printed_members _ (sc_limits s) true ∅ 0 ms); try done; try lia.
    - by rewrite (right_id_L ∅ (∪)), Hcount.
    - rewrite length_app. pose proof (print_members_length true ms). cbn. lia.
    - by apply Forall_forall. }
  rewrite Hobj.
  replace (Z.of_nat (size (list_to_map ms : members))) with (zlen runtimeNormalizationRequiredFields + zlen extensions).
  - rewrite Z.eqb_refl, Z.gtb_ltb, (proj2 (Z.ltb_ge _ _)) by lia. cbn [negb orb].
    rewrite (fields_decoded (sc_limits s) _ f).
    + unfold retired in Hr'. by rewrite Hr'.
    + done.
    + intros k v Hin. apply elem_of_list_to_map_1; [done|]. rewrite Hp. apply elem_of_app. by left.
  - rewrite map_size_list_to_map by done. rewrite (Permutation_length Hp), length_app. unfold zlen. cbn. lia.
Qed.

(** The members in reverse order, and an extension. *)
Definition demo_extension : list Z * list Z := (string_bytes "note", print_string (string_bytes "a\b")).

Definition demo_members : list (list Z * list Z) :=
  demo_extension :: rev (field_members (nr_fields demo_record)).

Definition demo_parsed : RuntimeNormalizationRecord :=
  {| nr_owner := 1; nr_encoded := print_object demo_members; nr_fields := nr_fields demo_record |}.

Lemma demo_members_u8 : Forall u8 (print_object demo_members).
Proof.
  assert (H : forallb (fun c => (0 <=? c) && (c <? 256)) (print_object demo_members) = true) by (by vm_compute).
  apply Forall_forall. intros c Hc%list_elem_of_In. apply (proj1 (forallb_forall _ _) H) in Hc.
  bool_hyps. unfold u8. lia.
Qed.

Lemma normalization_admits_valid_witness :
  ParseNormalizationRecord demo_issued demo_issued 1 (print_object demo_members) = Some (Ok demo_parsed) /\
  fields_valid demo_limits (nr_fields demo_record) /\
  ParseNormalizationRecord demo_issued demo_issued 1 (string_bytes "{}") = Some (Err ErrRuntimeNormalization).
Proof.
  assert (E : ParseNormalizationRecord demo_issued demo_issued 1 (print_object demo_members)
    = Some (Ok demo_parsed)) by (by vm_compute).
  split; [exact E|]. split; [|by vm_compute].
  destruct (normalization_admits_valid demo_issued demo_issued 1 demo_source (print_object demo_members)
    demo_source_at demo_members_u8) as (r & Er & H).
  rewrite E in Er. injection Er as <-. exact (proj1 (proj2 (proj2 H))).
Defined.

Lemma demo_fields_valid : fields_valid demo_limits (nr_fields demo_record).
Proof.
  constructor; try (by vm_compute); try (unfold text_within; split; by vm_compute).
  - left. by split.
Qed.

Lemma demo_extension_ok : extension_ok demo_limits demo_extension.
Proof.
  constructor; [|by vm_compute..]. constructor; [done|apply string_bytes_u8|by vm_compute| |by vm_compute].
  split; by vm_compute.
Qed.

Lemma normalization_roundtrip_witness :
  ParseNormalizationRecord demo_issued demo_issued 1 (print_object demo_members) = Some (Ok demo_parsed).
Proof.
  apply (normalization_roundtrip demo_issued demo_issued 1 demo_source (nr_fields demo_record)
    [demo_extension] demo_members).
  - exact demo_source_at.
  - by vm_compute.
  - by vm_compute.
  - exact demo_fields_valid.
  - constructor; [exact demo_extension_ok|constructor].
  - apply (bool_decide_unpack _). by vm_compute.
  - by vm_compute.
  - unfold demo_members. rewrite <- (Permutation_rev (field_members _)). apply Permutation_cons_append.
  - by vm_compute.
Defined.
