(* ===== verification/Scheduler.v ===== *)
(** The endpoint scheduler and the reconnect backoff (tcp_scheduler.go): bounded
    admission with capacity protected for every key, round-robin service over
    authorization scopes and units, retries, expiry, and the queueing of
    coalesced reads.

    A [*scheduledEntry] is shared by the [entries] map and by at most one queue,
    and no field of it changes while it is queued; here the queue holds its
    value, and pointer comparison is comparison of request identifiers, which
    are unique among live entries.  A [*CoalescedRead] is its address.  The
    calls of [FailTransport] on groups, which the code makes after releasing its
    lock, are results: the operations return the groups to fail. *)

From S2P Require Import Prelude Pdu DeviceId DeviceIdTolerant TcpAdu TcpOwner Coalescing.

(** * Data *)

Record SchedulerLimits : Type := mkSchedulerLimits {
  sl_MaxActiveAdmissionKeys : Z;
  sl_ProtectedSlotsPerKey : Z;
  sl_SharedBurstSlots : Z;
  sl_TotalQueued : Z;
  sl_MaxQueuedPerKey : Z;
  sl_MaxQueuedPerAuthorizationScope : Z;
  sl_MaxCoalescedDependentsPerKey : Z;
  sl_MaxRetryAttempts : Z;
  sl_MaxInFlightRequests : Z
}.

Record AdmissionKey : Type := mkAdmissionKey {
  ak_AuthorizationScope : string;
  ak_UnitID : Z
}.

#[export] Instance AdmissionKey_eq_dec : EqDecision AdmissionKey.
Proof. solve_decision. Defined.
#[export] Instance AdmissionKey_countable : Countable AdmissionKey.
Proof.
  refine (inj_countable' (fun k => (ak_AuthorizationScope k, ak_UnitID k))
                         (fun p => mkAdmissionKey p.1 p.2) _).
  by intros [].
Defined.

Record ScheduledRequest : Type := mkScheduledRequest {
  sr_RequestID : Z;
  sr_Key : AdmissionKey;
  sr_DeadlineOffset : Z
}.

Inductive scheduledState : Type :=
| scheduledQueued
| scheduledInFlight.

#[export] Instance scheduledState_eq_dec : EqDecision scheduledState.
Proof. solve_decision. Defined.

Record scheduledEntry : Type := mkScheduledEntry {
  se_request : ScheduledRequest;
  se_sequence : Z;
  se_state : scheduledState;
  se_retries : Z;
  se_admissionWeight : Z;
  se_coalesced : option Z
}.

Record admissionState : Type := mkAdmissionState {
  as_queue : list scheduledEntry;
  as_queued : Z;
  as_inFlight : Z;
  as_dependents : Z
}.

Record EndpointScheduler : Type := mkEndpointScheduler {
  es_limits : SchedulerLimits;
  es_nextSequence : Z;
  es_entries : gmap Z scheduledEntry;
  es_coalesced : gmap Z Z;
  es_keys : gmap AdmissionKey admissionState;
  es_scopeOrder : list string;
  es_unitOrder : gmap string (list Z);
  es_scopeCursor : Z;
  es_unitCursor : gmap string Z;
  es_inFlight : Z
}.

Definition no_admissions : admissionState :=
  {| as_queue := []; as_queued := 0; as_inFlight := 0; as_dependents := 0 |}.

(** Field assignments. *)
Definition set_sequence (s : EndpointScheduler) (n : Z) : EndpointScheduler :=
  {| es_limits := es_limits s; es_nextSequence := n; es_entries := es_entries s;
     es_coalesced := es_coalesced s; es_keys := es_keys s; es_scopeOrder := es_scopeOrder s;
     es_unitOrder := es_unitOrder s; es_scopeCursor := es_scopeCursor s;
     es_unitCursor := es_unitCursor s; es_inFlight := es_inFlight s |}.

Definition set_entries (s : EndpointScheduler) (m : gmap Z scheduledEntry) : EndpointScheduler :=
  {| es_limits := es_limits s; es_nextSequence := es_nextSequence s; es_entries := m;
     es_coalesced := es_coalesced s; es_keys := es_keys s; es_scopeOrder := es_scopeOrder s;
     es_unitOrder := es_unitOrder s; es_scopeCursor := es_scopeCursor s;
     es_unitCursor := es_unitCursor s; es_inFlight := es_inFlight s |}.

Definition set_coalesced (s : EndpointScheduler) (m : gmap Z Z) : EndpointScheduler :=
  {| es_limits := es_limits s; es_nextSequence := es_nextSequence s;
     es_entries := es_entries s; es_coalesced := m; es_keys := es_keys s;
     es_scopeOrder := es_scopeOrder s; es_unitOrder := es_unitOrder s;
     es_scopeCursor := es_scopeCursor s; es_unitCursor := es_unitCursor s;
     es_inFlight := es_inFlight s |}.

Definition set_keys (s : EndpointScheduler) (m : gmap AdmissionKey admissionState)
    : EndpointScheduler :=
  {| es_limits := es_limits s; es_nextSequence := es_nextSequence s;
     es_entries := es_entries s; es_coalesced := es_coalesced s; es_keys := m;
     es_scopeOrder := es_scopeOrder s; es_unitOrder := es_unitOrder s;
     es_scopeCursor := es_scopeCursor s; es_unitCursor := es_unitCursor s;
     es_inFlight := es_inFlight s |}.

Definition set_scopes (s : EndpointScheduler) (order : list string) (cursor : Z)
    : EndpointScheduler :=
  {| es_limits := es_limits s; es_nextSequence := es_nextSequence s;
     es_entries := es_entries s; es_coalesced := es_coalesced s; es_keys := es_keys s;
     es_scopeOrder := order; es_unitOrder := es_unitOrder s; es_scopeCursor := cursor;
     es_unitCursor := es_unitCursor s; es_inFlight := es_inFlight s |}.

Definition set_units (s : EndpointScheduler) (order : gmap string (list Z))
    (cursor : gmap string Z) : EndpointScheduler :=
  {| es_limits := es_limits s; es_nextSequence := es_nextSequence s;
     es_entries := es_entries s; es_coalesced := es_coalesced s; es_keys := es_keys s;
     es_scopeOrder := es_scopeOrder s; es_unitOrder := order;
     es_scopeCursor := es_scopeCursor s; es_unitCursor := cursor;
     es_inFlight := es_inFlight s |}.

Definition set_in_flight (s : EndpointScheduler) (n : Z) : EndpointScheduler :=
  {| es_limits := es_limits s; es_nextSequence := es_nextSequence s;
     es_entries := es_entries s; es_coalesced := es_coalesced s; es_keys := es_keys s;
     es_scopeOrder := es_scopeOrder s; es_unitOrder := es_unitOrder s;
     es_scopeCursor := es_scopeCursor s; es_unitCursor := es_unitCursor s;
     es_inFlight := n |}.

Definition set_key (s : EndpointScheduler) (key : AdmissionKey) (st : admissionState)
    : EndpointScheduler :=
  set_keys s (<[key := st]> (es_keys s)).

Definition with_entry_state (e : scheduledEntry) (state : scheduledState) : scheduledEntry :=
  {| se_request := se_request e; se_sequence := se_sequence e; se_state := state;
     se_retries := se_retries e; se_admissionWeight := se_admissionWeight e;
     se_coalesced := se_coalesced e |}.

Definition entry_id (e : scheduledEntry) : Z := sr_RequestID (se_request e).
Definition entry_key (e : scheduledEntry) : AdmissionKey := sr_Key (se_request e).

(** * Limits *)

Definition scheduler_request_error (field : string) : ProtocolError :=
  protocolError ErrorInvalidRequest 0 0 field (-1).

Definition invalidSchedulerLimits : ProtocolError :=
  scheduler_request_error "scheduler_limits".

Definition schedulerAdmissionError (field : string) : ProtocolError :=
  protocolError ErrorInvalidRange 0 0 field (-1).

Definition validateSchedulerLimits (limits : SchedulerLimits) : option ProtocolError :=
  if (sl_MaxActiveAdmissionKeys limits <=? 0) || (sl_ProtectedSlotsPerKey limits <=? 0)
     || (sl_SharedBurstSlots limits <=? 0) || (sl_TotalQueued limits <=? 0)
     || (sl_MaxQueuedPerKey limits <=? 0) || (sl_MaxQueuedPerAuthorizationScope limits <=? 0)
     || (sl_MaxCoalescedDependentsPerKey limits <=? 0) || (sl_MaxRetryAttempts limits <=? 0)
     || (sl_MaxInFlightRequests limits <=? 0) then
    Some invalidSchedulerLimits
  else if sl_MaxActiveAdmissionKeys limits >? MaxInt / sl_ProtectedSlotsPerKey limits then
    Some invalidSchedulerLimits
  else
    let protected := sl_MaxActiveAdmissionKeys limits * sl_ProtectedSlotsPerKey limits in
    if protected >? MaxInt - sl_SharedBurstSlots limits then
      Some invalidSchedulerLimits
    else
      let required := protected + sl_SharedBurstSlots limits in
      if (sl_TotalQueued limits <? required)
         || (sl_MaxQueuedPerKey limits <? sl_ProtectedSlotsPerKey limits)
         || (sl_MaxQueuedPerKey limits >? sl_TotalQueued limits)
         || (sl_MaxQueuedPerAuthorizationScope limits <? protected)
         || (sl_MaxQueuedPerAuthorizationScope limits >? sl_TotalQueued limits)
         || (sl_MaxCoalescedDependentsPerKey limits <? sl_ProtectedSlotsPerKey limits)
         || (sl_MaxCoalescedDependentsPerKey limits >? maxCoalescedDependents)
         || (sl_MaxCoalescedDependentsPerKey limits >? sl_TotalQueued limits) then
        Some invalidSchedulerLimits
      else None.

Definition newEndpointScheduler (limits : SchedulerLimits) : presult EndpointScheduler :=
  match validateSchedulerLimits limits with
  | Some err => Err err
  | None =>
      Ok {| es_limits := limits; es_nextSequence := 0; es_entries := ∅; es_coalesced := ∅;
            es_keys := ∅; es_scopeOrder := []; es_unitOrder := ∅; es_scopeCursor := 0;
            es_unitCursor := ∅; es_inFlight := 0 |}
  end.

(** * Checked arithmetic *)

Definition checkedAdmissionAdd (first second : Z) : option Z :=
  if (first <? 0) || (second <? 0) || (first >? MaxInt - second) then None
  else Some (first + second).

Definition checkedAdmissionRemaining (limit used : Z) : option Z :=
  if (limit <? 0) || (used <? 0) || (used >? limit) then None
  else Some (limit - used).

(** * Admission *)

Definition validScheduledRequest (request : ScheduledRequest) : bool :=
  negb (sr_RequestID request =? 0)
  && negb (String.eqb (ak_AuthorizationScope (sr_Key request)) "")
  && (ak_UnitID (sr_Key request) <=? 247)
  && (sr_DeadlineOffset request >? 0).

(** [len(scheduler.keys)]. *)
Definition key_count (s : EndpointScheduler) : Z := Z.of_nat (size (es_keys s)).

(** One round of the loop that sums the occupation of every key, and of the
    keys of [scope]; [None] is an accounting error. *)
Definition occupation_step (scope : string) (acc : option (Z * Z))
    (entry : AdmissionKey * admissionState) : option (Z * Z) :=
  '(totalQueued, scopeQueued) ← acc;
  occupied ← checkedAdmissionAdd (as_queued entry.2) (as_dependents entry.2);
  total ← checkedAdmissionAdd totalQueued occupied;
  if String.eqb (ak_AuthorizationScope entry.1) scope then
    scoped ← checkedAdmissionAdd scopeQueued occupied;
    Some (total, scoped)
  else Some (total, scopeQueued).

(** One round of the loop that adds the unused protected slots of the other keys. *)
Definition reserved_step (key : AdmissionKey) (protected : Z) (acc : option Z)
    (entry : AdmissionKey * admissionState) : option Z :=
  reservedCapacity ← acc;
  if bool_decide (entry.1 = key) then Some reservedCapacity
  else
    occupied ← checkedAdmissionAdd (as_queued entry.2) (as_dependents entry.2);
    if occupied <? protected then
      checkedAdmissionAdd reservedCapacity (protected - occupied)
    else Some reservedCapacity.

Definition checkAdmissionCount (s : EndpointScheduler) (key : AdmissionKey) (active : bool)
    (count : Z) : option ProtocolError :=
  let limits := es_limits s in
  if count <=? 0 then Some (schedulerAdmissionError "queued_capacity")
  else
    let activeCount := key_count s in
    if negb active && (activeCount >=? sl_MaxActiveAdmissionKeys limits) then
      Some (schedulerAdmissionError "active_admission_keys")
    else
      match
        (match es_keys s !! key with
         | Some st => checkedAdmissionAdd (as_queued st) (as_dependents st)
         | None => Some 0
         end ≫= checkedAdmissionRemaining (sl_MaxQueuedPerKey limits))
      with
      | None => Some (schedulerAdmissionError "admission_accounting")
      | Some keyRemaining =>
          if count >? keyRemaining then Some (schedulerAdmissionError "queued_per_key")
          else
            match foldl (occupation_step (ak_AuthorizationScope key)) (Some (0, 0))
                        (map_to_list (es_keys s)) with
            | None => Some (schedulerAdmissionError "admission_accounting")
            | Some (totalQueued, scopeQueued) =>
                match checkedAdmissionRemaining (sl_TotalQueued limits) totalQueued,
                      checkedAdmissionRemaining (sl_MaxQueuedPerAuthorizationScope limits)
                        scopeQueued with
                | Some totalRemaining, Some scopeRemaining =>
                    if (count >? totalRemaining) || (count >? scopeRemaining) then
                      Some (schedulerAdmissionError "queued_capacity")
                    else
                      let resultingActive := if active then activeCount else activeCount + 1 in
                      if resultingActive >? sl_MaxActiveAdmissionKeys limits then
                        Some (schedulerAdmissionError "active_admission_keys")
                      else
                        let inactivePositions :=
                          sl_MaxActiveAdmissionKeys limits - resultingActive in
                        match
                          (foldl (reserved_step key (sl_ProtectedSlotsPerKey limits))
                             (Some (inactivePositions * sl_ProtectedSlotsPerKey limits))
                             (map_to_list (es_keys s))
                           ≫= checkedAdmissionRemaining (sl_TotalQueued limits))
                        with
                        | None => Some (schedulerAdmissionError "admission_accounting")
                        | Some usableNow =>
                            match checkedAdmissionRemaining usableNow totalQueued with
                            | None => Some (schedulerAdmissionError "protected_capacity")
                            | Some usableRemaining =>
                                if count >? usableRemaining then
                                  Some (schedulerAdmissionError "protected_capacity")
                                else None
                            end
                        end
                | _, _ => Some (schedulerAdmissionError "admission_accounting")
                end
            end
      end.

Definition rememberOrder (s : EndpointScheduler) (key : AdmissionKey) : EndpointScheduler :=
  let scope := ak_AuthorizationScope key in
  let s :=
    if bool_decide (scope ∈ es_scopeOrder s) then s
    else set_scopes s (es_scopeOrder s ++ [scope]) (es_scopeCursor s) in
  let units := default [] (es_unitOrder s !! scope) in
  if bool_decide (ak_UnitID key ∈ units) then s
  else set_units s (<[scope := units ++ [ak_UnitID key]]> (es_unitOrder s)) (es_unitCursor s).

(** * Release of a key *)

Definition cursorAfterRemoval (cursor removedIndex oldLength : Z) : Z :=
  if oldLength <=? 1 then 0
  else
    let cursor := if cursor >? removedIndex then cursor - 1 else cursor in
    let newLength := oldLength - 1 in
    if cursor >=? newLength then 0 else cursor.

(** The index of the first element equal to [x]: the searches of [forgetOrder]. *)
Definition index_of {A} `{EqDecision A} (x : A) (l : list A) : option nat :=
  fst <$> list_find (fun y => y = x) l.

(** [append(l[:i], l[i+1:]...)]. *)
Definition remove_at {A} (i : nat) (l : list A) : list A := take i l ++ drop (S i) l.

Definition forgetOrder (s : EndpointScheduler) (key : AdmissionKey) : EndpointScheduler :=
  let scope := ak_AuthorizationScope key in
  let units := default [] (es_unitOrder s !! scope) in
  match index_of (ak_UnitID key) units with
  | None => s
  | Some unitIndex =>
      let units := remove_at unitIndex units in
      if zlen units >? 0 then
        set_units s (<[scope := units]> (es_unitOrder s))
          (<[scope := cursorAfterRemoval (default 0 (es_unitCursor s !! scope))
                        (Z.of_nat unitIndex) (zlen units + 1)]> (es_unitCursor s))
      else
        let s := set_units s (delete scope (es_unitOrder s)) (delete scope (es_unitCursor s)) in
        match index_of scope (es_scopeOrder s) with
        | None => s
        | Some scopeIndex =>
            set_scopes s (remove_at scopeIndex (es_scopeOrder s))
              (cursorAfterRemoval (es_scopeCursor s) (Z.of_nat scopeIndex)
                 (zlen (es_scopeOrder s)))
        end
  end.

Definition key_is_empty (st : admissionState) : bool :=
  (zlen (as_queue st) =? 0) && (as_inFlight st =? 0) && (as_dependents st =? 0).

Definition releaseIfEmpty (s : EndpointScheduler) (key : AdmissionKey) : EndpointScheduler :=
  match es_keys s !! key with
  | Some st =>
      if key_is_empty st then forgetOrder (set_keys s (delete key (es_keys s))) key else s
  | None => s
  end.

Definition forgetEntryLocked (s : EndpointScheduler) (e : scheduledEntry) : EndpointScheduler :=
  let s := set_entries s (delete (entry_id e) (es_entries s)) in
  match se_coalesced e with
  | Some group => set_coalesced s (delete group (es_coalesced s))
  | None => s
  end.

(** [false] leaves everything unchanged; otherwise the state of [key] and the
    total are both one lower. *)
Definition releaseInFlightLocked (s : EndpointScheduler) (key : AdmissionKey)
    : EndpointScheduler * bool :=
  match es_keys s !! key with
  | None => (s, false)
  | Some st =>
      match checkedAdmissionRemaining (as_inFlight st) 1,
            checkedAdmissionRemaining (es_inFlight s) 1 with
      | Some keyInFlight, Some inFlight =>
          (set_in_flight
             (set_key s key {| as_queue := as_queue st; as_queued := as_queued st;
                               as_inFlight := keyInFlight; as_dependents := as_dependents st |})
             inFlight, true)
      | _, _ => (s, false)
      end
  end.

(** * Enqueueing *)

Definition enqueueLocked (s : EndpointScheduler) (request : ScheduledRequest)
    (group : option Z) (admissionWeight : Z) : EndpointScheduler * option ProtocolError :=
  let key := sr_Key request in
  match es_entries s !! sr_RequestID request with
  | Some _ => (s, Some (scheduler_request_error "request_id"))
  | None =>
      let active := bool_decide (is_Some (es_keys s !! key)) in
      match
        (if admissionWeight >? 0 then checkAdmissionCount s key active admissionWeight
         else None)
      with
      | Some err => (s, Some err)
      | None =>
          let keyState := default no_admissions (es_keys s !! key) in
          let s := if active then s else rememberOrder (set_key s key keyState) key in
          let s := set_sequence s (wrap64 (es_nextSequence s + 1)) in
          let entry :=
            {| se_request := request; se_sequence := es_nextSequence s;
               se_state := scheduledQueued; se_retries := 0;
               se_admissionWeight := admissionWeight; se_coalesced := group |} in
          match checkedAdmissionAdd (as_queued keyState) admissionWeight with
          | None =>
              (releaseIfEmpty s key, Some (schedulerAdmissionError "admission_accounting"))
          | Some queued =>
              let s := set_key s key
                {| as_queue := as_queue keyState ++ [entry]; as_queued := queued;
                   as_inFlight := as_inFlight keyState;
                   as_dependents := as_dependents keyState |} in
              let s := set_entries s (<[sr_RequestID request := entry]> (es_entries s)) in
              (match group with
               | Some g => set_coalesced s (<[g := sr_RequestID request]> (es_coalesced s))
               | None => s
               end, None)
          end
      end
  end.

Definition Enqueue (s : EndpointScheduler) (request : ScheduledRequest)
    : EndpointScheduler * option ProtocolError :=
  if negb (validScheduledRequest request) then
    (s, Some (scheduler_request_error "scheduled_request"))
  else enqueueLocked s request None 1.

Definition validateCoalescedRequest (request : ScheduledRequest)
    (intents : list ReadIntentSpec) : option ProtocolError :=
  if negb (validScheduledRequest request) then
    Some (scheduler_request_error "scheduled_coalesced_request")
  else
    match intents with
    | [] => Some (scheduler_request_error "scheduled_coalesced_request")
    | spec :: _ =>
        if negb (String.eqb (ak_AuthorizationScope (sr_Key request))
                            (is_AuthorizationScope spec))
           || negb (ak_UnitID (sr_Key request) =? is_UnitID spec) then
          Some (protocolError ErrorInvalidRequest (rr_function (is_Request spec)) 0
                  "scheduled_coalesced_identity" (-1))
        else None
    end.

Definition with_dependents (st : admissionState) (dependents : Z) : admissionState :=
  {| as_queue := as_queue st; as_queued := as_queued st; as_inFlight := as_inFlight st;
     as_dependents := dependents |}.

(** Without an error the group is bound to this scheduler and to the key of the
    request; with one it is bound to none. *)
Definition scheduleCoalescedLocked (s : EndpointScheduler) (request : ScheduledRequest)
    (intents : list ReadIntentSpec) (group : Z) : EndpointScheduler * option ProtocolError :=
  let key := sr_Key request in
  let count := zlen intents in
  match es_entries s !! sr_RequestID request with
  | Some _ => (s, Some (scheduler_request_error "request_id"))
  | None =>
      let active := bool_decide (is_Some (es_keys s !! key)) in
      match checkAdmissionCount s key active count with
      | Some err => (s, Some err)
      | None =>
          let state := default no_admissions (es_keys s !! key) in
          let s := if active then s else rememberOrder (set_key s key state) key in
          match checkedAdmissionRemaining
                  (sl_MaxCoalescedDependentsPerKey (es_limits s)) (as_dependents state) with
          | None =>
              (releaseIfEmpty s key, Some (schedulerAdmissionError "admission_accounting"))
          | Some dependentRemaining =>
              if count >? dependentRemaining then
                (releaseIfEmpty s key, Some (schedulerAdmissionError "coalesced_dependents"))
              else
                match checkedAdmissionAdd (as_dependents state) count with
                | None =>
                    (releaseIfEmpty s key,
                     Some (schedulerAdmissionError "admission_accounting"))
                | Some dependents =>
                    let s := set_key s key (with_dependents state dependents) in
                    match enqueueLocked s request (Some group) 0 with
                    | (s, Some err) =>
                        let s :=
                          match es_keys s !! key with
                          | Some st => set_key s key (with_dependents st (as_dependents state))
                          | None => s
                          end in
                        (releaseIfEmpty s key, Some err)
                    | (s, None) => (s, None)
                    end
                end
          end
      end
  end.

(** [address] is where the new group is allocated. *)
Definition ScheduleCoalesced (s : EndpointScheduler) (request : ScheduledRequest)
    (intents : list ReadIntentSpec) (address : Z)
    : EndpointScheduler * presult CoalescedRead :=
  match validateCoalescedRequest request intents with
  | Some err => (s, Err err)
  | None =>
      match coalesceReads intents (sl_MaxCoalescedDependentsPerKey (es_limits s)) with
      | Err err => (s, Err err)
      | Ok group =>
          match scheduleCoalescedLocked s request intents address with
          | (s, Some err) => (s, Err err)
          | (s, None) => (s, Ok group)
          end
      end
  end.

Definition CoalescedGroup (s : EndpointScheduler) (requestID : Z) : option Z :=
  if requestID =? 0 then None
  else es_entries s !! requestID ≫= se_coalesced.

Definition RequireCoalescedDispatch (s : EndpointScheduler) (group : Z)
    : option ProtocolError :=
  match es_coalesced s !! group with
  | None => Some (scheduler_request_error "coalesced_dispatch")
  | Some requestID =>
      match es_entries s !! requestID with
      | Some entry =>
          if bool_decide (se_state entry = scheduledInFlight) then None
          else Some (scheduler_request_error "coalesced_dispatch_state")
      | None => Some (scheduler_request_error "coalesced_dispatch_state")
      end
  end.

Definition releaseCoalescedDependents (s : EndpointScheduler) (key : AdmissionKey) (count : Z)
    : EndpointScheduler :=
  match es_keys s !! key with
  | None => s
  | Some state =>
      if (count <=? 0) || (count >? as_dependents state) then s
      else
        match checkedAdmissionRemaining (as_dependents state) count with
        | None => s
        | Some dependents =>
            releaseIfEmpty (set_key s key (with_dependents state dependents)) key
        end
  end.

(** * Dispatch *)

(** The loop over one queue: what remains of the scheduler's maps, the kept
    entries, the remaining weight, the expired groups and whether the
    accounting held. *)
Fixpoint expire_queue (nowOffset : Z) (s : EndpointScheduler) (queued : Z)
    (queue : list scheduledEntry)
    : EndpointScheduler * list scheduledEntry * Z * list Z * bool :=
  match queue with
  | [] => (s, [], queued, [], true)
  | entry :: rest =>
      if sr_DeadlineOffset (se_request entry) <=? nowOffset then
        match checkedAdmissionRemaining queued (se_admissionWeight entry) with
        | None =>
            let '(s, kept, queued, expired, _) := expire_queue nowOffset s queued rest in
            (s, entry :: kept, queued, expired, false)
        | Some remaining =>
            let '(s, kept, queued, expired, ok) :=
              expire_queue nowOffset (forgetEntryLocked s entry) remaining rest in
            (s, kept, queued,
             match se_coalesced entry with Some g => g :: expired | None => expired end, ok)
        end
      else
        let '(s, kept, queued, expired, ok) := expire_queue nowOffset s queued rest in
        (s, entry :: kept, queued, expired, ok)
  end.

(** The loop over the keys, in the order [order] the map iteration yields. *)
Fixpoint expireLocked (nowOffset : Z) (s : EndpointScheduler) (order : list AdmissionKey)
    : EndpointScheduler * list Z * bool :=
  match order with
  | [] => (s, [], true)
  | key :: rest =>
      match es_keys s !! key with
      | None => expireLocked nowOffset s rest
      | Some state =>
          let '(s, kept, queued, expired, ok) :=
            expire_queue nowOffset s (as_queued state) (as_queue state) in
          let s := set_key s key
            {| as_queue := kept; as_queued := queued; as_inFlight := as_inFlight state;
               as_dependents := as_dependents state |} in
          let '(s, expired', ok') := expireLocked nowOffset (releaseIfEmpty s key) rest in
          (s, expired ++ expired', ok && ok')
      end
  end.

(** The first element satisfying [p], searched cyclically from [cursor], with
    its index: the loops of [nextScope] and [nextUnit]. *)
Fixpoint first_from_loop {A} (p : A -> bool) (l : list A) (cursor : Z)
    (remaining : nat) (checked : Z) : option (Z * A) :=
  match remaining with
  | O => None
  | S remaining =>
      let index := (cursor + checked) mod zlen l in
      match l !! Z.to_nat index with
      | Some x =>
          if p x then Some (index, x)
          else first_from_loop p l cursor remaining (checked + 1)
      | None => None
      end
  end.

Definition first_from {A} (p : A -> bool) (l : list A) (cursor : Z) : option (Z * A) :=
  first_from_loop p l cursor (length l) 0.

Definition key_has_queued (s : EndpointScheduler) (key : AdmissionKey) : bool :=
  match es_keys s !! key with
  | Some state => zlen (as_queue state) >? 0
  | None => false
  end.

Definition scopeHasQueued (s : EndpointScheduler) (scope : string) : bool :=
  existsb (fun unitID => key_has_queued s (mkAdmissionKey scope unitID))
          (default [] (es_unitOrder s !! scope)).

Definition nextScope (s : EndpointScheduler) : EndpointScheduler * option string :=
  match first_from (scopeHasQueued s) (es_scopeOrder s) (es_scopeCursor s) with
  | None => (s, None)
  | Some (index, scope) =>
      (set_scopes s (es_scopeOrder s) ((index + 1) mod zlen (es_scopeOrder s)), Some scope)
  end.

Definition nextUnit (s : EndpointScheduler) (scope : string)
    : EndpointScheduler * option AdmissionKey :=
  let units := default [] (es_unitOrder s !! scope) in
  match first_from (fun unitID => key_has_queued s (mkAdmissionKey scope unitID)) units
                   (default 0 (es_unitCursor s !! scope)) with
  | None => (s, None)
  | Some (index, unitID) =>
      (set_units s (es_unitOrder s)
         (<[scope := (index + 1) mod zlen units]> (es_unitCursor s)),
       Some (mkAdmissionKey scope unitID))
  end.

(** Dispatching the head of the queue of [key]: the part of [Dispatch] after the
    choice of the key. *)
Definition dispatch_key (s : EndpointScheduler) (key : AdmissionKey)
    : EndpointScheduler * option ScheduledRequest :=
  match es_keys s !! key with
  | Some state =>
      match as_queue state with
      | entry :: queue =>
          match checkedAdmissionRemaining (as_queued state) (se_admissionWeight entry),
                checkedAdmissionAdd (as_inFlight state) 1,
                checkedAdmissionAdd (es_inFlight s) 1 with
          | Some queued, Some keyInFlight, Some inFlight =>
              if inFlight >? sl_MaxInFlightRequests (es_limits s) then (s, None)
              else
                let s := set_key s key
                  {| as_queue := queue; as_queued := queued; as_inFlight := keyInFlight;
                     as_dependents := as_dependents state |} in
                let s := set_in_flight s inFlight in
                (set_entries s (<[entry_id entry := with_entry_state entry scheduledInFlight]>
                                  (es_entries s)),
                 Some (se_request entry))
          | _, _, _ => (s, None)
          end
      | [] => (s, None)
      end
  | None => (s, None)
  end.

(** The dispatched request, if any, and the expired groups, which are failed
    before [Dispatch] returns. *)
Definition Dispatch (s : EndpointScheduler) (nowOffset : Z) (order : list AdmissionKey)
    : EndpointScheduler * (option ScheduledRequest * list Z) :=
  let '(s, expired, accountingOK) := expireLocked nowOffset s order in
  if negb accountingOK then (s, (None, expired))
  else if es_inFlight s >=? sl_MaxInFlightRequests (es_limits s) then (s, (None, expired))
  else
    match nextScope s with
    | (s, None) => (s, (None, expired))
    | (s, Some scope) =>
        match nextUnit s scope with
        | (s, None) => (s, (None, expired))
        | (s, Some key) =>
            let '(s, request) := dispatch_key s key in (s, (request, expired))
        end
    end.

(** * Cancellation, retry and completion *)

(** The queue of [state] without [entry], if it is queued there and the
    accounting allows its removal: the loops of [CancelQueued] and
    [FinishCoalesced].  [None] is an accounting error, [Some None] that the
    entry is not in the queue. *)
Definition unqueue (state : admissionState) (entry : scheduledEntry)
    : option (option admissionState) :=
  match index_of (entry_id entry) (entry_id <$> as_queue state) with
  | None => Some None
  | Some index =>
      remaining ← checkedAdmissionRemaining (as_queued state) (se_admissionWeight entry);
      Some (Some {| as_queue := remove_at index (as_queue state); as_queued := remaining;
                    as_inFlight := as_inFlight state; as_dependents := as_dependents state |})
  end.

(** The end of the life of an entry: [forgetEntryLocked], then [releaseIfEmpty]. *)
Definition retire_entry (s : EndpointScheduler) (entry : scheduledEntry) : EndpointScheduler :=
  releaseIfEmpty (forgetEntryLocked s entry) (entry_key entry).

(** Whether the request was cancelled, and the group to fail. *)
Definition CancelQueued (s : EndpointScheduler) (requestID : Z)
    : EndpointScheduler * (bool * option Z) :=
  match es_entries s !! requestID with
  | Some entry =>
      if negb (bool_decide (se_state entry = scheduledQueued)) then (s, (false, None))
      else
        match es_keys s !! entry_key entry with
        | Some state =>
            match unqueue state entry with
            | Some (Some state') =>
                (retire_entry (set_key s (entry_key entry) state') entry,
                 (true, se_coalesced entry))
            | _ => (s, (false, None))
            end
        | None => (s, (false, None))
        end
  | None => (s, (false, None))
  end.

Definition retried (entry : scheduledEntry) (sequence : Z) : scheduledEntry :=
  {| se_request := se_request entry; se_sequence := sequence; se_state := scheduledQueued;
     se_retries := se_retries entry + 1; se_admissionWeight := se_admissionWeight entry;
     se_coalesced := se_coalesced entry |}.

(** Giving up an in-flight entry with [err]: the two refusals of [Retry]. *)
Definition give_up_retry (s : EndpointScheduler) (entry : scheduledEntry) (err : ProtocolError)
    : EndpointScheduler * (option ProtocolError * option Z) :=
  match releaseInFlightLocked s (entry_key entry) with
  | (s, false) => (s, (Some (schedulerAdmissionError "admission_accounting"), None))
  | (s, true) => (retire_entry s entry, (Some err, se_coalesced entry))
  end.

(** The error, if any, and the group to fail. *)
Definition Retry (s : EndpointScheduler) (requestID : Z)
    : EndpointScheduler * (option ProtocolError * option Z) :=
  match es_entries s !! requestID with
  | None => (s, (Some (scheduler_request_error "request_state"), None))
  | Some entry =>
      let key := entry_key entry in
      if negb (bool_decide (se_state entry = scheduledInFlight)) then
        (s, (Some (scheduler_request_error "request_state"), None))
      else if se_retries entry >=? sl_MaxRetryAttempts (es_limits s) then
        give_up_retry s entry (schedulerAdmissionError "retry_attempts")
      else
        match
          (if se_admissionWeight entry >? 0 then
             checkAdmissionCount s key true (se_admissionWeight entry)
           else None)
        with
        | Some err => give_up_retry s entry err
        | None =>
            match releaseInFlightLocked s key with
            | (s, false) => (s, (Some (schedulerAdmissionError "admission_accounting"), None))
            | (s, true) =>
                let s := set_sequence s (wrap64 (es_nextSequence s + 1)) in
                let entry' := retried entry (es_nextSequence s) in
                let state := default no_admissions (es_keys s !! key) in
                match checkedAdmissionAdd (as_queued state) (se_admissionWeight entry) with
                | None =>
                    (retire_entry s entry,
                     (Some (schedulerAdmissionError "admission_accounting"),
                      se_coalesced entry))
                | Some queued =>
                    let s := set_key s key
                      {| as_queue := as_queue state ++ [entry']; as_queued := queued;
                         as_inFlight := as_inFlight state;
                         as_dependents := as_dependents state |} in
                    (set_entries s (<[requestID := entry']> (es_entries s)), (None, None))
                end
            end
        end
  end.

Definition Complete (s : EndpointScheduler) (requestID : Z)
    : EndpointScheduler * option ProtocolError :=
  match es_entries s !! requestID with
  | None => (s, Some (scheduler_request_error "request_state"))
  | Some entry =>
      if negb (bool_decide (se_state entry = scheduledInFlight)) then
        (s, Some (scheduler_request_error "request_state"))
      else
        match releaseInFlightLocked s (entry_key entry) with
        | (s, false) => (s, Some (schedulerAdmissionError "admission_accounting"))
        | (s, true) => (retire_entry s entry, None)
        end
  end.

Definition coalescedRequestID (s : EndpointScheduler) (group : Z) : option Z :=
  es_coalesced s !! group.

Definition RetryCoalesced (s : EndpointScheduler) (group : Z)
    : EndpointScheduler * (option ProtocolError * option Z) :=
  match coalescedRequestID s group with
  | None => (s, (Some (scheduler_request_error "coalesced_dispatch"), None))
  | Some requestID => Retry s requestID
  end.

Definition CompleteCoalesced (s : EndpointScheduler) (group : Z)
    : EndpointScheduler * option ProtocolError :=
  match coalescedRequestID s group with
  | None => (s, Some (scheduler_request_error "coalesced_dispatch"))
  | Some requestID => Complete s requestID
  end.

Definition CancelCoalesced (s : EndpointScheduler) (group : Z)
    : EndpointScheduler * (bool * option Z) :=
  match coalescedRequestID s group with
  | None => (s, (false, None))
  | Some requestID => CancelQueued s requestID
  end.

Definition FinishCoalesced (s : EndpointScheduler) (group : Z)
    : EndpointScheduler * option ProtocolError :=
  match es_coalesced s !! group with
  | None => (s, None)
  | Some requestID =>
      match es_entries s !! requestID with
      | None => (set_coalesced s (delete group (es_coalesced s)), None)
      | Some entry =>
          let key := entry_key entry in
          match se_state entry with
          | scheduledQueued =>
              match es_keys s !! key with
              | None => (retire_entry s entry, None)
              | Some state =>
                  match unqueue state entry with
                  | None => (s, Some (schedulerAdmissionError "admission_accounting"))
                  | Some (Some state') => (retire_entry (set_key s key state') entry, None)
                  | Some None => (retire_entry s entry, None)
                  end
              end
          | scheduledInFlight =>
              match releaseInFlightLocked s key with
              | (s, false) => (s, Some (schedulerAdmissionError "admission_accounting"))
              | (s, true) => (retire_entry s entry, None)
              end
          end
      end
  end.

Definition attachDependent (s : EndpointScheduler) (key : AdmissionKey)
    : EndpointScheduler * option ProtocolError :=
  match es_keys s !! key with
  | None => (s, Some (scheduler_request_error "admission_key"))
  | Some state =>
      match checkedAdmissionAdd (as_dependents state) 1 with
      | Some dependents =>
          if dependents >? sl_MaxCoalescedDependentsPerKey (es_limits s) then
            (s, Some (schedulerAdmissionError "coalesced_dependents"))
          else (set_key s key (with_dependents state dependents), None)
      | None => (s, Some (schedulerAdmissionError "coalesced_dependents"))
      end
  end.

Definition detachDependent (s : EndpointScheduler) (key : AdmissionKey)
    : EndpointScheduler * option ProtocolError :=
  match es_keys s !! key with
  | None => (s, Some (scheduler_request_error "coalesced_dependents"))
  | Some state =>
      if as_dependents state <=? 0 then
        (s, Some (scheduler_request_error "coalesced_dependents"))
      else
        match checkedAdmissionRemaining (as_dependents state) 1 with
        | Some dependents =>
            (releaseIfEmpty (set_key s key (with_dependents state dependents)) key, None)
        | None => (s, Some (schedulerAdmissionError "admission_accounting"))
        end
  end.

Record endpointSchedulerResourceSnapshot : Type := mkSnapshot {
  sn_queuedRequests : Z;
  sn_inFlightRequests : Z;
  sn_activeAdmissionKeys : Z;
  sn_coalescedDependents : Z
}.

Definition resourceSnapshot (s : EndpointScheduler) : endpointSchedulerResourceSnapshot :=
  {| sn_queuedRequests :=
       foldr (fun p n => zlen (as_queue p.2) + n) 0 (map_to_list (es_keys s));
     sn_inFlightRequests := es_inFlight s;
     sn_activeAdmissionKeys := key_count s;
     sn_coalescedDependents :=
       foldr (fun p n => as_dependents p.2 + n) 0 (map_to_list (es_keys s)) |}.

Definition OrderMetadataSize (s : EndpointScheduler) : Z :=
  zlen (es_scopeOrder s)
  + foldr (fun p n => zlen p.2 + n) 0 (map_to_list (es_unitOrder s)).

(** * Reconnect backoff *)

(** [bc_Jitter] tells whether a jitter source is given; the source itself is
    injected code and an argument of the operations that call it. *)
Record BackoffConfig : Type := mkBackoffConfig {
  bc_Floor : Z;
  bc_Ceiling : Z;
  bc_MaxAttempts : Z;
  bc_Jitter : bool;
  bc_JitterAlgorithmID : string;
  bc_JitterVersion : string;
  bc_JitterEvidence : string
}.

Record ReconnectBackoff : Type := mkReconnectBackoff {
  rb_config : BackoffConfig;
  rb_attempt : Z;
  rb_emitted : list Z
}.

Definition newReconnectBackoff (config : BackoffConfig) : presult ReconnectBackoff :=
  if (bc_Floor config <=? 0) || (bc_Ceiling config <=? 0)
     || (bc_Floor config >? bc_Ceiling config) || (bc_MaxAttempts config <=? 0)
     || negb (bc_Jitter config) || String.eqb (bc_JitterAlgorithmID config) ""
     || String.eqb (bc_JitterVersion config) "" || String.eqb (bc_JitterEvidence config) "" then
    Err (scheduler_request_error "backoff_config")
  else Ok {| rb_config := config; rb_attempt := 0; rb_emitted := [] |}.

(** The doubling loop: [steps] rounds from [base], left early at the ceiling. *)
Fixpoint backoff_base (ceiling base : Z) (steps : nat) : Z :=
  match steps with
  | O => base
  | S steps =>
      if base >=? ceiling / 2 then ceiling else backoff_base ceiling (base * 2) steps
  end.

Definition ValidCorrelatedResponse (b : ReconnectBackoff) : ReconnectBackoff :=
  {| rb_config := rb_config b; rb_attempt := 0; rb_emitted := rb_emitted b |}.

(** [next] is what the jitter source answers to the upper bound it is given; it
    runs without the lock, and [reset] tells whether [ValidCorrelatedResponse]
    is called in the meantime (no other call can change the attempt then). *)
Definition nextDelayBefore (b : ReconnectBackoff) (remaining : Z) (next : Z -> Z)
    (reset : bool) : ReconnectBackoff * presult Z :=
  let config := rb_config b in
  if rb_attempt b >=? bc_MaxAttempts config then
    (b, Err (schedulerAdmissionError "backoff_attempts"))
  else
    let attempt := rb_attempt b in
    let base := backoff_base (bc_Ceiling config) (bc_Floor config) (Z.to_nat attempt) in
    let base := if base >? bc_Ceiling config then bc_Ceiling config else base in
    if (remaining >? 0) && (base >=? remaining) then
      (b, Err (schedulerAdmissionError "operation_deadline"))
    else
      let jitterUpper := bc_Ceiling config - base in
      let jitter := next jitterUpper in
      let b := if reset then ValidCorrelatedResponse b else b in
      let jitter := if jitter <? 0 then 0 else jitter in
      let jitter := if jitter >? jitterUpper then jitterUpper else jitter in
      let delay := base + jitter in
      if (remaining >? 0) && (delay >=? remaining) then
        (b, Err (schedulerAdmissionError "operation_deadline"))
      else if negb (rb_attempt b =? attempt) then
        (b, Err (scheduler_request_error "backoff_attempt"))
      else
        let emitted :=
          if zlen (rb_emitted b) =? bc_MaxAttempts config then drop 1 (rb_emitted b)
          else rb_emitted b in
        ({| rb_config := config; rb_attempt := rb_attempt b + 1;
            rb_emitted := emitted ++ [jitter] |}, Ok delay).

Definition NextDelay (b : ReconnectBackoff) (next : Z -> Z) (reset : bool)
    : ReconnectBackoff * presult Z :=
  nextDelayBefore b 0 next reset.

(** [Ok delay]: the injected waiter is called with [delay]. *)
Definition WaitUntil (b : ReconnectBackoff) (nowOffset deadlineOffset : Z) (next : Z -> Z)
    (reset : bool) : ReconnectBackoff * presult Z :=
  if (nowOffset <? 0) || (deadlineOffset <=? nowOffset) then
    (b, Err (scheduler_request_error "backoff_wait"))
  else
    match NextDelay b next reset with
    | (b, Err err) => (b, Err err)
    | (b, Ok delay) =>
        if delay >? deadlineOffset - nowOffset then
          (b, Err (schedulerAdmissionError "operation_deadline"))
        else (b, Ok delay)
    end.
