(* ===== verification/SchedulerOrder.v ===== *)
(** The round-robin order of the endpoint scheduler: rotations of a list by a
    cursor, the cyclic search, and the invariant that ties the orders of scopes
    and units to the active keys. *)

From S2P Require Import Prelude Pdu DeviceId DeviceIdTolerant TcpAdu TcpOwner Coalescing Scheduler.

(** * Rotations *)

(** The list as a search from the cursor visits it. *)
Definition rotation {A} (cursor : Z) (l : list A) : list A :=
  drop (Z.to_nat cursor) l ++ take (Z.to_nat cursor) l.

(** A cursor into [l]. *)
Definition cursor_ok {A} (cursor : Z) (l : list A) : Prop :=
  0 <= cursor /\ (cursor < zlen l \/ cursor = 0).

Section rotation.
Context {A : Type}.
Implicit Types (l pre post : list A) (x : A) (p : A -> bool).

Lemma rotation_perm c l : rotation c l ≡ₚ l.
Proof. unfold rotation. rewrite Permutation_app_comm. by rewrite take_drop. Qed.

Lemma rotation_app l1 l2 : rotation (zlen l1) (l1 ++ l2) = l2 ++ l1.
Proof.
  unfold rotation, zlen. rewrite Nat2Z.id, drop_app_length, take_app_length. done.
Qed.

Lemma cursor_split c l :
  cursor_ok c l -> exists l1 l2, l = l1 ++ l2 /\ c = zlen l1 /\ (l2 = [] -> l1 = []).
Proof.
  intros [H0 Hc]. exists (take (Z.to_nat c) l), (drop (Z.to_nat c) l).
  split; [by rewrite take_drop|]. split.
  - zlen_simpl. unfold zlen in *. lia.
  - intros E. apply (f_equal length) in E. rewrite length_drop in E. cbn in E.
    unfold zlen in Hc. apply length_zero_iff_nil. rewrite length_take. lia.
Qed.

Lemma rotation_lookup c l i :
  cursor_ok c l -> 0 <= i < zlen l ->
  l !! Z.to_nat ((c + i) mod zlen l) = rotation c l !! Z.to_nat i.
Proof.
  intros Hc Hi. destruct (cursor_split c l Hc) as (l1 & l2 & -> & -> & _).
  rewrite rotation_app. zlen_simpl. unfold zlen in *.
  destruct (decide (i < Z.of_nat (length l2))).
  - rewrite Z.mod_small by lia. rewrite (lookup_app_l l2) by lia.
    rewrite lookup_app_r by lia. f_equal. lia.
  - replace (Z.of_nat (length l1) + i)
      with ((i - Z.of_nat (length l2)) + 1 * (Z.of_nat (length l1) + Z.of_nat (length l2)))
      by lia.
    rewrite Z.mod_add, Z.mod_small by lia. rewrite (lookup_app_r l2) by lia.
    rewrite lookup_app_l by lia. f_equal. lia.
Qed.

(** The cyclic search finds the first match of the rotation, or none. *)
Lemma first_from_loop_spec p l c n i :
  cursor_ok c l -> Z.of_nat n + i = zlen l -> 0 <= i ->
  match first_from_loop p l c n i with
  | Some (index, x) =>
      exists pre post j, drop (Z.to_nat i) (rotation c l) = pre ++ x :: post /\
        Forall (fun y => p y = false) pre /\ p x = true /\
        j = i + zlen pre /\ index = (c + j) mod zlen l
  | None => Forall (fun y => p y = false) (drop (Z.to_nat i) (rotation c l))
  end.
Proof.
  intros Hc. revert i. induction n as [|n IH]; intros i Hn Hi; cbn.
  - rewrite drop_ge; [done|]. rewrite (Permutation_length (rotation_perm c l)).
    unfold zlen in Hn. lia.
  - rewrite rotation_lookup by (done || lia).
    destruct (rotation c l !! Z.to_nat i) as [x|] eqn:E.
    2: { apply lookup_ge_None in E. rewrite drop_ge; [done|lia]. }
    assert (Ed : drop (Z.to_nat i) (rotation c l) = x :: drop (Z.to_nat (i + 1)) (rotation c l)).
    { rewrite (drop_S _ x) by done. f_equal. f_equal. lia. }
    destruct (p x) eqn:Ep.
    + exists [], (drop (Z.to_nat (i + 1)) (rotation c l)), i.
      rewrite Ed. conj; try done. rewrite zlen_nil. lia.
    + specialize (IH (i + 1)). rewrite Ed.
      destruct (first_from_loop p l c n (i + 1)) as [[index y]|].
      * destruct IH as (pre & post & j & Ed' & Hpre & Hy & Hj & Hx); [lia..|].
        exists (x :: pre), post, j. rewrite Ed'. conj; try done; [by constructor|].
        rewrite zlen_cons. lia.
      * constructor; [done|]. apply IH; lia.
Qed.

(** Moving the cursor over the first part of the rotation. *)
Lemma rotation_step c l a b :
  cursor_ok c l -> l <> [] -> rotation c l = a ++ b ->
  rotation ((c + zlen a) mod zlen l) l = b ++ a /\ cursor_ok ((c + zlen a) mod zlen l) l.
Proof.
  intros Hc Hne Er. assert (Hlen : 0 < zlen l) by (destruct l; [done|unfold zlen; cbn; lia]).
  split. 2: { pose proof (Z.mod_pos_bound (c + zlen a) (zlen l) Hlen). unfold cursor_ok. lia. }
  destruct (cursor_split c l Hc) as (l1 & l2 & -> & -> & Hemp).
  rewrite rotation_app in Er. clear Hc Hne.
  apply app_eq_inv in Er as [(d & -> & ->)|(d & -> & ->)].
  - destruct d as [|x d].
    + rewrite app_nil_r in *. rewrite <- zlen_app, Z.mod_same by lia.
      unfold rotation. cbn. by rewrite app_nil_r.
    + rewrite Z.mod_small by (zlen_simpl; unfold zlen in *; lia).
      rewrite app_assoc, <- zlen_app, rotation_app. by rewrite app_assoc.
  - assert (Hb : b ++ l2 <> []).
    { intros [-> ->]%app_nil. specialize (Hemp eq_refl). rewrite Hemp in Hlen. done. }
    assert (0 < zlen b + zlen l2).
    { rewrite <- zlen_app. destruct (b ++ l2); [done|]. unfold zlen. cbn. lia. }
    replace (zlen (d ++ b) + zlen (l2 ++ d)) with (zlen d + 1 * zlen ((d ++ b) ++ l2))
      by (zlen_simpl; lia).
    rewrite Z.mod_add, Z.mod_small by (zlen_simpl; unfold zlen in *; lia).
    rewrite <- app_assoc, rotation_app. by rewrite app_assoc.
Qed.

Lemma first_from_spec p l c :
  cursor_ok c l ->
  match first_from p l c with
  | Some (index, x) =>
      exists pre post, rotation c l = pre ++ x :: post /\
        Forall (fun y => p y = false) pre /\ p x = true /\
        rotation ((index + 1) mod zlen l) l = post ++ pre ++ [x] /\
        cursor_ok ((index + 1) mod zlen l) l
  | None => Forall (fun y => p y = false) l
  end.
Proof.
  intros Hc. unfold first_from.
  pose proof (first_from_loop_spec p l c (length l) 0 Hc) as H.
  destruct (first_from_loop _ _ _ _ _) as [[index x]|].
  - destruct H as (pre & post & j & Er & Hpre & Hx & Hj & ->); [unfold zlen; lia|lia|].
    change (drop (Z.to_nat 0) (rotation c l)) with (rotation c l) in Er.
    assert (Hne : l <> []).
    { intros ->. unfold rotation in Er. rewrite drop_nil, take_nil in Er. by destruct pre. }
    assert (Hlen : 0 < zlen l) by (destruct l; [done|unfold zlen; cbn; lia]).
    destruct (rotation_step c l (pre ++ [x]) post) as [Er' Hc']; [done..| |].
    { by rewrite Er, <- app_assoc. }
    replace ((c + zlen (pre ++ [x])) mod zlen l) with (((c + j) mod zlen l + 1) mod zlen l)
      in Er', Hc'.
    2: { rewrite Z.add_mod_idemp_l by lia. f_equal. zlen_simpl. lia. }
    exists pre, post. by rewrite Er'.
  - rewrite <- (rotation_perm c l). apply H; [unfold zlen; lia|lia].
Qed.
End rotation.

Lemma index_of_Some {A} `{EqDecision A} (x : A) l i :
  index_of x l = Some i -> exists l1 l2, l = l1 ++ x :: l2 /\ i = length l1 /\
    remove_at i l = l1 ++ l2.
Proof.
  unfold index_of. destruct (list_find _ l) as [[j y]|] eqn:E; cbn; [|done].
  intros [= ->]. apply list_find_Some in E as (Hl & -> & _).
  exists (take i l), (drop (S i) l). split; [by rewrite take_drop_middle|].
  apply lookup_lt_Some in Hl. split; [|done]. rewrite length_take. lia.
Qed.

Lemma index_of_None {A} `{EqDecision A} (x : A) l : index_of x l = None -> x ∉ l.
Proof.
  unfold index_of. intros E%fmap_None. apply list_find_None in E. intros Hx.
  rewrite Forall_forall in E. by eapply E.
Qed.

(** The removed element is not before the cursor: the cursor stays, unless it
    was at the end. *)
Lemma removal_after a b c : 0 <= a -> 0 <= b -> 0 <= c ->
  cursorAfterRemoval a (a + b) (a + b + 1 + c) = if b + c =? 0 then 0 else a.
Proof.
  intros. unfold cursorAfterRemoval. cbv zeta.
  repeat (case_test; bool_hyps); lia.
Qed.

(** It is before the cursor: the cursor moves back by one. *)
Lemma removal_before a b c : 0 <= a -> 0 <= b -> 0 < c ->
  cursorAfterRemoval (a + 1 + b) a (a + 1 + b + c) = a + b.
Proof.
  intros. unfold cursorAfterRemoval. cbv zeta.
  repeat (case_test; bool_hyps); lia.
Qed.

Lemma zlen_zero {A} (l : list A) : zlen l = 0 -> l = [].
Proof. unfold zlen. destruct l; cbn; [done|lia]. Qed.

Lemma app_cons_eq_inv {A} (l1 : list A) x l2 u w :
  l1 ++ x :: l2 = u ++ w ->
  (exists v, l1 = u ++ v /\ w = v ++ x :: l2) \/ (exists v, u = l1 ++ x :: v /\ l2 = v ++ w).
Proof.
  intros [(v & -> & ->)|([|y v] & -> & Ev)]%app_eq_inv; [by eauto|..].
  - left. exists []. by rewrite !app_nil_r.
  - cbn in Ev. injection Ev as <- ->. eauto.
Qed.

(** Removing an element and moving the cursor as [cursorAfterRemoval] does
    removes it from the rotation and changes nothing else of it. *)
Lemma rotation_remove {A} c (l1 : list A) x l2 :
  cursor_ok c (l1 ++ x :: l2) ->
  let c' := cursorAfterRemoval c (zlen l1) (zlen (l1 ++ x :: l2)) in
  cursor_ok c' (l1 ++ l2) /\
  exists a b, rotation c (l1 ++ x :: l2) = a ++ x :: b /\ rotation c' (l1 ++ l2) = a ++ b.
Proof.
  intros Hc. cbv zeta. pose proof (zlen_nonneg l1). pose proof (zlen_nonneg l2).
  destruct (cursor_split _ _ Hc) as (u & w & E & -> & Hw). rewrite E, rotation_app.
  pose proof (zlen_nonneg u). pose proof (zlen_nonneg w).
  apply app_cons_eq_inv in E as [(v & -> & ->)|(v & -> & ->)].
  - pose proof (zlen_nonneg v).
    replace (zlen (u ++ v ++ x :: l2)) with (zlen u + zlen v + 1 + zlen l2) by (zlen_simpl; lia).
    rewrite zlen_app, removal_after by lia. split.
    + destruct (_ =? 0) eqn:E0; bool_hyps; unfold cursor_ok; zlen_simpl; lia.
    + exists v, (l2 ++ u). split; [by rewrite <- app_assoc|].
      destruct (_ =? 0) eqn:E0; bool_hyps.
      * rewrite (zlen_zero v), (zlen_zero l2) by lia. unfold rotation. cbn. by rewrite !app_nil_r.
      * by rewrite <- app_assoc, rotation_app, <- app_assoc.
  - pose proof (zlen_nonneg v).
    assert (0 < zlen w).
    { destruct w; [|unfold zlen; cbn; lia]. exfalso. specialize (Hw eq_refl). by destruct l1. }
    replace (zlen ((l1 ++ x :: v) ++ w)) with (zlen l1 + 1 + zlen v + zlen w) by (zlen_simpl; lia).
    replace (zlen (l1 ++ x :: v)) with (zlen l1 + 1 + zlen v) by (zlen_simpl; lia).
    rewrite removal_before by lia. split; [unfold cursor_ok; zlen_simpl; lia|].
    exists (w ++ l1), v. split; [by rewrite <- app_assoc|].
    by rewrite <- zlen_app, app_assoc, rotation_app, app_assoc.
Qed.

(** * Distance to an element *)

Section before.
Context {A : Type} `{EqDecision A}.
Implicit Types (l a b : list A) (w x : A).

(** The number of elements before [w]. *)
Fixpoint before w l : Z :=
  match l with
  | [] => 0
  | x :: l => if decide (x = w) then 0 else 1 + before w l
  end.

Lemma before_bounds w l : 0 <= before w l <= zlen l.
Proof.
  induction l as [|x l IH]; cbn [before]; [unfold zlen; cbn; lia|].
  rewrite zlen_cons. case_decide; lia.
Qed.

Lemma before_lt w l : w ∈ l -> before w l < zlen l.
Proof.
  induction l as [|x l IH]; cbn [before]; intros Hw; [by apply not_elem_of_nil in Hw|].
  rewrite zlen_cons. pose proof (zlen_nonneg l). case_decide as Hx; [lia|].
  apply elem_of_cons in Hw as [->|Hw]; [done|]. specialize (IH Hw). lia.
Qed.

Lemma before_skip w a b : w ∉ a -> before w (a ++ b) = zlen a + before w b.
Proof.
  induction a as [|x a IH]; cbn [before app]; intros Hw; [done|].
  apply not_elem_of_cons in Hw as [Hne Hw]. rewrite decide_False by done.
  rewrite zlen_cons, IH by done. lia.
Qed.

Lemma before_stop w a b : w ∈ a -> before w (a ++ b) = before w a.
Proof.
  induction a as [|x a IH]; cbn [before app]; intros Hw; [by apply not_elem_of_nil in Hw|].
  case_decide; [done|]. apply elem_of_cons in Hw as [->|Hw]; [done|]. by rewrite IH.
Qed.

Lemma before_insert w a x b :
  x <> w -> before w (a ++ b) <= before w (a ++ x :: b) <= before w (a ++ b) + 1.
Proof.
  intros Hx. induction a as [|y a IH]; cbn [before app].
  - rewrite decide_False by done. lia.
  - case_decide; lia.
Qed.
End before.

(** * The orders of a scheduler *)

(** The orders list every active key once: the scopes that have a key, and for
    each of them the units of its keys; the cursors point into them. *)
Record order_ok (keys : gset AdmissionKey) (scopeOrder : list string) (scopeCursor : Z)
    (unitOrder : gmap string (list Z)) (unitCursor : gmap string Z) : Prop := {
  or_scopes : NoDup scopeOrder;
  or_scope : forall scope, scope ∈ scopeOrder <-> is_Some (unitOrder !! scope);
  or_units : forall scope units, unitOrder !! scope = Some units ->
    units <> [] /\ NoDup units /\ forall u, u ∈ units <-> mkAdmissionKey scope u ∈ keys;
  or_key : forall key, key ∈ keys -> is_Some (unitOrder !! ak_AuthorizationScope key);
  or_cursor : cursor_ok scopeCursor scopeOrder;
  or_unitCursor : forall scope units, unitOrder !! scope = Some units ->
    cursor_ok (default 0 (unitCursor !! scope)) units;
  or_noCursor : forall scope, unitOrder !! scope = None -> unitCursor !! scope = None
}.

Definition ordered (s : EndpointScheduler) : Prop :=
  order_ok (dom (es_keys s)) (es_scopeOrder s) (es_scopeCursor s) (es_unitOrder s)
    (es_unitCursor s).

Lemma cursor_ok_app {A} c (l k : list A) : cursor_ok c l -> cursor_ok c (l ++ k).
Proof. unfold cursor_ok. rewrite zlen_app. pose proof (zlen_nonneg k). lia. Qed.

Lemma key_eta key : mkAdmissionKey (ak_AuthorizationScope key) (ak_UnitID key) = key.
Proof. by destruct key. Qed.

Lemma remember_ok keys key s :
  order_ok keys (es_scopeOrder s) (es_scopeCursor s) (es_unitOrder s) (es_unitCursor s) ->
  key ∉ keys ->
  let s' := rememberOrder s key in
  order_ok ({[key]} ∪ keys) (es_scopeOrder s') (es_scopeCursor s') (es_unitOrder s')
    (es_unitCursor s').
Proof.
  intros [Hs Hsc Hu Hk Hc Huc Hnc] Hnew. cbv zeta. unfold rememberOrder.
  set (scope := ak_AuthorizationScope key). set (units := default [] (es_unitOrder s !! scope)).
  assert (Hnu : ak_UnitID key ∉ units).
  { unfold units. destruct (es_unitOrder s !! scope) as [us|] eqn:E; cbn; [|apply not_elem_of_nil].
    destruct (Hu _ _ E) as (_ & _ & Hin). rewrite Hin. unfold scope. by rewrite key_eta. }
  assert (Hgoal : forall scopes,
    NoDup scopes -> (forall sc, sc ∈ scopes <-> sc = scope \/ sc ∈ es_scopeOrder s) ->
    cursor_ok (es_scopeCursor s) scopes ->
    order_ok ({[key]} ∪ keys) scopes (es_scopeCursor s)
      (<[scope := units ++ [ak_UnitID key]]> (es_unitOrder s)) (es_unitCursor s)).
  { intros scopes Hn Hin Hcur. constructor; try done.
    - intros sc. rewrite Hin, Hsc, lookup_insert_is_Some'. split; intros [->|?]; auto.
    - intros sc us [[<- <-]|[Hne E]]%lookup_insert_Some.
      + split; [by destruct units|]. split.
        * apply NoDup_app. split; [|split; [|apply NoDup_singleton]].
          -- unfold units. destruct (es_unitOrder s !! scope) eqn:E; cbn; [|constructor].
             by apply Hu in E as (_ & ? & _).
          -- by intros u Hin' ->%list_elem_of_singleton.
        * intros u. rewrite elem_of_app, list_elem_of_singleton, elem_of_union, elem_of_singleton.
          assert (Hus : u ∈ units <-> mkAdmissionKey scope u ∈ keys).
          { unfold units. destruct (es_unitOrder s !! scope) eqn:E; cbn.
            - by apply Hu in E as (_ & _ & ?).
            - split; [by intros ?%not_elem_of_nil|]. intros [us E']%Hk. cbn in E'. congruence. }
          rewrite Hus. unfold scope. destruct key; cbn.
          split; [intros [?| ->]; auto|intros [[= ->]|?]; auto].
      + destruct (Hu _ _ E) as (? & ? & Hin'). conj; try done. intros u. rewrite Hin'.
        rewrite elem_of_union, elem_of_singleton. split; [by right|].
        intros [<-|?]; [|done]. by destruct Hne.
    - intros k [->%elem_of_singleton|Hin']%elem_of_union; apply lookup_insert_is_Some;
        [by left|]. destruct (decide (scope = ak_AuthorizationScope k)); [by left|right; eauto].
    - intros sc us [[<- <-]|[Hne E]]%lookup_insert_Some; [|by eapply Huc].
      unfold units. destruct (es_unitOrder s !! scope) as [us|] eqn:E; cbn.
      + apply cursor_ok_app. by eapply Huc.
      + rewrite (Hnc _ E). cbn. unfold cursor_ok. lia.
    - intros sc [E _]%lookup_insert_None. by apply Hnc. }
  destruct (bool_decide (scope ∈ es_scopeOrder s)) eqn:Hin; bool_hyps;
    (case_bool_decide as Hx; [by destruct Hnu|]); cbn.
  - apply Hgoal; [done| |done].
    intros sc. split; [auto|]. by intros [->|?].
  - apply Hgoal.
    + apply NoDup_app. split; [done|]. split; [|apply NoDup_singleton].
      by intros sc Hin' ->%list_elem_of_singleton.
    + intros sc. rewrite elem_of_app, list_elem_of_singleton. split; intros [?|?]; auto.
    + by apply cursor_ok_app.
Qed.

Definition scope_rotation (s : EndpointScheduler) : list string :=
  rotation (es_scopeCursor s) (es_scopeOrder s).

Lemma before_sublist {A} `{EqDecision A} (w : A) (l k : list A) :
  sublist l k -> NoDup k -> w ∈ l -> before w l <= before w k.
Proof.
  induction 1 as [|x l k Hs IH|x l k Hs IH]; cbn [before]; intros Hn Hw; [lia|..].
  - apply NoDup_cons in Hn as [_ Hn]. apply elem_of_cons in Hw as [->|Hw].
    + by rewrite !decide_True.
    + case_decide; [lia|]. specialize (IH Hn Hw). lia.
  - apply NoDup_cons in Hn as [Hx Hn]. rewrite decide_False.
    + specialize (IH Hn Hw). lia.
    + intros ->. apply Hx. by eapply sublist_subseteq.
Qed.

(** What [forgetOrder] does to the units of the scope of [key]. *)
Lemma forget_units keys key s us :
  order_ok keys (es_scopeOrder s) (es_scopeCursor s) (es_unitOrder s) (es_unitCursor s) ->
  key ∈ keys -> es_unitOrder s !! ak_AuthorizationScope key = Some us ->
  exists i u1 u2, index_of (ak_UnitID key) us = Some i /\ us = u1 ++ ak_UnitID key :: u2 /\
    i = length u1 /\ remove_at i us = u1 ++ u2 /\ NoDup (u1 ++ u2) /\
    forall u, u ∈ u1 ++ u2 <->
      mkAdmissionKey (ak_AuthorizationScope key) u ∈ keys ∖ {[key]}.
Proof.
  intros Ho Hin E. destruct (or_units _ _ _ _ _ Ho _ _ E) as (_ & Hnd & Hus).
  assert (Hu : ak_UnitID key ∈ us) by (apply Hus; by rewrite key_eta).
  destruct (index_of (ak_UnitID key) us) as [i|] eqn:Ei.
  2: { by apply index_of_None in Ei. }
  destruct (index_of_Some _ _ _ Ei) as (u1 & u2 & Eus & Hi & Er).
  exists i, u1, u2. conj; try done; rewrite Eus in Hnd.
  - rewrite <- Permutation_middle in Hnd. by apply NoDup_cons in Hnd as [_ ?].
  - rewrite <- Permutation_middle in Hnd. apply NoDup_cons in Hnd as [Hx _].
    intros u. rewrite elem_of_difference, elem_of_singleton, <- Hus, Eus.
    rewrite !elem_of_app, elem_of_cons. rewrite elem_of_app in Hx. split.
    + intros Hu'. split; [tauto|]. intros Ek. apply Hx.
      apply (f_equal ak_UnitID) in Ek. cbn in Ek. by rewrite <- Ek.
    + intros [[?|[->|?]] Hne]; [by left| |by right]. by rewrite key_eta in Hne.
Qed.

Lemma forget_ok keys key s :
  order_ok keys (es_scopeOrder s) (es_scopeCursor s) (es_unitOrder s) (es_unitCursor s) ->
  key ∈ keys ->
  let s' := forgetOrder s key in
  order_ok (keys ∖ {[key]}) (es_scopeOrder s') (es_scopeCursor s') (es_unitOrder s')
    (es_unitCursor s') /\ sublist (scope_rotation s') (scope_rotation s).
Proof.
  intros Ho Hin. destruct (or_key _ _ _ _ _ Ho key Hin) as [us E].
  destruct (forget_units _ _ _ _ Ho Hin E) as (i & u1 & u2 & Ei & Eus & Hi & Er & Hnd' & Hus').
  pose proof (or_unitCursor _ _ _ _ _ Ho _ _ E) as Huc. rewrite Eus in Huc.
  destruct Ho as [Hs Hsc Hu Hk Hc Huc' Hnc].
  cbv zeta. unfold forgetOrder. set (scope := ak_AuthorizationScope key) in *.
  rewrite E. cbn [from_option id]. rewrite Ei, Er.
  assert (Hother : forall sc us', sc <> scope -> es_unitOrder s !! sc = Some us' ->
    us' <> [] /\ NoDup us' /\ forall u, u ∈ us' <-> mkAdmissionKey sc u ∈ keys ∖ {[key]}).
  { intros sc us' Hne E'. destruct (Hu _ _ E') as (? & ? & Hin'). conj; try done.
    intros u. rewrite Hin', elem_of_difference, elem_of_singleton. split; [|tauto].
    intros ?. split; [done|]. intros Ek. apply Hne. unfold scope. by rewrite <- Ek. }
  destruct (zlen (u1 ++ u2) >? 0) eqn:El; bool_hyps.
  - cbn. split; [|done]. constructor; try done.
    + intros sc. rewrite Hsc, lookup_insert_is_Some'. split; [auto|].
      intros [<-|?]; [by rewrite E|done].
    + intros sc us' [[<- <-]|[Hne E']]%lookup_insert_Some; [|by apply Hother].
      conj; try done. intros E0. rewrite E0 in El. done.
    + intros k [Hk' _]%elem_of_difference. rewrite lookup_insert_is_Some'. right. by apply Hk.
    + intros sc us' [[<- <-]|[Hne E']]%lookup_insert_Some.
      * rewrite lookup_insert_eq. cbn.
        destruct (rotation_remove _ _ _ _ Huc) as [Hc' _].
        replace (zlen (u1 ++ ak_UnitID key :: u2)) with (zlen (u1 ++ u2) + 1) in Hc'
          by (zlen_simpl; lia).
        by replace (Z.of_nat i) with (zlen u1) by (subst i; done).
      * rewrite lookup_insert_ne by done. by eapply Huc'.
    + intros sc [E' Hne]%lookup_insert_None. rewrite lookup_insert_ne by done. by apply Hnc.
  - assert (Hnil : u1 ++ u2 = []) by (apply zlen_zero; pose proof (zlen_nonneg (u1 ++ u2)); lia).
    rewrite Hnil in Hus'. cbn [es_scopeOrder set_units].
    destruct (index_of scope (es_scopeOrder s)) as [j|] eqn:Ej.
    2: { apply index_of_None in Ej. destruct Ej. apply Hsc. by rewrite E. }
    destruct (index_of_Some _ _ _ Ej) as (l1 & l2 & El' & Hj & Er'). rewrite Er'. cbn.
    rewrite El' in Hs. pose proof Hs as Hs2. rewrite <- Permutation_middle in Hs2.
    apply NoDup_cons in Hs2 as [Hx Hs2]. rewrite El' in Hc.
    destruct (rotation_remove _ _ _ _ Hc) as (Hc' & a & b & Ea & Eb).
    replace (Z.of_nat j) with (zlen l1) by (subst j; done). rewrite El'.
    split; [constructor|]; try done.
    + intros sc. rewrite lookup_delete_is_Some, <- Hsc, El'.
      rewrite elem_of_app in Hx. rewrite !elem_of_app, elem_of_cons. split.
      * intros Hl. split; [by intros <-|]. tauto.
      * intros [Hne [?|[->|?]]]; auto. by destruct Hne.
    + intros sc us' [Hne E']%lookup_delete_Some. by apply Hother.
    + intros k [Hk' Hne']%elem_of_difference. rewrite lookup_delete_is_Some.
      split; [|by apply Hk]. intros Esc. rewrite elem_of_singleton in Hne'.
      assert (ak_UnitID k ∈ []) as []%not_elem_of_nil. apply Hus'. rewrite Esc, key_eta.
      by apply elem_of_difference; rewrite elem_of_singleton.
    + intros sc us' [Hne E']%lookup_delete_Some. rewrite lookup_delete_ne by done. by eapply Huc'.
    + intros sc [->|E']%lookup_delete_None; [by rewrite lookup_delete_eq|].
      rewrite lookup_delete_None. right. by apply Hnc.
    + unfold scope_rotation. cbn. rewrite El', Ea, Eb. apply sublist_app; [done|].
      by apply sublist_cons.
Qed.

Lemma key_has_queued_iff s key :
  key_has_queued s key = true <->
  exists st e queue, es_keys s !! key = Some st /\ as_queue st = e :: queue.
Proof.
  unfold key_has_queued. destruct (es_keys s !! key) as [st|].
  - destruct (as_queue st) as [|e queue] eqn:E; cbn.
    + split; [done|]. intros (? & ? & ? & [= <-] & E'). congruence.
    + split; [|done]. intros _. by exists st, e, queue.
  - split; [done|]. by intros (? & ? & ? & ? & _).
Qed.

Lemma scope_has_queued_iff s scope :
  ordered s ->
  scopeHasQueued s scope = true <-> exists unit, key_has_queued s (mkAdmissionKey scope unit) = true.
Proof.
  intros Ho. unfold scopeHasQueued. rewrite existsb_exists. split.
  - intros (u & _ & Hu). by exists u.
  - intros [u Hu]. exists u. split; [|done]. apply list_elem_of_In.
    apply key_has_queued_iff in Hu as (st & _ & _ & Hk & _).
    assert (Hd : mkAdmissionKey scope u ∈ dom (es_keys s)) by (apply elem_of_dom; eauto).
    destruct (or_key _ _ _ _ _ Ho _ Hd) as [us E]. cbn in E. rewrite E. cbn.
    by apply (or_units _ _ _ _ _ Ho _ _ E).
Qed.

(** [nextScope] picks the first scope of the rotation with queued work, and the
    rotation then starts after it. *)
Lemma next_scope_spec s :
  ordered s ->
  match nextScope s with
  | (s', None) => s' = s /\ forall key, key_has_queued s key = false
  | (s', Some scope) =>
      exists c pre post,
        s' = set_scopes s (es_scopeOrder s) c /\ ordered s' /\
        scopeHasQueued s scope = true /\
        scope_rotation s = pre ++ scope :: post /\
        Forall (fun sc => scopeHasQueued s sc = false) pre /\
        scope_rotation s' = post ++ pre ++ [scope]
  end.
Proof.
  intros Ho. unfold nextScope.
  pose proof (first_from_spec (scopeHasQueued s) _ _ (or_cursor _ _ _ _ _ Ho)) as H.
  destruct (first_from _ _ _) as [[index scope]|].
  - destruct H as (pre & post & Er & Hpre & Hp & Er' & Hc').
    eexists _, pre, post. conj; try done. destruct Ho. by constructor.
  - split; [done|]. intros key. apply not_true_iff_false. intros Hk.
    assert (Hq : scopeHasQueued s (ak_AuthorizationScope key) = true).
    { apply scope_has_queued_iff; [done|]. exists (ak_UnitID key). by rewrite key_eta. }
    apply key_has_queued_iff in Hk as (st & _ & _ & Hk & _).
    assert (Hd : key ∈ dom (es_keys s)) by (apply elem_of_dom; eauto).
    apply (or_key _ _ _ _ _ Ho), (or_scope _ _ _ _ _ Ho) in Hd.
    rewrite Forall_forall in H. specialize (H _ Hd). congruence.
Qed.

Lemma next_unit_spec s scope :
  ordered s -> scopeHasQueued s scope = true ->
  exists cursors unit,
    nextUnit s scope = (set_units s (es_unitOrder s) cursors, Some (mkAdmissionKey scope unit)) /\
    ordered (set_units s (es_unitOrder s) cursors) /\
    key_has_queued s (mkAdmissionKey scope unit) = true.
Proof.
  intros Ho Hq. unfold nextUnit.
  assert (exists us, es_unitOrder s !! scope = Some us) as [us E].
  { unfold scopeHasQueued in Hq. destruct (es_unitOrder s !! scope); [eauto|done]. }
  rewrite E. cbn [from_option id].
  pose proof (or_unitCursor _ _ _ _ _ Ho _ _ E) as Huc.
  pose proof (first_from_spec (fun u => key_has_queued s (mkAdmissionKey scope u)) _ _ Huc) as H.
  destruct (first_from _ _ _) as [[index u]|].
  - destruct H as (pre & post & _ & _ & Hp & _ & Hc'). eexists _, u. conj; [done| |done].
    destruct Ho as [? ? ? ? ? Huc' Hnc]. constructor; try done; cbn.
    + intros sc us' E'. destruct (decide (sc = scope)) as [->|Hne].
      * rewrite lookup_insert_eq. cbn. congruence.
      * rewrite lookup_insert_ne by done. by eapply Huc'.
    + intros sc E'. rewrite lookup_insert_ne by congruence. by apply Hnc.
  - exfalso. unfold scopeHasQueued in Hq. rewrite E in Hq.
    apply existsb_exists in Hq as (u & Hu%list_elem_of_In & Hq). cbn in Hu.
    rewrite Forall_forall in H. specialize (H u Hu). cbn in H. congruence.
Qed.
