(* ===== verification/SchedulerBooks.v ===== *)
(** The books of the endpoint scheduler: the invariant that its counters, queues
    and maps agree and that every limit holds, with the capacity protected for
    every key; what [checkAdmissionCount] decides in terms of it; and that the
    admission operations keep it. *)

From S2P Require Import Prelude Pdu DeviceId DeviceIdTolerant TcpAdu TcpOwner Coalescing Scheduler SchedulerOrder.

(** * Sums over finite maps *)

Section sums.
Context {A : Type}.
Implicit Types (f g : A -> Z) (l : list A).

Fixpoint lsum f l : Z := match l with [] => 0 | x :: l => f x + lsum f l end.

Lemma lsum_app f l k : lsum f (l ++ k) = lsum f l + lsum f k.
Proof. induction l as [|x l IH]; cbn; lia. Qed.

Lemma lsum_perm f l k : l ≡ₚ k -> lsum f l = lsum f k.
Proof. induction 1; cbn in *; lia. Qed.

Lemma lsum_le f g l : (forall x, x ∈ l -> f x <= g x) -> lsum f l <= lsum g l.
Proof.
  induction l as [|x l IH]; intros H; cbn; [lia|].
  specialize (IH (fun y Hy => H y (list_elem_of_further _ _ _ Hy))).
  specialize (H x (list_elem_of_here _ _)). lia.
Qed.

Lemma lsum_nonneg f l : (forall x, x ∈ l -> 0 <= f x) -> 0 <= lsum f l.
Proof.
  intros H. pose proof (lsum_le (fun _ => 0) f l H) as Hle.
  assert (lsum (fun _ => 0) l = 0) as E by (clear; induction l; cbn; [done|lia]). lia.
Qed.

Lemma lsum_plus f g l : lsum (fun x => f x + g x) l = lsum f l + lsum g l.
Proof.
  induction l as [|x l IH]; cbn; lia.
Qed.

Lemma lsum_const c l : lsum (fun _ => c) l = zlen l * c.
Proof.
  induction l as [|x l IH]; [done|]. rewrite zlen_cons. cbn. lia.
Qed.
End sums.

Section map_sums.
Context `{Countable K} {V : Type}.
Implicit Types (f g : K -> V -> Z) (m : gmap K V).

Definition ksum f m : Z := lsum (fun p => f p.1 p.2) (map_to_list m).

Lemma ksum_empty f : ksum f ∅ = 0.
Proof. unfold ksum. by rewrite map_to_list_empty. Qed.

Lemma ksum_insert_new f m k v : m !! k = None -> ksum f (<[k := v]> m) = f k v + ksum f m.
Proof. intros E. unfold ksum. by rewrite (lsum_perm _ _ _ (map_to_list_insert m k v E)). Qed.

Lemma ksum_delete f m k v : m !! k = Some v -> ksum f m = f k v + ksum f (delete k m).
Proof.
  intros E. rewrite <- (insert_delete_id m k v E) at 1.
  apply ksum_insert_new, lookup_delete_eq.
Qed.

Lemma ksum_insert f m k v w :
  m !! k = Some v -> ksum f (<[k := w]> m) = ksum f m - f k v + f k w.
Proof.
  intros E. rewrite <- insert_delete_eq, ksum_insert_new by apply lookup_delete_eq.
  rewrite (ksum_delete f m k v E). lia.
Qed.

Lemma ksum_le f g m : (forall k v, m !! k = Some v -> f k v <= g k v) -> ksum f m <= ksum g m.
Proof. intros Hle. apply lsum_le. intros [k v] Hp%elem_of_map_to_list. by apply Hle. Qed.

Lemma ksum_nonneg f m : (forall k v, m !! k = Some v -> 0 <= f k v) -> 0 <= ksum f m.
Proof. intros Hle. apply lsum_nonneg. intros [k v] Hp%elem_of_map_to_list. by apply Hle. Qed.

Lemma ksum_lookup f m k v :
  (forall i w, m !! i = Some w -> 0 <= f i w) -> m !! k = Some v -> f k v <= ksum f m.
Proof.
  intros Hn E. rewrite (ksum_delete f m k v E).
  enough (0 <= ksum f (delete k m)) by lia.
  apply ksum_nonneg. intros i w [_ Hi]%lookup_delete_Some. eauto.
Qed.

Lemma ksum_plus f g m : ksum (fun k v => f k v + g k v) m = ksum f m + ksum g m.
Proof. apply (lsum_plus (fun p => f p.1 p.2) (fun p => g p.1 p.2)). Qed.

Lemma ksum_const c m : ksum (fun _ _ => c) m = Z.of_nat (size m) * c.
Proof.
  unfold ksum. rewrite (lsum_const c). unfold zlen. by rewrite length_map_to_list.
Qed.

Lemma map_size_delete_Some m k v : m !! k = Some v -> size m = S (size (delete k m)).
Proof.
  intros E. rewrite <- (insert_delete_id m k v E) at 1.
  by rewrite map_size_insert_None by apply lookup_delete_eq.
Qed.
End map_sums.

(** * Checked arithmetic *)

Lemma checked_add_ok a b : 0 <= a -> 0 <= b -> a + b <= MaxInt -> checkedAdmissionAdd a b = Some (a + b).
Proof.
  intros. unfold checkedAdmissionAdd.
  by test_false ((a <? 0) || (b <? 0) || (a >? MaxInt - b)).
Qed.

Lemma checked_add_Some a b c : checkedAdmissionAdd a b = Some c -> c = a + b /\ 0 <= a /\ 0 <= b.
Proof. unfold checkedAdmissionAdd. case_test; intros [=]; bool_hyps; lia. Qed.

Lemma checked_remaining_ok a b :
  0 <= b -> b <= a -> checkedAdmissionRemaining a b = Some (a - b).
Proof.
  intros. unfold checkedAdmissionRemaining.
  by test_false ((a <? 0) || (b <? 0) || (b >? a)).
Qed.

Lemma checked_remaining_Some a b c :
  checkedAdmissionRemaining a b = Some c -> c = a - b /\ 0 <= b <= a.
Proof. unfold checkedAdmissionRemaining. case_test; intros [=]; bool_hyps; lia. Qed.

(** * The books *)

Definition occ (st : admissionState) : Z := as_queued st + as_dependents st.

(** What a key takes from the total: its occupation, and never less than its
    protected slots. *)
Definition share (limits : SchedulerLimits) (st : admissionState) : Z :=
  Z.max (occ st) (sl_ProtectedSlotsPerKey limits).

Definition scope_occ (scope : string) (key : AdmissionKey) (st : admissionState) : Z :=
  if String.eqb (ak_AuthorizationScope key) scope then occ st else 0.

Definition weights (queue : list scheduledEntry) : Z := lsum se_admissionWeight queue.

(** The number of entries of [key] in flight. *)
Definition flights (key : AdmissionKey) (entries : gmap Z scheduledEntry) : Z :=
  ksum (fun _ e => if decide (se_state e = scheduledInFlight /\ entry_key e = key)
                   then 1 else 0) entries.

Record entry_ok (limits : SchedulerLimits) (id : Z) (e : scheduledEntry) : Prop := {
  eo_id : entry_id e = id;
  eo_weight : 0 <= se_admissionWeight e <= 1;
  eo_retries : 0 <= se_retries e <= sl_MaxRetryAttempts limits
}.

Record key_ok (limits : SchedulerLimits) (entries : gmap Z scheduledEntry)
    (key : AdmissionKey) (st : admissionState) : Prop := {
  ko_queue : forall e, e ∈ as_queue st <->
    entries !! entry_id e = Some e /\ se_state e = scheduledQueued /\ entry_key e = key;
  ko_nodup : NoDup (entry_id <$> as_queue st);
  ko_queued : as_queued st = weights (as_queue st);
  ko_dependents : 0 <= as_dependents st <= sl_MaxCoalescedDependentsPerKey limits;
  ko_inFlight : as_inFlight st = flights key entries;
  ko_limit : occ st <= sl_MaxQueuedPerKey limits
}.

(** The scheduler's books; the key in [x], if any, may be empty. *)
Record books_ok (limits : SchedulerLimits) (entries : gmap Z scheduledEntry)
    (keys : gmap AdmissionKey admissionState) (inFlight : Z) (x : option AdmissionKey)
    : Prop := {
  bk_entry : forall id e, entries !! id = Some e ->
    entry_ok limits id e /\ is_Some (keys !! entry_key e);
  bk_key : forall key st, keys !! key = Some st -> key_ok limits entries key st;
  bk_live : forall key st, keys !! key = Some st -> x <> Some key -> key_is_empty st = false;
  bk_inFlight : inFlight = ksum (fun _ st => as_inFlight st) keys;
  bk_maxInFlight : inFlight <= sl_MaxInFlightRequests limits;
  bk_active : Z.of_nat (size keys) <= sl_MaxActiveAdmissionKeys limits;
  bk_scope : forall scope,
    ksum (scope_occ scope) keys <= sl_MaxQueuedPerAuthorizationScope limits;
  bk_total : ksum (fun _ => share limits) keys
    + (sl_MaxActiveAdmissionKeys limits - Z.of_nat (size keys)) * sl_ProtectedSlotsPerKey limits
    <= sl_TotalQueued limits
}.

(** Limits that the constructor accepts, as Go [int] values. *)
Record limits_ok (limits : SchedulerLimits) : Prop := {
  lk_valid : validateSchedulerLimits limits = None;
  lk_int : sl_TotalQueued limits <= MaxInt;
  lk_inFlight : sl_MaxInFlightRequests limits <= MaxInt
}.

Lemma limits_facts limits :
  limits_ok limits ->
  0 < sl_MaxActiveAdmissionKeys limits /\ 0 < sl_ProtectedSlotsPerKey limits /\
  0 < sl_MaxRetryAttempts limits /\ 0 < sl_MaxInFlightRequests limits /\
  sl_MaxActiveAdmissionKeys limits * sl_ProtectedSlotsPerKey limits
    <= sl_MaxQueuedPerAuthorizationScope limits <= sl_TotalQueued limits /\
  sl_ProtectedSlotsPerKey limits <= sl_MaxQueuedPerKey limits <= sl_TotalQueued limits /\
  sl_ProtectedSlotsPerKey limits <= sl_MaxCoalescedDependentsPerKey limits /\
  sl_MaxCoalescedDependentsPerKey limits <= sl_TotalQueued limits <= MaxInt.
Proof.
  intros [Hv Hi _]. revert Hv. unfold validateSchedulerLimits. cbv zeta.
  repeat (case_test; [done|]). intros _. bool_hyps. lia.
Qed.

Lemma weights_nonneg limits entries key st :
  (forall id e, entries !! id = Some e -> entry_ok limits id e) ->
  key_ok limits entries key st -> 0 <= weights (as_queue st).
Proof.
  intros He Hk. apply lsum_nonneg. intros e Hin.
  apply (ko_queue _ _ _ _ Hk) in Hin as (Hl & _). apply He in Hl as [_ Hw _]. lia.
Qed.

Lemma flights_nonneg key entries : 0 <= flights key entries.
Proof. apply ksum_nonneg. intros. case_decide; lia. Qed.

(** The entries of the other keys are the same in both maps. *)
Definition same_elsewhere (key : AdmissionKey) (m m' : gmap Z scheduledEntry) : Prop :=
  forall id e, entry_key e <> key -> m !! id = Some e <-> m' !! id = Some e.

Lemma ksum_indicator_subset (P : scheduledEntry -> Prop) `{!forall e, Decision (P e)}
    (m m' : gmap Z scheduledEntry) :
  (forall id e, P e -> m !! id = Some e -> m' !! id = Some e) ->
  ksum (fun _ e => if decide (P e) then 1 else 0) m
  <= ksum (fun _ e => if decide (P e) then 1 else 0) m'.
Proof.
  revert m'. induction m as [|i e m Hi IH] using map_ind; intros m' Hs.
  - rewrite ksum_empty. apply ksum_nonneg. intros. case_decide; lia.
  - rewrite ksum_insert_new by done. case_decide as HP.
    + assert (Hm' : m' !! i = Some e) by (apply Hs; [done|by rewrite lookup_insert_eq]).
      rewrite (ksum_delete _ m' i e Hm'). rewrite decide_True by done.
      specialize (IH (delete i m')). rewrite <- Z.add_le_mono_l. apply IH.
      intros id e' HP' Hl. assert (id <> i) by congruence.
      rewrite lookup_delete_ne by done. apply Hs; [done|]. by rewrite lookup_insert_ne.
    + rewrite Z.add_0_l. apply IH. intros id e' HP' Hl. apply Hs; [done|].
      rewrite lookup_insert_ne; [done|]. congruence.
Qed.

Lemma flights_elsewhere key other m m' :
  same_elsewhere key m m' -> other <> key -> flights other m = flights other m'.
Proof.
  intros Hs Hne. unfold flights. apply Z.le_antisymm; apply ksum_indicator_subset;
    intros id e [_ Ek]; apply Hs; congruence.
Qed.

Lemma key_ok_elsewhere limits key other m m' st :
  same_elsewhere key m m' -> other <> key ->
  key_ok limits m other st -> key_ok limits m' other st.
Proof.
  intros Hs Hne [Hq ? ? ? Hf ?]. constructor; try done.
  - intros e. rewrite Hq. split; intros (Hl & Hst & Ek); (split; [|done]);
      apply (Hs _ e); (done || congruence).
  - by rewrite Hf, (flights_elsewhere key other m m').
Qed.

(** Changing the state of one key and the entries of that key. *)
Lemma books_update limits m keys n x key st st' m' n' :
  books_ok limits m keys n x -> keys !! key = Some st -> x = None \/ x = Some key ->
  same_elsewhere key m m' ->
  (forall id e, m' !! id = Some e -> entry_key e = key -> entry_ok limits id e) ->
  key_ok limits m' key st' ->
  n' = n + as_inFlight st' - as_inFlight st -> n' <= sl_MaxInFlightRequests limits ->
  ksum (scope_occ (ak_AuthorizationScope key)) keys + occ st' - occ st
    <= sl_MaxQueuedPerAuthorizationScope limits ->
  ksum (fun _ => share limits) keys + share limits st' - share limits st
    + (sl_MaxActiveAdmissionKeys limits - Z.of_nat (size keys)) * sl_ProtectedSlotsPerKey limits
    <= sl_TotalQueued limits ->
  books_ok limits m' (<[key := st']> keys) n' (Some key).
Proof.
  intros Hb Hk Hx Hs He Hk' Hn Hmax Hscope Htotal.
  assert (Hsize : size (<[key := st']> keys) = size keys) by (apply map_size_insert_Some; eauto).
  constructor.
  - intros id e Hl. destruct (decide (entry_key e = key)) as [Ek|Hne].
    + split; [by eapply He|]. rewrite Ek, lookup_insert_eq. eauto.
    + rewrite lookup_insert_ne by done. apply (bk_entry _ _ _ _ _ Hb). by apply (Hs id e Hne).
  - intros other st0 [[<- <-]|[Hne Hl]]%lookup_insert_Some; [done|].
    eapply key_ok_elsewhere; [done|done|]. by eapply bk_key.
  - intros other st0 [[<- <-]|[Hne Hl]]%lookup_insert_Some; [done|]. intros _.
    eapply bk_live; [done..|]. destruct Hx as [->| ->]; congruence.
  - rewrite (ksum_insert _ _ _ st) by done. rewrite Hn, (bk_inFlight _ _ _ _ _ Hb). lia.
  - done.
  - rewrite Hsize. by eapply bk_active.
  - intros scope. rewrite (ksum_insert _ _ _ st) by done. unfold scope_occ at 2 3.
    destruct (String.eqb_spec (ak_AuthorizationScope key) scope) as [<-|]; [lia|].
    pose proof (bk_scope _ _ _ _ _ Hb scope). lia.
  - rewrite (ksum_insert _ _ _ st) by done. rewrite Hsize. lia.
Qed.

(** The same when the occupation does not grow. *)
Lemma books_shrink limits m keys n x key st st' m' n' :
  books_ok limits m keys n x -> keys !! key = Some st -> x = None \/ x = Some key ->
  same_elsewhere key m m' ->
  (forall id e, m' !! id = Some e -> entry_key e = key -> entry_ok limits id e) ->
  key_ok limits m' key st' ->
  n' = n + as_inFlight st' - as_inFlight st -> n' <= sl_MaxInFlightRequests limits ->
  occ st' <= occ st ->
  books_ok limits m' (<[key := st']> keys) n' (Some key).
Proof.
  intros Hb Hk Hx Hs He Hk' Hn Hmax Hocc. eapply books_update; try done.
  - pose proof (bk_scope _ _ _ _ _ Hb (ak_AuthorizationScope key)). lia.
  - pose proof (bk_total _ _ _ _ _ Hb). unfold share in *. lia.
Qed.

(** * Admission *)

Lemma occupation_fold scope l t c :
  0 <= c <= t -> (forall p, p ∈ l -> 0 <= as_queued p.2 /\ 0 <= as_dependents p.2) ->
  t + lsum (fun p => occ p.2) l <= MaxInt ->
  foldl (occupation_step scope) (Some (t, c)) l
  = Some (t + lsum (fun p => occ p.2) l, c + lsum (fun p => scope_occ scope p.1 p.2) l).
Proof.
  revert t c. induction l as [|[k st] l IH]; intros t c Hc Hn Hmax; cbn [foldl lsum].
  { f_equal. f_equal; lia. }
  destruct (Hn (k, st) (list_elem_of_here _ _)) as [H1 H2]. cbn in H1, H2, Hmax.
  assert (0 <= lsum (fun p => occ p.2) l).
  { apply lsum_nonneg. intros p Hp. destruct (Hn p (list_elem_of_further _ _ _ Hp)).
    unfold occ. lia. }
  assert (E : occupation_step scope (Some (t, c)) (k, st)
              = Some (t + occ st, c + scope_occ scope k st)).
  { unfold occupation_step, scope_occ, occ in *. cbn.
    rewrite checked_add_ok by lia. cbn. rewrite (checked_add_ok t) by lia. cbn.
    destruct (String.eqb _ _); [by rewrite checked_add_ok by lia|by rewrite Z.add_0_r]. }
  assert (0 <= scope_occ scope k st <= occ st)
    by (unfold scope_occ, occ; destruct (String.eqb _ _); lia).
  rewrite E, IH; [|lia|intros p Hp; apply Hn; by right|lia].
  f_equal. f_equal; cbn; lia.
Qed.

Definition deficit (limits : SchedulerLimits) (st : admissionState) : Z :=
  share limits st - occ st.

Definition other_deficit (limits : SchedulerLimits) (key k : AdmissionKey)
    (st : admissionState) : Z :=
  if bool_decide (k = key) then 0 else deficit limits st.

Lemma reserved_fold limits key l r :
  0 <= r -> (forall p, p ∈ l -> 0 <= as_queued p.2 /\ 0 <= as_dependents p.2) ->
  (forall p, p ∈ l -> occ p.2 <= MaxInt) ->
  r + lsum (fun p => other_deficit limits key p.1 p.2) l <= MaxInt ->
  foldl (reserved_step key (sl_ProtectedSlotsPerKey limits)) (Some r) l
  = Some (r + lsum (fun p => other_deficit limits key p.1 p.2) l).
Proof.
  revert r. induction l as [|[k st] l IH]; intros r Hr Hn Ho Hmax; cbn [foldl lsum].
  { f_equal. lia. }
  destruct (Hn (k, st) (list_elem_of_here _ _)) as [H1 H2].
  pose proof (Ho (k, st) (list_elem_of_here _ _)) as H3. cbn in H1, H2, H3, Hmax.
  assert (Hd : forall k st, 0 <= other_deficit limits key k st).
  { intros. unfold other_deficit, deficit, share. case_bool_decide; lia. }
  pose proof (Hd k st).
  assert (0 <= lsum (fun p => other_deficit limits key p.1 p.2) l)
    by (apply lsum_nonneg; intros; apply Hd).
  assert (E : reserved_step key (sl_ProtectedSlotsPerKey limits) (Some r) (k, st)
              = Some (r + other_deficit limits key k st)).
  { unfold reserved_step, other_deficit, deficit, share in *. cbn.
    case_bool_decide; [f_equal; lia|]. unfold occ in *.
    rewrite checked_add_ok by lia. cbn. destruct (Z.ltb_spec (as_queued st + as_dependents st)
      (sl_ProtectedSlotsPerKey limits)); [|f_equal; lia].
    rewrite checked_add_ok by lia. f_equal. lia. }
  rewrite E, IH; [f_equal; cbn; lia|lia|intros p Hp; apply Hn; by right
    |intros p Hp; apply Ho; by right|lia].
Qed.

(** What [checkAdmissionCount] decides, in terms of the books. *)
Definition admissible (s : EndpointScheduler) (key : AdmissionKey) (count : Z) : Prop :=
  let limits := es_limits s in
  let before := from_option occ 0 (es_keys s !! key) in
  let others := ksum (fun _ => share limits) (delete key (es_keys s)) in
  let inactive := sl_MaxActiveAdmissionKeys limits
                  - Z.of_nat (size (delete key (es_keys s))) - 1 in
  0 < count /\
  0 <= inactive /\
  before + count <= sl_MaxQueuedPerKey limits /\
  ksum (scope_occ (ak_AuthorizationScope key)) (es_keys s) + count
    <= sl_MaxQueuedPerAuthorizationScope limits /\
  others + (before + count) + inactive * sl_ProtectedSlotsPerKey limits
    <= sl_TotalQueued limits.

Lemma key_nonneg limits m keys n x key st :
  books_ok limits m keys n x -> keys !! key = Some st ->
  0 <= as_queued st /\ 0 <= as_dependents st /\ 0 <= as_inFlight st /\ 0 <= occ st.
Proof.
  intros Hb Hk. pose proof (bk_key _ _ _ _ _ Hb _ _ Hk) as Ho.
  pose proof (weights_nonneg _ _ _ _ (fun id e H => proj1 (bk_entry _ _ _ _ _ Hb id e H)) Ho).
  rewrite (ko_inFlight _ _ _ _ Ho). pose proof (flights_nonneg key m).
  unfold occ. rewrite (ko_queued _ _ _ _ Ho).
  pose proof (ko_dependents _ _ _ _ Ho). lia.
Qed.

Lemma delete_absent {V} (m : gmap AdmissionKey V) key : m !! key = None -> delete key m = m.
Proof. apply delete_id. Qed.

Lemma ksum_ext_delete (f g : AdmissionKey -> admissionState -> Z) m key :
  (forall k st, k <> key -> f k st = g k st) -> ksum f (delete key m) = ksum g (delete key m).
Proof.
  intros H. apply Z.le_antisymm; apply ksum_le;
    intros k st [Hne _]%lookup_delete_Some; rewrite H; lia || congruence.
Qed.

(** The sums of the books, with the part of [key] set apart. *)
Lemma split_key (keys : gmap AdmissionKey admissionState) key limits :
  let before := from_option occ 0 (keys !! key) in
  let rest := delete key keys in
  ksum (fun _ => occ) keys = before + ksum (fun _ => occ) rest /\
  ksum (other_deficit limits key) keys = ksum (fun _ => deficit limits) rest /\
  ksum (fun _ => share limits) keys
  = from_option (share limits) 0 (keys !! key) + ksum (fun _ => share limits) rest /\
  Z.of_nat (size keys) = Z.of_nat (size rest) + (if bool_decide (is_Some (keys !! key)) then 1 else 0).
Proof.
  cbv zeta. assert (Hd : ksum (other_deficit limits key) (delete key keys)
                         = ksum (fun _ => deficit limits) (delete key keys)).
  { apply ksum_ext_delete. intros. unfold other_deficit. by rewrite bool_decide_false. }
  destruct (keys !! key) as [st|] eqn:E; cbn.
  - rewrite !(ksum_delete _ keys key st E), Hd.
    rewrite (map_size_delete_Some keys key st E). unfold other_deficit.
    rewrite bool_decide_true by done. lia.
  - rewrite (delete_id keys key E) in *. lia.
Qed.

Lemma deficits_bound limits keys :
  0 < sl_ProtectedSlotsPerKey limits ->
  (forall key st, keys !! key = Some st -> 0 <= occ st) ->
  0 <= ksum (fun _ : AdmissionKey => deficit limits) keys
    <= Z.of_nat (size keys) * sl_ProtectedSlotsPerKey limits /\
  ksum (fun _ : AdmissionKey => share limits) keys
  = ksum (fun _ => occ) keys + ksum (fun _ => deficit limits) keys.
Proof.
  intros HP Hn. split; [split|].
  - apply ksum_nonneg. intros. unfold deficit, share. lia.
  - rewrite <- (ksum_const (sl_ProtectedSlotsPerKey limits) keys). apply ksum_le.
    intros k st Hk. specialize (Hn _ _ Hk). unfold deficit, share. lia.
  - rewrite <- ksum_plus. apply Z.le_antisymm; apply ksum_le; intros; unfold deficit; lia.
Qed.

(** The sums [checkAdmissionCount] computes, from the books. *)
Lemma books_sums limits m keys n x key :
  limits_ok limits -> books_ok limits m keys n x ->
  let before := from_option occ 0 (keys !! key) in
  let rest := delete key keys in
  let total := ksum (fun _ : AdmissionKey => occ) keys in
  let reserved := ksum (other_deficit limits key) keys in
  0 <= before <= sl_MaxQueuedPerKey limits /\
  0 <= total <= sl_TotalQueued limits /\
  0 <= ksum (scope_occ (ak_AuthorizationScope key)) keys
    <= sl_MaxQueuedPerAuthorizationScope limits /\
  0 <= reserved <= Z.of_nat (size rest) * sl_ProtectedSlotsPerKey limits /\
  total + reserved = before + ksum (fun _ => share limits) rest.
Proof.
  intros Hlim Hb. cbv zeta. pose proof (limits_facts _ Hlim) as Hl.
  assert (Hnn : forall k st, keys !! k = Some st -> 0 <= occ st).
  { intros k st Hk. apply (key_nonneg _ _ _ _ _ _ _ Hb) in Hk. lia. }
  destruct (split_key keys key limits) as (Et & Er & _ & _).
  destruct (deficits_bound limits keys) as [Hd Eshare]; [lia|done|].
  destruct (deficits_bound limits (delete key keys)) as [Hdef Eshare'];
    [lia|by intros k st [_ Hk%Hnn]%lookup_delete_Some|].
  pose proof (bk_active _ _ _ _ _ Hb). pose proof (bk_total _ _ _ _ _ Hb).
  assert (0 <= (sl_MaxActiveAdmissionKeys limits - Z.of_nat (size keys))
               * sl_ProtectedSlotsPerKey limits) by nia.
  conj; try lia.
  - destruct (keys !! key) as [st|] eqn:E; cbn; [by eapply Hnn|lia].
  - destruct (keys !! key) as [st|] eqn:E; cbn; [|lia]. by apply (bk_key _ _ _ _ _ Hb) in E as [].
  - by apply ksum_nonneg.
  - apply ksum_nonneg. intros k st Hk%Hnn. unfold scope_occ. destruct (String.eqb _ _); lia.
  - by eapply bk_scope.
Qed.

Lemma occupation_books limits m keys n x scope :
  limits_ok limits -> books_ok limits m keys n x ->
  foldl (occupation_step scope) (Some (0, 0)) (map_to_list keys)
  = Some (ksum (fun _ => occ) keys, ksum (scope_occ scope) keys).
Proof.
  intros Hlim Hb. rewrite occupation_fold; [done|lia| |].
  - intros [k st] Hp%elem_of_map_to_list.
    by destruct (key_nonneg _ _ _ _ _ _ _ Hb Hp) as (? & ? & _).
  - destruct (books_sums _ _ _ _ _ (mkAdmissionKey scope 0) Hlim Hb) as (_ & Ht & _).
    pose proof (limits_facts _ Hlim). unfold ksum in Ht. lia.
Qed.

Lemma reserved_books limits m keys n x key positions :
  limits_ok limits -> books_ok limits m keys n x ->
  0 <= positions -> Z.of_nat (size (delete key keys)) + positions < sl_MaxActiveAdmissionKeys limits ->
  foldl (reserved_step key (sl_ProtectedSlotsPerKey limits))
    (Some (positions * sl_ProtectedSlotsPerKey limits)) (map_to_list keys)
  = Some (positions * sl_ProtectedSlotsPerKey limits + ksum (other_deficit limits key) keys) /\
  positions * sl_ProtectedSlotsPerKey limits + ksum (other_deficit limits key) keys
  <= sl_TotalQueued limits.
Proof.
  intros Hlim Hb H0 Hpos. pose proof (limits_facts _ Hlim) as Hl.
  destruct (books_sums _ _ _ _ _ key Hlim Hb) as (_ & _ & _ & Hr & _).
  assert (positions * sl_ProtectedSlotsPerKey limits + ksum (other_deficit limits key) keys
          <= sl_TotalQueued limits) by nia.
  split; [|done]. apply reserved_fold; [nia| | |].
  - intros [k st] Hp%elem_of_map_to_list.
    by destruct (key_nonneg _ _ _ _ _ _ _ Hb Hp) as (? & ? & _).
  - intros [k st] Hp%elem_of_map_to_list. apply (bk_key _ _ _ _ _ Hb) in Hp as []. cbn. lia.
  - unfold ksum in *. lia.
Qed.

Lemma key_occupation limits m keys n x key :
  limits_ok limits -> books_ok limits m keys n x ->
  (match keys !! key with
   | Some st => checkedAdmissionAdd (as_queued st) (as_dependents st)
   | None => Some 0
   end ≫= checkedAdmissionRemaining (sl_MaxQueuedPerKey limits))
  = Some (sl_MaxQueuedPerKey limits - from_option occ 0 (keys !! key)).
Proof.
  intros Hlim Hb. pose proof (limits_facts _ Hlim) as Hl.
  destruct (books_sums _ _ _ _ _ key Hlim Hb) as (Hk & _).
  destruct (keys !! key) as [st|] eqn:E; cbn in *.
  - destruct (key_nonneg _ _ _ _ _ _ _ Hb E) as (? & ? & _). unfold occ in *.
    rewrite checked_add_ok by lia. cbn. by rewrite checked_remaining_ok by lia.
  - by rewrite checked_remaining_ok by lia.
Qed.

Lemma check_admission_iff s key count x :
  limits_ok (es_limits s) ->
  books_ok (es_limits s) (es_entries s) (es_keys s) (es_inFlight s) x ->
  checkAdmissionCount s key (bool_decide (is_Some (es_keys s !! key))) count = None <->
  admissible s key count.
Proof.
  intros Hlim Hb. pose proof (limits_facts _ Hlim) as Hl.
  destruct (books_sums _ _ _ _ _ key Hlim Hb) as (Hk & Ht & Hs & Hr & Esum).
  destruct (split_key (es_keys s) key (es_limits s)) as (_ & _ & _ & Esize).
  pose proof (bk_active _ _ _ _ _ Hb) as Hact.
  unfold checkAdmissionCount, admissible, key_count.
  rewrite (key_occupation _ _ _ _ _ key Hlim Hb), (occupation_books _ _ _ _ _ _ Hlim Hb).
  rewrite !checked_remaining_ok by lia.
  destruct (Z.leb_spec count 0); [split; [done|lia]|].
  set (positions := sl_MaxActiveAdmissionKeys (es_limits s)
    - Z.of_nat (size (delete key (es_keys s))) - 1) in *.
  assert (E1 : (if bool_decide (is_Some (es_keys s !! key)) then Z.of_nat (size (es_keys s))
                else Z.of_nat (size (es_keys s)) + 1)
               = sl_MaxActiveAdmissionKeys (es_limits s) - positions).
  { unfold positions. destruct (bool_decide _); lia. }
  rewrite E1. replace (sl_MaxActiveAdmissionKeys (es_limits s)
    - (sl_MaxActiveAdmissionKeys (es_limits s) - positions)) with positions by lia.
  destruct (decide (0 <= positions)) as [Hp|Hp].
  - destruct (reserved_books _ _ _ _ _ key positions Hlim Hb Hp) as [-> Hres];
      [unfold positions; lia|].
    cbn [mbind option_bind]. rewrite checked_remaining_ok by nia.
    replace (negb _ && _) with false.
    2: { symmetry. destruct (bool_decide _); [done|]. cbn. bool_goal. lia. }
    unfold checkedAdmissionRemaining. repeat case_test; bool_hyps; split; try done; lia.
  - split; [|lia]. repeat case_test; try done; bool_hyps; lia.
Qed.

(** * The invariant *)

(** A sound scheduler, but for the key in [x], which may be empty. *)
Record sound (x : option AdmissionKey) (s : EndpointScheduler) : Prop := mk_sound {
  so_limits : limits_ok (es_limits s);
  so_books : books_ok (es_limits s) (es_entries s) (es_keys s) (es_inFlight s) x;
  so_order : ordered s
}.

Definition sched_ok (s : EndpointScheduler) : Prop := sound None s.

Lemma flights_absent key m :
  (forall id e, m !! id = Some e -> entry_key e = key -> se_state e <> scheduledInFlight) ->
  flights key m = 0.
Proof.
  intros H. apply Z.le_antisymm; [|apply flights_nonneg]. unfold flights.
  rewrite <- (ksum_empty (K:=Z) (fun _ (e : scheduledEntry) =>
    if decide (se_state e = scheduledInFlight /\ entry_key e = key) then 1 else 0)).
  apply ksum_indicator_subset. intros id e [Hst Hk] Hl. by destruct (H id e Hl Hk).
Qed.

Lemma flights_zero key m id e :
  flights key m = 0 -> m !! id = Some e -> entry_key e = key -> se_state e <> scheduledInFlight.
Proof.
  intros H0 Hl Hk Hst. unfold flights in H0.
  assert (Hle : (if decide (se_state e = scheduledInFlight /\ entry_key e = key) then 1 else 0)
          <= flights key m).
  { apply (ksum_lookup (fun _ (e : scheduledEntry) =>
      if decide (se_state e = scheduledInFlight /\ entry_key e = key) then 1 else 0) m id e);
      [|done]. intros. case_decide; lia. }
  rewrite decide_True in Hle by done. unfold flights in Hle. lia.
Qed.

Lemma empty_key_facts limits m key st :
  key_ok limits m key st -> key_is_empty st = true ->
  as_inFlight st = 0 /\ occ st = 0 /\ forall id e, m !! id = Some e -> entry_id e = id ->
    entry_key e <> key.
Proof.
  intros [Hq _ Hw _ Hf _] He. unfold key_is_empty in He. bool_hyps.
  match goal with H : zlen _ = 0 |- _ => apply zlen_zero in H; rewrite H in Hq, Hw end.
  unfold occ. rewrite Hw. cbn. conj; [done|lia|]. intros id e Hl Hid Hk.
  destruct (se_state e) eqn:Es.
  - assert (Hin : e ∈ @nil scheduledEntry) by (apply Hq; by rewrite Hid).
    by apply not_elem_of_nil in Hin.
  - apply (flights_zero key m id e); congruence.
Qed.

Lemma books_forget_key limits m keys n key st :
  books_ok limits m keys n (Some key) -> keys !! key = Some st -> key_is_empty st = true ->
  0 < sl_ProtectedSlotsPerKey limits -> books_ok limits m (delete key keys) n None.
Proof.
  intros Hb Hk He HP.
  destruct (empty_key_facts _ _ _ _ (bk_key _ _ _ _ _ Hb _ _ Hk) He) as (Hf & Ho & Hno).
  pose proof (map_size_delete_Some keys key st Hk) as Hsize. constructor.
  - intros id e Hl. destruct (bk_entry _ _ _ _ _ Hb _ _ Hl) as [Hok Hs]. split; [done|].
    rewrite lookup_delete_ne; [done|]. intros Ek. eapply Hno; [done|apply Hok|done].
  - intros k st' [_ Hl]%lookup_delete_Some. by eapply bk_key.
  - intros k st' [Hne Hl]%lookup_delete_Some _. eapply bk_live; [done..|]. congruence.
  - rewrite (bk_inFlight _ _ _ _ _ Hb), (ksum_delete _ _ _ _ Hk). lia.
  - by eapply bk_maxInFlight.
  - pose proof (bk_active _ _ _ _ _ Hb). lia.
  - intros scope. pose proof (bk_scope _ _ _ _ _ Hb scope) as Hs.
    rewrite (ksum_delete _ _ _ _ Hk) in Hs. unfold scope_occ in Hs at 1.
    destruct (String.eqb _ _); lia.
  - pose proof (bk_total _ _ _ _ _ Hb) as Ht. rewrite (ksum_delete _ _ _ _ Hk) in Ht.
    unfold share in Ht at 1. rewrite Hsize in Ht. lia.
Qed.

Lemma forgetOrder_fields s key :
  es_limits (forgetOrder s key) = es_limits s /\ es_entries (forgetOrder s key) = es_entries s /\
  es_keys (forgetOrder s key) = es_keys s /\ es_inFlight (forgetOrder s key) = es_inFlight s /\
  es_coalesced (forgetOrder s key) = es_coalesced s.
Proof.
  unfold forgetOrder. destruct (index_of _ _); [|done]. case_test; [done|].
  by destruct (index_of _ _).
Qed.

Lemma release_ok s key :
  sound (Some key) s ->
  sched_ok (releaseIfEmpty s key) /\
  sublist (scope_rotation (releaseIfEmpty s key)) (scope_rotation s).
Proof.
  intros [Hl Hb Ho]. unfold releaseIfEmpty.
  destruct (es_keys s !! key) as [st|] eqn:Ek; [destruct (key_is_empty st) eqn:Ee|].
  - destruct (forgetOrder_fields (set_keys s (delete key (es_keys s))) key)
      as (E1 & E2 & E3 & E4 & _).
    destruct (forget_ok (dom (es_keys s)) key (set_keys s (delete key (es_keys s)))) as [Ho' Hr];
      [done|apply elem_of_dom; eauto|].
    split; [|done]. constructor.
    + by rewrite E1.
    + rewrite E1, E2, E3, E4. cbn. eapply books_forget_key; [done..|].
      by apply limits_facts in Hl as (_ & ? & _).
    + unfold ordered. rewrite E3. cbn. by rewrite dom_delete_L.
  - split; [|done]. constructor; try done. destruct Hb. constructor; try done.
    intros k st' Hk _. destruct (decide (k = key)) as [->|]; [congruence|]. eapply bk_live0; [done|]. congruence.
  - split; [|done]. constructor; try done. destruct Hb. constructor; try done.
    intros k st' Hk _. eapply bk_live0; [done|]. congruence.
Qed.

Lemma rememberOrder_fields s key :
  es_limits (rememberOrder s key) = es_limits s /\
  es_entries (rememberOrder s key) = es_entries s /\
  es_keys (rememberOrder s key) = es_keys s /\ es_inFlight (rememberOrder s key) = es_inFlight s /\
  es_scopeCursor (rememberOrder s key) = es_scopeCursor s /\
  es_coalesced (rememberOrder s key) = es_coalesced s.
Proof. unfold rememberOrder. by repeat case_bool_decide. Qed.

(** A new key takes one of the free positions and starts empty. *)
Lemma books_new_key limits m keys n key :
  books_ok limits m keys n None -> keys !! key = None ->
  limits_ok limits -> Z.of_nat (size keys) < sl_MaxActiveAdmissionKeys limits ->
  books_ok limits m (<[key := no_admissions]> keys) n (Some key).
Proof.
  intros Hb Hk Hlim Hsize. pose proof (limits_facts _ Hlim) as Hl.
  assert (Hno : forall id e, m !! id = Some e -> entry_key e <> key).
  { intros id e He Ek. apply (bk_entry _ _ _ _ _ Hb) in He as [_ [st' E]]. congruence. }
  assert (Hs' : size (<[key := no_admissions]> keys) = S (size keys))
    by (by apply map_size_insert_None).
  constructor.
  - intros id e He. rewrite lookup_insert_ne by (symmetry; by eapply Hno). by eapply bk_entry.
  - intros k st [[<- <-]|[Hne Hl']]%lookup_insert_Some; [|by eapply bk_key].
    constructor; cbn; try lia; try done.
    + intros e. split; [by intros ?%not_elem_of_nil|]. intros (He & _ & Ek).
      by destruct (Hno _ _ He).
    + constructor.
    + symmetry. apply flights_absent. intros id e He Ek. by destruct (Hno _ _ He).
    + unfold occ. cbn. lia.
  - intros k st [[<- <-]|[Hne Hl']]%lookup_insert_Some; [done|]. intros _. by eapply bk_live.
  - rewrite ksum_insert_new by done. cbn. rewrite (bk_inFlight _ _ _ _ _ Hb). lia.
  - by eapply bk_maxInFlight.
  - rewrite Hs'. lia.
  - intros scope. rewrite ksum_insert_new by done. unfold scope_occ at 1, occ. cbn.
    pose proof (bk_scope _ _ _ _ _ Hb scope). destruct (String.eqb _ _); lia.
  - rewrite ksum_insert_new by done. rewrite Hs'. unfold share at 1, occ. cbn [as_queued as_dependents no_admissions].
    pose proof (bk_total _ _ _ _ _ Hb). lia.
Qed.

Lemma activate_ok s key :
  sched_ok s -> es_keys s !! key = None ->
  Z.of_nat (size (es_keys s)) < sl_MaxActiveAdmissionKeys (es_limits s) ->
  sound (Some key) (rememberOrder (set_key s key no_admissions) key).
Proof.
  intros [Hl Hb Ho] Hk Hsize.
  destruct (rememberOrder_fields (set_key s key no_admissions) key) as (E1 & E2 & E3 & E4 & E5 & _).
  constructor.
  - by rewrite E1.
  - rewrite E1, E2, E3, E4. cbn. by apply books_new_key.
  - unfold ordered. rewrite E3. cbn. rewrite dom_insert_L. apply remember_ok; [done|].
    rewrite elem_of_dom, Hk. by intros [].
Qed.

(** * Changes of one key *)

Lemma sound_live s key st :
  sound (Some key) s -> es_keys s !! key = Some st -> key_is_empty st = false -> sched_ok s.
Proof.
  intros [Hl Hb Ho] Hk He. constructor; try done. destruct Hb. constructor; try done.
  intros k st' Hk' _. destruct (decide (k = key)) as [->|]; [congruence|].
  eapply bk_live0; [done|]. congruence.
Qed.

Lemma sound_weaken key s : sched_ok s -> sound (Some key) s.
Proof.
  intros [Hl Hb Ho]. constructor; try done. destruct Hb. constructor; try done.
  intros k st Hk _. by eapply bk_live0.
Qed.

Lemma elsewhere_insert key m e :
  entry_key e = key -> (forall e0, m !! entry_id e = Some e0 -> entry_key e0 = key) ->
  same_elsewhere key m (<[entry_id e := e]> m).
Proof.
  intros Hk H0 id e' Hne. destruct (decide (id = entry_id e)) as [->|].
  - rewrite lookup_insert_eq. split; [|congruence]. intros Hl. by destruct (Hne (H0 _ Hl)).
  - by rewrite lookup_insert_ne.
Qed.

Lemma elsewhere_delete key m id :
  (forall e0, m !! id = Some e0 -> entry_key e0 = key) -> same_elsewhere key m (delete id m).
Proof.
  intros H0 i e' Hne. destruct (decide (i = id)) as [->|].
  - rewrite lookup_delete_eq. split; [|done]. intros Hl. by destruct (Hne (H0 _ Hl)).
  - by rewrite lookup_delete_ne.
Qed.

Lemma elsewhere_refl key m : same_elsewhere key m m.
Proof. done. Qed.

Lemma weights_app a b : weights (a ++ b) = weights a + weights b.
Proof. apply lsum_app. Qed.

(** An entry joins the tail of the queue. *)
Lemma push_key limits m key st e :
  key_ok limits m key st -> entry_key e = key -> se_state e = scheduledQueued ->
  (forall e0, m !! entry_id e = Some e0 -> se_state e0 = scheduledInFlight) ->
  occ st + se_admissionWeight e <= sl_MaxQueuedPerKey limits ->
  key_ok limits (<[entry_id e := e]> m) key
    {| as_queue := as_queue st ++ [e]; as_queued := as_queued st + se_admissionWeight e;
       as_inFlight := flights key (<[entry_id e := e]> m); as_dependents := as_dependents st |}.
Proof.
  intros [Hq Hn Hw Hd Hf Hl] Hk Hs H0 Hocc.
  assert (Hfresh : forall e', e' ∈ as_queue st -> entry_id e' <> entry_id e).
  { intros e' (Hl' & Hs' & _)%Hq Eid. rewrite Eid in Hl'. apply H0 in Hl'. congruence. }
  constructor; cbn; try done.
  - intros e'. rewrite elem_of_app, list_elem_of_singleton. split.
    + intros [Hin| ->]; [|by rewrite lookup_insert_eq].
      rewrite lookup_insert_ne by (symmetry; by apply Hfresh). by apply Hq.
    + intros ([[_ <-]|[Hne Hl']]%lookup_insert_Some & Hs' & Hk'); [by right|].
      left. by apply Hq.
  - rewrite fmap_app. apply NoDup_app. split; [done|]. split; [|apply NoDup_singleton].
    intros i (e' & -> & Hin)%list_elem_of_fmap Ei%list_elem_of_singleton.
    by apply (Hfresh e').
  - rewrite weights_app, Hw. cbn. lia.
  - unfold occ in *. cbn. lia.
Qed.

Lemma weights_sublist a b :
  (forall e, e ∈ b -> 0 <= se_admissionWeight e) -> sublist a b -> weights a <= weights b.
Proof.
  intros Hn Hs. unfold weights. induction Hs as [|e a b Hs IH|e a b Hs IH]; cbn; [lia|..].
  - assert (forall e', e' ∈ b -> 0 <= se_admissionWeight e')
      by (intros; apply Hn; by apply elem_of_cons; right).
    specialize (IH ltac:(done)). lia.
  - assert (0 <= se_admissionWeight e) by (apply Hn, elem_of_cons; by left).
    assert (forall e', e' ∈ b -> 0 <= se_admissionWeight e')
      by (intros; apply Hn; by apply elem_of_cons; right).
    specialize (IH ltac:(done)). lia.
Qed.

(** Some queued entries leave the queue, and the entries change accordingly. *)
Lemma narrow_key limits m m' key st queue dependents :
  key_ok limits m key st -> sublist queue (as_queue st) ->
  (forall e, e ∈ as_queue st -> e ∈ queue <-> m' !! entry_id e = Some e) ->
  (forall id e, m' !! id = Some e -> se_state e = scheduledQueued -> entry_key e = key ->
     m !! id = Some e) ->
  0 <= dependents <= sl_MaxCoalescedDependentsPerKey limits ->
  weights queue + dependents <= sl_MaxQueuedPerKey limits ->
  key_ok limits m' key
    {| as_queue := queue; as_queued := weights queue; as_inFlight := flights key m';
       as_dependents := dependents |}.
Proof.
  intros [Hq Hn Hw Hd Hf Hl] Hs Hm Hm' Hdep Hocc. constructor; cbn; try done.
  - intros e. split.
    + intros Hin. assert (Hin' : e ∈ as_queue st) by (by eapply sublist_subseteq).
      pose proof (proj1 (Hm e Hin') Hin) as He. by apply Hq in Hin' as (_ & ? & ?).
    + intros (He & Hst & Hk). pose proof (Hm' _ _ He Hst Hk) as He'.
      apply Hm; [|done]. by apply Hq.
  - eapply sublist_NoDup; [exact Hn|]. by apply fmap_sublist.
Qed.

(** The books after [key] grew by an admissible amount. *)
Lemma books_grow s x key st st' m' count :
  limits_ok (es_limits s) ->
  books_ok (es_limits s) (es_entries s) (es_keys s) (es_inFlight s) x ->
  es_keys s !! key = Some st -> x = None \/ x = Some key ->
  same_elsewhere key (es_entries s) m' ->
  (forall id e, m' !! id = Some e -> entry_key e = key -> entry_ok (es_limits s) id e) ->
  key_ok (es_limits s) m' key st' -> as_inFlight st' <= as_inFlight st ->
  admissible s key count -> occ st' = occ st + count ->
  books_ok (es_limits s) m' (<[key := st']> (es_keys s))
    (es_inFlight s + as_inFlight st' - as_inFlight st) (Some key).
Proof.
  intros Hlim Hb Hk Hx Hs He Hk' Hf (Hc & _ & _ & Hsc & Htot) Hocc.
  pose proof (map_size_delete_Some _ _ _ Hk) as Hsize.
  rewrite Hk in Htot. cbn in Htot.
  eapply books_update; try done.
  - pose proof (bk_maxInFlight _ _ _ _ _ Hb). lia.
  - lia.
  - pose proof (bk_total _ _ _ _ _ Hb) as Ht. rewrite Hsize in *.
    rewrite (ksum_delete _ _ _ _ Hk) in *.
    replace (sl_MaxActiveAdmissionKeys (es_limits s) - Z.of_nat (S (size (delete key (es_keys s)))))
      with (sl_MaxActiveAdmissionKeys (es_limits s) - Z.of_nat (size (delete key (es_keys s))) - 1)
      in * by lia.
    assert (share (es_limits s) st' = occ st + count \/
            share (es_limits s) st' <= share (es_limits s) st) by (unfold share; lia).
    lia.
Qed.

Lemma admissible_activate s key count :
  es_keys s !! key = None -> admissible s key count ->
  admissible (rememberOrder (set_key s key no_admissions) key) key count.
Proof.
  intros Hk. destruct (rememberOrder_fields (set_key s key no_admissions) key)
    as (E1 & _ & E3 & _). unfold admissible. rewrite E1, E3. cbn.
  rewrite lookup_insert_eq, Hk, delete_insert_eq, (delete_id _ _ Hk), ksum_insert_new by done.
  cbn. unfold scope_occ at 2, occ at 2. cbn. by destruct (String.eqb _ _).
Qed.

(** * Admission keeps the invariant *)

Definition same_order (s s' : EndpointScheduler) : Prop :=
  es_scopeOrder s' = es_scopeOrder s /\ es_scopeCursor s' = es_scopeCursor s /\
  es_unitOrder s' = es_unitOrder s /\ es_unitCursor s' = es_unitCursor s.

(** New books under the same keys and orders. *)
Lemma sound_books x0 x s s' :
  sound x0 s -> es_limits s' = es_limits s -> same_order s s' ->
  dom (es_keys s') = dom (es_keys s) ->
  books_ok (es_limits s) (es_entries s') (es_keys s') (es_inFlight s') x -> sound x s'.
Proof.
  intros [Hl Hb Ho] El (E1 & E2 & E3 & E4) Hd Hb'. constructor; rewrite ?El; try done.
  unfold ordered. by rewrite Hd, E1, E2, E3, E4.
Qed.

Lemma dom_update (keys : gmap AdmissionKey admissionState) key st st' :
  keys !! key = Some st -> dom (<[key := st']> keys) = dom keys.
Proof. intros Hk. apply dom_insert_lookup_L. eauto. Qed.

Lemma flights_push key m e e0 :
  se_state e = scheduledQueued -> m !! entry_id e = Some e0 ->
  se_state e0 = scheduledInFlight -> entry_key e0 = key ->
  flights key (<[entry_id e := e]> m) = flights key m - 1.
Proof.
  intros Hs Hl Hs0 Hk0. unfold flights. rewrite (ksum_insert _ _ _ e0) by done.
  rewrite decide_True by done. rewrite decide_False by (intros []; congruence). lia.
Qed.

Lemma flights_push_new key m e :
  se_state e = scheduledQueued -> m !! entry_id e = None ->
  flights key (<[entry_id e := e]> m) = flights key m.
Proof.
  intros Hs Hl. unfold flights. rewrite ksum_insert_new by done.
  rewrite decide_False by (intros []; congruence). lia.
Qed.

Lemma entries_insert_ok limits m keys n x key e :
  books_ok limits m keys n x -> entry_ok limits (entry_id e) e ->
  forall id e', <[entry_id e := e]> m !! id = Some e' -> entry_key e' = key -> entry_ok limits id e'.
Proof.
  intros Hb He id e' [[<- <-]|[_ Hl]]%lookup_insert_Some _; [done|].
  by apply (bk_entry _ _ _ _ _ Hb) in Hl as [? _].
Qed.

Lemma entries_delete_ok limits m keys n x key id0 :
  books_ok limits m keys n x ->
  forall id e', delete id0 m !! id = Some e' -> entry_key e' = key -> entry_ok limits id e'.
Proof.
  intros Hb id e' [_ Hl]%lookup_delete_Some _.
  by apply (bk_entry _ _ _ _ _ Hb) in Hl as [? _].
Qed.

Definition appended (st : admissionState) (e : scheduledEntry) : admissionState :=
  {| as_queue := as_queue st ++ [e]; as_queued := as_queued st + se_admissionWeight e;
     as_inFlight := as_inFlight st; as_dependents := as_dependents st |}.

Lemma nonempty_queue_live st a e :
  as_queue st = a ++ [e] -> key_is_empty st = false.
Proof.
  intros E. unfold key_is_empty. rewrite E. zlen_simpl. pose proof (zlen_nonneg a).
  by test_false (zlen a + (1 + 0) =? 0).
Qed.

(** A new entry appended to the queue of an active key. *)
Lemma append_ok s s' key st e :
  sound (Some key) s -> es_keys s !! key = Some st -> es_entries s !! entry_id e = None ->
  entry_key e = key -> se_state e = scheduledQueued -> entry_ok (es_limits s) (entry_id e) e ->
  (se_admissionWeight e = 0 \/ admissible s key (se_admissionWeight e)) ->
  es_limits s' = es_limits s -> same_order s s' -> es_inFlight s' = es_inFlight s ->
  es_entries s' = <[entry_id e := e]> (es_entries s) ->
  es_keys s' = <[key := appended st e]> (es_keys s) -> sched_ok s'.
Proof.
  intros Hs Hk Hnew Hke Hst He Hadm El Eo Ef Ee Ek. pose proof Hs as [Hlim Hb _].
  pose proof (bk_key _ _ _ _ _ Hb _ _ Hk) as Hok.
  assert (Hok' : key_ok (es_limits s) (es_entries s') key (appended st e)).
  { rewrite Ee. unfold appended. rewrite (ko_inFlight _ _ _ _ Hok).
    rewrite <- (flights_push_new key _ e Hst Hnew). apply push_key; try done; [congruence|].
    destruct Hadm as [->|(_ & _ & Hk' & _)]; [pose proof (ko_limit _ _ _ _ Hok); lia|].
    rewrite Hk in Hk'. cbn in Hk'. done. }
  apply (sound_live s' key (appended st e)); [|by rewrite Ek, lookup_insert_eq|by eapply nonempty_queue_live].
  eapply sound_books; [exact Hs|done..|by rewrite Ek, (dom_update _ _ st)|].
  assert (Hels : same_elsewhere key (es_entries s) (es_entries s')).
  { rewrite Ee. apply elsewhere_insert; [done|]. intros e0 E0. congruence. }
  assert (Hall : forall id e', es_entries s' !! id = Some e' -> entry_key e' = key ->
            entry_ok (es_limits s) id e').
  { rewrite Ee. by eapply entries_insert_ok. }
  rewrite Ek, Ef. destruct Hadm as [H0|Hadm].
  - eapply books_shrink; try done; [by right| |by eapply bk_maxInFlight|].
    + cbn. lia.
    + unfold occ, appended. cbn. lia.
  - replace (es_inFlight s) with (es_inFlight s + as_inFlight (appended st e) - as_inFlight st)
      by (cbn; lia).
    eapply books_grow; try done; [by right|unfold occ, appended; cbn; lia].
Qed.

(** The state after the key of a new request is made active. *)
Definition activated (s : EndpointScheduler) (key : AdmissionKey) : EndpointScheduler :=
  if bool_decide (is_Some (es_keys s !! key)) then s
  else rememberOrder (set_key s key (default no_admissions (es_keys s !! key))) key.

Lemma activated_facts s key count :
  sched_ok s -> admissible s key count ->
  sound (Some key) (activated s key) /\
  es_keys (activated s key) !! key = Some (default no_admissions (es_keys s !! key)) /\
  admissible (activated s key) key count /\
  es_limits (activated s key) = es_limits s /\ es_entries (activated s key) = es_entries s /\
  es_inFlight (activated s key) = es_inFlight s.
Proof.
  intros Hs Hadm. unfold activated. case_bool_decide as Hact.
  - destruct Hact as [st E]. rewrite E. conj; try done. by apply sound_weaken.
  - assert (E : es_keys s !! key = None) by (by apply eq_None_not_Some). rewrite E. cbn [from_option].
    destruct (rememberOrder_fields (set_key s key no_admissions) key) as (E1 & E2 & E3 & E4 & _).
    conj.
    + apply activate_ok; [done..|]. destruct Hadm as (_ & H & _). rewrite (delete_id _ _ E) in H. lia.
    + rewrite E3. cbn. by rewrite lookup_insert_eq.
    + by apply admissible_activate.
    + done.
    + done.
    + done.
Qed.

Definition new_entry (s : EndpointScheduler) (request : ScheduledRequest) (group : option Z)
    (weight : Z) : scheduledEntry :=
  {| se_request := request; se_sequence := wrap64 (es_nextSequence s + 1);
     se_state := scheduledQueued; se_retries := 0; se_admissionWeight := weight;
     se_coalesced := group |}.

Lemma new_entry_ok s request group weight :
  limits_ok (es_limits s) -> 0 <= weight <= 1 ->
  entry_ok (es_limits s) (sr_RequestID request) (new_entry s request group weight).
Proof. intros Hl Hw. pose proof (limits_facts _ Hl). constructor; cbn; [done|lia..]. Qed.

Lemma key_queued_int limits m keys n x key st :
  limits_ok limits -> books_ok limits m keys n x -> keys !! key = Some st ->
  0 <= as_queued st <= sl_TotalQueued limits.
Proof.
  intros Hl Hb Hk. pose proof (limits_facts _ Hl).
  pose proof (ko_limit _ _ _ _ (bk_key _ _ _ _ _ Hb _ _ Hk)).
  destruct (key_nonneg _ _ _ _ _ _ _ Hb Hk). unfold occ in *. lia.
Qed.

Lemma activated_sequence s key : es_nextSequence (activated s key) = es_nextSequence s.
Proof. unfold activated, rememberOrder. by repeat case_bool_decide. Qed.

(** The result of [enqueueLocked] on an admissible request. *)
Lemma enqueue_admitted s request group :
  sched_ok s -> es_entries s !! sr_RequestID request = None ->
  admissible s (sr_Key request) 1 ->
  exists s', enqueueLocked s request group 1 = (s', None) /\ sched_ok s' /\
    es_entries s' = <[sr_RequestID request := new_entry s request group 1]> (es_entries s) /\
    es_limits s' = es_limits s /\
    same_order (activated s (sr_Key request)) s'.
Proof.
  intros Hs Hnew Hadm. set (key := sr_Key request) in *.
  destruct (activated_facts _ _ _ Hs Hadm) as (Hs1 & Hk1 & Hadm1 & El & Ee & Ef).
  pose proof Hs as [Hlim Hb _].
  unfold enqueueLocked. rewrite Hnew. cbn [Z.gtb]. fold key.
  change (1 >? 0) with true. cbv iota.
  rewrite (proj2 (check_admission_iff s key 1 None Hlim Hb) Hadm).
  change (if bool_decide (is_Some (es_keys s !! key)) then s
          else rememberOrder (set_key s key (default no_admissions (es_keys s !! key))) key)
    with (activated s key).
  set (st := default no_admissions (es_keys s !! key)) in *.
  pose proof Hs1 as [Hlim1 Hb1 _].
  pose proof (key_queued_int _ _ _ _ _ _ _ Hlim1 Hb1 Hk1) as Hq.
  pose proof (limits_facts _ Hlim1) as Hl1. pose proof Hadm1 as (_ & _ & Hkl & _).
  rewrite Hk1 in Hkl. cbn in Hkl.
  rewrite checked_add_ok.
  2,3: lia. 2: { destruct (key_nonneg _ _ _ _ _ _ _ Hb1 Hk1). unfold occ in Hkl. lia. }
  set (e := new_entry s request group 1).
  eexists. split; [reflexivity|]. cbn [es_nextSequence set_sequence].
  rewrite activated_sequence.
  assert (Hgoal : forall s', es_limits s' = es_limits (activated s key) ->
    same_order (activated s key) s' -> es_inFlight s' = es_inFlight (activated s key) ->
    es_entries s' = <[entry_id e := e]> (es_entries (activated s key)) ->
    es_keys s' = <[key := appended st e]> (es_keys (activated s key)) -> sched_ok s').
  { intros s' H1 H2 H3 H4 H5. apply (append_ok (activated s key) s' key st e); try done.
    - by rewrite Ee.
    - rewrite El. by apply new_entry_ok.
    - by right. }
  destruct group as [g|].
  - split; [by apply Hgoal|]. cbn. by rewrite Ee.
  - split; [by apply Hgoal|]. cbn. by rewrite Ee.
Qed.

Lemma enqueue_refused s request group :
  sched_ok s -> ~ (es_entries s !! sr_RequestID request = None /\ admissible s (sr_Key request) 1) ->
  exists err, enqueueLocked s request group 1 = (s, Some err).
Proof.
  intros [Hlim Hb _] Hno. unfold enqueueLocked.
  destruct (es_entries s !! sr_RequestID request); [by eauto|].
  change (1 >? 0) with true. cbv iota.
  destruct (checkAdmissionCount _ _ _ _) eqn:E; [by eauto|].
  apply check_admission_iff with (x := None) in E; [|done..]. tauto.
Qed.

(** [enqueueLocked] with no weight, on a key that is active. *)
Lemma enqueue_weightless s request group st :
  sound (Some (sr_Key request)) s -> es_keys s !! sr_Key request = Some st ->
  es_entries s !! sr_RequestID request = None ->
  exists s', enqueueLocked s request (Some group) 0 = (s', None) /\ sched_ok s' /\
    es_entries s' = <[sr_RequestID request := new_entry s request (Some group) 0]> (es_entries s) /\
    es_limits s' = es_limits s /\ same_order s s'.
Proof.
  intros Hs Hk Hnew. pose proof Hs as [Hlim Hb _]. unfold enqueueLocked. rewrite Hnew.
  rewrite bool_decide_true by (rewrite Hk; eauto). change (0 >? 0) with false. cbv iota.
  rewrite Hk. cbn [from_option id].
  pose proof (key_queued_int _ _ _ _ _ _ _ Hlim Hb Hk). pose proof (limits_facts _ Hlim).
  rewrite checked_add_ok by lia.
  eexists. split; [reflexivity|]. split; [|done].
  eapply (append_ok s _ (sr_Key request) st (new_entry s request (Some group) 0)); try done.
  - by apply new_entry_ok.
  - by left.
Qed.

Lemma release_live s key st :
  sched_ok s -> es_keys s !! key = Some st -> releaseIfEmpty s key = s.
Proof.
  intros [_ Hb _] Hk. unfold releaseIfEmpty. rewrite Hk.
  by rewrite (bk_live _ _ _ _ _ Hb _ _ Hk).
Qed.

(** Changing the number of dependents only. *)
Lemma key_ok_dependents limits m key st dependents :
  key_ok limits m key st -> 0 <= dependents <= sl_MaxCoalescedDependentsPerKey limits ->
  as_queued st + dependents <= sl_MaxQueuedPerKey limits ->
  key_ok limits m key (with_dependents st dependents).
Proof. intros [] Hd Hl. by constructor. Qed.

Lemma dependents_grow s key st count :
  sound (Some key) s -> es_keys s !! key = Some st -> admissible s key count ->
  as_dependents st + count <= sl_MaxCoalescedDependentsPerKey (es_limits s) ->
  sound (Some key) (set_key s key (with_dependents st (as_dependents st + count))).
Proof.
  intros Hs Hk Hadm Hd. pose proof Hs as [Hlim Hb _].
  pose proof (bk_key _ _ _ _ _ Hb _ _ Hk) as Hok. pose proof Hadm as (Hc & _ & Hkl & _).
  rewrite Hk in Hkl. cbn in Hkl.
  eapply sound_books; [exact Hs|done|done|by apply (dom_update _ _ st)|].
  pose proof (ko_dependents _ _ _ _ Hok). cbn.
  replace (es_inFlight s) with (es_inFlight s
    + as_inFlight (with_dependents st (as_dependents st + count)) - as_inFlight st) by (cbn; lia).
  eapply books_grow; try done; [by right| | |].
  - intros id e Hl _. by apply (bk_entry _ _ _ _ _ Hb) in Hl as [? _].
  - apply key_ok_dependents; [done|lia|]. unfold occ in Hkl. lia.
  - unfold occ. cbn. lia.
Qed.

Lemma schedule_locked_spec s request intents group :
  sched_ok s -> 0 < zlen intents <= sl_MaxCoalescedDependentsPerKey (es_limits s) ->
  match scheduleCoalescedLocked s request intents group with
  | (s', None) =>
      sched_ok s' /\ es_limits s' = es_limits s /\ same_order (activated s (sr_Key request)) s' /\
      es_entries s' = <[sr_RequestID request := new_entry s request (Some group) 0]> (es_entries s)
  | (s', Some _) => s' = s
  end.
Proof.
  intros Hs Hcount. set (key := sr_Key request). pose proof Hs as [Hlim Hb _].
  unfold scheduleCoalescedLocked. destruct (es_entries s !! sr_RequestID request) eqn:Hnew; [done|].
  fold key.
  destruct (checkAdmissionCount _ _ _ _) eqn:Ec; [done|].
  apply check_admission_iff with (x := None) in Ec as Hadm; [|done..]. clear Ec.
  destruct (activated_facts _ _ _ Hs Hadm) as (Hs1 & Hk1 & Hadm1 & El & Ee & Ef).
  change (if bool_decide (is_Some (es_keys s !! key)) then s
          else rememberOrder (set_key s key (default no_admissions (es_keys s !! key))) key)
    with (activated s key).
  set (st := default no_admissions (es_keys s !! key)) in *. rewrite El.
  pose proof Hs1 as [Hlim1 Hb1 _]. pose proof (bk_key _ _ _ _ _ Hb1 _ _ Hk1) as Hok.
  pose proof (ko_dependents _ _ _ _ Hok) as Hd. rewrite El in Hd.
  pose proof (limits_facts _ Hlim) as Hl.
  rewrite checked_remaining_ok by lia.
  destruct (zlen intents >? _) eqn:Eg; bool_hyps.
  { unfold activated, st in *. case_bool_decide as Hact.
    - destruct Hact as [st' Ek]. by eapply release_live.
    - apply eq_None_not_Some in Hact.
      rewrite Hact in Eg. cbn in Eg. lia. }
  rewrite checked_add_ok by lia.
  destruct (enqueue_weightless (set_key (activated s key) key
    (with_dependents st (as_dependents st + zlen intents))) request group
    (with_dependents st (as_dependents st + zlen intents))) as (s' & E & Hs' & Ee' & El' & Eo').
  - apply dependents_grow; try done. rewrite El. lia.
  - cbn. by rewrite lookup_insert_eq.
  - cbn. by rewrite Ee.
  - fold key in E. rewrite E. conj; try done; [by rewrite El'|].
    rewrite Ee'. cbn. rewrite Ee. unfold new_entry. cbn. by rewrite activated_sequence.
Qed.

Lemma schedule_spec s request intents address :
  sched_ok s ->
  match ScheduleCoalesced s request intents address with
  | (s', Ok _) =>
      sched_ok s' /\ es_limits s' = es_limits s /\ same_order (activated s (sr_Key request)) s' /\
      es_entries s' = <[sr_RequestID request := new_entry s request (Some address) 0]> (es_entries s)
  | (s', Err _) => s' = s
  end.
Proof.
  intros Hs. unfold ScheduleCoalesced.
  destruct (validateCoalescedRequest request intents) eqn:Ev; [done|].
  destruct (coalesceReads _ _) as [g|] eqn:Eg; [|done].
  assert (Hc : 0 < zlen intents <= sl_MaxCoalescedDependentsPerKey (es_limits s)).
  { split.
    - unfold validateCoalescedRequest in Ev. case_test; [done|]. destruct intents; [done|].
      rewrite zlen_cons. pose proof (zlen_nonneg intents). lia.
    - unfold coalesceReads in Eg. case_test; [done|]. case_test; [done|]. bool_hyps. lia. }
  pose proof (schedule_locked_spec s request intents address Hs Hc) as H.
  destruct (scheduleCoalescedLocked _ _ _ _) as [s' [err|]]; done.
Qed.
