(* ===== verification/SchedulerFacts.v ===== *)
(** Properties of the endpoint scheduler and of the reconnect backoff: the books
    balance and every limit holds, protected capacity is never taken by another
    key, dispatch is exact and work-conserving, scopes are served in turn, and
    backoff delays are bounded. *)

From S2P Require Import Prelude Pdu DeviceId DeviceIdTolerant TcpAdu TcpOwner Coalescing Scheduler SchedulerOrder SchedulerBooks.

(** * Leaving the scheduler *)

Lemma forget_fields s e :
  es_limits (forgetEntryLocked s e) = es_limits s /\
  es_entries (forgetEntryLocked s e) = delete (entry_id e) (es_entries s) /\
  es_keys (forgetEntryLocked s e) = es_keys s /\
  es_inFlight (forgetEntryLocked s e) = es_inFlight s /\
  same_order s (forgetEntryLocked s e).
Proof. unfold forgetEntryLocked. by destruct (se_coalesced e). Qed.

Lemma same_order_rotation s s' : same_order s s' -> scope_rotation s' = scope_rotation s.
Proof. intros (E1 & E2 & _). unfold scope_rotation. by rewrite E1, E2. Qed.

Lemma release_fields s key :
  es_limits (releaseIfEmpty s key) = es_limits s /\
  es_entries (releaseIfEmpty s key) = es_entries s /\
  es_inFlight (releaseIfEmpty s key) = es_inFlight s.
Proof.
  unfold releaseIfEmpty. destruct (es_keys s !! key); [|done]. case_test; [|done].
  by destruct (forgetOrder_fields (set_keys s (delete key (es_keys s))) key) as (-> & -> & _ & -> & _).
Qed.

(** An entry of [key] is gone from the maps, its key has the new state [st'] and
    does not occupy more than before. *)
Lemma retire_ok s s1 e st st' :
  sched_ok s -> es_keys s !! entry_key e = Some st ->
  es_entries s !! entry_id e = Some e ->
  es_limits s1 = es_limits s -> same_order s s1 -> es_entries s1 = es_entries s ->
  es_keys s1 = <[entry_key e := st']> (es_keys s) ->
  key_ok (es_limits s) (delete (entry_id e) (es_entries s)) (entry_key e) st' ->
  es_inFlight s1 = es_inFlight s + as_inFlight st' - as_inFlight st ->
  as_inFlight st' <= as_inFlight st -> occ st' <= occ st ->
  sched_ok (retire_entry s1 e) /\
  es_entries (retire_entry s1 e) = delete (entry_id e) (es_entries s) /\
  es_limits (retire_entry s1 e) = es_limits s /\
  sublist (scope_rotation (retire_entry s1 e)) (scope_rotation s).
Proof.
  intros Hs Hk He El Eo Ee Ek Hok Ef Hf Hocc. pose proof Hs as [Hlim Hb _].
  destruct (forget_fields s1 e) as (F1 & F2 & F3 & F4 & F5).
  unfold retire_entry. destruct (release_ok (forgetEntryLocked s1 e) (entry_key e)) as [Hs' Hr].
  { eapply sound_books; [exact Hs|by rewrite F1| | |].
    - destruct Eo as (? & ? & ? & ?), F5 as (? & ? & ? & ?). unfold same_order. conj; congruence.
    - by rewrite F3, Ek, (dom_update _ _ st).
    - rewrite F2, F3, F4, Ee, Ek. eapply books_shrink; try done; [by left| | |].
      + apply elsewhere_delete. intros e0 E0. congruence.
      + by eapply entries_delete_ok.
      + rewrite Ef. pose proof (bk_maxInFlight _ _ _ _ _ Hb). lia. }
  destruct (release_fields (forgetEntryLocked s1 e) (entry_key e)) as (G1 & G2 & _).
  conj; [done|by rewrite G2, F2, Ee|by rewrite G1, F1|].
  by rewrite (same_order_rotation _ _ F5), (same_order_rotation _ _ Eo) in Hr.
Qed.

Lemma flights_delete key m id e :
  m !! id = Some e ->
  flights key (delete id m) = flights key m
    - (if decide (se_state e = scheduledInFlight /\ entry_key e = key) then 1 else 0).
Proof. intros Hl. unfold flights. rewrite (ksum_delete _ m id e Hl). lia. Qed.

Lemma entry_lookup s id e :
  sched_ok s -> es_entries s !! id = Some e ->
  id = entry_id e /\ entry_ok (es_limits s) id e /\
  exists st, es_keys s !! entry_key e = Some st /\ key_ok (es_limits s) (es_entries s) (entry_key e) st.
Proof.
  intros [_ Hb _] Hl. destruct (bk_entry _ _ _ _ _ Hb _ _ Hl) as [Hok [st Hk]].
  split; [symmetry; apply Hok|]. split; [done|]. exists st. split; [done|]. by eapply bk_key.
Qed.

(** * Queued entries *)

Lemma queue_weights_nonneg s key st e :
  sched_ok s -> es_keys s !! key = Some st -> e ∈ as_queue st -> 0 <= se_admissionWeight e.
Proof.
  intros [_ Hb _] Hk Hin. apply (ko_queue _ _ _ _ (bk_key _ _ _ _ _ Hb _ _ Hk)) in Hin as (He & _).
  apply (bk_entry _ _ _ _ _ Hb) in He as [Hok _]. apply Hok.
Qed.

(** The place of a queued entry in its queue. *)
Lemma queue_split limits m key st e :
  key_ok limits m key st -> e ∈ as_queue st ->
  exists i q1 q2, index_of (entry_id e) (entry_id <$> as_queue st) = Some i /\
    as_queue st = q1 ++ e :: q2 /\ remove_at i (as_queue st) = q1 ++ q2.
Proof.
  intros Hok Hin. destruct (index_of _ _) as [i|] eqn:Ei.
  2: { apply index_of_None in Ei. destruct Ei. by apply list_elem_of_fmap_2. }
  apply index_of_Some in Ei as (l1 & l2 & El & Hi & _).
  apply fmap_app_inv in El as (q1 & q2' & -> & E2 & Eq).
  symmetry in E2. apply fmap_cons_inv in E2 as (e' & q2 & Eid & -> & ->).
  assert (e' = e) as ->.
  { assert (Hin' : e' ∈ as_queue st) by (rewrite Eq, elem_of_app, elem_of_cons; auto).
    apply (ko_queue _ _ _ _ Hok) in Hin as (He & _), Hin' as (He' & _). congruence. }
  rewrite length_fmap in Hi. exists i, q1, q2. conj; [done..|].
  unfold remove_at. rewrite Eq, Hi. rewrite take_app_length, drop_app_ge by lia.
  by replace (S (length q1) - length q1)%nat with 1%nat by lia.
Qed.

(** Removing the queued entry [e]: the new state of its key. *)
Lemma unqueue_spec s e st :
  sched_ok s -> es_keys s !! entry_key e = Some st -> es_entries s !! entry_id e = Some e ->
  se_state e = scheduledQueued ->
  exists st', unqueue st e = Some (Some st') /\ as_inFlight st' = as_inFlight st /\
    occ st' <= occ st /\
    key_ok (es_limits s) (delete (entry_id e) (es_entries s)) (entry_key e) st'.
Proof.
  intros Hs Hk He Hst. pose proof Hs as [Hlim Hb _].
  pose proof (bk_key _ _ _ _ _ Hb _ _ Hk) as Hok.
  assert (Hin : e ∈ as_queue st) by (by apply (ko_queue _ _ _ _ Hok)).
  pose proof (queue_weights_nonneg _ _ _ _ Hs Hk Hin) as Hw.
  destruct (queue_split _ _ _ _ _ Hok Hin) as (i & q1 & q2 & Ei & Eq & Er).
  unfold unqueue. rewrite Ei.
  assert (Hww : weights (as_queue st) = weights (q1 ++ q2) + se_admissionWeight e).
  { rewrite Eq, !weights_app. unfold weights. cbn. lia. }
  assert (Hsub : sublist (q1 ++ q2) (as_queue st)).
  { rewrite Eq. apply sublist_app; [done|]. by apply sublist_cons. }
  assert (0 <= weights (q1 ++ q2)).
  { apply lsum_nonneg. intros e' Hin'. eapply queue_weights_nonneg; [done..|].
    by eapply sublist_subseteq. }
  pose proof (ko_queued _ _ _ _ Hok) as Hq. rewrite checked_remaining_ok by lia.
  cbn [mbind option_bind]. rewrite Er.
  eexists. split; [reflexivity|]. split; [done|]. unfold occ. cbn.
  replace (as_queued st - se_admissionWeight e) with (weights (q1 ++ q2)) by lia.
  split; [lia|]. pose proof (ko_inFlight _ _ _ _ Hok) as Hf.
  assert (Hf' : as_inFlight st = flights (entry_key e) (delete (entry_id e) (es_entries s))).
  { rewrite (flights_delete _ _ _ e He), decide_False by (intros []; congruence). lia. }
  rewrite Hf'. eapply narrow_key; try done.
  - intros e' Hin'. pose proof (ko_nodup _ _ _ _ Hok) as Hn.
    destruct (decide (entry_id e' = entry_id e)) as [Eid'|Hne].
    + rewrite Eid', lookup_delete_eq. split; [|done]. intros Hc. exfalso.
      rewrite Eq, fmap_app, fmap_cons, <- Permutation_middle in Hn.
      apply NoDup_cons in Hn as [Hn _]. apply Hn. rewrite <- fmap_app, <- Eid'.
      by apply list_elem_of_fmap_2.
    + rewrite lookup_delete_ne by done.
      apply (ko_queue _ _ _ _ Hok) in Hin' as Hin2. split; [intros _; apply Hin2|]. intros _.
      rewrite Eq, elem_of_app, elem_of_cons in Hin'. rewrite elem_of_app.
      destruct Hin' as [?|[->|?]]; auto. done.
  - by intros id e' [_ ?]%lookup_delete_Some _ _.
  - by apply (ko_dependents _ _ _ _ Hok).
  - pose proof (ko_limit _ _ _ _ Hok). unfold occ in *. lia.
Qed.

(** * Entries in flight *)

Definition landed (st : admissionState) : admissionState :=
  {| as_queue := as_queue st; as_queued := as_queued st; as_inFlight := as_inFlight st - 1;
     as_dependents := as_dependents st |}.

(** Releasing the flight of an entry never fails. *)
Lemma release_flight_spec s e st :
  sched_ok s -> es_keys s !! entry_key e = Some st -> es_entries s !! entry_id e = Some e ->
  se_state e = scheduledInFlight ->
  releaseInFlightLocked s (entry_key e)
  = (set_in_flight (set_key s (entry_key e) (landed st)) (es_inFlight s - 1), true).
Proof.
  intros [_ Hb _] Hk He Hst. unfold releaseInFlightLocked. rewrite Hk.
  pose proof (ko_inFlight _ _ _ _ (bk_key _ _ _ _ _ Hb _ _ Hk)) as Hf.
  pose proof (flights_delete (entry_key e) _ _ e He) as Hd. rewrite decide_True in Hd by done.
  pose proof (flights_nonneg (entry_key e) (delete (entry_id e) (es_entries s))).
  assert (as_inFlight st <= es_inFlight s).
  { rewrite (bk_inFlight _ _ _ _ _ Hb).
    apply (ksum_lookup (fun (_ : AdmissionKey) st => as_inFlight st) _ (entry_key e)); [|done].
    intros k st' Hk'. by destruct (key_nonneg _ _ _ _ _ _ _ Hb Hk') as (_ & _ & ? & _). }
  by rewrite !checked_remaining_ok by lia.
Qed.

Lemma landed_ok s e st :
  sched_ok s -> es_keys s !! entry_key e = Some st -> es_entries s !! entry_id e = Some e ->
  se_state e = scheduledInFlight ->
  key_ok (es_limits s) (delete (entry_id e) (es_entries s)) (entry_key e) (landed st).
Proof.
  intros [_ Hb _] Hk He Hst. pose proof (bk_key _ _ _ _ _ Hb _ _ Hk) as [Hq Hn Hw Hd Hf Hl].
  constructor; cbn; try done.
  - intros e'. rewrite Hq. split; intros (He' & Hs' & Hk'); (split; [|done]).
    + rewrite lookup_delete_ne; [done|]. intros Eid. rewrite <- Eid in He'. congruence.
    + by apply lookup_delete_Some in He' as [_ ?].
  - rewrite (flights_delete _ _ _ e He), decide_True by done. lia.
Qed.

(** The end of a flight: [releaseInFlightLocked], then the entry is forgotten. *)
Lemma end_flight s e st :
  sched_ok s -> es_keys s !! entry_key e = Some st -> es_entries s !! entry_id e = Some e ->
  se_state e = scheduledInFlight ->
  let s' := retire_entry (set_in_flight (set_key s (entry_key e) (landed st)) (es_inFlight s - 1)) e in
  sched_ok s' /\ es_entries s' = delete (entry_id e) (es_entries s) /\
  es_limits s' = es_limits s /\ sublist (scope_rotation s') (scope_rotation s).
Proof.
  intros Hs Hk He Hst. cbv zeta. apply (retire_ok s _ e st (landed st)); try done; cbn; try lia.
  by apply landed_ok.
Qed.

Lemma leave_queue s e st st' :
  sched_ok s -> es_keys s !! entry_key e = Some st -> es_entries s !! entry_id e = Some e ->
  se_state e = scheduledQueued -> unqueue st e = Some (Some st') ->
  let s' := retire_entry (set_key s (entry_key e) st') e in
  sched_ok s' /\ es_entries s' = delete (entry_id e) (es_entries s) /\
  es_limits s' = es_limits s /\ sublist (scope_rotation s') (scope_rotation s).
Proof.
  intros Hs Hk He Hst Eu. cbv zeta.
  destruct (unqueue_spec s e st Hs Hk He Hst) as (st2 & Eu' & Hf & Hocc & Hok).
  assert (st2 = st') as -> by congruence.
  apply (retire_ok s _ e st st'); try done; cbn; lia.
Qed.

(** What an operation that can only remove an entry leaves. *)
Definition removes (s : EndpointScheduler) (id : Z) (s' : EndpointScheduler) : Prop :=
  sched_ok s' /\ es_entries s' = delete id (es_entries s) /\ es_limits s' = es_limits s /\
  sublist (scope_rotation s') (scope_rotation s).

Lemma complete_spec s id :
  sched_ok s ->
  match Complete s id with
  | (s', None) =>
      removes s id s' /\ exists e, es_entries s !! id = Some e /\ se_state e = scheduledInFlight
  | (s', Some _) =>
      s' = s /\ forall e, es_entries s !! id = Some e -> se_state e = scheduledQueued
  end.
Proof.
  intros Hs. unfold Complete. destruct (es_entries s !! id) as [e|] eqn:He; [|done].
  destruct (entry_lookup _ _ _ Hs He) as (-> & _ & st & Hk & _).
  case_bool_decide as Hst; cbn [negb].
  - rewrite (release_flight_spec s e st) by done. split; [|by eauto]. by apply end_flight.
  - split; [done|]. intros e' [= <-]. by destruct (se_state e).
Qed.

Lemma cancel_queued_spec s id :
  sched_ok s ->
  match CancelQueued s id with
  | (s', (true, group)) =>
      removes s id s' /\ exists e, es_entries s !! id = Some e /\ se_state e = scheduledQueued /\
        group = se_coalesced e
  | (s', (false, group)) =>
      s' = s /\ group = None /\
      forall e, es_entries s !! id = Some e -> se_state e = scheduledInFlight
  end.
Proof.
  intros Hs. unfold CancelQueued. destruct (es_entries s !! id) as [e|] eqn:He; [|done].
  destruct (entry_lookup _ _ _ Hs He) as (-> & _ & st & Hk & _).
  case_bool_decide as Hst; cbn [negb].
  - rewrite Hk. destruct (unqueue_spec s e st Hs Hk He Hst) as (st' & Eu & _). rewrite Eu.
    split; [by eapply leave_queue|by eauto].
  - conj; try done. intros e' [= <-]. by destruct (se_state e).
Qed.

Lemma finish_spec s group :
  sched_ok s ->
  match FinishCoalesced s group with
  | (s', None) =>
      sched_ok s' /\ es_limits s' = es_limits s /\ sublist (scope_rotation s') (scope_rotation s)
  | (s', Some _) => s' = s
  end.
Proof.
  intros Hs. unfold FinishCoalesced. destruct (es_coalesced s !! group) as [id|]; [|done].
  destruct (es_entries s !! id) as [e|] eqn:He.
  2: { conj; try done. destruct Hs as [? ? Ho]. by constructor. }
  destruct (entry_lookup _ _ _ Hs He) as (-> & _ & st & Hk & _).
  destruct (se_state e) eqn:Hst.
  - rewrite Hk. destruct (unqueue_spec s e st Hs Hk He Hst) as (st' & Eu & _). rewrite Eu.
    by destruct (leave_queue s e st st' Hs Hk He Hst Eu) as (? & _ & ? & ?).
  - rewrite (release_flight_spec s e st) by done.
    by destruct (end_flight s e st Hs Hk He Hst) as (? & _ & ? & ?).
Qed.

Lemma release_dependents_spec s key count :
  sched_ok s ->
  let s' := releaseCoalescedDependents s key count in
  sched_ok s' /\ es_limits s' = es_limits s /\ es_entries s' = es_entries s /\
  sublist (scope_rotation s') (scope_rotation s).
Proof.
  intros Hs. cbv zeta. unfold releaseCoalescedDependents.
  destruct (es_keys s !! key) as [st|] eqn:Hk; [|done]. case_test; [done|]. bool_hyps.
  rewrite checked_remaining_ok by lia.
  set (s1 := set_key s key (with_dependents st (as_dependents st - count))).
  destruct (release_fields s1 key) as (E1 & E2 & _).
  pose proof Hs as [Hlim Hb _]. pose proof (bk_key _ _ _ _ _ Hb _ _ Hk) as Hok.
  pose proof (ko_dependents _ _ _ _ Hok). pose proof (ko_limit _ _ _ _ Hok).
  destruct (release_ok s1 key) as [Hs' Hr].
  { eapply sound_books; [exact Hs|done|done|by apply (dom_update _ _ st)|].
    eapply books_shrink; try done; [by left| | |by cbn; lia|by eapply bk_maxInFlight|].
    - intros id e Hl _. by apply (bk_entry _ _ _ _ _ Hb) in Hl as [? _].
    - apply key_ok_dependents; [done|lia|]. unfold occ in *. lia.
    - unfold occ. cbn. lia. }
  by rewrite E1, E2.
Qed.

(** * Retry *)

Lemma give_up_spec s e st err :
  sched_ok s -> es_keys s !! entry_key e = Some st -> es_entries s !! entry_id e = Some e ->
  se_state e = scheduledInFlight ->
  exists s', give_up_retry s e err = (s', (Some err, se_coalesced e)) /\ removes s (entry_id e) s'.
Proof.
  intros Hs Hk He Hst. unfold give_up_retry. rewrite (release_flight_spec s e st) by done.
  eexists. split; [reflexivity|]. by apply end_flight.
Qed.

(** An entry in flight goes back to the tail of its queue. *)
Lemma requeue_ok s s' e e' st :
  sched_ok s -> es_keys s !! entry_key e = Some st -> es_entries s !! entry_id e = Some e ->
  se_state e = scheduledInFlight -> entry_id e' = entry_id e -> entry_key e' = entry_key e ->
  se_state e' = scheduledQueued -> entry_ok (es_limits s) (entry_id e') e' ->
  (se_admissionWeight e' = 0 \/ admissible s (entry_key e) (se_admissionWeight e')) ->
  es_limits s' = es_limits s -> same_order s s' -> es_inFlight s' = es_inFlight s - 1 ->
  es_entries s' = <[entry_id e := e']> (es_entries s) ->
  es_keys s' = <[entry_key e := appended (landed st) e']> (es_keys s) -> sched_ok s'.
Proof.
  intros Hs Hk He Hst Eid Ekey Hst' Hok' Hadm El Eo Ef Ee Ek. pose proof Hs as [Hlim Hb _].
  pose proof (bk_key _ _ _ _ _ Hb _ _ Hk) as Hok. rewrite <- Eid in Ee.
  assert (Hkey : key_ok (es_limits s) (es_entries s') (entry_key e) (appended (landed st) e')).
  { rewrite Ee. unfold appended. cbn. rewrite (ko_inFlight _ _ _ _ Hok).
    rewrite <- (flights_push (entry_key e) _ e' e) by (done || by rewrite Eid).
    apply push_key; try done.
    - rewrite Eid. intros e0 E0. congruence.
    - destruct Hadm as [->|(_ & _ & Hl & _)]; [pose proof (ko_limit _ _ _ _ Hok); lia|].
      by rewrite Hk in Hl. }
  apply (sound_live s' (entry_key e) (appended (landed st) e'));
    [|by rewrite Ek, lookup_insert_eq|by eapply nonempty_queue_live].
  eapply sound_books; [exact Hs|done..|by rewrite Ek, (dom_update _ _ st)|].
  assert (Hels : same_elsewhere (entry_key e) (es_entries s) (es_entries s')).
  { rewrite Ee. apply elsewhere_insert; [done|]. rewrite Eid. intros e0 E0. congruence. }
  assert (Hall : forall id e0, es_entries s' !! id = Some e0 -> entry_key e0 = entry_key e ->
            entry_ok (es_limits s) id e0).
  { rewrite Ee. by eapply entries_insert_ok. }
  replace (es_inFlight s') with
    (es_inFlight s + as_inFlight (appended (landed st) e') - as_inFlight st) by (cbn; lia).
  rewrite Ek. destruct Hadm as [H0|Hadm].
  - eapply books_shrink; try done; [by left| |].
    + cbn. pose proof (bk_maxInFlight _ _ _ _ _ Hb). lia.
    + unfold occ. cbn. lia.
  - eapply books_grow; try done; [by left|by cbn; lia|unfold occ; cbn; lia].
Qed.

(** [Retry] puts an entry in flight back with one more attempt on record, or
    removes it and returns its group; anything else is refused unchanged. *)
Lemma retry_spec s id :
  sched_ok s ->
  match Retry s id with
  | (s', (None, group)) =>
      exists e e', es_entries s !! id = Some e /\ se_state e = scheduledInFlight /\
        se_retries e < sl_MaxRetryAttempts (es_limits s) /\
        es_entries s' = <[id := e']> (es_entries s) /\ se_request e' = se_request e /\
        se_state e' = scheduledQueued /\ se_retries e' = se_retries e + 1 /\ group = None /\
        sched_ok s' /\ es_limits s' = es_limits s /\ scope_rotation s' = scope_rotation s
  | (s', (Some _, group)) =>
      (removes s id s' /\ exists e, es_entries s !! id = Some e /\
         se_state e = scheduledInFlight /\ group = se_coalesced e) \/
      (s' = s /\ group = None)
  end.
Proof.
  intros Hs. unfold Retry. destruct (es_entries s !! id) as [e|] eqn:He; [|by right].
  destruct (entry_lookup _ _ _ Hs He) as (-> & Hok & st & Hk & Hkok).
  case_bool_decide as Hst; cbn [negb]; [|by right].
  assert (Hgive : forall err, match give_up_retry s e err with
    | (s', (None, group)) => False
    | (s', (Some _, group)) => removes s (entry_id e) s' /\ group = se_coalesced e end).
  { intros err. destruct (give_up_spec s e st err) as (s' & -> & ?); done. }
  destruct (se_retries e >=? _) eqn:Er; bool_hyps.
  { specialize (Hgive (schedulerAdmissionError "retry_attempts")).
    destruct (give_up_retry _ _ _) as [s' [[err|] group]]; [|done].
    destruct Hgive as [? ->]. left. eauto. }
  destruct (if se_admissionWeight e >? 0 then _ else _) as [err|] eqn:Ec.
  { specialize (Hgive err). destruct (give_up_retry _ _ _) as [s' [[err'|] group]]; [|done].
    destruct Hgive as [? ->]. left. eauto. }
  rewrite (release_flight_spec s e st) by done.
  cbn [set_sequence set_in_flight set_key set_keys es_keys es_nextSequence].
  rewrite lookup_insert_eq. cbn [from_option id]. cbn [landed as_queued as_queue as_inFlight as_dependents].
  pose proof Hs as [Hlim Hb _]. pose proof (key_queued_int _ _ _ _ _ _ _ Hlim Hb Hk) as Hq.
  assert (Hadm : se_admissionWeight e = 0 \/ admissible s (entry_key e) (se_admissionWeight e)).
  { destruct (se_admissionWeight e >? 0) eqn:Ew; bool_hyps.
    - right. apply (check_admission_iff s _ _ None Hlim Hb).
      by rewrite bool_decide_true by (rewrite Hk; eauto).
    - left. destruct Hok. lia. }
  rewrite checked_add_ok.
  2: lia. 2: { destruct Hok. lia. }
  2: { pose proof (limits_facts _ Hlim). destruct (key_nonneg _ _ _ _ _ _ _ Hb Hk) as (_ & ? & _).
       destruct Hadm as [->|(_ & _ & Hl & _)]; [lia|]. rewrite Hk in Hl. cbn in Hl. unfold occ in Hl. lia. }
  exists e, (retried e (wrap64 (es_nextSequence s + 1))). conj; try done.
  apply (requeue_ok s _ e (retried e (wrap64 (es_nextSequence s + 1))) st); try done.
  - constructor; cbn; [done|apply Hok|]. destruct Hok. lia.
  - cbn. by rewrite insert_insert_eq.
Qed.

(** * Expiry *)

Definition fresh (now : Z) (e : scheduledEntry) : Prop := now < sr_DeadlineOffset (se_request e).
#[local] Instance fresh_dec now e : Decision (fresh now e) := Z_lt_dec _ _.

Definition stale_ids (now : Z) (queue : list scheduledEntry) : list Z :=
  entry_id <$> filter (fun e => ~ fresh now e) queue.

(** [s'] is [s] without the stale entries of [queue], whose groups are [groups]. *)
Record expires (now : Z) (queue : list scheduledEntry) (s s' : EndpointScheduler)
    (groups : list Z) : Prop := {
  ex_limits : es_limits s' = es_limits s;
  ex_keys : es_keys s' = es_keys s;
  ex_inFlight : es_inFlight s' = es_inFlight s;
  ex_order : same_order s s';
  ex_entries : forall id, es_entries s' !! id
    = if decide (id ∈ stale_ids now queue) then None else es_entries s !! id;
  ex_groups : forall g, g ∈ groups <->
    exists e, e ∈ queue /\ ~ fresh now e /\ se_coalesced e = Some g
}.

Lemma expires_nil now s : expires now [] s s [].
Proof.
  constructor; try done. intros g. split; [by intros ?%not_elem_of_nil|].
  by intros (e & ?%not_elem_of_nil & _).
Qed.

Lemma expires_fresh now e queue s s' groups :
  fresh now e -> expires now queue s s' groups -> expires now (e :: queue) s s' groups.
Proof.
  intros He [H1 H2 H3 H4 H5 H6]. constructor; try done.
  - intros id. rewrite H5. unfold stale_ids. rewrite filter_cons.
    by rewrite (decide_False (P := ~ fresh now e)) by tauto.
  - intros g. rewrite H6. split; intros (e' & Hin & Hst & ?); exists e'.
    + rewrite elem_of_cons. auto.
    + apply elem_of_cons in Hin as [->|?]; [done|auto].
Qed.

Lemma expires_stale now e queue s s' groups :
  ~ fresh now e -> expires now queue (forgetEntryLocked s e) s' groups ->
  expires now (e :: queue) s s'
    (match se_coalesced e with Some g => g :: groups | None => groups end).
Proof.
  intros He [H1 H2 H3 H4 H5 H6]. destruct (forget_fields s e) as (F1 & F2 & F3 & F4 & F5).
  constructor; try congruence.
  - destruct H4 as (? & ? & ? & ?), F5 as (? & ? & ? & ?). unfold same_order. conj; congruence.
  - intros id. rewrite H5, F2. unfold stale_ids. rewrite filter_cons.
    rewrite (decide_True (P := ~ fresh now e)), fmap_cons by done. fold (stale_ids now queue).
    destruct (decide (id = entry_id e)) as [->|Hne].
    + rewrite lookup_delete_eq, (decide_True (P := entry_id e ∈ _ :: _))
        by (by apply elem_of_cons; left). by destruct (decide _).
    + rewrite lookup_delete_ne by done.
      destruct (decide (id ∈ stale_ids now queue)), (decide (id ∈ entry_id e :: stale_ids now queue))
        as [Hin|Hin]; try done; rewrite elem_of_cons in Hin; tauto.
  - intros g. destruct (se_coalesced e) as [ge|] eqn:Ege.
    + rewrite elem_of_cons, H6. split.
      * intros [->|(e' & ? & ?)]; [exists e|exists e']; rewrite elem_of_cons; auto.
      * intros (e' & [->|?]%elem_of_cons & ? & ?); [left; congruence|right; eauto].
    + rewrite H6. split; intros (e' & Hin & ? & ?); exists e'; rewrite elem_of_cons in *; auto.
      destruct Hin as [->|?]; [congruence|auto].
Qed.

(** The loop over a queue whose weights are accounted for (with [rest] more). *)
Lemma expire_queue_spec now queue s rest :
  (forall e, e ∈ queue -> 0 <= se_admissionWeight e) -> 0 <= rest ->
  exists s' groups,
    expire_queue now s (weights queue + rest) queue
    = (s', filter (fresh now) queue, weights (filter (fresh now) queue) + rest, groups, true) /\
    expires now queue s s' groups.
Proof.
  revert s rest. induction queue as [|e queue IH]; intros s rest Hw Hrest.
  { exists s, []. split; [done|apply expires_nil]. }
  assert (He : 0 <= se_admissionWeight e) by (apply Hw, elem_of_cons; by left).
  assert (Hw' : forall e', e' ∈ queue -> 0 <= se_admissionWeight e')
    by (intros; apply Hw, elem_of_cons; by right).
  assert (Hwq : 0 <= weights queue) by (by apply lsum_nonneg).
  cbn [expire_queue weights lsum]. fold (weights queue). rewrite !filter_cons.
  destruct (_ <=? now) eqn:Ed; bool_hyps.
  - assert (Hst : ~ fresh now e) by (unfold fresh; lia).
    rewrite checked_remaining_ok, !decide_False by (done || lia).
    replace (se_admissionWeight e + weights queue + rest - se_admissionWeight e)
      with (weights queue + rest) by lia.
    destruct (IH (forgetEntryLocked s e) rest Hw' Hrest) as (s' & g & E & Hex). rewrite E.
    eexists s', _. split; [reflexivity|]. by apply expires_stale.
  - assert (Hst : fresh now e) by (unfold fresh; lia). rewrite !decide_True by done.
    replace (se_admissionWeight e + weights queue + rest)
      with (weights queue + (se_admissionWeight e + rest)) by lia.
    destruct (IH s (se_admissionWeight e + rest) Hw') as (s' & g & E & Hex); [lia|].
    rewrite E. exists s', g. split; [|by apply expires_fresh].
    replace (weights (e :: filter (fresh now) queue) + rest)
      with (weights (filter (fresh now) queue) + (se_admissionWeight e + rest)); [done|].
    unfold weights. cbn. lia.
Qed.

Definition queue_of (s : EndpointScheduler) (key : AdmissionKey) : list scheduledEntry :=
  from_option as_queue [] (es_keys s !! key).

(** A queued entry of [key] whose deadline has passed. *)
Definition stale_in (now : Z) (key : AdmissionKey) (e : scheduledEntry) : Prop :=
  se_state e = scheduledQueued /\ entry_key e = key /\ ~ fresh now e.

Lemma release_queue s key k : queue_of (releaseIfEmpty s key) k = queue_of s k.
Proof.
  unfold queue_of, releaseIfEmpty. destruct (es_keys s !! key) as [st|] eqn:Hk; [|done].
  destruct (key_is_empty st) eqn:Ee; [|done].
  destruct (forgetOrder_fields (set_keys s (delete key (es_keys s))) key) as (_ & _ & -> & _).
  cbn. destruct (decide (k = key)) as [->|]; [|by rewrite lookup_delete_ne].
  rewrite lookup_delete_eq, Hk. cbn. unfold key_is_empty in Ee. bool_hyps.
  symmetry. by apply zlen_zero.
Qed.

Lemma stale_ids_iff limits m key st now id :
  key_ok limits m key st -> (forall e, m !! id = Some e -> entry_id e = id) ->
  id ∈ stale_ids now (as_queue st) <-> exists e, m !! id = Some e /\ stale_in now key e.
Proof.
  intros Hok Hid. unfold stale_ids. rewrite list_elem_of_fmap. split.
  - intros (e & -> & [Hst Hin]%list_elem_of_filter).
    apply (ko_queue _ _ _ _ Hok) in Hin as (? & ? & ?). by exists e.
  - intros (e & He & Hst & Hk & Hfr). exists e. split; [by rewrite (Hid _ He)|].
    apply list_elem_of_filter. split; [done|]. apply (ko_queue _ _ _ _ Hok).
    by rewrite (Hid _ He).
Qed.

(** One key expires: its new books. *)
Lemma expire_key_books s s1 key st now groups :
  sched_ok s -> es_keys s !! key = Some st -> expires now (as_queue st) s s1 groups ->
  let queue := filter (fresh now) (as_queue st) in
  sound (Some key) (set_key s1 key
    {| as_queue := queue; as_queued := weights queue; as_inFlight := as_inFlight st;
       as_dependents := as_dependents st |}).
Proof.
  intros Hs Hk [H1 H2 H3 H4 H5 _]. cbv zeta. pose proof Hs as [Hlim Hb _].
  pose proof (bk_key _ _ _ _ _ Hb _ _ Hk) as Hok.
  assert (Hids : forall id e, es_entries s !! id = Some e -> entry_id e = id).
  { intros id e He. by destruct (entry_lookup _ _ _ Hs He). }
  assert (Hst : forall id e, es_entries s1 !! id = Some e <->
            es_entries s !! id = Some e /\ ~ stale_in now key e).
  { intros id e. rewrite H5. pose proof (stale_ids_iff _ _ _ _ now id Hok (Hids id)) as Hiff.
    case_decide as Hin.
    - apply Hiff in Hin as (e' & He' & Hst). split; [done|]. intros [He Hn]. congruence.
    - split; [|tauto]. intros He. split; [done|]. intros Hst. apply Hin, Hiff. eauto. }
  assert (Hf : as_inFlight st = flights key (es_entries s1)).
  { rewrite (ko_inFlight _ _ _ _ Hok). unfold flights.
    apply Z.le_antisymm; apply ksum_indicator_subset; intros id e [Hfl _].
    - intros He. apply Hst. split; [done|]. intros [? _]. congruence.
    - by intros [? _]%Hst. }
  eapply sound_books; [exact Hs|done|done|cbn; by rewrite H2, (dom_update _ _ st)|].
  cbn. rewrite H2, H3. set (queue := filter (fresh now) (as_queue st)).
  assert (Hsub : sublist queue (as_queue st)) by apply sublist_filter.
  assert (Hw : weights queue <= weights (as_queue st)).
  { apply weights_sublist; [|done]. intros e. by apply queue_weights_nonneg with s key. }
  pose proof (ko_queued _ _ _ _ Hok) as Hq. pose proof (ko_limit _ _ _ _ Hok) as Hl.
  eapply books_shrink; try done; [by left| | | |by cbn; lia|by eapply bk_maxInFlight|].
  - intros id e Hne. rewrite Hst. split; [|tauto]. intros He. split; [done|].
    intros (_ & ? & _). done.
  - intros id e [He _]%Hst _. by apply (bk_entry _ _ _ _ _ Hb) in He as [? _].
  - rewrite Hf. eapply narrow_key; try done.
    + intros e Hin. unfold queue. rewrite list_elem_of_filter, Hst.
      apply (ko_queue _ _ _ _ Hok) in Hin as Hin'. unfold stale_in.
      destruct (decide (fresh now e)); tauto.
    + by intros id e [? _]%Hst _ _.
    + apply (ko_dependents _ _ _ _ Hok).
    + unfold occ in Hl. lia.
  - unfold occ. cbn. lia.
Qed.

(** What [expireLocked] leaves, for the keys it visits. *)
Record swept_at (now : Z) (visited : list AdmissionKey) (s s' : EndpointScheduler)
    (groups : list Z) : Prop := {
  xp_sound : sched_ok s';
  xp_limits : es_limits s' = es_limits s;
  xp_inFlight : es_inFlight s' = es_inFlight s;
  xp_rotation : sublist (scope_rotation s') (scope_rotation s);
  xp_entries : forall id e, es_entries s' !! id = Some e <->
    es_entries s !! id = Some e /\ forall key, key ∈ visited -> ~ stale_in now key e;
  xp_queue : forall key, queue_of s' key
    = if decide (key ∈ visited) then filter (fresh now) (queue_of s key) else queue_of s key;
  xp_groups : forall g, g ∈ groups <-> exists id e key,
    es_entries s !! id = Some e /\ key ∈ visited /\ stale_in now key e /\ se_coalesced e = Some g
}.

Lemma expired_nil now s : sched_ok s -> swept_at now [] s s [].
Proof.
  intros Hs. constructor; try done.
  - intros id e. split; [|tauto]. intros He. split; [done|]. by intros ? ?%not_elem_of_nil.
  - intros g. split; [by intros ?%not_elem_of_nil|]. by intros (? & ? & ? & _ & ?%not_elem_of_nil & _).
Qed.

Lemma expired_one s s1 key st now groups :
  sched_ok s -> es_keys s !! key = Some st -> expires now (as_queue st) s s1 groups ->
  let queue := filter (fresh now) (as_queue st) in
  swept_at now [key] s
    (releaseIfEmpty (set_key s1 key
      {| as_queue := queue; as_queued := weights queue; as_inFlight := as_inFlight st;
         as_dependents := as_dependents st |}) key) groups.
Proof.
  intros Hs Hk Hex. cbv zeta. pose proof (expire_key_books _ _ _ _ _ _ Hs Hk Hex) as Hb'.
  cbv zeta in Hb'. set (s2 := set_key s1 key _) in *.
  destruct (release_ok s2 key Hb') as [Hs' Hr]. destruct (release_fields s2 key) as (E1 & E2 & E3).
  pose proof (bk_key _ _ _ _ _ (so_books _ _ Hs) _ _ Hk) as Hok.
  assert (Hids : forall id e, es_entries s !! id = Some e -> entry_id e = id).
  { intros id e He. by destruct (entry_lookup _ _ _ Hs He). }
  destruct Hex as [H1 H2 H3 H4 H5 H6]. constructor; try done.
  - rewrite E1. done.
  - rewrite E3. done.
  - by rewrite <- (same_order_rotation _ _ H4).
  - intros id e. rewrite E2. cbn. rewrite H5.
    pose proof (stale_ids_iff _ _ _ _ now id Hok (Hids id)) as Hiff. case_decide as Hin.
    + apply Hiff in Hin as (e' & He' & Hst). split; [done|]. intros [He Hn].
      destruct (Hn key); [by apply list_elem_of_singleton|]. congruence.
    + split; [|tauto]. intros He. split; [done|].
      intros k ->%list_elem_of_singleton Hst. apply Hin, Hiff. eauto.
  - intros k. rewrite release_queue. unfold queue_of, s2. cbn. rewrite H2.
    destruct (decide (k = key)) as [->|Hne].
    + rewrite lookup_insert_eq, Hk. cbn.
      by rewrite decide_True by (by apply list_elem_of_singleton).
    + rewrite lookup_insert_ne by done.
      by rewrite decide_False by (by rewrite list_elem_of_singleton).
  - intros g. rewrite H6. split.
    + intros (e & Hin & Hfr & Hg). apply (ko_queue _ _ _ _ Hok) in Hin as (? & ? & ?).
      exists (entry_id e), e, key. conj; try done. by apply list_elem_of_singleton.
    + intros (id & e & k & He & ->%list_elem_of_singleton & (? & ? & ?) & Hg).
      exists e. conj; try done. apply (ko_queue _ _ _ _ Hok). by rewrite (Hids _ _ He).
Qed.

Lemma expired_trans now a b s s1 s2 g1 g2 :
  swept_at now a s s1 g1 -> swept_at now b s1 s2 g2 -> swept_at now (a ++ b) s s2 (g1 ++ g2).
Proof.
  intros [A1 A2 A3 A4 A5 A6 A7] [B1 B2 B3 B4 B5 B6 B7]. constructor; try congruence.
  - by etrans.
  - intros id e. rewrite B5, A5. split.
    + intros [[He Ha] Hb]. split; [done|]. intros k [?|?]%elem_of_app; auto.
    + intros [He Hab]. repeat split; try done; intros k Hin; apply Hab, elem_of_app; auto.
  - intros k. rewrite B6, A6.
    destruct (decide (k ∈ a)), (decide (k ∈ b)), (decide (k ∈ a ++ b)) as [Hin|Hin];
      rewrite elem_of_app in Hin; try tauto; try done.
    rewrite list_filter_filter. apply list_filter_iff. tauto.
  - intros g. rewrite elem_of_app, A7, B7. split.
    + intros [(id & e & k & ? & ? & ?)|(id & e & k & [? _]%A5 & ? & ?)]; exists id, e, k;
        rewrite elem_of_app; auto.
    + intros (id & e & k & He & Hin & Hst & Hg).
      destruct (decide (k ∈ a)) as [Ha|Ha]; [left; exists id, e, k; auto|].
      right. exists id, e, k. conj; try done.
      * apply A5. split; [done|]. intros k' Hk' Hst'. destruct Hst as (_ & Ek & _), Hst' as (_ & Ek' & _).
        congruence.
      * apply elem_of_app in Hin as [?|?]; done.
Qed.

Lemma expire_spec now order s :
  sched_ok s ->
  exists s' groups, expireLocked now s order = (s', groups, true) /\ swept_at now order s s' groups.
Proof.
  revert s. induction order as [|key order IH]; intros s Hs; cbn.
  { exists s, []. split; [done|by apply expired_nil]. }
  destruct (es_keys s !! key) as [st|] eqn:Hk.
  - pose proof (bk_key _ _ _ _ _ (so_books _ _ Hs) _ _ Hk) as Hok.
    destruct (expire_queue_spec now (as_queue st) s 0) as (s1 & g1 & E & Hex); [|lia|].
    { intros e. by apply queue_weights_nonneg with s key. }
    rewrite !Z.add_0_r, <- (ko_queued _ _ _ _ Hok) in E. rewrite E.
    pose proof (expired_one _ _ _ _ _ _ Hs Hk Hex) as Hone. cbv zeta in Hone.
    destruct (IH _ (xp_sound _ _ _ _ _ Hone)) as (s2 & g2 & E2 & Hrest). rewrite E2.
    exists s2, (g1 ++ g2). split; [done|]. exact (expired_trans now [key] order _ _ _ _ _ Hone Hrest).
  - destruct (IH s Hs) as (s' & g & E & Hx). exists s', g. split; [done|].
    assert (Hno : swept_at now [key] s s []).
    { constructor; try done.
      - intros id e. split; [|tauto]. intros He. split; [done|].
        intros k ->%list_elem_of_singleton (_ & Ek & _).
        destruct (entry_lookup _ _ _ Hs He) as (_ & _ & st & Hk' & _). congruence.
      - intros k. case_decide as Hin; [|done]. apply list_elem_of_singleton in Hin as ->.
        unfold queue_of. by rewrite Hk.
      - intros g'. split; [by intros ?%not_elem_of_nil|].
        intros (id & e & k & He & ->%list_elem_of_singleton & (_ & Ek & _) & _).
        destruct (entry_lookup _ _ _ Hs He) as (_ & _ & st & Hk' & _). congruence. }
    exact (expired_trans now [key] order _ _ _ _ _ Hno Hx).
Qed.

(** * Dispatch *)

Lemma flights_take_off key m e :
  m !! entry_id e = Some e -> se_state e = scheduledQueued -> entry_key e = key ->
  flights key (<[entry_id e := with_entry_state e scheduledInFlight]> m) = flights key m + 1.
Proof.
  intros Hl Hs Hk. unfold flights. rewrite (ksum_insert _ _ _ e) by done.
  rewrite decide_False by (intros []; congruence). rewrite decide_True by done. lia.
Qed.

(** The state of a key whose queue lost its head [e] to the flight. *)
Lemma taken_off_key limits m key st e queue :
  key_ok limits m key st -> as_queue st = e :: queue -> 0 <= se_admissionWeight e ->
  key_ok limits (<[entry_id e := with_entry_state e scheduledInFlight]> m) key
    {| as_queue := queue; as_queued := weights queue; as_inFlight := as_inFlight st + 1;
       as_dependents := as_dependents st |}.
Proof.
  intros Hok Hqueue Hw.
  assert (Hin : e ∈ as_queue st) by (rewrite Hqueue; by left).
  apply (ko_queue _ _ _ _ Hok) in Hin as (He & Hst & Ek).
  pose proof (ko_queued _ _ _ _ Hok) as Hq. rewrite Hqueue in Hq. cbn in Hq. fold (weights queue) in Hq.
  rewrite (ko_inFlight _ _ _ _ Hok), <- (flights_take_off key m e) by done.
  pose proof (ko_limit _ _ _ _ Hok) as Hlk. unfold occ in Hlk.
  eapply narrow_key; try done.
  - rewrite Hqueue. by apply sublist_cons.
  - intros e0 Hin0. cbn. pose proof (ko_nodup _ _ _ _ Hok) as Hn. rewrite Hqueue in Hn, Hin0.
    apply NoDup_cons in Hn as [Hn _]. apply elem_of_cons in Hin0 as [->|Hin0].
    + rewrite lookup_insert_eq. split; [|intros [= Eq]].
      * intros Hc. destruct Hn. by apply list_elem_of_fmap_2.
      * apply (f_equal se_state) in Eq. cbn in Eq. congruence.
    + rewrite lookup_insert_ne by (intros Eid; apply Hn; rewrite Eid; by apply list_elem_of_fmap_2).
      split; [intros _|done]. apply (ko_queue _ _ _ _ Hok). rewrite Hqueue. by right.
  - intros id e0. cbn. intros [[_ <-]|[_ ?]]%lookup_insert_Some; done.
  - apply (ko_dependents _ _ _ _ Hok).
  - lia.
Qed.

(** The head of the queue of [key] takes off. *)
Lemma dispatch_key_spec s key e queue :
  sched_ok s -> queue_of s key = e :: queue ->
  es_inFlight s < sl_MaxInFlightRequests (es_limits s) ->
  exists s', dispatch_key s key = (s', Some (se_request e)) /\ sched_ok s' /\
    es_entries s' = <[entry_id e := with_entry_state e scheduledInFlight]> (es_entries s) /\
    es_entries s !! entry_id e = Some e /\ se_state e = scheduledQueued /\ entry_key e = key /\
    es_limits s' = es_limits s /\ es_inFlight s' = es_inFlight s + 1 /\ same_order s s' /\
    forall k, queue_of s' k = if decide (k = key) then queue else queue_of s k.
Proof.
  intros Hs Hqueue Hmax. pose proof Hs as [Hlim Hb _]. unfold queue_of in Hqueue.
  destruct (es_keys s !! key) as [st|] eqn:Hk; [cbn in Hqueue|done].
  pose proof (bk_key _ _ _ _ _ Hb _ _ Hk) as Hok.
  assert (Hin : e ∈ as_queue st) by (rewrite Hqueue; by left).
  pose proof (queue_weights_nonneg _ _ _ _ Hs Hk Hin) as Hw.
  apply (ko_queue _ _ _ _ Hok) in Hin as (He & Hst & Ek).
  destruct (bk_entry _ _ _ _ _ Hb _ _ He) as [Hent _].
  pose proof (ko_queued _ _ _ _ Hok) as Hq. rewrite Hqueue in Hq. cbn in Hq. fold (weights queue) in Hq.
  assert (Hwq : 0 <= weights queue).
  { apply lsum_nonneg. intros e' Hin'. eapply queue_weights_nonneg; [done..|].
    rewrite Hqueue. by right. }
  destruct (key_nonneg _ _ _ _ _ _ _ Hb Hk) as (_ & _ & Hfl & _).
  assert (Hfle : as_inFlight st <= es_inFlight s).
  { rewrite (bk_inFlight _ _ _ _ _ Hb).
    apply (ksum_lookup (fun (_ : AdmissionKey) st => as_inFlight st) _ key); [|done].
    intros k st' Hk'. by destruct (key_nonneg _ _ _ _ _ _ _ Hb Hk') as (_ & _ & ? & _). }
  pose proof (lk_inFlight _ Hlim). unfold dispatch_key. rewrite Hk, Hqueue.
  rewrite checked_remaining_ok, !checked_add_ok by lia.
  test_false (es_inFlight s + 1 >? sl_MaxInFlightRequests (es_limits s)).
  eexists. split; [reflexivity|]. cbn.
  replace (as_queued st - se_admissionWeight e) with (weights queue) by lia.
  set (st' := mkAdmissionState _ _ _ _).
  set (s' := set_entries _ _). set (e' := with_entry_state e scheduledInFlight) in *.
  assert (Hkey : key_ok (es_limits s) (es_entries s') key st').
  { apply (taken_off_key _ _ _ st e queue); done || lia. }
  split; [|conj; try done; intros k; unfold queue_of, s'; cbn; case_decide as Hkk;
    [by rewrite Hkk, lookup_insert_eq|by rewrite lookup_insert_ne]].
  apply (sound_live s' key st'); [|by unfold s'; cbn; rewrite lookup_insert_eq|].
  2: { unfold key_is_empty, st'. cbn. test_false (as_inFlight st + 1 =? 0). by rewrite andb_false_r. }
  eapply sound_books; [exact Hs|done|done|by unfold s'; cbn; apply (dom_update _ _ st)|].
  unfold s'. cbn. eapply books_shrink; try done; [by left| | |by cbn; lia|lia|unfold occ; cbn; lia].
  - assert (Ei : entry_id e' = entry_id e) by done. rewrite <- Ei.
    apply elsewhere_insert; [done|]. rewrite Ei. intros e0 E0. congruence.
  - assert (Ei : entry_id e' = entry_id e) by done. rewrite <- Ei.
    eapply entries_insert_ok; [done|]. destruct Hent. by constructor.
Qed.

Lemma queued_iff_queue s key :
  key_has_queued s key = true <-> exists e queue, queue_of s key = e :: queue.
Proof.
  rewrite key_has_queued_iff. unfold queue_of. destruct (es_keys s !! key) as [st|]; cbn.
  - split; [intros (? & e & q & [= <-] & ?); eauto|intros (e & q & ?); by exists st, e, q].
  - split; [by intros (? & ? & ? & ? & _)|by intros (? & ? & ?)].
Qed.

Lemma no_queue s key : key_has_queued s key = false -> queue_of s key = [].
Proof.
  intros H. destruct (queue_of s key) as [|e q] eqn:E; [done|].
  assert (key_has_queued s key = true) by (apply queued_iff_queue; eauto). congruence.
Qed.

(** What [Dispatch] does after expiry has left [s1]. *)
Definition served (s1 s' : EndpointScheduler) (request : option ScheduledRequest) : Prop :=
  sched_ok s' /\ es_limits s' = es_limits s1 /\
  match request with
  | None =>
      es_entries s' = es_entries s1 /\ scope_rotation s' = scope_rotation s1 /\
      (forall key, queue_of s' key = queue_of s1 key) /\
      (sl_MaxInFlightRequests (es_limits s1) <= es_inFlight s1 \/
       forall key, queue_of s1 key = [])
  | Some r =>
      exists e queue pre post,
        r = se_request e /\ queue_of s1 (entry_key e) = e :: queue /\
        es_entries s1 !! entry_id e = Some e /\ se_state e = scheduledQueued /\
        es_inFlight s1 < sl_MaxInFlightRequests (es_limits s1) /\
        es_inFlight s' = es_inFlight s1 + 1 /\
        es_entries s' = <[entry_id e := with_entry_state e scheduledInFlight]> (es_entries s1) /\
        (forall k, queue_of s' k = if decide (k = entry_key e) then queue else queue_of s1 k) /\
        scope_rotation s1 = pre ++ ak_AuthorizationScope (entry_key e) :: post /\
        Forall (fun scope => scopeHasQueued s1 scope = false) pre /\
        scope_rotation s' = post ++ pre ++ [ak_AuthorizationScope (entry_key e)]
  end.

Lemma dispatch_spec s now order :
  sched_ok s ->
  let '(s', (request, groups)) := Dispatch s now order in
  exists s1, swept_at now order s s1 groups /\ served s1 s' request.
Proof.
  intros Hs. unfold Dispatch.
  destruct (expire_spec now order s Hs) as (s1 & groups & E & Hx). rewrite E. cbn [negb].
  pose proof (xp_sound _ _ _ _ _ Hx) as Hs1.
  destruct (es_inFlight s1 >=? _) eqn:Emax; bool_hyps.
  { exists s1. split; [done|]. unfold served. conj; try done. by left. }
  pose proof (next_scope_spec s1 (so_order _ _ Hs1)) as Hns.
  destruct (nextScope s1) as [s2 [scope|]].
  2: { destruct Hns as [-> Hno]. exists s1. split; [done|]. unfold served. conj; try done.
       right. intros key. by apply no_queue. }
  destruct Hns as (c & pre & post & -> & Ho2 & Hq & Hrot & Hpre & Hrot').
  set (s2 := set_scopes s1 (es_scopeOrder s1) c) in *.
  destruct (next_unit_spec s2 scope Ho2 Hq) as (cursors & unit & Eu & Ho3 & Hk). rewrite Eu.
  set (s3 := set_units s2 (es_unitOrder s2) cursors) in *.
  assert (Hs3 : sched_ok s3) by (destruct Hs1; by constructor).
  apply queued_iff_queue in Hk as (e & queue & Hqueue).
  destruct (dispatch_key_spec s3 (mkAdmissionKey scope unit) e queue Hs3 Hqueue)
    as (s' & E' & Hs' & Ee & He & Hst & Ek & El & Ef & Eo & Hqs); [done|].
  rewrite E'. exists s1. split; [done|]. unfold served. split; [done|]. split; [done|].
  exists e, queue, pre, post. rewrite Ek. conj; try done.
  rewrite (same_order_rotation _ _ Eo). exact Hrot'.
Qed.

(** * Runs *)

(** The calls the program makes on a scheduler.  [address] of a coalesced request is that
    of the group; [order] is the order in which the map of keys is iterated.  Left out are
    [attachDependent] and [detachDependent], which nothing but tests calls and which
    change the count of a key's dependents alone, without its queued work. *)
Inductive sched_op : Type :=
| SEnqueue (request : ScheduledRequest)
| SSchedule (request : ScheduledRequest) (intents : list ReadIntentSpec) (address : Z)
| SDispatch (now : Z) (order : list AdmissionKey)
| SRetry (id : Z)
| SComplete (id : Z)
| SCancel (id : Z)
| SRetryCoalesced (group : Z)
| SCompleteCoalesced (group : Z)
| SCancelCoalesced (group : Z)
| SFinishCoalesced (group : Z)
| SReleaseDependents (key : AdmissionKey) (count : Z).

(** What a caller observes of an operation: whether work was admitted, which
    request was dispatched. *)
Inductive sched_event : Type :=
| WorkAdmitted
| Dispatched (request : ScheduledRequest)
| Other.

Definition sched_step (s : EndpointScheduler) (op : sched_op) : EndpointScheduler * sched_event :=
  match op with
  | SEnqueue request =>
      let '(s, err) := Enqueue s request in
      (s, match err with None => WorkAdmitted | Some _ => Other end)
  | SSchedule request intents address =>
      let '(s, r) := ScheduleCoalesced s request intents address in
      (s, match r with Ok _ => WorkAdmitted | Err _ => Other end)
  | SDispatch now order =>
      let '(s, (r, _)) := Dispatch s now order in
      (s, match r with Some request => Dispatched request | None => Other end)
  | SRetry id => (fst (Retry s id), Other)
  | SComplete id => (fst (Complete s id), Other)
  | SCancel id => (fst (CancelQueued s id), Other)
  | SRetryCoalesced group => (fst (RetryCoalesced s group), Other)
  | SCompleteCoalesced group => (fst (CompleteCoalesced s group), Other)
  | SCancelCoalesced group => (fst (CancelCoalesced s group), Other)
  | SFinishCoalesced group => (fst (FinishCoalesced s group), Other)
  | SReleaseDependents key count => (releaseCoalescedDependents s key count, Other)
  end.

Definition sched_run (s : EndpointScheduler) (ops : list sched_op) : EndpointScheduler :=
  foldl (fun s op => fst (sched_step s op)) s ops.

Lemma same_order_activated s key s' :
  same_order (activated s key) s' ->
  scope_rotation s' = scope_rotation (activated s key).
Proof. apply same_order_rotation. Qed.

Lemma rememberOrder_scopes s key :
  es_scopeOrder (rememberOrder s key)
  = if bool_decide (ak_AuthorizationScope key ∈ es_scopeOrder s) then es_scopeOrder s
    else es_scopeOrder s ++ [ak_AuthorizationScope key].
Proof.
  unfold rememberOrder. destruct (bool_decide (_ ∈ es_scopeOrder s)); by case_bool_decide.
Qed.

(** Making a key active inserts at most its scope into the rotation. *)
Lemma activated_rotation s key :
  ordered s ->
  scope_rotation (activated s key) = scope_rotation s \/
  exists a x b, scope_rotation s = a ++ b /\ scope_rotation (activated s key) = a ++ x :: b /\
    x ∉ es_scopeOrder s.
Proof.
  intros Ho. unfold activated. case_bool_decide; [by left|]. unfold scope_rotation.
  destruct (rememberOrder_fields (set_key s key (default no_admissions (es_keys s !! key))) key)
    as (_ & _ & _ & _ & -> & _).
  rewrite rememberOrder_scopes. cbn. case_bool_decide as Hin; [by left|right].
  destruct (cursor_split _ _ (or_cursor _ _ _ _ _ Ho)) as (l1 & l2 & El & Ec & _).
  exists l2, (ak_AuthorizationScope key), l1. rewrite Ec. split; [by rewrite El, rotation_app|].
  split; [|done]. by rewrite El, <- app_assoc, rotation_app, <- app_assoc.
Qed.

Lemma queue_subset_of_rest (s1 s' : EndpointScheduler) key0 e queue :
  queue_of s1 key0 = e :: queue ->
  (forall k, queue_of s' k = if decide (k = key0) then queue else queue_of s1 k) ->
  forall key, queue_of s' key <> [] -> queue_of s1 key <> [].
Proof. intros Hq Hqs key. rewrite Hqs. case_decide as Hk; [by rewrite Hk, Hq|done]. Qed.

Lemma enqueue_cases s request group :
  sched_ok s ->
  (exists s', enqueueLocked s request group 1 = (s', None) /\ sched_ok s' /\
     es_limits s' = es_limits s /\ same_order (activated s (sr_Key request)) s') \/
  exists err, enqueueLocked s request group 1 = (s, Some err).
Proof.
  intros Hs. pose proof Hs as [Hlim Hb _].
  destruct (es_entries s !! sr_RequestID request) eqn:Hn.
  { right. apply enqueue_refused; [done|]. intros [? _]. congruence. }
  destruct (checkAdmissionCount s (sr_Key request)
    (bool_decide (is_Some (es_keys s !! sr_Key request))) 1) eqn:Ec.
  - right. apply enqueue_refused; [done|]. intros [_ Ha].
    apply (check_admission_iff s _ _ None Hlim Hb) in Ha. congruence.
  - left. apply (check_admission_iff s _ _ None Hlim Hb) in Ec.
    destruct (enqueue_admitted s request group Hs Hn Ec) as (s' & ? & ? & _ & ? & ?). by exists s'.
Qed.

Lemma enqueue_iff s request group :
  sched_ok s ->
  snd (enqueueLocked s request group 1) = None <->
  es_entries s !! sr_RequestID request = None /\ admissible s (sr_Key request) 1.
Proof.
  intros Hs. split.
  - intros E. pose proof Hs as [Hlim Hb _]. revert E. unfold enqueueLocked.
    destruct (es_entries s !! sr_RequestID request); [done|].
    change (1 >? 0) with true. cbv iota.
    destruct (checkAdmissionCount _ _ _ _) eqn:Ec; [done|]. intros _. split; [done|].
    by apply (check_admission_iff s _ _ None Hlim Hb).
  - intros [Hn Ha]. by destruct (enqueue_admitted s request group Hs Hn Ha) as (s' & -> & _).
Qed.

(** Below its protected slots, a key is only limited by the positions for active
    keys and by its scope. *)
Lemma protected_admissible s key :
  sched_ok s -> from_option occ 0 (es_keys s !! key) < sl_ProtectedSlotsPerKey (es_limits s) ->
  admissible s key 1 <->
  (is_Some (es_keys s !! key) \/ key_count s < sl_MaxActiveAdmissionKeys (es_limits s)) /\
  ksum (scope_occ (ak_AuthorizationScope key)) (es_keys s)
    < sl_MaxQueuedPerAuthorizationScope (es_limits s).
Proof.
  intros [Hlim Hb _] Hp. pose proof (limits_facts _ Hlim) as Hl.
  destruct (split_key (es_keys s) key (es_limits s)) as (_ & _ & Eshare & Esize).
  pose proof (bk_total _ _ _ _ _ Hb) as Ht. pose proof (bk_active _ _ _ _ _ Hb) as Ha.
  unfold admissible, key_count. rewrite Esize, Eshare in *.
  destruct (es_keys s !! key) as [st|] eqn:Ek; cbn in *.
  - split; [intros; split; [left; eauto|lia]|].
    intros [_ Hsc]. unfold share in Ht at 1. conj; try lia; nia.
  - split.
    + intros (_ & Hact & _ & Hsc & _). split; [right; lia|lia].
    + intros [[[]|Hact] Hsc]; [done|]. conj; try lia; nia.
Qed.

(** The operations that admit and dispatch nothing keep the order of service. *)
Definition quiet (s s' : EndpointScheduler) : Prop :=
  sched_ok s' /\ es_limits s' = es_limits s /\ sublist (scope_rotation s') (scope_rotation s).

Lemma removes_quiet s id s' : removes s id s' -> quiet s s'.
Proof. by intros (? & _ & ? & ?). Qed.

Lemma retry_quiet s id : sched_ok s -> quiet s (fst (Retry s id)).
Proof.
  intros Hs. pose proof (retry_spec s id Hs) as H.
  destruct (Retry s id) as [s' [[err|] group]]; cbn.
  - destruct H as [[H _]|[-> _]]; [by eapply removes_quiet|done].
  - destruct H as (e & e' & _ & _ & _ & _ & _ & _ & _ & _ & ? & ? & Er). unfold quiet. by rewrite Er.
Qed.

Lemma complete_quiet s id : sched_ok s -> quiet s (fst (Complete s id)).
Proof.
  intros Hs. pose proof (complete_spec s id Hs) as H. destruct (Complete s id) as [s' [err|]]; cbn.
  - by destruct H as [-> _].
  - eapply removes_quiet, H.
Qed.

Lemma cancel_quiet s id : sched_ok s -> quiet s (fst (CancelQueued s id)).
Proof.
  intros Hs. pose proof (cancel_queued_spec s id Hs) as H.
  destruct (CancelQueued s id) as [s' [[] group]]; cbn.
  - eapply removes_quiet, H.
  - by destruct H as [-> _].
Qed.

(** Effect of one operation on the invariant, the limits and the rotation of scopes. *)
Lemma sched_step_spec s op :
  sched_ok s ->
  let '(s', event) := sched_step s op in
  sched_ok s' /\ es_limits s' = es_limits s /\
  match event with
  | WorkAdmitted =>
      scope_rotation s' = scope_rotation s \/
      exists a x b, scope_rotation s = a ++ b /\ scope_rotation s' = a ++ x :: b /\
        x ∉ es_scopeOrder s
  | Dispatched r =>
      exists s1 e pre post,
        sublist (scope_rotation s1) (scope_rotation s) /\ sched_ok s1 /\
        ak_AuthorizationScope (sr_Key r) = ak_AuthorizationScope (entry_key e) /\
        (forall key, queue_of s' key <> [] -> queue_of s1 key <> []) /\
        scope_rotation s1 = pre ++ ak_AuthorizationScope (entry_key e) :: post /\
        Forall (fun scope => scopeHasQueued s1 scope = false) pre /\
        scope_rotation s' = post ++ pre ++ [ak_AuthorizationScope (entry_key e)]
  | Other => sublist (scope_rotation s') (scope_rotation s)
  end.
Proof.
  intros Hs. destruct op; cbn [sched_step].
  - unfold Enqueue. case_test; [done|].
    destruct (enqueueLocked s request None 1) as [s' [err|]] eqn:E.
    + destruct (enqueue_cases s request None Hs) as [(s2 & E2 & _)|[err2 E2]]; [congruence|].
      assert (s' = s) as -> by congruence. done.
    + destruct (enqueue_cases s request None Hs) as [(s2 & E2 & Hs2 & El & Eo)|[err2 E2]];
        [|congruence].
      assert (s' = s2) as -> by congruence. conj; try done. rewrite (same_order_rotation _ _ Eo).
      by apply activated_rotation, (so_order None).
  - pose proof (schedule_spec s request intents address Hs) as H.
    destruct (ScheduleCoalesced _ _ _ _) as [s' [g|err]]; [|by subst].
    destruct H as (? & ? & Eo & _). conj; try done. rewrite (same_order_rotation _ _ Eo).
    by apply activated_rotation, (so_order None).
  - pose proof (dispatch_spec s now order Hs) as H.
    destruct (Dispatch s now order) as [s' [[r|] groups]];
      destruct H as (s1 & Hx & Hs' & El & H); (split; [done|]);
      (split; [by rewrite El, (xp_limits _ _ _ _ _ Hx)|]).
    + destruct H as (e & queue & pre & post & -> & Hq & _ & _ & _ & _ & _ & Hqs & Hr & Hpre & Hr').
      exists s1, e, pre, post. conj; try done; [apply (xp_rotation _ _ _ _ _ Hx)|apply (xp_sound _ _ _ _ _ Hx)|].
      by eapply queue_subset_of_rest.
    + destruct H as (_ & -> & _). apply (xp_rotation _ _ _ _ _ Hx).
  - apply retry_quiet, Hs.
  - apply complete_quiet, Hs.
  - apply cancel_quiet, Hs.
  - unfold RetryCoalesced. destruct (coalescedRequestID s group); [apply retry_quiet, Hs|done].
  - unfold CompleteCoalesced. destruct (coalescedRequestID s group); [apply complete_quiet, Hs|done].
  - unfold CancelCoalesced. destruct (coalescedRequestID s group); [apply cancel_quiet, Hs|done].
  - pose proof (finish_spec s group Hs) as H.
    destruct (FinishCoalesced s group) as [s' [err|]]; [by subst|done].
  - by destruct (release_dependents_spec s key count Hs) as (? & ? & _ & ?).
Qed.

Lemma sched_run_ok ops s :
  sched_ok s -> sched_ok (sched_run s ops) /\ es_limits (sched_run s ops) = es_limits s.
Proof.
  unfold sched_run. revert s. induction ops as [|op ops IH]; intros s Hs; [done|]. cbn.
  pose proof (sched_step_spec s op Hs) as H. destruct (sched_step s op) as [s' event]. cbn.
  destruct H as (Hs' & El & _). rewrite <- El. by apply IH.
Qed.

Lemma new_scheduler_ok limits s :
  newEndpointScheduler limits = Ok s -> sl_TotalQueued limits <= MaxInt ->
  sl_MaxInFlightRequests limits <= MaxInt -> sched_ok s /\ es_limits s = limits.
Proof.
  unfold newEndpointScheduler. destruct (validateSchedulerLimits limits) eqn:Ev; [done|].
  intros [= <-] Hi Hf. split; [|done].
  assert (Hl : limits_ok limits) by done. pose proof (limits_facts _ Hl) as Hlf.
  constructor; [done| |]; constructor; cbn; try done; rewrite ?ksum_empty; try lia.
  - rewrite map_size_empty. lia.
  - intros scope. rewrite ksum_empty. nia.
  - constructor.
  - intros scope. rewrite lookup_empty. split; [by intros ?%not_elem_of_nil|by intros []].
  - unfold cursor_ok. lia.
Qed.

(** * Fair service *)

(** The events of a run, in order. *)
Fixpoint sched_events (s : EndpointScheduler) (ops : list sched_op) : list sched_event :=
  match ops with
  | [] => []
  | op :: ops => let '(s, event) := sched_step s op in event :: sched_events s ops
  end.

(** [scope] has queued work before, during and after the run. *)
Fixpoint scope_waits (scope : string) (s : EndpointScheduler) (ops : list sched_op) : Prop :=
  scopeHasQueued s scope = true /\
  match ops with
  | [] => True
  | op :: ops => scope_waits scope (fst (sched_step s op)) ops
  end.

Definition is_admission (event : sched_event) : bool :=
  match event with WorkAdmitted => true | _ => false end.

Definition dispatched_scope (event : sched_event) : option string :=
  match event with
  | Dispatched r => Some (ak_AuthorizationScope (sr_Key r))
  | _ => None
  end.

(** How many other scopes are served before [scope]. *)
Definition ahead (scope : string) (s : EndpointScheduler) : Z := before scope (scope_rotation s).

Lemma waiting_listed s scope :
  sched_ok s -> scopeHasQueued s scope = true -> scope ∈ scope_rotation s.
Proof.
  intros [_ _ Ho] Hq. unfold scope_rotation. rewrite (rotation_perm _ (es_scopeOrder s)).
  apply (or_scope _ _ _ _ _ Ho). unfold scopeHasQueued in Hq.
  by destruct (es_unitOrder s !! scope).
Qed.

Lemma rotation_NoDup s : sched_ok s -> NoDup (scope_rotation s).
Proof.
  intros [_ _ Ho]. unfold scope_rotation. rewrite (rotation_perm _ (es_scopeOrder s)).
  apply (or_scopes _ _ _ _ _ Ho).
Qed.

Lemma ahead_sublist s s' scope :
  sched_ok s -> sched_ok s' -> scopeHasQueued s' scope = true ->
  sublist (scope_rotation s') (scope_rotation s) -> ahead scope s' <= ahead scope s.
Proof.
  intros Hs Hs' Hq Hr. apply before_sublist; [done|by apply rotation_NoDup|by apply waiting_listed].
Qed.

Lemma step_ahead s op scope :
  sched_ok s -> scopeHasQueued s scope = true ->
  scopeHasQueued (fst (sched_step s op)) scope = true ->
  dispatched_scope (snd (sched_step s op)) <> Some scope ->
  ahead scope (fst (sched_step s op))
    + (if dispatched_scope (snd (sched_step s op)) is Some _ then 1 else 0)
  <= ahead scope s + (if is_admission (snd (sched_step s op)) then 1 else 0).
Proof.
  intros Hs Hq Hq' Hne. pose proof (sched_step_spec s op Hs) as H.
  destruct (sched_step s op) as [s' event]. cbn [fst snd] in *.
  destruct H as (Hs' & _ & H). destruct event as [|r|]; cbn in *.
  - destruct H as [H|(a & x & b & Ea & Eb & Hx)]; unfold ahead.
    + rewrite H. lia.
    + rewrite Ea, Eb. assert (x <> scope).
      { intros ->. apply Hx. rewrite <- (rotation_perm (es_scopeCursor s)).
        by apply (waiting_listed s scope). }
      pose proof (before_insert scope a x b ltac:(done)). lia.
  - destruct H as (s1 & e & pre & post & Hr & Hs1 & Esc & Hqs & E1 & Hpre & E').
    rewrite Esc in Hne. set (sc := ak_AuthorizationScope (entry_key e)) in *.
    assert (Hsc : sc <> scope) by congruence.
    assert (Hq1 : scopeHasQueued s1 scope = true).
    { apply scope_has_queued_iff in Hq' as [u Hu]; [|apply (so_order _ _ Hs')].
      apply scope_has_queued_iff; [apply (so_order _ _ Hs1)|]. exists u.
      apply queued_iff_queue in Hu as (e' & q & Hu). apply queued_iff_queue.
      specialize (Hqs (mkAdmissionKey scope u)). rewrite Hu in Hqs.
      destruct (queue_of s1 (mkAdmissionKey scope u)) as [|e2 q2]; [by destruct Hqs|by eauto]. }
    pose proof (ahead_sublist s s1 scope Hs Hs1 Hq1 Hr) as Hle. unfold ahead in *.
    assert (Hnp : scope ∉ pre).
    { intros Hin. rewrite Forall_forall in Hpre. specialize (Hpre _ Hin). cbn in Hpre. congruence. }
    assert (Hin : scope ∈ post).
    { pose proof (waiting_listed s1 scope Hs1 Hq1) as Hin. rewrite E1 in Hin.
      apply elem_of_app in Hin as [?|[?|?]%elem_of_cons]; done. }
    rewrite E1, before_skip in Hle by done. cbn [before] in Hle. rewrite decide_False in Hle by done.
    rewrite E', before_stop by done. pose proof (zlen_nonneg pre). lia.
  - pose proof (ahead_sublist s s' scope Hs Hs' Hq' H). lia.
Qed.

Definition dispatches (events : list sched_event) : Z :=
  zlen (omap dispatched_scope events).
Definition admissions (events : list sched_event) : Z :=
  lsum (fun event => if is_admission event then 1 else 0) events.

Lemma waits_head scope s ops : scope_waits scope s ops -> scopeHasQueued s scope = true.
Proof. destruct ops; by intros [? _]. Qed.

Lemma run_ahead ops s scope :
  sched_ok s -> scope_waits scope s ops -> scope ∉ omap dispatched_scope (sched_events s ops) ->
  dispatches (sched_events s ops) <= ahead scope s + admissions (sched_events s ops).
Proof.
  unfold dispatches, admissions. revert s. induction ops as [|op ops IH]; intros s Hs Hw Hno.
  { cbn. pose proof (before_bounds scope (scope_rotation s)). unfold ahead, zlen. cbn. lia. }
  cbn [sched_events scope_waits] in *. pose proof (step_ahead s op scope Hs) as Hstep.
  pose proof (sched_step_spec s op Hs) as Hspec.
  destruct (sched_step s op) as [s' event]. cbn [fst snd] in *.
  destruct Hw as [Hq Hw], Hspec as (Hs' & _ & _).
  pose proof (waits_head _ _ _ Hw) as Hq'.
  cbn in Hno |- *. destruct event as [|r|]; cbn in *; rewrite ?zlen_cons.
  - specialize (Hstep Hq Hq' ltac:(done)). specialize (IH s' Hs' Hw Hno). lia.
  - apply not_elem_of_cons in Hno as [Hne Hno].
    specialize (Hstep Hq Hq' ltac:(congruence)). specialize (IH s' Hs' Hw Hno). lia.
  - specialize (Hstep Hq Hq' ltac:(done)). specialize (IH s' Hs' Hw Hno). lia.
Qed.

(** * Reconnect backoff *)

Definition config_valid (c : BackoffConfig) : Prop :=
  0 < bc_Floor c <= bc_Ceiling c /\ 0 < bc_MaxAttempts c.

Record backoff_ok (b : ReconnectBackoff) : Prop := {
  bo_config : config_valid (rb_config b);
  bo_attempt : 0 <= rb_attempt b <= bc_MaxAttempts (rb_config b);
  bo_emitted : zlen (rb_emitted b) <= bc_MaxAttempts (rb_config b)
}.

(** The base delay at least doubles until it reaches the ceiling, and stays there. *)
Lemma backoff_base_spec ceiling base n :
  0 < base <= ceiling ->
  Z.min ceiling (base * 2 ^ Z.of_nat n) <= backoff_base ceiling base n <= ceiling.
Proof.
  revert base. induction n as [|n IH]; intros base Hb; cbn [backoff_base].
  { change (2 ^ Z.of_nat 0) with 1. lia. }
  destruct (base >=? ceiling / 2) eqn:E; bool_hyps; [lia|].
  pose proof (Z.div_mod ceiling 2 ltac:(lia)). pose proof (Z.mod_pos_bound ceiling 2 ltac:(lia)).
  specialize (IH (base * 2) ltac:(lia)).
  rewrite Nat2Z.inj_succ, Z.pow_succ_r by lia.
  replace (base * (2 * 2 ^ Z.of_nat n)) with (base * 2 * 2 ^ Z.of_nat n) by lia. done.
Qed.

Lemma backoff_base_floor ceiling base n :
  0 < base <= ceiling -> base <= backoff_base ceiling base n.
Proof.
  intros Hb. pose proof (backoff_base_spec ceiling base n Hb).
  assert (1 <= 2 ^ Z.of_nat n) by (pose proof (Z.pow_pos_nonneg 2 (Z.of_nat n)); lia). nia.
Qed.

Lemma new_backoff_ok config b : newReconnectBackoff config = Ok b -> backoff_ok b.
Proof.
  unfold newReconnectBackoff. case_test; [done|]. intros [= <-]. bool_hyps.
  constructor; cbn; [unfold config_valid; lia|lia|unfold zlen; cbn; lia].
Qed.

(** The clamped jitter. *)
Definition clamped (upper jitter : Z) : Z := Z.max 0 (Z.min upper jitter).

Lemma clamp_base ceiling base : base <= ceiling -> (if base >? ceiling then ceiling else base) = base.
Proof. intros. destruct (base >? ceiling) eqn:E; bool_hyps; lia. Qed.

Lemma clamp_jitter upper jitter :
  0 <= upper ->
  (if (if jitter <? 0 then 0 else jitter) >? upper then upper
   else if jitter <? 0 then 0 else jitter) = clamped upper jitter.
Proof.
  intros. unfold clamped. destruct (jitter <? 0) eqn:E; bool_hyps;
    destruct (_ >? upper) eqn:E'; bool_hyps; lia.
Qed.

(** Every outcome of [nextDelayBefore]. *)
Lemma next_delay_spec b remaining next reset b' r :
  backoff_ok b -> nextDelayBefore b remaining next reset = (b', r) ->
  let c := rb_config b in
  let base := backoff_base (bc_Ceiling c) (bc_Floor c) (Z.to_nat (rb_attempt b)) in
  let jitter := clamped (bc_Ceiling c - base) (next (bc_Ceiling c - base)) in
  backoff_ok b' /\ rb_config b' = c /\
  match r with
  | Ok delay =>
      delay = base + jitter /\ rb_attempt b < bc_MaxAttempts c /\
      rb_attempt b' = rb_attempt b + 1 /\ last (rb_emitted b') = Some jitter /\
      (0 < remaining -> delay < remaining)
  | Err _ => rb_attempt b' = rb_attempt b \/ rb_attempt b' = 0
  end.
Proof.
  intros [Hc Ha He] E. cbv zeta. pose proof Hc as [Hf Hm].
  pose proof (backoff_base_spec (bc_Ceiling (rb_config b)) (bc_Floor (rb_config b))
                (Z.to_nat (rb_attempt b)) Hf) as Hbase.
  unfold nextDelayBefore in E. set (base := backoff_base _ _ _) in *.
  destruct (rb_attempt b >=? _) eqn:E1; bool_hyps.
  { injection E as <- <-. conj; try done. by left. }
  rewrite clamp_base in E by lia.
  destruct ((remaining >? 0) && (base >=? remaining)) eqn:E2.
  { injection E as <- <-. conj; try done. by left. }
  set (upper := bc_Ceiling (rb_config b) - base) in *.
  rewrite (clamp_jitter upper (next upper)) in E by (unfold upper; lia).
  set (b1 := if reset then ValidCorrelatedResponse b else b) in *.
  assert (Hb1 : backoff_ok b1 /\ rb_config b1 = rb_config b /\ rb_emitted b1 = rb_emitted b /\
                (rb_attempt b1 = rb_attempt b \/ rb_attempt b1 = 0)).
  { unfold b1. destruct reset; (conj; [constructor; cbn; done || lia|..]); auto. }
  destruct Hb1 as (Hb1 & Ec1 & Ee1 & Ha1).
  destruct ((remaining >? 0) && (base + _ >=? remaining)) eqn:E3.
  { injection E as <- <-. done. }
  destruct (negb (rb_attempt b1 =? rb_attempt b)) eqn:E4; bool_hyps.
  { injection E as <- <-. done. }
  injection E as <- <-. conj; cbn; try done; try lia.
  - constructor; cbn; [done|lia|]. rewrite Ee1. zlen_simpl. case_test; bool_hyps; zlen_simpl; lia.
  - by rewrite last_snoc.
Qed.

Inductive backoff_op : Type :=
| BNext (remaining : Z) (next : Z -> Z) (reset : bool)
| BWait (nowOffset deadlineOffset : Z) (next : Z -> Z) (reset : bool)
| BValidResponse.

Definition backoff_step (b : ReconnectBackoff) (op : backoff_op) : ReconnectBackoff :=
  match op with
  | BNext remaining next reset => fst (nextDelayBefore b remaining next reset)
  | BWait now deadline next reset => fst (WaitUntil b now deadline next reset)
  | BValidResponse => ValidCorrelatedResponse b
  end.

Lemma next_keeps b remaining next reset :
  backoff_ok b ->
  backoff_ok (fst (nextDelayBefore b remaining next reset)) /\
  rb_config (fst (nextDelayBefore b remaining next reset)) = rb_config b.
Proof.
  intros Hb. destruct (nextDelayBefore b remaining next reset) as [b' r] eqn:E.
  by destruct (next_delay_spec _ _ _ _ _ _ Hb E) as (? & ? & _).
Qed.

Lemma backoff_step_ok b op :
  backoff_ok b -> backoff_ok (backoff_step b op) /\ rb_config (backoff_step b op) = rb_config b.
Proof.
  intros Hb. destruct op; cbn; [by apply next_keeps| |].
  - unfold WaitUntil, NextDelay. case_test; [done|].
    pose proof (next_keeps b 0 next reset Hb) as H.
    destruct (nextDelayBefore b 0 next reset) as [b' [delay|err]]; [|done]. by case_test.
  - destruct Hb as [[? ?] ? ?]. split; [constructor; cbn; done || lia|done].
Qed.

Lemma backoff_run_ok ops b :
  backoff_ok b ->
  backoff_ok (foldl backoff_step b ops) /\ rb_config (foldl backoff_step b ops) = rb_config b.
Proof.
  revert b. induction ops as [|op ops IH]; intros b Hb; [done|]. cbn.
  destruct (backoff_step_ok b op Hb) as [Hb' <-]. by apply IH.
Qed.

(** * Properties *)

Definition demo_limits : SchedulerLimits :=
  {| sl_MaxActiveAdmissionKeys := 2; sl_ProtectedSlotsPerKey := 1; sl_SharedBurstSlots := 2;
     sl_TotalQueued := 4; sl_MaxQueuedPerKey := 4; sl_MaxQueuedPerAuthorizationScope := 4;
     sl_MaxCoalescedDependentsPerKey := 2; sl_MaxRetryAttempts := 1;
     sl_MaxInFlightRequests := 2 |}.

Definition demo_scheduler (limits : SchedulerLimits) : EndpointScheduler :=
  {| es_limits := limits; es_nextSequence := 0; es_entries := ∅; es_coalesced := ∅;
     es_keys := ∅; es_scopeOrder := []; es_unitOrder := ∅; es_scopeCursor := 0;
     es_unitCursor := ∅; es_inFlight := 0 |}.

Definition demo_request (id : Z) (scope : string) (unit deadline : Z) : ScheduledRequest :=
  {| sr_RequestID := id; sr_Key := mkAdmissionKey scope unit; sr_DeadlineOffset := deadline |}.

Definition demo_sched_ops : list sched_op :=
  [SEnqueue (demo_request 1 "a" 1 50); SEnqueue (demo_request 2 "a" 1 5);
   SEnqueue (demo_request 3 "b" 1 50); SDispatch 10 [mkAdmissionKey "a" 1; mkAdmissionKey "b" 1]].

(** C26: In every state a scheduler reaches from its constructor through any
    sequence of the calls the program makes, which are all but [attachDependent] and
    [detachDependent], (and any iteration order of its map) the books are exact:
    the queues, the entries and the counters agree, the requests in flight, the
    active keys, the queued work per key, per scope and in total are within the
    limits, and the slots protected for the keys that do not use them, active or
    not, are still free. *)
Theorem scheduler_invariant limits s0 ops :
  newEndpointScheduler limits = Ok s0 ->
  sl_TotalQueued limits <= MaxInt -> sl_MaxInFlightRequests limits <= MaxInt ->
  let s := sched_run s0 ops in
  sched_ok s /\
  es_inFlight s <= sl_MaxInFlightRequests limits /\
  key_count s <= sl_MaxActiveAdmissionKeys limits /\
  (forall scope, ksum (scope_occ scope) (es_keys s) <= sl_MaxQueuedPerAuthorizationScope limits) /\
  ksum (fun _ => occ) (es_keys s) + ksum (fun _ => deficit limits) (es_keys s)
    + (sl_MaxActiveAdmissionKeys limits - key_count s) * sl_ProtectedSlotsPerKey limits
    <= sl_TotalQueued limits.
Proof.
  intros Hnew H1 H2. cbv zeta. destruct (new_scheduler_ok _ _ Hnew H1 H2) as [Hs0 El0].
  destruct (sched_run_ok ops s0 Hs0) as [Hs El]. rewrite El0 in El.
  split; [done|]. destruct Hs as [Hlim Hb _]. rewrite El in *.
  destruct (deficits_bound limits (es_keys (sched_run s0 ops))) as [_ Eshare].
  - by apply limits_facts in Hlim as (_ & ? & _).
  - intros k st Hk. by destruct (key_nonneg _ _ _ _ _ _ _ Hb Hk) as (_ & _ & _ & ?).
  - destruct Hb. unfold key_count. rewrite <- Eshare. done.
Qed.

Lemma scheduler_invariant_witness :
  sched_ok (sched_run (demo_scheduler demo_limits) demo_sched_ops).
Proof.
  refine (proj1 (scheduler_invariant demo_limits _ demo_sched_ops _ _ _)); [reflexivity|done..].
Defined.

(** C27: Protected capacity is real: whatever the other keys hold, a valid new
    request of a key that does not use all its protected slots is refused only
    for a request identifier already live, because the key is new and every
    position for an active key is taken, or at the limit of its scope; the
    limits on the key, on the total and on protected capacity never refuse it. *)
Theorem protected_admission s request :
  sched_ok s -> validScheduledRequest request = true ->
  from_option occ 0 (es_keys s !! sr_Key request) < sl_ProtectedSlotsPerKey (es_limits s) ->
  snd (Enqueue s request) = None <->
  es_entries s !! sr_RequestID request = None /\
  (is_Some (es_keys s !! sr_Key request) \/ key_count s < sl_MaxActiveAdmissionKeys (es_limits s)) /\
  ksum (scope_occ (ak_AuthorizationScope (sr_Key request))) (es_keys s)
    < sl_MaxQueuedPerAuthorizationScope (es_limits s).
Proof.
  intros Hs Hv Hp. unfold Enqueue. rewrite Hv. cbn [negb].
  rewrite (enqueue_iff s request None Hs), (protected_admissible s (sr_Key request) Hs Hp). done.
Qed.

Lemma protected_admission_witness :
  snd (Enqueue (sched_run (demo_scheduler demo_limits)
                 [SEnqueue (demo_request 1 "a" 1 50); SEnqueue (demo_request 2 "a" 1 50);
                  SEnqueue (demo_request 3 "a" 1 50)])
               (demo_request 4 "b" 1 50)) = None.
Proof.
  apply protected_admission.
  - refine (proj1 (sched_run_ok _ (demo_scheduler demo_limits) _)).
    exact (proj1 (new_scheduler_ok demo_limits _ eq_refl ltac:(done) ltac:(done))).
  - reflexivity.
  - vm_compute. reflexivity.
  - split; [vm_compute; reflexivity|]. split; [right; vm_compute; reflexivity|].
    vm_compute. reflexivity.
Defined.

(** A queued request whose deadline has passed. *)
Definition stale (now : Z) (e : scheduledEntry) : Prop :=
  se_state e = scheduledQueued /\ sr_DeadlineOffset (se_request e) <= now.

#[local] Instance stale_dec now e : Decision (stale now e).
Proof. unfold stale. apply _. Defined.

Lemma stale_visited s now (order : list AdmissionKey) id e :
  sched_ok s -> (forall key, is_Some (es_keys s !! key) -> key ∈ order) ->
  es_entries s !! id = Some e ->
  stale now e <-> exists key, key ∈ order /\ stale_in now key e.
Proof.
  intros Hs Hall He. unfold stale, stale_in, fresh. split.
  - intros [Hq Hd]. exists (entry_key e). destruct (entry_lookup _ _ _ Hs He) as (_ & _ & st & Hk & _).
    split; [apply Hall; eauto|]. conj; [done..|lia].
  - intros (k & _ & Hq & _ & Hd). split; [done|lia].
Qed.

(** No queue is left after expiry exactly when no unexpired request was queued. *)
Lemma all_stale s s1 now (order : list AdmissionKey) groups :
  sched_ok s -> (forall key, is_Some (es_keys s !! key) -> key ∈ order) ->
  swept_at now order s s1 groups ->
  (forall key, queue_of s1 key = []) <->
  (forall id e, es_entries s !! id = Some e -> se_state e = scheduledQueued -> stale now e).
Proof.
  intros Hs Hall Hx. split.
  - intros Hno id e He Hq. destruct (decide (stale now e)) as [|Hns]; [done|]. exfalso.
    assert (He1 : es_entries s1 !! id = Some e).
    { apply (xp_entries _ _ _ _ _ Hx). split; [done|]. intros k Hk Hst. apply Hns.
      apply (stale_visited s now order id e); eauto. }
    destruct (entry_lookup _ _ _ (xp_sound _ _ _ _ _ Hx) He1) as (-> & _ & st & Hk & Hok).
    assert (Hin : e ∈ as_queue st) by (by apply (ko_queue _ _ _ _ Hok)).
    specialize (Hno (entry_key e)). unfold queue_of in Hno. rewrite Hk in Hno. cbn in Hno.
    rewrite Hno in Hin. by apply not_elem_of_nil in Hin.
  - intros Hst key. destruct (queue_of s1 key) as [|e q] eqn:Eq; [done|]. exfalso.
    unfold queue_of in Eq. destruct (es_keys s1 !! key) as [st|] eqn:Hk; [cbn in Eq|done].
    pose proof (bk_key _ _ _ _ _ (so_books _ _ (xp_sound _ _ _ _ _ Hx)) _ _ Hk) as Hok.
    assert (Hin : e ∈ as_queue st) by (rewrite Eq; by left).
    apply (ko_queue _ _ _ _ Hok) in Hin as (He1 & Hq & _).
    apply (xp_entries _ _ _ _ _ Hx) in He1 as [He Hno].
    pose proof (Hst _ _ He Hq) as Hs'.
    destruct (proj1 (stale_visited s now order _ e Hs Hall He) Hs') as (k & ? & ?). by eapply Hno.
Qed.

(** C28: Dispatch is exact.  When the iteration visits every key, a request is
    returned if and only if the in-flight limit leaves room and some queued
    request has not expired; it is the oldest unexpired request of its key,
    becomes in flight and is the only entry that changes; the entries that
    disappear are exactly the queued ones whose deadline has passed, and the
    groups to fail are exactly the groups of those. *)
Theorem dispatch_exact s now (order : list AdmissionKey) s' request groups :
  sched_ok s -> (forall key, is_Some (es_keys s !! key) -> key ∈ order) ->
  Dispatch s now order = (s', (request, groups)) ->
  (request = None <->
     sl_MaxInFlightRequests (es_limits s) <= es_inFlight s \/
     forall id e, es_entries s !! id = Some e -> se_state e = scheduledQueued -> stale now e) /\
  (forall r, request = Some r -> exists e,
     es_entries s !! sr_RequestID r = Some e /\ se_request e = r /\
     se_state e = scheduledQueued /\ now < sr_DeadlineOffset r /\
     head (filter (fresh now) (queue_of s (sr_Key r))) = Some e /\
     es_entries s' !! sr_RequestID r = Some (with_entry_state e scheduledInFlight) /\
     es_inFlight s' = es_inFlight s + 1 /\
     es_inFlight s' <= sl_MaxInFlightRequests (es_limits s)) /\
  (forall id e, (forall r, request = Some r -> sr_RequestID r <> id) ->
     es_entries s' !! id = Some e <-> es_entries s !! id = Some e /\ ~ stale now e) /\
  (forall g, g ∈ groups <-> exists id e,
     es_entries s !! id = Some e /\ stale now e /\ se_coalesced e = Some g).
Proof.
  intros Hs Hall E. pose proof (dispatch_spec s now order Hs) as H. rewrite E in H.
  destruct H as (s1 & Hx & _ & _ & H). pose proof (all_stale _ _ _ _ _ Hs Hall Hx) as Has.
  pose proof Hx as [_ Xl Xf _ Xe Xq Xg].
  assert (Hlive : forall id e, es_entries s1 !! id = Some e <->
            es_entries s !! id = Some e /\ ~ stale now e).
  { intros id e. rewrite Xe. split.
    - intros [He Hno]. split; [done|]. rewrite (stale_visited s now order id e) by done.
      intros (k & ? & ?). by eapply Hno.
    - intros [He Hns]. split; [done|]. intros k Hk Hst. apply Hns.
      apply (stale_visited s now order id e); eauto. }
  split; [|split; [|split]].
  - destruct request as [r|].
    + split; [done|]. destruct H as (e & q & _ & _ & _ & Hq & _ & _ & Hroom & _).
      rewrite Xl, Xf in Hroom. intros [?|Hst]; [lia|]. pose proof (proj2 Has Hst) as Hno.
      by rewrite Hno in Hq.
    + split; [|done]. intros _. destruct H as (_ & _ & _ & H). rewrite Xl, Xf in H.
      destruct H as [?|Hno]; [by left|right]. exact (proj1 Has Hno).
  - intros r ->. destruct H as (e & q & pre & post & -> & Hq & He1 & Hst & Hroom & Ef & Ee & _).
    rewrite Xl, Xf in Hroom. rewrite Xf in Ef. exists e.
    apply Hlive in He1 as [He Hns].
    assert (Hfr : now < sr_DeadlineOffset (se_request e)).
    { apply Znot_ge_lt. intros Hge. apply Hns. split; [done|lia]. }
    conj; try done; [|by rewrite Ee, lookup_insert_eq|lia].
    rewrite Xq in Hq. fold (entry_key e). destruct (entry_lookup _ _ _ Hs He) as (_ & _ & st & Hk & _).
    rewrite decide_True in Hq by (apply Hall; eauto). by rewrite Hq.
  - intros id e Hid. destruct request as [r|].
    + destruct H as (e0 & q & pre & post & -> & _ & _ & _ & _ & _ & Ee & _).
      rewrite Ee, lookup_insert_ne by (by apply Hid). apply Hlive.
    + destruct H as (Ee & _). rewrite Ee. apply Hlive.
  - intros g. rewrite Xg. split.
    + intros (id & e & k & He & Hk & Hst & Hg). exists id, e. conj; try done.
      apply (stale_visited s now order id e); eauto.
    + intros (id & e & He & Hst & Hg).
      destruct (proj1 (stale_visited s now order id e Hs Hall He) Hst) as (k & ? & ?). by exists id, e, k.
Qed.

Lemma dispatch_exact_witness :
  let s := sched_run (demo_scheduler demo_limits)
             [SEnqueue (demo_request 1 "a" 1 5); SEnqueue (demo_request 2 "a" 1 50)] in
  fst (snd (Dispatch s 10 [mkAdmissionKey "a" 1])) = Some (demo_request 2 "a" 1 50) /\
  es_inFlight (fst (Dispatch s 10 [mkAdmissionKey "a" 1])) = 1.
Proof.
  cbv zeta. set (s := sched_run _ _).
  assert (Hs : sched_ok s).
  { refine (proj1 (sched_run_ok _ (demo_scheduler demo_limits) _)).
    exact (proj1 (new_scheduler_ok demo_limits _ eq_refl ltac:(done) ltac:(done))). }
  assert (E : fst (snd (Dispatch s 10 [mkAdmissionKey "a" 1])) = Some (demo_request 2 "a" 1 50))
    by (vm_compute; reflexivity).
  split; [exact E|].
  destruct (Dispatch s 10 [mkAdmissionKey "a" 1]) as [s' [request groups]] eqn:Ed. cbn in E. subst.
  destruct (dispatch_exact s 10 [mkAdmissionKey "a" 1] s'
    (Some (demo_request 2 "a" 1 50)) groups Hs) as (_ & H & _); [|exact Ed|].
  - intros key [st Hk]. assert (Hd : key ∈ dom (es_keys s)) by (apply elem_of_dom; eauto).
    assert (Edom : dom (es_keys s) = {[mkAdmissionKey "a" 1]}) by (vm_compute; reflexivity).
    rewrite Edom in Hd. apply elem_of_singleton in Hd as ->. by left.
  - destruct (H _ eq_refl) as (e & _ & _ & _ & _ & _ & _ & Hf & _). cbn. rewrite Hf.
    vm_compute. reflexivity.
Defined.

(** C29: Scopes are served in turn.  While a scope has queued work throughout a
    run of any calls and is not itself served, the number of requests dispatched
    is at most the number of scopes before it in the rotation (fewer than the
    scopes known), plus one for each admission of new work during the run. *)
Theorem scope_served_in_turn s ops scope :
  sched_ok s -> scope_waits scope s ops ->
  scope ∉ omap dispatched_scope (sched_events s ops) ->
  dispatches (sched_events s ops) <= ahead scope s + admissions (sched_events s ops) /\
  ahead scope s < zlen (es_scopeOrder s).
Proof.
  intros Hs Hw Hno. split; [by apply run_ahead|].
  apply waits_head in Hw. apply waiting_listed in Hw; [|done].
  unfold ahead, zlen. rewrite <- (Permutation_length (rotation_perm (es_scopeCursor s) _)).
  fold (scope_rotation s). by apply before_lt.
Qed.

Definition demo_two_scopes : EndpointScheduler :=
  sched_run (demo_scheduler demo_limits)
    [SEnqueue (demo_request 1 "a" 1 50); SEnqueue (demo_request 2 "b" 1 50)].

Lemma scope_served_in_turn_witness :
  dispatches (sched_events demo_two_scopes
    [SDispatch 10 [mkAdmissionKey "a" 1; mkAdmissionKey "b" 1]]) <= ahead "b" demo_two_scopes.
Proof.
  destruct (scope_served_in_turn demo_two_scopes
    [SDispatch 10 [mkAdmissionKey "a" 1; mkAdmissionKey "b" 1]] "b") as [H _].
  - refine (proj1 (sched_run_ok _ (demo_scheduler demo_limits) _)).
    exact (proj1 (new_scheduler_ok demo_limits _ eq_refl ltac:(done) ltac:(done))).
  - split; [vm_compute; reflexivity|]. split; [vm_compute; reflexivity|exact I].
  - intros Hin. vm_compute in Hin. apply list_elem_of_In in Hin as [Hin|[]]. discriminate Hin.
  - exact H.
Defined.

(** Reconnect delays are bounded whatever the jitter source answers: after
    any calls on a valid configuration, a delay that is granted lies between the
    floor and the ceiling, has at least doubled with every attempt on record up
    to the ceiling, fits the time that remains, and counts as one attempt; when
    the attempts are used up none is granted until a valid response resets
    them; and the jitter history never exceeds the attempts allowed. *)
Theorem backoff_bounded config b0 ops remaining next reset :
  newReconnectBackoff config = Ok b0 ->
  let b := foldl backoff_step b0 ops in
  let '(b', r) := nextDelayBefore b remaining next reset in
  zlen (rb_emitted b') <= bc_MaxAttempts config /\
  (forall delay, r = Ok delay ->
     bc_Floor config <= delay <= bc_Ceiling config /\
     Z.min (bc_Ceiling config) (bc_Floor config * 2 ^ rb_attempt b) <= delay /\
     (0 < remaining -> delay < remaining) /\ rb_attempt b' = rb_attempt b + 1) /\
  (bc_MaxAttempts config <= rb_attempt b ->
     r = Err (schedulerAdmissionError "backoff_attempts") /\ b' = b).
Proof.
  intros Hnew. cbv zeta. pose proof (new_backoff_ok _ _ Hnew) as Hb0.
  assert (Ec0 : rb_config b0 = config).
  { unfold newReconnectBackoff in Hnew. case_test; [done|]. by injection Hnew as <-. }
  destruct (backoff_run_ok ops b0 Hb0) as [Hb Ec]. rewrite Ec0 in Ec.
  set (b := foldl backoff_step b0 ops) in *.
  destruct (nextDelayBefore b remaining next reset) as [b' r] eqn:E.
  destruct (next_delay_spec _ _ _ _ _ _ Hb E) as (Hb' & Ec' & Hr). rewrite Ec in *.
  split; [|split].
  - rewrite <- Ec'. apply (bo_emitted _ Hb').
  - intros delay ->. destruct Hr as (-> & _ & -> & _ & Hrem).
    pose proof (bo_config _ Hb) as [Hf _]. rewrite Ec in Hf.
    pose proof (backoff_base_spec _ _ (Z.to_nat (rb_attempt b)) Hf) as Hbase.
    pose proof (backoff_base_floor _ _ (Z.to_nat (rb_attempt b)) Hf).
    pose proof (bo_attempt _ Hb). rewrite Z2Nat.id in Hbase by lia. unfold clamped.
    conj; try done; lia.
  - intros Hmax. unfold nextDelayBefore in E. rewrite Ec in E.
    rewrite (proj2 (Z.geb_le _ _)) in E by lia. injection E as <- <-. done.
Qed.

Definition demo_backoff : BackoffConfig :=
  {| bc_Floor := 100; bc_Ceiling := 1000; bc_MaxAttempts := 5; bc_Jitter := true;
     bc_JitterAlgorithmID := "fixed"; bc_JitterVersion := "1"; bc_JitterEvidence := "seed" |}.

Lemma backoff_bounded_witness :
  let b := {| rb_config := demo_backoff; rb_attempt := 0; rb_emitted := [] |} in
  let ops := [BNext 0 (fun upper => upper + 7) false; BNext 0 (fun _ => -3) false] in
  snd (nextDelayBefore (foldl backoff_step b ops) 0 (fun _ => 1) false) = Ok 401 /\
  100 <= 401 <= 1000.
Proof.
  cbv zeta.
  pose proof (backoff_bounded demo_backoff
    {| rb_config := demo_backoff; rb_attempt := 0; rb_emitted := [] |}
    [BNext 0 (fun upper => upper + 7) false; BNext 0 (fun _ => -3) false] 0 (fun _ => 1) false
    eq_refl) as H.
  cbv zeta in H. destruct (nextDelayBefore _ _ _ _) as [b' r] eqn:E. cbn [snd].
  assert (Er : r = Ok 401) by (vm_compute in E; injection E as _ <-; reflexivity).
  split; [exact Er|]. destruct H as (_ & H & _). exact (proj1 (H 401 Er)).
Defined.

(** The limit of a scope is not protected: limits the constructor accepts, under
    which a key's burst fills its scope and a second key of the same scope, with
    a position and all its protected slots free, is refused. *)
Example scope_limit_refuses_protected_slot :
  let limits :=
    {| sl_MaxActiveAdmissionKeys := 2; sl_ProtectedSlotsPerKey := 1; sl_SharedBurstSlots := 2;
       sl_TotalQueued := 4; sl_MaxQueuedPerKey := 4; sl_MaxQueuedPerAuthorizationScope := 2;
       sl_MaxCoalescedDependentsPerKey := 2; sl_MaxRetryAttempts := 1;
       sl_MaxInFlightRequests := 2 |} in
  let s := sched_run (demo_scheduler limits)
             [SEnqueue (demo_request 1 "a" 1 50); SEnqueue (demo_request 2 "a" 1 50)] in
  newEndpointScheduler limits = Ok (demo_scheduler limits) /\
  snd (Enqueue s (demo_request 3 "a" 2 50)) = Some (schedulerAdmissionError "queued_capacity") /\
  snd (Enqueue s (demo_request 3 "b" 2 50)) = None.
Proof. vm_compute. split; [reflexivity|]. split; reflexivity. Qed.
