(* ===== verification/TcpEndpoint.v ===== *)
(** The TCP endpoint (tcp_endpoint.go, tcp_endpoint_lifecycle.go, tcp_endpoint_read.go):
    its state over the pool, the scheduler, the coalesced groups, the transports, the
    timeline and the retry ledger; opening and closing connections, admission, dispatch,
    and the removal of requests.

    An operation reads the clock where the code calls it: the readings are the values of
    a function, consumed one by one.  Pointers are addresses: of owners in the pool's
    store, of groups in [nd_groups], of transports and of a request the serial number it
    was created with.  An attached transport outlives its connection, for the operations
    that still hold it.  Calls from inside the event sink are refused by the code before
    they touch the endpoint and are left out. *)

From S2P Require Import Prelude Pdu DeviceId DeviceIdTolerant TcpAdu TcpOwner TcpOwnerFacts TcpPool Coalescing TcpTimeline TcpOperation TcpTransport TcpRetry Scheduler.

(** * Data *)

(** The clock is given by its contract version; the source of runtime acquisitions is
    not part of the configuration here. *)
Record TCPEndpointConfig : Type := mkTCPEndpointConfig {
  eg_Endpoint : string;
  eg_PoolLimits : EndpointPoolLimits;
  eg_SchedulerLimits : SchedulerLimits;
  eg_Backoff : BackoffConfig;
  eg_MaxBufferedBytes : Z;
  eg_MaxRequestDeadline : Z;
  eg_MaxResponseDeadline : Z;
  eg_Clock : string;
  eg_EventSink : option (TCPTransportEvent -> bool);
  eg_Framing : Z
}.

Record TCPConnectionHandle : Type := mkTCPConnectionHandle {
  ch_endpoint : Z;
  ch_connectionID : Z;
  ch_generation : Z
}.

Record TCPReadPlan : Type := mkTCPReadPlan {
  rp_Connection : TCPConnectionHandle;
  rp_UnitID : Z;
  rp_AuthorizationScope : string;
  rp_PollGeneration : Z;
  rp_DeadlineIdentity : Z;
  rp_Timeout : Z;
  rp_Reads : list TCPLogicalRead
}.

Record TCPDeviceIDPlan : Type := mkTCPDeviceIDPlan {
  ip_Connection : TCPConnectionHandle;
  ip_UnitID : Z;
  ip_AuthorizationScope : string;
  ip_PollGeneration : Z;
  ip_DeadlineIdentity : Z;
  ip_Timeout : Z;
  ip_Request : DeviceIDRequest;
  ip_Limits : DeviceIDLimits;
  ip_Decoding : Z
}.

Record TCPDispatch : Type := mkTCPDispatch {
  td_endpoint : Z;
  td_dispatchID : Z;
  td_requestID : Z
}.

Inductive endpointRequestPhase : Type :=
| endpointRequestQueued
| endpointRequestDispatched
| endpointRequestWriting
| endpointRequestWaiting.

#[export] Instance phase_eq_dec : EqDecision endpointRequestPhase.
Proof. solve_decision. Defined.

Record endpointConnection : Type := mkEndpointConnection {
  ec_lease : TCPConnectionLease;
  ec_handle : TCPConnectionHandle
}.

(** The transport of a connection with the owner it is bound to and what closing its
    socket answers. *)
Record attachment : Type := mkAttachment {
  at_owner : Z;
  at_transport : TCPTransport;
  at_closeErr : errors
}.

(** A request without a group is a Device Identification traversal. *)
Record endpointRequest : Type := mkEndpointRequest {
  er_serial : Z;
  er_handle : TCPRequestHandle;
  er_connectionID : Z;
  er_transportGeneration : Z;
  er_unitID : Z;
  er_authorizationScope : string;
  er_pollGeneration : Z;
  er_deadlineIdentity : Z;
  er_group : option Z;
  er_deviceID : DeviceIDRequest;
  er_deviceIDInitial : DeviceIDRequest;
  er_deviceIDLimits : DeviceIDLimits;
  er_deviceIDDecoding : Z;
  er_deviceIDSegments : list DeviceIDSegment;
  er_deviceIDTraversal : option deviceIDTolerantTraversal;
  er_operationDeadline : Z;
  er_phase : endpointRequestPhase;
  er_dispatchID : Z;
  er_physicalRequestID : Z;
  er_transactionID : Z;
  er_responseDeadline : Z
}.

#[export] Instance endpoint_request_fields : Fields endpointRequest := fun r =>
  mkEndpointRequest (er_serial r) (er_handle r) (er_connectionID r) (er_transportGeneration r) (er_unitID r)
    (er_authorizationScope r) (er_pollGeneration r) (er_deadlineIdentity r) (er_group r) (er_deviceID r)
    (er_deviceIDInitial r) (er_deviceIDLimits r) (er_deviceIDDecoding r) (er_deviceIDSegments r)
    (er_deviceIDTraversal r) (er_operationDeadline r) (er_phase r) (er_dispatchID r) (er_physicalRequestID r) (er_transactionID r) (er_responseDeadline r).

(** [nd_remotes] are the process-wide claims of endpoints on remotes, [nd_sockets] those
    of transports on connections.  The flags [closed], [disableReason], [reconnect...]
    and the table [retryable] are in the ledger. *)
Record TCPEndpoint : Type := mkTCPEndpoint {
  nd_self : Z;
  nd_config : TCPEndpointConfig;
  nd_pool : PoolStore;
  nd_scheduler : EndpointScheduler;
  nd_backoff : ReconnectBackoff;
  nd_timeline : tcpEndpointTimeline;
  nd_connections : gmap Z endpointConnection;
  nd_attached : gmap Z attachment;
  nd_groups : gmap Z group;
  nd_requests : gmap Z endpointRequest;
  nd_physical : gmap (Z * Z) Z;
  nd_retiredPhysical : gmap (Z * Z) tcpEventFields;
  nd_ledger : retry_ledger;
  nd_nextRequestID : Z;
  nd_nextDispatchID : Z;
  nd_nextAddress : Z;
  nd_remoteEndpoint : string;
  nd_claimedRemote : bool;
  nd_remotes : gmap string Z;
  nd_sockets : gmap Z Z;
  nd_clock : nat -> Z;
  nd_ticks : nat
}.

#[export] Instance endpoint_fields : Fields TCPEndpoint := fun e =>
  mkTCPEndpoint (nd_self e) (nd_config e) (nd_pool e) (nd_scheduler e) (nd_backoff e) (nd_timeline e)
    (nd_connections e) (nd_attached e) (nd_groups e) (nd_requests e) (nd_physical e) (nd_retiredPhysical e)
    (nd_ledger e) (nd_nextRequestID e) (nd_nextDispatchID e) (nd_nextAddress e) (nd_remoteEndpoint e)
    (nd_claimedRemote e) (nd_remotes e) (nd_sockets e) (nd_clock e) (nd_ticks e).

Definition nd_closed (e : TCPEndpoint) : bool := rl_closed (nd_ledger e).

Definition with_ledger (e : TCPEndpoint) (f : retry_ledger -> retry_ledger) : TCPEndpoint :=
  e <| nd_ledger := f (nd_ledger e) |>.

(** A call of [Clock.Now]. *)
Definition tick (e : TCPEndpoint) : TCPEndpoint * Z :=
  (e <| nd_ticks := S (nd_ticks e) |>, nd_clock e (nd_ticks e)).

Definition record_event (e : TCPEndpoint) (kind : TCPTransportEventKind) (fields : tcpEventFields) : TCPEndpoint :=
  let '(e, now) := tick e in
  e <| nd_timeline := fst (record (nd_timeline e) kind fields now) |>.

Definition timelineAvailable (e : TCPEndpoint) : bool := negb (Exhausted (nd_timeline e)).

Definition invalidEndpointConfig : ProtocolError :=
  protocolError ErrorInvalidRequest 0 0 "tcp_endpoint_config" (-1).

Definition eventSequenceError : ProtocolError :=
  protocolError ErrorInvalidRange 0 0 "event_sequence" (-1).

Definition invalidConnectionHandle : ProtocolError :=
  protocolError ErrorInvalidRequest 0 0 "tcp_connection_handle" (-1).

Definition isDeviceID (r : endpointRequest) : bool := negb (bool_decide (is_Some (er_group r))).

(** * The components behind a connection *)

(** What [FinishCoalesced] answers for a group when those of [done] are finished. *)
Definition finish_errors (s : EndpointScheduler) (done : list Z) (address : Z) : errors :=
  protocol_error (snd (FinishCoalesced (foldl (fun s a => fst (FinishCoalesced s a)) s done) address)).

Definition link_of (e : TCPEndpoint) (connectionID : Z) : option link :=
  match nd_attached e !! connectionID with
  | None => None
  | Some a =>
      match ps_owners (nd_pool e) !! at_owner a with
      | None => None
      | Some o =>
          Some {| lk_owner := o; lk_transport := at_transport a; lk_timeline := nd_timeline e;
                  lk_groups := nd_groups e; lk_claims := nd_sockets e; lk_closeErr := at_closeErr a;
                  lk_finish := finish_errors (nd_scheduler e); lk_finished := []; lk_slots := 0;
                  lk_reconnects := 0 |}
      end
  end.

Definition group_key (g : group) : AdmissionKey :=
  {| ak_AuthorizationScope := cr_authorizationScope g; ak_UnitID := cr_unitID g |}.

(** The dependents that stopped being active give their admission back. *)
Definition release_dependents (after : gmap Z group) (s : EndpointScheduler) (before : Z * group)
    : EndpointScheduler :=
  match after !! before.1 with
  | None => s
  | Some g =>
      releaseCoalescedDependents s (group_key g)
        (activeDependentCountLocked before.2 - activeDependentCountLocked g)
  end.

(** The endpoint after its connection's components have become [l]. *)
Definition put_link (e : TCPEndpoint) (connectionID : Z) (l : link) : TCPEndpoint :=
  match nd_attached e !! connectionID with
  | None => e
  | Some a =>
      let s := foldl (release_dependents (lk_groups l)) (nd_scheduler e) (map_to_list (nd_groups e)) in
      let s := foldl (fun s address => fst (FinishCoalesced s address)) s (lk_finished l) in
      let pool := store_owner (at_owner a) (lk_owner l) (nd_pool e) in
      let pool :=
        if lk_slots l >? 0 then releaseLostConnection pool (ow_connectionID (lk_owner l)) (at_owner a) else pool in
      let e :=
        e <| nd_scheduler := s |> <| nd_pool := pool |> <| nd_timeline := lk_timeline l |>
          <| nd_groups := lk_groups l |> <| nd_sockets := lk_claims l |>
          <| nd_attached :=
               <[connectionID := {| at_owner := at_owner a; at_transport := lk_transport l;
                                    at_closeErr := at_closeErr a |}]> (nd_attached e) |> in
      if lk_reconnects l >? 0 then with_ledger e markReconnectRequired else e
  end.

(** An operation on the components of a connection. *)
Definition on_link {A} (e : TCPEndpoint) (connectionID : Z) (missing : A) (f : link -> link * A)
    : TCPEndpoint * A :=
  match link_of e connectionID with
  | None => (e, missing)
  | Some l => let '(l, result) := f l in (put_link e connectionID l, result)
  end.

Definition connectionLocked (e : TCPEndpoint) (handle : TCPConnectionHandle) : option endpointConnection :=
  if negb (ch_endpoint handle =? nd_self e) || (ch_connectionID handle =? 0) || (ch_generation handle =? 0) then
    None
  else
    match nd_connections e !! ch_connectionID handle with
    | None => None
    | Some c =>
        if negb (ch_generation (ec_handle c) =? ch_generation handle)
           || negb (bool_decide (is_Some (ownerForEndpoint (nd_pool e) (ec_lease c)))) then None
        else Some c
    end.

(** * Events *)

Definition requestEventFields (e : TCPEndpoint) (r : endpointRequest) : tcpEventFields :=
  let fields :=
    no_fields <| ef_ConnectionID := er_connectionID r |>
      <| ef_TransportGeneration := er_transportGeneration r |> <| ef_RequestID := th_requestID (er_handle r) |>
      <| ef_PhysicalRequestID := er_physicalRequestID r |> <| ef_TransactionID := er_transactionID r |>
      <| ef_UnitID := er_unitID r |> <| ef_AuthorizationScope := er_authorizationScope r |>
      <| ef_PollGeneration := er_pollGeneration r |> <| ef_DeadlineIdentity := er_deadlineIdentity r |>
      <| ef_DeadlineOffset :=
           if er_responseDeadline r >? 0 then er_responseDeadline r else th_deadlineOffset (er_handle r) |> in
  match er_group r with
  | None => fields <| ef_RequestedFunction := FunctionEncapsulatedInterface |>
  | Some address =>
      match nd_groups e !! address with
      | None => fields
      | Some g =>
          let physical := cr_physical g in
          fields <| ef_RequestedFunction := rr_function physical |> <| ef_LogicalTable := rr_table physical |>
            <| ef_PhysicalOffset := rr_offset physical |> <| ef_PhysicalQuantity := rr_quantity physical |>
      end
  end.

(** * The end of requests *)

(** Whether an error is only that the request is in another state. *)
Definition but_request_state (err : option ProtocolError) : errors :=
  match err with
  | Some err => if String.eqb (pe_Field err) "request_state" then [] else [ErrProtocol err]
  | None => []
  end.

Definition failRequestSchedulingLocked (e : TCPEndpoint) (r : endpointRequest) : TCPEndpoint * errors :=
  match er_group r with
  | Some address => on_link e (er_connectionID r) [] (fun l => FailTransport l address)
  | None =>
      if bool_decide (er_phase r = endpointRequestQueued) then
        (e <| nd_scheduler := fst (CancelQueued (nd_scheduler e) (th_requestID (er_handle r))) |>, [])
      else
        let '(s, err) := Complete (nd_scheduler e) (th_requestID (er_handle r)) in
        (e <| nd_scheduler := s |>, but_request_state err)
  end.

Definition failRequest (e : TCPEndpoint) (r : endpointRequest) : TCPEndpoint * errors :=
  failRequestSchedulingLocked e r.

Definition removeRequestLocked (e : TCPEndpoint) (requestID : Z) : TCPEndpoint :=
  match nd_requests e !! requestID with
  | None => e
  | Some r =>
      let e :=
        e <| nd_requests := delete requestID (nd_requests e) |>
          <| nd_timeline := forgetEnqueue (nd_timeline e) requestID |> in
      if er_physicalRequestID r =? 0 then e
      else e <| nd_physical := delete (er_connectionID r, er_physicalRequestID r) (nd_physical e) |>
  end.

(** The ledger's [setRequestRetryState], which reads the clock for a retryable handle. *)
Definition set_retry_state (e : TCPEndpoint) (h : TCPRequestHandle) (lifecycle : tcpRequestLifecycle)
    (requiresBackoff : bool) : TCPEndpoint :=
  let '(e, now) := if bool_decide (lifecycle = tcpRequestRetryable) then tick e else (e, 0) in
  with_ledger e (fun l => setRequestRetryState l h lifecycle requiresBackoff now).

Definition end_lifecycle (e : TCPEndpoint) (h : TCPRequestHandle) : TCPEndpoint :=
  with_ledger e (fun l => setTCPRequestLifecycle l h tcpRequestTerminal).

Definition finishRequest (e : TCPEndpoint) (requestID : Z) : TCPEndpoint :=
  let request := nd_requests e !! requestID in
  let e := removeRequestLocked e requestID in
  match request with
  | None => e
  | Some r => end_lifecycle e (er_handle r)
  end.

Definition finishRequestRetryable (e : TCPEndpoint) (requestID : Z) (requiresBackoff : bool) : TCPEndpoint :=
  let request := nd_requests e !! requestID in
  let e := removeRequestLocked e requestID in
  match request with
  | None => e
  | Some r =>
      let '(e, now) := tick e in
      set_retry_state e (er_handle r)
        (if now >=? er_operationDeadline r then tcpRequestTerminal else tcpRequestRetryable) requiresBackoff
  end.

(** The identifiers of a table in order. *)
Definition sorted_keys {A} (m : gmap Z A) : list Z := merge_sort Z.le (fst <$> map_to_list m).

Definition take_requests (e : TCPEndpoint) (ids : list Z) : TCPEndpoint * list endpointRequest :=
  (foldl removeRequestLocked e ids, omap (fun id => nd_requests e !! id) ids).

Definition removeConnectionRequestsLocked (e : TCPEndpoint) (connectionID : Z)
    : TCPEndpoint * list endpointRequest :=
  take_requests e (sorted_keys (filter (fun p => er_connectionID p.2 = connectionID) (nd_requests e))).

Definition forget_connection (e : TCPEndpoint) (connectionID : Z) : TCPEndpoint :=
  e <| nd_connections := delete connectionID (nd_connections e) |>
    <| nd_retiredPhysical := filter (fun p => p.1.1 <> connectionID) (nd_retiredPhysical e) |>.

(** One request of a connection that was dropped at [now]. *)
Definition drop_request_of (now : Z) (e : TCPEndpoint) (r : endpointRequest) : TCPEndpoint :=
  let lifecycle := if now >=? er_operationDeadline r then tcpRequestTerminal else tcpRequestRetryable in
  let e := set_retry_state e (er_handle r) lifecycle (bool_decide (lifecycle = tcpRequestRetryable)) in
  fst (failRequest e r).

Definition dropConnection (e : TCPEndpoint) (connectionID : Z) : TCPEndpoint :=
  let e := forget_connection e connectionID in
  let '(e, requests) := removeConnectionRequestsLocked e connectionID in
  let '(e, now) := tick e in
  foldl (drop_request_of now) e requests.

(** * Closing *)

(** [pool.closeConnection] with the transport the retired owner detaches. *)
Definition close_lease (e : TCPEndpoint) (lease : TCPConnectionLease) : TCPEndpoint * errors :=
  let pool := ps_pool (nd_pool e) in
  if negb (le_pool lease =? po_self pool) || (le_connectionID lease =? 0)
     || negb (bool_decide (po_connections pool !! le_connectionID lease = Some (le_owner lease))) then
    (e, [ErrProtocol (owner_request_error "connection_lease")])
  else
    let e := fst (on_link e (le_connectionID lease) tt (fun l => (owner_call l OpRetire, tt))) in
    let pool := ps_pool (nd_pool e) in
    (e <| nd_pool :=
       with_pool (set_connections (delete (le_connectionID lease) (po_connections pool)) pool) (nd_pool e) |>, []).

(** The loop over the requests that end with their connection or endpoint. *)
Fixpoint end_requests (e : TCPEndpoint) (requests : list endpointRequest) : TCPEndpoint * errors :=
  match requests with
  | [] => (e, [])
  | r :: requests =>
      let '(e, errs) := failRequest (end_lifecycle e (er_handle r)) r in
      let '(e, errs') := end_requests e requests in
      (e, errs ++ errs')
  end.

Fixpoint close_leases (e : TCPEndpoint) (leases : list TCPConnectionLease) : TCPEndpoint * errors :=
  match leases with
  | [] => (e, [])
  | lease :: leases =>
      let '(e, errs) := close_lease e lease in
      let '(e, errs') := close_leases e leases in
      (e, errs ++ errs')
  end.

Definition CloseConnection (e : TCPEndpoint) (handle : TCPConnectionHandle) : TCPEndpoint * errors :=
  match connectionLocked e handle with
  | None => (e, [ErrProtocol invalidConnectionHandle])
  | Some c =>
      let e := forget_connection e (ch_connectionID handle) in
      let '(e, requests) := removeConnectionRequestsLocked e (ch_connectionID handle) in
      let '(e, errs) := close_lease e (ec_lease c) in
      let '(e, errs') := end_requests e requests in
      (e, errs ++ errs')
  end.

Definition releaseRemoteClaim (e : TCPEndpoint) : TCPEndpoint :=
  let e :=
    if nd_claimedRemote e && bool_decide (nd_remotes e !! nd_remoteEndpoint e = Some (nd_self e)) then
      e <| nd_remotes := delete (nd_remoteEndpoint e) (nd_remotes e) |>
    else e in
  e <| nd_claimedRemote := false |>.

(** The ledger is closed with the flags, before the requests end one by one. *)
Definition TCPEndpointClose (e : TCPEndpoint) : TCPEndpoint * errors :=
  if nd_closed e then (e, [])
  else
    let connections := omap (fun id => nd_connections e !! id) (sorted_keys (nd_connections e)) in
    let e := e <| nd_connections := ∅ |> <| nd_retiredPhysical := ∅ |> in
    let '(e, requests) := take_requests e (sorted_keys (nd_requests e)) in
    let e := with_ledger e (fun l => close_ledger l []) in
    let '(e, errs) := end_requests e requests in
    let '(e, errs') := close_leases e (ec_lease <$> connections) in
    (releaseRemoteClaim e, errs ++ errs').

Definition disable (e : TCPEndpoint) (reason : string) : TCPEndpoint :=
  fst (TCPEndpointClose (with_ledger e (fun l => record_reason l reason))).

(** * Construction and connections *)

(** [remote] is what [configuredTCPRemote] makes of the endpoint's address. *)
Definition NewTCPEndpoint (self : Z) (config : TCPEndpointConfig) (remote : presult string)
    (remotes : gmap string Z) (sockets : gmap Z Z) (clock : nat -> Z) : presult TCPEndpoint :=
  let limits := eg_PoolLimits config in
  match remote with
  | Err _ => Err invalidEndpointConfig
  | Ok remote =>
  if (eg_MaxBufferedBytes config <? mbapHeaderSize) || (eg_MaxBufferedBytes config >? maxTCPDecoderBuffer)
     || negb (validTCPFraming (eg_Framing config))
     || ((eg_Framing config =? TCPFramingTolerant) && (eg_MaxBufferedBytes config <? maxTolerantTCPADUSize))
     || (eg_MaxRequestDeadline config <=? 0) || (eg_MaxResponseDeadline config <=? 0)
     || (eg_MaxResponseDeadline config >? eg_MaxRequestDeadline config)
     || String.eqb (eg_Clock config) "" || (clock 0%nat <? 0)
     || (pl_MaxConnections limits <=? 0) || (cl_MaxInFlight (pl_Connection limits) <=? 0)
     || (pl_MaxConnections limits >? MaxInt64 / cl_MaxInFlight (pl_Connection limits))
     || (sl_MaxInFlightRequests (eg_SchedulerLimits config)
         >? pl_MaxConnections limits * cl_MaxInFlight (pl_Connection limits)) then
    Err invalidEndpointConfig
  else
  match newTCPEndpointPool self (eg_Endpoint config) limits with
  | Err err => Err err
  | Ok pool =>
  match newEndpointScheduler (eg_SchedulerLimits config) with
  | Err err => Err err
  | Ok scheduler =>
  match newReconnectBackoff (eg_Backoff config) with
  | Err err => Err err
  | Ok backoff =>
      Ok {| nd_self := self; nd_config := config;
            nd_pool := {| ps_pool := pool; ps_owners := ∅; ps_nextAddress := 1 |};
            nd_scheduler := scheduler; nd_backoff := backoff;
            nd_timeline := newTCPEndpointTimeline (eg_Endpoint config) (eg_Clock config) (eg_EventSink config);
            nd_connections := ∅; nd_attached := ∅; nd_groups := ∅; nd_requests := ∅; nd_physical := ∅;
            nd_retiredPhysical := ∅;
            nd_ledger :=
              {| rl_capacity := sl_MaxInFlightRequests (eg_SchedulerLimits config);
                 rl_maxRetries := sl_MaxRetryAttempts (eg_SchedulerLimits config);
                 rl_maxDeadline := eg_MaxRequestDeadline config; rl_states := ∅; rl_retryable := ∅;
                 rl_reconnectRequired := false; rl_reconnectReady := false; rl_reconnectWaiting := false;
                 rl_disableReason := ""; rl_closed := false; rl_others := [] |};
            nd_nextRequestID := 1; nd_nextDispatchID := 1; nd_nextAddress := 1; nd_remoteEndpoint := remote;
            nd_claimedRemote := false; nd_remotes := remotes; nd_sockets := sockets; nd_clock := clock;
            nd_ticks := 1 |}
  end
  end
  end
  end.

(** What the package finds out about a connection it is given: whether it is a trusted
    decorator; the connection below the decorators, when it is a TCP socket, by its
    remote address if it has one; the canonical identity; and what closing it answers. *)
Record raw_connection : Type := mkRawConnection {
  cn_trusted : bool;
  cn_base : presult (option (option string));
  cn_identity : presult Z;
  cn_closeErr : errors
}.

Definition claimRemoteForConnection (e : TCPEndpoint) (conn : raw_connection) : TCPEndpoint * presult bool :=
  let identity_error := protocolError ErrorInvalidRequest 0 0 "endpoint_remote_identity" (-1) in
  match cn_base conn with
  | Err err => (e, Err err)
  | Ok None => (e, if cn_trusted conn then Ok false else Err identity_error)
  | Ok (Some remote) =>
      if negb (bool_decide (remote = Some (nd_remoteEndpoint e))) then (e, Err identity_error)
      else
        match nd_remotes e !! nd_remoteEndpoint e with
        | Some current =>
            if negb (current =? nd_self e) then
              (e, Err (protocolError ErrorInvalidRequest 0 0 "endpoint_already_owned" (-1)))
            else (e, Ok false)
        | None =>
            (e <| nd_remotes := <[nd_remoteEndpoint e := nd_self e]> (nd_remotes e) |>
               <| nd_claimedRemote := true |>, Ok true)
        end
  end.

Definition releaseRemoteClaimIfUnused (e : TCPEndpoint) (newClaim : bool) : TCPEndpoint :=
  if negb newClaim || negb (bool_decide (nd_connections e = ∅)) then e
  else if bool_decide (nd_remotes e !! nd_remoteEndpoint e = Some (nd_self e)) then
    e <| nd_remotes := delete (nd_remoteEndpoint e) (nd_remotes e) |> <| nd_claimedRemote := false |>
  else e.

(** The new transport of an owner of the pool, or the error. *)
Definition attach_transport (e : TCPEndpoint) (lease : TCPConnectionLease) (conn : raw_connection)
    : TCPEndpoint * presult Z :=
  match ps_owners (nd_pool e) !! le_owner lease with
  | None => (e, Err invalidEndpointConfig)
  | Some o =>
      let config :=
        {| tg_MaxBufferedBytes := eg_MaxBufferedBytes (nd_config e); tg_Framing := eg_Framing (nd_config e);
           tg_RequestDeadline := eg_MaxRequestDeadline (nd_config e);
           tg_ResponseDeadline := eg_MaxResponseDeadline (nd_config e); tg_Clock := eg_Clock (nd_config e);
           tg_EventSink := eg_EventSink (nd_config e); tg_timeline := Some (nd_timeline e) |} in
      let self := nd_nextAddress e in
      let '(o, claims, result) := newTCPTransportWithConfig self (cn_identity conn) o config (nd_sockets e) in
      let e :=
        e <| nd_nextAddress := self + 1 |> <| nd_sockets := claims |>
          <| nd_pool := store_owner (le_owner lease) o (nd_pool e) |> in
      match result with
      | Err err => (e, Err err)
      | Ok (transport, _) =>
          (e <| nd_attached :=
             <[le_connectionID lease :=
                 {| at_owner := le_owner lease; at_transport := transport; at_closeErr := cn_closeErr conn |}]>
               (nd_attached e) |>, Ok (ow_generation o))
      end
  end.

Definition OpenConnection (e : TCPEndpoint) (conn : raw_connection) : TCPEndpoint * presult TCPConnectionHandle :=
  if negb (timelineAvailable e) then (disable e "event_sequence_exhausted", Err invalidEndpointConfig)
  else if nd_closed e then (e, Err invalidEndpointConfig)
  else if rl_reconnectRequired (nd_ledger e) && negb (rl_reconnectReady (nd_ledger e)) then
    (e, Err (protocolError ErrorInvalidRequest 0 0 "reconnect_backoff" (-1)))
  else
  match claimRemoteForConnection e conn with
  | (e, Err err) => (e, Err err)
  | (e, Ok newClaim) =>
  match openConnection (nd_pool e) with
  | (pool, Err err) => (releaseRemoteClaimIfUnused (e <| nd_pool := pool |>) newClaim, Err err)
  | (pool, Ok lease) =>
  match attach_transport (e <| nd_pool := pool |>) lease conn with
  | (e, Err err) =>
      let e := fst (close_lease e lease) in
      (releaseRemoteClaimIfUnused e newClaim, Err err)
  | (e, Ok generation) =>
      let handle :=
        {| ch_endpoint := nd_self e; ch_connectionID := le_connectionID lease; ch_generation := generation |} in
      let e :=
        e <| nd_connections :=
          <[le_connectionID lease := {| ec_lease := lease; ec_handle := handle |}]> (nd_connections e) |> in
      let reconnected := rl_reconnectRequired (nd_ledger e) in
      let e := with_ledger e connected in
      if reconnected then
        let '(e, now) := tick e in
        let e :=
          e <| nd_timeline :=
            recordReconnect (nd_timeline e)
              (no_fields <| ef_ConnectionID := ch_connectionID handle |>
                 <| ef_TransportGeneration := ch_generation handle |>) now |> in
        if negb (timelineAvailable e) then (disable e "event_sequence_exhausted", Err eventSequenceError)
        else (e, Ok handle)
      else (e, Ok handle)
  end
  end
  end.

(** * Admission *)

Definition read_intent (e : TCPEndpoint) (generation unitID : Z) (scope : string) (poll identity : Z)
    (logical : TCPLogicalRead) : presult ReadIntentSpec :=
  NewReadIntent
    {| is_LogicalViewID := tq_LogicalViewID logical; is_Endpoint := eg_Endpoint (nd_config e);
       is_Transport := TransportTCP; is_TransportGeneration := generation; is_UnitID := unitID;
       is_AuthorizationScope := scope; is_PollGeneration := poll; is_DeadlineIdentity := identity;
       is_Request := tq_Request logical |}.

(** The intents of a plan, or the first error. *)
Fixpoint collect {A} (results : list (presult A)) : presult (list A) :=
  match results with
  | [] => Ok []
  | Err err :: _ => Err err
  | Ok x :: results => match collect results with Ok xs => Ok (x :: xs) | Err err => Err err end
  end.

Definition invalid_plan (e : TCPEndpoint) (connection : TCPConnectionHandle) (unitID : Z) (scope : string)
    (poll identity timeout now : Z) : bool :=
  negb (bool_decide (is_Some (connectionLocked e connection))) || nd_closed e || (unitID >? 247)
  || String.eqb scope "" || (poll =? 0) || (identity =? 0) || (timeout <=? 0)
  || (timeout >? eg_MaxRequestDeadline (nd_config e)) || (now <? 0) || (timeout >? MaxInt64 - now).

Definition plan_fields (connection : TCPConnectionHandle) (requestID unitID : Z) (scope : string)
    (poll identity deadline : Z) : tcpEventFields :=
  no_fields <| ef_ConnectionID := ch_connectionID connection |>
    <| ef_TransportGeneration := ch_generation connection |> <| ef_RequestID := requestID |>
    <| ef_UnitID := unitID |> <| ef_AuthorizationScope := scope |> <| ef_PollGeneration := poll |>
    <| ef_DeadlineIdentity := identity |> <| ef_DeadlineOffset := deadline |>.

Definition with_detail (fields : tcpEventFields) (detail : string) : tcpEventFields :=
  fields <| ef_Detail := detail |>.

Definition scheduled_of (requestID unitID : Z) (scope : string) (deadline : Z) : ScheduledRequest :=
  {| sr_RequestID := requestID; sr_Key := {| ak_AuthorizationScope := scope; ak_UnitID := unitID |};
     sr_DeadlineOffset := deadline |}.

Definition record_coalescing (e : TCPEndpoint) (fields : tcpEventFields) (views : Z) : TCPEndpoint :=
  if views <? 2 then e
  else
    let '(e, now) := tick e in
    e <| nd_timeline := recordCoalescing (nd_timeline e) fields views now |>.

(** The group of a request that did not make it fails; the event says why. *)
Definition give_up_group (e : TCPEndpoint) (connectionID address : Z) (fields : tcpEventFields)
    (detail : string) : TCPEndpoint :=
  let e := fst (on_link e connectionID [] (fun l => FailTransport l address)) in
  record_event e TCPEventAdmission (with_detail fields detail).

(** The events that end an admission. *)
Definition admitted_events (e : TCPEndpoint) (fields : tcpEventFields) (handle : TCPRequestHandle)
    : TCPEndpoint * presult TCPRequestHandle :=
  let e := record_event e TCPEventAdmission (with_detail fields "admitted") in
  let e := record_event e TCPEventRequestTimerArm (with_detail fields "admitted") in
  if negb (timelineAvailable e) then (disable e "event_sequence_exhausted", Err eventSequenceError)
  else (e, Ok handle).

Definition no_device_limits : DeviceIDLimits := {| dl_MaxSegments := 0; dl_MaxObjects := 0; dl_MaxValueBytes := 0 |}.

Definition new_read_request (e : TCPEndpoint) (handle : TCPRequestHandle) (plan : TCPReadPlan)
    (connection : TCPConnectionHandle) (address : Z) : endpointRequest :=
  {| er_serial := nd_nextAddress e; er_handle := handle; er_connectionID := ch_connectionID connection;
     er_transportGeneration := ch_generation connection; er_unitID := rp_UnitID plan;
     er_authorizationScope := rp_AuthorizationScope plan; er_pollGeneration := rp_PollGeneration plan;
     er_deadlineIdentity := rp_DeadlineIdentity plan; er_group := Some address;
     er_deviceID := zeroDeviceIDRequest; er_deviceIDInitial := zeroDeviceIDRequest;
     er_deviceIDLimits := no_device_limits; er_deviceIDDecoding := 0; er_deviceIDSegments := [];
     er_deviceIDTraversal := None;
     er_operationDeadline := th_deadlineOffset handle; er_phase := endpointRequestQueued; er_dispatchID := 0;
     er_physicalRequestID := 0; er_transactionID := 0; er_responseDeadline := 0 |}.

(** [others] is what other threads do to the endpoint between the scheduler's admission
    and the endpoint's.  The copy of the deadline the group is given is never read. *)
Definition EnqueueRead (e : TCPEndpoint) (plan : TCPReadPlan) (others : TCPEndpoint -> TCPEndpoint)
    : TCPEndpoint * presult TCPRequestHandle :=
  if negb (timelineAvailable e) then (disable e "event_sequence_exhausted", Err invalidEndpointConfig)
  else
  let '(e, now) := tick e in
  if invalid_plan e (rp_Connection plan) (rp_UnitID plan) (rp_AuthorizationScope plan) (rp_PollGeneration plan)
       (rp_DeadlineIdentity plan) (rp_Timeout plan) now || (zlen (rp_Reads plan) =? 0) then
    (e, Err (protocolError ErrorInvalidRequest 0 0 "tcp_read_plan" (-1)))
  else if nd_nextRequestID e =? 0 then
    (disable e "request_identity_exhausted", Err (protocolError ErrorInvalidRange 0 0 "request_identity" (-1)))
  else
  let requestID := nd_nextRequestID e in
  let connection := rp_Connection plan in
  let deadline := now + rp_Timeout plan in
  let handle := {| th_endpoint := nd_self e; th_requestID := requestID; th_deadlineOffset := deadline |} in
  match collect (read_intent e (ch_generation connection) (rp_UnitID plan) (rp_AuthorizationScope plan)
                   (rp_PollGeneration plan) (rp_DeadlineIdentity plan) <$> rp_Reads plan) with
  | Err err => (e, Err err)
  | Ok intents =>
  let fields := plan_fields connection requestID (rp_UnitID plan) (rp_AuthorizationScope plan)
                  (rp_PollGeneration plan) (rp_DeadlineIdentity plan) deadline in
  let e := record_event e TCPEventEnqueue fields in
  if negb (timelineAvailable e) then (disable e "event_sequence_exhausted", Err eventSequenceError)
  else
  let address := nd_nextAddress e in
  match ScheduleCoalesced (nd_scheduler e)
          (scheduled_of requestID (rp_UnitID plan) (rp_AuthorizationScope plan) deadline) intents address with
  | (s, Err err) =>
      (record_event (e <| nd_scheduler := s |>) TCPEventAdmission (with_detail fields "rejected"), Err err)
  | (s, Ok g) =>
  let e :=
    e <| nd_scheduler := s |> <| nd_groups := <[address := g]> (nd_groups e) |>
      <| nd_nextAddress := address + 1 |> in
  let e := others e in
  if nd_closed e then
    (give_up_group e (ch_connectionID connection) address fields "closed", Err invalidEndpointConfig)
  else if negb (bool_decide (is_Some (connectionLocked e connection))) then
    (give_up_group e (ch_connectionID connection) address fields "stale_connection", Err invalidConnectionHandle)
  else if negb (nd_nextRequestID e =? requestID) then
    (disable (give_up_group e (ch_connectionID connection) address fields "request_identity_changed")
       "request_identity_invariant",
     Err (protocolError ErrorInvalidRange 0 0 "request_identity" (-1)))
  else
  let e :=
    e <| nd_requests := <[requestID := new_read_request e handle plan connection address]> (nd_requests e) |>
      <| nd_nextRequestID := wrap64 (requestID + 1) |> <| nd_nextAddress := nd_nextAddress e + 1 |> in
  let e :=
    with_ledger e (fun l =>
      admit_request l handle (rp_UnitID plan) (rp_AuthorizationScope plan) (rp_PollGeneration plan)
        (rp_DeadlineIdentity plan) (rp_Reads plan) None no_device_limits 0) in
  let e := record_coalescing e fields (zlen (rp_Reads plan)) in
  admitted_events e fields handle
  end
  end.

Definition new_device_id_request (e : TCPEndpoint) (handle : TCPRequestHandle) (plan : TCPDeviceIDPlan)
    (connection : TCPConnectionHandle) : endpointRequest :=
  {| er_serial := nd_nextAddress e; er_handle := handle; er_connectionID := ch_connectionID connection;
     er_transportGeneration := ch_generation connection; er_unitID := ip_UnitID plan;
     er_authorizationScope := ip_AuthorizationScope plan; er_pollGeneration := ip_PollGeneration plan;
     er_deadlineIdentity := ip_DeadlineIdentity plan; er_group := None; er_deviceID := ip_Request plan;
     er_deviceIDInitial := ip_Request plan; er_deviceIDLimits := ip_Limits plan;
     er_deviceIDDecoding := ip_Decoding plan; er_deviceIDSegments := []; er_deviceIDTraversal := None;
     er_operationDeadline := th_deadlineOffset handle;
     er_phase := endpointRequestQueued; er_dispatchID := 0; er_physicalRequestID := 0; er_transactionID := 0;
     er_responseDeadline := 0 |}.

Definition device_id_error (kind : ErrorKind) (field : string) : ProtocolError :=
  protocolError kind FunctionEncapsulatedInterface 0 field (-1).

Definition EnqueueDeviceID (e : TCPEndpoint) (plan : TCPDeviceIDPlan) (others : TCPEndpoint -> TCPEndpoint)
    : TCPEndpoint * presult TCPRequestHandle :=
  match validateDeviceIDRequest (ip_Request plan), validateDeviceIDLimits (ip_Limits plan) with
  | Some err, _ => (e, Err err)
  | None, Some err => (e, Err err)
  | None, None =>
  if negb (validDeviceIDDecoding (ip_Decoding plan)) then
    (e, Err (device_id_error ErrorInvalidRequest "device_id_decoding"))
  else if negb (timelineAvailable e) then (disable e "event_sequence_exhausted", Err invalidEndpointConfig)
  else
  let '(e, now) := tick e in
  if invalid_plan e (ip_Connection plan) (ip_UnitID plan) (ip_AuthorizationScope plan) (ip_PollGeneration plan)
       (ip_DeadlineIdentity plan) (ip_Timeout plan) now then
    (e, Err (device_id_error ErrorInvalidRequest "tcp_device_id_plan"))
  else if nd_nextRequestID e =? 0 then
    (disable e "request_identity_exhausted", Err (device_id_error ErrorInvalidRange "request_identity"))
  else
  let requestID := nd_nextRequestID e in
  let connection := ip_Connection plan in
  let deadline := now + ip_Timeout plan in
  let handle := {| th_endpoint := nd_self e; th_requestID := requestID; th_deadlineOffset := deadline |} in
  let fields :=
    (plan_fields connection requestID (ip_UnitID plan) (ip_AuthorizationScope plan) (ip_PollGeneration plan)
       (ip_DeadlineIdentity plan) deadline) <| ef_RequestedFunction := FunctionEncapsulatedInterface |> in
  let e := record_event e TCPEventEnqueue fields in
  if negb (timelineAvailable e) then (disable e "event_sequence_exhausted", Err eventSequenceError)
  else
  match Enqueue (nd_scheduler e)
          (scheduled_of requestID (ip_UnitID plan) (ip_AuthorizationScope plan) deadline) with
  | (s, Some err) =>
      (record_event (e <| nd_scheduler := s |>) TCPEventAdmission (with_detail fields "rejected"), Err err)
  | (s, None) =>
  let e := others (e <| nd_scheduler := s |>) in
  if nd_closed e || negb (bool_decide (is_Some (connectionLocked e connection)))
     || negb (nd_nextRequestID e =? requestID) then
    let e := e <| nd_scheduler := fst (CancelQueued (nd_scheduler e) requestID) |> in
    (record_event e TCPEventAdmission (with_detail fields "stale_connection"), Err invalidConnectionHandle)
  else
  let e :=
    e <| nd_requests := <[requestID := new_device_id_request e handle plan connection]> (nd_requests e) |>
      <| nd_nextRequestID := wrap64 (requestID + 1) |> <| nd_nextAddress := nd_nextAddress e + 1 |> in
  let e :=
    with_ledger e (fun l =>
      admit_request l handle (ip_UnitID plan) (ip_AuthorizationScope plan) (ip_PollGeneration plan)
        (ip_DeadlineIdentity plan) [] (Some (ip_Request plan)) (ip_Limits plan) (ip_Decoding plan)) in
  admitted_events e fields handle
  end
  end.

(** * Dispatch *)

(** The connection of the request a group belongs to, or else any: a group in the queue is
    bound to no transaction, so that it fails alike on each. *)
Definition group_connection (e : TCPEndpoint) (address : Z) : option Z :=
  match head (filter (fun r => er_group r = Some address) (snd <$> map_to_list (nd_requests e))) with
  | Some r => Some (er_connectionID r)
  | None => head (filter (fun id => is_Some (link_of e id)) (sorted_keys (nd_attached e)))
  end.

(** A group whose entry expired in the scheduler's queue; there are no groups before the
    first connection. *)
Definition fail_expired (e : TCPEndpoint) (address : Z) : TCPEndpoint :=
  match group_connection e address with
  | None => e
  | Some connectionID => fst (on_link e connectionID [] (fun l => FailTransport l address))
  end.

(** [scheduler.Dispatch]; [order] is the order in which it ranges over its keys. *)
Definition dispatch_scheduled (e : TCPEndpoint) (now : Z) (order : EndpointScheduler -> list AdmissionKey)
    : TCPEndpoint * option ScheduledRequest :=
  let '(s, (request, expired)) := Dispatch (nd_scheduler e) now (order (nd_scheduler e)) in
  (foldl fail_expired (e <| nd_scheduler := s |>) expired, request).

Definition request_expired (now : Z) (r : endpointRequest) : bool :=
  (bool_decide (er_phase r = endpointRequestQueued) || bool_decide (er_phase r = endpointRequestDispatched))
  && (er_operationDeadline r <=? now).

Definition expiry_before (a b : endpointRequest) : Prop :=
  th_deadlineOffset (er_handle a) < th_deadlineOffset (er_handle b) \/
  (th_deadlineOffset (er_handle a) = th_deadlineOffset (er_handle b) /\
   th_requestID (er_handle a) <= th_requestID (er_handle b)).
#[export] Instance expiry_before_dec a b : Decision (expiry_before a b).
Proof. unfold expiry_before. apply _. Defined.

(** The loop over the expired requests, with the fields of their events. *)
Fixpoint end_expired (e : TCPEndpoint) (expired : list endpointRequest) : TCPEndpoint * list tcpEventFields :=
  match expired with
  | [] => (e, [])
  | r :: expired =>
      let e := fst (failRequestSchedulingLocked (end_lifecycle e (er_handle r)) r) in
      let fields := requestEventFields e r in
      let '(e, rest) := end_expired e expired in
      (e, fields :: rest)
  end.

Definition pruneExpired (e : TCPEndpoint) (now : Z) : TCPEndpoint * list tcpEventFields :=
  let expired := filter (fun p => request_expired now p.2 = true) (nd_requests e) in
  let '(e, requests) := take_requests e (sorted_keys expired) in
  end_expired e (merge_sort expiry_before requests).

Definition recordRequestTimerFires (e : TCPEndpoint) (fields : list tcpEventFields) : TCPEndpoint :=
  foldl (fun e f => record_event e TCPEventRequestTimerFire f) e fields.

(** How one turn of the loop of [Dispatch] ends: another one follows, or it returns. *)
Inductive dispatch_turn : Type :=
| DispatchAgain (e : TCPEndpoint)
| DispatchReturns (e : TCPEndpoint) (dispatch : option TCPDispatch).

Definition dispatch_turn_of (e : TCPEndpoint) (order : EndpointScheduler -> list AdmissionKey) : dispatch_turn :=
  if nd_nextDispatchID e =? 0 then DispatchReturns (disable e "dispatch_identity_exhausted") None
  else
  let '(e, now) := tick e in
  let '(e, scheduled) := dispatch_scheduled e now order in
  let '(e, expiredFields) := pruneExpired e now in
  match scheduled with
  | None =>
      let e := recordRequestTimerFires e expiredFields in
      if zlen expiredFields >? 0 then DispatchAgain e else DispatchReturns e None
  | Some scheduled =>
  let requestID := sr_RequestID scheduled in
  match nd_requests e !! requestID with
  | None => DispatchAgain (recordRequestTimerFires e expiredFields)
  | Some r =>
  if negb (bool_decide (er_phase r = endpointRequestQueued)) || (er_operationDeadline r <=? now) then
    let e := recordRequestTimerFires (removeRequestLocked e requestID) expiredFields in
    DispatchAgain (fst (failRequestSchedulingLocked (end_lifecycle e (er_handle r)) r))
  else
  let stale :=
    match nd_connections e !! er_connectionID r with
    | None => true
    | Some c => negb (ch_generation (ec_handle c) =? er_transportGeneration r)
    end in
  if stale then
    let e := recordRequestTimerFires (removeRequestLocked e requestID) expiredFields in
    DispatchAgain (fst (failRequestSchedulingLocked (set_retry_state e (er_handle r) tcpRequestRetryable true) r))
  else
  let dispatchID := nd_nextDispatchID e in
  let r := r <| er_phase := endpointRequestDispatched |> <| er_dispatchID := dispatchID |> in
  let e :=
    e <| nd_nextDispatchID := wrap64 (dispatchID + 1) |> <| nd_requests := <[requestID := r]> (nd_requests e) |> in
  let fields := requestEventFields e r in
  let e := recordRequestTimerFires e expiredFields in
  let e := record_event e TCPEventQueueService fields in
  if negb (timelineAvailable e) then DispatchReturns (disable e "event_sequence_exhausted") None
  else
    DispatchReturns e
      (Some {| td_endpoint := nd_self e; td_dispatchID := dispatchID; td_requestID := requestID |})
  end
  end.

Fixpoint endpoint_dispatch_loop (fuel : nat) (e : TCPEndpoint) (order : EndpointScheduler -> list AdmissionKey)
    : option (TCPEndpoint * option TCPDispatch) :=
  match fuel with
  | O => None
  | S fuel =>
      match dispatch_turn_of e order with
      | DispatchAgain e => endpoint_dispatch_loop fuel e order
      | DispatchReturns e dispatch => Some (e, dispatch)
      end
  end.

(** [None] when [fuel] turns are not enough. *)
Definition EndpointDispatch (fuel : nat) (e : TCPEndpoint) (order : EndpointScheduler -> list AdmissionKey)
    : option (TCPEndpoint * option TCPDispatch) :=
  if negb (timelineAvailable e) then Some (disable e "event_sequence_exhausted", None)
  else endpoint_dispatch_loop fuel e order.
