(* ===== verification/TcpEndpointWire.v ===== *)
(** The TCP endpoint on the wire (tcp_endpoint_write.go, tcp_endpoint_response.go): the
    write of a dispatched request, the read of a connection, the correlation of its
    responses with the live requests, and the traversals of Device Identification.

    While an operation does not hold the endpoint's lock, other threads use the endpoint;
    what they do there is a function given to the operation.  The transport's own part of
    a write or a read has its surroundings as in [write_env] and [read_env].  A request
    is a pointer: an operation that still holds one compares it with the table by its
    serial number and reads it through the table while it is there. *)

From S2P Require Import Prelude Pdu DeviceId DeviceIdTolerant TcpAdu TcpOwner TcpOwnerFacts TcpPool Coalescing TcpTimeline TcpOperation TcpTransport TcpRetry Scheduler TcpEndpoint.

#[export] Instance write_env_fields : Fields write_env := fun w =>
  mkWriteEnv (we_armedAt w) (we_created w) (we_waiting w) (we_gate w) (we_held w) (we_pre w) (we_checked w)
    (we_preparedAt w) (we_prepared w) (we_begin w) (we_dispatch w) (we_during w) (we_written w) (we_writeErr w)
    (we_return w) (we_join w) (we_setDeadline w) (we_resetErr w) (we_now w) (we_recordedAt w) (we_recorded w)
    (we_closing w).

(** * Requests as pointers *)

Definition is_current (e : TCPEndpoint) (r : endpointRequest) : bool :=
  match nd_requests e !! th_requestID (er_handle r) with
  | Some r' => er_serial r' =? er_serial r
  | None => false
  end.

(** What the pointer [r] points to. *)
Definition deref (e : TCPEndpoint) (r : endpointRequest) : endpointRequest :=
  match nd_requests e !! th_requestID (er_handle r) with
  | Some r' => if er_serial r' =? er_serial r then r' else r
  | None => r
  end.

(** Assignments to the fields of [r], which the table sees while it holds [r]. *)
Definition store_back (e : TCPEndpoint) (r : endpointRequest) : TCPEndpoint :=
  if is_current e r then e <| nd_requests := <[th_requestID (er_handle r) := r]> (nd_requests e) |> else e.

(** * Writing *)

Definition dispatchLocked (e : TCPEndpoint) (dispatch : TCPDispatch)
    : option (endpointRequest * endpointConnection) :=
  if negb (td_endpoint dispatch =? nd_self e) || (td_dispatchID dispatch =? 0) || (td_requestID dispatch =? 0) then
    None
  else
  match nd_requests e !! td_requestID dispatch with
  | None => None
  | Some r =>
  if negb (bool_decide (er_phase r = endpointRequestDispatched))
     || negb (er_dispatchID r =? td_dispatchID dispatch) then None
  else
  match nd_connections e !! er_connectionID r with
  | None => None
  | Some c => if negb (ch_generation (ec_handle c) =? er_transportGeneration r) then None else Some (r, c)
  end
  end.

(** The physical request of a group. *)
Definition PhysicalRequest (groups : gmap Z group) (address : Z) : ReadRegistersRequest :=
  match groups !! address with Some g => cr_physical g | None => zeroReadRegistersRequest end.

Definition reserve_request (r : endpointRequest) (l : link) : link * presult TCPReservation :=
  let '(o, result) :=
    match er_group r with
    | None =>
        reserveDeviceIDUntil (lk_owner l) (er_unitID r) (er_deviceID r) (er_deviceIDDecoding r)
          (er_operationDeadline r)
    | Some address =>
        reserveReadUntil (lk_owner l) (er_unitID r) (PhysicalRequest (lk_groups l) address)
          (er_operationDeadline r)
    end in
  (l <| lk_owner := o |>, result).

(** [BindReservation] for a request with a group. *)
Definition bind_request (r : endpointRequest) (reservation : TCPReservation) (l : link)
    : link * option ProtocolError :=
  match er_group r with
  | None => (l, None)
  | Some address =>
      match lk_groups l !! address with
      | None => (l, Some (transport_invalid "coalesced_group"))
      | Some g =>
          let '(g, err) := BindReservation g (lk_owner l) reservation in
          (store_group l address g, err)
      end
  end.

Definition cancel_reservation (e : TCPEndpoint) (connectionID : Z) (reservation : TCPReservation) : TCPEndpoint :=
  fst (on_link e connectionID tt
         (fun l => (l <| lk_owner := fst (CancelBeforeWrite (lk_owner l) reservation) |>, tt))).

Definition close_terminal (e : TCPEndpoint) (connectionID : Z) : TCPEndpoint * (OwnerTransition * errors) :=
  on_link e connectionID (no_transition, [])
    (fun l => let '(l, transition, errs) := closeTerminal l in (l, (transition, errs))).

Definition owner_closed (e : TCPEndpoint) (connectionID : Z) : bool :=
  match link_of e connectionID with Some l => ow_closed (lk_owner l) | None => true end.

(** The reservation of a request's transaction failed. *)
Definition reservation_failed (e : TCPEndpoint) (r : endpointRequest) (err : ProtocolError)
    : TCPEndpoint * (OwnerTransition * errors) :=
  let e := fst (failRequest e r) in
  let requestID := th_requestID (er_handle r) in
  if owner_closed e (er_connectionID r) then
    let '(e, (transition, closeErr)) := close_terminal e (er_connectionID r) in
    let e := finishRequestRetryable e requestID true in
    (dropConnection e (er_connectionID r), (transition, ErrProtocol err :: closeErr))
  else (finishRequestRetryable e requestID false, (no_transition, [ErrProtocol err])).

(** The transport's write of a request. *)
Definition transport_write (r : endpointRequest) (reservation : TCPReservation) (fields : tcpEventFields)
    (env : write_env) (l : link) : link * (OwnerTransition * errors) :=
  let '(l, transition, errs) :=
    match er_group r with
    | None =>
        writeReservationUntil l reservation (er_operationDeadline r) (th_requestID (er_handle r)) env
    | Some address => writeCoalescedUntil l address (er_operationDeadline r) fields env
    end in
  (l, (transition, errs)).

Definition physical_key (r : endpointRequest) : Z * Z := (er_connectionID r, er_physicalRequestID r).

Definition tombstone_detail : string := "tcp_response_wait_tombstone".

(** The write of a request that is still in the table failed. *)
Definition write_failed (e : TCPEndpoint) (r : endpointRequest) (transition : OwnerTransition) (errs : errors)
    : TCPEndpoint * (OwnerTransition * errors) :=
  let abandoned := fullTransmitAbandonment errs in
  let fields := requestEventFields e r in
  let e :=
    if abandoned && negb (er_physicalRequestID r =? 0) then
      e <| nd_retiredPhysical := <[physical_key r := fields]> (nd_retiredPhysical e) |>
    else e in
  let e := removeRequestLocked e (th_requestID (er_handle r)) in
  let '(e, groupErr) := failRequest e r in
  let errs := errs ++ groupErr in
  let close := ot_closeConnection transition in
  let '(e, lifecycle) :=
    if retryableTransportFailure errs then
      let '(e, now) := tick e in
      (e, if now <? er_operationDeadline r then tcpRequestRetryable else tcpRequestTerminal)
    else (e, tcpRequestTerminal) in
  let e := set_retry_state e (er_handle r) lifecycle close in
  let e :=
    if abandoned then record_event e TCPEventQuarantineTransition (with_detail fields tombstone_detail) else e in
  (if close then dropConnection e (er_connectionID r) else e, (transition, errs)).

(** A write that completed without a response deadline. *)
Definition write_without_deadline (e : TCPEndpoint) (r : endpointRequest) (transition : OwnerTransition)
    : TCPEndpoint * (OwnerTransition * errors) :=
  let e := removeRequestLocked e (th_requestID (er_handle r)) in
  let e := fst (failRequest e r) in
  let '(e, (closeTransition, closeErr)) := close_terminal e (er_connectionID r) in
  (dropConnection e (er_connectionID r),
   (mergeOwnerTransitions transition closeTransition,
    ErrProtocol (protocolError ErrorInvalidRequest 0 0 "response_deadline" (-1)) :: closeErr)).

(** [Write] from the return of the transport's write on. *)
Definition write_returned (e : TCPEndpoint) (r : endpointRequest) (reservation : TCPReservation)
    (transition : OwnerTransition) (errs : errors) : TCPEndpoint * (OwnerTransition * errors) :=
  if negb (is_current e r) then
    let e :=
      if ot_closeConnection transition then
        dropConnection (set_retry_state e (er_handle r) tcpRequestTerminal true) (er_connectionID r)
      else e in
    (e, (transition, errs))
  else
  let r := deref e r in
  if negb (is_nil errs) then write_failed e r transition errs
  else
  match l ← link_of e (er_connectionID r); responseDeadline (lk_owner l) reservation with
  | None => write_without_deadline e r transition
  | Some deadline =>
      let e := store_back e (r <| er_responseDeadline := deadline |> <| er_phase := endpointRequestWaiting |>) in
      let e :=
        fst (on_link e (er_connectionID r) tt (fun l => (requestEarlierReadDeadline l deadline, tt))) in
      (e, (transition, []))
  end.

(** The reserved request enters the table of physical requests and is written: the request
    as it is then and what the transport answered. *)
Definition write_registered (e : TCPEndpoint) (r : endpointRequest) (reservation : TCPReservation) (env : write_env)
    : TCPEndpoint * (endpointRequest * (OwnerTransition * errors)) :=
  let r :=
    (deref e r) <| er_physicalRequestID := tv_physicalRequestID reservation |>
      <| er_transactionID := tv_transactionID reservation |> in
  let e :=
    (store_back e r)
      <| nd_physical := <[physical_key r := th_requestID (er_handle r)]> (nd_physical e) |> in
  let fields := requestEventFields e r in
  let env :=
    match er_group r with
    | None => env
    | Some address => env <| we_dispatch := RequireCoalescedDispatch (nd_scheduler e) address |>
    end in
  let '(e, result) :=
    on_link e (er_connectionID r) (no_transition, []) (transport_write r reservation fields env) in
  (e, (r, result)).

Definition write_reserved (e : TCPEndpoint) (r : endpointRequest) (reservation : TCPReservation)
    (env : write_env) (writing : TCPEndpoint -> TCPEndpoint) : TCPEndpoint * (OwnerTransition * errors) :=
  if negb (is_current e r) then
    let e := cancel_reservation e (er_connectionID r) reservation in
    (fst (failRequest e r),
     (no_transition, [ErrProtocol (protocolError ErrorInvalidRequest 0 0 "tcp_request_state" (-1))]))
  else
  let '(e, (r, (transition, errs))) := write_registered e r reservation env in
  if negb (timelineAvailable e) then
    (disable e "event_sequence_exhausted", (transition, errs ++ [ErrProtocol eventSequenceError]))
  else write_returned (writing e) r reservation transition errs.

(** [reserving] happens before the transaction is reserved, [bound] after it is bound to
    its group, [writing] until the write has returned. *)
Definition Write (e : TCPEndpoint) (dispatch : TCPDispatch) (reserving bound : TCPEndpoint -> TCPEndpoint)
    (env : write_env) (writing : TCPEndpoint -> TCPEndpoint) : TCPEndpoint * (OwnerTransition * errors) :=
  if negb (timelineAvailable e) then
    (disable e "event_sequence_exhausted", (no_transition, [ErrProtocol invalidEndpointConfig]))
  else
  match dispatchLocked e dispatch with
  | None => (e, (no_transition, [ErrProtocol (protocolError ErrorInvalidRequest 0 0 "tcp_dispatch" (-1))]))
  | Some (r, c) =>
  let r := r <| er_phase := endpointRequestWriting |> in
  let e := reserving (store_back e r) in
  match ownerForEndpoint (nd_pool e) (ec_lease c) with
  | None =>
      let e := fst (failRequest e r) in
      (finishRequestRetryable e (th_requestID (er_handle r)) true,
       (no_transition, [ErrProtocol invalidConnectionHandle]))
  | Some _ =>
  let '(e, reserved) :=
    on_link e (er_connectionID r) (Err invalidConnectionHandle) (reserve_request r) in
  match reserved with
  | Err err => reservation_failed e r err
  | Ok reservation =>
  let '(e, bindErr) := on_link e (er_connectionID r) None (bind_request r reservation) in
  match bindErr with
  | Some err =>
      let e := cancel_reservation e (er_connectionID r) reservation in
      let e := fst (failRequest e r) in
      (finishRequestRetryable e (th_requestID (er_handle r)) false, (no_transition, [ErrProtocol err]))
  | None => write_reserved (bound e) r reservation env writing
  end
  end
  end
  end.

(** * Physical requests *)

Definition requestForPhysical (e : TCPEndpoint) (connectionID physicalRequestID : Z) : option endpointRequest :=
  nd_requests e !! default 0 (nd_physical e !! (connectionID, physicalRequestID)).

Definition takeRetiredPhysicalFields (e : TCPEndpoint) (connectionID physicalRequestID : Z)
    : TCPEndpoint * option tcpEventFields :=
  let key := (connectionID, physicalRequestID) in
  (e <| nd_retiredPhysical := delete key (nd_retiredPhysical e) |>, nd_retiredPhysical e !! key).

Definition failPhysical (e : TCPEndpoint) (connectionID physicalRequestID : Z) (kind : TCPTransportEventKind)
    : TCPEndpoint * errors :=
  let requestID := default 0 (nd_physical e !! (connectionID, physicalRequestID)) in
  match nd_requests e !! requestID with
  | None => (e, [])
  | Some r =>
      let e := removeRequestLocked e requestID in
      let e := end_lifecycle e (er_handle r) in
      let fields := requestEventFields e r in
      let e :=
        e <| nd_retiredPhysical := <[(connectionID, physicalRequestID) := fields]> (nd_retiredPhysical e) |> in
      let fields :=
        if bool_decide (kind = TCPEventQuarantineTransition) then with_detail fields tombstone_detail
        else fields in
      failRequest (record_event e kind fields) r
  end.

Fixpoint fail_abandoned (e : TCPEndpoint) (connectionID : Z) (reservations : list TCPReservation)
    : TCPEndpoint * errors :=
  match reservations with
  | [] => (e, [])
  | reservation :: reservations =>
      let '(e, errs) :=
        failPhysical e connectionID (tv_physicalRequestID reservation) TCPEventQuarantineTransition in
      let '(e, errs') := fail_abandoned e connectionID reservations in
      (e, errs ++ errs')
  end.

(** The same for the reservations that expired before the read, each with its event. *)
Fixpoint fire_abandoned (e : TCPEndpoint) (connectionID : Z) (reservations : list TCPReservation)
    : TCPEndpoint * errors :=
  match reservations with
  | [] => (e, [])
  | reservation :: reservations =>
      let physicalRequestID := tv_physicalRequestID reservation in
      let e :=
        match requestForPhysical e connectionID physicalRequestID with
        | None => e
        | Some r => record_event e TCPEventResponseTimerFire (requestEventFields e r)
        end in
      let '(e, errs) := failPhysical e connectionID physicalRequestID TCPEventQuarantineTransition in
      let '(e, errs') := fire_abandoned e connectionID reservations in
      (e, errs ++ errs')
  end.

Definition waits_response (r : endpointRequest) : bool :=
  bool_decide (er_phase r = endpointRequestWaiting) || bool_decide (er_phase r = endpointRequestWriting).

(** The deadline a waiting request contributes to the read of its connection. *)
Definition waiting_deadline (r : endpointRequest) : Z :=
  if er_responseDeadline r <=? 0 then th_deadlineOffset (er_handle r) else er_responseDeadline r.

Definition earlier_waiting (earliest deadline : Z) : Z :=
  if (earliest =? 0) || (deadline <? earliest) then deadline else earliest.

Definition earliestWaitingDeadlineLocked (e : TCPEndpoint) (connectionID : Z) : option Z :=
  let waiting :=
    filter (fun r => er_connectionID r = connectionID /\ waits_response r = true) (snd <$> map_to_list (nd_requests e)) in
  let earliest := foldl earlier_waiting 0 (waiting_deadline <$> waiting) in
  if earliest >? 0 then Some earliest else None.

(** * Device Identification *)

Fixpoint values_within (limits : DeviceIDLimits) (objects : list DeviceIDObject) (count valueBytes : Z) : bool :=
  match objects with
  | [] => true
  | object :: objects =>
      let count := count + 1 in
      if (count >? dl_MaxObjects limits) || (zlen (do_Value object) >? dl_MaxValueBytes limits - valueBytes) then
        false
      else values_within limits objects count (valueBytes + zlen (do_Value object))
  end.

Definition deviceIDSegmentsWithinLimits (segments : list DeviceIDSegment) (limits : DeviceIDLimits) : bool :=
  if (zlen segments =? 0) || (zlen segments >? dl_MaxSegments limits) then false
  else values_within limits (segments ≫= sg_objects) 0 0.

(** The continuation goes back to the tail of the queue. *)
Definition requeueDeviceIDContinuation (e : TCPEndpoint) (r : endpointRequest) (next : DeviceIDRequest)
    : TCPEndpoint * errors :=
  let requestID := th_requestID (er_handle r) in
  match Complete (nd_scheduler e) requestID with
  | (s, Some err) => (e <| nd_scheduler := s |>, [ErrProtocol err])
  | (s, None) =>
  match Enqueue s (scheduled_of requestID (er_unitID r) (er_authorizationScope r) (er_operationDeadline r)) with
  | (s, Some err) => (e <| nd_scheduler := s |>, [ErrProtocol err])
  | (s, None) =>
  let e := e <| nd_scheduler := s |> in
  if negb (is_current e r) || negb (bool_decide (is_Some (nd_connections e !! er_connectionID r))) then
    (e <| nd_scheduler := fst (CancelQueued (nd_scheduler e) requestID) |>, [ErrCanceled])
  else
    let e := e <| nd_physical := delete (physical_key r) (nd_physical e) |> in
    (store_back e
       (r <| er_deviceID := next |> <| er_phase := endpointRequestQueued |> <| er_dispatchID := 0 |>
          <| er_physicalRequestID := 0 |> <| er_transactionID := 0 |> <| er_responseDeadline := 0 |>), [])
  end
  end.

(** [Result] is absent in a tolerant completion and [Tolerant] in a strict one. *)
Record TCPDeviceIDCompletion : Type := mkTCPDeviceIDCompletion {
  tc_RequestID : Z;
  tc_Result : option DeviceIDResult;
  tc_Decoding : Z;
  tc_Tolerant : option DeviceIDTolerantResult
}.

(** How a traversal goes on with a response: published, continued, or in error. *)
Inductive accepted_response : Type :=
| AcceptPublished (completion : TCPDeviceIDCompletion)
| AcceptContinued
| AcceptFailed (errs : errors).

Definition accept_requeue (e : TCPEndpoint) (r : endpointRequest) (next : DeviceIDRequest)
    : TCPEndpoint * accepted_response :=
  let '(e, errs) := requeueDeviceIDContinuation e r next in
  (e, if is_nil errs then AcceptContinued else AcceptFailed errs).

(** The request is released, then its result published. *)
Definition accept_publish (e : TCPEndpoint) (r : endpointRequest) (completion : TCPDeviceIDCompletion)
    : TCPEndpoint * accepted_response :=
  let '(e, errs) := failRequest e r in
  (e, if is_nil errs then AcceptPublished completion else AcceptFailed errs).

Definition acceptTolerantDeviceIDResponse (e : TCPEndpoint) (r : endpointRequest) (response : WireResponse)
    : TCPEndpoint * accepted_response :=
  match do_page (wr_decoded response) with
  | None => (e, AcceptFailed [ErrProtocol (device_id_error ErrorInvalidRequest "device_id_page")])
  | Some page =>
  match match er_deviceIDTraversal r with
        | Some traversal => Ok traversal
        | None => newDeviceIDTolerantTraversal (er_deviceIDInitial r) (er_deviceIDLimits r)
        end with
  | Err err => (e, AcceptFailed [ErrProtocol err])
  | Ok traversal =>
  let r := r <| er_deviceIDTraversal := Some traversal |> in
  match add_page traversal page with
  | Err err => (store_back e r, AcceptFailed [ErrProtocol err])
  | Ok traversal =>
  let r := r <| er_deviceIDTraversal := Some traversal |> in
  let e := store_back e r in
  if negb (tt_closed traversal) then accept_requeue e r (tt_expected traversal)
  else
  match finish_traversal traversal with
  | Err err => (e, AcceptFailed [ErrProtocol err])
  | Ok result =>
      accept_publish e r
        {| tc_RequestID := th_requestID (er_handle r); tc_Result := None;
           tc_Decoding := DeviceIDDecodingTolerant; tc_Tolerant := Some result |}
  end
  end
  end
  end.

Definition strict_result (r : endpointRequest) (segment : DeviceIDSegment) : presult DeviceIDResult :=
  if dr_access (er_deviceIDInitial r) =? DeviceIDIndividual then
    Ok {| dres_Conformity := sg_conformity segment; dres_Objects := sg_objects segment; dres_Segments := [segment] |}
  else if dr_extended (er_deviceIDInitial r) then
    AggregateExtendedDeviceIDStream (er_deviceIDInitial r) (er_deviceIDSegments r) (er_deviceIDLimits r)
  else AggregateDeviceID (er_deviceIDInitial r) (er_deviceIDSegments r) (er_deviceIDLimits r).

Definition acceptDeviceIDResponse (e : TCPEndpoint) (r : endpointRequest) (response : WireResponse)
    : TCPEndpoint * accepted_response :=
  if negb (is_current e r) then (e, AcceptFailed [ErrCanceled])
  else if er_deviceIDDecoding r =? DeviceIDDecodingTolerant then acceptTolerantDeviceIDResponse e r response
  else
  match do_segment (wr_decoded response) with
  | None => (e, AcceptFailed [ErrProtocol (device_id_error ErrorInvalidRequest "device_id_segment")])
  | Some segment =>
  let r := r <| er_deviceIDSegments := er_deviceIDSegments r ++ [segment] |> in
  let e := store_back e r in
  if negb (deviceIDSegmentsWithinLimits (er_deviceIDSegments r) (er_deviceIDLimits r)) then
    (e, AcceptFailed [ErrProtocol (device_id_error ErrorInvalidRange "aggregate_limit")])
  else if sg_moreFollows segment then
    match NextDeviceIDRequest segment with
    | Err err => (e, AcceptFailed [ErrProtocol err])
    | Ok next => accept_requeue e r next
    end
  else
  match strict_result r segment with
  | Err err => (e, AcceptFailed [ErrProtocol err])
  | Ok result =>
      accept_publish e r
        {| tc_RequestID := th_requestID (er_handle r); tc_Result := Some result;
           tc_Decoding := DeviceIDDecodingStrict; tc_Tolerant := None |}
  end
  end.

(** * Reading *)

Record TCPReadBatch : Type := mkTCPReadBatch {
  tb_Responses : list WireResponse;
  tb_Views : list LogicalReadView;
  tb_DeviceIDs : list TCPDeviceIDCompletion
}.

#[export] Instance read_batch_fields : Fields TCPReadBatch := fun b =>
  mkTCPReadBatch (tb_Responses b) (tb_Views b) (tb_DeviceIDs b).

Definition empty_batch : TCPReadBatch := {| tb_Responses := []; tb_Views := []; tb_DeviceIDs := [] |}.

Definition ResponseOversizePDU (response : WireResponse) : bool := zlen (wr_bytes response) >? mbapHeaderSize + MaxPDUSize.

(** tcp_coalescing.go: what the group does to its transport and the scheduler after a
    response; [g] is the group afterwards. *)
Definition group_answered (l : link) (address : Z) (g : group) (err : option ProtocolError) : link * errors :=
  let l := store_group l address g in
  if cr_completed g then
    let l := forget_written l (cr_tcpTransport g) (cr_physicalRequestID g) in
    let '(l, errs) := finishScheduling l address in
    (l, protocol_error err ++ errs)
  else (l, protocol_error err).

Definition group_fail (address : Z) (response : WireResponse) (l : link) : link * errors :=
  match lk_groups l !! address with
  | None => (l, [ErrProtocol (transport_invalid "coalesced_group")])
  | Some g => let '(g, (err, _)) := Fail g response in group_answered l address g err
  end.

Definition group_replay (address : Z) (response : WireResponse) (l : link)
    : link * (list LogicalReadView * errors) :=
  match lk_groups l !! address with
  | None => (l, ([], [ErrProtocol (transport_invalid "coalesced_group")]))
  | Some g =>
      let '(g, (result, _)) := ReplaySuccessfulResponse g response in
      let '(views, err) := match result with Ok views => (views, None) | Err err => ([], Some err) end in
      let '(l, errs) := group_answered l address g err in
      (l, (views, errs))
  end.

(** What the events of a response say about its frame. *)
Definition frame_fields (response : WireResponse) (fields : tcpEventFields) : tcpEventFields :=
  fields <| ef_WireResponseID := wr_wireResponseID response |>
    <| ef_DiagnosticFrameID := wr_diagnosticFrameID response |>
    <| ef_ReceivedFunction := default 0 (wp_ReceivedFunction <$> wr_provenance response) |>
    <| ef_RawADUHex := hex_encode (wr_bytes response) |> <| ef_WireOutcome := Some (wr_outcome response) |>.

(** The fields of a response that belongs to no request. *)
Definition foreign_fields (handle : TCPConnectionHandle) (response : WireResponse) : tcpEventFields :=
  let provenance := wr_provenance response in
  let diagnosed := negb (wr_diagnosticFrameID response =? 0) in
  (frame_fields response
     (no_fields <| ef_ConnectionID := ch_connectionID handle |>
        <| ef_TransportGeneration := ch_generation handle |>
        <| ef_PhysicalRequestID := wr_physicalRequestID response |>
        <| ef_UnitID :=
             if diagnosed then default 0 (dp_UnitID <$> wr_diagnostic response)
             else default 0 (wp_UnitID <$> provenance) |>
        <| ef_RequestedFunction := default 0 (wp_RequestedFunction <$> provenance) |>
        <| ef_LogicalTable := default NoTable (wp_Table <$> provenance) |>
        <| ef_PhysicalOffset := default 0 (wp_Offset <$> provenance) |>
        <| ef_PhysicalQuantity := default 0 (wp_Quantity <$> provenance) |>))
    <| ef_ReceivedFunction :=
         if diagnosed then default 0 (dp_ReceivedFunction <$> wr_diagnostic response)
         else default 0 (wp_ReceivedFunction <$> provenance) |>.

(** The request of a response, or whether a retired one is known, and the event's fields. *)
Definition identify_response (e : TCPEndpoint) (handle : TCPConnectionHandle) (response : WireResponse)
    : TCPEndpoint * (option endpointRequest * bool * tcpEventFields) :=
  let connectionID := ch_connectionID handle in
  let oversize fields := if ResponseOversizePDU response then with_detail fields tcpOversizePDUDetail else fields in
  match requestForPhysical e connectionID (wr_physicalRequestID response) with
  | Some r => (e, (Some r, false, oversize (frame_fields response (requestEventFields e r))))
  | None =>
      match takeRetiredPhysicalFields e connectionID (wr_physicalRequestID response) with
      | (e, Some fields) => (e, (None, true, oversize (frame_fields response fields)))
      | (e, None) => (e, (None, false, oversize (foreign_fields handle response)))
      end
  end.

(** The response of a live request: what the batch gains and the errors. *)
Definition answer_request (e : TCPEndpoint) (r : endpointRequest) (response : WireResponse) (batch : TCPReadBatch)
    : TCPEndpoint * TCPReadBatch * errors :=
  let requestID := th_requestID (er_handle r) in
  match wr_outcome response with
  | WireSuccessfulData =>
      if negb (wr_deliverable response) then (e, batch, [])
      else
      match er_group r with
      | None =>
          match acceptDeviceIDResponse e r response with
          | (e, AcceptContinued) => (e, batch, [])
          | (e, AcceptPublished completion) =>
              (finishRequest e requestID, batch <| tb_DeviceIDs := tb_DeviceIDs batch ++ [completion] |>, [])
          | (e, AcceptFailed errs) =>
              let '(e, failErr) := failRequest e (deref e r) in
              (finishRequest e requestID, batch, errs ++ failErr)
          end
      | Some address =>
          let '(e, (views, errs)) :=
            on_link e (er_connectionID r) ([], []) (group_replay address response) in
          (finishRequest e requestID, batch <| tb_Views := tb_Views batch ++ views |>, errs)
      end
  | WireProtocolException | WireMalformedResponse =>
      let '(e, errs) :=
        match er_group r with
        | None => failRequest e r
        | Some address => on_link e (er_connectionID r) [] (group_fail address response)
        end in
      (finishRequest e requestID, batch, errs)
  | WireLateAfterAbandonment | WireDroppedUncorrelated => (finishRequest e requestID, batch, [])
  end.

Definition resets_backoff (response : WireResponse) : bool :=
  negb (wr_wireResponseID response =? 0)
  && (bool_decide (wr_outcome response = WireSuccessfulData)
      || bool_decide (wr_outcome response = WireProtocolException)).

(** One response; [others] happens before its outcome is decided.  [inr]: the timeline is
    exhausted and the read ends. *)
Definition read_response (e : TCPEndpoint) (handle : TCPConnectionHandle) (response : WireResponse)
    (others : TCPEndpoint -> TCPEndpoint) (batch : TCPReadBatch)
    : TCPEndpoint * TCPReadBatch * (errors + unit) :=
  let '(e, (request, retired, fields)) := identify_response e handle response in
  let e := others e in
  let e := record_event e TCPEventResponseReceive fields in
  if negb (timelineAvailable e) then (disable e "event_sequence_exhausted", batch, inr tt)
  else
  let e :=
    if resets_backoff response then e <| nd_backoff := ValidCorrelatedResponse (nd_backoff e) |> else e in
  match request with
  | None =>
      (e, batch,
       inl (if wr_deliverable response && negb retired then
              [ErrProtocol (protocolError ErrorInvalidRequest 0 0 "endpoint_response_identity" (-1))]
            else []))
  | Some r =>
      let '(e, batch, errs) := answer_request e (deref e r) response batch in
      (e, batch, inl errs)
  end.

Fixpoint read_responses (e : TCPEndpoint) (handle : TCPConnectionHandle) (responses : list WireResponse)
    (others : list (WireResponse -> TCPEndpoint -> TCPEndpoint)) (batch : TCPReadBatch) (replayErr : errors)
    : TCPEndpoint * TCPReadBatch * (errors + errors) :=
  match responses with
  | [] => (e, batch, inl replayErr)
  | response :: responses =>
      match read_response e handle response (default (fun _ => id) (head others) response) batch with
      | (e, batch, inr _) => (e, batch, inr replayErr)
      | (e, batch, inl errs) => read_responses e handle responses (tail others) batch (replayErr ++ errs)
      end
  end.

(** One read of the transport with its surroundings. *)
Record read_round : Type := mkReadRound {
  ro_env : read_env;
  ro_others : TCPEndpoint -> TCPEndpoint
}.

(** The deadline of the next round when no request waits, [None] when there is none; the
    clock has been read as [now]. *)
Definition tombstone_deadline (e : TCPEndpoint) (connectionID now : Z) : option Z :=
  let limit := eg_MaxResponseDeadline (nd_config e) in
  match link_of e connectionID with
  | Some l => if hasTombstones (lk_owner l) && (limit <=? MaxInt64 - now) then Some (now + limit) else None
  | None => None
  end.

(** The loop of reads, one round after the other while the deadline is rearmed: the
    responses, the transition, the reservations abandoned by the last read and the
    errors.  [None] when the given rounds are not enough. *)
Fixpoint read_rounds (e : TCPEndpoint) (connectionID deadline : Z) (rounds : list read_round)
    (responses : list WireResponse) (transition : OwnerTransition) (rearmErr : errors)
    : option (TCPEndpoint * (list WireResponse * OwnerTransition * list TCPReservation * errors)) :=
  match rounds with
  | [] => None
  | round :: rounds =>
      let '(e, result) :=
        on_link e connectionID (read_failed []) (fun l => readResponsesUntil l deadline (ro_env round)) in
      let e := ro_others round e in
      let responses := responses ++ rd_responses result in
      let transition := mergeOwnerTransitions transition (rd_transition result) in
      if negb (joined_is ErrReadDeadlineRearmed (rd_errors result)) then
        Some (e, (responses, transition, rd_abandoned result, rearmErr ++ rd_errors result))
      else
      let '(e, errs) := fail_abandoned e connectionID (rd_abandoned result) in
      let rearmErr := rearmErr ++ errs in
      if zlen (rd_abandoned result) >? 0 then
        Some (e, (responses, transition, [], rearmErr ++ [ErrDeadlineExceeded]))
      else
      match earliestWaitingDeadlineLocked e connectionID with
      | Some deadline => read_rounds e connectionID deadline rounds responses transition rearmErr
      | None =>
          let '(e, now) := tick e in
          match tombstone_deadline e connectionID now with
          | Some deadline => read_rounds e connectionID deadline rounds responses transition rearmErr
          | None => Some (e, (responses, transition, [], rearmErr ++ [ErrDeadlineExceeded]))
          end
      end
  end.

(** [Read] from the return of the socket's reads on. *)
Definition read_received (e : TCPEndpoint) (handle : TCPConnectionHandle) (responses : list WireResponse)
    (transition : OwnerTransition) (abandoned : list TCPReservation) (preErr readErr : errors)
    (others : list (WireResponse -> TCPEndpoint -> TCPEndpoint)) : TCPEndpoint * (TCPReadBatch * errors) :=
  if negb (timelineAvailable e) then
    (disable e "event_sequence_exhausted", (empty_batch, readErr ++ [ErrProtocol eventSequenceError]))
  else
  let '(e, abandonErr) := fail_abandoned e (ch_connectionID handle) abandoned in
  match read_responses e handle responses others (empty_batch <| tb_Responses := responses |>) abandonErr with
  | (e, batch, inr replayErr) =>
      (e, (batch, preErr ++ readErr ++ replayErr ++ [ErrProtocol eventSequenceError]))
  | (e, batch, inl replayErr) =>
      (if ot_closeConnection transition then dropConnection e (ch_connectionID handle) else e,
       (batch, preErr ++ readErr ++ replayErr))
  end.

(** [others] gives what happens before the outcome of each response, which it may depend on. *)
Definition Read (e : TCPEndpoint) (handle : TCPConnectionHandle) (rounds : list read_round)
    (others : list (WireResponse -> TCPEndpoint -> TCPEndpoint)) : option (TCPEndpoint * (TCPReadBatch * errors)) :=
  if negb (timelineAvailable e) then
    Some (disable e "event_sequence_exhausted", (empty_batch, [ErrProtocol invalidEndpointConfig]))
  else
  let connectionID := ch_connectionID handle in
  match connectionLocked e handle with
  | None => Some (e, (empty_batch, [ErrProtocol invalidConnectionHandle]))
  | Some c =>
  let '(e, now) := tick e in
  let '(e, (abandoned, preTransition, preErr)) :=
    on_link e connectionID ([], no_transition, None)
      (fun l => let '(o, result) := abandonExpired (lk_owner l) now in (l <| lk_owner := o |>, result)) in
  let '(e, expirationErr) := fire_abandoned e connectionID abandoned in
  let preErr := protocol_error preErr ++ expirationErr in
  if ot_closeConnection preTransition then
    let '(e, (_, closeErr)) := close_terminal e connectionID in
    Some (dropConnection e connectionID, (empty_batch, preErr ++ closeErr))
  else
  let tombstones := match link_of e connectionID with Some l => hasTombstones (lk_owner l) | None => false end in
  let waiting := earliestWaitingDeadlineLocked e connectionID in
  match waiting with
  | None =>
      if tombstones then
        match tombstone_deadline e connectionID now with
        | None =>
            Some (e, (empty_batch, [ErrProtocol (protocolError ErrorInvalidRange 0 0 "operation_deadline" (-1))]))
        | Some deadline =>
            received ← read_rounds e connectionID deadline rounds [] no_transition [];
            let '(e, (responses, transition, abandoned, readErr)) := received in
            Some (read_received e handle responses transition abandoned preErr readErr others)
        end
      else if zlen abandoned >? 0 then Some (e, (empty_batch, ErrDeadlineExceeded :: preErr))
      else Some (e, (empty_batch, [ErrProtocol (protocolError ErrorInvalidRequest 0 0 "response_wait" (-1))]))
  | Some deadline =>
      received ← read_rounds e connectionID deadline rounds [] no_transition [];
      let '(e, (responses, transition, abandoned, readErr)) := received in
      Some (read_received e handle responses transition abandoned preErr readErr others)
  end
  end.
