(* ===== verification/TcpEndpointRetry.v ===== *)
(** The TCP endpoint's callers (tcp_endpoint_retry.go, tcp_endpoint_lifecycle.go):
    cancelling a request or one of its views, retrying a request on another connection,
    waiting for the reconnect backoff, and the snapshot.

    Gaps between critical sections are functions, as in the operations on the wire. *)

From S2P Require Import Prelude Pdu DeviceId DeviceIdTolerant TcpAdu TcpOwner TcpOwnerFacts TcpPool Coalescing TcpTimeline TcpOperation TcpTransport TcpRetry Scheduler TcpEndpoint TcpEndpointWire.

Definition request_handle_error : ProtocolError := retry_error ErrorInvalidRequest "tcp_request_handle".

(** A handle of this endpoint, which points to the state of a request. *)
Definition own_handle (e : TCPEndpoint) (h : TCPRequestHandle) : bool :=
  (th_endpoint h =? nd_self e) && negb (th_requestID h =? 0)
  && bool_decide (is_Some (state_of (nd_ledger e) h)).

(** * Cancelling *)

Definition retryableEventFieldsLocked (h : TCPRequestHandle) (s : tcpRequestBackoffState) : tcpEventFields :=
  no_fields <| ef_RequestID := th_requestID h |> <| ef_UnitID := bs_unitID s |>
    <| ef_AuthorizationScope := bs_authorizationScope s |> <| ef_PollGeneration := bs_pollGeneration s |>
    <| ef_DeadlineIdentity := bs_deadlineIdentity s |> <| ef_DeadlineOffset := th_deadlineOffset h |>.

Definition refreshConnectionReadDeadline (e : TCPEndpoint) (connectionID : Z) : TCPEndpoint :=
  match nd_connections e !! connectionID with
  | None => e
  | Some _ => fst (on_link e connectionID tt (fun l => (refreshActiveReadDeadline l, tt)))
  end.

(** The fields of a retained handle's events, before it changes. *)
Definition retained_fields (e : TCPEndpoint) (h : TCPRequestHandle) : tcpEventFields :=
  match state_of (nd_ledger e) h with
  | Some s => retryableEventFieldsLocked h s
  | None => no_fields
  end.

Definition active_dependents (e : TCPEndpoint) (address : Z) : Z :=
  match nd_groups e !! address with Some g => activeDependentCountLocked g | None => 0 end.

(** The exhausted timeline disables the endpoint. *)
Definition unless_exhausted {A} (e : TCPEndpoint) (result : A) : TCPEndpoint * (A + ProtocolError) :=
  if negb (timelineAvailable e) then (disable e "event_sequence_exhausted", inr eventSequenceError)
  else (e, inl result).

(** The cancellation of a view of a live request took effect. *)
Definition cancelled_view (e : TCPEndpoint) (h : TCPRequestHandle) (r : endpointRequest) (address : Z)
    (logicalViewID : Z) (fields : tcpEventFields) (transition : CoalescedTransition) : TCPEndpoint :=
  let e := with_ledger e (fun l => forget_read l h logicalViewID) in
  let close := ot_closeConnection (ct_ownerTransition transition) in
  let e :=
    if ct_abandonTransport transition then
      record_event (e <| nd_retiredPhysical := <[physical_key r := fields]> (nd_retiredPhysical e) |>)
        TCPEventQuarantineTransition (with_detail fields tombstone_detail)
    else e in
  let e :=
    if active_dependents e address =? 0 then
      let e := finishRequest e (th_requestID h) in
      if close then dropConnection e (er_connectionID r) else e
    else e in
  if negb close then refreshConnectionReadDeadline e (er_connectionID r) else e.

Definition no_such_view : ProtocolError := device_id_error ErrorInvalidRequest "logical_view_id".

(** The transition and the errors; [others] happens before the group is cancelled. *)
Definition CancelLogical (e : TCPEndpoint) (h : TCPRequestHandle) (logicalViewID : Z)
    (others : TCPEndpoint -> TCPEndpoint) : TCPEndpoint * (CoalescedTransition * errors) :=
  let failed err := (no_coalesced_transition, [ErrProtocol err]) in
  if negb (own_handle e h) || (logicalViewID =? 0) then (e, failed request_handle_error)
  else if negb (timelineAvailable e) then (disable e "event_sequence_exhausted", failed invalidEndpointConfig)
  else
  match nd_requests e !! th_requestID h with
  | None =>
      if retained (nd_ledger e) h then
        match cancel_retained_view (nd_ledger e) h logicalViewID with
        | (_, Some err) => (e, failed err)
        | (l, None) =>
            let fields := (retained_fields e h) <| ef_LogicalViewID := logicalViewID |> in
            let e := record_event (e <| nd_ledger := l |>) TCPEventCallerCancellation fields in
            match unless_exhausted e tt with
            | (e, inr err) => (e, failed err)
            | (e, inl _) => (e, (no_coalesced_transition, []))
            end
        end
      else (e, failed request_handle_error)
  | Some r =>
  if negb (th_deadlineOffset (er_handle r) =? th_deadlineOffset h) then (e, failed request_handle_error)
  else
  match er_group r with
  | None => (e, failed no_such_view)
  | Some address =>
  let fields := (requestEventFields e r) <| ef_LogicalViewID := logicalViewID |> in
  let e := others e in
  let '(e, (transition, errs)) :=
    on_link e (er_connectionID r) (no_coalesced_transition, [])
      (fun l => let '(l, transition, errs) := CancelDependent l address logicalViewID in (l, (transition, errs))) in
  if negb (is_nil errs) then (e, (transition, errs))
  else
  let e := record_event e TCPEventCallerCancellation fields in
  match unless_exhausted e tt with
  | (e, inr err) => (e, failed err)
  | (e, inl _) => (cancelled_view e h (deref e r) address logicalViewID fields transition, (transition, []))
  end
  end
  end.

(** The events of the views of a retained request that is cancelled. *)
Definition record_views (e : TCPEndpoint) (fields : tcpEventFields) (views : list Z) : TCPEndpoint :=
  foldl (fun e view => record_event e TCPEventCallerCancellation (fields <| ef_LogicalViewID := view |>)) e views.

Definition lifecycle_error : ProtocolError := device_id_error ErrorInvalidRequest "tcp_request_lifecycle".

(** The reservation a waiting traversal holds with its owner. *)
Definition waiting_reservation (e : TCPEndpoint) (r : endpointRequest) : option TCPReservation :=
  match nd_connections e !! er_connectionID r with
  | None => None
  | Some c =>
      match ownerForEndpoint (nd_pool e) (ec_lease c) with
      | None => None
      | Some address =>
          Some {| tv_owner := address; tv_transactionID := er_transactionID r;
                  tv_physicalRequestID := er_physicalRequestID r; tv_generation := er_transportGeneration r;
                  tv_deadlineOffset := er_responseDeadline r |}
      end
  end.

(** [AbandonAfterWrite] for the reservation, and whether the connection closes. *)
Definition abandon_waiting (e : TCPEndpoint) (connectionID : Z) (reservation : TCPReservation)
    : TCPEndpoint * (bool * errors) :=
  on_link e connectionID (false, [])
    (fun l =>
       let '(o, (transition, err)) := AbandonAfterWrite (lk_owner l) reservation AbandonCancellation in
       let errs :=
         match err with
         | Some err => if String.eqb (pe_Field err) "reservation_state" then [] else [ErrProtocol err]
         | None => []
         end in
       (l <| lk_owner := o |>, (ot_closeConnection transition, errs))).

(** The end of a traversal that its caller cancels. *)
Definition cancel_device_id (e : TCPEndpoint) (h : TCPRequestHandle) (r : endpointRequest) : TCPEndpoint * errors :=
  let connected := bool_decide (is_Some (nd_connections e !! er_connectionID r)) in
  let fields := requestEventFields e r in
  let waiting := bool_decide (er_phase r = endpointRequestWaiting) in
  let reservation := if waiting then waiting_reservation e r else None in
  let e :=
    if waiting && connected then
      e <| nd_retiredPhysical := <[physical_key r := fields]> (nd_retiredPhysical e) |>
    else e in
  let e := removeRequestLocked e (th_requestID h) in
  let '(e, (close, abandonErr)) :=
    match reservation with
    | Some reservation => abandon_waiting e (er_connectionID r) reservation
    | None => (e, (false, []))
    end in
  let '(e, failErr) := failRequest e r in
  let e := end_lifecycle e h in
  let e := record_event e TCPEventCallerCancellation fields in
  let e :=
    if waiting then record_event e TCPEventQuarantineTransition (with_detail fields tombstone_detail) else e in
  if close && connected then
    let '(e, (_, closeErr)) := close_terminal e (er_connectionID r) in
    (dropConnection e (er_connectionID r), abandonErr ++ failErr ++ closeErr)
  else (refreshConnectionReadDeadline e (er_connectionID r), abandonErr ++ failErr).

(** A live traversal: [locked] happens before the outcome lock is taken, [written] until
    its write has returned, when it is being written. *)
Definition cancel_traversal (e : TCPEndpoint) (h : TCPRequestHandle) (locked written : TCPEndpoint -> TCPEndpoint)
    : TCPEndpoint * errors :=
  let e := locked e in
  let same r := (th_deadlineOffset (er_handle r) =? th_deadlineOffset h) && isDeviceID r in
  match nd_requests e !! th_requestID h with
  | None => (e, [ErrProtocol (device_id_error ErrorInvalidRequest "tcp_request_handle")])
  | Some r =>
  if negb (same r) then (e, [ErrProtocol (device_id_error ErrorInvalidRequest "tcp_request_handle")])
  else if bool_decide (er_phase r = endpointRequestWriting) then
    let e := written e in
    match nd_requests e !! th_requestID h with
    | None => (e, [])
    | Some r =>
        if negb (same r) || negb (bool_decide (er_phase r = endpointRequestWaiting)) then
          (e, [ErrProtocol lifecycle_error])
        else cancel_device_id e h r
    end
  else cancel_device_id e h r
  end.

Fixpoint cancel_views (e : TCPEndpoint) (h : TCPRequestHandle) (views : list Z)
    (others : list (TCPEndpoint -> TCPEndpoint)) : TCPEndpoint * errors :=
  match views with
  | [] => (e, [])
  | view :: views =>
      let '(e, (_, errs)) := CancelLogical e h view (default id (head others)) in
      let '(e, errs') := cancel_views e h views (tail others) in
      (e, errs ++ errs')
  end.

(** tcp_coalescing.go: the states of a group's views as its callers see them. *)
Inductive DependentTerminalState : Type :=
| DependentQueued
| DependentAttached
| DependentCancelled
| DependentDelivered
| DependentFailed.

#[export] Instance terminal_state_eq_dec : EqDecision DependentTerminalState.
Proof. solve_decision. Defined.

Definition publicDependentState (state : dependentState) : DependentTerminalState :=
  match state with
  | dependentQueued => DependentQueued
  | dependentAttached => DependentAttached
  | dependentCancelled => DependentCancelled
  | dependentDelivered => DependentDelivered
  | dependentFailed => DependentFailed
  end.

Definition DependentStates (g : group) : gmap Z DependentTerminalState :=
  foldl (fun states d => <[sl_logicalViewID (cd_slice d) := publicDependentState (cd_state d)]> states) ∅
    (cr_dependents g).

(** The views of a group that are not finished, in order. *)
Definition open_views (g : group) : list Z :=
  sorted_keys (filter (fun p => p.2 = DependentQueued \/ p.2 = DependentAttached) (DependentStates g)).

Definition Cancel (e : TCPEndpoint) (h : TCPRequestHandle) (locked written : TCPEndpoint -> TCPEndpoint)
    (others : list (TCPEndpoint -> TCPEndpoint)) : TCPEndpoint * errors :=
  if negb (own_handle e h) then (e, [ErrProtocol request_handle_error])
  else if negb (timelineAvailable e) then
    (disable e "event_sequence_exhausted", [ErrProtocol invalidEndpointConfig])
  else
  match nd_requests e !! th_requestID h with
  | None =>
      if retained (nd_ledger e) h then
        match cancel_retained (nd_ledger e) h with
        | (_, Err err) => (e, [ErrProtocol err])
        | (l, Ok views) =>
            let fields := retained_fields e h in
            match unless_exhausted (record_views (e <| nd_ledger := l |>) fields views) tt with
            | (e, inr err) => (e, [ErrProtocol err])
            | (e, inl _) => (e, [])
            end
        end
      else (e, [ErrProtocol request_handle_error])
  | Some r =>
  if negb (th_deadlineOffset (er_handle r) =? th_deadlineOffset h) then (e, [ErrProtocol request_handle_error])
  else
  match er_group r with
  | None => cancel_traversal e h locked written
  | Some address =>
      match nd_groups e !! address with
      | None => (e, [])
      | Some g => cancel_views e h (open_views g) others
      end
  end
  end.

(** * Retrying *)

(** [restoreRetryLifecycle] with its readings of the clock. *)
Definition restore_lifecycle (e : TCPEndpoint) (h : TCPRequestHandle) : TCPEndpoint :=
  let '(e, now) := tick e in
  let '(e, trackedAt) := tick e in
  with_ledger e (fun l => restoreRetryLifecycle l h now trackedAt).

Definition retry_request (e : TCPEndpoint) (h : TCPRequestHandle) (s : tcpRequestBackoffState)
    (c : TCPConnectionHandle) (address : option Z) (deadline : Z) : endpointRequest :=
  let deviceID := default zeroDeviceIDRequest (bs_deviceID s) in
  {| er_serial := nd_nextAddress e; er_handle := h; er_connectionID := ch_connectionID c;
     er_transportGeneration := ch_generation c; er_unitID := bs_unitID s;
     er_authorizationScope := bs_authorizationScope s; er_pollGeneration := bs_pollGeneration s;
     er_deadlineIdentity := bs_deadlineIdentity s; er_group := address; er_deviceID := deviceID;
     er_deviceIDInitial := deviceID; er_deviceIDLimits := bs_deviceIDLimits s;
     er_deviceIDDecoding := bs_deviceIDDecoding s; er_deviceIDSegments := []; er_deviceIDTraversal := None;
     er_operationDeadline := deadline; er_phase := endpointRequestQueued; er_dispatchID := 0;
     er_physicalRequestID := 0; er_transactionID := 0; er_responseDeadline := 0 |}.

(** The scheduler takes a retried request; the address of its group, for a read. *)
Definition retry_schedule (e : TCPEndpoint) (h : TCPRequestHandle) (s : tcpRequestBackoffState)
    (intents : list ReadIntentSpec) (deadline : Z) : TCPEndpoint * presult (option Z) :=
  let scheduled := scheduled_of (th_requestID h) (bs_unitID s) (bs_authorizationScope s) deadline in
  match bs_deviceID s with
  | Some _ =>
      let '(sched, err) := Enqueue (nd_scheduler e) scheduled in
      (e <| nd_scheduler := sched |>, match err with Some err => Err err | None => Ok None end)
  | None =>
      let address := nd_nextAddress e in
      match ScheduleCoalesced (nd_scheduler e) scheduled intents address with
      | (sched, Err err) => (e <| nd_scheduler := sched |>, Err err)
      | (sched, Ok g) =>
          (e <| nd_scheduler := sched |> <| nd_groups := <[address := g]> (nd_groups e) |>
             <| nd_nextAddress := address + 1 |>, Ok (Some address))
      end
  end.

(** The retried request lost its handle, its connection or the endpoint meanwhile. *)
Definition retry_withdraw (e : TCPEndpoint) (h : TCPRequestHandle) (c : TCPConnectionHandle) (address : option Z)
    (fields : tcpEventFields) : TCPEndpoint * errors :=
  let lifecycle := bs_lifecycle <$> state_of (nd_ledger e) h in
  let owned := retryStillOwned (nd_ledger e) h in
  let connected := bool_decide (is_Some (connectionLocked e c)) in
  let e :=
    match address with
    | Some address => fst (on_link e (ch_connectionID c) [] (fun l => FailTransport l address))
    | None => e <| nd_scheduler := fst (CancelQueued (nd_scheduler e) (th_requestID h)) |>
    end in
  let e := restore_lifecycle e h in
  let e := record_event e TCPEventAdmission (with_detail fields "retry_stale_connection") in
  (e,
   if negb owned
      && (bool_decide (lifecycle = Some tcpRequestRetryable) || bool_decide (lifecycle = Some tcpRequestTerminal)) then
     [ErrCanceled]
   else if negb connected then [ErrProtocol invalidConnectionHandle]
   else [ErrProtocol invalidEndpointConfig]).

(** The retried request is live again. *)
Definition retry_enter (e : TCPEndpoint) (h : TCPRequestHandle) (s : tcpRequestBackoffState)
    (c : TCPConnectionHandle) (address : option Z) (deadline : Z) (fields : tcpEventFields) : TCPEndpoint * errors :=
  let e :=
    e <| nd_requests := <[th_requestID h := retry_request e h s c address deadline]> (nd_requests e) |>
      <| nd_nextAddress := nd_nextAddress e + 1 |> in
  let e := with_ledger e (fun l => retry_commit l h) in
  let e := if bool_decide (bs_deviceID s = None) then record_coalescing e fields (zlen (bs_reads s)) else e in
  let e := record_event e TCPEventAdmission (with_detail fields "retry_admitted") in
  let e := record_event e TCPEventRequestTimerArm (with_detail fields "retry_admitted") in
  match unless_exhausted e tt with
  | (e, inr err) => (e, [ErrProtocol err])
  | (e, inl _) => (e, [])
  end.

(** [Retry] from the claim of the handle on; [s] is the state it found. *)
Definition retry_claimed (e : TCPEndpoint) (h : TCPRequestHandle) (s : tcpRequestBackoffState)
    (c : TCPConnectionHandle) (deadline : Z) (others : TCPEndpoint -> TCPEndpoint) : TCPEndpoint * errors :=
  if negb (bool_decide (is_Some (connectionLocked e c))) then
    (restore_lifecycle e h, [ErrProtocol invalidConnectionHandle])
  else if bool_decide (is_Some (nd_requests e !! th_requestID h)) then
    (restore_lifecycle e h, [ErrProtocol (retry_error ErrorInvalidRequest "request_id")])
  else
  match collect (read_intent e (ch_generation c) (bs_unitID s) (bs_authorizationScope s)
                   (bs_pollGeneration s) (bs_deadlineIdentity s) <$> bs_reads s) with
  | Err err => (restore_lifecycle e h, [ErrProtocol err])
  | Ok intents =>
  let fields :=
    with_detail (plan_fields c (th_requestID h) (bs_unitID s) (bs_authorizationScope s) (bs_pollGeneration s)
                   (bs_deadlineIdentity s) (th_deadlineOffset h)) "retry" in
  let e := record_event e TCPEventEnqueue fields in
  if negb (timelineAvailable e) then
    (disable (restore_lifecycle e h) "event_sequence_exhausted", [ErrProtocol eventSequenceError])
  else
  match retry_schedule e h s intents deadline with
  | (e, Err err) =>
      (restore_lifecycle (record_event e TCPEventAdmission (with_detail fields "retry_rejected")) h, [ErrProtocol err])
  | (e, Ok address) =>
  let e := others e in
  if negb (bool_decide (is_Some (connectionLocked e c))) || bool_decide (is_Some (nd_requests e !! th_requestID h))
     || nd_closed e || negb (retryStillOwned (nd_ledger e) h) then
    retry_withdraw e h c address fields
  else retry_enter e h s c address deadline fields
  end
  end.

(** [others] happens between the scheduler's admission and the endpoint's.  The clock is
    read before the claim, which ignores the reading where it is refused earlier. *)
Definition RetryRequest (e : TCPEndpoint) (h : TCPRequestHandle) (c : TCPConnectionHandle)
    (others : TCPEndpoint -> TCPEndpoint) : TCPEndpoint * errors :=
  match state_of (nd_ledger e) h with
  | None => (e, [ErrProtocol request_handle_error])
  | Some s =>
  if negb (own_handle e h) then (e, [ErrProtocol request_handle_error])
  else if negb (timelineAvailable e) then
    (disable e "event_sequence_exhausted", [ErrProtocol invalidEndpointConfig])
  else
  let '(e, now) := tick e in
  match retry_claim (nd_ledger e) h now with
  | (l, Err err) => (e <| nd_ledger := l |>, [ErrProtocol err])
  | (l, Ok deadline) => retry_claimed (e <| nd_ledger := l |>) h s c deadline others
  end
  end.

(** * Waiting for the backoff *)

Definition jitter_detail (config : BackoffConfig) (recoveryOnly : bool) : string :=
  (bc_JitterAlgorithmID config ++ "@" ++ bc_JitterVersion config ++ ":" ++ bc_JitterEvidence config
     ++ (if recoveryOnly then ";recovery_only" else ""))%string.

Definition end_wait (e : TCPEndpoint) (h : TCPRequestHandle) : TCPEndpoint :=
  with_ledger e (fun l => terminalizeRetryable (clearWaiting l h) h 0).

(** [next] and [reset] are the jitter source and whether a response is correlated while it
    runs; [waited] is what the waiter returns and [others] what happens until then. *)
Definition WaitReconnect (e : TCPEndpoint) (h : TCPRequestHandle) (next : Z -> Z) (reset : bool) (waited : errors)
    (others : TCPEndpoint -> TCPEndpoint) : TCPEndpoint * errors :=
  if negb (own_handle e h) then (e, [ErrProtocol (retry_error ErrorInvalidRequest "backoff_wait")])
  else if negb (timelineAvailable e) then
    (disable e "event_sequence_exhausted", [ErrProtocol invalidEndpointConfig])
  else
  match wait_claim (nd_ledger e) h with
  | (l, Err err) => (e <| nd_ledger := l |>, [ErrProtocol err])
  | (l, Ok (debt, recoveryOnly)) =>
  let '(e, before) := tick (e <| nd_ledger := l |>) in
  match wait_remaining (nd_ledger e) h debt before recoveryOnly with
  | Err err => (end_wait e h, [ErrProtocol err])
  | Ok remaining =>
  let '(backoff, delay) := nextDelayBefore (nd_backoff e) remaining next reset in
  let e := e <| nd_backoff := backoff |> in
  match delay with
  | Err err =>
      (if String.eqb (pe_Field err) "backoff_attempts" then
         disable (with_ledger e (fun l => clearWaiting l h)) "reconnect_backoff_exhausted"
       else end_wait e h, [ErrProtocol err])
  | Ok delay =>
  let fields :=
    no_fields <| ef_RequestID := th_requestID h |> <| ef_DeadlineOffset := th_deadlineOffset h |>
      <| ef_Delay := delay |> <| ef_Detail := jitter_detail (rb_config (nd_backoff e)) recoveryOnly |> in
  let e := record_event e TCPEventJitterBackoff fields in
  if negb (timelineAvailable e) then
    (disable (end_wait e h) "event_sequence_exhausted", [ErrProtocol eventSequenceError])
  else
  let e := others e in
  if negb (is_nil waited) then (with_ledger e (fun l => clearWaiting l h), waited)
  else
  let '(e, after) := tick e in
  let '(l, errs) := wait_conclude (nd_ledger e) h recoveryOnly before delay after in
  (e <| nd_ledger := l |>, errs)
  end
  end
  end.

(** * The snapshot *)

Record TCPEndpointResources : Type := mkTCPEndpointResources {
  rs_ActiveConnections : Z;
  rs_MaxConnections : Z;
  rs_QueuedRequests : Z;
  rs_InFlightRequests : Z;
  rs_MaxInFlightRequests : Z;
  rs_ActiveAdmissionKeys : Z;
  rs_MaxAdmissionKeys : Z;
  rs_CoalescedDependents : Z;
  rs_MaxCoalescedPerKey : Z;
  rs_LiveRequests : Z;
  rs_WaitingResponses : Z;
  rs_RetainedRetries : Z;
  rs_RetiredResponseState : Z
}.

Record TCPEndpointSnapshot : Type := mkTCPEndpointSnapshot {
  es_Endpoint : string;
  es_Healthy : bool;
  es_Closed : bool;
  es_DisableReason : string;
  es_ReconnectRequired : bool;
  es_ReconnectReady : bool;
  es_ReconnectWaiting : bool;
  es_Resources : TCPEndpointResources;
  es_Metrics : TCPEndpointMetrics
}.

Definition resources (e : TCPEndpoint) : TCPEndpointResources :=
  let scheduler := resourceSnapshot (nd_scheduler e) in
  let limits := eg_SchedulerLimits (nd_config e) in
  {| rs_ActiveConnections := ActiveConnections (nd_pool e);
     rs_MaxConnections := pl_MaxConnections (eg_PoolLimits (nd_config e));
     rs_QueuedRequests := sn_queuedRequests scheduler; rs_InFlightRequests := sn_inFlightRequests scheduler;
     rs_MaxInFlightRequests := sl_MaxInFlightRequests limits;
     rs_ActiveAdmissionKeys := sn_activeAdmissionKeys scheduler;
     rs_MaxAdmissionKeys := sl_MaxActiveAdmissionKeys limits;
     rs_CoalescedDependents := sn_coalescedDependents scheduler;
     rs_MaxCoalescedPerKey := sl_MaxCoalescedDependentsPerKey limits;
     rs_LiveRequests := msize (nd_requests e);
     rs_WaitingResponses :=
       msize (filter (fun p => er_phase p.2 = endpointRequestWaiting) (nd_requests e));
     rs_RetainedRetries := msize (rl_retryable (nd_ledger e));
     rs_RetiredResponseState := Z.of_nat (size (nd_retiredPhysical e)) |}.

Definition EndpointSnapshot (e : TCPEndpoint) : TCPEndpointSnapshot :=
  let l := nd_ledger e in
  {| es_Endpoint := eg_Endpoint (nd_config e);
     es_Healthy :=
       negb (rl_closed l) && negb (rl_reconnectRequired l) && (rs_ActiveConnections (resources e) >? 0);
     es_Closed := rl_closed l; es_DisableReason := rl_disableReason l;
     es_ReconnectRequired := rl_reconnectRequired l; es_ReconnectReady := rl_reconnectReady l;
     es_ReconnectWaiting := rl_reconnectWaiting l; es_Resources := resources e;
     es_Metrics := metricsSnapshot (nd_timeline e) |}.
