(* ===== verification/TcpEndpointBooks.v ===== *)
(** The books of the TCP endpoint: what every operation keeps of its tables, whatever
    other threads do between its critical sections. *)

From S2P Require Import Prelude Pdu DeviceId DeviceIdTolerant TcpAdu TcpOwner TcpOwnerFacts TcpPool Coalescing TcpTimeline TcpOperation TcpTransport TcpRetry TcpRetryFacts Scheduler TcpEndpoint TcpEndpointWire TcpEndpointRetry.

(** * Moves of the ledger *)

(** No request comes or goes, a closed ledger takes up no handle, and the ledger's
    invariant is kept. *)
Record sound_move (l l' : retry_ledger) : Prop := mk_sound_move {
  sh_closed : rl_closed l' = rl_closed l;
  sh_capacity : rl_capacity l' = rl_capacity l;
  sh_retries : rl_maxRetries l' = rl_maxRetries l;
  sh_states : forall j, is_Some (rl_states l' !! j) <-> is_Some (rl_states l !! j);
  sm_ok : ledger_ok l -> ledger_ok l'
}.

Lemma sound_refl l : sound_move l l.
Proof. by split. Qed.

Lemma sound_trans l1 l2 l3 : sound_move l1 l2 -> sound_move l2 l3 -> sound_move l1 l3.
Proof. intros [] []. split; try congruence; [|by auto]. intros j. by rewrite sh_states1. Qed.

(** The critical sections of other operations leave the endpoint open or closed. *)
Lemma section_closed l section : rl_closed (section_step l section) = rl_closed l.
Proof.
  assert (H : forall h f, rl_closed (on_state l h f) = rl_closed l)
    by (intros h f; unfold on_state; by destruct (state_of l h)).
  destruct section; cbn [section_step]; try done; try exact (H _ _).
  - unfold markReconnectRequired. by case_test.
  - unfold prune_state. by destruct (state_of l h).
  - unfold track_handle. destruct (state_of l h); [|done]. cbv zeta. repeat case_match; done.
  - unfold wait_state. destruct (state_of l h); [|done]. cbv zeta. by case_test.
  - unfold wait_flag. by case_test.
  - unfold conclude_state. destruct (state_of l h); [|done]. cbv zeta. by repeat case_test.
  - unfold complete_state. destruct (state_of l h); [|done]. cbv zeta. by repeat case_test.
  - unfold complete_flags. by case_test.
  - unfold claim_state. destruct (state_of l h); [|done]. by repeat case_test.
  - case_test; [|done]. unfold retry_commit. cbn. apply H.
  - case_test; [|done]. unfold cancel_retained_view. destruct (state_of l h); [|done]. case_test; [done|].
    destruct (list_find _ _) as [[index r]|]; [|done]. cbv zeta. repeat case_test; done.
  - case_test; [|done]. unfold cancel_retained. destruct (state_of l h); [|done]. case_test; [done|]. cbv zeta. cbn [fst].
    by case_test.
  - case_test; [|done]. unfold connected. by case_test.
Qed.

Lemma moves_closed l l' : ledger_moves l l' -> rl_closed l' = rl_closed l.
Proof. induction 1; [done| |done]. by rewrite section_closed. Qed.

Lemma moves_sound l l' : ledger_moves l l' -> sound_move l l'.
Proof.
  intros H. destruct (moves_stepped _ _ H) as [n Hs]. split; [by apply moves_closed|apply Hs|apply Hs| |by apply ledger_moves_ok].
  intros j. split; [by apply moves_domain|]. intros [s E]. destruct (st_states _ _ _ Hs _ _ E) as (s' & Hs' & _). by eexists.
Qed.

(** Nothing but flags. *)
Lemma flags_sound l l' :
  rl_capacity l' = rl_capacity l -> rl_maxRetries l' = rl_maxRetries l -> rl_states l' = rl_states l ->
  rl_retryable l' = rl_retryable l -> rl_closed l' = rl_closed l ->
  ((rl_reconnectReady l = true -> rl_reconnectRequired l = true) -> rl_reconnectReady l' = true ->
   rl_reconnectRequired l' = true) ->
  sound_move l l'.
Proof.
  intros H1 H2 H3 H4 H5 H6. split; [done..|by rewrite H3|]. apply (stepped_ok idle); [by apply stepped_flags|by rewrite H3].
Qed.

Lemma sound_reason l reason : sound_move l (record_reason l reason).
Proof. unfold record_reason. case_test; [by apply flags_sound|apply sound_refl]. Qed.

Lemma sound_connected l : sound_move l (connected l).
Proof. unfold connected. case_test; [by apply flags_sound|apply sound_refl]. Qed.

Lemma sound_mark l : sound_move l (markReconnectRequired l).
Proof. unfold markReconnectRequired. case_test; [apply sound_refl|by apply flags_sound]. Qed.

Lemma sound_lifecycle l h : sound_move l (setTCPRequestLifecycle l h tcpRequestTerminal).
Proof. auto using moves_sound with moves. Qed.

Lemma sound_retry_state l h lifecycle requires now :
  lifecycle <> tcpRequestActive -> lifecycle <> tcpRequestRetrying ->
  sound_move l (setRequestRetryState l h lifecycle requires now).
Proof. intros. apply moves_sound, moves_retry_state; [|apply moves_refl]. destruct lifecycle; auto; done. Qed.

Lemma sound_forget_read l h view : sound_move l (forget_read l h view).
Proof. apply moves_sound, (moves_section l (SecForgetRead h view)), moves_refl. Qed.

Lemma sound_cancel_view l h view : retained l h = true -> sound_move l (cancel_retained_view l h view).1.
Proof.
  intros Hr. apply moves_sound. pose proof (moves_section l (SecCancelView h view) l (moves_refl l)) as H.
  cbn in H. by rewrite Hr in H.
Qed.

Lemma sound_cancel l h : retained l h = true -> sound_move l (cancel_retained l h).1.
Proof.
  intros Hr. apply moves_sound. pose proof (moves_section l (SecCancelAll h) l (moves_refl l)) as H.
  cbn in H. by rewrite Hr in H.
Qed.

Lemma sound_commit l h : retryStillOwned l h = true -> sound_move l (retry_commit l h).
Proof.
  intros Hr. apply moves_sound. pose proof (moves_section l (SecCommit h) l (moves_refl l)) as H.
  cbn in H. by rewrite Hr in H.
Qed.

Lemma sound_restore l h now trackedAt : sound_move l (restoreRetryLifecycle l h now trackedAt).
Proof. apply moves_sound, moves_restore, moves_refl. Qed.

Lemma sound_clear l h : sound_move l (clearWaiting l h).
Proof. apply moves_sound, moves_clear, moves_refl. Qed.

Lemma sound_terminalize l h now : sound_move l (terminalizeRetryable l h now).
Proof. apply moves_sound, moves_terminalize, moves_refl. Qed.

Lemma sound_wait_claim l h : sound_move l (wait_claim l h).1.
Proof. apply moves_sound, moves_wait_claim, moves_refl. Qed.

Lemma sound_conclude l h recovery before delay after : sound_move l (wait_conclude l h recovery before delay after).1.
Proof. apply moves_sound, moves_wait_conclude, moves_refl. Qed.

Lemma sound_retry_claim l h now : sound_move l (retry_claim l h now).1.
Proof. apply moves_sound, moves_retry_claim, moves_refl. Qed.

(** * The invariant of the endpoint *)

Definition live (e : TCPEndpoint) (id : Z) (r : endpointRequest) : Prop := nd_requests e !! id = Some r.

(** [ep_key]: a request is stored under its handle's identifier, and its state is in the
    ledger.  [ep_phase]: a request that is not being written has no transaction.
    [ep_physical]: a physical request belongs to the live request that wrote it on that
    connection.  [ep_attached]: no request outlives its connection.  [ep_fresh] and
    [ep_tokens]: the next identifiers of a request and of a dispatch were never given out. *)
Record endpoint_ok (e : TCPEndpoint) : Prop := mk_endpoint_ok {
  ep_key : forall id r, live e id r ->
    th_requestID (er_handle r) = id /\ th_endpoint (er_handle r) = nd_self e /\ er_serial r < nd_nextAddress e /\
    is_Some (rl_states (nd_ledger e) !! id);
  ep_phase : forall id r, live e id r ->
    er_phase r = endpointRequestQueued \/ er_phase r = endpointRequestDispatched -> er_physicalRequestID r = 0;
  ep_physical : forall c p id, nd_physical e !! (c, p) = Some id ->
    p <> 0 /\ exists r, live e id r /\ er_connectionID r = c /\ er_physicalRequestID r = p;
  ep_attached : forall id r, live e id r -> is_Some (nd_connections e !! er_connectionID r);
  ep_connection : forall id c, nd_connections e !! id = Some c ->
    ch_connectionID (ec_handle c) = id /\ ch_endpoint (ec_handle c) = nd_self e /\ le_connectionID (ec_lease c) = id;
  ep_fresh : 0 <= nd_nextRequestID e <= MaxUint64 /\
    forall id, is_Some (rl_states (nd_ledger e) !! id) ->
      0 < id <= MaxUint64 /\ (nd_nextRequestID e = 0 \/ id < nd_nextRequestID e);
  ep_tokens : 0 <= nd_nextDispatchID e <= MaxUint64 /\
    forall id r, live e id r -> er_phase r = endpointRequestDispatched ->
      nd_nextDispatchID e = 0 \/ er_dispatchID r < nd_nextDispatchID e;
  ep_closed : nd_closed e = true ->
    nd_requests e = ∅ /\ nd_connections e = ∅ /\ rl_retryable (nd_ledger e) = ∅;
  ep_limits : 0 <= rl_capacity (nd_ledger e) /\ 0 <= rl_maxRetries (nd_ledger e);
  ep_ledger : ledger_ok (nd_ledger e)
}.

(** What the rest of the endpoint may rely on: requests are not confused, a request that
    is being written and is not registered yet (other than [x]) is left to its writer,
    a closed endpoint stays closed, and a dispatched request was dispatched before under
    the same token or got a new one. *)
Record rely (x : option Z) (e e' : TCPEndpoint) : Prop := mk_rely {
  ry_self : nd_self e' = nd_self e;
  ry_address : nd_nextAddress e <= nd_nextAddress e';
  ry_closed : nd_closed e = true -> nd_closed e' = true;
  ry_next : (nd_nextDispatchID e = 0 -> nd_nextDispatchID e' = 0) /\
    (nd_nextDispatchID e' = 0 \/ nd_nextDispatchID e <= nd_nextDispatchID e');
  ry_tokens : forall id r', live e' id r' -> er_phase r' = endpointRequestDispatched ->
    (exists r, live e id r /\ er_phase r = endpointRequestDispatched /\ er_dispatchID r = er_dispatchID r') \/
    (nd_nextDispatchID e <> 0 /\ nd_nextDispatchID e <= er_dispatchID r');
  ry_kept : forall id r', live e' id r' -> er_serial r' < nd_nextAddress e ->
    exists r, live e id r /\ er_serial r = er_serial r' /\
      (er_phase r = endpointRequestWriting -> er_physicalRequestID r = 0 -> Some id <> x ->
       er_phase r' = endpointRequestWriting /\ er_physicalRequestID r' = 0)
}.

(** A move from a sound endpoint leads to one. *)
Definition good (x : option Z) (e e' : TCPEndpoint) : Prop :=
  endpoint_ok e -> endpoint_ok e' /\ rely x e e'.

Lemma rely_refl x e : rely x e e.
Proof.
  split; [done|lia|done|lia|..]; intros id r' Hr Hs; [left|]; by exists r'.
Qed.

Lemma rely_trans x e1 e2 e3 : rely x e1 e2 -> rely x e2 e3 -> rely x e1 e3.
Proof.
  intros [] []. split; [congruence|lia|auto| |..].
  { destruct ry_next0, ry_next1. split; [auto|]. lia. }
  { intros id r3 H3 Hd. destruct (ry_tokens1 id r3 H3 Hd) as [(r2 & H2 & Hd2 & E2)|[Hn Hle]].
    - destruct (ry_tokens0 id r2 H2 Hd2) as [(r1 & H1 & Hd1 & E1)|[? ?]]; [left; exists r1; conj; [done..|congruence]|right; lia].
    - right. lia. }
  intros id r3 H3 Hs.
  destruct (ry_kept1 id r3 H3) as (r2 & H2 & E2 & K2); [lia|].
  destruct (ry_kept0 id r2 H2) as (r1 & H1 & E1 & K1); [lia|].
  exists r1. conj; [done|congruence|]. intros. destruct K1; auto.
Qed.

Lemma good_refl x e : good x e e.
Proof. intros He. split; [done|apply rely_refl]. Qed.

Lemma good_trans x e1 e2 e3 : good x e1 e2 -> good x e2 e3 -> good x e1 e3.
Proof.
  intros H1 H2 He. destruct (H1 He) as [H3 H4]. destruct (H2 H3) as [H5 H6]. split; [done|by eapply rely_trans].
Qed.

Lemma rely_weaken x e e' : rely None e e' -> rely x e e'.
Proof.
  intros []. split; [done..|]. intros id r' Hr Hs. destruct (ry_kept0 id r' Hr Hs) as (r & H1 & H2 & H3).
  exists r. conj; [done..|]. intros. by apply H3.
Qed.

Lemma good_weaken x e e' : good None e e' -> good x e e'.
Proof. intros H He. destruct (H He). split; [done|by apply rely_weaken]. Qed.

(** * Moves that leave the tables alone *)

Record quiet (e e' : TCPEndpoint) : Prop := mk_quiet {
  qt_self : nd_self e' = nd_self e;
  qt_requests : nd_requests e' = nd_requests e;
  qt_physical : nd_physical e' = nd_physical e;
  qt_connections : nd_connections e' = nd_connections e;
  qt_nextRequestID : nd_nextRequestID e' = nd_nextRequestID e;
  qt_nextDispatchID : nd_nextDispatchID e' = nd_nextDispatchID e;
  qt_address : nd_nextAddress e <= nd_nextAddress e';
  qt_ledger : sound_move (nd_ledger e) (nd_ledger e')
}.

Lemma quiet_refl e : quiet e e.
Proof. split; try done; apply sound_refl. Qed.

Lemma quiet_trans e1 e2 e3 : quiet e1 e2 -> quiet e2 e3 -> quiet e1 e3.
Proof. intros [] []. split; try congruence; [lia|by eapply sound_trans]. Qed.

Create HintDb endpoint.
#[export] Hint Resolve quiet_refl : endpoint.

Lemma quiet_ok e e' : quiet e e' -> endpoint_ok e -> endpoint_ok e'.
Proof.
  intros [Hself Hreq Hphys Hconn Hnext Hdisp Haddr [Hc Hcap Hmax Hst Hok]] []. unfold live in *. split; unfold live, nd_closed in *;
    rewrite ?Hself, ?Hreq, ?Hphys, ?Hconn, ?Hnext, ?Hdisp, ?Hc, ?Hcap, ?Hmax; auto.
  - intros id r Hr. destruct (ep_key0 id r Hr) as (H1 & H2 & H3 & H4). conj; [done..|lia|by apply Hst].
  - split; [apply ep_fresh0|]. intros id Hid. by apply ep_fresh0, Hst.
  - intros Hclosed. destruct (ep_closed0 Hclosed) as (H1 & H2 & H3). conj; [done..|].
    apply (lo_closed _ (Hok ep_ledger0)). by rewrite Hc.
Qed.

Lemma quiet_good x e e' : quiet e e' -> good x e e'.
Proof.
  intros Hq He. split; [by eapply quiet_ok|]. destruct Hq as [Hself Hreq _ _ _ Hdisp Haddr [Hc _ _ _ _]].
  split; [done|done|unfold nd_closed; congruence|rewrite Hdisp; lia|..]; intros id r'; unfold live; rewrite Hreq; intros Hr ?;
    [left|]; by exists r'.
Qed.

(** Fields of the endpoint that the books do not mention. *)
Definition same_books (e e' : TCPEndpoint) : Prop :=
  nd_self e' = nd_self e /\ nd_requests e' = nd_requests e /\ nd_physical e' = nd_physical e /\
  nd_connections e' = nd_connections e /\ nd_nextRequestID e' = nd_nextRequestID e /\
  nd_nextDispatchID e' = nd_nextDispatchID e /\ nd_nextAddress e <= nd_nextAddress e' /\
  nd_ledger e' = nd_ledger e.

Lemma books_quiet e e' : same_books e e' -> quiet e e'.
Proof. intros (H1 & H2 & H3 & H4 & H5 & H6 & H7 & H8). split; try done. rewrite H8. apply sound_refl. Qed.

(** A change of such fields. *)
Ltac same_books := apply books_quiet; unfold same_books; cbn; repeat split; try done; lia.

Lemma quiet_tick e : quiet e (tick e).1.
Proof. same_books. Qed.

Lemma quiet_event e kind fields : quiet e (record_event e kind fields).
Proof. same_books. Qed.

Lemma quiet_ledger e f : sound_move (nd_ledger e) (f (nd_ledger e)) -> quiet e (with_ledger e f).
Proof. intros H. by split. Qed.

Lemma quiet_put e connectionID l : quiet e (put_link e connectionID l).
Proof.
  unfold put_link. destruct (nd_attached e !! connectionID); [|apply quiet_refl]. cbv zeta. case_test.
  - eapply quiet_trans; [|apply quiet_ledger, sound_mark]. same_books.
  - same_books.
Qed.

Lemma quiet_on_link {A} e connectionID (missing : A) f : quiet e (on_link e connectionID missing f).1.
Proof. unfold on_link. destruct (link_of e connectionID); [|apply quiet_refl]. destruct (f l). apply quiet_put. Qed.

Lemma quiet_fail e r : quiet e (failRequest e r).1.
Proof.
  unfold failRequest, failRequestSchedulingLocked. destruct (er_group r); [apply quiet_on_link|].
  case_test; [same_books|]. destruct (Complete _ _). same_books.
Qed.

Lemma quiet_end_lifecycle e h : quiet e (end_lifecycle e h).
Proof. apply quiet_ledger, sound_lifecycle. Qed.

Lemma quiet_retry_state e h lifecycle requires :
  lifecycle <> tcpRequestActive -> lifecycle <> tcpRequestRetrying -> quiet e (set_retry_state e h lifecycle requires).
Proof.
  intros Ha Hg. unfold set_retry_state. case_test; [destruct (tick e) as [e1 now] eqn:Et|].
  - eapply quiet_trans; [|apply quiet_ledger, sound_retry_state; done].
    replace e1 with (tick e).1 by by rewrite Et. apply quiet_tick.
  - apply quiet_ledger, sound_retry_state; done.
Qed.

#[export] Hint Resolve quiet_tick quiet_event quiet_put quiet_on_link quiet_fail quiet_end_lifecycle : endpoint.

(** A result of an operation on pairs, seen as its first component. *)
Lemma quiet_fst {A} e (p : TCPEndpoint * A) e' a : quiet e p.1 -> p = (e', a) -> quiet e e'.
Proof. by intros H ->. Qed.

Lemma quiet_foldl {A} (f : TCPEndpoint -> A -> TCPEndpoint) (xs : list A) e :
  (forall e x, quiet e (f e x)) -> quiet e (foldl f e xs).
Proof.
  intros H. revert e. induction xs as [|x xs IH]; intros e; [apply quiet_refl|]. cbn.
  eapply quiet_trans; [apply H|apply IH].
Qed.

Lemma good_foldl {A} x (f : TCPEndpoint -> A -> TCPEndpoint) (xs : list A) e :
  (forall e a, good x e (f e a)) -> good x e (foldl f e xs).
Proof.
  intros H. revert e. induction xs as [|a xs IH]; intros e; [apply good_refl|]. cbn.
  eapply good_trans; [apply H|apply IH].
Qed.

(** * Moves that end requests and connections *)

Lemma fewer_good x e e' :
  nd_self e' = nd_self e -> nd_nextAddress e <= nd_nextAddress e' ->
  (nd_closed e = true -> nd_closed e' = true) -> nd_nextDispatchID e' = nd_nextDispatchID e ->
  nd_requests e' ⊆ nd_requests e -> rely x e e'.
Proof.
  intros H1 H2 H3 H4 H5. split; [done..|rewrite H4; lia| |]; intros id r' Hr ?; [left|]; exists r'; (conj; [by eapply lookup_weaken|done..]).
Qed.

Lemma remove_good x e id : good x e (removeRequestLocked e id).
Proof.
  intros He. unfold removeRequestLocked. destruct (nd_requests e !! id) as [r|] eqn:Er; [|by apply good_refl].
  set (e1 := e <| nd_requests := _ |> <| nd_timeline := _ |>).
  set (e2 := if er_physicalRequestID r =? 0 then e1 else e1 <| nd_physical := _ |>).
  assert (Hp : forall c p j, nd_physical e2 !! (c, p) = Some j -> nd_physical e !! (c, p) = Some j /\ j <> id).
  { intros c p j Hj. assert (Hj' : nd_physical e !! (c, p) = Some j).
    { subst e2. case_test; [done|]. cbn in Hj. by apply lookup_delete_Some in Hj as [_ ?]. }
    split; [done|]. intros ->. destruct (ep_physical _ He _ _ _ Hj') as (Hp0 & r' & Hr' & <- & <-).
    unfold live in Hr'. rewrite Er in Hr'. injection Hr' as <-. subst e2.
    destruct (er_physicalRequestID r =? 0) eqn:E0; [lia|]. cbn in Hj. by rewrite lookup_delete_eq in Hj. }
  assert (Hsame : nd_self e2 = nd_self e /\ nd_nextAddress e2 = nd_nextAddress e /\ nd_ledger e2 = nd_ledger e /\
    nd_requests e2 = delete id (nd_requests e) /\ nd_connections e2 = nd_connections e /\
    nd_nextRequestID e2 = nd_nextRequestID e /\ nd_nextDispatchID e2 = nd_nextDispatchID e)
    by (subst e2; by case_test).
  clearbody e2. destruct Hsame as (S1 & S2 & S3 & S4 & S5 & S6 & S7).
  assert (Hlive : forall j r', live e2 j r' -> live e j r' /\ j <> id).
  { unfold live. rewrite S4. intros j r' [? ?]%lookup_delete_Some. done. }
  split; [|apply fewer_good; [done|lia|unfold nd_closed; congruence|done|rewrite S4; apply delete_subseteq]].
  destruct He. split; unfold nd_closed in *; rewrite ?S1, ?S2, ?S3, ?S5, ?S6, ?S7; auto.
  - intros j r' [Hr _]%Hlive. auto.
  - intros j r' [Hr _]%Hlive. by apply ep_phase0 with j.
  - intros c p j [Hj Hne]%Hp. destruct (ep_physical0 _ _ _ Hj) as (? & r' & Hr' & ? & ?). split; [done|].
    exists r'. conj; [|done..]. unfold live. rewrite S4. by rewrite lookup_delete_ne.
  - intros j r' [Hr _]%Hlive. by apply ep_attached0 with j.
  - split; [apply ep_tokens0|]. intros j r' [Hr _]%Hlive. by apply ep_tokens0 with j.
  - intros Hc. destruct (ep_closed0 Hc) as (H1 & H2 & H3). rewrite S4, H1, H2, H3. by rewrite delete_empty.
Qed.

Lemma remove_requests e id : nd_requests (removeRequestLocked e id) = delete id (nd_requests e).
Proof.
  unfold removeRequestLocked. destruct (nd_requests e !! id) as [r|] eqn:Er; [by case_test|].
  symmetry. by apply delete_id.
Qed.

Lemma remove_all_requests ids e id :
  nd_requests (foldl removeRequestLocked e ids) !! id = if decide (id ∈ ids) then None else nd_requests e !! id.
Proof.
  revert e. induction ids as [|j ids IH]; intros e; cbn [foldl].
  { rewrite decide_False; [done|]. apply not_elem_of_nil. }
  rewrite IH, remove_requests. destruct (decide (id ∈ ids)); [by rewrite decide_True by (by right)|].
  destruct (decide (id = j)) as [->|Hj]; [by rewrite lookup_delete_eq, decide_True by (by left)|].
  rewrite lookup_delete_ne by done. rewrite decide_False; [done|]. intros [?|?]%elem_of_cons; done.
Qed.

Lemma sorted_keys_elem {A} (m : gmap Z A) id : id ∈ sorted_keys m <-> is_Some (m !! id).
Proof.
  unfold sorted_keys. rewrite merge_sort_Permutation, list_elem_of_fmap. split.
  - intros ([j a] & -> & Hj%elem_of_map_to_list). by eexists.
  - intros [a Ha]. exists (id, a). split; [done|]. by apply elem_of_map_to_list.
Qed.

Lemma remove_all_good x e ids : good x e (foldl removeRequestLocked e ids).
Proof. apply good_foldl. intros. apply remove_good. Qed.

(** Removing requests commutes with forgetting connections. *)
Lemma remove_forget e connectionID ids :
  foldl removeRequestLocked (forget_connection e connectionID) ids
  = forget_connection (foldl removeRequestLocked e ids) connectionID.
Proof.
  revert e. induction ids as [|id ids IH]; intros e; [done|]. cbn [foldl]. rewrite <- IH. f_equal.
  destruct e. unfold removeRequestLocked, forget_connection. cbn.
  match goal with |- context [?m !! id] => destruct (m !! id) as [r|]; [|done] end. by case_test.
Qed.

Definition forget_connections (e : TCPEndpoint) : TCPEndpoint :=
  e <| nd_connections := ∅ |> <| nd_retiredPhysical := ∅ |>.

Lemma remove_forget_all e ids :
  foldl removeRequestLocked (forget_connections e) ids = forget_connections (foldl removeRequestLocked e ids).
Proof.
  revert e. induction ids as [|id ids IH]; intros e; [done|]. cbn [foldl]. rewrite <- IH. f_equal.
  destruct e. unfold removeRequestLocked, forget_connections. cbn.
  match goal with |- context [?m !! id] => destruct (m !! id) as [r|]; [|done] end. by case_test.
Qed.

(** Connections are forgotten that no request uses. *)
Lemma fewer_connections_good x e e' :
  nd_self e' = nd_self e -> nd_requests e' = nd_requests e -> nd_physical e' = nd_physical e ->
  nd_nextRequestID e' = nd_nextRequestID e -> nd_nextAddress e' = nd_nextAddress e -> nd_ledger e' = nd_ledger e ->
  nd_nextDispatchID e' = nd_nextDispatchID e -> nd_connections e' ⊆ nd_connections e ->
  (forall id r, live e id r -> nd_connections e' !! er_connectionID r = nd_connections e !! er_connectionID r) ->
  good x e e'.
Proof.
  intros H1 H2 H3 H4 H5 H6 Hd H7 H8 He. split.
  2: { apply fewer_good; [done|lia|unfold nd_closed; congruence|done|by rewrite H2]. }
  destruct He. unfold live, nd_closed in *. split; unfold live, nd_closed; rewrite ?H1, ?H2, ?H3, ?H4, ?H5, ?H6, ?Hd; auto.
  - intros id r Hr. erewrite H8 by done. eauto.
  - intros id c Hc. apply ep_connection0. by eapply lookup_weaken.
  - intros Hc. destruct (ep_closed0 Hc) as (E1 & E2 & E3). conj; [done| |done]. apply map_empty. intros j.
    destruct (nd_connections e' !! j) as [c|] eqn:Ej; [|done].
    apply (lookup_weaken _ _ _ _ Ej) in H7. by rewrite E2, lookup_empty in H7.
Qed.

(** The connection and its requests leave the books together. *)
Lemma drop_books_good x e connectionID :
  good x e (removeConnectionRequestsLocked (forget_connection e connectionID) connectionID).1.
Proof.
  unfold removeConnectionRequestsLocked, take_requests. cbn [fst]. rewrite remove_forget.
  set (ids := sorted_keys _). eapply good_trans; [apply (remove_all_good _ _ ids)|].
  apply fewer_connections_good; try done; cbn; [apply delete_subseteq|].
  intros id r. unfold live. rewrite remove_all_requests. destruct (decide (id ∈ ids)) as [|Hn]; [done|]. intros Hr.
  rewrite lookup_delete_ne; [done|]. intros Hc. apply Hn. subst ids. apply sorted_keys_elem. exists r.
  apply map_lookup_filter_Some. by split.
Qed.

Lemma drop_request_quiet now e r : quiet e (drop_request_of now e r).
Proof.
  unfold drop_request_of. eapply quiet_trans; [|apply quiet_fail].
  apply quiet_retry_state; by case_test.
Qed.

Lemma pair_fst {A B} (p : A * B) a b : p = (a, b) -> a = p.1.
Proof. by intros ->. Qed.

Lemma dropConnection_good x e connectionID : good x e (dropConnection e connectionID).
Proof.
  unfold dropConnection. destruct (removeConnectionRequestsLocked _ _) as [e1 requests] eqn:E1.
  apply pair_fst in E1. subst e1. eapply good_trans; [apply drop_books_good|].
  destruct (tick _) as [e2 now] eqn:E2. apply pair_fst in E2. subst e2.
  apply quiet_good. eapply quiet_trans; [apply quiet_tick|]. apply quiet_foldl. intros. apply drop_request_quiet.
Qed.

Lemma finishRequest_good x e id : good x e (finishRequest e id).
Proof.
  unfold finishRequest. eapply good_trans; [apply remove_good|].
  destruct (nd_requests e !! id); [|apply good_refl]. apply quiet_good, quiet_end_lifecycle.
Qed.

Lemma finishRequestRetryable_good x e id requires : good x e (finishRequestRetryable e id requires).
Proof.
  unfold finishRequestRetryable. eapply good_trans; [apply remove_good|].
  destruct (nd_requests e !! id); [|apply good_refl]. destruct (tick _) as [e1 now] eqn:E1. apply pair_fst in E1. subst e1.
  apply quiet_good. eapply quiet_trans; [apply quiet_tick|]. apply quiet_retry_state; by case_test.
Qed.

Lemma close_lease_quiet e lease : quiet e (close_lease e lease).1.
Proof.
  unfold close_lease. cbv zeta. case_test; [apply quiet_refl|]. cbn [fst].
  eapply quiet_trans; [eapply (quiet_on_link e (le_connectionID lease) tt)|]. same_books.
Qed.

Lemma close_leases_quiet leases e : quiet e (close_leases e leases).1.
Proof.
  revert e. induction leases as [|lease leases IH]; intros e; [apply quiet_refl|]. cbn [close_leases].
  destruct (close_lease e lease) as [e1 errs] eqn:E1. destruct (close_leases e1 leases) as [e2 errs'] eqn:E2. cbn [fst].
  apply pair_fst in E1, E2. subst e1 e2. eapply quiet_trans; [apply close_lease_quiet|apply IH].
Qed.

Lemma end_requests_quiet requests e : quiet e (end_requests e requests).1.
Proof.
  revert e. induction requests as [|r requests IH]; intros e; [apply quiet_refl|]. cbn [end_requests].
  destruct (failRequest (end_lifecycle e (er_handle r)) r) as [e1 errs] eqn:E1.
  destruct (end_requests e1 requests) as [e2 errs'] eqn:E2. cbn [fst]. apply pair_fst in E1, E2. subst e1 e2.
  eapply quiet_trans; [apply quiet_end_lifecycle|]. eapply quiet_trans; [apply quiet_fail|apply IH].
Qed.

Lemma CloseConnection_good x e handle : good x e (CloseConnection e handle).1.
Proof.
  unfold CloseConnection. destruct (connectionLocked e handle) as [c|]; [|apply good_refl].
  destruct (removeConnectionRequestsLocked _ _) as [e1 requests] eqn:E1. apply pair_fst in E1. subst e1.
  eapply good_trans; [apply drop_books_good|].
  destruct (close_lease _ _) as [e2 errs] eqn:E2. apply pair_fst in E2. subst e2.
  destruct (end_requests _ _) as [e3 errs'] eqn:E3. apply pair_fst in E3. subst e3. cbn [fst].
  apply quiet_good. eapply quiet_trans; [apply close_lease_quiet|apply end_requests_quiet].
Qed.

(** * Closing the endpoint *)

Lemma close_ledger_sound l requests : rl_closed l = false -> sound_move (close_flags l) (close_ledger l requests).
Proof.
  intros Hc. unfold close_ledger. rewrite Hc. cbv zeta. apply moves_sound.
  apply moves_foldl; [auto with moves|]. apply moves_foldl; auto with moves.
Qed.

(** The endpoint when its books are empty and its ledger closed. *)
Definition closed_books (e : TCPEndpoint) : TCPEndpoint :=
  with_ledger (foldl removeRequestLocked (forget_connections e) (sorted_keys (nd_requests e)))
    (fun l => close_ledger l []).

Lemma foldl_remove_fields ids e :
  let e' := foldl removeRequestLocked e ids in
  nd_self e' = nd_self e /\ nd_ledger e' = nd_ledger e /\ nd_nextRequestID e' = nd_nextRequestID e /\
  nd_nextAddress e' = nd_nextAddress e /\ nd_connections e' = nd_connections e /\
  nd_nextDispatchID e' = nd_nextDispatchID e.
Proof.
  revert e. induction ids as [|id ids IH]; intros e; [done|]. cbn [foldl].
  specialize (IH (removeRequestLocked e id)). cbv zeta in IH |- *. destruct IH as (H1 & H2 & H3 & H4 & H5 & H6).
  rewrite H1, H2, H3, H4, H5, H6. unfold removeRequestLocked. destruct (nd_requests e !! id); [|done]. by case_test.
Qed.

Lemma no_requests_left e : nd_requests (foldl removeRequestLocked e (sorted_keys (nd_requests e))) = ∅.
Proof.
  apply map_empty. intros id. rewrite remove_all_requests. case_decide as Hn; [done|].
  destruct (nd_requests e !! id) eqn:E; [|done]. destruct Hn. apply sorted_keys_elem. by eexists.
Qed.

Lemma closed_books_good x e : nd_closed e = false -> good x e (closed_books e) /\ nd_closed (closed_books e) = true.
Proof.
  intros Hc. unfold closed_books. rewrite remove_forget_all.
  set (e1 := foldl removeRequestLocked e _).
  assert (Hg : good x e e1) by apply remove_all_good.
  pose proof (no_requests_left e) as Hempty. fold e1 in Hempty.
  destruct (foldl_remove_fields (sorted_keys (nd_requests e)) e) as (F1 & F2 & F3 & F4 & F5 & F6). fold e1 in F1, F2, F3, F4, F5, F6.
  assert (Hc1 : rl_closed (nd_ledger e1) = false) by (unfold nd_closed in Hc; congruence).
  destruct (close_ledger_sound (nd_ledger e1) [] Hc1) as [C1 C2 C3 C4 C5]. split; [|done].
  eapply good_trans; [exact Hg|]. clear Hg F1 F2 F3 F4 F5 F6. clearbody e1. intros He. split.
  2: { apply fewer_good; cbn; [done|lia|done|done|done]. }
  destruct He. unfold live, nd_closed in *.
  assert (Hl : ledger_ok (close_ledger (nd_ledger e1) [])) by (apply C5, close_flags_ok; [done|lia]).
  split; unfold live, nd_closed; cbn; rewrite ?C2, ?C3; auto.
  - intros id r. by rewrite Hempty.
  - intros id r. by rewrite Hempty.
  - intros id c. by rewrite lookup_empty.
  - split; [apply ep_fresh0|]. intros id ?%C4. by apply ep_fresh0.
  - intros Hcl. conj; [done..|by apply lo_closed].
Qed.

Lemma releaseRemoteClaim_quiet e : quiet e (releaseRemoteClaim e).
Proof. unfold releaseRemoteClaim. cbv zeta. case_test; same_books. Qed.

(** [TCPEndpointClose] is its empty books followed by moves that leave the tables alone. *)
Lemma Close_books e : nd_closed e = false -> quiet (closed_books e) (TCPEndpointClose e).1.
Proof.
  intros Hc. unfold TCPEndpointClose. rewrite Hc. cbv zeta. unfold take_requests. cbn [fst snd].
  change (e <| nd_connections := ∅ |> <| nd_retiredPhysical := ∅ |>) with (forget_connections e).
  replace (sorted_keys (nd_requests (forget_connections e))) with (sorted_keys (nd_requests e)) by done.
  fold (closed_books e).
  destruct (end_requests _ _) as [e2 errs] eqn:E2. apply pair_fst in E2. subst e2.
  destruct (close_leases _ _) as [e3 errs'] eqn:E3. apply pair_fst in E3. subst e3. cbn [fst].
  eapply quiet_trans; [apply end_requests_quiet|]. eapply quiet_trans; [apply close_leases_quiet|].
  apply releaseRemoteClaim_quiet.
Qed.

Lemma Close_good x e : good x e (TCPEndpointClose e).1.
Proof.
  destruct (nd_closed e) eqn:Hc; [unfold TCPEndpointClose; rewrite Hc; apply good_refl|].
  eapply good_trans; [by apply closed_books_good|]. by apply quiet_good, Close_books.
Qed.

Lemma Close_closed e : nd_closed (TCPEndpointClose e).1 = true.
Proof.
  destruct (nd_closed e) eqn:Hc; [unfold TCPEndpointClose; by rewrite Hc|].
  destruct (Close_books e Hc) as [_ _ _ _ _ _ _ [H _ _ _ _]]. unfold nd_closed. rewrite H.
  by apply (closed_books_good None).
Qed.

Lemma disable_good x e reason : good x e (disable e reason).
Proof.
  unfold disable. eapply good_trans; [|apply Close_good]. apply quiet_good, quiet_ledger.
  apply sound_reason.
Qed.

#[export] Hint Resolve good_refl remove_good dropConnection_good finishRequest_good finishRequestRetryable_good
  CloseConnection_good Close_good disable_good : endpoint.
