(* ===== verification/TcpEndpointMoves.v ===== *)
(** The operations of the TCP endpoint keep its books: opening connections, admission,
    dispatch, writing, reading, cancelling, retrying and waiting. *)

From S2P Require Import Prelude Pdu DeviceId DeviceIdTolerant TcpAdu TcpOwner TcpOwnerFacts TcpPool Coalescing TcpTimeline TcpOperation TcpTransport TcpRetry TcpRetryFacts Scheduler TcpEndpoint TcpEndpointWire TcpEndpointRetry TcpEndpointBooks.

(** What other threads do in a gap. *)
Definition safe (f : TCPEndpoint -> TCPEndpoint) : Prop := forall e, good None e (f e).

Lemma safe_id : safe id.
Proof. intros e. apply good_refl. Qed.

Lemma safe_at x f e : safe f -> good x e (f e).
Proof. intros H. by apply good_weaken. Qed.

(** The head of a pair of which the first component is followed. *)
Ltac follow E := apply pair_fst in E; subst.

(** * New requests *)

Lemma insert_good x e e' id r :
  nd_self e' = nd_self e -> nd_connections e' = nd_connections e -> nd_physical e' = nd_physical e ->
  nd_nextAddress e' = nd_nextAddress e + 1 -> nd_requests e' = <[id := r]> (nd_requests e) ->
  nd_requests e !! id = None -> nd_closed e' = nd_closed e -> nd_closed e = false ->
  nd_nextDispatchID e' = nd_nextDispatchID e -> th_requestID (er_handle r) = id -> th_endpoint (er_handle r) = nd_self e -> er_serial r = nd_nextAddress e ->
  er_phase r = endpointRequestQueued -> er_physicalRequestID r = 0 ->
  is_Some (nd_connections e !! er_connectionID r) ->
  (forall j, is_Some (rl_states (nd_ledger e') !! j) <-> j = id \/ is_Some (rl_states (nd_ledger e) !! j)) ->
  rl_capacity (nd_ledger e') = rl_capacity (nd_ledger e) -> rl_maxRetries (nd_ledger e') = rl_maxRetries (nd_ledger e) ->
  (endpoint_ok e -> 0 <= nd_nextRequestID e' <= MaxUint64 /\ 0 < id <= MaxUint64 /\
     (nd_nextRequestID e' = 0 \/ (id < nd_nextRequestID e' /\ nd_nextRequestID e <> 0 /\
        nd_nextRequestID e <= nd_nextRequestID e'))) ->
  (endpoint_ok e -> ledger_ok (nd_ledger e')) ->
  good x e e'.
Proof.
  intros H1 H2 H3 H4 H5 Hnone H6 H7 Hdisp Hid Hself Hserial Hphase Hphys Hconn Hst Hcap Hmax Hnext Hledger He.
  specialize (Hnext He). specialize (Hledger He). split.
  - destruct He as [Kkey Kphase Kphysical Kattached Kconnection Kfresh Ktokens Kclosed Klimits Kledger]. unfold live in *. split; unfold live; rewrite ?H1, ?H2, ?H3, ?H4, ?H5, ?Hcap, ?Hmax, ?Hdisp; auto.
    + intros j r' [[<- <-]|[Hj Hr]]%lookup_insert_Some.
      * conj; [done|done|lia|]. apply Hst. by left.
      * destruct (Kkey _ _ Hr) as (? & ? & ? & ?). conj; [done|done|lia|]. apply Hst. by right.
    + intros j r' [[<- <-]|[Hj Hr]]%lookup_insert_Some; [done|]. by apply Kphase with j.
    + intros c p j (Hp & r' & Hr & Hc)%Kphysical. split; [done|]. exists r'. split; [|done].
      rewrite lookup_insert_ne; [done|]. intros ->. congruence.
    + intros j r' [[<- <-]|[Hj Hr]]%lookup_insert_Some; [done|]. by apply Kattached with j.
    + destruct Kfresh as [Hf1 Hf2]. split; [lia|]. intros j [->|Hj]%Hst; [lia|]. specialize (Hf2 j Hj). lia.
    + split; [apply Ktokens|]. intros j r' [[<- <-]|[Hj Hr]]%lookup_insert_Some; [congruence|]. by apply Ktokens with j.
    + rewrite H6, H7. done.
  - split; [done|lia|congruence|rewrite Hdisp; lia|..]; intros j r'; unfold live; rewrite H5;
      intros [[<- <-]|[Hj Hr]]%lookup_insert_Some Hs; [congruence|left; by exists r'|lia|by exists r'].
Qed.

(** ** Opening connections *)

Lemma claim_quiet e conn : quiet e (claimRemoteForConnection e conn).1.
Proof.
  unfold claimRemoteForConnection. destruct (cn_base conn) as [[remote|]|]; [|apply quiet_refl..].
  case_test; [apply quiet_refl|]. destruct (nd_remotes e !! _); [case_test; apply quiet_refl|]. same_books.
Qed.

Lemma unclaim_quiet e new : quiet e (releaseRemoteClaimIfUnused e new).
Proof. unfold releaseRemoteClaimIfUnused. case_test; [apply quiet_refl|]. case_test; [same_books|apply quiet_refl]. Qed.

Lemma attach_quiet e lease conn : quiet e (attach_transport e lease conn).1.
Proof.
  unfold attach_transport. destruct (ps_owners (nd_pool e) !! le_owner lease) as [o|]; [|apply quiet_refl]. cbv zeta.
  destruct (newTCPTransportWithConfig _ _ _ _ _) as [[o' claims] [[transport timeline]|err]]; same_books.
Qed.

Lemma connect_good x e id c :
  nd_closed e = false -> ch_connectionID (ec_handle c) = id -> ch_endpoint (ec_handle c) = nd_self e ->
  le_connectionID (ec_lease c) = id -> good x e (e <| nd_connections := <[id := c]> (nd_connections e) |>).
Proof.
  intros Hc H1 H2 H3 He. split; [|apply fewer_good; cbn; done || lia].
  destruct He as [Kkey Kphase Kphysical Kattached Kconnection Kfresh Ktokens Kclosed Klimits Kledger]. unfold live in *. split; unfold live; cbn; auto.
  - intros j r Hr. destruct (decide (er_connectionID r = id)) as [<-|Hj]; [by rewrite lookup_insert_eq|].
    rewrite lookup_insert_ne by done. by apply Kattached with j.
  - intros j c' [[<- <-]|[Hj Hc']]%lookup_insert_Some; [done|]. by apply Kconnection.
  - unfold nd_closed in *. cbn. congruence.
Qed.

Lemma quiet_closed e e' : quiet e e' -> nd_closed e' = nd_closed e.
Proof. by intros [_ _ _ _ _ _ _ [? _ _ _ _]]. Qed.

Lemma OpenConnection_good x e conn : good x e (OpenConnection e conn).1.
Proof.
  unfold OpenConnection. case_test; [apply disable_good|].
  destruct (nd_closed e) eqn:Hc; [apply good_refl|]. case_test; [apply good_refl|].
  destruct (claimRemoteForConnection e conn) as [e1 claim] eqn:E1. pose proof (claim_quiet e conn) as Q1. rewrite E1 in Q1. cbn in Q1.
  destruct claim as [new|err]; [|by apply quiet_good].
  destruct (openConnection (nd_pool e1)) as [pool opened].
  assert (Q2 : quiet e (e1 <| nd_pool := pool |>)) by (eapply quiet_trans; [exact Q1|same_books]).
  destruct opened as [lease|err]; [|apply quiet_good; eapply quiet_trans; [exact Q2|apply unclaim_quiet]].
  destruct (attach_transport _ lease conn) as [e2 attached] eqn:E2.
  pose proof (attach_quiet (e1 <| nd_pool := pool |>) lease conn) as Q3. rewrite E2 in Q3. cbn in Q3.
  assert (Q4 : quiet e e2) by (by eapply quiet_trans).
  destruct attached as [generation|err]; cbn [fst].
  2: { apply quiet_good. eapply quiet_trans; [exact Q4|]. eapply quiet_trans; [apply close_lease_quiet|apply unclaim_quiet]. }
  set (handle := {| ch_endpoint := _ |}). set (e3 := e2 <| nd_connections := _ |>).
  assert (G3 : good x e e3).
  { eapply good_trans; [by apply quiet_good|]. apply connect_good; try done. by rewrite (quiet_closed _ _ Q4). }
  assert (G4 : good x e (with_ledger e3 connected)).
  { eapply good_trans; [exact G3|]. apply quiet_good, quiet_ledger, sound_connected. }
  case_test; [|done]. cbn [fst tick]. case_test; cbn [fst].
  - eapply good_trans; [exact G4|]. eapply good_trans; [|apply disable_good]. apply quiet_good. same_books.
  - eapply good_trans; [exact G4|]. apply quiet_good. same_books.
Qed.

(** ** Admission *)

Lemma good_at x e1 e2 e3 :
  endpoint_ok e1 -> good x e1 e2 -> (endpoint_ok e2 -> rely x e1 e2 -> good x e2 e3) -> endpoint_ok e3 /\ rely x e1 e3.
Proof.
  intros H1 H2 H3. destruct (H2 H1) as [K1 K2]. destruct (H3 K1 K2 K1) as [K3 K4]. split; [done|by eapply rely_trans].
Qed.

Lemma is_some_insert {A} (m : gmap Z A) i a j : is_Some (<[i := a]> m !! j) <-> j = i \/ is_Some (m !! j).
Proof.
  destruct (decide (j = i)) as [->|Hj]; [rewrite lookup_insert_eq; split; [by left|by eexists]|].
  rewrite lookup_insert_ne by done. split; [by right|by intros [?|?]].
Qed.

Lemma connectionLocked_some e c connection :
  connectionLocked e c = Some connection -> nd_connections e !! ch_connectionID c = Some connection.
Proof.
  unfold connectionLocked. case_test; [done|].
  destruct (nd_connections e !! ch_connectionID c); [|done]. case_test; [done|]. by intros [= <-].
Qed.

(** A new request under the next identifier. *)
Lemma admit_good x e h r unitID scope poll identity reads deviceID limits decoding :
  nd_closed e = false -> nd_nextRequestID e <> 0 -> th_requestID h = nd_nextRequestID e ->
  th_endpoint h = nd_self e -> er_handle r = h -> er_serial r = nd_nextAddress e ->
  er_phase r = endpointRequestQueued -> er_physicalRequestID r = 0 ->
  is_Some (nd_connections e !! er_connectionID r) ->
  good x e
    (with_ledger
       (e <| nd_requests := <[th_requestID h := r]> (nd_requests e) |>
          <| nd_nextRequestID := wrap64 (th_requestID h + 1) |> <| nd_nextAddress := nd_nextAddress e + 1 |>)
       (fun l => admit_request l h unitID scope poll identity reads deviceID limits decoding)).
Proof.
  intros Hc Hn Hid Hself Hh Hserial Hphase Hphys Hconn He.
  assert (Hnew : state_of (nd_ledger e) h = None).
  { unfold state_of. destruct (rl_states (nd_ledger e) !! th_requestID h) eqn:Es; [|done].
    destruct (ep_fresh _ He) as [_ Hf]. destruct (Hf (th_requestID h)) as [_ Hlt]; [by eexists|]. lia. }
  assert (Hnone : nd_requests e !! th_requestID h = None).
  { destruct (nd_requests e !! th_requestID h) as [r'|] eqn:Er; [|done].
    destruct (ep_key _ He _ _ Er) as (_ & _ & _ & Hs). unfold state_of in Hnew. rewrite Hnew in Hs. by destruct Hs. }
  revert He. apply (insert_good x _ _ (th_requestID h) r); cbn; try done; try congruence.
  - intros j. apply is_some_insert.
  - intros He. destruct (ep_fresh _ He) as [Hf _]. unfold wrap64, MaxUint64 in *.
    destruct (decide (th_requestID h = 18446744073709551615)) as [Heq|].
    + rewrite Heq. change ((18446744073709551615 + 1) mod 18446744073709551616) with 0. lia.
    + rewrite Z.mod_small by lia. lia.
  - intros He. destruct (ep_limits _ He). apply admit_ok; [apply He|done..].
Qed.

Lemma disable_quiet_good x e e' reason : quiet e e' -> good x e (disable e' reason).
Proof. intros Hq. eapply good_trans; [by apply quiet_good|apply disable_good]. Qed.

Lemma events_good x e fields handle : good x e (admitted_events e fields handle).1.
Proof.
  unfold admitted_events. case_test; cbn [fst]; [apply disable_quiet_good|apply quiet_good];
    (eapply quiet_trans; apply quiet_event).
Qed.

Lemma give_up_quiet e connectionID address fields detail : quiet e (give_up_group e connectionID address fields detail).
Proof. unfold give_up_group. eapply quiet_trans; [eapply quiet_on_link|apply quiet_event]. Qed.

Lemma coalescing_quiet e fields views : quiet e (record_coalescing e fields views).
Proof. unfold record_coalescing. case_test; [apply quiet_refl|]. same_books. Qed.

#[export] Hint Resolve quiet_good give_up_quiet coalescing_quiet close_lease_quiet unclaim_quiet : endpoint.

Lemma EnqueueRead_good x e plan others : safe others -> good x e (EnqueueRead e plan others).1.
Proof.
  intros Hsafe. unfold EnqueueRead. case_test; [apply disable_good|].
  destruct (tick e) as [e1 now] eqn:E1. pose proof (quiet_tick e) as Q1. rewrite E1 in Q1. cbn in Q1. clear E1.
  case_test; [by apply quiet_good|]. destruct (nd_nextRequestID e1 =? 0) eqn:En; [by apply disable_quiet_good|].
  destruct (collect _) as [intents|]; [|by apply quiet_good]. cbv zeta.
  set (fields := plan_fields _ _ _ _ _ _ _). set (e2 := record_event e1 _ fields).
  assert (Q2 : quiet e e2) by (eapply quiet_trans; [exact Q1|apply quiet_event]).
  assert (Hid : nd_nextRequestID e2 = nd_nextRequestID e1) by apply (quiet_event e1).
  case_test; [by apply disable_quiet_good|].
  destruct (ScheduleCoalesced _ _ _ _) as [s [g|err]]; cbn [fst].
  2: { apply quiet_good. eapply quiet_trans; [exact Q2|]. eapply quiet_trans; [|apply quiet_event]. same_books. }
  set (e3 := e2 <| nd_scheduler := s |> <| nd_groups := _ |> <| nd_nextAddress := _ |>).
  assert (Q3 : quiet e e3) by (eapply quiet_trans; [exact Q2|same_books]).
  set (e4 := others e3). assert (G4 : good x e e4) by (eapply good_trans; [by apply quiet_good|by apply safe_at]).
  destruct (nd_closed e4) eqn:Hc; [eapply good_trans; [exact G4|apply quiet_good, give_up_quiet]|].
  destruct (connectionLocked e4 _) as [c|] eqn:Hl; cbn [bool_decide].
  2: { case_bool_decide as Hs; [by destruct Hs|]. cbn. eapply good_trans; [exact G4|apply quiet_good, give_up_quiet]. }
  rewrite bool_decide_eq_true_2 by by eexists. cbn [negb].
  destruct (nd_nextRequestID e4 =? nd_nextRequestID e1) eqn:Em; cbn [negb fst].
  2: { eapply good_trans; [exact G4|apply disable_quiet_good, give_up_quiet]. }
  set (handle := {| th_endpoint := _ |}). set (e5 := with_ledger _ _).
  eapply (good_trans _ _ e5).
  - intros He. apply (good_at x e e4); [done|done|]. intros He4 Hr4.
    apply connectionLocked_some in Hl.
    apply (admit_good x e4 handle); cbn; try done; try lia.
    rewrite (ry_self _ _ _ Hr4). by rewrite (qt_self _ _ Q1).
  - eapply good_trans; [apply quiet_good, coalescing_quiet|apply events_good].
Qed.

Lemma EnqueueDeviceID_good x e plan others : safe others -> good x e (EnqueueDeviceID e plan others).1.
Proof.
  intros Hsafe. unfold EnqueueDeviceID.
  destruct (validateDeviceIDRequest _); [apply good_refl|]. destruct (validateDeviceIDLimits _); [apply good_refl|].
  case_test; [apply good_refl|]. case_test; [apply disable_good|].
  destruct (tick e) as [e1 now] eqn:E1. pose proof (quiet_tick e) as Q1. rewrite E1 in Q1. cbn in Q1. clear E1.
  case_test; [by apply quiet_good|]. destruct (nd_nextRequestID e1 =? 0) eqn:En; [by apply disable_quiet_good|]. cbv zeta.
  set (fields := (plan_fields _ _ _ _ _ _ _) <| ef_RequestedFunction := _ |>). set (e2 := record_event e1 _ fields).
  assert (Q2 : quiet e e2) by (eapply quiet_trans; [exact Q1|apply quiet_event]).
  case_test; [by apply disable_quiet_good|].
  destruct (Enqueue _ _) as [s [err|]]; cbn [fst].
  1: { apply quiet_good. eapply quiet_trans; [exact Q2|]. eapply quiet_trans; [|apply quiet_event]. same_books. }
  set (e3 := e2 <| nd_scheduler := s |>).
  assert (Q3 : quiet e e3) by (eapply quiet_trans; [exact Q2|same_books]).
  set (e4 := others e3). assert (G4 : good x e e4) by (eapply good_trans; [by apply quiet_good|by apply safe_at]).
  case_test; cbn [fst].
  { eapply good_trans; [exact G4|]. apply quiet_good. eapply quiet_trans; [|apply quiet_event]. same_books. }
  bool_hyps. destruct (connectionLocked e4 _) as [c|] eqn:Hl; [|by destruct H1].
  set (handle := {| th_endpoint := _ |}). set (e5 := with_ledger _ _).
  eapply (good_trans _ _ e5); [|apply events_good].
  intros He. apply (good_at x e e4); [done|done|]. intros He4 Hr4.
  apply connectionLocked_some in Hl.
  apply (admit_good x e4 handle); cbn; try done; try lia.
  rewrite (ry_self _ _ _ Hr4). by rewrite (qt_self _ _ Q1).
Qed.

(** ** Changes of live requests *)

(** A live request changes, but neither its identity nor its transaction. *)
Lemma update_good x e id r r' :
  live e id r -> er_handle r' = er_handle r -> er_serial r' = er_serial r ->
  er_connectionID r' = er_connectionID r -> er_physicalRequestID r' = er_physicalRequestID r ->
  (er_phase r' = endpointRequestQueued \/ er_phase r' = endpointRequestDispatched -> er_physicalRequestID r = 0) ->
  (er_phase r' = endpointRequestDispatched ->
   er_phase r = endpointRequestDispatched /\ er_dispatchID r' = er_dispatchID r) ->
  (er_phase r = endpointRequestWriting -> er_physicalRequestID r = 0 -> Some id <> x ->
   er_phase r' = endpointRequestWriting) ->
  good x e (e <| nd_requests := <[id := r']> (nd_requests e) |>).
Proof.
  intros Hr H1 H2 H3 H4 H5 Hd H6 He.
  assert (Hl : forall j q, live (e <| nd_requests := <[id := r']> (nd_requests e) |>) j q ->
    (j = id /\ q = r') \/ (j <> id /\ live e j q)).
  { intros j q. unfold live. cbn. intros [[<- <-]|[? ?]]%lookup_insert_Some; auto. }
  split.
  - destruct He as [Kkey Kphase Kphysical Kattached Kconnection Kfresh Ktokens Kclosed Klimits Kledger]. split; auto.
    + intros j q [[-> ->]|[_ Hq]]%Hl; [|by apply Kkey]. rewrite H1, H2. by apply Kkey.
    + intros j q [[-> ->]|[_ Hq]]%Hl; [|by apply Kphase with j]. rewrite H4. done.
    + intros c p j (Hp & q & Hq & E1 & E2)%Kphysical. split; [done|]. destruct (decide (j = id)) as [->|Hj].
      * exists r'. unfold live in *. cbn. rewrite lookup_insert_eq, H3, H4. conj; [done|congruence..].
      * exists q. unfold live in *. cbn. by rewrite lookup_insert_ne.
    + intros j q [[-> ->]|[_ Hq]]%Hl; [rewrite H3; by apply Kattached with id|by apply Kattached with j].
    + split; [apply Ktokens|]. intros j q [[-> ->]|[_ Hq]]%Hl Hp; [|by apply Ktokens with j].
      destruct (Hd Hp) as [Hp' ->]. by apply Ktokens with id.
    + intros Hc. destruct (Kclosed Hc) as [E _]. unfold live in Hr. by rewrite E in Hr.
  - split; [done|done|done|cbn; lia|..]; intros j q [[-> ->]|[_ Hq]]%Hl Hs; [|left; by exists q| |by exists q].
    + destruct (Hd Hs) as [? ?]. left. by exists r.
    + exists r. rewrite H4. conj; [done|done|]. intros. split; [auto|done].
Qed.

(** Fields that the invariant does not mention. *)
Lemma books_good x e e' :
  nd_self e' = nd_self e -> nd_requests e' = nd_requests e -> nd_physical e' = nd_physical e ->
  nd_nextRequestID e' = nd_nextRequestID e -> nd_nextAddress e' = nd_nextAddress e -> nd_ledger e' = nd_ledger e ->
  nd_nextDispatchID e' = nd_nextDispatchID e -> nd_connections e' = nd_connections e -> good x e e'.
Proof. intros ??????? Hc. apply fewer_connections_good; try done; [by rewrite Hc|]. intros. by rewrite Hc. Qed.

(** A queued request is dispatched under the next token. *)
Lemma token_good x e id r :
  live e id r -> er_phase r = endpointRequestQueued -> nd_nextDispatchID e <> 0 ->
  good x e
    (e <| nd_nextDispatchID := wrap64 (nd_nextDispatchID e + 1) |>
       <| nd_requests :=
            <[id := r <| er_phase := endpointRequestDispatched |> <| er_dispatchID := nd_nextDispatchID e |>]>
              (nd_requests e) |>).
Proof.
  intros Hr Hq Hn He. set (e' := e <| nd_nextDispatchID := _ |> <| nd_requests := _ |>).
  set (r' := r <| er_phase := _ |> <| er_dispatchID := _ |>) in *.
  assert (Hl : forall j q, live e' j q -> (j = id /\ q = r') \/ (j <> id /\ live e j q)).
  { intros j q. unfold live. cbn. intros [[<- <-]|[? ?]]%lookup_insert_Some; auto. }
  assert (Hnext : 0 <= nd_nextDispatchID e' <= MaxUint64 /\
    (nd_nextDispatchID e' = 0 \/ nd_nextDispatchID e' = nd_nextDispatchID e + 1)).
  { destruct (ep_tokens _ He) as [Hb _]. subst e'. cbn. unfold wrap64, MaxUint64 in *.
    destruct (decide (nd_nextDispatchID e = 18446744073709551615)) as [Heq|].
    - rewrite Heq. change ((18446744073709551615 + 1) mod 18446744073709551616) with 0. lia.
    - rewrite Z.mod_small by lia. lia. }
  split.
  - destruct He as [Kkey Kphase Kphysical Kattached Kconnection Kfresh Ktokens Kclosed Klimits Kledger]. split; auto.
    + intros j q [[-> ->]|[_ Hj]]%Hl; [by apply (Kkey id r)|by apply Kkey].
    + intros j q [[-> ->]|[_ Hj]]%Hl Hp; [|by apply Kphase with j]. apply (Kphase id r Hr). by left.
    + intros c p j (Hp & q & Hj & E1 & E2)%Kphysical. split; [done|]. destruct (decide (j = id)) as [->|Hne].
      * exists r'. unfold live in *. cbn. rewrite lookup_insert_eq. conj; [done|cbn; congruence..].
      * exists q. unfold live in *. cbn. by rewrite lookup_insert_ne.
    + intros j q [[-> ->]|[_ Hj]]%Hl; [by apply (Kattached id r)|by apply Kattached with j].
    + split; [lia|]. intros j q [[-> ->]|[_ Hj]]%Hl Hp; [change (er_dispatchID r') with (nd_nextDispatchID e); lia|]. destruct (proj2 Ktokens j q Hj Hp); lia.
    + intros Hc. destruct (Kclosed Hc) as [E _]. unfold live in Hr. by rewrite E in Hr.
  - split; [done|done|done|lia|..]; intros j q [[-> ->]|[_ Hj]]%Hl Hs; [|left; by exists q| |by exists q].
    + right. change (er_dispatchID r') with (nd_nextDispatchID e). lia.
    + exists r. conj; [done|done|]. congruence.
Qed.

(** ** Dispatch *)

Lemma end_expired_quiet expired e : quiet e (end_expired e expired).1.
Proof.
  revert e. induction expired as [|r expired IH]; intros e; [apply quiet_refl|]. cbn [end_expired].
  destruct (end_expired _ expired) as [e1 rest] eqn:E1. follow E1. cbn [fst].
  eapply quiet_trans; [apply quiet_end_lifecycle|]. eapply quiet_trans; [apply quiet_fail|apply IH].
Qed.

Lemma prune_good x e now : good x e (pruneExpired e now).1.
Proof.
  unfold pruneExpired, take_requests. eapply good_trans; [apply remove_all_good|].
  apply quiet_good, end_expired_quiet.
Qed.

Lemma prune_next e now : nd_nextDispatchID (pruneExpired e now).1 = nd_nextDispatchID e.
Proof.
  unfold pruneExpired, take_requests. rewrite (qt_nextDispatchID _ _ (end_expired_quiet _ _)).
  apply (foldl_remove_fields (sorted_keys (filter _ (nd_requests e))) e).
Qed.

Lemma timers_quiet e fields : quiet e (recordRequestTimerFires e fields).
Proof. apply quiet_foldl. intros. apply quiet_event. Qed.

Lemma fail_expired_quiet e address : quiet e (fail_expired e address).
Proof. unfold fail_expired. destruct (group_connection e address); [eapply quiet_on_link|apply quiet_refl]. Qed.

Lemma dispatch_scheduled_quiet e now order : quiet e (dispatch_scheduled e now order).1.
Proof.
  unfold dispatch_scheduled. destruct (Dispatch _ _ _) as [s [request expired]]. cbn [fst].
  eapply quiet_trans; [|apply quiet_foldl; intros; apply fail_expired_quiet]. same_books.
Qed.

Definition turn_end (t : dispatch_turn) : TCPEndpoint :=
  match t with DispatchAgain e | DispatchReturns e _ => e end.

Lemma fail_scheduling_quiet e r : quiet e (failRequestSchedulingLocked e r).1.
Proof. apply quiet_fail. Qed.

Lemma turn_good x e order : good x e (turn_end (dispatch_turn_of e order)).
Proof.
  unfold dispatch_turn_of. destruct (nd_nextDispatchID e =? 0) eqn:En; [apply disable_good|].
  assert (Hn : nd_nextDispatchID e <> 0) by lia. clear En.
  destruct (tick e) as [e1 now] eqn:E1. follow E1. eapply good_trans; [apply quiet_good, quiet_tick|].
  rewrite <- (qt_nextDispatchID _ _ (quiet_tick e)) in Hn. revert Hn. generalize ((tick e).1). clear e. intros e Hn.
  destruct (dispatch_scheduled e now order) as [e2 scheduled] eqn:E2. follow E2.
  eapply good_trans; [apply quiet_good, (dispatch_scheduled_quiet e now order)|].
  rewrite <- (qt_nextDispatchID _ _ (dispatch_scheduled_quiet e now order)) in Hn. revert Hn.
  generalize ((dispatch_scheduled e now order).1). clear e. intros e Hn.
  destruct (pruneExpired e now) as [e3 fired] eqn:E3. follow E3.
  eapply good_trans; [apply (prune_good _ e now)|]. rewrite <- (prune_next e now) in Hn. revert Hn.
  generalize ((pruneExpired e now).1). clear e. intros e Hn.
  destruct scheduled as [scheduled|]; [|case_test; apply quiet_good, timers_quiet].
  destruct (nd_requests e !! sr_RequestID scheduled) as [r|] eqn:Er; [|apply quiet_good, timers_quiet].
  case_test; cbn [turn_end].
  { eapply good_trans; [apply remove_good|]. apply quiet_good. eapply quiet_trans; [apply timers_quiet|].
    eapply quiet_trans; [apply quiet_end_lifecycle|apply fail_scheduling_quiet]. }
  destruct (match nd_connections e !! er_connectionID r with Some _ => _ | None => _ end); cbn [turn_end].
  { eapply good_trans; [apply remove_good|]. apply quiet_good. eapply quiet_trans; [apply timers_quiet|].
    eapply quiet_trans; [|apply fail_scheduling_quiet]. by apply quiet_retry_state. }
  cbv zeta. set (r' := r <| er_phase := _ |> <| er_dispatchID := _ |>). set (e4 := e <| nd_nextDispatchID := _ |> <| nd_requests := _ |>).
  assert (G : good x e e4) by (bool_hyps; by apply token_good).
  case_test; cbn [turn_end]; (eapply good_trans; [exact G|]); [apply disable_quiet_good|apply quiet_good];
    (eapply quiet_trans; [apply timers_quiet|apply quiet_event]).
Qed.

Lemma dispatch_loop_good x order fuel e e' d : endpoint_dispatch_loop fuel e order = Some (e', d) -> good x e e'.
Proof.
  revert e. induction fuel as [|fuel IH]; intros e; [done|]. cbn [endpoint_dispatch_loop]. pose proof (turn_good x e order) as Ht.
  destruct (dispatch_turn_of e order) as [e1|e1 d1]; cbn [turn_end] in Ht.
  - intros ?%IH. by eapply good_trans.
  - by intros [= <- _].
Qed.

Lemma Dispatch_good x order fuel e e' d : EndpointDispatch fuel e order = Some (e', d) -> good x e e'.
Proof.
  unfold EndpointDispatch. case_test; [intros [= <- _]; apply disable_good|]. apply dispatch_loop_good.
Qed.

(** ** Writing *)

(** An exception for a request that was not being written is none. *)
Lemma good_unexcept e e' id :
  (forall r, live e id r -> er_phase r <> endpointRequestWriting) -> good (Some id) e e' -> good None e e'.
Proof.
  intros Hn Hg He. destruct (Hg He) as [He' [H1 H2 H3 H4 H5 H6]]. split; [done|]. split; [done..|].
  intros j r' Hr' Hs. destruct (H6 j r' Hr' Hs) as (r & Hr & E & K). exists r. conj; [done..|].
  intros Hw Hp _. destruct (decide (j = id)) as [->|Hj]; [by destruct (Hn r)|]. apply K; congruence.
Qed.

Lemma deref_live e r :
  is_current e r = true -> live e (th_requestID (er_handle r)) (deref e r) /\ er_serial (deref e r) = er_serial r.
Proof.
  unfold is_current, deref, live. destruct (nd_requests e !! th_requestID (er_handle r)) as [r'|]; [|done].
  intros Hs. rewrite Hs. split; [done|lia].
Qed.

(** The stored copy replaces the request it belongs to. *)
Lemma store_back_eq e id r r' :
  live e id r -> th_requestID (er_handle r') = id -> er_serial r' = er_serial r ->
  store_back e r' = e <| nd_requests := <[id := r']> (nd_requests e) |>.
Proof. intros Hr <- Hs. unfold store_back, is_current. rewrite Hr, Hs. by rewrite Z.eqb_refl. Qed.

Lemma register_good e id r r' :
  live e id r -> er_physicalRequestID r = 0 -> er_phase r = endpointRequestWriting ->
  er_handle r' = er_handle r -> er_serial r' = er_serial r -> er_connectionID r' = er_connectionID r ->
  er_phase r' = endpointRequestWriting -> er_physicalRequestID r' <> 0 ->
  good (Some id) e
    (e <| nd_requests := <[id := r']> (nd_requests e) |> <| nd_physical := <[physical_key r' := id]> (nd_physical e) |>).
Proof.
  intros Hr H0 Hw H1 H2 H3 H4 H5 He.
  set (e' := e <| nd_requests := _ |> <| nd_physical := _ |>).
  assert (Hl : forall j q, live e' j q -> (j = id /\ q = r') \/ (j <> id /\ live e j q)).
  { intros j q. unfold live. cbn. intros [[<- <-]|[? ?]]%lookup_insert_Some; auto. }
  split.
  - destruct He as [Kkey Kphase Kphysical Kattached Kconnection Kfresh Ktokens Kclosed Klimits Kledger]. split; auto.
    + intros j q [[-> ->]|[_ Hq]]%Hl; [|by apply Kkey]. rewrite H1, H2. by apply Kkey.
    + intros j q [[-> ->]|[_ Hq]]%Hl; [|by apply Kphase with j]. rewrite H4. by intros [?|?].
    + intros c p j. cbn. intros [[Hkey <-]|[_ Hj]]%lookup_insert_Some.
      * unfold physical_key in Hkey. injection Hkey as <- <-. split; [done|]. exists r'. unfold live. cbn.
        by rewrite lookup_insert_eq.
      * destruct (Kphysical _ _ _ Hj) as (Hp & q & Hq & E1 & E2). split; [done|]. exists q. unfold live in *. cbn.
        rewrite lookup_insert_ne; [done|]. intros <-. congruence.
    + intros j q [[-> ->]|[_ Hq]]%Hl; [rewrite H3; by apply Kattached with id|by apply Kattached with j].
    + split; [apply Ktokens|]. intros j q [[-> ->]|[_ Hq]]%Hl Hd; [congruence|by apply Ktokens with j].
    + intros Hc. destruct (Kclosed Hc) as [E _]. unfold live in Hr. by rewrite E in Hr.
  - split; [done|done|done|cbn; lia|..]; intros j q [[-> ->]|[_ Hq]]%Hl Hs; [congruence|left; by exists q| |by exists q].
    exists r. conj; [done|done|]. congruence.
Qed.

Lemma reserve_nonzero o unitID kind read deviceID decoding deadline o' reservation :
  reserve o unitID kind read deviceID decoding deadline = (o', Ok reservation) -> tv_physicalRequestID reservation <> 0.
Proof.
  unfold reserve. repeat case_test; try done. destruct (allocateTransactionID o) as [o1 [id|]]; [|done].
  case_test; [done|]. intros [= _ <-]. cbn. lia.
Qed.

Lemma reserve_request_nonzero r l l' reservation :
  reserve_request r l = (l', Ok reservation) -> tv_physicalRequestID reservation <> 0.
Proof.
  unfold reserve_request. destruct (er_group r) as [address|].
  - unfold reserveReadUntil. destruct (validateReadRegistersRequest _); [done|].
    destruct (reserve _ _ _ _ _ _ _) as [o result] eqn:E. intros [= _ ->]. by eapply reserve_nonzero.
  - unfold reserveDeviceIDUntil. destruct (validateDeviceIDRequest _); [done|]. case_test; [done|].
    destruct (reserve _ _ _ _ _ _ _) as [o result] eqn:E. intros [= _ ->]. by eapply reserve_nonzero.
Qed.

Lemma close_terminal_quiet e connectionID : quiet e (close_terminal e connectionID).1.
Proof. apply quiet_on_link. Qed.

Lemma cancel_reservation_quiet e connectionID reservation : quiet e (cancel_reservation e connectionID reservation).
Proof. apply (quiet_on_link e connectionID tt). Qed.

Lemma reservation_failed_good x e r err : good x e (reservation_failed e r err).1.
Proof.
  unfold reservation_failed. eapply good_trans; [apply quiet_good, (quiet_fail e r)|].
  case_test; [|apply finishRequestRetryable_good].
  destruct (close_terminal _ _) as [e1 [transition errs]] eqn:E1. follow E1. cbn [fst].
  eapply good_trans; [apply quiet_good, close_terminal_quiet|].
  eapply good_trans; [apply finishRequestRetryable_good|apply dropConnection_good].
Qed.

Lemma settle_good x e h lifecycle requires (abandoned : bool) fields connectionID :
  lifecycle <> tcpRequestActive -> lifecycle <> tcpRequestRetrying ->
  let e1 := set_retry_state e h lifecycle requires in
  let e2 := if abandoned then record_event e1 TCPEventQuarantineTransition fields else e1 in
  good x e (if requires then dropConnection e2 connectionID else e2).
Proof.
  intros Ha Hg e1 e2. assert (Q : quiet e e2).
  { eapply quiet_trans; [by apply quiet_retry_state|]. subst e2. case_test; [apply quiet_event|apply quiet_refl]. }
  destruct requires; [|by apply quiet_good]. eapply good_trans; [by apply quiet_good|apply dropConnection_good].
Qed.

Lemma write_failed_good x e r transition errs : good x e (write_failed e r transition errs).1.
Proof.
  unfold write_failed. cbv zeta. set (fields := requestEventFields e r).
  match goal with |- context [removeRequestLocked ?e0 _] => set (e1 := e0) end.
  assert (G1 : good x e e1) by (subst e1; case_test; [by apply books_good|apply good_refl]). clearbody e1.
  eapply good_trans; [exact G1|]. eapply good_trans; [apply (remove_good _ _ (th_requestID (er_handle r)))|].
  destruct (failRequest _ r) as [e2 groupErr] eqn:E2. follow E2.
  eapply good_trans; [apply quiet_good, (quiet_fail _ r)|].
  generalize ((failRequest (removeRequestLocked e1 (th_requestID (er_handle r))) r).1). intros e2.
  match goal with |- context [if ?b then (let '(_, _) := tick ?e in _) else ?v] =>
    destruct (if b then (let '(e, now) := tick e in
      (e, if now <? er_operationDeadline r then tcpRequestRetryable else tcpRequestTerminal)) else v) as [e3 lifecycle] eqn:E3 end.
  assert (H3 : quiet e2 e3 /\ lifecycle <> tcpRequestActive /\ lifecycle <> tcpRequestRetrying).
  { revert E3. case_test; [|intros [= <- <-]; split; [apply quiet_refl|done]].
    intros [= <- <-]. split; [apply (quiet_tick e2)|by case_test]. }
  destruct H3 as (Q3 & Ha & Hg). cbn [fst]. eapply good_trans; [by apply quiet_good|]. by apply settle_good.
Qed.

Lemma write_without_deadline_good x e r transition : good x e (write_without_deadline e r transition).1.
Proof.
  unfold write_without_deadline. eapply good_trans; [apply remove_good|].
  eapply good_trans; [apply quiet_good, quiet_fail|].
  destruct (close_terminal _ _) as [e1 [t errs]] eqn:E1. follow E1. cbn [fst].
  eapply good_trans; [apply quiet_good, close_terminal_quiet|apply dropConnection_good].
Qed.

Lemma write_returned_good e r reservation transition errs :
  good (Some (th_requestID (er_handle r))) e (write_returned e r reservation transition errs).1.
Proof.
  unfold write_returned. destruct (is_current e r) eqn:Hcur; cbn [negb fst].
  2: { case_test; [|apply good_refl]. eapply good_trans; [|apply dropConnection_good].
       apply quiet_good. by apply quiet_retry_state. }
  cbv zeta. case_test; [apply write_failed_good|].
  destruct (link_of e _ ≫= _) as [deadline|]; [|apply write_without_deadline_good]. cbn [fst].
  eapply good_trans; [|apply quiet_good; eapply quiet_on_link].
  destruct (deref_live e r Hcur) as [Hl Hs]. intros He. destruct (ep_key _ He _ _ Hl) as (Hid & _).
  erewrite store_back_eq; [|exact Hl|done|done].
  apply (update_good _ e _ (deref e r)); try done. by intros [?|?].
Qed.

(** [r] was claimed by a writer in [e0] and is still in the table of [e]. *)
Lemma write_registered_good e0 e r reservation env :
  tv_physicalRequestID reservation <> 0 ->
  live e0 (th_requestID (er_handle r)) r -> er_phase r = endpointRequestWriting -> er_physicalRequestID r = 0 ->
  endpoint_ok e0 -> good None e0 e -> is_current e r = true ->
  good (Some (th_requestID (er_handle r))) e (write_registered e r reservation env).1.
Proof.
  intros Hp Hr Hw H0 He0 Hg Hcur He. set (id := th_requestID (er_handle r)) in *.
  destruct (Hg He0) as [_ Hrely]. revert He. unfold write_registered.
  destruct (deref_live e r Hcur) as [Hl Hs]. cbv zeta.
  set (r1 := (deref e r) <| er_physicalRequestID := _ |> <| er_transactionID := _ |>).
  intros He. destruct (ep_key _ He _ _ Hl) as (Hid & _).
  assert (Hserial : er_serial r < nd_nextAddress e0) by (by eapply ep_key).
  destruct (ry_kept _ _ _ Hrely _ _ Hl) as (r0 & Hr0 & _ & K); [lia|].
  unfold live in Hr, Hr0. fold id in Hr0. rewrite Hr in Hr0. injection Hr0 as <-. destruct (K Hw H0) as [Kw K0]; [done|].
  rewrite (store_back_eq e id (deref e r) r1) by done.
  set (e1 := e <| nd_requests := _ |> <| nd_physical := _ |>).
  assert (G1 : good (Some id) e e1).
  { subst e1. replace (th_requestID (er_handle r1)) with id by done. by apply (register_good e id (deref e r)). }
  revert He. eapply good_trans; [exact G1|].
  set (env1 := match er_group r1 with Some _ => _ | None => _ end).
  destruct (on_link e1 _ _ _) as [e2 result] eqn:E2. follow E2. apply quiet_good. eapply quiet_on_link.
Qed.

Lemma write_registered_identity e r reservation env e' r' result :
  endpoint_ok e -> is_current e r = true -> write_registered e r reservation env = (e', (r', result)) ->
  th_requestID (er_handle r') = th_requestID (er_handle r).
Proof.
  intros He Hcur. destruct (deref_live e r Hcur) as [Hl _]. destruct (ep_key _ He _ _ Hl) as (Hid & _).
  unfold write_registered. cbv zeta. destruct (on_link _ _ _ _) as [e2 result2]. by intros [= _ <- _].
Qed.

Lemma write_reserved_good e0 e r reservation env writing :
  safe writing -> tv_physicalRequestID reservation <> 0 ->
  live e0 (th_requestID (er_handle r)) r -> er_phase r = endpointRequestWriting -> er_physicalRequestID r = 0 ->
  endpoint_ok e0 -> good None e0 e ->
  good (Some (th_requestID (er_handle r))) e (write_reserved e r reservation env writing).1.
Proof.
  intros Hsafe Hp Hr Hw H0 He0 Hg. unfold write_reserved. destruct (is_current e r) eqn:Hcur; cbn [negb fst].
  2: { apply quiet_good. eapply quiet_trans; [apply cancel_reservation_quiet|apply quiet_fail]. }
  pose proof (write_registered_good e0 e r reservation env Hp Hr Hw H0 He0 Hg Hcur) as G.
  intros He. destruct (write_registered e r reservation env) as [e1 [r1 [transition errs]]] eqn:E1.
  apply (write_registered_identity _ _ _ _ _ _ _ He Hcur) in E1. revert He. eapply good_trans; [exact G|]. cbn [fst].
  case_test; [apply disable_good|]. eapply good_trans; [by apply (safe_at _ writing)|].
  rewrite <- E1. apply write_returned_good.
Qed.

Lemma dispatchLocked_some e dispatch r c :
  dispatchLocked e dispatch = Some (r, c) ->
  live e (td_requestID dispatch) r /\ er_phase r = endpointRequestDispatched /\
  nd_connections e !! er_connectionID r = Some c /\ er_dispatchID r = td_dispatchID dispatch.
Proof.
  unfold dispatchLocked, live. case_test; [done|]. destruct (nd_requests e !! td_requestID dispatch) as [r'|]; [|done].
  case_test; [done|]. destruct (nd_connections e !! er_connectionID r') eqn:Ec; [|done]. case_test; [done|].
  intros [= <- <-]. bool_hyps. by conj.
Qed.

(** The endpoint when the writer has claimed its request. *)
Definition claimed (e : TCPEndpoint) (r : endpointRequest) : TCPEndpoint :=
  e <| nd_requests := <[th_requestID (er_handle r) := r <| er_phase := endpointRequestWriting |>]> (nd_requests e) |>.

Lemma claim_good e id r :
  live e id r -> th_requestID (er_handle r) = id -> er_phase r = endpointRequestDispatched -> good None e (claimed e r).
Proof.
  intros Hr Hid Hd He. pose proof (ep_phase _ He _ _ Hr (or_intror Hd)) as H0. revert He. unfold claimed. rewrite Hid.
  apply (update_good _ e _ r); try done; congruence.
Qed.

(** What [Write] does once its request is claimed. *)
Lemma Write_claimed e dispatch reserving bound env writing r c :
  safe reserving -> safe bound -> safe writing -> timelineAvailable e = true ->
  dispatchLocked e dispatch = Some (r, c) -> endpoint_ok e ->
  good (Some (td_requestID dispatch)) (claimed e r) (Write e dispatch reserving bound env writing).1.
Proof.
  intros Hs1 Hs2 Hs3 Hav Hd He. unfold Write. rewrite Hav, Hd. cbn [negb].
  apply dispatchLocked_some in Hd as (Hr & Hd & _ & _). cbv zeta. destruct (ep_key _ He _ _ Hr) as (Hid & _).
  destruct (claim_good e _ r Hr Hid Hd He) as [He1 _].
  pose proof (ep_phase _ He _ _ Hr (or_intror Hd)) as H0. set (r1 := r <| er_phase := _ |>).
  replace (store_back e r1) with (claimed e r)
    by (symmetry; unfold claimed; apply (store_back_eq e _ r); [by rewrite Hid|done|done]).
  set (e1 := claimed e r) in *. set (e2 := reserving e1).
  assert (Hr1 : live e1 (td_requestID dispatch) r1).
  { unfold live, e1, claimed. cbn. rewrite Hid. by rewrite lookup_insert_eq. }
  assert (Hid' : th_requestID (er_handle r1) = td_requestID dispatch) by done.
  assert (G2 : good None e1 e2) by (by apply safe_at). clearbody e1.
  assert (G12 : good (Some (td_requestID dispatch)) e1 e2) by (by apply good_weaken).
  destruct (ownerForEndpoint _ _) as [address|]; cbn [fst].
  2: { eapply good_trans; [exact G12|]. eapply good_trans; [apply quiet_good, (quiet_fail e2 r1)|apply finishRequestRetryable_good]. }
  destruct (on_link e2 _ _ _) as [e3 reserved] eqn:E3.
  assert (Q3 : quiet e2 e3) by (eapply quiet_fst; [|exact E3]; apply quiet_on_link).
  destruct reserved as [reservation|err].
  2: { eapply good_trans; [exact G12|]. eapply good_trans; [by apply quiet_good|apply reservation_failed_good]. }
  assert (Hnz : tv_physicalRequestID reservation <> 0).
  { revert E3. unfold on_link. destruct (link_of e2 _) as [l|]; [|done].
    destruct (reserve_request r1 l) as [l' result] eqn:El. intros [= _ ->]. by eapply reserve_request_nonzero. }
  destruct (on_link e3 _ _ _) as [e4 bindErr] eqn:E4.
  assert (Q4 : quiet e2 e4) by (eapply quiet_trans; [exact Q3|]; eapply quiet_fst; [|exact E4]; apply quiet_on_link).
  destruct bindErr as [err|]; cbn [fst].
  { eapply good_trans; [exact G12|]. eapply good_trans; [by apply quiet_good|].
    eapply good_trans; [apply quiet_good, cancel_reservation_quiet|].
    eapply good_trans; [apply quiet_good, (quiet_fail _ r1)|apply finishRequestRetryable_good]. }
  assert (G4 : good None e1 (bound e4)).
  { eapply good_trans; [exact G2|]. eapply good_trans; [by apply quiet_good|by apply safe_at]. }
  eapply (good_trans _ _ (bound e4)); [by apply good_weaken|]. rewrite <- Hid' in Hr1 |- *.
  by apply (write_reserved_good e1).
Qed.

(** [Write] consults its surroundings only in states a writer can reach once its request
    is claimed. *)
Lemma Write_surroundings e dispatch reserving bound env writing reserving' bound' writing' r c :
  safe reserving -> safe bound -> safe writing -> timelineAvailable e = true ->
  dispatchLocked e dispatch = Some (r, c) -> endpoint_ok e ->
  let reached e1 := good (Some (td_requestID dispatch)) (claimed e r) e1 in
  (forall e1, reached e1 -> reserving' e1 = reserving e1) -> (forall e1, reached e1 -> bound' e1 = bound e1) ->
  (forall e1, reached e1 -> writing' e1 = writing e1) ->
  Write e dispatch reserving' bound' env writing' = Write e dispatch reserving bound env writing.
Proof.
  intros Hs1 Hs2 Hs3 Hav Hd He reached A1 A2 A3. unfold Write. rewrite Hav, Hd. cbn [negb].
  apply dispatchLocked_some in Hd as (Hr & Hd & _ & _). cbv zeta. destruct (ep_key _ He _ _ Hr) as (Hid & _).
  destruct (claim_good e _ r Hr Hid Hd He) as [He1 _].
  pose proof (ep_phase _ He _ _ Hr (or_intror Hd)) as H0. set (r1 := r <| er_phase := _ |>).
  replace (store_back e r1) with (claimed e r)
    by (symmetry; unfold claimed; apply (store_back_eq e _ r); [by rewrite Hid|done|done]).
  rewrite A1 by apply good_refl. set (e1 := claimed e r) in *. set (e2 := reserving e1).
  assert (Hr1 : live e1 (td_requestID dispatch) r1).
  { unfold live, e1, claimed. cbn. rewrite Hid. by rewrite lookup_insert_eq. }
  assert (Hid' : th_requestID (er_handle r1) = td_requestID dispatch) by done.
  assert (G2 : good None e1 e2) by (by apply safe_at). clearbody e1.
  destruct (ownerForEndpoint _ _) as [address|]; [|done].
  destruct (on_link e2 _ _ _) as [e3 reserved] eqn:E3.
  assert (Q3 : quiet e2 e3) by (eapply quiet_fst; [|exact E3]; apply quiet_on_link).
  destruct reserved as [reservation|err]; [|done].
  assert (Hnz : tv_physicalRequestID reservation <> 0).
  { revert E3. unfold on_link. destruct (link_of e2 _) as [l|]; [|done].
    destruct (reserve_request r1 l) as [l' result] eqn:El. intros [= _ ->]. by eapply reserve_request_nonzero. }
  destruct (on_link e3 _ _ _) as [e4 bindErr] eqn:E4.
  assert (Q4 : quiet e2 e4) by (eapply quiet_trans; [exact Q3|]; eapply quiet_fst; [|exact E4]; apply quiet_on_link).
  destruct bindErr as [err|]; [done|].
  assert (G4 : good None e1 e4) by (eapply good_trans; [exact G2|by apply quiet_good]).
  rewrite A2 by (by apply good_weaken).
  assert (G5 : good None e1 (bound e4)) by (eapply good_trans; [exact G4|by apply safe_at]).
  unfold write_reserved. destruct (is_current _ r1) eqn:Hcur; cbn [negb]; [|done].
  rewrite <- Hid' in Hr1. pose proof (write_registered_good e1 _ r1 reservation env Hnz Hr1 eq_refl H0 He1 G5 Hcur) as G6.
  destruct (write_registered (bound e4) r1 reservation env) as [e6 [r6 [transition errs]]]. cbn [fst] in G6.
  case_test; [done|]. rewrite A3; [done|]. eapply good_trans; [by apply good_weaken|]. by rewrite <- Hid'.
Qed.

Lemma Write_good x e dispatch reserving bound env writing :
  safe reserving -> safe bound -> safe writing -> good x e (Write e dispatch reserving bound env writing).1.
Proof.
  intros Hs1 Hs2 Hs3. apply good_weaken. destruct (timelineAvailable e) eqn:Hav.
  2: { unfold Write. rewrite Hav. apply disable_good. }
  destruct (dispatchLocked e dispatch) as [[r c]|] eqn:Hd.
  2: { unfold Write. rewrite Hav, Hd. apply good_refl. }
  intros He. pose proof (Write_claimed e dispatch reserving bound env writing r c Hs1 Hs2 Hs3 Hav Hd He) as G.
  apply dispatchLocked_some in Hd as (Hr & Hd & _ & _). destruct (ep_key _ He _ _ Hr) as (Hid & _). revert He.
  apply (good_unexcept _ _ (td_requestID dispatch)); [unfold live in *; congruence|].
  eapply good_trans; [by eapply good_weaken, claim_good|exact G].
Qed.

(** ** Reading *)

(** What a reader relies on until the outcome of a response is decided: no other thread
    takes the transaction of the request the response is for.  Its owner hands out one
    response for a physical request. *)
Definition leaves_transaction (connectionID physicalRequestID : Z) (f : TCPEndpoint -> TCPEndpoint) : Prop :=
  forall e id r r', live e id r -> er_connectionID r = connectionID -> er_physicalRequestID r = physicalRequestID ->
    physicalRequestID <> 0 ->
    live (f e) id r' -> er_serial r' = er_serial r -> er_physicalRequestID r' = er_physicalRequestID r.

Lemma leaves_id connectionID physicalRequestID : leaves_transaction connectionID physicalRequestID id.
Proof. intros e j r r' Hr _ _ _ Hr' _. unfold id, live in *. congruence. Qed.

Lemma failPhysical_good x e connectionID physicalRequestID kind :
  good x e (failPhysical e connectionID physicalRequestID kind).1.
Proof.
  unfold failPhysical. cbv zeta. set (requestID := default 0 _).
  destruct (nd_requests e !! requestID) as [r|]; [|apply good_refl].
  eapply good_trans; [apply (remove_good _ _ requestID)|].
  eapply good_trans; [apply quiet_good, (quiet_end_lifecycle _ (er_handle r))|].
  set (e1 := end_lifecycle _ _). eapply good_trans; [|apply quiet_good, quiet_fail].
  eapply good_trans; [|apply quiet_good, quiet_event]. by apply books_good.
Qed.

Lemma fail_abandoned_good x connectionID reservations e :
  good x e (fail_abandoned e connectionID reservations).1.
Proof.
  revert e. induction reservations as [|reservation reservations IH]; intros e; [apply good_refl|]. cbn [fail_abandoned].
  destruct (failPhysical _ _ _ _) as [e1 errs] eqn:E1. follow E1.
  destruct (fail_abandoned _ _ _) as [e2 errs'] eqn:E2. follow E2. cbn [fst].
  eapply good_trans; [apply failPhysical_good|apply IH].
Qed.

Lemma fire_abandoned_good x connectionID reservations e :
  good x e (fire_abandoned e connectionID reservations).1.
Proof.
  revert e. induction reservations as [|reservation reservations IH]; intros e; [apply good_refl|]. cbn [fire_abandoned].
  cbv zeta. set (e0 := match requestForPhysical _ _ _ with Some _ => _ | None => _ end).
  assert (Q : quiet e e0) by (subst e0; destruct (requestForPhysical _ _ _); [apply quiet_event|apply quiet_refl]).
  destruct (failPhysical _ _ _ _) as [e1 errs] eqn:E1. follow E1.
  destruct (fire_abandoned _ _ _) as [e2 errs'] eqn:E2. follow E2. cbn [fst].
  eapply good_trans; [by apply quiet_good|]. eapply good_trans; [apply failPhysical_good|apply IH].
Qed.

(** A traversal goes back to the queue and gives its transaction up. *)
Lemma release_good x e id r r' :
  live e id r -> er_physicalRequestID r <> 0 -> er_handle r' = er_handle r -> er_serial r' = er_serial r ->
  er_connectionID r' = er_connectionID r -> er_physicalRequestID r' = 0 -> er_phase r' = endpointRequestQueued ->
  good x e
    (e <| nd_physical := delete (physical_key r) (nd_physical e) |> <| nd_requests := <[id := r']> (nd_requests e) |>).
Proof.
  intros Hr Hp H1 H2 H3 H4 Hq0 He.
  set (e' := e <| nd_physical := _ |> <| nd_requests := _ |>).
  assert (Hl : forall j q, live e' j q -> (j = id /\ q = r') \/ (j <> id /\ live e j q)).
  { intros j q. unfold live. cbn. intros [[<- <-]|[? ?]]%lookup_insert_Some; auto. }
  split.
  - destruct He as [Kkey Kphase Kphysical Kattached Kconnection Kfresh Ktokens Kclosed Klimits Kledger]. split; auto.
    + intros j q [[-> ->]|[_ Hq]]%Hl; [|by apply Kkey]. rewrite H1, H2. by apply Kkey.
    + intros j q [[-> ->]|[_ Hq]]%Hl; [done|by apply Kphase with j].
    + intros c p j. cbn. intros [Hkey Hj]%lookup_delete_Some.
      destruct (Kphysical _ _ _ Hj) as (Hp' & q & Hq & E1 & E2). split; [done|]. exists q. unfold live in *. cbn.
      rewrite lookup_insert_ne; [done|]. intros <-. rewrite Hr in Hq. injection Hq as <-.
      unfold physical_key in Hkey. congruence.
    + intros j q [[-> ->]|[_ Hq]]%Hl; [rewrite H3; by apply Kattached with id|by apply Kattached with j].
    + split; [apply Ktokens|]. intros j q [[-> ->]|[_ Hq]]%Hl Hd; [congruence|by apply Ktokens with j].
    + intros Hc. destruct (Kclosed Hc) as [E _]. unfold live in Hr. by rewrite E in Hr.
  - split; [done|done|done|cbn; lia|..]; intros j q [[-> ->]|[_ Hq]]%Hl Hs; [congruence|left; by exists q| |by exists q].
    exists r. conj; [done|done|]. intros. by destruct Hp.
Qed.

(** A request that is read through the table, with its transaction. *)
Definition reader_view (e : TCPEndpoint) (r : endpointRequest) : Prop :=
  is_current e r = true -> live e (th_requestID (er_handle r)) r /\ er_physicalRequestID r <> 0.

Lemma requeue_good x e r next : reader_view e r -> good x e (requeueDeviceIDContinuation e r next).1.
Proof.
  intros Hv. unfold requeueDeviceIDContinuation. cbv zeta.
  destruct (Complete _ _) as [s [err|]]; [apply quiet_good; same_books|].
  destruct (Enqueue _ _) as [s' [err|]]; [apply quiet_good; same_books|].
  destruct (is_current (e <| nd_scheduler := s' |>) r) eqn:Hcur; cbn [negb orb]; [|apply quiet_good; same_books].
  case_test; [apply quiet_good; same_books|]. cbn [fst].
  destruct (Hv Hcur) as [Hl Hp]. eapply (good_trans _ _ (e <| nd_scheduler := s' |>)); [apply quiet_good; same_books|].
  erewrite store_back_eq; [|exact Hl|done|done]. by apply (release_good x (e <| nd_scheduler := s' |>) _ r).
Qed.

(** Fields of a traversal that are kept with the request. *)
Lemma note_good x e r r' :
  reader_view e r -> is_current e r = true -> er_handle r' = er_handle r -> er_serial r' = er_serial r ->
  er_connectionID r' = er_connectionID r -> er_physicalRequestID r' = er_physicalRequestID r -> er_phase r' = er_phase r ->
  er_dispatchID r' = er_dispatchID r -> good x e (store_back e r') /\ reader_view (store_back e r') r'.
Proof.
  intros Hv Hcur H1 H2 H3 H4 H5 Hd. destruct (Hv Hcur) as [Hl Hp].
  assert (E : store_back e r' = e <| nd_requests := <[th_requestID (er_handle r) := r']> (nd_requests e) |>)
    by (apply (store_back_eq _ _ r); [done|by rewrite H1|done]).
  rewrite E. split.
  - intros He. apply (update_good x e _ r); try done; rewrite ?H5, ?Hd; try done. by apply (ep_phase _ He _ _ Hl).
  - intros _. rewrite H1, H4. split; [|done]. unfold live. cbn. by rewrite lookup_insert_eq.
Qed.

Lemma accept_requeue_good x e r next : reader_view e r -> good x e (accept_requeue e r next).1.
Proof.
  intros Hv. unfold accept_requeue. pose proof (requeue_good x e r next Hv) as G.
  by destruct (requeueDeviceIDContinuation e r next).
Qed.

Lemma accept_publish_quiet e r completion : quiet e (accept_publish e r completion).1.
Proof. unfold accept_publish. pose proof (quiet_fail e r). by destruct (failRequest e r). Qed.

Lemma accept_tolerant_good x e r response :
  reader_view e r -> is_current e r = true -> good x e (acceptTolerantDeviceIDResponse e r response).1.
Proof.
  intros Hv Hcur. unfold acceptTolerantDeviceIDResponse. destruct (do_page _) as [page|]; [|apply good_refl].
  destruct (match er_deviceIDTraversal r with Some _ => _ | None => _ end) as [traversal|err]; [|apply good_refl]. cbv zeta.
  destruct (add_page traversal page) as [next|err].
  2: { apply (note_good x e r (r <| er_deviceIDTraversal := Some traversal |>)); done. }
  set (r' := r <| er_deviceIDTraversal := _ |> <| er_deviceIDTraversal := _ |>).
  destruct (note_good x e r r') as [G V]; [done..|].
  case_test; [eapply good_trans; [exact G|by apply accept_requeue_good]|].
  destruct (finish_traversal next) as [result|err]; [|exact G].
  eapply good_trans; [exact G|]. apply quiet_good, accept_publish_quiet.
Qed.

Lemma accept_good x e r response : reader_view e r -> good x e (acceptDeviceIDResponse e r response).1.
Proof.
  intros Hv. unfold acceptDeviceIDResponse. destruct (is_current e r) eqn:Hcur; cbn [negb]; [|apply good_refl].
  case_test; [by apply accept_tolerant_good|]. destruct (do_segment _) as [segment|]; [|apply good_refl]. cbv zeta.
  set (r' := r <| er_deviceIDSegments := _ |>). destruct (note_good x e r r') as [G V]; [done..|].
  case_test; [exact G|]. case_test.
  - destruct (NextDeviceIDRequest segment); [|exact G]. eapply good_trans; [exact G|by apply accept_requeue_good].
  - destruct (strict_result r' segment); [|exact G]. eapply good_trans; [exact G|]. apply quiet_good, accept_publish_quiet.
Qed.

Lemma answer_good x e r response batch : reader_view e r -> good x e (answer_request e r response batch).1.1.
Proof.
  intros Hv. unfold answer_request. cbv zeta. destruct (wr_outcome response); [|..|apply finishRequest_good|apply finishRequest_good].
  - case_test; [apply good_refl|]. destruct (er_group r) as [address|].
    + destruct (on_link _ _ _ _) as [e1 [views errs]] eqn:E1. follow E1. cbn [fst].
      eapply good_trans; [apply quiet_good; eapply quiet_on_link|apply finishRequest_good].
    + pose proof (accept_good x e r response Hv) as G. destruct (acceptDeviceIDResponse e r response) as [e1 [completion| |errs]].
      * eapply good_trans; [exact G|apply finishRequest_good].
      * exact G.
      * destruct (failRequest e1 _) as [e2 failErr] eqn:E2. follow E2. cbn [fst].
        eapply good_trans; [exact G|]. eapply good_trans; [apply quiet_good, quiet_fail|apply finishRequest_good].
  - destruct (er_group r) as [address|].
    + destruct (on_link _ _ _ _) as [e1 errs] eqn:E1. follow E1. cbn [fst].
      eapply good_trans; [apply quiet_good; eapply quiet_on_link|apply finishRequest_good].
    + destruct (failRequest e r) as [e1 errs] eqn:E1. follow E1. cbn [fst].
      eapply good_trans; [apply quiet_good, quiet_fail|apply finishRequest_good].
  - destruct (er_group r) as [address|].
    + destruct (on_link _ _ _ _) as [e1 errs] eqn:E1. follow E1. cbn [fst].
      eapply good_trans; [apply quiet_good; eapply quiet_on_link|apply finishRequest_good].
    + destruct (failRequest e r) as [e1 errs] eqn:E1. follow E1. cbn [fst].
      eapply good_trans; [apply quiet_good, quiet_fail|apply finishRequest_good].
Qed.

Lemma identify_spec e handle response e1 request retired fields :
  identify_response e handle response = (e1, (request, retired, fields)) ->
  quiet e e1 /\
  (endpoint_ok e -> forall r, request = Some r ->
     live e1 (th_requestID (er_handle r)) r /\ er_connectionID r = ch_connectionID handle /\
     er_physicalRequestID r = wr_physicalRequestID response /\ er_physicalRequestID r <> 0).
Proof.
  unfold identify_response. cbv zeta. destruct (requestForPhysical e _ _) as [r0|] eqn:Er.
  - intros [= <- <- _ _]. split; [apply quiet_refl|]. intros He r [= <-]. unfold requestForPhysical in Er.
    destruct (nd_physical e !! (ch_connectionID handle, wr_physicalRequestID response)) as [id|] eqn:Ep; cbn in Er.
    + destruct (ep_physical _ He _ _ _ Ep) as (Hp & r & Hr & E1 & E2). unfold live in Hr. rewrite Er in Hr.
      injection Hr as <-. destruct (ep_key _ He id r0 Er) as (<- & _). conj; [done..|congruence].
    + destruct (ep_key _ He 0 r0 Er) as (_ & _ & _ & Hs). destruct (ep_fresh _ He) as [_ Hf]. apply Hf in Hs. lia.
  - unfold takeRetiredPhysicalFields. destruct (nd_retiredPhysical e !! _); intros [= <- <- _ _].
    all: split; [same_books|done].
Qed.

(** A reader keeps its request, and its transaction, over a gap and what follows it. *)
Lemma reader_keeps f e e1 id r connectionID :
  leaves_transaction connectionID (er_physicalRequestID r) f -> live e id r -> th_requestID (er_handle r) = id ->
  er_connectionID r = connectionID -> er_physicalRequestID r <> 0 ->
  endpoint_ok e1 -> nd_requests e1 = nd_requests (f e) -> reader_view e1 (deref e1 r).
Proof.
  intros Hf Hr Hid Hc Hp He1 Hsame. destruct (is_current e1 r) eqn:Hcur.
  - destruct (deref_live e1 r Hcur) as [Hl Hs]. rewrite Hid in Hl. destruct (ep_key _ He1 _ _ Hl) as (Hid' & _).
    intros _. rewrite Hid'. split; [done|]. rewrite (Hf e id r (deref e1 r)); try done.
    unfold live in *. by rewrite <- Hsame.
  - assert (Hd : deref e1 r = r).
    { revert Hcur. unfold is_current, deref. destruct (nd_requests e1 !! _) as [r1|]; [|done]. by intros ->. }
    rewrite Hd. intros ?. congruence.
Qed.

Lemma read_response_good x e handle response others batch :
  safe others -> leaves_transaction (ch_connectionID handle) (wr_physicalRequestID response) others ->
  good x e (read_response e handle response others batch).1.1.
Proof.
  intros Hs Hf. unfold read_response. destruct (identify_response e handle response) as [e1 [[request retired] fields]] eqn:Ei.
  apply identify_spec in Ei as [Q1 Hspec]. set (e2 := record_event (others e1) _ fields).
  assert (G2 : good x e e2).
  { eapply good_trans; [by apply quiet_good|]. eapply good_trans; [by apply (safe_at _ others)|apply quiet_good, quiet_event]. }
  case_test; [eapply good_trans; [exact G2|apply disable_good]|].
  set (e3 := if resets_backoff response then e2 <| nd_backoff := _ |> else e2).
  assert (Q3 : quiet e2 e3) by (subst e3; case_test; [same_books|apply quiet_refl]).
  assert (G3 : good x e e3) by (eapply good_trans; [exact G2|by apply quiet_good]).
  destruct request as [r|]; [|exact G3]. intros He. apply (good_at x e e3); [done|done|]. intros He3 _.
  destruct (Hspec He r eq_refl) as (Hl & Hc & Hp & Hnz).
  assert (Hv : reader_view e3 (deref e3 r)).
  { apply (reader_keeps others e1 e3 (th_requestID (er_handle r)) r (ch_connectionID handle)); try done; [by rewrite Hp|].
    by rewrite (qt_requests _ _ Q3). }
  pose proof (answer_good x e3 (deref e3 r) response batch Hv) as G.
  by destruct (answer_request e3 (deref e3 r) response batch) as [[e4 batch4] errs].
Qed.

Lemma head_default_Forall {A} (P : A -> Prop) d (xs : list A) : P d -> Forall P xs -> P (default d (head xs)).
Proof. intros Hd Hx. destruct xs; [done|]. by apply Forall_cons in Hx as [? _]. Qed.

Lemma tail_Forall {A} (P : A -> Prop) (xs : list A) : Forall P xs -> Forall P (tail xs).
Proof. intros Hx. destruct xs; [done|]. by apply Forall_cons in Hx as [_ ?]. Qed.

Definition reader_gap (connectionID : Z) (f : WireResponse -> TCPEndpoint -> TCPEndpoint) : Prop :=
  forall response, safe (f response) /\ leaves_transaction connectionID (wr_physicalRequestID response) (f response).

Lemma reader_gap_id connectionID : reader_gap connectionID (fun _ => id).
Proof. intros response. split; [apply safe_id|apply leaves_id]. Qed.

Lemma read_responses_good x handle responses e others batch errs :
  Forall (reader_gap (ch_connectionID handle)) others ->
  good x e (read_responses e handle responses others batch errs).1.1.
Proof.
  revert e others batch errs. induction responses as [|response responses IH]; intros e others batch errs Ho; [apply good_refl|].
  cbn [read_responses].
  destruct (head_default_Forall (reader_gap (ch_connectionID handle)) (fun _ => id) others) with response as [Hs Hl];
    [apply reader_gap_id|done|].
  pose proof (read_response_good x e handle response _ batch Hs Hl) as G.
  destruct (read_response e handle response _ batch) as [[e1 batch1] [errs1|[]]]; [|exact G].
  eapply good_trans; [exact G|]. by apply IH, tail_Forall.
Qed.

Lemma read_rounds_good x connectionID rounds e deadline responses transition errs e' result :
  Forall (fun round => safe (ro_others round)) rounds ->
  read_rounds e connectionID deadline rounds responses transition errs = Some (e', result) -> good x e e'.
Proof.
  revert e deadline responses transition errs. induction rounds as [|round rounds IH]; intros e deadline responses transition errs Hr; [done|].
  apply Forall_cons in Hr as [Hround Hr]. cbn [read_rounds].
  destruct (on_link e _ _ _) as [e1 read] eqn:E1. follow E1. cbv zeta.
  set (e1 := (on_link e _ _ _).1). assert (Q1 : quiet e e1) by apply quiet_on_link. clearbody e1.
  assert (G2 : good x e (ro_others round e1)) by (eapply good_trans; [by apply quiet_good|by apply safe_at]).
  case_test; [by intros [= <- _]|]. destruct (fail_abandoned _ _ _) as [e3 errs3] eqn:E3. follow E3.
  assert (G3 : good x e (fail_abandoned (ro_others round e1) connectionID (rd_abandoned read)).1)
    by (eapply good_trans; [exact G2|apply fail_abandoned_good]).
  set (e3 := (fail_abandoned _ _ _).1) in *. clearbody e3. case_test; [by intros [= <- _]|].
  destruct (earliestWaitingDeadlineLocked e3 connectionID); [intros ?%IH; [by eapply good_trans|done]|].
  cbn [tick]. set (e4 := e3 <| nd_ticks := _ |>). assert (G4 : good x e e4).
  { eapply good_trans; [exact G3|]. apply quiet_good, (quiet_tick e3). }
  destruct (tombstone_deadline e4 _ _); [intros ?%IH; [by eapply good_trans|done]|]. by intros [= <- _].
Qed.

Lemma read_received_good x e handle responses transition abandoned preErr readErr others :
  Forall (reader_gap (ch_connectionID handle)) others ->
  good x e (read_received e handle responses transition abandoned preErr readErr others).1.
Proof.
  intros Ho. unfold read_received. case_test; [apply disable_good|].
  destruct (fail_abandoned _ _ _) as [e1 errs1] eqn:E1. follow E1.
  eapply good_trans; [apply (fail_abandoned_good x (ch_connectionID handle) abandoned)|]. set (e1 := (fail_abandoned _ _ _).1). clearbody e1.
  pose proof (read_responses_good x handle responses e1 others (empty_batch <| tb_Responses := responses |>) errs1 Ho) as G.
  destruct (read_responses _ _ _ _ _ _) as [[e2 batch] [errs|errs]]; [|exact G]. cbn [fst].
  case_test; [|exact G]. eapply good_trans; [exact G|apply dropConnection_good].
Qed.

Lemma Read_good x e handle rounds others e' result :
  Forall (fun round => safe (ro_others round)) rounds -> Forall (reader_gap (ch_connectionID handle)) others ->
  Read e handle rounds others = Some (e', result) -> good x e e'.
Proof.
  intros Hr Ho. unfold Read. case_test; [intros [= <- _]; apply disable_good|]. cbv zeta.
  destruct (connectionLocked e handle) as [c|]; [|intros [= <- _]; apply good_refl].
  destruct (tick e) as [e1 now] eqn:E1. pose proof (quiet_tick e) as Q1. rewrite E1 in Q1. cbn in Q1. clear E1.
  destruct (on_link e1 _ _ _) as [e2 [[abandoned preTransition] preErr]] eqn:E2.
  assert (Q2 : quiet e e2) by (eapply quiet_trans; [exact Q1|]; eapply quiet_fst; [|exact E2]; apply quiet_on_link).
  destruct (fire_abandoned e2 _ _) as [e3 errs3] eqn:E3. follow E3. set (e3 := (fire_abandoned _ _ _).1).
  assert (G3 : good x e e3) by (eapply good_trans; [by apply quiet_good|apply fire_abandoned_good]). clearbody e3.
  case_test.
  { destruct (close_terminal _ _) as [e4 [t closeErr]] eqn:E4. follow E4. intros [= <- _].
    eapply good_trans; [exact G3|]. eapply good_trans; [apply quiet_good, close_terminal_quiet|apply dropConnection_good]. }
  assert (Hgo : forall deadline,
    (received ← read_rounds e3 (ch_connectionID handle) deadline rounds [] no_transition [];
     let '(e, (responses, transition, abandoned, readErr)) := received in
     Some (read_received e handle responses transition abandoned (protocol_error preErr ++ errs3) readErr others)) = Some (e', result) ->
    good x e e').
  { intros deadline. destruct (read_rounds _ _ _ _ _ _ _) as [[e4 [[[responses transition] abandoned'] readErr]]|] eqn:E4; [|done]. cbn.
    intros [= Heq]. eapply good_trans; [exact G3|]. eapply good_trans; [by eapply read_rounds_good|].
    apply pair_fst in Heq. subst e'. by apply read_received_good. }
  destruct (earliestWaitingDeadlineLocked e3 _) as [deadline|]; [apply Hgo|].
  match goal with |- context [if ?b then _ else _] => destruct b end.
  - destruct (tombstone_deadline _ _ _) as [deadline|]; [apply Hgo|]. by intros [= <- _].
  - case_test; by intros [= <- _].
Qed.

(** ** Cancelling *)

Lemma quiet_set_ledger e l : sound_move (nd_ledger e) l -> quiet e (e <| nd_ledger := l |>).
Proof. intros H. by split. Qed.

Lemma exhausted_good {A} x e (a : A) : good x e (unless_exhausted e a).1.
Proof. unfold unless_exhausted. case_test; [apply disable_good|apply good_refl]. Qed.

Lemma refresh_quiet e connectionID : quiet e (refreshConnectionReadDeadline e connectionID).
Proof.
  unfold refreshConnectionReadDeadline. destruct (nd_connections e !! connectionID); [|apply quiet_refl].
  eapply quiet_on_link.
Qed.

Lemma cancelled_view_good x e h r address view fields transition :
  good x e (cancelled_view e h r address view fields transition).
Proof.
  unfold cancelled_view. cbv zeta. set (e1 := with_ledger e _).
  assert (Q1 : quiet e e1) by apply quiet_ledger, sound_forget_read.
  set (e2 := if ct_abandonTransport transition then _ else _).
  assert (G2 : good x e e2).
  { eapply good_trans; [by apply quiet_good|]. subst e2. case_test; [|apply good_refl].
    eapply good_trans; [|apply quiet_good, quiet_event]. by apply books_good. }
  clearbody e2. set (e3 := if active_dependents e2 address =? 0 then _ else _).
  assert (G3 : good x e e3).
  { eapply good_trans; [exact G2|]. subst e3. case_test; [|apply good_refl]. case_test; [|apply finishRequest_good].
    eapply good_trans; [apply finishRequest_good|apply dropConnection_good]. }
  clearbody e3. case_test; [|exact G3]. eapply good_trans; [exact G3|apply quiet_good, refresh_quiet].
Qed.

Lemma CancelLogical_good x e h view others : safe others -> good x e (CancelLogical e h view others).1.
Proof.
  intros Hs. unfold CancelLogical. cbv zeta. case_test; [apply good_refl|]. case_test; [apply disable_good|].
  destruct (nd_requests e !! th_requestID h) as [r|].
  - case_test; [apply good_refl|]. destruct (er_group r) as [address|]; [|apply good_refl].
    destruct (on_link _ _ _ _) as [e2 [transition errs]] eqn:E2.
    assert (G2 : good x e e2).
    { eapply good_trans; [by apply (safe_at _ others)|]. apply quiet_good. eapply quiet_fst; [|exact E2]. apply quiet_on_link. }
    case_test; [exact G2|]. set (fields := (requestEventFields e r) <| ef_LogicalViewID := view |>).
    set (e3 := record_event e2 _ fields). pose proof (exhausted_good x e3 tt) as G4.
    assert (G3 : good x e e3) by (eapply good_trans; [exact G2|apply quiet_good, quiet_event]).
    destruct (unless_exhausted e3 tt) as [e4 [[]|err]]; cbn [fst] in *; [|by eapply good_trans].
    eapply good_trans; [exact G3|]. eapply good_trans; [exact G4|apply cancelled_view_good].
  - destruct (retained (nd_ledger e) h) eqn:Hret; [|apply good_refl]. pose proof (sound_cancel_view (nd_ledger e) h view Hret) as Hm.
    destruct (cancel_retained_view (nd_ledger e) h view) as [l [err|]]; [apply good_refl|]. cbn [fst] in Hm.
    set (e1 := record_event _ _ _). assert (Q1 : quiet e e1) by (eapply quiet_trans; [by apply quiet_set_ledger|apply quiet_event]).
    pose proof (exhausted_good x e1 tt) as G. destruct (unless_exhausted e1 tt) as [e2 [[]|err]]; cbn [fst] in *.
    all: eapply good_trans; [by apply quiet_good|exact G].
Qed.

Lemma cancel_views_good x h views e others : Forall safe others -> good x e (cancel_views e h views others).1.
Proof.
  revert e others. induction views as [|view views IH]; intros e others Ho; [apply good_refl|]. cbn [cancel_views].
  destruct (CancelLogical e h view _) as [e1 [transition errs]] eqn:E1. apply pair_fst in E1. subst e1.
  destruct (cancel_views _ h views _) as [e2 errs'] eqn:E2. apply pair_fst in E2. subst e2. cbn [fst].
  eapply good_trans; [|by apply IH, tail_Forall]. apply CancelLogical_good.
  apply (head_default_Forall safe (@id TCPEndpoint)); [apply safe_id|done].
Qed.

Lemma record_views_quiet e fields views : quiet e (record_views e fields views).
Proof. apply quiet_foldl. intros. apply quiet_event. Qed.

Lemma abandon_waiting_quiet e connectionID reservation : quiet e (abandon_waiting e connectionID reservation).1.
Proof. apply quiet_on_link. Qed.

Lemma cancel_device_id_good x e h r : good x e (cancel_device_id e h r).1.
Proof.
  unfold cancel_device_id. cbv zeta. set (fields := requestEventFields e r).
  match goal with |- context [removeRequestLocked ?e0 _] => set (e1 := e0) end.
  assert (G1 : good x e e1) by (subst e1; case_test; [by apply books_good|apply good_refl]). clearbody e1.
  set (e2 := removeRequestLocked e1 (th_requestID h)).
  assert (G2 : good x e e2) by (eapply good_trans; [exact G1|apply remove_good]). clearbody e2.
  set (reservation := if bool_decide (er_phase r = endpointRequestWaiting) then waiting_reservation e r else None).
  destruct (match reservation with
            | Some reservation => abandon_waiting e2 (er_connectionID r) reservation
            | None => (e2, (false, []))
            end) as [e3 [close abandonErr]] eqn:E3.
  assert (Q3 : quiet e2 e3).
  { revert E3. destruct reservation as [held|]; [|intros [= <- _ _]; apply quiet_refl].
    intros E3. eapply quiet_fst; [|exact E3]. apply abandon_waiting_quiet. }
  destruct (failRequest e3 r) as [e4 failErr] eqn:E4. apply pair_fst in E4. subst e4.
  set (e5 := record_event (end_lifecycle (failRequest e3 r).1 h) _ fields).
  assert (Q5 : quiet e2 e5).
  { eapply quiet_trans; [exact Q3|]. eapply quiet_trans; [apply quiet_fail|].
    eapply quiet_trans; [apply quiet_end_lifecycle|apply quiet_event]. }
  set (e6 := if bool_decide (er_phase r = endpointRequestWaiting) then _ else e5).
  assert (Q6 : quiet e2 e6) by (eapply quiet_trans; [exact Q5|]; subst e6; case_test; [apply quiet_event|apply quiet_refl]).
  clearbody e6. assert (G6 : good x e e6) by (eapply good_trans; [exact G2|by apply quiet_good]).
  case_test.
  - destruct (close_terminal _ _) as [e7 [t closeErr]] eqn:E7. apply pair_fst in E7. subst e7. cbn [fst].
    eapply good_trans; [exact G6|]. eapply good_trans; [apply quiet_good, close_terminal_quiet|apply dropConnection_good].
  - cbn [fst]. eapply good_trans; [exact G6|apply quiet_good, refresh_quiet].
Qed.

Lemma cancel_traversal_good x e h locked written :
  safe locked -> safe written -> good x e (cancel_traversal e h locked written).1.
Proof.
  intros H1 H2. unfold cancel_traversal. cbv zeta. eapply good_trans; [by apply (safe_at _ locked)|].
  generalize (locked e). intros e1.
  destruct (nd_requests e1 !! th_requestID h) as [r|]; [|apply good_refl]. case_test; [apply good_refl|].
  case_test; [|apply cancel_device_id_good]. eapply good_trans; [by apply (safe_at _ written)|].
  destruct (nd_requests (written e1) !! th_requestID h); [|apply good_refl].
  case_test; [apply good_refl|apply cancel_device_id_good].
Qed.

Lemma Cancel_good x e h locked written others :
  safe locked -> safe written -> Forall safe others -> good x e (Cancel e h locked written others).1.
Proof.
  intros H1 H2 Ho. unfold Cancel. case_test; [apply good_refl|]. case_test; [apply disable_good|].
  destruct (nd_requests e !! th_requestID h) as [r|].
  - case_test; [apply good_refl|]. destruct (er_group r) as [address|]; [|by apply cancel_traversal_good].
    destruct (nd_groups e !! address); [by apply cancel_views_good|apply good_refl].
  - destruct (retained (nd_ledger e) h) eqn:Hret; [|apply good_refl]. pose proof (sound_cancel (nd_ledger e) h Hret) as Hm.
    destruct (cancel_retained (nd_ledger e) h) as [l [views|err]]; [|apply good_refl]. cbn [fst] in Hm. cbv zeta.
    set (e1 := record_views _ _ _). assert (Q1 : quiet e e1) by (eapply quiet_trans; [by apply quiet_set_ledger|apply record_views_quiet]).
    pose proof (exhausted_good x e1 tt) as G. destruct (unless_exhausted e1 tt) as [e2 [[]|err]]; cbn [fst] in *.
    all: eapply good_trans; [by apply quiet_good|exact G].
Qed.

(** ** Retrying and waiting *)

Lemma restore_quiet e h : quiet e (restore_lifecycle e h).
Proof.
  unfold restore_lifecycle. cbn [tick]. eapply quiet_trans; [|apply quiet_ledger, sound_restore]. same_books.
Qed.

Lemma schedule_quiet e h s intents deadline : quiet e (retry_schedule e h s intents deadline).1.
Proof.
  unfold retry_schedule. cbv zeta. destruct (bs_deviceID s).
  - destruct (Enqueue _ _). same_books.
  - destruct (ScheduleCoalesced _ _ _ _) as [sched [g|err]]; same_books.
Qed.

Lemma withdraw_quiet e h c address fields : quiet e (retry_withdraw e h c address fields).1.
Proof.
  unfold retry_withdraw. cbv zeta. cbn [fst]. eapply quiet_trans; [|apply quiet_event].
  eapply quiet_trans; [|apply restore_quiet]. destruct address; [eapply quiet_on_link|same_books].
Qed.

Lemma retry_enter_good x e h s c connection address deadline fields :
  nd_closed e = false -> nd_requests e !! th_requestID h = None -> retryStillOwned (nd_ledger e) h = true ->
  connectionLocked e c = Some connection -> th_endpoint h = nd_self e ->
  good x e (retry_enter e h s c address deadline fields).1.
Proof.
  intros Hc Hn Ho Hl Hself. unfold retry_enter. cbv zeta. set (r := retry_request e h s c address deadline).
  set (e1 := with_ledger _ _).
  assert (Hs : is_Some (rl_states (nd_ledger e) !! th_requestID h)).
  { unfold retryStillOwned in Ho. bool_hyps. unfold state_of in H0. by destruct (rl_states (nd_ledger e) !! th_requestID h). }
  destruct (sound_commit (nd_ledger e) h Ho) as [S1 S2 S3 S4 S5].
  assert (G1 : good x e e1).
  { apply (insert_good x _ _ (th_requestID h) r); cbn; try done.
    - apply connectionLocked_some in Hl. by eexists.
    - intros j. rewrite S4. split; [by right|]. intros [->|?]; done.
    - intros He. destruct (ep_fresh _ He) as [Hf1 Hf2]. specialize (Hf2 _ Hs). lia.
    - intros He. apply S5, He. }
  clearbody e1. set (e2 := if bool_decide (bs_deviceID s = None) then _ else e1).
  assert (Q2 : quiet e1 e2) by (subst e2; case_test; [apply coalescing_quiet|apply quiet_refl]). clearbody e2.
  set (e3 := record_event (record_event e2 _ _) _ _).
  assert (G3 : good x e e3).
  { eapply good_trans; [exact G1|]. apply quiet_good. eapply quiet_trans; [exact Q2|]. eapply quiet_trans; apply quiet_event. }
  pose proof (exhausted_good x e3 tt) as G. destruct (unless_exhausted e3 tt) as [e4 [[]|err]]; cbn [fst] in *.
  all: by eapply good_trans.
Qed.

Lemma retry_claimed_good x e h s c deadline others :
  safe others -> th_endpoint h = nd_self e -> good x e (retry_claimed e h s c deadline others).1.
Proof.
  intros Hs Hself. unfold retry_claimed. case_test; [apply quiet_good, restore_quiet|].
  case_test; [apply quiet_good, restore_quiet|]. destruct (collect _) as [intents|]; [|apply quiet_good, restore_quiet].
  cbv zeta. set (fields := with_detail _ _). set (e1 := record_event e _ fields).
  assert (Q1 : quiet e e1) by apply quiet_event.
  case_test; [apply disable_quiet_good; eapply quiet_trans; [exact Q1|apply restore_quiet]|].
  destruct (retry_schedule e1 h s intents deadline) as [e2 scheduled] eqn:E2.
  assert (Q2 : quiet e e2) by (eapply quiet_trans; [exact Q1|]; eapply quiet_fst; [|exact E2]; apply schedule_quiet).
  destruct scheduled as [address|err].
  2: { apply quiet_good. eapply quiet_trans; [exact Q2|]. eapply quiet_trans; [apply quiet_event|apply restore_quiet]. }
  assert (G3 : good x e (others e2)) by (eapply good_trans; [by apply quiet_good|by apply safe_at]).
  set (e3 := others e2) in *. clearbody e3.
  assert (Gw : good x e (retry_withdraw e3 h c address fields).1)
    by (eapply good_trans; [exact G3|apply quiet_good, withdraw_quiet]).
  destruct (connectionLocked e3 c) as [connection|] eqn:Hl; [|exact Gw].
  destruct (nd_requests e3 !! th_requestID h) eqn:Hn; [exact Gw|].
  destruct (nd_closed e3) eqn:Hc; [exact Gw|]. destruct (retryStillOwned (nd_ledger e3) h) eqn:Ho; [|exact Gw].
  intros He. apply (good_at x e e3); [done|done|]. intros He3 Hr3. eapply retry_enter_good; try done.
  by rewrite (ry_self _ _ _ Hr3).
Qed.

Lemma RetryRequest_good x e h c others : safe others -> good x e (RetryRequest e h c others).1.
Proof.
  intros Hs. unfold RetryRequest. destruct (state_of (nd_ledger e) h) as [s|]; [|apply good_refl].
  destruct (own_handle e h) eqn:Ho; cbn [negb]; [|apply good_refl]. unfold own_handle in Ho. bool_hyps.
  case_test; [apply disable_good|]. cbn [tick]. set (e1 := e <| nd_ticks := _ |>).
  assert (Q1 : quiet e e1) by apply (quiet_tick e).
  pose proof (sound_retry_claim (nd_ledger e1) h (nd_clock e (nd_ticks e))) as Hm.
  destruct (retry_claim _ _ _) as [l [deadline|err]]; cbn [fst] in *.
  - eapply good_trans; [by apply quiet_good|]. eapply good_trans; [by apply quiet_good, quiet_set_ledger|].
    apply retry_claimed_good; [done|]. cbn. lia.
  - eapply good_trans; [by apply quiet_good|by apply quiet_good, quiet_set_ledger].
Qed.

Lemma end_wait_quiet e h : quiet e (end_wait e h).
Proof. apply quiet_ledger. eapply sound_trans; [apply sound_clear|apply sound_terminalize]. Qed.

Lemma WaitReconnect_good x e h next reset waited others :
  safe others -> good x e (WaitReconnect e h next reset waited others).1.
Proof.
  intros Hs. unfold WaitReconnect. case_test; [apply good_refl|]. case_test; [apply disable_good|].
  pose proof (sound_wait_claim (nd_ledger e) h) as Hm.
  destruct (wait_claim _ _) as [l [[debt recoveryOnly]|err]]; cbn [fst] in Hm; [|by apply quiet_good, quiet_set_ledger].
  cbn [tick]. set (e1 := e <| nd_ledger := l |> <| nd_ticks := _ |>).
  assert (Q1 : quiet e e1) by (eapply quiet_trans; [by apply quiet_set_ledger|]; same_books). clearbody e1.
  destruct (wait_remaining _ _ _ _ _) as [remaining|err]; [|apply quiet_good; eapply quiet_trans; [exact Q1|apply end_wait_quiet]].
  destruct (nextDelayBefore _ _ _ _) as [backoff delay]. cbv zeta. set (e2 := e1 <| nd_backoff := backoff |>).
  assert (Q2 : quiet e e2) by (eapply quiet_trans; [exact Q1|same_books]). clearbody e2.
  destruct delay as [delay|err]; cbn [fst].
  2: { case_test; [apply disable_quiet_good|apply quiet_good]; (eapply quiet_trans; [exact Q2|]);
         [apply quiet_ledger, sound_clear|apply end_wait_quiet]. }
  set (e3 := record_event e2 _ _). assert (Q3 : quiet e e3) by (eapply quiet_trans; [exact Q2|apply quiet_event]).
  case_test; [apply disable_quiet_good; eapply quiet_trans; [exact Q3|apply end_wait_quiet]|].
  assert (G4 : good x e (others e3)) by (eapply good_trans; [by apply quiet_good|by apply safe_at]).
  eapply good_trans; [exact G4|]. generalize (others e3). intros e4.
  case_test; [apply quiet_good, quiet_ledger, sound_clear|]. cbn [tick].
  set (e5 := e4 <| nd_ticks := _ |>). assert (Q5 : quiet e4 e5) by apply (quiet_tick e4).
  match goal with |- context [wait_conclude ?l ?h ?r ?b ?d ?a] => pose proof (sound_conclude l h r b d a) as Hw;
    destruct (wait_conclude l h r b d a) as [l5 errs] end.
  cbn [fst] in *. apply quiet_good. eapply quiet_trans; [exact Q5|by apply quiet_set_ledger].
Qed.
