(* ===== verification/TcpEndpointFacts.v ===== *)
(** The TCP endpoint: theorems over all its runs.  A run interleaves whole operations, in
    the gaps of each operation runs of other threads, and single critical sections. *)

From S2P Require Import Prelude Pdu DeviceId DeviceIdTolerant TcpAdu TcpOwner TcpOwnerFacts TcpPool Coalescing TcpTimeline TcpOperation TcpTransport TcpRetry TcpRetryFacts Scheduler TcpEndpoint TcpEndpointWire TcpEndpointRetry TcpEndpointBooks TcpEndpointMoves.

(** * Runs *)

(** What happens to an endpoint over time: whole operations one after the other, with in
    each gap where an operation lets go of its locks a run of the other threads; and, at
    any point, single critical sections of operations that overlap with them: a request
    leaves the table, a connection with its requests, a group fails, an event is recorded,
    or one critical section of the retry ledger.  [run_overlap] chooses the critical
    sections that other threads run in the next gaps inside the ledger's operations.

    In the gap between a response and its outcome no other thread takes the transaction
    of the request that the response is for, see [leaves_transaction]: its owner hands out
    one response for a transaction. *)
Inductive runs : TCPEndpoint -> TCPEndpoint -> Prop :=
| run_refl e : runs e e
| run_trans e1 e2 e3 : runs e1 e2 -> runs e2 e3 -> runs e1 e3
| run_open e conn : runs e (OpenConnection e conn).1
| run_close_connection e handle : runs e (CloseConnection e handle).1
| run_close e : runs e (TCPEndpointClose e).1
| run_enqueue_read e plan others :
    (forall e, runs e (others e)) -> runs e (EnqueueRead e plan others).1
| run_enqueue_device_id e plan others :
    (forall e, runs e (others e)) -> runs e (EnqueueDeviceID e plan others).1
| run_dispatch e fuel order e' dispatch :
    EndpointDispatch fuel e order = Some (e', dispatch) -> runs e e'
| run_write e dispatch reserving bound env writing :
    (forall e, runs e (reserving e)) -> (forall e, runs e (bound e)) -> (forall e, runs e (writing e)) ->
    runs e (Write e dispatch reserving bound env writing).1
| run_read e handle rounds others e' result :
    (forall round, round ∈ rounds -> forall e, runs e (ro_others round e)) ->
    (forall f, f ∈ others -> forall response e, runs e (f response e)) ->
    (forall f, f ∈ others -> forall response,
       leaves_transaction (ch_connectionID handle) (wr_physicalRequestID response) (f response)) ->
    Read e handle rounds others = Some (e', result) -> runs e e'
| run_cancel_logical e h view others :
    (forall e, runs e (others e)) -> runs e (CancelLogical e h view others).1
| run_cancel e h locked written others :
    (forall e, runs e (locked e)) -> (forall e, runs e (written e)) ->
    (forall f, f ∈ others -> forall e, runs e (f e)) ->
    runs e (Cancel e h locked written others).1
| run_retry e h c others :
    (forall e, runs e (others e)) -> runs e (RetryRequest e h c others).1
| run_wait e h next reset waited others :
    (forall e, runs e (others e)) -> runs e (WaitReconnect e h next reset waited others).1
| run_remove e id : runs e (removeRequestLocked e id)
| run_drop e connectionID : runs e (removeConnectionRequestsLocked (forget_connection e connectionID) connectionID).1
| run_fail e r : runs e (failRequest e r).1
| run_event e kind fields : runs e (record_event e kind fields)
| run_section e section : runs e (with_ledger e (fun l => section_step l section))
| run_overlap e others : runs e (with_ledger e (fun l => l <| rl_others := others |>)).

Lemma section_good x e section : good x e (with_ledger e (fun l => section_step l section)).
Proof. apply quiet_good, quiet_ledger, moves_sound. constructor. constructor. Qed.

Lemma overlap_good x e others : good x e (with_ledger e (fun l => l <| rl_others := others |>)).
Proof. apply quiet_good, quiet_ledger, moves_sound. constructor. constructor. Qed.

Lemma fail_good x e r : good x e (failRequest e r).1.
Proof. apply quiet_good, quiet_fail. Qed.

Lemma event_good x e kind fields : good x e (record_event e kind fields).
Proof. apply quiet_good, quiet_event. Qed.

Create HintDb good_moves.
#[export] Hint Resolve good_refl OpenConnection_good CloseConnection_good Close_good EnqueueRead_good
  EnqueueDeviceID_good Dispatch_good Write_good CancelLogical_good RetryRequest_good WaitReconnect_good
  remove_good drop_books_good section_good overlap_good fail_good event_good : good_moves.

(** Every run is a good move. *)
Lemma runs_good e e' : runs e e' -> good None e e'.
Proof.
  induction 1; try by eauto 3 with good_moves.
  - by eapply good_trans.
  - eapply Read_good; [| |eassumption]; apply Forall_forall; [done|]. intros f Hf response. split; [intros ?|]; auto.
  - apply Cancel_good; [done..|]. by apply Forall_forall.
Qed.

Lemma runs_safe f : (forall e, runs e (f e)) -> safe f.
Proof. intros H e. by apply runs_good. Qed.

(** * A new endpoint *)

Lemma scheduler_limits limits s :
  newEndpointScheduler limits = Ok s -> 0 <= sl_MaxInFlightRequests limits /\ 0 <= sl_MaxRetryAttempts limits.
Proof.
  unfold newEndpointScheduler, validateSchedulerLimits. destruct (_ || _) eqn:E; [done|]. intros _. bool_hyps. lia.
Qed.

Lemma new_endpoint_ok self config remote remotes sockets clock e :
  NewTCPEndpoint self config remote remotes sockets clock = Ok e -> endpoint_ok e.
Proof.
  unfold NewTCPEndpoint. destruct remote as [remote|]; [|done]. cbv zeta.
  match goal with |- context [if ?b then _ else _] => destruct b; [done|] end.
  destruct (newTCPEndpointPool _ _ _); [|done].
  destruct (newEndpointScheduler _) as [s|] eqn:Es; [|done]. destruct (newReconnectBackoff _); [|done].
  intros [= <-]. apply scheduler_limits in Es. split; unfold live, nd_closed; cbn.
  1,2,3,4,5: by intros *; rewrite lookup_empty.
  - split; [done|]. intros id. rewrite lookup_empty. by intros [].
  - split; [done|]. intros id r. by rewrite lookup_empty.
  - done.
  - done.
  - apply (new_ledger_ok (sl_MaxInFlightRequests (eg_SchedulerLimits config))
                (sl_MaxRetryAttempts (eg_SchedulerLimits config)) (eg_MaxRequestDeadline config)), Es.
Qed.

(** * A sample endpoint *)

Definition demo_tcp_config : TCPEndpointConfig :=
  {| eg_Endpoint := "plc";
     eg_PoolLimits :=
       {| pl_MaxConnections := 2; pl_Connection := {| cl_MaxInFlight := 4; cl_MaxTombstones := 2 |} |};
     eg_SchedulerLimits :=
       {| sl_MaxActiveAdmissionKeys := 2; sl_ProtectedSlotsPerKey := 1; sl_SharedBurstSlots := 2;
          sl_TotalQueued := 4; sl_MaxQueuedPerKey := 4; sl_MaxQueuedPerAuthorizationScope := 4;
          sl_MaxCoalescedDependentsPerKey := 2; sl_MaxRetryAttempts := 1; sl_MaxInFlightRequests := 2 |};
     eg_Backoff :=
       {| bc_Floor := 100; bc_Ceiling := 1000; bc_MaxAttempts := 5; bc_Jitter := true;
          bc_JitterAlgorithmID := "fixed"; bc_JitterVersion := "1"; bc_JitterEvidence := "seed" |};
     eg_MaxBufferedBytes := 260; eg_MaxRequestDeadline := 1000; eg_MaxResponseDeadline := 1000;
     eg_Clock := "clock"; eg_EventSink := None; eg_Framing := TCPFramingStrict |}.

(** Every reading of the clock is one later than the one before. *)
Definition demo_new : presult TCPEndpoint :=
  NewTCPEndpoint 1 demo_tcp_config (Ok "10.0.0.1:502") ∅ ∅ Z.of_nat.

(** The value of a computation that succeeds. *)
Definition value_of {A} (r : presult A) : match r with Ok _ => A | Err _ => unit end :=
  match r with Ok a => a | Err _ => tt end.

Definition demo_first : TCPEndpoint := value_of demo_new.

Definition demo_raw : raw_connection :=
  {| cn_trusted := false; cn_base := Ok (Some (Some "10.0.0.1:502")); cn_identity := Ok 70; cn_closeErr := [] |}.

Definition demo_connection : TCPConnectionHandle := {| ch_endpoint := 1; ch_connectionID := 1; ch_generation := 1 |}.

Definition demo_read_plan : TCPReadPlan :=
  {| rp_Connection := demo_connection; rp_UnitID := 17; rp_AuthorizationScope := "ops"; rp_PollGeneration := 1;
     rp_DeadlineIdentity := 1; rp_Timeout := 500; rp_Reads := [{| tq_LogicalViewID := 5; tq_Request := demo_read |}] |}.

Definition demo_order (s : EndpointScheduler) : list AdmissionKey := fst <$> map_to_list (es_keys s).

Definition demo_opened : TCPEndpoint := (OpenConnection demo_first demo_raw).1.
Definition demo_enqueued : TCPEndpoint := (EnqueueRead demo_opened demo_read_plan id).1.

Definition dispatch_once (e : TCPEndpoint) : TCPEndpoint :=
  match EndpointDispatch 4 e demo_order with Some (e, _) => e | None => e end.
Definition demo_dispatched : TCPEndpoint := dispatch_once demo_enqueued.
Definition demo_token : TCPDispatch := {| td_endpoint := 1; td_dispatchID := 1; td_requestID := 1 |}.

(** * The state *)

Lemma reached_ok self config remote remotes sockets clock e0 e :
  NewTCPEndpoint self config remote remotes sockets clock = Ok e0 -> runs e0 e -> endpoint_ok e.
Proof. intros Hn Hr. apply (runs_good e0 e Hr). by eapply new_endpoint_ok. Qed.


Lemma dispatched_run e : runs e (dispatch_once e).
Proof.
  unfold dispatch_once. destruct (EndpointDispatch 4 e demo_order) as [[e' d]|] eqn:E; [|apply run_refl].
  by eapply run_dispatch.
Qed.

Lemma demo_run : runs demo_first demo_dispatched.
Proof.
  apply (run_trans _ demo_opened); [apply run_open|]. apply (run_trans _ demo_enqueued); [|apply dispatched_run].
  apply run_enqueue_read. intros e. apply run_refl.
Qed.


(** C7: Closing is final: after [TCPEndpointClose], whatever threads still do, those in the middle of
    an operation included, the endpoint stays closed and has no live request, no
    connection and no handle retained for a retry. *)
Theorem tcp_close_final self config remote remotes sockets clock e0 e e' :
  NewTCPEndpoint self config remote remotes sockets clock = Ok e0 -> runs e0 e -> runs (TCPEndpointClose e).1 e' ->
  nd_closed e' = true /\ nd_requests e' = ∅ /\ nd_connections e' = ∅ /\ rl_retryable (nd_ledger e') = ∅.
Proof.
  intros Hn Hr Hc. pose proof (reached_ok _ _ _ _ _ _ _ _ Hn Hr) as He.
  destruct (Close_good None e He) as [He1 _]. destruct (runs_good _ _ Hc He1) as [He2 Hry].
  pose proof (ry_closed _ _ _ Hry (Close_closed e)) as Hcl. split; [done|by apply ep_closed].
Qed.

(** A retry and a new admission after the close. *)
Lemma tcp_close_final_witness :
  nd_requests (EnqueueRead (TCPEndpointClose demo_dispatched).1 demo_read_plan id).1 = ∅.
Proof.
  apply (tcp_close_final 1 demo_tcp_config (Ok "10.0.0.1:502") ∅ ∅ Z.of_nat demo_first demo_dispatched);
    [done|apply demo_run|]. apply (run_enqueue_read _ demo_read_plan id). intros. apply run_refl.
Defined.

(** No run whatever makes the endpoint accept the token. *)
Definition spent (dispatch : TCPDispatch) (e : TCPEndpoint) : Prop :=
  forall e', runs e e' -> dispatchLocked e' dispatch = None.

(** A token is spent wherever a writer that claimed its request can be. *)
Lemma claimed_spent e dispatch r c e1 :
  endpoint_ok e -> dispatchLocked e dispatch = Some (r, c) -> good (Some (td_requestID dispatch)) (claimed e r) e1 ->
  spent dispatch e1.
Proof.
  intros He Hd Hw e' Hrun. apply dispatchLocked_some in Hd as (Hl & Hph & _ & Hid).
  destruct (ep_key _ He _ _ Hl) as (Hkey & _). destruct (claim_good e _ r Hl Hkey Hph He) as [Hce _].
  destruct (Hw Hce) as [Hwe Hw1]. destruct (runs_good _ _ Hrun Hwe) as [_ Hw2].
  pose proof (rely_trans _ _ _ _ Hw1 (rely_weaken _ _ _ Hw2)) as Hall.
  destruct (dispatchLocked e' dispatch) as [[r' c']|] eqn:Hd'; [|done]. exfalso.
  apply dispatchLocked_some in Hd' as (Hl' & Hph' & _ & Hid').
  destruct (ry_tokens _ _ _ Hall _ _ Hl' Hph') as [(r1 & Hl1 & Hph1 & _)|[Hnz Hle]].
  - revert Hl1. unfold live, claimed. cbn. rewrite Hkey, lookup_insert_eq. intros [= <-]. done.
  - destruct (ep_tokens _ He) as [_ Ht]. specialize (Ht _ _ Hl Hph). revert Hnz Hle. unfold claimed. cbn. lia.
Qed.

(** C6: A dispatch token is good for one write.  Once [Write] has accepted a token, no run
    makes the endpoint accept it again, not after [Write] has returned, and not in the
    gaps in which [Write] lets other threads in: it consults its surroundings [reserving],
    [bound] and [writing] only in states where the token is spent, so that surroundings
    that agree on those states cannot be told apart. *)
Theorem dispatch_token_single_use self config remote remotes sockets clock e0 e dispatch r c reserving bound env
    writing :
  NewTCPEndpoint self config remote remotes sockets clock = Ok e0 -> runs e0 e ->
  (forall e, runs e (reserving e)) -> (forall e, runs e (bound e)) -> (forall e, runs e (writing e)) ->
  timelineAvailable e = true -> dispatchLocked e dispatch = Some (r, c) ->
  spent dispatch (Write e dispatch reserving bound env writing).1 /\
  forall reserving' bound' writing',
    (forall e1, spent dispatch e1 -> reserving' e1 = reserving e1) ->
    (forall e1, spent dispatch e1 -> bound' e1 = bound e1) ->
    (forall e1, spent dispatch e1 -> writing' e1 = writing e1) ->
    Write e dispatch reserving' bound' env writing' = Write e dispatch reserving bound env writing.
Proof.
  intros Hn Hr H1%runs_safe H2%runs_safe H3%runs_safe Hav Hd. pose proof (reached_ok _ _ _ _ _ _ _ _ Hn Hr) as He. split.
  - eapply claimed_spent; [done..|]. by apply (Write_claimed e dispatch reserving bound env writing r c).
  - intros reserving' bound' writing' A1 A2 A3.
    apply (Write_surroundings e dispatch reserving bound env writing reserving' bound' writing' r c); try done;
      intros e1 G; [apply A1|apply A2|apply A3]; by eapply claimed_spent.
Qed.

Definition demo_moment (now : Z) : point := mkPoint [] None now [].

(** A write whose socket takes [written] bytes. *)
Definition demo_writing (written : Z) : write_env :=
  {| we_armedAt := 11; we_created := demo_moment 12; we_waiting := []; we_gate := demo_moment 13; we_held := [];
     we_pre := demo_moment 14; we_checked := []; we_preparedAt := 15; we_prepared := []; we_begin := demo_moment 16;
     we_dispatch := None; we_during := []; we_written := written; we_writeErr := []; we_return := demo_moment 17;
     we_join := demo_moment 18; we_setDeadline := true; we_resetErr := []; we_now := 19; we_recordedAt := 19;
     we_recorded := []; we_closing := [] |}.

(** A read that finds [data] on the socket. *)
Definition demo_reading (data : list Z) : read_round :=
  {| ro_env :=
       {| re_context := None; re_startedAt := 20; re_expiredAt := 20; re_armedAt := 20; re_created := demo_moment 21;
          re_waiting := []; re_gate := demo_moment 22; re_gateExpiredAt := 22; re_held := [];
          re_pre := demo_moment 23; re_checked := []; re_begin := demo_moment 24; re_during := []; re_data := data;
          re_readErr := []; re_returnedAt := 25; re_return := demo_moment 25; re_join := demo_moment 26;
          re_setDeadline := true; re_resetErr := []; re_frames := []; re_after := [] |};
     ro_others := id |}.

Definition demo_sent_read : TCPEndpoint := (Write demo_dispatched demo_token id id (demo_writing 12) id).1.

(** A second write with the token while the first one reserves its transaction: it is
    refused, so the first one goes as if it had been alone. *)
Definition rival (e : TCPEndpoint) : TCPEndpoint :=
  if timelineAvailable e then (Write e demo_token id id (demo_writing 12) id).1 else e.

Lemma rival_refused e : spent demo_token e -> rival e = id e.
Proof. intros H. specialize (H e (run_refl e)). unfold rival, Write. destruct (timelineAvailable e); cbn [negb]; [by rewrite H|done]. Qed.

Lemma dispatch_token_single_use_witness :
  dispatchLocked demo_sent_read demo_token = None /\
  Write demo_dispatched demo_token rival rival (demo_writing 12) rival =
  Write demo_dispatched demo_token id id (demo_writing 12) id.
Proof.
  destruct (dispatchLocked demo_dispatched demo_token) as [[r c]|] eqn:E; [|vm_compute in E; discriminate E].
  destruct (dispatch_token_single_use 1 demo_tcp_config (Ok "10.0.0.1:502") ∅ ∅ Z.of_nat demo_first demo_dispatched
           demo_token r c id id (demo_writing 12) id) as [Hs Hg];
    [done|apply demo_run|intros; apply run_refl..|vm_compute; reflexivity|exact E|].
  split; [apply Hs, run_refl|apply Hg; apply rival_refused].
Defined.

(** * Responses *)

Lemma accepted_identity e r response e1 completion :
  acceptDeviceIDResponse e r response = (e1, AcceptPublished completion) ->
  is_current e r = true /\ tc_RequestID completion = th_requestID (er_handle r).
Proof.
  assert (Hpub : forall e r0 c, accept_publish e r0 c = (e1, AcceptPublished completion) -> completion = c).
  { intros e' r0 c. unfold accept_publish. destruct (failRequest e' r0) as [e2 errs]. by destruct (is_nil errs); intros [= _ <-]. }
  assert (Hreq : forall e r0 next, accept_requeue e r0 next <> (e1, AcceptPublished completion)).
  { intros e' r0 next. unfold accept_requeue. destruct (requeueDeviceIDContinuation e' r0 next) as [e2 errs]. by destruct (is_nil errs). }
  unfold acceptDeviceIDResponse. destruct (is_current e r); cbn [negb]; [|done]. intros H. split; [done|]. revert H.
  destruct (er_deviceIDDecoding r =? DeviceIDDecodingTolerant).
  - unfold acceptTolerantDeviceIDResponse. destruct (do_page _) as [page|]; [|done].
    destruct (match er_deviceIDTraversal r with Some _ => _ | None => _ end) as [traversal|err]; [|done]. cbv zeta.
    destruct (add_page traversal page) as [next|err]; [|done]. destruct (negb (tt_closed next)); [by intros ?%Hreq|].
    destruct (finish_traversal next); [|done]. by intros ->%Hpub.
  - destruct (do_segment _) as [segment|]; [|done]. cbv zeta. destruct (negb _); [done|].
    destruct (sg_moreFollows segment); [destruct (NextDeviceIDRequest segment); [by intros ?%Hreq|done]|].
    destruct (strict_result _ segment); [|done]. by intros ->%Hpub.
Qed.

(** A view is the slice of an attached dependent of the group. *)
Definition view_from (g : group) (response : WireResponse) (v : LogicalReadView) : Prop :=
  exists wire d, d ∈ cr_dependents g /\ cd_state d = dependentAttached /\ v = view_of g response wire (cd_slice d).

Lemma replay_views g response wire dependents rest views :
  dependents ⊆ cr_dependents g -> replay_loop g response wire dependents = (rest, Ok views) ->
  Forall (view_from g response) views.
Proof.
  revert rest views. induction dependents as [|d dependents IH]; intros rest views Hs; [by intros [= _ <-]|].
  cbn [replay_loop]. cbv zeta. assert (Hs' : dependents ⊆ cr_dependents g) by set_solver.
  destruct (replay_loop g response wire dependents) as [rest0 views0].
  destruct (bool_decide _); [by intros [= _ ->]; eapply IH|].
  destruct (bool_decide (cd_state d = dependentAttached)) eqn:Ea; cbn [negb]; [|done].
  destruct (_ >? _); [done|]. destruct views0 as [views0|]; intros [= _ <-]. constructor; [|by eapply IH].
  exists wire, d. apply bool_decide_eq_true in Ea. split; [set_solver|done].
Qed.

Lemma group_replay_views e connectionID address response e1 views errs :
  on_link e connectionID ([], []) (group_replay address response) = (e1, (views, errs)) ->
  views = [] \/ exists g, nd_groups e !! address = Some g /\ replay_identity_error g response = false /\
    Forall (view_from g response) views.
Proof.
  unfold on_link. destruct (link_of e connectionID) as [l|] eqn:El; [|intros [= _ <- _]; by left].
  assert (Hg : lk_groups l = nd_groups e).
  { revert El. unfold link_of. destruct (nd_attached e !! _) as [a|]; [|done].
    destruct (ps_owners _ !! _); [|done]. by intros [= <-]. }
  unfold group_replay. rewrite Hg. destruct (nd_groups e !! address) as [g|]; [|intros [= _ <- _]; by left].
  unfold ReplaySuccessfulResponse. destruct (wr_provenance response) as [wire|].
  2: { destruct (group_answered _ _ _ _). intros [= _ <- _]. by left. }
  destruct (replay_identity_error g response) eqn:Ei.
  { destruct (group_answered _ _ _ _). intros [= _ <- _]. by left. }
  destruct (negb _). { destruct (group_answered _ _ _ _). intros [= _ <- _]. by left. }
  destruct (replay_loop g response wire (cr_dependents g)) as [rest [vs|err]] eqn:Er.
  - destruct (group_answered _ _ _ _). intros [= _ <- _]. right. exists g. conj; [done..|]. by eapply replay_views.
  - destruct (group_answered _ _ _ _). intros [= _ <- _]. by left.
Qed.

(** What a response adds to the batch of a read: the completion of the traversal [id], or
    views of the group of [r] as it is in [e]. *)
Definition gains (e : TCPEndpoint) (id : Z) (r : endpointRequest) (response : WireResponse)
    (batch batch' : TCPReadBatch) : Prop :=
  (exists completion, er_group r = None /\ tc_RequestID completion = id /\
     batch' = batch <| tb_DeviceIDs := tb_DeviceIDs batch ++ [completion] |>) \/
  (exists address g views, er_group r = Some address /\ nd_groups e !! address = Some g /\
     replay_identity_error g response = false /\ Forall (view_from g response) views /\
     batch' = batch <| tb_Views := tb_Views batch ++ views |>).

Lemma finish_removes e id : nd_requests (finishRequest e id) !! id = None.
Proof.
  unfold finishRequest. destruct (nd_requests e !! id); cbn; rewrite remove_requests; apply lookup_delete_eq.
Qed.

Lemma answer_gains e r response batch e' batch' errs :
  answer_request e r response batch = (e', batch', errs) -> batch' <> batch ->
  wr_deliverable response = true /\ wr_outcome response = WireSuccessfulData /\
  nd_requests e' !! th_requestID (er_handle r) = None /\ gains e (th_requestID (er_handle r)) r response batch batch'.
Proof.
  unfold answer_request. cbv zeta. destruct (wr_outcome response).
  2,3: destruct (match er_group r with Some _ => _ | None => _ end); intros [= _ <- _]; done.
  2,3: intros [= _ <- _]; done.
  destruct (wr_deliverable response); cbn [negb]; [|by intros [= _ <- _]]. destruct (er_group r) as [address|] eqn:Eg.
  - destruct (on_link _ _ _ _) as [e1 [views errs1]] eqn:El. intros [= <- <- _] Hne.
    conj; [done..|apply finish_removes|]. right.
    destruct (group_replay_views _ _ _ _ _ _ _ El) as [->|(g & H1 & H2 & H3)].
    + destruct Hne. destruct batch. cbn. by rewrite app_nil_r.
    + exists address, g, views. by conj.
  - destruct (acceptDeviceIDResponse e r response) as [e1 [completion| |errs1]] eqn:Ea.
    + intros [= <- <- _] _. conj; [done..|apply finish_removes|]. left. exists completion.
      apply accepted_identity in Ea as [_ Ea]. by conj.
    + by intros [= _ <- _].
    + destruct (failRequest _ _). by intros [= _ <- _].
Qed.

Lemma deref_identity e r : endpoint_ok e -> th_requestID (er_handle (deref e r)) = th_requestID (er_handle r).
Proof.
  intros He. destruct (is_current e r) eqn:Hc.
  - destruct (deref_live e r Hc) as [Hl _]. by destruct (ep_key _ He _ _ Hl).
  - revert Hc. unfold is_current, deref. destruct (nd_requests e !! _); [|done]. by intros ->.
Qed.

(** C5: A response reaches its own request only.  Whatever other threads do while it is
    handled, a response changes the batch of a read only when it is deliverable and
    successful and a live request had been written on that connection as that physical
    request; the batch then gains the completion of that request's traversal, or views
    cut from the response for the attached dependents of its group, the group that was
    bound to this very physical request; and the request is no longer live. *)
Theorem response_reaches_its_request self config remote remotes sockets clock e0 e handle response others batch e'
    batch' result :
  NewTCPEndpoint self config remote remotes sockets clock = Ok e0 -> runs e0 e -> (forall e, runs e (others e)) ->
  read_response e handle response others batch = (e', batch', result) -> batch' <> batch ->
  let e2 := others (identify_response e handle response).1 in
  exists id r, live e id r /\ er_connectionID r = ch_connectionID handle /\
    er_physicalRequestID r = wr_physicalRequestID response /\ er_physicalRequestID r <> 0 /\
    wr_deliverable response = true /\ wr_outcome response = WireSuccessfulData /\
    gains e2 id (deref e2 r) response batch batch' /\ nd_requests e' !! id = None.
Proof.
  intros Hn Hr Ho Hresp Hne. pose proof (reached_ok _ _ _ _ _ _ _ _ Hn Hr) as He.
  unfold read_response in Hresp. destruct (identify_response e handle response) as [e1 [[request retired] fields]] eqn:Ei.
  apply identify_spec in Ei as [Q1 Hspec]. cbn [fst]. destruct (negb _); [by simplify_eq|].
  set (e3 := if resets_backoff response then _ else _) in Hresp. destruct request as [r|]; [|by simplify_eq].
  destruct (answer_request e3 (deref e3 r) response batch) as [[e4 batch4] errs] eqn:Ea. simplify_eq.
  assert (He2 : endpoint_ok (others e1)) by (apply (runs_good _ _ (Ho e1)); by eapply quiet_ok).
  assert (Hsame : nd_requests e3 = nd_requests (others e1) /\ nd_groups e3 = nd_groups (others e1))
    by (subst e3; by case_test).
  destruct Hsame as [Hreq Hgr].
  assert (Hd : deref e3 r = deref (others e1) r) by (unfold deref; by rewrite Hreq).
  rewrite Hd in Ea. destruct (answer_gains _ _ _ _ _ _ _ Ea Hne) as (H1 & H2 & H3 & H4).
  rewrite (deref_identity _ _ He2) in H3, H4. destruct (Hspec He r eq_refl) as (Hl & Hc & Hp & Hnz).
  exists (th_requestID (er_handle r)), r. conj; try done.
  - unfold live. by rewrite <- (qt_requests _ _ Q1).
  - unfold gains in *. by rewrite <- Hgr.
Qed.

Definition demo_answer_bytes : list Z := [0; 0; 0; 0; 0; 5; 17; 3; 2; 1; 2].

Definition demo_reply : WireResponse :=
  {| wr_owner := Some 1; wr_outcome := WireSuccessfulData; wr_deliverable := true; wr_wireResponseID := 1;
     wr_diagnosticFrameID := 0; wr_physicalRequestID := 1;
     wr_provenance :=
       Some
         {| wp_Endpoint := "plc"; wp_ConnectionID := 1; wp_Transport := "tcp"; wp_TransportGeneration := 1;
            wp_UnitID := 17; wp_RequestedFunction := 3; wp_ReceivedFunction := 3; wp_Table := HoldingRegisters;
            wp_Offset := 6; wp_Quantity := 1; wp_DeviceIDAccess := 0; wp_DeviceIDObjectID := 0 |};
     wr_diagnostic := None; wr_decoded := {| do_words := [258]; do_segment := None; do_page := None |};
     wr_bytes := demo_answer_bytes |}.

(** The whole of an exchange: a read is admitted, dispatched, written, answered and
    delivered to its view. *)
Example read_exchange :
  match Read demo_sent_read demo_connection [demo_reading demo_answer_bytes] [] with
  | Some (e, (batch, errs)) =>
      errs = [] /\ tb_Responses batch = [demo_reply] /\
      (fun v => (lv_logicalViewID v, lv_words v)) <$> tb_Views batch = [(5, [258])] /\
      nd_requests e = ∅ /\ resourceSnapshot (nd_scheduler e) = resourceSnapshot (nd_scheduler demo_first)
  | None => False
  end.
Proof. vm_compute. repeat split. Qed.

Lemma demo_write_run : runs demo_first demo_sent_read.
Proof. eapply run_trans; [apply demo_run|]. apply run_write; intros e; apply run_refl. Qed.

Lemma response_reaches_its_request_witness :
  let '(e', batch', _) := read_response demo_sent_read demo_connection demo_reply id empty_batch in
  (lv_words <$> tb_Views batch') = [[258]] /\
  exists id r, live demo_sent_read id r /\ er_physicalRequestID r = 1 /\ nd_requests e' !! id = None.
Proof.
  assert (Hv : lv_words <$> tb_Views (read_response demo_sent_read demo_connection demo_reply id empty_batch).1.2 = [[258]])
    by (vm_compute; reflexivity).
  destruct (read_response demo_sent_read demo_connection demo_reply id empty_batch) as [[e' batch'] result] eqn:E.
  cbn [fst snd] in Hv. split; [exact Hv|].
  destruct (response_reaches_its_request 1 demo_tcp_config (Ok "10.0.0.1:502") ∅ ∅ Z.of_nat demo_first demo_sent_read
              demo_connection demo_reply id empty_batch e' batch' result) as (id & r & Hl & _ & Hp & _ & _ & _ & _ & Hn);
    [done|apply demo_write_run|intros; apply run_refl|exact E|intros ->; discriminate Hv|].
  exists id, r. repeat split; [exact Hl|exact Hp|exact Hn].
Defined.

(** * A continuation that is read before the write returns *)

Definition demo_device_plan : TCPDeviceIDPlan :=
  {| ip_Connection := demo_connection; ip_UnitID := 17; ip_AuthorizationScope := "ops"; ip_PollGeneration := 1;
     ip_DeadlineIdentity := 1; ip_Timeout := 500; ip_Request := example_request;
     ip_Limits := {| dl_MaxSegments := 4; dl_MaxObjects := 8; dl_MaxValueBytes := 64 |};
     ip_Decoding := DeviceIDDecodingStrict |}.

Definition demo_traversal : TCPEndpoint := dispatch_once (EnqueueDeviceID demo_opened demo_device_plan id).1.

(** The first page of the device: two objects, and more follow. *)
Definition demo_first_page : list Z :=
  [0; 0; 0; 0; 0; 15; 17; 0x2b; 0x0e; 1; 0x81; 0xff; 2; 2; 0; 1; 86; 1; 2; 80; 49].

(** A reader that finds the page on the socket. *)
Definition page_read (e : TCPEndpoint) : TCPEndpoint :=
  match Read e demo_connection [demo_reading demo_first_page] [] with Some (e, _) => e | None => e end.












Definition page_lifecycle (e : TCPEndpoint) : option tcpRequestLifecycle :=
  bs_lifecycle <$> rl_states (nd_ledger e) !! 1.

(** The same page of the same request, read after [Write] has returned and read before. *)
Example page_kept :
  let after := (Write demo_traversal demo_token id id (demo_writing 11) id).1 in
  er_phase <$> nd_requests (page_read after) !! 1 = Some endpointRequestQueued /\
  is_Some (nd_connections (page_read after) !! 1).
Proof. split; vm_compute; [reflexivity|eauto]. Qed.

Example page_lost :
  let '(e', (transition, errs)) := Write demo_traversal demo_token id id (demo_writing 11) page_read in
  errs = [ErrProtocol (protocolError ErrorInvalidRequest 0 0 "response_deadline" (-1))] /\
  ot_closeConnection transition = true /\ nd_requests e' = ∅ /\ nd_connections e' = ∅ /\
  rl_retryable (nd_ledger e') = ∅ /\ page_lifecycle e' = Some tcpRequestActive.
Proof. vm_compute. repeat split. Qed.






(** * Admission *)

Lemma admitted_result e fields h e' h' :
  admitted_events e fields h = (e', Ok h') ->
  h' = h /\ nd_requests e' = nd_requests e /\ nd_ledger e' = nd_ledger e /\ nd_connections e' = nd_connections e /\
  nd_pool e' = nd_pool e.
Proof. unfold admitted_events. destruct (negb _); [done|]. by intros [= <- <-]. Qed.

Lemma record_coalescing_fields e fields views :
  nd_requests (record_coalescing e fields views) = nd_requests e /\ nd_ledger (record_coalescing e fields views) = nd_ledger e /\
  nd_connections (record_coalescing e fields views) = nd_connections e /\
  nd_pool (record_coalescing e fields views) = nd_pool e.
Proof. unfold record_coalescing. by destruct (views <? 2). Qed.

(** A connection that can carry requests: in the table under its identifier and
    generation, with an owner in the pool. *)
Definition serving (e : TCPEndpoint) (connection : TCPConnectionHandle) : Prop :=
  exists c, nd_connections e !! ch_connectionID connection = Some c /\
    ch_generation (ec_handle c) = ch_generation connection /\ is_Some (ownerForEndpoint (nd_pool e) (ec_lease c)).

Lemma connectionLocked_serving e connection c : connectionLocked e connection = Some c -> serving e connection.
Proof.
  unfold connectionLocked. case_test; [done|]. destruct (nd_connections e !! _) as [c'|] eqn:E; [|done].
  case_test; [done|]. intros [= ->]. bool_hyps. by exists c.
Qed.

(** What a handle given out says: the endpoint is open and the plan's connection serves;
    there is a queued live request of the plan under a fresh identifier, active in the
    ledger, with the deadline of the plan at [now]. *)
Record admitted (e e' : TCPEndpoint) (h : TCPRequestHandle) (connection : TCPConnectionHandle) (unitID : Z)
    (scope : string) (timeout now : Z) : Prop := mk_admitted {
  ad_fresh : state_of (nd_ledger e) h = None;
  ad_owner : th_endpoint h = nd_self e';
  ad_deadline : th_deadlineOffset h = now + timeout;
  ad_timeout : 0 < timeout <= eg_MaxRequestDeadline (nd_config e);
  ad_width : th_deadlineOffset h <= MaxInt64;
  ad_live : exists r, live e' (th_requestID h) r /\ er_handle r = h /\ er_phase r = endpointRequestQueued /\
    er_connectionID r = ch_connectionID connection /\ er_transportGeneration r = ch_generation connection /\
    er_unitID r = unitID /\ er_authorizationScope r = scope /\ er_operationDeadline r = th_deadlineOffset h;
  ad_active : bs_lifecycle <$> state_of (nd_ledger e') h = Some tcpRequestActive;
  ad_open : nd_closed e' = false;
  ad_serving : serving e' connection
}.

(** C9: A handle [EnqueueRead] returns is fresh and live: whatever other threads do between
    the scheduler's admission and the endpoint's, the endpoint is open and the plan's
    connection is in its table, of the plan's generation and with an owner; the handle's
    identifier was never used before, its request is in the table, queued on that
    connection and generation, its state is active, and its deadline is the clock's reading plus a timeout within the limit,
    representable in 64 bits. *)
Theorem enqueue_read_admits self config remote remotes sockets clock e0 e plan others e' h :
  NewTCPEndpoint self config remote remotes sockets clock = Ok e0 -> runs e0 e -> (forall e, runs e (others e)) ->
  EnqueueRead e plan others = (e', Ok h) ->
  admitted e e' h (rp_Connection plan) (rp_UnitID plan) (rp_AuthorizationScope plan) (rp_Timeout plan)
    (nd_clock e (nd_ticks e)).
Proof.
  intros Hn Hr Ho. pose proof (reached_ok _ _ _ _ _ _ _ _ Hn Hr) as He.
  pose proof (EnqueueRead_good None e plan others (runs_safe _ Ho) He) as [_ Hry]. intros Heq. rewrite Heq in Hry.
  apply ry_self in Hry. cbn [fst] in Hry. revert Heq. unfold EnqueueRead.
  destruct (negb _); [done|]. unfold tick at 1. cbv beta iota zeta. set (e1 := e <| nd_ticks := _ |>). set (now := nd_clock e (nd_ticks e)).
  destruct (invalid_plan _ _ _ _ _ _ _ _) eqn:Ei; [done|]. cbn [orb]. destruct (zlen (rp_Reads plan) =? 0); [done|].
  destruct (nd_nextRequestID e1 =? 0) eqn:Ez; [done|]. destruct (collect _) as [intents|]; [|done].
  destruct (negb _); [done|]. destruct (ScheduleCoalesced _ _ _ _) as [s [g|err]]; [|done].
  set (e3 := others _). destruct (nd_closed e3) eqn:Eo; [done|].
  destruct (connectionLocked e3 (rp_Connection plan)) as [c|] eqn:Ec; cbn [bool_decide]; [|done].
  destruct (negb _); [done|]. destruct (negb _) eqn:Em; [done|].
  set (handle := {| th_endpoint := _ |}). set (e5 := with_ledger _ _). intros Ha.
  apply admitted_result in Ha as (-> & Hq & Hl & Hn' & Hp).
  destruct (record_coalescing_fields e5 (plan_fields (rp_Connection plan) (nd_nextRequestID e1) (rp_UnitID plan)
    (rp_AuthorizationScope plan) (rp_PollGeneration plan) (rp_DeadlineIdentity plan) (now + rp_Timeout plan)) (zlen (rp_Reads plan)))
    as (Hq5 & Hl5 & Hn5 & Hp5).
  rewrite Hq5 in Hq. rewrite Hl5 in Hl. rewrite Hn5 in Hn'. rewrite Hp5 in Hp. clear Hq5 Hl5 Hn5 Hp5. unfold invalid_plan in Ei. bool_hyps. split; cbn.
  - destruct (rl_states (nd_ledger e) !! nd_nextRequestID e) eqn:E; [|done].
    destruct (ep_fresh _ He) as [_ Hf]. destruct (Hf (nd_nextRequestID e)) as [? [?|?]]; [by eexists|..]; cbn in Ez; lia.
  - by rewrite Hry.
  - done.
  - cbn in *. lia.
  - lia.
  - exists (new_read_request e3 handle plan (rp_Connection plan) (nd_nextAddress (record_event e1 TCPEventEnqueue (plan_fields (rp_Connection plan) (nd_nextRequestID e1) (rp_UnitID plan)
    (rp_AuthorizationScope plan) (rp_PollGeneration plan) (rp_DeadlineIdentity plan) (now + rp_Timeout plan))))).
    split; [|done]. unfold live. rewrite Hq. subst e5. cbn. by rewrite lookup_insert_eq.
  - unfold state_of. rewrite Hl. subst e5. cbn. by rewrite lookup_insert_eq.
  - unfold nd_closed. by rewrite Hl.
  - destruct (connectionLocked_serving _ _ _ Ec) as (c' & Hc'). exists c'. by rewrite Hn', Hp.
Qed.

Lemma enqueue_read_admits_witness :
  exists h, (EnqueueRead demo_opened demo_read_plan id).2 = Ok h /\ th_requestID h = 1 /\ th_deadlineOffset h = 501 /\
    bs_lifecycle <$> state_of (nd_ledger demo_enqueued) h = Some tcpRequestActive.
Proof.
  destruct (EnqueueRead demo_opened demo_read_plan id) as [e' [h|err]] eqn:E.
  2: { assert (H : (EnqueueRead demo_opened demo_read_plan id).2 = Err err) by (by rewrite E). vm_compute in H. discriminate H. }
  assert (H : (EnqueueRead demo_opened demo_read_plan id).2 = Ok h) by (by rewrite E).
  destruct (enqueue_read_admits 1 demo_tcp_config (Ok "10.0.0.1:502") ∅ ∅ Z.of_nat demo_first demo_opened demo_read_plan id e' h)
    as [_ _ _ _ _ _ Ha _ _]; [done|apply run_open|intros; apply run_refl|exact E|].
  exists h. unfold demo_enqueued. rewrite E. split; [done|]. vm_compute in H. injection H as <-. split; [done|]. split; [done|exact Ha].
Defined.

