(* ===== verification/TcpEndpointDispatch.v ===== *)
(** The dispatch loop of the TCP endpoint ends: every turn that goes on has taken a request
    out of the scheduler's queues or out of the table of live requests. *)

From S2P Require Import Prelude Pdu DeviceId DeviceIdTolerant TcpAdu TcpOwner TcpOwnerFacts TcpPool Coalescing TcpTimeline TcpOperation TcpTransport TcpRetry TcpRetryFacts Scheduler SchedulerBooks TcpEndpoint TcpEndpointWire TcpEndpointRetry TcpEndpointBooks TcpEndpointMoves TcpEndpointFacts.

(** * Queued work *)

(** The entries in all queues of a scheduler. *)
Definition queued_total (s : EndpointScheduler) : Z := ksum (fun _ st => zlen (as_queue st)) (es_keys s).

Lemma queued_nonneg s : 0 <= queued_total s.
Proof. apply ksum_nonneg. intros. unfold zlen. lia. Qed.

Lemma queued_set s key st st' :
  es_keys s !! key = Some st -> queued_total (set_key s key st') = queued_total s - zlen (as_queue st) + zlen (as_queue st').
Proof. intros E. unfold queued_total. cbn. by rewrite (ksum_insert _ _ _ _ _ E). Qed.

Lemma queued_set_le s key st st' :
  es_keys s !! key = Some st -> zlen (as_queue st') <= zlen (as_queue st) -> queued_total (set_key s key st') <= queued_total s.
Proof. intros E H. rewrite (queued_set _ _ _ _ E). lia. Qed.

Lemma queued_release s key : queued_total (releaseIfEmpty s key) <= queued_total s.
Proof.
  unfold releaseIfEmpty. destruct (es_keys s !! key) as [st|] eqn:E; [|lia]. case_test; [|lia].
  unfold queued_total. destruct (forgetOrder_fields (set_keys s (delete key (es_keys s))) key) as (_ & _ & -> & _).
  cbn. rewrite (ksum_delete _ _ _ _ E). unfold zlen. lia.
Qed.

Lemma queued_forget s entry : queued_total (forgetEntryLocked s entry) = queued_total s.
Proof. unfold forgetEntryLocked. by destruct (se_coalesced entry). Qed.

Lemma queued_retire s entry : queued_total (retire_entry s entry) <= queued_total s.
Proof. unfold retire_entry. etrans; [apply queued_release|]. by rewrite queued_forget. Qed.

Lemma queued_in_flight s key s' ok : releaseInFlightLocked s key = (s', ok) -> queued_total s' <= queued_total s.
Proof.
  unfold releaseInFlightLocked. destruct (es_keys s !! key) as [st|] eqn:E; [|intros [= <- _]; lia].
  destruct (checkedAdmissionRemaining _ 1); [|intros [= <- _]; lia].
  destruct (checkedAdmissionRemaining (es_inFlight s) 1); [|intros [= <- _]; lia].
  intros [= <- _]. by apply (queued_set_le s key st).
Qed.

Lemma remove_at_length {A} i (l : list A) : zlen (remove_at i l) <= zlen l.
Proof. unfold remove_at, zlen. rewrite length_app, length_take, length_drop. lia. Qed.

Lemma queued_unqueue s key st entry st' :
  es_keys s !! key = Some st -> unqueue st entry = Some (Some st') -> queued_total (set_key s key st') <= queued_total s.
Proof.
  intros E. unfold unqueue. destruct (index_of _ _) as [i|]; [|done].
  destruct (checkedAdmissionRemaining _ _); [|done]. intros [= <-]. apply (queued_set_le s key st); [done|apply remove_at_length].
Qed.

Lemma queued_cancel s id : queued_total (CancelQueued s id).1 <= queued_total s.
Proof.
  unfold CancelQueued. destruct (es_entries s !! id) as [entry|]; [|cbn; lia]. case_test; [cbn; lia|].
  destruct (es_keys s !! entry_key entry) as [st|] eqn:E; [|cbn; lia].
  destruct (unqueue st entry) as [[st'|]|] eqn:Eu; [|cbn; lia..]. cbn [fst].
  etrans; [apply queued_retire|by eapply queued_unqueue].
Qed.

Lemma queued_complete s id : queued_total (Complete s id).1 <= queued_total s.
Proof.
  unfold Complete. destruct (es_entries s !! id) as [entry|]; [|cbn; lia]. case_test; [cbn; lia|].
  destruct (releaseInFlightLocked _ _) as [s1 ok] eqn:Ef. apply queued_in_flight in Ef.
  destruct ok; cbn [fst]; [|done]. etrans; [apply queued_retire|done].
Qed.

Lemma queued_finish s g : queued_total (FinishCoalesced s g).1 <= queued_total s.
Proof.
  unfold FinishCoalesced. destruct (es_coalesced s !! g) as [id|]; [|cbn; lia].
  destruct (es_entries s !! id) as [entry|]; [|cbn; done]. cbv zeta. destruct (se_state entry).
  - destruct (es_keys s !! entry_key entry) as [st|] eqn:E; [|cbn [fst]; apply queued_retire].
    destruct (unqueue st entry) as [[st'|]|] eqn:Eu; cbn [fst]; [|apply queued_retire|lia].
    etrans; [apply queued_retire|by eapply queued_unqueue].
  - destruct (releaseInFlightLocked _ _) as [s1 ok] eqn:Ef. apply queued_in_flight in Ef.
    destruct ok; cbn [fst]; [|done]. etrans; [apply queued_retire|done].
Qed.

Lemma queued_dependents s key count : queued_total (releaseCoalescedDependents s key count) <= queued_total s.
Proof.
  unfold releaseCoalescedDependents. destruct (es_keys s !! key) as [st|] eqn:E; [|lia]. case_test; [lia|].
  destruct (checkedAdmissionRemaining _ _); [|lia]. etrans; [apply queued_release|]. by apply (queued_set_le s key st).
Qed.

Lemma expire_queue_length now queue s n s' kept n' expired ok :
  expire_queue now s n queue = (s', kept, n', expired, ok) -> es_keys s' = es_keys s /\ zlen kept <= zlen queue.
Proof.
  revert s n s' kept n' expired ok. induction queue as [|entry queue IH]; intros *; cbn [expire_queue].
  { intros [= <- <- _ _ _]. done. }
  rewrite !zlen_cons. destruct (_ <=? now); [destruct (checkedAdmissionRemaining _ _)|].
  all: destruct (expire_queue now _ _ queue) as [[[[s1 kept1] n1] expired1] ok1] eqn:E; apply IH in E as [E1 E2];
    intros [= <- <- _ _ _]; rewrite ?zlen_cons; split; [|lia].
  - rewrite E1. unfold forgetEntryLocked. by destruct (se_coalesced entry).
  - done.
  - done.
Qed.

Lemma queued_expire now order s : queued_total (expireLocked now s order).1.1 <= queued_total s.
Proof.
  revert s. induction order as [|key order IH]; intros s; [cbn; lia|]. cbn [expireLocked].
  destruct (es_keys s !! key) as [st|] eqn:E; [|apply IH].
  destruct (expire_queue now s _ _) as [[[[s1 kept] n] expired] ok] eqn:Eq. apply expire_queue_length in Eq as [E1 E2].
  cbv zeta. set (s2 := releaseIfEmpty _ key). destruct (expireLocked now s2 order) as [[s3 expired'] ok'] eqn:E3.
  specialize (IH s2). rewrite E3 in IH. cbn in *. etrans; [exact IH|]. etrans; [apply queued_release|].
  assert (Hs : queued_total s1 = queued_total s) by (unfold queued_total; by rewrite E1).
  rewrite <- Hs. apply (queued_set_le s1 key st); [by rewrite E1|done].
Qed.

Lemma queued_dispatch_key s key s' request :
  dispatch_key s key = (s', request) ->
  queued_total s' <= queued_total s - (if bool_decide (is_Some request) then 1 else 0).
Proof.
  unfold dispatch_key. destruct (es_keys s !! key) as [st|] eqn:E; [|intros [= <- <-]; cbn; lia].
  destruct (as_queue st) as [|entry queue] eqn:Eq; [intros [= <- <-]; cbn; lia|].
  destruct (checkedAdmissionRemaining _ _); [|intros [= <- <-]; cbn; lia].
  destruct (checkedAdmissionAdd (as_inFlight st) 1); [|intros [= <- <-]; cbn; lia].
  destruct (checkedAdmissionAdd (es_inFlight s) 1); [|intros [= <- <-]; cbn; lia].
  case_test; [intros [= <- <-]; cbn; lia|]. intros [= <- <-]. rewrite bool_decide_eq_true_2 by (by eexists).
  unfold queued_total. cbn. rewrite (ksum_insert _ _ _ _ _ E). cbn. rewrite Eq, zlen_cons. lia.
Qed.

Lemma queued_scope s : queued_total (nextScope s).1 = queued_total s.
Proof. unfold nextScope. by destruct (first_from _ _ _) as [[]|]. Qed.

Lemma queued_unit s scope : queued_total (nextUnit s scope).1 = queued_total s.
Proof. unfold nextUnit. by destruct (first_from _ _ _) as [[]|]. Qed.

Lemma queued_dispatch s now order s' request expired :
  Dispatch s now order = (s', (request, expired)) ->
  queued_total s' <= queued_total s - (if bool_decide (is_Some request) then 1 else 0).
Proof.
  unfold Dispatch. pose proof (queued_expire now order s) as H. destruct (expireLocked now s order) as [[s1 groups] ok].
  cbn in H. destruct (negb ok); [intros [= <- <- _]; cbn; lia|]. destruct (_ >=? _); [intros [= <- <- _]; cbn; lia|].
  pose proof (queued_scope s1) as H2. destruct (nextScope s1) as [s2 [scope|]]; cbn in H2; [|intros [= <- <- _]; cbn; lia].
  pose proof (queued_unit s2 scope) as H3. destruct (nextUnit s2 scope) as [s3 [key|]]; cbn in H3; [|intros [= <- <- _]; cbn; lia].
  destruct (dispatch_key s3 key) as [s4 r] eqn:E4. apply queued_dispatch_key in E4. intros [= <- <- _]. lia.
Qed.

(** * The endpoint's side *)

(** No queue has grown. *)
Definition drains (e e' : TCPEndpoint) : Prop := queued_total (nd_scheduler e') <= queued_total (nd_scheduler e).

Lemma drains_refl e : drains e e.
Proof. unfold drains. lia. Qed.

Lemma drains_trans e1 e2 e3 : drains e1 e2 -> drains e2 e3 -> drains e1 e3.
Proof. unfold drains. lia. Qed.

Lemma drains_foldl {A} (f : TCPEndpoint -> A -> TCPEndpoint) xs e :
  (forall e x, drains e (f e x)) -> drains e (foldl f e xs).
Proof.
  intros H. revert e. induction xs as [|x xs IH]; intros e; [apply drains_refl|]. cbn.
  eapply drains_trans; [apply H|apply IH].
Qed.

Lemma queued_foldl {A} (f : EndpointScheduler -> A -> EndpointScheduler) xs s :
  (forall s x, queued_total (f s x) <= queued_total s) -> queued_total (foldl f s xs) <= queued_total s.
Proof.
  intros H. revert s. induction xs as [|x xs IH]; intros s; [cbn; lia|]. cbn. etrans; [apply IH|apply H].
Qed.

Lemma put_drains e connectionID l : drains e (put_link e connectionID l).
Proof.
  unfold drains, put_link. destruct (nd_attached e !! connectionID); [|lia]. cbv zeta.
  set (s := foldl (fun s address => fst (FinishCoalesced s address)) _ _).
  assert (Hs : queued_total s <= queued_total (nd_scheduler e)); [|by destruct (lk_reconnects l >? 0)].
  subst s. etrans; [apply queued_foldl; intros; apply queued_finish|]. apply queued_foldl. intros s [address g].
  unfold release_dependents. destruct (_ !! _); [apply queued_dependents|lia].
Qed.

Lemma on_link_drains {A} e connectionID (missing : A) f : drains e (on_link e connectionID missing f).1.
Proof.
  unfold on_link. destruct (link_of e connectionID) as [l|]; [|apply drains_refl].
  destruct (f l). apply put_drains.
Qed.

Lemma fail_drains e r : drains e (failRequestSchedulingLocked e r).1.
Proof.
  unfold failRequestSchedulingLocked. destruct (er_group r); [apply on_link_drains|].
  case_test; [apply queued_cancel|]. pose proof (queued_complete (nd_scheduler e) (th_requestID (er_handle r))) as H.
  by destruct (Complete _ _).
Qed.

Lemma remove_scheduler e id : nd_scheduler (removeRequestLocked e id) = nd_scheduler e.
Proof. unfold removeRequestLocked. destruct (nd_requests e !! id); [|done]. by case_test. Qed.

Lemma remove_all_scheduler ids e : nd_scheduler (foldl removeRequestLocked e ids) = nd_scheduler e.
Proof. revert e. induction ids as [|id ids IH]; intros e; [done|]. cbn. by rewrite IH, remove_scheduler. Qed.

Lemma retry_state_scheduler e h lifecycle requires : nd_scheduler (set_retry_state e h lifecycle requires) = nd_scheduler e.
Proof. unfold set_retry_state. by case_test. Qed.

Lemma timer_fires_scheduler fields e : nd_scheduler (recordRequestTimerFires e fields) = nd_scheduler e.
Proof. unfold recordRequestTimerFires. revert e. induction fields as [|f fields IH]; intros e; [done|]. cbn. by rewrite IH. Qed.

Lemma end_expired_drains expired e : drains e (end_expired e expired).1.
Proof.
  revert e. induction expired as [|r expired IH]; intros e; [apply drains_refl|]. cbn [end_expired].
  destruct (end_expired _ expired) as [e1 rest] eqn:E1. follow E1. cbn [fst].
  eapply drains_trans; [|apply IH]. apply (fail_drains (end_lifecycle e (er_handle r))).
Qed.

Lemma end_expired_fields expired e : length (end_expired e expired).2 = length expired.
Proof.
  revert e. induction expired as [|r expired IH]; intros e; [done|]. cbn [end_expired].
  match goal with |- context [end_expired ?e0 expired] => specialize (IH e0); destruct (end_expired e0 expired) end.
  cbn in *. by rewrite IH.
Qed.

Lemma dispatch_drains e now order e' request :
  dispatch_scheduled e now order = (e', request) ->
  queued_total (nd_scheduler e') <= queued_total (nd_scheduler e) - (if bool_decide (is_Some request) then 1 else 0).
Proof.
  unfold dispatch_scheduled. destruct (Dispatch _ _ _) as [s [r expired]] eqn:Ed. apply queued_dispatch in Ed.
  intros [= <- <-]. assert (H : drains (e <| nd_scheduler := s |>) (foldl fail_expired (e <| nd_scheduler := s |>) expired));
    [|exact (Z.le_trans _ _ _ H Ed)]. apply drains_foldl.
  intros e1 address. unfold fail_expired. destruct (group_connection e1 address); [apply on_link_drains|apply drains_refl].
Qed.

(** ** Live requests *)

Lemma remove_size e id : (size (nd_requests (removeRequestLocked e id)) <= size (nd_requests e))%nat.
Proof. rewrite remove_requests. apply map_subseteq_size, delete_subseteq. Qed.

Lemma remove_size_lt e id :
  is_Some (nd_requests e !! id) -> (size (nd_requests (removeRequestLocked e id)) < size (nd_requests e))%nat.
Proof. intros [r Hr]. rewrite remove_requests. apply map_size_delete_Some in Hr. lia. Qed.

Lemma remove_all_size ids e : (size (nd_requests (foldl removeRequestLocked e ids)) <= size (nd_requests e))%nat.
Proof. revert e. induction ids as [|id ids IH]; intros e; [done|]. cbn. etrans; [apply IH|apply remove_size]. Qed.

(** The requests that expire leave the table. *)
Lemma prune_size e now :
  let '(e', fields) := pruneExpired e now in
  (size (nd_requests e') + (if (zlen fields >? 0)%Z then 1 else 0) <= size (nd_requests e))%nat /\ drains e e'.
Proof.
  unfold pruneExpired, take_requests. set (ids := sorted_keys _).
  set (requests := merge_sort expiry_before (omap _ ids)). set (e1 := foldl removeRequestLocked e ids).
  pose proof (end_expired_quiet requests e1) as Q. pose proof (end_expired_fields requests e1) as Hl.
  pose proof (end_expired_drains requests e1) as Hd. destruct (end_expired e1 requests) as [e2 fields]. cbn in Q, Hl, Hd.
  rewrite (qt_requests _ _ Q). split; [|unfold drains in *; subst e1; by rewrite remove_all_scheduler in Hd].
  destruct ids as [|id rest] eqn:Ei.
  - subst requests e1. cbn in Hl. destruct fields; [|done]. cbn. rewrite Nat.add_0_r. done.
  - assert (Hid : is_Some (nd_requests e !! id)).
    { assert (H : id ∈ sorted_keys (filter (fun p => request_expired now p.2 = true) (nd_requests e))).
      { fold ids. rewrite Ei. by left. }
      apply sorted_keys_elem in H as [r [H _]%map_lookup_filter_Some]. by eexists. }
    subst e1. cbn. pose proof (remove_all_size rest (removeRequestLocked e id)). pose proof (remove_size_lt e id Hid).
    destruct (zlen fields >? 0); lia.
Qed.

(** ** The loop *)

(** Live requests and queued entries bound the turns. *)
Definition turns (e : TCPEndpoint) : nat := size (nd_requests e) + Z.to_nat (queued_total (nd_scheduler e)).

Lemma tick_turns e : turns (tick e).1 = turns e.
Proof. done. Qed.

(** Taking a request out of the table and ending it. *)
Lemma taken_turns e e' id r :
  nd_requests e !! id = Some r -> nd_requests e' = nd_requests (removeRequestLocked e id) ->
  nd_scheduler e' = nd_scheduler e -> (turns (failRequestSchedulingLocked e' r).1 < turns e)%nat.
Proof.
  intros Hr H1 H2. pose proof (fail_drains e' r) as Hd. pose proof (quiet_fail e' r) as Q.
  pose proof (remove_size_lt e id (ex_intro _ r Hr)) as Hs. unfold turns. unfold failRequest in Q.
  rewrite (qt_requests _ _ Q), H1. unfold drains in Hd. rewrite H2 in Hd. lia.
Qed.

Lemma turn_decreases e order e' : dispatch_turn_of e order = DispatchAgain e' -> (turns e' < turns e)%nat.
Proof.
  unfold dispatch_turn_of. destruct (nd_nextDispatchID e =? 0); [done|].
  rewrite <- (tick_turns e). destruct (tick e) as [e1 now]. cbn [fst].
  destruct (dispatch_scheduled e1 now order) as [e2 scheduled] eqn:E2.
  pose proof (dispatch_drains _ _ _ _ _ E2) as Hd. pose proof (dispatch_scheduled_quiet e1 now order) as Q2. rewrite E2 in Q2. cbn in Q2.
  pose proof (prune_size e2 now) as Hp. destruct (pruneExpired e2 now) as [e3 fields]. destruct Hp as [Hp1 Hp2].
  rewrite (qt_requests _ _ Q2) in Hp1. unfold drains in Hp2. pose proof (queued_nonneg (nd_scheduler e3)).
  assert (H3 : (turns e3 + (if (zlen fields >? 0)%Z then 1 else 0) + (if bool_decide (is_Some scheduled) then 1 else 0) <= turns e1)%nat).
  { unfold turns. destruct (bool_decide (is_Some scheduled)), (zlen fields >? 0); lia. }
  assert (Hf : forall e0, nd_requests e0 = nd_requests e3 -> nd_scheduler e0 = nd_scheduler e3 -> turns (recordRequestTimerFires e0 fields) = turns e3).
  { intros e0 Hq Hs. unfold turns. by rewrite (qt_requests _ _ (timers_quiet e0 fields)), timer_fires_scheduler, Hq, Hs. }
  destruct scheduled as [scheduled|].
  - rewrite bool_decide_eq_true_2 in H3 by (by eexists). cbv zeta.
    cbv beta iota in H3. destruct (nd_requests e3 !! sr_RequestID scheduled) as [r|] eqn:Er.
    2: { intros [= <-]. rewrite Hf by done. lia. }
    destruct (_ || _); [|destruct (match nd_connections e3 !! er_connectionID r with Some _ => _ | None => _ end)].
    + intros [= <-]. eapply Nat.lt_le_trans; [apply (taken_turns e3 _ _ _ Er)|lia].
      * by rewrite <- (qt_requests _ _ (timers_quiet (removeRequestLocked e3 (sr_RequestID scheduled)) fields)).
      * cbn. by rewrite timer_fires_scheduler, remove_scheduler.
    + intros [= <-]. eapply Nat.lt_le_trans; [apply (taken_turns e3 _ _ _ Er)|lia].
      * rewrite <- (qt_requests _ _ (timers_quiet (removeRequestLocked e3 (sr_RequestID scheduled)) fields)).
        by apply qt_requests, quiet_retry_state.
      * by rewrite retry_state_scheduler, timer_fires_scheduler, remove_scheduler.
    + destruct (negb _); done.
  - destruct (zlen fields >? 0); [|done]. intros [= <-]. rewrite Hf by done. cbv beta iota in H3. lia.
Qed.

Lemma dispatch_loop_ends order fuel e :
  (turns e < fuel)%nat -> exists e' d, endpoint_dispatch_loop fuel e order = Some (e', d).
Proof.
  revert e. induction fuel as [|fuel IH]; intros e Hf; [lia|]. cbn [endpoint_dispatch_loop].
  destruct (dispatch_turn_of e order) as [e1|e1 d] eqn:Et; [|by eexists _, _].
  apply IH. apply turn_decreases in Et. lia.
Qed.

(** The request of a token that is returned can be written under it. *)
Lemma turn_token e order e' d :
  endpoint_ok e -> dispatch_turn_of e order = DispatchReturns e' (Some d) ->
  timelineAvailable e' = true /\ exists r c, dispatchLocked e' d = Some (r, c).
Proof.
  intros He. unfold dispatch_turn_of. destruct (nd_nextDispatchID e =? 0) eqn:En; [done|].
  assert (Q1 : quiet e (tick e).1) by apply quiet_tick. destruct (tick e) as [e1 now]. cbn [fst] in Q1.
  destruct (dispatch_scheduled e1 now order) as [e2 scheduled] eqn:E2.
  pose proof (dispatch_scheduled_quiet e1 now order) as Q2. rewrite E2 in Q2. cbn in Q2.
  pose proof (prune_good None e2 now) as G3. pose proof (prune_next e2 now) as N3. destruct (pruneExpired e2 now) as [e3 fields].
  cbn [fst] in G3, N3. rewrite (qt_nextDispatchID _ _ Q2), (qt_nextDispatchID _ _ Q1) in N3.
  destruct G3 as [He3 _]; [by apply (quiet_ok e1 e2), (quiet_ok e e1)|].
  destruct scheduled as [scheduled|]; [|by case_test]. cbv zeta. set (id := sr_RequestID scheduled).
  destruct (nd_requests e3 !! id) as [r|] eqn:Er; [|done]. destruct (_ || _); [done|].
  destruct (nd_connections e3 !! er_connectionID r) as [c|] eqn:Ec; [|done].
  destruct (ch_generation (ec_handle c) =? er_transportGeneration r) eqn:Eg; cbn [negb]; [|done].
  set (e4 := e3 <| nd_nextDispatchID := _ |> <| nd_requests := _ |>). set (r' := r <| er_phase := _ |> <| er_dispatchID := _ |>).
  set (e5 := record_event (recordRequestTimerFires e4 fields) _ _).
  assert (Q5 : quiet e4 e5) by (eapply quiet_trans; [apply timers_quiet|apply quiet_event]).
  destruct (timelineAvailable e5) eqn:Ht; cbn [negb]; [|done]. intros [= <- <-]. split; [done|]. exists r', c.
  destruct (ep_key _ He3 _ _ Er) as (_ & _ & _ & Hs). apply (ep_fresh _ He3) in Hs as [Hpos _].
  unfold dispatchLocked. cbn [td_endpoint td_dispatchID td_requestID].
  rewrite (qt_self _ _ Q5), (qt_requests _ _ Q5), (qt_connections _ _ Q5). subst e4. cbn. rewrite (qt_self _ _ (timers_quiet _ fields)). cbn.
  replace (id =? 0) with false by lia. rewrite Z.eqb_refl, N3, En. cbn. rewrite lookup_insert_eq. cbn.
  rewrite bool_decide_eq_true_2, Z.eqb_refl, Ec by done. cbn. rewrite Eg. subst r'. by rewrite N3.
Qed.

Lemma loop_token order fuel e e' d :
  endpoint_ok e -> endpoint_dispatch_loop fuel e order = Some (e', Some d) ->
  timelineAvailable e' = true /\ exists r c, dispatchLocked e' d = Some (r, c).
Proof.
  revert e. induction fuel as [|fuel IH]; intros e He; [done|]. cbn [endpoint_dispatch_loop].
  pose proof (turn_good None e order He) as [Hg _]. destruct (dispatch_turn_of e order) as [e1|e1 d1] eqn:Et.
  - by apply IH.
  - intros [= <- ->]. exact (turn_token _ _ _ _ He Et).
Qed.

(** C8: [Dispatch] returns, whatever is queued, live, expired or stale: its loop turns at
    most once more than there are live requests and queued entries, however the scheduler
    ranges over its keys.  A token it returns is accepted by the next [Write]. *)
Theorem endpoint_dispatch_returns self config remote remotes sockets clock e0 e order fuel :
  NewTCPEndpoint self config remote remotes sockets clock = Ok e0 -> runs e0 e -> (turns e < fuel)%nat ->
  exists e' d, EndpointDispatch fuel e order = Some (e', d) /\
    (forall token, d = Some token ->
       timelineAvailable e' = true /\ exists r c, dispatchLocked e' token = Some (r, c)).
Proof.
  intros Hn Hr Hf. pose proof (reached_ok _ _ _ _ _ _ _ _ Hn Hr) as He. unfold EndpointDispatch.
  destruct (negb (timelineAvailable e)); [by eexists _, _|].
  destruct (dispatch_loop_ends order fuel e Hf) as (e' & d & Hd). exists e', d. split; [done|].
  intros token ->. by eapply loop_token.
Qed.

Lemma demo_enqueued_run : runs demo_first demo_enqueued.
Proof.
  apply (run_trans _ demo_opened); [apply run_open|]. apply run_enqueue_read. intros e. apply run_refl.
Qed.

Lemma endpoint_dispatch_returns_witness :
  turns demo_enqueued = 2%nat /\
  exists e' d, EndpointDispatch 3 demo_enqueued demo_order = Some (e', d).
Proof.
  split; [vm_compute; reflexivity|].
  destruct (endpoint_dispatch_returns 1 demo_tcp_config (Ok "10.0.0.1:502") ∅ ∅ Z.of_nat demo_first demo_enqueued
              demo_order 3) as (e' & d & H & _); [done|apply demo_enqueued_run|vm_compute; lia|].
  exists e', d. exact H.
Defined.
